(* ===== verification/_CoqProject ===== *)
-Q . S2P
Prelude.v
Text.v
Json.v
JsonPath.v
Value.v
Shard.v
ShardSpec.v
Engine.v
EngineSpec.v
EngineMulti.v
EngineWhole.v
EngineActs.v
EngineEvict.v
EngineSnapshots.v
EngineTrace.v
StoreSnapshot.v
Store.v
GlobSpec.v
TypedSpec.v
Persistence.v
Model.v
Codec.v
CodecSpec.v
BinlogFile.v
BinlogIo.v
AppendSpec.v
Recovery.v
ManagedBinlog.v
SnapshotWriter.v
ReplicaState.v
Runtime.v
Compaction.v
HistorySpec.v
ManagedSpec.v
SealSpec.v
EntryEq.v
StoreSpec.v
ModelSpec.v
SnapshotSpec.v
RecoverySpec.v
InstallSpec.v
CommitSpec.v
MaintenanceSpec.v
Durability.v
SyncSpec.v
RuntimeSpec.v
Resp.v
RespReader.v
ReplicationWire.v
ReplicationStream.v
Execution.v
ExecutionSpec.v
Admission.v
Server.v
ServerSpec.v
ReplicaSpec.v
Replication.v
ReplicationSpec.v
ConnectionSpec.v
ServerInfo.v
Obp.v
Coordinator.v
PubSub.v
Config.v
Client.v
CoordinatorSpec.v
CoordinatorGroups.v
Routes.v
ObpServer.v
Session.v
Demo.v
EngineTheorems.v
CommandTheorems.v
CommitTheorems.v
DurabilityTheorems.v
ReplicaTheorems.v
ClientTheorems.v
Startup.v
Metrics.v
Bench.v
