(* ===== verification/Prelude.v ===== *)
(** * OnyxDB: a verification library (root file)

    OnyxDB is a key-value server: a sharded in-memory engine with typed values,
    a binary log and snapshots for durability, a coordinator that commits groups
    of mutations, RESP and OBP front ends, and master/replica replication.  This
    library translates its code (src/src/, in Rust) into executable Gallina
    definitions and proves what makes it correct.  Names follow the source; this
    file holds what all others share: bytes, integers at their widths, clocks,
    results, iteration order, and the generic lemmas on lists and maps.

    ** The program and its model

    - Values and engine.  [Text], [Json], [JsonPath] (store/json_path.rs) and
      [Value] hold the data; [Shard] and [Engine] are engine.rs: a shard is a map
      with its counters, flat or layered while a snapshot is taken; the engine is
      sixty-four of them.  [StoreSnapshot] and [Store] are store.rs: the typed
      operations, and the materialisation of a snapshot with writers in between.
      [Admission] is the mutation attempt of store.rs: memory and key limits,
      eviction, rollback.
    - Commands.  [Execution] is execution.rs and command.rs: every command, its
      affected keys, and which commands write.  [Model] (persistence/model.rs)
      derives the effects of a mutation and applies them.
    - Durability.  [Codec] (persistence/codec.rs) frames records and encodes
      entries and batches; [BinlogFile] and [Recovery] (persistence/recovery.rs)
      scan, repair, load and replay the files; [BinlogIo] and [ManagedBinlog]
      (persistence/runtime.rs) append, roll back, seal and truncate the log over a
      directory in which every system call may fail; [SnapshotWriter],
      [ReplicaState] (persistence/replica_state.rs), [Runtime] and [Compaction]
      are the commit runtime: acceptance of batches, write budget, rollover,
      compaction.  [Durability] interleaves them as a step relation.
    - Server.  [Server] (main.rs) is the state around the runtime: the backlog
      and the channel that feed replicas, the failure states, replicated effects,
      full synchronization, promotion.  [Coordinator] (commit_coordinator.rs)
      prepares commands, groups, transactions and OBP mutations and commits a
      group on that state.
    - Connections.  [Resp] and [RespReader] (resp.rs) decode commands from a
      buffer and from a connection; [ReplicationWire] and [Replication] (main.rs)
      are the records of the replication stream, the master's side of SYNC3, the
      replica's side of a connection and the loop that reconnects.
    - Clients.  [ServerInfo] (main.rs) is INFO with the counters of the process;
      [Routes] (main.rs, commit_coordinator.rs) the ways a command, a group, a
      transaction or a binary mutation takes to the coordinator or, without one,
      to the log; [Session] (main.rs) a RESP connection with authentication,
      transactions and pipelined writes; [PubSub] (main.rs) the subscribers, as
      steps of connections side by side; [Obp] (protocol.rs) the frames of the
      binary protocol and [ObpServer] (main.rs) its commands and connections.
      [Config] (config.rs) reads the command line and the environment.  [Client]
      (client.rs, onyx-cli.rs) is the other end: the client library's reader and
      writer, and the command-line client's splitting and routing of a line.
    - Process.  [Startup] (main.rs, persistence/runtime.rs) is [main] from the
      command line to the end: the lock on the directory, recovery, listeners,
      supervision of tasks that may panic, fail-stop and shutdown.  [Metrics]
      (main.rs, commit_coordinator.rs, persistence/runtime.rs) has the counters as
      atomic cells that tasks update step by step, their rendering at the metrics
      endpoint, and the table that the acknowledgements of replicas feed.
      [Bench] (onyx-bench.rs) is the load generator that reads that endpoint.

    The files whose names end in Spec (and [GlobSpec], [EngineMulti],
    [EngineWhole], [EngineActs], [EngineEvict], [EngineSnapshots], [EngineTrace],
    [EntryEq], [CoordinatorGroups], [ReplicationStream]) hold the lemmas of the
    components; a file that models a component without such a companion holds its
    lemmas after the definitions.  The files whose names end in Theorems state the
    properties with instances on concrete data, which [Demo] provides.

    ** How it is modelled

    A pure function is a function; a mutation passes its state; a fallible one
    returns [result], with the source's messages; a panic is [None].  Programs on
    the store are in the state-and-panic monad [prog] of [Store].  Locks are the
    atomicity of one operation; where the code lets other tasks run in between,
    the model has separate steps, and theorems quantify over what happens there.
    Integers are [Z] with the source's checked, saturating or wrapping operation
    written out.  The wall clock is a function from the number of the reading
    ([clock]); theorems hold for all readings up to a time [T].  A file system is
    a map from names to contents with a list of outcomes for the system calls to
    come; a message to the log's worker may be answered, undelivered or lost.  A
    connection is a list of chunks and an ending; [None] in place of a read means
    that a stated bound on the rounds was too small, and theorems show that it is
    not.

    Third-party code is a parameter: the CRC ([Crc32]), compression ([Gzip]),
    serde_json's text and numbers ([SerdeJson], [JsonNumber]), the text of floats
    ([FloatText]), debug texts of values ([DebugText]), IP addresses ([IpText]) and
    the iteration order of hash maps ([HashOrder]), each a class whose laws are
    what the code relies on.  [Demo], [ClientTheorems],
    [Startup] and [Bench] instantiate all of them.

    Fuel: a scan or load of a file takes one round per byte; an append one per
    byte and per outcome still to come; glob matching the product of the lengths;
    eviction one per key; a line or a payload one per byte of the stream, and so
    do the loops over replication frames and over the frames of a binary
    connection's buffer, since each takes a byte; a worker of the benchmark one per
    request.  Theorems that a loop returns are proved with these amounts.

    ** What is proved

    - Engine and store: the engine refines one map with expirations and exact
      counters; snapshots are isolated; eviction ends and removes only what it
      reports; lists, hashes and sets behave as deques, maps and sets; JSON path
      operations do what they say or change nothing; glob matching agrees with
      its specification except where a star in a key misleads it.
    - Commands and commits: every command runs without a panic and changes only
      its affected keys; a prepared mutation carries a batch that replays it and
      a rollback that undoes it; a group is all or nothing in memory and on disk.
    - Durability: an append is all or nothing or reports an unknown outcome;
      sealing, snapshots and compaction keep every batch in every state a crash
      leaves; recovery rebuilds exactly what was acknowledged; with the Always
      policy a power cut loses nothing.
    - Replication: the streaming reader agrees with the buffered decoder and
      always returns; records survive the wire or are refused; whatever is cut
      off and whatever fails, a replica is at a point of its master's history;
      effects, full synchronizations and promotions are atomic; a replica
      promotes itself only after the failover timeout.
    - Clients: every command and frame is answered and moves the store and the
      stored history together, or the node stops; nothing is served before
      authentication and nothing changes on a replica; a transaction runs exactly
      its queue or nothing; frames survive the wire, and a binary connection
      answers them as one by one however their bytes arrive; PUBLISH counts the
      followers of a channel, and they are sent its messages in order; an accepted
      command line means what it says.  What the client library sends is what the
      server reads, what the server answers is what the client reads, and a quoted
      line is split back into its words.

    - Process: a start serves exactly what recovery gives, or gives up with its
      lock released and its files as they were; no two processes own a directory;
      a clean stop and a restart show the same data, and after an unknown outcome
      nothing is saved.  The counters end with the values of an execution one
      task at a time and account for all work started; the benchmark reads them
      back exactly, divides and sends its requests within the client's limits,
      ends, and reports every request it has sent as answered or lost.

    ** Not modelled

    Logging; sockets, timers and the terminal themselves, with the spawning of a
    task per connection; the printed texts of the benchmark's reports; code that
    only tests use (the legacy command records of the codec) or that is never
    reached (the reader of legacy text snapshots, which recovery refuses before).
    Background maintenance that a replicated effect starts runs beside the
    connection and is covered by the interleavings of [Durability], not by the
    connection's theorem. *)

From Stdlib Require Import ZArith Lia.
From Stdlib Require Import Strings.Byte.
From stdpp Require Import base gmap list strings numbers sorting.

Open Scope Z_scope.

(** ** Bytes *)

Abbreviation bytes := (list byte).

#[global] Instance byte_eq_decision : EqDecision byte := Byte.byte_eq_dec.

#[global] Program Instance byte_countable : Countable byte :=
  inj_countable Byte.to_N Byte.of_N Byte.of_to_N.

(** The numeric value of a byte ([byte as u64] in the source). *)
Definition byte_Z (b : byte) : Z := Z.of_N (Byte.to_N b).

(** Truncation to eight bits ([value as u8] in the source). *)
Definition Z_byte (z : Z) : byte :=
  match Byte.of_N (Z.to_N (z mod 256)) with
  | Some b => b
  | None => x00
  end.

Lemma byte_Z_range b : 0 <= byte_Z b < 256.
Proof.
  unfold byte_Z. pose proof (Byte.to_N_bounded b) as H. lia.
Qed.

Lemma byte_Z_of_Z z : byte_Z (Z_byte z) = z mod 256.
Proof.
  unfold byte_Z, Z_byte.
  pose proof (Z.mod_pos_bound z 256 ltac:(lia)) as Hb.
  destruct (Byte.of_N (Z.to_N (z mod 256))) as [b|] eqn:E.
  - apply Byte.to_of_N in E. rewrite E. lia.
  - apply Byte.of_N_None_iff in E. lia.
Qed.

Lemma Z_byte_of_byte b : Z_byte (byte_Z b) = b.
Proof.
  unfold Z_byte. rewrite Z.mod_small by apply byte_Z_range.
  unfold byte_Z. rewrite N2Z.id, Byte.of_to_N. reflexivity.
Qed.

Lemma byte_Z_inj b1 b2 : byte_Z b1 = byte_Z b2 -> b1 = b2.
Proof. intros H. rewrite <- (Z_byte_of_byte b1), H. apply Z_byte_of_byte. Qed.

(** Byte-string literals. *)
Definition bs (s : string) : bytes := String.list_byte_of_string s.

Definition bytes_eqb (a b : bytes) : bool := bool_decide (a = b).

Lemma bytes_eqb_spec a b : reflect (a = b) (bytes_eqb a b).
Proof. unfold bytes_eqb. case_bool_decide; constructor; done. Qed.

Lemma bytes_eqb_refl a : bytes_eqb a a = true.
Proof. by apply bool_decide_eq_true_2. Qed.

(** Length of a buffer as a machine word. *)
Definition len {A} (l : list A) : Z := Z.of_nat (length l).

Lemma len_nonneg {A} (l : list A) : 0 <= len l.
Proof. unfold len. lia. Qed.

Lemma len_app {A} (l k : list A) : len (l ++ k) = len l + len k.
Proof. unfold len. rewrite length_app. lia. Qed.

Lemma len_cons {A} (a : A) l : len (a :: l) = 1 + len l.
Proof. unfold len. simpl. lia. Qed.

Lemma len_nil {A} : len (@nil A) = 0.
Proof. reflexivity. Qed.

(** ** Machine integers

    [u64], [usize] (64-bit targets) and [i64] are integers with their bounds
    written out; each arithmetic flavour the source uses is a definition. *)

Definition U64_MAX : Z := 18446744073709551615.
Definition USIZE_MAX : Z := U64_MAX.
Definition U32_MAX : Z := 4294967295.
Definition U16_MAX : Z := 65535.
Definition U8_MAX : Z := 255.
Definition I64_MAX : Z := 9223372036854775807.
Definition I64_MIN : Z := -9223372036854775808.

Definition wrap64 (z : Z) : Z := z mod (U64_MAX + 1).
Definition sat_add (a b : Z) : Z := Z.min USIZE_MAX (a + b).
Definition sat_sub (a b : Z) : Z := Z.max 0 (a - b).
Definition sat_mul (a b : Z) : Z := Z.min USIZE_MAX (a * b).
Definition checked_add (a b : Z) : option Z :=
  if a + b <=? U64_MAX then Some (a + b) else None.
Definition checked_sub (a b : Z) : option Z :=
  if b <=? a then Some (a - b) else None.
Definition checked_mul (a b : Z) : option Z :=
  if a * b <=? U64_MAX then Some (a * b) else None.

Definition in_i64 (z : Z) : bool := (I64_MIN <=? z) && (z <=? I64_MAX).
Definition checked_add_i64 (a b : Z) : option Z :=
  if in_i64 (a + b) then Some (a + b) else None.
Definition checked_neg_i64 (a : Z) : option Z :=
  if in_i64 (- a) then Some (- a) else None.

Lemma sat_add_exact a b : a + b <= USIZE_MAX -> sat_add a b = a + b.
Proof. unfold sat_add. lia. Qed.

Lemma sat_sub_exact a b : b <= a -> sat_sub a b = a - b.
Proof. unfold sat_sub. lia. Qed.

Lemma checked_add_Some a b c : checked_add a b = Some c -> c = a + b /\ a + b <= U64_MAX.
Proof.
  unfold checked_add. destruct (a + b <=? U64_MAX) eqn:E; [|done]. intros [= <-].
  apply Z.leb_le in E. done.
Qed.

(** ** Results *)

Inductive result (E A : Type) : Type :=
| Ok (a : A)
| Err (e : E).
Arguments Ok {E A} a.
Arguments Err {E A} e.

#[global] Instance result_ret {E} : MRet (result E) := fun A a => Ok a.
#[global] Instance result_bind {E} : MBind (result E) :=
  fun A B f m => match m with Ok a => f a | Err e => Err e end.
#[global] Instance result_fmap {E} : FMap (result E) :=
  fun A B f m => match m with Ok a => Ok (f a) | Err e => Err e end.

(** [Option::ok_or]. *)
Definition ok_or {E A} (o : option A) (e : E) : result E A :=
  match o with Some a => Ok a | None => Err e end.

Lemma ok_or_Ok {E A} (o : option A) (e : E) a : ok_or o e = Ok a -> o = Some a.
Proof. destruct o; simpl; congruence. Qed.

Lemma result_bind_Ok {E A B} (m : result E A) (f : A -> result E B) b :
  (m ≫= f) = Ok b <-> exists a, m = Ok a /\ f a = Ok b.
Proof.
  destruct m as [a|e]; simpl; split.
  - eauto.
  - intros (a' & Ha & Hf). congruence.
  - discriminate.
  - intros (a' & Ha & Hf). congruence.
Qed.

(** ** The clock

    [clock::unix_seconds] is read several times by one operation and may
    advance in between.  A [clock] is the stream of the readings an operation
    performs, in program order; an operation that calls another one after [n]
    readings of its own hands it [tick n clk].  Theorems quantify over every
    stream, so nothing assumes that time stands still inside an operation. *)

Definition clock := nat -> Z.
Definition tick (n : nat) (clk : clock) : clock := fun i => clk (n + i)%nat.

(** A clock none of whose readings is later than [T]. *)
Definition clock_before (clk : clock) (T : Z) : Prop := forall i, clk i <= T.

Lemma clock_before_tick n clk T : clock_before clk T -> clock_before (tick n clk) T.
Proof. intros H i. apply H. Qed.

Create HintDb onyx.
#[export] Hint Resolve clock_before_tick : onyx.
#[export] Hint Resolve len_nonneg byte_Z_range : onyx.

(** ** Hash maps and hash sets

    A [HashMap] is a finite map and a [HashSet] a finite set; the order in
    which they are iterated is unspecified, so it is a parameter: any order
    that enumerates exactly the contents. *)

Class HashOrder := {
  hm_iter : forall {A : Type}, gmap bytes A -> list (bytes * A);
  hs_iter : gset bytes -> list bytes;
  hm_iter_perm : forall {A : Type} (m : gmap bytes A), hm_iter m ≡ₚ map_to_list m;
  hs_iter_perm : forall s : gset bytes, hs_iter s ≡ₚ elements s
}.

(** The order of stdpp's enumeration, for running the definitions. *)
Definition canonical_order : HashOrder := {|
  hm_iter A m := map_to_list m;
  hs_iter s := elements s;
  hm_iter_perm A m := Permutation_refl _;
  hs_iter_perm s := Permutation_refl _
|}.

(** ** Automation *)

(** Case analysis on every boolean test of the goal or of a hypothesis. *)
Ltac case_tests :=
  repeat match goal with
  | H : context [if ?b then _ else _] |- _ => destruct b eqn:?
  | |- context [if ?b then _ else _] => destruct b eqn:?
  end.

(** Turn boolean comparisons in the context into propositions. *)
Ltac prop_tests :=
  repeat match goal with
  | H : (_ && _) = true |- _ => apply andb_true_iff in H as [? ?]
  | H : (_ || _) = false |- _ => apply orb_false_iff in H as [? ?]
  | H : (_ <=? _) = true |- _ => apply Z.leb_le in H
  | H : (_ <=? _) = false |- _ => apply Z.leb_gt in H
  | H : (_ <? _) = true |- _ => apply Z.ltb_lt in H
  | H : (_ <? _) = false |- _ => apply Z.ltb_ge in H
  | H : (_ =? _) = true |- _ => apply Z.eqb_eq in H
  | H : (_ =? _) = false |- _ => apply Z.eqb_neq in H
  | H : negb _ = true |- _ => apply negb_true_iff in H
  | H : negb _ = false |- _ => apply negb_false_iff in H
  | H : bool_decide _ = true |- _ => apply bool_decide_eq_true in H
  | H : bool_decide _ = false |- _ => apply bool_decide_eq_false in H
  end.

(** Inverts chains of [result] and [option] binds in a hypothesis. *)
Ltac inv_binds :=
  repeat match goal with
  | H : (_ ≫= _) = Ok _ |- _ =>
      let a := fresh "a" in let Ha := fresh "Ha" in
      apply result_bind_Ok in H as (a & Ha & H)
  | H : (_ ≫= _) = Some _ |- _ =>
      let a := fresh "a" in let Ha := fresh "Ha" in
      apply bind_Some in H as (a & Ha & H)
  | H : ok_or _ _ = Ok _ |- _ => apply ok_or_Ok in H
  | H : checked_add _ _ = Some _ |- _ => apply checked_add_Some in H as [? ?]
  | H : Ok _ = Ok _ |- _ => injection H as H
  | H : Err _ = Ok _ |- _ => discriminate H
  | H : Ok _ = Err _ |- _ => discriminate H
  end.

(** ** Generic list lemmas *)

(** [slice[start..stop]] for indices already checked against the length. *)
Definition slice {A} (l : list A) (start stop : Z) : list A :=
  take (Z.to_nat (stop - start)) (drop (Z.to_nat start) l).

(** [slice.get(start..stop)]. *)
Definition get_range {A} (l : list A) (start stop : Z) : option (list A) :=
  if (start <=? stop) && (stop <=? len l) then Some (slice l start stop) else None.

Lemma slice_app_middle {A} (p m q : list A) :
  slice (p ++ m ++ q) (len p) (len p + len m) = m.
Proof.
  unfold slice, len.
  replace (Z.of_nat (length p) + Z.of_nat (length m) - Z.of_nat (length p))
    with (Z.of_nat (length m)) by lia.
  rewrite !Nat2Z.id, drop_app_length, take_app_length. reflexivity.
Qed.

Lemma get_range_app_middle {A} (p m q : list A) :
  get_range (p ++ m ++ q) (len p) (len p + len m) = Some m.
Proof.
  unfold get_range. rewrite slice_app_middle, !len_app.
  pose proof (len_nonneg m). pose proof (len_nonneg q).
  replace (len p <=? len p + len m) with true by (symmetry; apply Z.leb_le; lia).
  replace (len p + len m <=? len p + (len m + len q)) with true
    by (symmetry; apply Z.leb_le; lia).
  reflexivity.
Qed.

(** [slice.get(i)]. *)
Definition nth_byte {A} (l : list A) (i : Z) : option A :=
  if i <? 0 then None else l !! Z.to_nat i.

Lemma nth_byte_app_head {A} (p : list A) a q :
  nth_byte (p ++ a :: q) (len p) = Some a.
Proof.
  unfold nth_byte, len.
  replace (Z.of_nat (length p) <? 0) with false by (symmetry; apply Z.ltb_ge; lia).
  rewrite Nat2Z.id. by rewrite list_lookup_middle.
Qed.

(** [slice.strip_prefix]. *)
Fixpoint strip_prefix (p l : bytes) : option bytes :=
  match p, l with
  | [], _ => Some l
  | a :: p', b :: l' => if bool_decide (a = b) then strip_prefix p' l' else None
  | _ :: _, [] => None
  end.

Definition starts_with (l p : bytes) : bool :=
  match strip_prefix p l with Some _ => true | None => false end.

Definition strip_suffix (p l : bytes) : option bytes :=
  match strip_prefix (rev p) (rev l) with
  | Some r => Some (rev r)
  | None => None
  end.

Lemma strip_prefix_app p l : strip_prefix p (p ++ l) = Some l.
Proof.
  induction p as [|a p IH]; simpl; [by destruct l|].
  rewrite bool_decide_eq_true_2 by done. apply IH.
Qed.

Lemma strip_prefix_Some p l r : strip_prefix p l = Some r -> l = p ++ r.
Proof.
  revert l. induction p as [|a p IH]; intros l; simpl.
  - intros H. destruct l; by injection H as <-.
  - destruct l as [|b l]; [done|]. case_bool_decide; [|done].
    intros H'%IH. by subst.
Qed.

Lemma strip_suffix_app p l : strip_suffix p (l ++ p) = Some l.
Proof.
  unfold strip_suffix. rewrite rev_app_distr, strip_prefix_app.
  by rewrite rev_involutive.
Qed.

Lemma strip_suffix_Some p l r : strip_suffix p l = Some r -> l = r ++ p.
Proof.
  unfold strip_suffix. destruct (strip_prefix (rev p) (rev l)) as [x|] eqn:E; [|done].
  intros [= <-]. apply strip_prefix_Some in E.
  apply (f_equal (@rev byte)) in E. rewrite rev_involutive, rev_app_distr in E.
  by rewrite rev_involutive in E.
Qed.

Lemma starts_with_app p l : starts_with (p ++ l) p = true.
Proof. unfold starts_with. by rewrite strip_prefix_app. Qed.
