(* ===== verification/Text.v ===== *)
(** * Text: the standard-library text routines the source relies on

    UTF-8 validation and lossy decoding ([str::from_utf8],
    [String::from_utf8_lossy]), splitting a string into characters, trimming,
    ASCII case conversion, and the decimal conversions of [parse::<u64>],
    [parse::<i64>] and [to_string].  A [String] is the list of its UTF-8 bytes
    and a [char] is the byte list that encodes it, so two characters are equal
    exactly when their encodings are. *)

From Stdlib Require Import ZArith Lia.
From Stdlib Require Import Strings.Byte.
From stdpp Require Import base gmap list strings numbers.
From S2P Require Import Prelude.

Open Scope Z_scope.

(** ** UTF-8 *)

Module Utf8.

Definition in_range (lo hi : Z) (b : byte) : bool :=
  (lo <=? byte_Z b) && (byte_Z b <=? hi).

Definition continuation (b : byte) : bool := in_range 128 191 b.

(** Number of bytes a well-formed sequence with this first byte has; zero when
    no sequence starts with it. *)
Definition width (b : byte) : nat :=
  if in_range 0 127 b then 1
  else if in_range 194 223 b then 2
  else if in_range 224 239 b then 3
  else if in_range 240 244 b then 4
  else 0.

(** The second byte a three- or four-byte sequence allows. *)
Definition second_ok (b0 b1 : byte) : bool :=
  let z := byte_Z b0 in
  if z =? 224 then in_range 160 191 b1
  else if z =? 237 then in_range 128 159 b1
  else if z =? 240 then in_range 144 191 b1
  else if z =? 244 then in_range 128 143 b1
  else continuation b1.

(** The first chunk of a non-empty input: whether it is a character, and how
    many bytes it takes (a maximal ill-formed prefix when it is not). *)
Definition next_chunk (s : bytes) : bool * nat :=
  match s with
  | [] => (false, 0%nat)
  | b0 :: r =>
    match width b0 with
    | 1%nat => (true, 1%nat)
    | 2%nat =>
      match r with
      | b1 :: _ => if continuation b1 then (true, 2%nat) else (false, 1%nat)
      | [] => (false, 1%nat)
      end
    | 3%nat =>
      match r with
      | b1 :: r1 =>
        if second_ok b0 b1 then
          match r1 with
          | b2 :: _ => if continuation b2 then (true, 3%nat) else (false, 2%nat)
          | [] => (false, 2%nat)
          end
        else (false, 1%nat)
      | [] => (false, 1%nat)
      end
    | 4%nat =>
      match r with
      | b1 :: r1 =>
        if second_ok b0 b1 then
          match r1 with
          | b2 :: r2 =>
            if continuation b2 then
              match r2 with
              | b3 :: _ => if continuation b3 then (true, 4%nat) else (false, 3%nat)
              | [] => (false, 3%nat)
              end
            else (false, 2%nat)
          | [] => (false, 2%nat)
          end
        else (false, 1%nat)
      | [] => (false, 1%nat)
      end
    | _ => (false, 1%nat)
    end
  end.

(** The chunks of an input, each a character or an ill-formed run. *)
Fixpoint chunks_fuel (fuel : nat) (s : bytes) : list (bool * bytes) :=
  match fuel, s with
  | O, _ | _, [] => []
  | S f, _ :: _ =>
    let '(ok, n) := next_chunk s in
    (ok, take n s) :: chunks_fuel f (drop n s)
  end.

Definition chunks (s : bytes) : list (bool * bytes) := chunks_fuel (length s) s.

(** U+FFFD. *)
Definition replacement : bytes := [xef; xbf; xbd].

(** [String::from_utf8_lossy]. *)
Definition from_utf8_lossy (s : bytes) : bytes :=
  concat (map (fun c : bool * bytes => if fst c then snd c else replacement) (chunks s)).

(** [str::from_utf8(s).is_ok()]. *)
Definition valid (s : bytes) : bool := forallb fst (chunks s).

(** [str::from_utf8(s).ok()]. *)
Definition from_utf8 (s : bytes) : option bytes := if valid s then Some s else None.

(** [s.chars()] of a valid string. *)
Definition chars (s : bytes) : list bytes := map snd (chunks s).

Lemma next_chunk_bounds s :
  s <> [] -> (1 <= snd (next_chunk s) <= length s)%nat.
Proof.
  intros Hs. destruct s as [|b0 r]; [done|]. unfold next_chunk.
  repeat case_match; simpl; lia.
Qed.

Lemma chunks_fuel_S s f g :
  (length s <= f)%nat -> (length s <= g)%nat -> chunks_fuel f s = chunks_fuel g s.
Proof.
  revert s g. induction f as [|f IH]; intros s g Hf Hg.
  - destruct s; simpl in *; [|lia]. by destruct g.
  - destruct s as [|b r]; [by destruct g|].
    destruct g as [|g]; [simpl in Hg; lia|]. cbn [chunks_fuel].
    pose proof (next_chunk_bounds (b :: r) ltac:(done)) as Hb.
    destruct (next_chunk (b :: r)) as [ok n]. cbn [snd] in Hb.
    f_equal. apply IH; rewrite length_drop; lia.
Qed.

Lemma chunks_step s :
  s <> [] ->
  chunks s = (fst (next_chunk s), take (snd (next_chunk s)) s)
             :: chunks (drop (snd (next_chunk s)) s).
Proof.
  intros Hs. unfold chunks at 1. destruct s as [|b r]; [done|].
  cbn [length chunks_fuel].
  pose proof (next_chunk_bounds (b :: r) ltac:(done)) as Hb.
  destruct (next_chunk (b :: r)) as [ok n]. cbn [fst snd] in *.
  f_equal. unfold chunks. apply chunks_fuel_S; [|lia].
  rewrite length_drop. cbn [length] in *. lia.
Qed.

(** Induction along the chunks of an input. *)
Lemma chunk_ind (P : bytes -> Prop) :
  P [] ->
  (forall s, s <> [] -> P (drop (snd (next_chunk s)) s) -> P s) ->
  forall s, P s.
Proof.
  intros Hn Hc s. induction s as [s IH] using (induction_ltof1 _ (@length byte)).
  unfold ltof in IH. destruct s as [|b r]; [done|].
  apply Hc; [done|]. apply IH. rewrite length_drop.
  pose proof (next_chunk_bounds (b :: r) ltac:(done)). simpl in *. lia.
Qed.

Lemma concat_chunks s : concat (map snd (chunks s)) = s.
Proof.
  induction s as [|s Hs IH] using chunk_ind; [done|].
  rewrite chunks_step by done. cbn [map concat snd]. rewrite IH.
  apply take_drop.
Qed.

Lemma concat_chars s : concat (chars s) = s.
Proof. apply concat_chunks. Qed.

(** Lossy decoding is the identity on well-formed input. *)
Lemma from_utf8_lossy_valid s : valid s = true -> from_utf8_lossy s = s.
Proof.
  intros Hv. rewrite <- (concat_chunks s) at 2. unfold from_utf8_lossy, valid in *.
  f_equal. induction (chunks s) as [|[ok c] l IH]; [done|].
  simpl in *. apply andb_true_iff in Hv as [-> Hv]. by rewrite IH.
Qed.

(** A chunk that is a character depends only on its own bytes. *)
Lemma next_chunk_char s t :
  fst (next_chunk s) = true ->
  next_chunk (take (snd (next_chunk s)) s ++ t) = next_chunk s.
Proof.
  destruct s as [|b0 [|b1 [|b2 [|b3 r]]]]; unfold next_chunk;
    repeat (case_match; simplify_eq/=; try done).
Qed.

Lemma valid_step s :
  s <> [] ->
  valid s = fst (next_chunk s) && valid (drop (snd (next_chunk s)) s).
Proof. intros Hs. unfold valid. by rewrite chunks_step. Qed.

(** Concatenating well-formed strings gives a well-formed string, and splits
    into the characters of the two. *)
Lemma chunks_app s t : valid s = true -> chunks (s ++ t) = chunks s ++ chunks t.
Proof.
  induction s as [|s Hs IH] using chunk_ind; [done|]. intros Hv.
  rewrite valid_step in Hv by done. apply andb_true_iff in Hv as [Hc Hv].
  specialize (IH Hv).
  assert (Hst : s ++ t <> []) by (by destruct s).
  assert (Hn : next_chunk (s ++ t) = next_chunk s).
  { rewrite <- (take_drop (snd (next_chunk s)) s) at 1.
    rewrite <- app_assoc. by apply next_chunk_char. }
  pose proof (next_chunk_bounds s Hs).
  rewrite (chunks_step (s ++ t)), (chunks_step s), Hn by done.
  rewrite take_app_le, drop_app_le by lia. rewrite IH. done.
Qed.

Lemma valid_app s t : valid s = true -> valid t = true -> valid (s ++ t) = true.
Proof.
  intros Hs Ht. unfold valid. rewrite chunks_app by done.
  rewrite forallb_app. unfold valid in Hs, Ht. by rewrite Hs, Ht.
Qed.

(** A single character is a well-formed string. *)
Lemma valid_char s :
  s <> [] -> fst (next_chunk s) = true -> valid (take (snd (next_chunk s)) s) = true.
Proof.
  intros Hs Hc. set (c := take (snd (next_chunk s)) s).
  pose proof (next_chunk_bounds s Hs) as Hb.
  assert (Hl : length c = snd (next_chunk s)) by (unfold c; rewrite length_take; lia).
  assert (Hn : next_chunk c = next_chunk s).
  { rewrite <- (next_chunk_char s []) by done. by rewrite app_nil_r. }
  assert (Hne : c <> []) by (intros Hx; rewrite Hx in Hl; simpl in Hl; lia).
  rewrite valid_step, Hn, Hc by done. rewrite <- Hl, drop_all. done.
Qed.

(** Lossy decoding always yields a well-formed string. *)
Lemma from_utf8_lossy_is_valid s : valid (from_utf8_lossy s) = true.
Proof.
  induction s as [|s Hs IH] using chunk_ind; [done|].
  unfold from_utf8_lossy. rewrite chunks_step by done. cbn [map concat fst snd].
  apply valid_app; [|exact IH].
  destruct (fst (next_chunk s)) eqn:Hc; [by apply valid_char|reflexivity].
Qed.

End Utf8.

(** The characters of a concatenation. *)
Lemma chars_app s t : Utf8.valid s = true -> Utf8.chars (s ++ t) = Utf8.chars s ++ Utf8.chars t.
Proof. intros Hv. unfold Utf8.chars. by rewrite Utf8.chunks_app, map_app. Qed.

(** ** Case conversion and trimming *)

Definition ascii_upper (b : byte) : byte :=
  if (97 <=? byte_Z b) && (byte_Z b <=? 122) then Z_byte (byte_Z b - 32) else b.

Definition ascii_lower (b : byte) : byte :=
  if (65 <=? byte_Z b) && (byte_Z b <=? 90) then Z_byte (byte_Z b + 32) else b.

(** [to_uppercase] as the source uses it: the result is only compared with
    words over the letters A, E, N, P, T and X, which no character outside
    ASCII has as its upper case. *)
Definition to_uppercase (s : bytes) : bytes := map ascii_upper s.
Definition to_ascii_lowercase (s : bytes) : bytes := map ascii_lower s.
Definition eq_ignore_ascii_case (a b : bytes) : bool :=
  bytes_eqb (to_ascii_lowercase a) (to_ascii_lowercase b).

(** Characters with the Unicode property White_Space. *)
Definition whitespace_chars : list bytes :=
  [[x09]; [x0a]; [x0b]; [x0c]; [x0d]; [x20]; [xc2; x85]; [xc2; xa0];
   [xe1; x9a; x80];
   [xe2; x80; x80]; [xe2; x80; x81]; [xe2; x80; x82]; [xe2; x80; x83];
   [xe2; x80; x84]; [xe2; x80; x85]; [xe2; x80; x86]; [xe2; x80; x87];
   [xe2; x80; x88]; [xe2; x80; x89]; [xe2; x80; x8a];
   [xe2; x80; xa8]; [xe2; x80; xa9]; [xe2; x80; xaf]; [xe2; x81; x9f];
   [xe3; x80; x80]].

Definition is_whitespace (c : bytes) : bool := bool_decide (c ∈ whitespace_chars).

Fixpoint drop_while {A} (p : A -> bool) (l : list A) : list A :=
  match l with
  | [] => []
  | a :: r => if p a then drop_while p r else l
  end.

(** [str::trim]. *)
Definition trim_chars (cs : list bytes) : list bytes :=
  rev (drop_while is_whitespace (rev (drop_while is_whitespace cs))).

Definition trim (s : bytes) : bytes := concat (trim_chars (Utf8.chars s)).

(** ** Decimal numbers *)

Definition is_ascii_digit (b : byte) : bool := (48 <=? byte_Z b) && (byte_Z b <=? 57).
Definition digit_value (b : byte) : Z := byte_Z b - 48.
Definition digit_byte (d : Z) : byte := Z_byte (48 + d).

(** Accumulates digits, failing on a non-digit or above [bound]. *)
Fixpoint parse_digits (bound acc : Z) (s : bytes) : option Z :=
  match s with
  | [] => Some acc
  | b :: r =>
    if is_ascii_digit b then
      let v := acc * 10 + digit_value b in
      if v <=? bound then parse_digits bound v r else None
    else None
  end.

Definition parse_digits1 (bound : Z) (s : bytes) : option Z :=
  match s with [] => None | _ => parse_digits bound 0 s end.

(** [s.parse::<uN>().ok()] for the unsigned type with maximum [bound]. *)
Definition parse_unsigned (bound : Z) (s : bytes) : option Z :=
  match s with
  | b :: r => if bool_decide (b = x2b) then parse_digits1 bound r else parse_digits1 bound s
  | [] => None
  end.

Definition parse_u64 : bytes -> option Z := parse_unsigned U64_MAX.
Definition parse_usize : bytes -> option Z := parse_unsigned USIZE_MAX.
Definition parse_u16 : bytes -> option Z := parse_unsigned U16_MAX.
Definition parse_u8 : bytes -> option Z := parse_unsigned U8_MAX.

(** [s.parse::<i64>().ok()]. *)
Definition parse_i64 (s : bytes) : option Z :=
  match s with
  | b :: r =>
    if bool_decide (b = x2d) then Z.opp <$> parse_digits1 (- I64_MIN) r
    else parse_unsigned I64_MAX s
  | [] => None
  end.

Fixpoint print_digits (fuel : nat) (n : Z) (acc : bytes) : bytes :=
  match fuel with
  | O => acc
  | S f =>
    let acc' := digit_byte (n mod 10) :: acc in
    if n / 10 =? 0 then acc' else print_digits f (n / 10) acc'
  end.

(** [n.to_string()] of an unsigned integer. *)
Definition print_Z (n : Z) : bytes := print_digits (S (Z.to_nat (Z.log2 n))) n [].

(** [n.to_string()] of a signed integer. *)
Definition print_i64 (n : Z) : bytes := if n <? 0 then x2d :: print_Z (- n) else print_Z n.

Lemma digit_value_byte d : 0 <= d < 10 -> digit_value (digit_byte d) = d.
Proof.
  intros Hd. unfold digit_value, digit_byte. rewrite byte_Z_of_Z.
  rewrite Z.mod_small by lia. lia.
Qed.

Lemma is_ascii_digit_byte d : 0 <= d < 10 -> is_ascii_digit (digit_byte d) = true.
Proof.
  intros Hd. unfold is_ascii_digit, digit_byte. rewrite byte_Z_of_Z.
  rewrite Z.mod_small by lia. apply andb_true_iff; split; apply Z.leb_le; lia.
Qed.

(** Value of a digit string read after the prefix value [acc]. *)
Definition digits_value (acc : Z) (s : bytes) : Z :=
  fold_left (fun a b => a * 10 + digit_value b) s acc.

Lemma digits_value_mono s acc :
  Forall (fun b => is_ascii_digit b = true) s -> 0 <= acc -> acc <= digits_value acc s.
Proof.
  revert acc. induction s as [|b s IH]; intros acc Hs Ha; [reflexivity|].
  inversion Hs as [|? ? Hb Hs']; subst. cbn [digits_value fold_left].
  unfold is_ascii_digit in Hb. prop_tests.
  assert (0 <= digit_value b) by (unfold digit_value; lia).
  specialize (IH (acc * 10 + digit_value b) Hs' ltac:(lia)).
  unfold digits_value in IH. lia.
Qed.

Lemma parse_digits_value bound s acc :
  Forall (fun b => is_ascii_digit b = true) s -> 0 <= acc ->
  digits_value acc s <= bound -> parse_digits bound acc s = Some (digits_value acc s).
Proof.
  revert acc. induction s as [|b s IH]; intros acc Hs Ha Hb; [reflexivity|].
  inversion Hs as [|? ? Hd Hs']; subst. cbn [parse_digits digits_value fold_left] in *.
  rewrite Hd. unfold is_ascii_digit in Hd. prop_tests.
  assert (0 <= digit_value b) by (unfold digit_value; lia).
  pose proof (digits_value_mono s (acc * 10 + digit_value b) Hs' ltac:(lia)) as Hm.
  unfold digits_value in *. 
  replace (acc * 10 + digit_value b <=? bound) with true by (symmetry; apply Z.leb_le; lia).
  apply IH; [done|lia|lia].
Qed.

Lemma print_digits_spec fuel n acc :
  0 <= n -> n < 2 ^ Z.of_nat fuel -> (0 < fuel)%nat ->
  exists d ds, print_digits fuel n acc = (d :: ds) ++ acc /\
    Forall (fun b => is_ascii_digit b = true) (d :: ds) /\
    digits_value 0 (d :: ds) = n.
Proof.
  revert n acc. induction fuel as [|f IH]; intros n acc H0 Hn Hf; [lia|].
  cbn [print_digits].
  pose proof (Z.mod_pos_bound n 10 ltac:(lia)) as Hm.
  pose proof (Z.div_mod n 10 ltac:(lia)) as Hdm.
  destruct (n / 10 =? 0) eqn:E; prop_tests.
  - exists (digit_byte (n mod 10)), []. split; [done|]. split.
    + constructor; [by apply is_ascii_digit_byte|constructor].
    + cbn [digits_value fold_left]. rewrite digit_value_byte by lia. lia.
  - rewrite Nat2Z.inj_succ, Z.pow_succ_r in Hn by lia.
    assert (0 <= n / 10) by (apply Z.div_pos; lia).
    destruct f as [|f].
    { simpl in Hn. assert (n / 10 = 0) by (apply Z.div_small; lia). lia. }
    destruct (IH (n / 10) (digit_byte (n mod 10) :: acc)) as (d & ds & Hp & Hfa & Hv);
      [lia|lia|lia|].
    exists d, (ds ++ [digit_byte (n mod 10)]). split; [|split].
    + rewrite Hp. simpl. by rewrite <- app_assoc.
    + change (d :: ds ++ [digit_byte (n mod 10)]) with ((d :: ds) ++ [digit_byte (n mod 10)]).
      apply Forall_app; split; [done|]. constructor; [by apply is_ascii_digit_byte|constructor].
    + change (d :: ds ++ [digit_byte (n mod 10)]) with ((d :: ds) ++ [digit_byte (n mod 10)]).
      unfold digits_value in *. rewrite fold_left_app, Hv. cbn [fold_left].
      rewrite digit_value_byte by lia. lia.
Qed.

Lemma print_Z_spec n :
  0 <= n ->
  exists d ds, print_Z n = d :: ds /\
    Forall (fun b => is_ascii_digit b = true) (d :: ds) /\
    digits_value 0 (d :: ds) = n.
Proof.
  intros Hn. unfold print_Z.
  destruct (print_digits_spec (S (Z.to_nat (Z.log2 n))) n []) as (d & ds & Hp & Hd & Hv).
  - done.
  - rewrite Nat2Z.inj_succ, Z2Nat.id by apply Z.log2_nonneg.
    destruct (Z.eq_dec n 0) as [->|]; [reflexivity|]. apply Z.log2_spec. lia.
  - lia.
  - exists d, ds. rewrite app_nil_r in Hp. done.
Qed.

Lemma digit_not_sign b : is_ascii_digit b = true -> b <> x2b /\ b <> x2d.
Proof. by split; intros ->. Qed.

(** Printing an unsigned integer and parsing it back gives the integer. *)
Lemma parse_print_unsigned bound n :
  0 <= n <= bound -> parse_unsigned bound (print_Z n) = Some n.
Proof.
  intros Hn. destruct (print_Z_spec n) as (d & ds & -> & Hd & Hv); [lia|].
  unfold parse_unsigned. pose proof Hd as Hd'. inversion Hd' as [|? ? Hdd _]; subst.
  apply digit_not_sign in Hdd as [Hp _]. rewrite bool_decide_eq_false_2 by done.
  unfold parse_digits1. rewrite parse_digits_value; [done|done|lia|lia].
Qed.

(** The same for signed 64-bit integers. *)
Lemma parse_print_i64 n : I64_MIN <= n <= I64_MAX -> parse_i64 (print_i64 n) = Some n.
Proof.
  intros Hn. unfold print_i64, I64_MIN, I64_MAX in *. destruct (n <? 0) eqn:E; prop_tests.
  - unfold parse_i64. rewrite bool_decide_eq_true_2 by done.
    destruct (print_Z_spec (- n)) as (d & ds & -> & Hd & Hv); [lia|].
    unfold parse_digits1. rewrite parse_digits_value; [|done|lia|unfold I64_MIN; lia].
    rewrite Hv. simpl. f_equal. lia.
  - pose proof (parse_print_unsigned I64_MAX n ltac:(unfold I64_MAX; lia)) as Hp.
    destruct (print_Z_spec n) as (d & ds & Hpr & Hd & Hv); [lia|].
    rewrite Hpr in *. unfold parse_i64. inversion Hd as [|? ? Hdd _]; subst.
    apply digit_not_sign in Hdd as [_ Hm]. rewrite bool_decide_eq_false_2 by done. done.
Qed.

Lemma valid_digits s :
  Forall (fun b => is_ascii_digit b = true) s -> Utf8.valid s = true.
Proof.
  induction s as [|b s IH]; intros Hs; [done|].
  inversion Hs as [|? ? Hb Hs']; subst.
  assert (Hn : Utf8.next_chunk (b :: s) = (true, 1%nat)).
  { unfold Utf8.next_chunk, Utf8.width, Utf8.in_range. unfold is_ascii_digit in Hb.
    prop_tests. replace (0 <=? byte_Z b) with true by (symmetry; apply Z.leb_le; lia).
    replace (byte_Z b <=? 127) with true by (symmetry; apply Z.leb_le; lia). done. }
  rewrite Utf8.valid_step, Hn by done. simpl. by apply IH.
Qed.

(** Parsed integers are in range. *)
Lemma parse_digits_range bound acc s n :
  0 <= acc <= bound -> parse_digits bound acc s = Some n -> 0 <= n <= bound.
Proof.
  revert acc. induction s as [|b s IH]; intros acc Ha; simpl; [intros [= <-]; lia|].
  destruct (is_ascii_digit b) eqn:E; [|done]. destruct (_ <=? bound) eqn:Eb; [|done].
  apply IH. unfold is_ascii_digit, digit_value in *. prop_tests. lia.
Qed.

Lemma parse_unsigned_range bound s n :
  0 <= bound -> parse_unsigned bound s = Some n -> 0 <= n <= bound.
Proof.
  intros Hb. assert (H : forall r, parse_digits1 bound r = Some n -> 0 <= n <= bound).
  { intros [|b r]; [done|]. apply (parse_digits_range bound 0); lia. }
  unfold parse_unsigned. destruct s as [|b r]; [done|]. case_bool_decide; apply H.
Qed.

Lemma parse_i64_range s n : parse_i64 s = Some n -> I64_MIN <= n <= I64_MAX.
Proof.
  unfold parse_i64. destruct s as [|b r]; [done|]. case_bool_decide.
  - intros H'. apply fmap_Some in H' as (m & Hm & ->). destruct r as [|b' r]; [done|].
    apply (parse_digits_range _ 0) in Hm; unfold I64_MIN, I64_MAX in *; lia.
  - intros H'. apply parse_unsigned_range in H'; unfold I64_MIN, I64_MAX in *; lia.
Qed.

Lemma print_digits_length fuel n acc (k : nat) :
  0 <= n < 10 ^ Z.of_nat (S k) -> (length (print_digits fuel n acc) <= S k + length acc)%nat.
Proof.
  revert n acc k. induction fuel as [|fuel IH]; intros n acc k Hn; cbn [print_digits]; [lia|].
  destruct (n / 10 =? 0) eqn:E; prop_tests; [simpl; lia|]. destruct k as [|k].
  - exfalso. apply E. apply Z.div_small. change (10 ^ Z.of_nat 1) with 10 in Hn. lia.
  - etrans; [apply (IH _ _ k)|simpl; lia]. split; [apply Z.div_pos; lia|].
    apply Z.div_lt_upper_bound; [lia|]. rewrite <- Z.pow_succ_r by lia.
    replace (Z.succ (Z.of_nat (S k))) with (Z.of_nat (S (S k))) by lia. lia.
Qed.

Lemma print_Z_length n : 0 <= n <= U64_MAX -> len (print_Z n) <= 20.
Proof.
  intros Hn. unfold print_Z, len.
  assert (length (print_digits (S (Z.to_nat (Z.log2 n))) n []) <= 20)%nat; [|lia].
  apply (print_digits_length _ n [] 19). unfold U64_MAX in Hn.
  change (10 ^ Z.of_nat 20) with 100000000000000000000. lia.
Qed.
