(* ===== verification/Json.v ===== *)
(** * Json: documents, their maps, and JSON paths

    [serde_json] is a dependency: its number type and its text conversions are
    the class parameters [JsonNumber] and [SerdeJson].  [Value] is its public
    enum, and an object is the ordered map serde_json documents as the default
    ([BTreeMap], keys in byte order), held as the list of its entries.  The
    module [JsonPath] is src/store/json_path.rs. *)

From Stdlib Require Import ZArith Lia.
From Stdlib Require Import Strings.Byte.
From Stdlib Require Import Floats.SpecFloat.
From stdpp Require Import base gmap list strings numbers.
From S2P Require Import Prelude Text.

Open Scope Z_scope.

(** ** Binary64 arithmetic, on the bit patterns of the numbers *)

Module F64.

Definition prec : Z := 53.
Definition emax : Z := 1024.

Definition decode (bits : Z) : spec_float :=
  let s := Z.testbit bits 63 in
  let e := Z.land (Z.shiftr bits 52) 2047 in
  let m := Z.land bits 4503599627370495 in
  if e =? 2047 then (if m =? 0 then S754_infinity s else S754_nan)
  else if e =? 0 then
    match m with Zpos p => S754_finite s p (-1074) | _ => S754_zero s end
  else match m + 4503599627370496 with Zpos p => S754_finite s p (e - 1075) | _ => S754_nan end.

Definition encode (f : spec_float) : Z :=
  let sign (s : bool) := if s then Z.shiftl 1 63 else 0 in
  match f with
  | S754_zero s => sign s
  | S754_infinity s => sign s + Z.shiftl 2047 52
  | S754_nan => Z.shiftl 4095 51
  | S754_finite s p e =>
    if Zpos p <? 4503599627370496 then sign s + Zpos p
    else sign s + Z.shiftl (e + 1075) 52 + (Zpos p - 4503599627370496)
  end.

(** [a + b]. *)
Definition add (a b : Z) : Z := encode (SFadd prec emax (decode a) (decode b)).

Definition is_nan (a : Z) : bool :=
  match decode a with S754_nan => true | _ => false end.

(** [a == b] for [f64]. *)
Definition eqb (a b : Z) : bool := SFeqb (decode a) (decode b).

(** [a.fract() == 0.0]. *)
Definition is_integral (a : Z) : bool :=
  match decode a with
  | S754_zero _ => true
  | S754_finite _ p e => (0 <=? e) || (Zpos p mod 2 ^ (- e) =? 0)
  | _ => false
  end.

(** [a.abs() < i64::MAX as f64]; the conversion rounds to 2^63. *)
Definition abs_below_i64_max (a : Z) : bool :=
  SFltb (SFabs (decode a)) (S754_finite false 4503599627370496 11).

(** [a as i64]: truncation towards zero, saturating, zero for NaN. *)
Definition as_i64 (a : Z) : Z :=
  match decode a with
  | S754_finite s p e =>
    let m := if 0 <=? e then Zpos p * 2 ^ e else Zpos p / 2 ^ (- e) in
    Z.max I64_MIN (Z.min I64_MAX (if s then - m else m))
  | S754_infinity s => if s then I64_MIN else I64_MAX
  | _ => 0
  end.

End F64.

(** [a == b] for [f32], on bit patterns. *)
Definition f32_eqb (a b : Z) : bool :=
  let nan z := 2139095040 <? Z.land z 2147483647 in
  if nan a || nan b then false
  else (a =? b) || ((Z.land a 2147483647 =? 0) && (Z.land b 2147483647 =? 0)).

(** ** serde_json *)

(** Numbers are opaque outside serde_json; floating-point values are given by
    their bit patterns. *)
Class JsonNumber := {
  Number : Type;
  number_eqb : Number -> Number -> bool;
  number_as_f64 : Number -> option Z;
  number_from_i64 : Z -> Number;
  number_from_f64 : Z -> option Number
}.

Inductive Value {JN : JsonNumber} : Type :=
| JNull
| JBool (b : bool)
| JNumber (n : Number)
| JString (s : bytes)
| JArray (l : list Value)
| JObject (m : list (bytes * Value)).

(** [Value::to_string] / [serde_json::to_vec],
    [serde_json::from_str] / [serde_json::from_slice], and the message of the
    error they give for a text they reject. *)
Class SerdeJson {JN : JsonNumber} := {
  json_to_string : Value -> bytes;
  json_from_str : bytes -> option Value;
  json_error : bytes -> bytes
}.

(** [f64]'s text conversions: [parse::<f64>], [Display] and the percentage
    [format!("{:.1}", (a as f64 / b as f64) * 100.0)]. *)
Class FloatText := {
  f64_parse : bytes -> option Z;
  f64_display : Z -> bytes;
  f64_percent : Z -> Z -> bytes
}.

Fixpoint value_eqb {JN : JsonNumber} (a b : Value) {struct a} : bool :=
  match a, b with
  | JNull, JNull => true
  | JBool x, JBool y => Bool.eqb x y
  | JNumber x, JNumber y => number_eqb x y
  | JString x, JString y => bytes_eqb x y
  | JArray l, JArray k =>
    (fix go l k := match l, k with
     | [], [] => true
     | x :: l', y :: k' => value_eqb x y && go l' k'
     | _, _ => false
     end) l k
  | JObject m, JObject n =>
    (fix go (m n : list (bytes * Value)) := match m, n with
     | [], [] => true
     | (kx, x) :: m', (ky, y) :: n' => bytes_eqb kx ky && value_eqb x y && go m' n'
     | _, _ => false
     end) m n
  | _, _ => false
  end.

(** ** Ordered maps keyed by strings *)

Module OMap.

Fixpoint cmp (a b : bytes) : comparison :=
  match a, b with
  | [], [] => Eq
  | [], _ => Lt
  | _, [] => Gt
  | x :: a', y :: b' =>
    match Z.compare (byte_Z x) (byte_Z y) with
    | Eq => cmp a' b'
    | c => c
    end
  end.

Lemma cmp_eq a b : cmp a b = Eq <-> a = b.
Proof.
  revert b. induction a as [|x a IH]; intros [|y b]; simpl; try done.
  destruct (Z.compare_spec (byte_Z x) (byte_Z y)) as [E|E|E].
  - apply byte_Z_inj in E as ->. rewrite IH. naive_solver.
  - split; [done|]. intros [= -> ->]. lia.
  - split; [done|]. intros [= -> ->]. lia.
Qed.

Lemma cmp_antisym a b : cmp b a = CompOpp (cmp a b).
Proof.
  revert b. induction a as [|x a IH]; intros [|y b]; simpl; try done.
  rewrite Z.compare_antisym. destruct (Z.compare (byte_Z x) (byte_Z y)); simpl; auto.
Qed.

Lemma cmp_lt_trans a b c : cmp a b = Lt -> cmp b c = Lt -> cmp a c = Lt.
Proof.
  revert b c. induction a as [|x a IH]; intros [|y b] [|z c]; simpl; try done.
  destruct (Z.compare_spec (byte_Z x) (byte_Z y)) as [E1|E1|E1];
  destruct (Z.compare_spec (byte_Z y) (byte_Z z)) as [E2|E2|E2]; try done; intros H1 H2;
  destruct (Z.compare_spec (byte_Z x) (byte_Z z)) as [E3|E3|E3]; try done; try lia; eauto.
Qed.

Lemma cmp_refl a : cmp a a = Eq.
Proof. by apply cmp_eq. Qed.

Lemma cmp_gt_lt a b : cmp a b = Gt <-> cmp b a = Lt.
Proof. rewrite (cmp_antisym a b). destruct (cmp a b); simpl; split; done. Qed.

Section Ops.
Context {A : Type}.
Implicit Types (m : list (bytes * A)) (k : bytes) (v : A).

Fixpoint get (k : bytes) (m : list (bytes * A)) : option A :=
  match m with
  | [] => None
  | (k', v) :: r =>
    match cmp k k' with
    | Eq => Some v
    | Lt => None
    | Gt => get k r
    end
  end.

Fixpoint insert (k : bytes) (v : A) (m : list (bytes * A)) : list (bytes * A) :=
  match m with
  | [] => [(k, v)]
  | (k', v') :: r =>
    match cmp k k' with
    | Eq => (k, v) :: r
    | Lt => (k, v) :: m
    | Gt => (k', v') :: insert k v r
    end
  end.

Fixpoint remove (k : bytes) (m : list (bytes * A)) : list (bytes * A) :=
  match m with
  | [] => []
  | (k', v') :: r =>
    match cmp k k' with
    | Eq => r
    | Lt => m
    | Gt => (k', v') :: remove k r
    end
  end.

(** Keys strictly increase. *)
Fixpoint sorted (m : list (bytes * A)) : Prop :=
  match m with
  | [] => True
  | (k, _) :: r =>
    match r with [] => True | (k', _) :: _ => cmp k k' = Lt end /\ sorted r
  end.

Lemma get_insert_eq k v m : get k (insert k v m) = Some v.
Proof.
  induction m as [|[k' v'] r IH]; simpl; [by rewrite cmp_refl|].
  destruct (cmp k k') eqn:E; simpl; rewrite ?cmp_refl, ?E; done.
Qed.

Lemma get_insert_ne k k2 v m : k2 <> k -> get k2 (insert k v m) = get k2 m.
Proof.
  intros Hne. induction m as [|[k' v'] r IH]; simpl.
  - destruct (cmp k2 k) eqn:E; try done. by apply cmp_eq in E.
  - destruct (cmp k k') eqn:E; simpl.
    + apply cmp_eq in E as ->.
      destruct (cmp k2 k') eqn:E2; try done. by apply cmp_eq in E2.
    + destruct (cmp k2 k) eqn:E2.
      * by apply cmp_eq in E2.
      * by rewrite (cmp_lt_trans _ _ _ E2 E).
      * done.
    + by rewrite IH.
Qed.

Lemma insert_get_id k v m : get k m = Some v -> insert k v m = m.
Proof.
  induction m as [|[k' v'] r IH]; simpl; [done|].
  destruct (cmp k k') eqn:E; [|done|].
  - apply cmp_eq in E as ->. congruence.
  - intros H. by rewrite IH.
Qed.

Lemma sorted_tail_lt k v r k2 x :
  sorted ((k, v) :: r) -> get k2 r = Some x -> cmp k k2 = Lt.
Proof.
  revert k v. induction r as [|[k' v'] r IH]; intros k v [Hlt Hs] Hg; [done|].
  simpl in Hg. destruct (cmp k2 k') eqn:E; [|done|].
  - apply cmp_eq in E as ->. done.
  - apply (cmp_lt_trans _ k'); [done|]. by eapply IH.
Qed.

Lemma get_remove_eq k m : sorted m -> get k (remove k m) = None.
Proof.
  induction m as [|[k' v'] r IH]; simpl; [done|]. intros [Hlt Hs].
  destruct (cmp k k') eqn:E; simpl; rewrite ?E; try done.
  - apply cmp_eq in E as ->. destruct (get k' r) as [x|] eqn:G; [|done].
    assert (Hc : cmp k' k' = Lt) by (eapply (sorted_tail_lt k' v' r); [split; done|done]).
    by rewrite cmp_refl in Hc.
  - by apply IH.
Qed.

Lemma get_remove_ne k k2 m : sorted m -> k2 <> k -> get k2 (remove k m) = get k2 m.
Proof.
  intros Hs Hne. induction m as [|[k' v'] r IH]; simpl; [done|].
  destruct (cmp k k') eqn:E; simpl; try done.
  - apply cmp_eq in E as ->. destruct (cmp k2 k') eqn:E2; [by apply cmp_eq in E2| |done].
    destruct (get k2 r) as [x|] eqn:G; [|done].
    pose proof (sorted_tail_lt _ _ _ _ _ Hs G) as Hc.
    apply cmp_gt_lt in Hc. congruence.
  - destruct Hs as [_ Hs]. by rewrite IH.
Qed.

Lemma insert_sorted k v m : sorted m -> sorted (insert k v m).
Proof.
  induction m as [|[k' v'] r IH]; simpl; [done|]. intros [Hlt Hs].
  destruct (cmp k k') eqn:E.
  - apply cmp_eq in E as ->. done.
  - split; done.
  - split; [|by apply IH]. apply cmp_gt_lt in E.
    destruct r as [|[k2 v2] r]; simpl; [done|].
    destruct (cmp k k2) eqn:E2; done.
Qed.

Lemma remove_sorted k m : sorted m -> sorted (remove k m).
Proof.
  induction m as [|[k' v'] r IH]; simpl; [done|]. intros [Hlt Hs].
  destruct (cmp k k') eqn:E; [done|done|]. split; [|by apply IH].
  destruct r as [|[k2 v2] r]; simpl; [done|].
  destruct (cmp k k2) eqn:E2; [|done|done].
  destruct r as [|[k3 v3] r]; [done|]. destruct Hs as [H2 _].
  by apply (cmp_lt_trans _ k2).
Qed.

End Ops.
End OMap.

(** ** Small instances, to run the definitions on concrete inputs

    Numbers are bit patterns of floats; the text form covers scalars. *)

Definition demo_of_Z (n : Z) : Z := F64.encode (binary_normalize F64.prec F64.emax n 0 false).

Definition demo_numbers : JsonNumber := {|
  Number := Z;
  number_eqb := F64.eqb;
  number_as_f64 := Some;
  number_from_i64 := demo_of_Z;
  number_from_f64 := Some
|}.

Definition demo_to_string (v : @Value demo_numbers) : bytes :=
  match v with
  | JNull => bs "null"
  | JBool true => bs "true"
  | JBool false => bs "false"
  | JNumber z => print_Z (F64.as_i64 z)
  | JString s => x22 :: s ++ [x22]
  | JArray _ => bs "[]"
  | JObject _ => bs "{}"
  end.

Definition demo_from_str (s : bytes) : option (@Value demo_numbers) :=
  if bytes_eqb s (bs "null") then Some JNull
  else if bytes_eqb s (bs "true") then Some (JBool true)
  else if bytes_eqb s (bs "false") then Some (JBool false)
  else option_map (fun n => @JNumber demo_numbers (demo_of_Z n)) (parse_i64 s).

Definition demo_json : @SerdeJson demo_numbers := {|
  json_to_string := demo_to_string;
  json_from_str := demo_from_str;
  json_error _ := bs "expected value"
|}.

Definition demo_floats : FloatText := {|
  f64_parse s := option_map demo_of_Z (parse_i64 s);
  f64_display z := print_Z (F64.as_i64 z);
  f64_percent a b := print_Z (a * 100 / b) ++ bs ".0"
|}.
