(* ===== verification/JsonPath.v ===== *)
(** * JsonPath: src/store/json_path.rs

    Parsing of paths such as [$.a.b[2].c] and the in-place operations on the
    node they address.  A mutable reference into a document is a write-through
    of the child along the path ([set_child]); each mutating function returns
    the document it leaves behind together with its result. *)

From Stdlib Require Import ZArith Lia.
From Stdlib Require Import Strings.Byte.
From stdpp Require Import base gmap list strings numbers.
From S2P Require Import Prelude Text Json.

Open Scope Z_scope.

Inductive JsonPathSegment : Type :=
| Field (f : bytes)
| Index (i : Z).

#[global] Instance JsonPathSegment_eq_dec : EqDecision JsonPathSegment.
Proof. solve_decision. Defined.

Definition ch_dollar : bytes := bs "$".
Definition ch_dot : bytes := bs ".".
Definition ch_open : bytes := bs "[".
Definition ch_close : bytes := bs "]".

(** The longest prefix whose characters satisfy [p], and the rest. *)
Fixpoint span (p : bytes -> bool) (cs : list bytes) : list bytes * list bytes :=
  match cs with
  | [] => ([], [])
  | c :: r => if p c then let '(a, b) := span p r in (c :: a, b) else ([], cs)
  end.

Definition field_char (c : bytes) : bool := negb (bytes_eqb c ch_dot) && negb (bytes_eqb c ch_open).
Definition index_char (c : bytes) : bool := negb (bytes_eqb c ch_close).

(** The segment loop of [parse_json_path]; one iteration consumes at least one
    character, so the number of characters is enough fuel. *)
Fixpoint parse_segments (fuel : nat) (cs : list bytes) : option (list JsonPathSegment) :=
  match fuel, cs with
  | _, [] => Some []
  | O, _ :: _ => None
  | S fuel', c :: r =>
    if bytes_eqb c ch_dot then
      let '(field, rest) := span field_char r in
      match field with
      | [] => None
      | _ => segs ← parse_segments fuel' rest; Some (Field (concat field) :: segs)
      end
    else if bytes_eqb c ch_open then
      let '(idx_str, rest) := span index_char r in
      match rest with
      | [] => None
      | _ :: rest' =>
        idx ← parse_usize (concat idx_str);
        segs ← parse_segments fuel' rest'; Some (Index idx :: segs)
      end
    else None
  end.

Definition parse_json_path (path : bytes) : option (list JsonPathSegment) :=
  match trim_chars (Utf8.chars path) with
  | [] => None
  | c :: rest =>
    if negb (bytes_eqb c ch_dollar) then None
    else match rest with
    | [] => Some []
    | c1 :: _ =>
      if negb (bytes_eqb c1 ch_dot) && negb (bytes_eqb c1 ch_open) then None
      else parse_segments (length rest) rest
    end
  end.

Section Paths.
Context {JN : JsonNumber}.

(** [map.get(f)] / [arr.get(idx)] on the node a segment applies to. *)
Definition child (v : Value) (seg : JsonPathSegment) : option Value :=
  match seg, v with
  | Field f, JObject m => OMap.get f m
  | Index i, JArray a => a !! Z.to_nat i
  | _, _ => None
  end.

(** Writing through the reference [map.get_mut(f)] / [arr.get_mut(idx)]. *)
Definition set_child (v : Value) (seg : JsonPathSegment) (c : Value) : Value :=
  match seg, v with
  | Field f, JObject m => JObject (OMap.insert f c m)
  | Index i, JArray a => JArray (<[Z.to_nat i := c]> a)
  | _, _ => v
  end.

Fixpoint get_json_path (root : Value) (segments : list JsonPathSegment) : option Value :=
  match segments with
  | [] => Some root
  | seg :: rest =>
    match child root seg with
    | Some c => get_json_path c rest
    | None => None
    end
  end.

(** The last step of [set_json_path]. *)
Definition set_final (v : Value) (seg : JsonPathSegment) (new_value : Value) : Value * bool :=
  match seg, v with
  | Field f, JObject m => (JObject (OMap.insert f new_value m), true)
  | Index idx, JArray arr =>
    if idx <? len arr then (JArray (<[Z.to_nat idx := new_value]> arr), true)
    else if idx =? len arr then (JArray (arr ++ [new_value]), true)
    else (v, false)
  | _, _ => (v, false)
  end.

Fixpoint set_json_path (root : Value) (segments : list JsonPathSegment) (new_value : Value)
  : Value * bool :=
  match segments with
  | [] => (new_value, true)
  | seg :: rest =>
    match rest with
    | [] => set_final root seg new_value
    | _ :: _ =>
      match child root seg with
      | Some c =>
        let '(c', ok) := set_json_path c rest new_value in (set_child root seg c', ok)
      | None => (root, false)
      end
    end
  end.

(** The last step of [delete_json_path]. *)
Definition delete_final (v : Value) (seg : JsonPathSegment) : Value * bool :=
  match seg, v with
  | Field f, JObject m =>
    match OMap.get f m with
    | Some _ => (JObject (OMap.remove f m), true)
    | None => (v, false)
    end
  | Index idx, JArray arr =>
    if idx <? len arr
    then (JArray (take (Z.to_nat idx) arr ++ drop (S (Z.to_nat idx)) arr), true)
    else (v, false)
  | _, _ => (v, false)
  end.

Fixpoint delete_json_path (root : Value) (segments : list JsonPathSegment) : Value * bool :=
  match segments with
  | [] => (root, false)
  | seg :: rest =>
    match rest with
    | [] => delete_final root seg
    | _ :: _ =>
      match child root seg with
      | Some c => let '(c', ok) := delete_json_path c rest in (set_child root seg c', ok)
      | None => (root, false)
      end
    end
  end.

(** [get_json_path_mut] followed by a mutation [f] of the node it returns. *)
Fixpoint get_json_path_mut {R} (root : Value) (segments : list JsonPathSegment)
    (f : Value -> Value * R) : Value * option R :=
  match segments with
  | [] => let '(v, r) := f root in (v, Some r)
  | seg :: rest =>
    match child root seg with
    | Some c => let '(c', r) := get_json_path_mut c rest f in (set_child root seg c', r)
    | None => (root, None)
    end
  end.

Definition err_path_not_found : bytes := bs "ERR path JSON not found".
Definition err_not_number : bytes := bs "WRONGTYPE the value at the path is not a number".
Definition err_bad_number : bytes := bs "ERR invalid numeric result (NaN or infinity)".
Definition err_not_array : bytes := bs "WRONGTYPE the value at the path is not an array".

(** [Value::as_f64]. *)
Definition as_f64 (v : Value) : option Z :=
  match v with JNumber n => number_as_f64 n | _ => None end.

Definition numincrby_node (delta : Z) (node : Value) : Value * result bytes Z :=
  match as_f64 node with
  | None => (node, Err err_not_number)
  | Some current =>
    let new_val := F64.add current delta in
    if F64.is_integral new_val && F64.abs_below_i64_max new_val then
      (JNumber (number_from_i64 (F64.as_i64 new_val)), Ok new_val)
    else match number_from_f64 new_val with
    | Some n => (JNumber n, Ok new_val)
    | None => (node, Err err_bad_number)
    end
  end.

Definition flatten_path {A} (r : Value * option (result bytes A)) : Value * result bytes A :=
  let '(v, o) := r in
  (v, match o with Some x => x | None => Err err_path_not_found end).

Definition numincrby_json_path (root : Value) (segments : list JsonPathSegment) (delta : Z)
  : Value * result bytes Z :=
  flatten_path (get_json_path_mut root segments (numincrby_node delta)).

Definition arrappend_node (new_value node : Value) : Value * result bytes Z :=
  match node with
  | JArray arr => (JArray (arr ++ [new_value]), Ok (len (arr ++ [new_value])))
  | _ => (node, Err err_not_array)
  end.

Definition arrappend_json_path (root : Value) (segments : list JsonPathSegment)
    (new_value : Value) : Value * result bytes Z :=
  flatten_path (get_json_path_mut root segments (arrappend_node new_value)).

(** ** Well-formed documents: every object has its keys in order *)

Inductive wf_value : Value -> Prop :=
| wf_null : wf_value JNull
| wf_bool b : wf_value (JBool b)
| wf_number n : wf_value (JNumber n)
| wf_string s : wf_value (JString s)
| wf_array l : Forall wf_value l -> wf_value (JArray l)
| wf_object m : OMap.sorted m -> Forall (fun kv => wf_value kv.2) m -> wf_value (JObject m).

Lemma child_wf v seg c : wf_value v -> child v seg = Some c -> wf_value c.
Proof.
  intros Hv. destruct seg as [f|i], v as [| | | |l|m]; simpl; try done.
  - inversion Hv as [| | | | |? Hs Hf]; subst. clear Hv Hs.
    induction m as [|[k x] m IH]; simpl; [done|]. inversion Hf; subst.
    destruct (OMap.cmp f k); [naive_solver|done|auto].
  - inversion Hv as [| | | |? Hf|]; subst. intros Hl. by eapply Forall_lookup_1.
Qed.

Lemma Forall_omap_insert (P : Value -> Prop) f c m :
  P c -> Forall (fun kv => P kv.2) m -> Forall (fun kv => P kv.2) (OMap.insert f c m).
Proof.
  intros Hc. induction m as [|[k x] m IH]; simpl; intros Hf; [by repeat constructor|].
  inversion Hf; subst. destruct (OMap.cmp f k); repeat constructor; auto.
Qed.

Lemma Forall_omap_remove (P : Value -> Prop) f m :
  Forall (fun kv => P kv.2) m -> Forall (fun kv => P kv.2) (OMap.remove f m).
Proof.
  induction m as [|[k x] m IH]; simpl; intros Hf; [done|].
  inversion Hf; subst. destruct (OMap.cmp f k); repeat constructor; auto.
Qed.

Lemma set_child_wf v seg c : wf_value v -> wf_value c -> wf_value (set_child v seg c).
Proof.
  intros Hv Hc. destruct seg as [f|i], v as [| | | |l|m]; simpl; try done.
  - inversion Hv; subst. constructor; [by apply OMap.insert_sorted|by apply Forall_omap_insert].
  - inversion Hv; subst. constructor. by apply Forall_insert.
Qed.

Lemma set_final_wf v seg c : wf_value v -> wf_value c -> wf_value (set_final v seg c).1.
Proof.
  intros Hv Hc. destruct seg as [f|i], v as [| | | |l|m]; simpl; try done.
  - by apply (set_child_wf (JObject m) (Field f)).
  - repeat case_match; simpl; [by apply (set_child_wf (JArray l) (Index i))| |done].
    inversion Hv; subst. constructor. apply Forall_app; auto.
Qed.

Lemma delete_final_wf v seg : wf_value v -> wf_value (delete_final v seg).1.
Proof.
  intros Hv. destruct seg as [f|i], v as [| | | |l|m]; simpl; try done; case_match; simpl; try done.
  - inversion Hv; subst. constructor; [by apply OMap.remove_sorted|by apply Forall_omap_remove].
  - inversion Hv; subst. constructor. apply Forall_app; auto using Forall_take, Forall_drop.
Qed.

Lemma set_json_path_cons root seg s2 rest v :
  set_json_path root (seg :: s2 :: rest) v =
  match child root seg with
  | Some c =>
    let '(c', ok) := set_json_path c (s2 :: rest) v in (set_child root seg c', ok)
  | None => (root, false)
  end.
Proof. reflexivity. Qed.

Lemma delete_json_path_cons root seg s2 rest :
  delete_json_path root (seg :: s2 :: rest) =
  match child root seg with
  | Some c => let '(c', ok) := delete_json_path c (s2 :: rest) in (set_child root seg c', ok)
  | None => (root, false)
  end.
Proof. reflexivity. Qed.

Lemma set_json_path_wf root segs v :
  wf_value root -> wf_value v -> wf_value (set_json_path root segs v).1.
Proof.
  intros Hr Hv. revert root Hr. induction segs as [|seg [|s2 rest] IH]; intros root Hr; [done| |].
  - by apply set_final_wf.
  - rewrite set_json_path_cons. destruct (child root seg) as [c|] eqn:Hc; [|done].
    specialize (IH c (child_wf _ _ _ Hr Hc)).
    destruct (set_json_path c (s2 :: rest) v). by apply set_child_wf.
Qed.

Lemma delete_json_path_wf root segs :
  wf_value root -> wf_value (delete_json_path root segs).1.
Proof.
  revert root. induction segs as [|seg [|s2 rest] IH]; intros root Hr; [done| |].
  - by apply delete_final_wf.
  - rewrite delete_json_path_cons. destruct (child root seg) as [c|] eqn:Hc; [|done].
    specialize (IH c (child_wf _ _ _ Hr Hc)).
    destruct (delete_json_path c (s2 :: rest)). by apply set_child_wf.
Qed.

Lemma get_json_path_mut_wf {R} root segs (f : Value -> Value * R) :
  (forall v, wf_value v -> wf_value (f v).1) ->
  wf_value root -> wf_value (get_json_path_mut root segs f).1.
Proof.
  intros Hf. revert root. induction segs as [|seg rest IH]; intros root Hr; simpl.
  - specialize (Hf root Hr). by destruct (f root).
  - destruct (child root seg) as [c|] eqn:Hc; [|done].
    specialize (IH c (child_wf _ _ _ Hr Hc)).
    destruct (get_json_path_mut c rest f). by apply set_child_wf.
Qed.

Lemma flatten_path_fst {A} (r : Value * option (result bytes A)) : (flatten_path r).1 = r.1.
Proof. by destruct r. Qed.

Lemma numincrby_json_path_wf root segs delta :
  wf_value root -> wf_value (numincrby_json_path root segs delta).1.
Proof.
  intros Hr. unfold numincrby_json_path. rewrite flatten_path_fst. apply get_json_path_mut_wf; [|done].
  intros x Hx. unfold numincrby_node. repeat case_match; try done; constructor.
Qed.

Lemma arrappend_json_path_wf root segs v :
  wf_value root -> wf_value v -> wf_value (arrappend_json_path root segs v).1.
Proof.
  intros Hr Hv. unfold arrappend_json_path. rewrite flatten_path_fst.
  apply get_json_path_mut_wf; [|done]. intros x Hx. unfold arrappend_node.
  destruct x; try done. inversion Hx; subst. constructor. by apply Forall_app_2; [|constructor].
Qed.

(** ** Reading back what was written *)

Lemma child_set_child_eq v seg c c' : child v seg = Some c -> child (set_child v seg c') seg = Some c'.
Proof.
  destruct seg as [f|i], v as [| | | |l|m]; simpl; try done; intros Hc.
  - apply OMap.get_insert_eq.
  - rewrite list_lookup_insert_eq; [done|]. by eapply lookup_lt_Some.
Qed.

Lemma set_child_id v seg c : child v seg = Some c -> set_child v seg c = v.
Proof.
  destruct seg as [f|i], v as [| | | |l|m]; simpl; try done; intros Hc.
  - by rewrite OMap.insert_get_id.
  - by rewrite list_insert_id.
Qed.

(** Array indices are [usize] values. *)
Definition segment_ok (seg : JsonPathSegment) : Prop :=
  match seg with Field _ => True | Index i => 0 <= i end.

Lemma child_set_child_ne v seg seg' c :
  seg <> seg' -> segment_ok seg -> segment_ok seg' ->
  child (set_child v seg c) seg' = child v seg'.
Proof.
  intros Hne Hs Hs'. destruct seg as [f|i], seg' as [g|j], v as [| | | |l|m]; simpl in *; try done.
  - rewrite OMap.get_insert_ne; [done|]. congruence.
  - rewrite list_lookup_insert_ne; [done|]. assert (i <> j) by congruence. lia.
Qed.

Lemma child_set_final_eq v seg c v' :
  segment_ok seg -> set_final v seg c = (v', true) -> child v' seg = Some c.
Proof.
  intros Hok. destruct seg as [f|i], v as [| | | |l|m]; simpl in *; try done.
  - intros [= <-]. apply OMap.get_insert_eq.
  - unfold len. case_tests; intros [= <-]; prop_tests; simpl.
    + rewrite list_lookup_insert_eq; [done|lia].
    + replace (Z.to_nat i) with (length l) by lia. by apply list_lookup_middle.
Qed.

Lemma child_set_final_ne v seg seg' c v' ok :
  seg <> seg' -> segment_ok seg -> segment_ok seg' ->
  set_final v seg c = (v', ok) -> child v seg' <> None \/ ok = false -> child v' seg' = child v seg'.
Proof.
  intros Hne Hs Hs'. destruct seg as [f|i], seg' as [g|j], v as [| | | |l|m];
    simpl in *; try (by intros [= <- <-] ?); try (by case_tests; intros [= <- <-] ?).
  - intros [= <- <-] _. rewrite OMap.get_insert_ne; [done|]. congruence.
  - assert (i <> j) by congruence. unfold len.
    case_tests; intros [= <- <-]; prop_tests; simpl; intros Hc.
    + rewrite list_lookup_insert_ne; [done|lia].
    + destruct Hc as [Hc|]; [|done]. rewrite lookup_app_l; [done|].
      apply lookup_lt_is_Some. by destruct (l !! Z.to_nat j).
    + done.
Qed.

Lemma set_final_fail v seg c v' : set_final v seg c = (v', false) -> v' = v.
Proof.
  destruct seg as [f|i], v as [| | | |l|m]; simpl; case_tests; intros; by simplify_eq.
Qed.

Lemma delete_final_fail v seg v' : delete_final v seg = (v', false) -> v' = v.
Proof.
  destruct seg as [f|i], v as [| | | |l|m]; simpl; repeat case_match; intros; by simplify_eq.
Qed.

(** A successful JSON.SET at a path makes exactly the new value readable
    at that path. *)
Theorem set_json_path_get root segs v root' :
  Forall segment_ok segs ->
  set_json_path root segs v = (root', true) -> get_json_path root' segs = Some v.
Proof.
  intros Hok. revert root root'. induction segs as [|seg [|s2 rest] IH]; intros root root'.
  - by intros [= <-].
  - inversion Hok; subst. intros H. simpl. by rewrite (child_set_final_eq root seg v root').
  - inversion Hok; subst. rewrite set_json_path_cons.
    destruct (child root seg) as [c|] eqn:Hc; [|done].
    destruct (set_json_path c (s2 :: rest) v) as [c' ok] eqn:Hs.
    intros [= <- ->]. change (get_json_path (set_child root seg c') (seg :: s2 :: rest))
      with (match child (set_child root seg c') seg with
            | Some x => get_json_path x (s2 :: rest) | None => None end).
    rewrite (child_set_child_eq _ _ _ _ Hc). by eapply IH.
Qed.

(** A mutation that reports failure has not modified the document. *)
Lemma set_json_path_fail root segs v root' :
  set_json_path root segs v = (root', false) -> root' = root.
Proof.
  revert root root'. induction segs as [|seg [|s2 rest] IH]; intros root root';
    [by intros [= <-]|apply set_final_fail|].
  rewrite set_json_path_cons. destruct (child root seg) as [c|] eqn:Hc; [|by intros [= <-]].
  destruct (set_json_path c (s2 :: rest) v) as [c' ok] eqn:Hs.
  intros [= <- ->]. rewrite (IH _ _ Hs). by apply set_child_id.
Qed.

Lemma delete_json_path_fail root segs root' :
  delete_json_path root segs = (root', false) -> root' = root.
Proof.
  revert root root'. induction segs as [|seg [|s2 rest] IH]; intros root root';
    [by intros [= <-]|apply delete_final_fail|].
  rewrite delete_json_path_cons. destruct (child root seg) as [c|] eqn:Hc; [|by intros [= <-]].
  destruct (delete_json_path c (s2 :: rest)) as [c' ok] eqn:Hs.
  intros [= <- ->]. rewrite (IH _ _ Hs). by apply set_child_id.
Qed.

Lemma get_json_path_mut_fail {R} root segs (f : Value -> Value * R) (quiet : R -> Prop) :
  (forall node, quiet (f node).2 -> (f node).1 = node) ->
  match (get_json_path_mut root segs f).2 with
  | Some r => quiet r -> (get_json_path_mut root segs f).1 = root
  | None => (get_json_path_mut root segs f).1 = root
  end.
Proof.
  intros Hf. revert root. induction segs as [|seg rest IH]; intros root; simpl.
  - specialize (Hf root). by destruct (f root).
  - destruct (child root seg) as [c|] eqn:Hc; [|done]. specialize (IH c).
    destruct (get_json_path_mut c rest f) as [c' [r|]]; cbn [fst snd] in *.
    + intros Hq. rewrite (IH Hq). by apply set_child_id.
    + rewrite IH. by apply set_child_id.
Qed.

Definition is_err {E A} (r : result E A) : Prop := match r with Err _ => True | Ok _ => False end.

Lemma numincrby_json_path_fail root segs delta :
  is_err (numincrby_json_path root segs delta).2 -> (numincrby_json_path root segs delta).1 = root.
Proof.
  unfold numincrby_json_path. rewrite flatten_path_fst.
  pose proof (get_json_path_mut_fail root segs (numincrby_node delta) is_err) as H.
  destruct (get_json_path_mut root segs (numincrby_node delta)) as [root' [r|]]; cbn [fst snd flatten_path] in *.
  - apply H. intros node. unfold numincrby_node. repeat case_match; done.
  - intros _. apply H. intros node. unfold numincrby_node. repeat case_match; done.
Qed.

Lemma arrappend_json_path_fail root segs v :
  is_err (arrappend_json_path root segs v).2 -> (arrappend_json_path root segs v).1 = root.
Proof.
  unfold arrappend_json_path. rewrite flatten_path_fst.
  pose proof (get_json_path_mut_fail root segs (arrappend_node v) is_err) as H.
  destruct (get_json_path_mut root segs (arrappend_node v)) as [root' [r|]]; cbn [fst snd flatten_path] in *.
  - apply H. intros node. by destruct node.
  - intros _. apply H. intros node. by destruct node.
Qed.

(** Two paths that part at some segment. *)
Inductive diverge : list JsonPathSegment -> list JsonPathSegment -> Prop :=
| diverge_here s t p q : s <> t -> diverge (s :: p) (t :: q)
| diverge_later s p q : diverge p q -> diverge (s :: p) (s :: q).

(** Writing at a path, successfully or not, leaves every value at a
    diverging path as it was. *)
Theorem set_json_path_frame root segs other v x :
  Forall segment_ok segs -> Forall segment_ok other -> diverge segs other ->
  get_json_path root other = Some x ->
  get_json_path (set_json_path root segs v).1 other = Some x.
Proof.
  intros Hs Ho Hd. revert root Hs Ho. induction Hd as [s t p q Hne|s p q Hd IH];
    intros root Hs Ho Hg; inversion Hs as [|? ? Hs1 Hs2]; inversion Ho as [|? ? Ho1 Ho2]; subst.
  - simpl in Hg. destruct (child root t) as [ct|] eqn:Hct; [|done].
    destruct p as [|s2 p].
    + simpl. destruct (set_final root s v) as [v' ok] eqn:Hf. simpl.
      rewrite (child_set_final_ne _ _ _ _ _ _ Hne Hs1 Ho1 Hf) by (left; congruence).
      by rewrite Hct.
    + rewrite set_json_path_cons. destruct (child root s) as [c|] eqn:Hc.
      * destruct (set_json_path c (s2 :: p) v) as [c' ok]. cbn [fst get_json_path].
        by rewrite child_set_child_ne, Hct.
      * cbn [fst get_json_path]. by rewrite Hct.
  - destruct p as [|s2 p]; [inversion Hd|].
    simpl in Hg. destruct (child root s) as [c|] eqn:Hc; [|done].
    rewrite set_json_path_cons, Hc. specialize (IH c Hs2 Ho2 Hg).
    destruct (set_json_path c (s2 :: p) v) as [c' ok]. cbn [fst get_json_path] in *.
    by rewrite (child_set_child_eq _ _ _ _ Hc).
Qed.

(** After a successful JSON.DEL of an object field nothing is found at its
    path. *)
Theorem delete_json_path_field root segs f root' :
  wf_value root ->
  delete_json_path root (segs ++ [Field f]) = (root', true) ->
  get_json_path root' (segs ++ [Field f]) = None.
Proof.
  revert root root'. induction segs as [|seg segs IH]; intros root root' Hw.
  - simpl. destruct root as [| | | |l|m]; simpl; try done.
    destruct (OMap.get f m); intros H; simplify_eq/=.
    inversion Hw; subst. by rewrite OMap.get_remove_eq.
  - cbn [app]. destruct (segs ++ [Field f]) as [|s2 r] eqn:E; [by destruct segs|].
    rewrite delete_json_path_cons. destruct (child root seg) as [c|] eqn:Hc; [|done].
    destruct (delete_json_path c (s2 :: r)) as [c' ok] eqn:Hd. intros [= <- ->].
    specialize (IH c c' (child_wf _ _ _ Hw Hc) Hd).
    cbn [get_json_path]. rewrite (child_set_child_eq _ _ _ _ Hc). exact IH.
Qed.

(** The mutable access path: the closure runs on the addressed node, its
    result is stored back there, and a path that addresses nothing leaves the
    document alone. *)
Lemma get_json_path_mut_spec {R} root segs (f : Value -> Value * R) :
  match get_json_path root segs with
  | Some node =>
    (get_json_path_mut root segs f).2 = Some (f node).2 /\
    get_json_path (get_json_path_mut root segs f).1 segs = Some (f node).1
  | None => get_json_path_mut root segs f = (root, None)
  end.
Proof.
  revert root. induction segs as [|seg rest IH]; intros root; simpl.
  - by destruct (f root).
  - destruct (child root seg) as [c|] eqn:Hc; [|done].
    specialize (IH c). destruct (get_json_path c rest) as [node|].
    + destruct (get_json_path_mut c rest f) as [c' r]. cbn [fst snd] in *.
      destruct IH as [-> IH]. by rewrite (child_set_child_eq _ _ _ _ Hc).
    + rewrite IH. by rewrite (set_child_id _ _ _ Hc).
Qed.

(** JSON.ARRAPPEND: the array at the path gains the value as its last
    element and the reported length is the new length; any other node, and a
    path that addresses nothing, is an error. *)
Theorem arrappend_json_path_spec root segs v :
  match get_json_path root segs with
  | Some (JArray arr) =>
    (arrappend_json_path root segs v).2 = Ok (len arr + 1) /\
    get_json_path (arrappend_json_path root segs v).1 segs = Some (JArray (arr ++ [v]))
  | Some _ => (arrappend_json_path root segs v).2 = Err err_not_array
  | None => arrappend_json_path root segs v = (root, Err err_path_not_found)
  end.
Proof.
  pose proof (get_json_path_mut_spec root segs (arrappend_node v)) as H.
  unfold arrappend_json_path, flatten_path.
  destruct (get_json_path root segs) as [node|]; [|by rewrite H].
  destruct (get_json_path_mut root segs (arrappend_node v)) as [root' o].
  destruct H as [Ho Hg]. simpl in Ho, Hg. subst o.
  destruct node; simpl; try done. split; [|done]. rewrite len_app. done.
Qed.

(** A JSON mutation that reports failure has not modified the document. *)
Theorem json_failures_leave_document root segs v delta :
  (forall root', set_json_path root segs v = (root', false) -> root' = root) /\
  (forall root', delete_json_path root segs = (root', false) -> root' = root) /\
  (is_err (numincrby_json_path root segs delta).2 -> (numincrby_json_path root segs delta).1 = root) /\
  (is_err (arrappend_json_path root segs v).2 -> (arrappend_json_path root segs v).1 = root).
Proof.
  split; [intros root'; apply set_json_path_fail|]. split; [intros root'; apply delete_json_path_fail|].
  split; [apply numincrby_json_path_fail|apply arrappend_json_path_fail].
Qed.

End Paths.

(** ** Printing and parsing paths *)

Definition print_segment (seg : JsonPathSegment) : bytes :=
  match seg with
  | Field f => ch_dot ++ f
  | Index i => ch_open ++ print_Z i ++ ch_close
  end.

Definition print_json_path (segs : list JsonPathSegment) : bytes :=
  ch_dollar ++ concat (map print_segment segs).

(** A field a path can spell: well-formed text, not empty, without the
    delimiters, and with no white space at its end. *)
Definition printable_segment (seg : JsonPathSegment) : Prop :=
  match seg with
  | Field f =>
    Utf8.valid f = true /\ f <> [] /\
    Forall (fun c => field_char c = true) (Utf8.chars f) /\
    (exists c, list.last (Utf8.chars f) = Some c /\ is_whitespace c = false)
  | Index i => 0 <= i <= USIZE_MAX
  end.

Lemma span_all p a b :
  Forall (fun c => p c = true) a ->
  match b with [] => True | c :: _ => p c = false end ->
  span p (a ++ b) = (a, b).
Proof.
  induction a as [|c a IH]; intros Ha Hb; simpl.
  - destruct b as [|c b]; simpl; [done|]. by rewrite Hb.
  - inversion Ha as [|? ? Hc Ha']; subst. rewrite Hc. by rewrite IH.
Qed.

Lemma chars_digits s :
  Forall (fun b => is_ascii_digit b = true) s -> Utf8.chars s = map (fun b => [b]) s.
Proof.
  induction s as [|b s IH]; intros Hs; [done|].
  inversion Hs as [|? ? Hb Hs']; subst.
  change (b :: s) with ([b] ++ s).
  assert (Hv : Utf8.valid [b] = true) by (apply valid_digits; by constructor).
  rewrite chars_app by done. rewrite IH by done. simpl. f_equal.
  assert (Hc : concat (Utf8.chars [b]) = [b]) by apply Utf8.concat_chars.
  unfold Utf8.chars, Utf8.chunks in *. cbn [length Utf8.chunks_fuel] in *.
  unfold Utf8.next_chunk, Utf8.width, Utf8.in_range.
  unfold is_ascii_digit in Hb. prop_tests.
  replace (0 <=? byte_Z b) with true by (symmetry; apply Z.leb_le; lia).
  by replace (byte_Z b <=? 127) with true by (symmetry; apply Z.leb_le; lia).
Qed.

Lemma valid_print_segment seg : printable_segment seg -> Utf8.valid (print_segment seg) = true.
Proof.
  destruct seg as [f|i]; simpl; intros H.
  - apply (Utf8.valid_app ch_dot); [done|apply H].
  - destruct (print_Z_spec i) as (d & ds & -> & Hd & _); [lia|].
    apply (Utf8.valid_app ch_open); [done|]. apply Utf8.valid_app; [|done].
    by apply valid_digits.
Qed.

Lemma concat_singletons (s : bytes) : concat (map (fun b => [b]) s) = s.
Proof. induction s as [|b s IH]; simpl; congruence. Qed.

Lemma index_chars ds :
  Forall (fun b => is_ascii_digit b = true) ds ->
  Forall (fun c => index_char c = true) (map (fun b => [b]) ds).
Proof.
  intros H. apply Forall_map. revert H. apply Forall_impl. intros b Hb. unfold index_char. destruct (bytes_eqb_spec [b] ch_close) as [E|]; [|done].
  injection E as ->. done.
Qed.

(** The text of a printed path after a segment starts with a delimiter. *)
Lemma printed_head segs :
  match Utf8.chars (concat (map print_segment segs)) with
  | [] => True
  | c :: _ => field_char c = false
  end.
Proof.
  destruct segs as [|[f|i] segs]; [done| |].
  - simpl map. change (concat _) with (ch_dot ++ (f ++ concat (map print_segment segs))).
    rewrite chars_app by done. done.
  - simpl map.
    change (concat _) with ((ch_open ++ print_Z i ++ ch_close) ++ concat (map print_segment segs)).
    rewrite <- app_assoc, chars_app by done. done.
Qed.

Lemma chars_print_segment seg :
  printable_segment seg ->
  Utf8.chars (print_segment seg) =
  match seg with
  | Field f => ch_dot :: Utf8.chars f
  | Index i => ch_open :: map (fun b => [b]) (print_Z i) ++ [ch_close]
  end.
Proof.
  destruct seg as [f|i]; unfold print_segment; intros H; rewrite chars_app by done; [done|].
  simpl in H. destruct (print_Z_spec i) as (d & ds & -> & Hd & _); [lia|].
  rewrite (chars_app (d :: ds)) by (by apply valid_digits).
  rewrite (chars_digits (d :: ds)) by exact Hd. reflexivity.
Qed.

Lemma parse_print_segments segs fuel :
  Forall printable_segment segs ->
  (length (Utf8.chars (concat (map print_segment segs))) <= fuel)%nat ->
  parse_segments fuel (Utf8.chars (concat (map print_segment segs))) = Some segs.
Proof.
  revert fuel. induction segs as [|seg segs IH]; intros fuel Hp Hf; [by destruct fuel|].
  inversion Hp as [|? ? Hs Hp']; subst. cbn [map concat] in *.
  rewrite chars_app in Hf |- * by (by apply valid_print_segment).
  pose proof (printed_head segs) as Hh. rewrite length_app in Hf.
  rewrite chars_print_segment in Hf |- * by done.
  set (tail := Utf8.chars (concat (map print_segment segs))) in *.
  destruct fuel as [|fuel]; [destruct seg; simpl in Hf; lia|].
  destruct seg as [f|i]; cbn [app parse_segments].
  - destruct Hs as (Hv & Hne & Hfc & _). rewrite bytes_eqb_refl.
    rewrite span_all; [|done|exact Hh].
    destruct (Utf8.chars f) as [|c0 cs] eqn:Ef.
    { pose proof (Utf8.concat_chars f) as Hc. rewrite Ef in Hc. by subst. }
    rewrite <- Ef, Utf8.concat_chars. rewrite IH; [done|done|simpl in Hf; lia].
  - simpl in Hs. destruct (print_Z_spec i) as (d & ds & Hpz & Hd & _); [lia|].
    change (bytes_eqb ch_open ch_dot) with false. rewrite bytes_eqb_refl.
    rewrite <- app_assoc. rewrite span_all; [|rewrite Hpz; by apply index_chars|done].
    cbn [app]. rewrite concat_singletons. unfold parse_usize.
    rewrite parse_print_unsigned by exact Hs. cbn [mbind option_bind].
    rewrite IH; [done|done|]. simpl in Hf. rewrite length_app in Hf. lia.
Qed.

Lemma drop_while_last (l : list bytes) c :
  list.last l = Some c -> is_whitespace c = false -> rev (drop_while is_whitespace (rev l)) = l.
Proof.
  intros Hl Hc. destruct l as [|x l] using rev_ind; [done|].
  rewrite list.last_snoc in Hl. injection Hl as ->. rewrite rev_app_distr. simpl.
  rewrite Hc. simpl. by rewrite rev_involutive.
Qed.

Lemma last_segment_char segs :
  Forall printable_segment segs -> segs <> [] ->
  exists c, list.last (Utf8.chars (concat (map print_segment segs))) = Some c /\
    is_whitespace c = false.
Proof.
  intros Hp Hne. destruct segs as [|seg segs] using rev_ind; [done|]. clear IHsegs Hne.
  apply Forall_app in Hp as [Hp1 Hp2]. inversion Hp2 as [|? ? Hs _]; subst.
  rewrite map_app, concat_app. cbn [map concat]. rewrite app_nil_r.
  assert (Hv : Utf8.valid (concat (map print_segment segs)) = true).
  { clear Hp2 Hs. induction Hp1 as [|s l Hs Hl IH]; [done|]. simpl.
    apply Utf8.valid_app; [by apply valid_print_segment|done]. }
  rewrite chars_app by done. destruct seg as [f|i]; unfold print_segment.
  - destruct Hs as (_ & _ & _ & c & Hl & Hc). exists c. split; [|done].
    rewrite chars_app by done. rewrite !list.last_app, Hl. done.
  - exists ch_close. split; [|done]. destruct (print_Z_spec i) as (d & ds & -> & Hd & _);
      [simpl in Hs; lia|].
    rewrite chars_app by done. rewrite chars_app by (by apply valid_digits).
    rewrite !list.last_app. done.
Qed.

(** Parsing the text of a path gives back its segments. *)
Theorem parse_print_json_path segs :
  Forall printable_segment segs -> parse_json_path (print_json_path segs) = Some segs.
Proof.
  intros Hp. unfold parse_json_path, print_json_path, trim_chars.
  rewrite chars_app by done. change (Utf8.chars ch_dollar) with [ch_dollar].
  set (cs := Utf8.chars (concat (map print_segment segs))).
  change (drop_while is_whitespace ([ch_dollar] ++ cs)) with (ch_dollar :: cs).
  assert (Ht : rev (drop_while is_whitespace (rev (ch_dollar :: cs))) = ch_dollar :: cs).
  { destruct segs as [|seg segs]; [done|].
    destruct (last_segment_char (seg :: segs) Hp ltac:(done)) as (c & Hl & Hc).
    apply drop_while_last with c; [|done]. change (ch_dollar :: cs) with ([ch_dollar] ++ cs).
    rewrite list.last_app. unfold cs. by rewrite Hl. }
  rewrite Ht, bytes_eqb_refl. simpl negb. cbn iota.
  pose proof (parse_print_segments segs (length cs) Hp ltac:(done)) as Hps. fold cs in Hps.
  pose proof (printed_head segs) as Hh. fold cs in Hh.
  destruct cs as [|c1 r].
  - destruct segs; [done|]. simpl in Hps. congruence.
  - unfold field_char in Hh. rewrite Hh. exact Hps.
Qed.

(** ** Instances *)

Definition demo_doc : @Value demo_numbers :=
  @JObject demo_numbers [(bs "a", JArray [JNull; JBool true]); (bs "b", JNull)].

Lemma set_json_path_get_witness :
  get_json_path (set_json_path demo_doc [Field (bs "a"); Index 1] JNull).1 [Field (bs "a"); Index 1] =
  Some JNull.
Proof.
  apply (set_json_path_get demo_doc [Field (bs "a"); Index 1] JNull); [|reflexivity].
  repeat constructor; simpl; lia.
Defined.

Lemma set_json_path_frame_witness :
  get_json_path (set_json_path demo_doc [Field (bs "a"); Index 0] JNull).1 [Field (bs "a"); Index 1] =
  Some (JBool true).
Proof.
  apply (set_json_path_frame demo_doc [Field (bs "a"); Index 0] [Field (bs "a"); Index 1] JNull).
  - repeat constructor; simpl; lia.
  - repeat constructor; simpl; lia.
  - apply diverge_later, diverge_here. discriminate.
  - reflexivity.
Defined.

Lemma delete_json_path_field_witness :
  get_json_path (delete_json_path demo_doc ([] ++ [Field (bs "b")])).1 ([] ++ [Field (bs "b")]) = None.
Proof.
  apply (delete_json_path_field demo_doc [] (bs "b")); [|reflexivity].
  repeat constructor.
Defined.

Lemma parse_print_json_path_witness :
  parse_json_path (print_json_path [Field (bs "user"); Index 3]) = Some [Field (bs "user"); Index 3].
Proof.
  apply parse_print_json_path. constructor; [|constructor; [|constructor]].
  - split; [reflexivity|]. split; [discriminate|]. split; [repeat constructor|].
    exists (bs "r"). split; reflexivity.
  - simpl. unfold USIZE_MAX, U64_MAX. lia.
Defined.
