(* ===== verification/Value.v ===== *)
(** * Value: stored values and their logical size (src/engine.rs)

    [OnyxValue], [DataEntry] and [approx_entry_size], with the order
    independence of the size estimate and the footprint of a whole map. *)

From Stdlib Require Import ZArith Lia.
From Stdlib Require Import Strings.Byte.
From stdpp Require Import base gmap list strings numbers.
From S2P Require Import Prelude Text Json.

Open Scope Z_scope.

(** Floating-point payloads are their bit patterns. *)
Inductive OnyxValue {JN : JsonNumber} : Type :=
| Blob (b : bytes)
| Int (n : Z)
| Float (bits : Z)
| VList (l : list bytes)
| Hash (h : gmap bytes bytes)
| VSet (s : gset bytes)
| Json (j : Value)
| Vector (v : list Z).

Record DataEntry {JN : JsonNumber} : Type := mkEntry {
  value : OnyxValue;
  expires_at : option Z;
  created_at : Z;
  last_accessed : Z
}.

Inductive EntryMutation (R : Type) : Type :=
| Keep (r : R)
| Delete (r : R).
Arguments Keep {R} r.
Arguments Delete {R} r.

Definition set_value_field {JN : JsonNumber} (e : DataEntry) (v : OnyxValue) : DataEntry :=
  mkEntry JN v (expires_at e) (created_at e) (last_accessed e).
Definition set_expires_field {JN : JsonNumber} (e : DataEntry) (x : option Z) : DataEntry :=
  mkEntry JN (value e) x (created_at e) (last_accessed e).
Definition set_accessed_field {JN : JsonNumber} (e : DataEntry) (t : Z) : DataEntry :=
  mkEntry JN (value e) (expires_at e) (created_at e) t.

(** [entry.expires_at.is_some_and(|expiry| now >= expiry)]. *)
Definition expired_by {JN : JsonNumber} (now : Z) (e : DataEntry) : bool :=
  match expires_at e with Some expiry => expiry <=? now | None => false end.

Section Sizes.
Context {JN : JsonNumber} {SJ : SerdeJson} {HO : HashOrder}.

Definition list_size (l : list bytes) : Z :=
  fold_left (fun size v => sat_add size (sat_add (len v) 8)) l 0.

Definition hash_size (l : list (bytes * bytes)) : Z :=
  fold_left (fun size (fv : bytes * bytes) =>
    sat_add size (sat_add (sat_add (len fv.1) (len fv.2)) 16)) l 0.

Definition approx_entry_size (key : bytes) (entry : DataEntry) : Z :=
  let value_size :=
    match value entry with
    | Blob b => len b
    | Int _ => 8
    | Float _ => 8
    | VList l => list_size l
    | Hash h => hash_size (hm_iter h)
    | VSet s => list_size (hs_iter s)
    | Json j => len (json_to_string j)
    | Vector v => sat_mul (len v) 4
    end in
  sat_add (sat_add (len key) value_size) 64.

Lemma fold_sat_sum {A} (g : A -> Z) (l : list A) acc :
  (forall a, 0 <= g a) -> 0 <= acc <= USIZE_MAX ->
  fold_left (fun size a => sat_add size (g a)) l acc =
  Z.min USIZE_MAX (acc + foldr (fun a s => g a + s) 0 l).
Proof.
  intros Hg. revert acc. induction l as [|a l IH]; intros acc Ha; simpl.
  - lia.
  - pose proof (Hg a). assert (Hs : 0 <= foldr (fun a s => g a + s) 0 l).
    { clear IH. induction l as [|b l IHl]; simpl; [lia|]. pose proof (Hg b). lia. }
    rewrite IH; unfold sat_add; lia.
Qed.

Lemma list_size_nonneg l : 0 <= list_size l.
Proof.
  unfold list_size. rewrite (fold_sat_sum (fun v => sat_add (len v) 8)).
  - unfold USIZE_MAX, U64_MAX.
    assert (H : 0 <= foldr (fun v s => sat_add (len v) 8 + s) 0 l).
    { induction l as [|v l IH]; simpl; [lia|]. pose proof (len_nonneg v).
      unfold sat_add, USIZE_MAX, U64_MAX in *. lia. }
    lia.
  - intros v. pose proof (len_nonneg v). unfold sat_add, USIZE_MAX, U64_MAX. lia.
  - unfold USIZE_MAX, U64_MAX. lia.
Qed.

Lemma hash_size_nonneg l : 0 <= hash_size l.
Proof.
  unfold hash_size.
  rewrite (fold_sat_sum (fun fv : bytes * bytes => sat_add (sat_add (len fv.1) (len fv.2)) 16)).
  - unfold USIZE_MAX, U64_MAX.
    assert (H : 0 <= foldr (fun (fv : bytes * bytes) s =>
      sat_add (sat_add (len fv.1) (len fv.2)) 16 + s) 0 l).
    { induction l as [|v l IH]; simpl; [lia|]. pose proof (len_nonneg v.1).
      pose proof (len_nonneg v.2). unfold sat_add, USIZE_MAX, U64_MAX in *. lia. }
    lia.
  - intros v. pose proof (len_nonneg v.1). pose proof (len_nonneg v.2).
    unfold sat_add, USIZE_MAX, U64_MAX. lia.
  - unfold USIZE_MAX, U64_MAX. lia.
Qed.

(** Every entry is charged at least the fixed overhead of 64 bytes. *)
Lemma approx_entry_size_bounds key entry : 64 <= approx_entry_size key entry <= USIZE_MAX.
Proof.
  unfold approx_entry_size. pose proof (len_nonneg key) as Hk.
  assert (Hv : 0 <= match value entry with
    | Blob b => len b | Int _ => 8 | Float _ => 8 | VList l => list_size l
    | Hash h => hash_size (hm_iter h) | VSet s => list_size (hs_iter s)
    | Json j => len (json_to_string j) | Vector v => sat_mul (len v) 4 end).
  { destruct (value entry); try lia; try apply len_nonneg;
      auto using list_size_nonneg, hash_size_nonneg.
    pose proof (len_nonneg v). unfold sat_mul, USIZE_MAX, U64_MAX. lia. }
  unfold sat_add, USIZE_MAX, U64_MAX in *. lia.
Qed.

(** The estimate does not depend on access metadata. *)
Lemma approx_entry_size_meta key e t x :
  approx_entry_size key (set_accessed_field (set_expires_field e x) t) = approx_entry_size key e.
Proof. reflexivity. Qed.

(** ** Footprint of a map *)

Definition footprint (m : gmap bytes DataEntry) : Z :=
  map_fold (fun k e acc => approx_entry_size k e + acc) 0 m.

Definition cost (k : bytes) (o : option DataEntry) : Z :=
  match o with Some e => approx_entry_size k e | None => 0 end.

Definition present (o : option DataEntry) : Z := match o with Some _ => 1 | None => 0 end.

(** Overwrites the cell of one key. *)
Definition set_cell (k : bytes) (o : option DataEntry) (m : gmap bytes DataEntry)
  : gmap bytes DataEntry :=
  match o with Some e => <[k := e]> m | None => delete k m end.

Lemma lookup_set_cell_eq k o m : set_cell k o m !! k = o.
Proof. destruct o; simpl; by simplify_map_eq. Qed.

Lemma lookup_set_cell_ne k k' o m : k' <> k -> set_cell k o m !! k' = m !! k'.
Proof. intros H. destruct o; simpl; by simplify_map_eq. Qed.

Lemma set_cell_id k m : set_cell k (m !! k) m = m.
Proof.
  destruct (m !! k) as [e|] eqn:E; simpl; [by apply insert_id|by apply delete_id].
Qed.

Lemma set_cell_set_cell k o o' m : set_cell k o' (set_cell k o m) = set_cell k o' m.
Proof.
  apply map_eq. intros i. destruct (decide (i = k)) as [->|Hne].
  - by rewrite !lookup_set_cell_eq.
  - by rewrite !lookup_set_cell_ne.
Qed.

Lemma footprint_insert_None k e m :
  m !! k = None -> footprint (<[k := e]> m) = approx_entry_size k e + footprint m.
Proof.
  intros H. unfold footprint. rewrite map_fold_insert_L; [done| |done].
  intros. lia.
Qed.

Lemma footprint_delete k m : footprint m = cost k (m !! k) + footprint (delete k m).
Proof.
  destruct (m !! k) as [e|] eqn:E; simpl.
  - rewrite <- (insert_delete_id m k e E) at 1. apply footprint_insert_None.
    by simplify_map_eq.
  - by rewrite delete_id.
Qed.

Lemma footprint_set_cell k o m :
  footprint (set_cell k o m) = footprint m - cost k (m !! k) + cost k o.
Proof.
  rewrite (footprint_delete k m). destruct o as [e|]; simpl; [|lia].
  rewrite <- insert_delete_eq. rewrite footprint_insert_None by (by simplify_map_eq). lia.
Qed.

Lemma size_set_cell k o m :
  Z.of_nat (size (set_cell k o m)) = Z.of_nat (size m) - present (m !! k) + present o.
Proof.
  destruct o as [e|], (m !! k) as [e'|] eqn:E; simpl.
  - rewrite map_size_insert_Some by eauto. lia.
  - rewrite map_size_insert_None by done. lia.
  - rewrite map_size_delete_Some by eauto. destruct (decide (size m = 0%nat)) as [Hz|].
    + apply map_size_empty_inv in Hz. subst. by simplify_map_eq.
    + lia.
  - rewrite delete_id by done. lia.
Qed.

Lemma footprint_lower m : 64 * Z.of_nat (size m) <= footprint m.
Proof.
  induction m as [|k e m Hk IH] using map_ind; [by vm_compute|].
  rewrite footprint_insert_None, map_size_insert_None by done.
  pose proof (approx_entry_size_bounds k e). lia.
Qed.

Lemma footprint_nonneg m : 0 <= footprint m.
Proof. pose proof (footprint_lower m). lia. Qed.

Lemma cost_le_footprint k m : 0 <= cost k (m !! k) <= footprint m.
Proof.
  rewrite (footprint_delete k m). pose proof (footprint_nonneg (delete k m)).
  destruct (m !! k) as [e|]; simpl; [|lia].
  pose proof (approx_entry_size_bounds k e). lia.
Qed.

Lemma present_le_size (k : bytes) (m : gmap bytes DataEntry) : 0 <= present (m !! k) <= Z.of_nat (size m).
Proof.
  pose proof (size_set_cell k None m) as H. simpl in H.
  destruct (m !! k); simpl in *; lia.
Qed.

End Sizes.
