(* ===== verification/Shard.v ===== *)
(** * Shard: one shard of the engine (src/engine.rs)

    [ShardData] is the copy-on-write map with its snapshot epochs and [Shard]
    the operations that run under one shard mutex.  The logical contents of
    the data is [view]; each single-key operation is shown to implement a
    transformer of that key's cell ([shard_refines]) and to keep the key and
    memory accounting exact ([shard_wf]). *)

From Stdlib Require Import ZArith Lia.
From Stdlib Require Import Strings.Byte.
From stdpp Require Import base gmap list strings numbers.
From S2P Require Import Prelude Text Json Value.

Open Scope Z_scope.

(** ** The copy-on-write map *)

Inductive ShardData {JN : JsonNumber} : Type :=
| Flat (data : gmap bytes DataEntry)
| Snapshot (base : gmap bytes DataEntry) (changes : gmap bytes (option DataEntry)).

Section Data.
Context {JN : JsonNumber} {HO : HashOrder}.

Definition sd_get (d : ShardData) (key : bytes) : option DataEntry :=
  match d with
  | Flat data => data !! key
  | Snapshot base changes =>
    match changes !! key with
    | Some (Some entry) => Some entry
    | Some None => None
    | None => base !! key
    end
  end.

(** [get_mut]: the data after a missing delta has been copied, and the entry
    the returned reference points to. *)
Definition sd_get_mut (d : ShardData) (key : bytes) : ShardData * option DataEntry :=
  match d with
  | Flat data => (d, data !! key)
  | Snapshot base changes =>
    let changes :=
      match changes !! key with
      | Some _ => changes
      | None => <[key := base !! key]> changes
      end in
    (Snapshot base changes, match changes !! key with Some c => c | None => None end)
  end.

(** A write through the reference [get_mut] returned. *)
Definition sd_write (d : ShardData) (key : bytes) (entry : DataEntry) : ShardData :=
  match d with
  | Flat data => Flat (<[key := entry]> data)
  | Snapshot base changes => Snapshot base (<[key := Some entry]> changes)
  end.

Definition sd_insert (d : ShardData) (key : bytes) (entry : DataEntry)
  : ShardData * option DataEntry :=
  match d with
  | Flat data => (Flat (<[key := entry]> data), data !! key)
  | Snapshot base changes =>
    let previous :=
      match changes !! key with
      | Some previous => previous
      | None => base !! key
      end in
    (Snapshot base (<[key := Some entry]> changes), previous)
  end.

Definition sd_remove (d : ShardData) (key : bytes) : ShardData * option DataEntry :=
  match d with
  | Flat data => (Flat (delete key data), data !! key)
  | Snapshot base changes =>
    let previous :=
      match changes !! key with
      | Some previous => previous
      | None => base !! key
      end in
    match previous with
    | Some _ => (Snapshot base (<[key := None]> changes), previous)
    | None => (d, previous)
    end
  end.

(** The entries [visit] passes to its visitor, in order. *)
Definition sd_visit (d : ShardData) : list (bytes * DataEntry) :=
  match d with
  | Flat data => hm_iter data
  | Snapshot base changes =>
    omap (fun kc : bytes * option DataEntry =>
            match kc.2 with Some entry => Some (kc.1, entry) | None => None end)
         (hm_iter changes)
    ++ filter (fun ke : bytes * DataEntry => changes !! ke.1 = None) (hm_iter base)
  end.

(** [begin_snapshot]: [None] is the panic on a nested epoch. *)
Definition sd_begin_snapshot (d : ShardData) : option (ShardData * gmap bytes DataEntry) :=
  match d with
  | Flat data => Some (Snapshot data ∅, data)
  | Snapshot _ _ => None
  end.

Definition apply_change (data : gmap bytes DataEntry) (kc : bytes * option DataEntry)
  : gmap bytes DataEntry :=
  match kc.2 with Some entry => <[kc.1 := entry]> data | None => delete kc.1 data end.

Definition sd_finish_snapshot (d : ShardData) : ShardData * bool :=
  match d with
  | Snapshot base changes => (Flat (fold_left apply_change (hm_iter changes) base), true)
  | Flat _ => (d, false)
  end.

(** The logical contents. *)
Definition view (d : ShardData) : gmap bytes DataEntry :=
  match d with
  | Flat data => data
  | Snapshot base changes =>
    merge (fun c b => match c with Some c' => c' | None => b end) changes base
  end.

Lemma lookup_view d k : view d !! k = sd_get d k.
Proof.
  destruct d as [data|base changes]; simpl; [done|].
  rewrite lookup_merge. unfold diag_None.
  destruct (changes !! k) as [[e|]|], (base !! k); done.
Qed.

Lemma view_ext d m : (forall k, sd_get d k = m !! k) -> view d = m.
Proof. intros H. apply map_eq. intros k. by rewrite lookup_view. Qed.

Lemma sd_get_mut_spec d k :
  view (sd_get_mut d k).1 = view d /\ (sd_get_mut d k).2 = view d !! k.
Proof.
  rewrite lookup_view. destruct d as [data|base changes]; simpl; [done|].
  destruct (changes !! k) as [c|] eqn:E; rewrite ?E.
  - split; [done|]. by destruct c.
  - rewrite lookup_insert_eq. split; [|done]. apply map_eq. intros i.
    rewrite !lookup_merge. unfold diag_None. destruct (decide (i = k)) as [->|Hne].
    + rewrite lookup_insert_eq, E. by destruct (base !! k).
    + by rewrite lookup_insert_ne.
Qed.

Lemma sd_write_spec d k e : view (sd_write d k e) = <[k := e]> (view d).
Proof.
  apply view_ext. intros i. destruct d as [data|base changes]; [done|].
  cbn [sd_write sd_get]. destruct (decide (i = k)) as [->|Hne].
  - by rewrite !lookup_insert_eq.
  - rewrite !lookup_insert_ne by done. by rewrite lookup_view.
Qed.

Lemma sd_insert_spec d k e :
  view (sd_insert d k e).1 = <[k := e]> (view d) /\ (sd_insert d k e).2 = view d !! k.
Proof.
  split.
  - rewrite <- sd_write_spec. by destruct d.
  - rewrite lookup_view. destruct d as [data|base changes]; simpl; [done|].
    by destruct (changes !! k) as [[|]|].
Qed.

Lemma sd_remove_spec d k :
  view (sd_remove d k).1 = delete k (view d) /\ (sd_remove d k).2 = view d !! k.
Proof.
  rewrite lookup_view. destruct d as [data|base changes]; [done|].
  cbn [sd_remove sd_get].
  destruct (match changes !! k with Some p => p | None => base !! k end) as [e|] eqn:E.
  - split; [|destruct (changes !! k) as [[|]|]; by simplify_eq/=].
    apply map_eq. intros i. rewrite lookup_view. cbn [sd_get fst].
    destruct (decide (i = k)) as [->|Hne].
    + by rewrite lookup_insert_eq, lookup_delete_eq.
    + rewrite lookup_insert_ne, lookup_delete_ne by done. by rewrite lookup_view.
  - split; [|destruct (changes !! k) as [[|]|]; by simplify_eq/=].
    cbn [fst]. rewrite delete_id; [done|]. rewrite lookup_view. simpl.
    destruct (changes !! k) as [[|]|]; by simplify_eq/=.
Qed.

Lemma sd_begin_snapshot_spec d d' base :
  sd_begin_snapshot d = Some (d', base) -> view d' = view d /\ base = view d.
Proof.
  destruct d as [data|]; simpl; [|done]. intros [= <- <-]. split; [|done].
  apply map_eq. intros i. rewrite lookup_view. simpl. by rewrite lookup_empty.
Qed.

Lemma fold_apply_change l base k :
  NoDup l.*1 ->
  fold_left apply_change l base !! k =
  match (list_to_map l : gmap bytes (option DataEntry)) !! k with
  | Some c => c
  | None => base !! k
  end.
Proof.
  revert base. induction l as [|[k' c] l IH]; intros base Hnd; simpl.
  - by rewrite lookup_empty.
  - apply list.NoDup_cons in Hnd as [Hnin Hnd]. rewrite IH by done. clear IH.
    destruct (decide (k = k')) as [->|Hne].
    + rewrite lookup_insert_eq.
      rewrite (not_elem_of_list_to_map_1 l k') by done.
      unfold apply_change. simpl. destruct c; by simplify_map_eq.
    + rewrite lookup_insert_ne by done.
      destruct ((list_to_map l : gmap bytes (option DataEntry)) !! k); [done|].
      unfold apply_change. simpl. destruct c; by simplify_map_eq.
Qed.

Lemma hm_iter_NoDup {A} (m : gmap bytes A) : NoDup (hm_iter m).*1.
Proof. rewrite hm_iter_perm. apply NoDup_fst_map_to_list. Qed.

Lemma list_to_map_hm_iter {A} (m : gmap bytes A) : list_to_map (hm_iter m) = m.
Proof.
  rewrite <- (list_to_map_to_list m) at 2. apply list_to_map_proper; [apply hm_iter_NoDup|].
  apply hm_iter_perm.
Qed.

Lemma sd_finish_snapshot_spec d : view (sd_finish_snapshot d).1 = view d.
Proof.
  destruct d as [data|base changes]; [done|]. apply map_eq. intros k.
  rewrite (lookup_view (Snapshot base changes)). simpl.
  rewrite fold_apply_change by apply hm_iter_NoDup. rewrite list_to_map_hm_iter.
  by destruct (changes !! k) as [[|]|].
Qed.

Lemma elem_of_visit d k e : (k, e) ∈ sd_visit d <-> view d !! k = Some e.
Proof.
  rewrite lookup_view. destruct d as [data|base changes]; simpl.
  - rewrite hm_iter_perm. apply elem_of_map_to_list.
  - rewrite elem_of_app, list_elem_of_omap, list_elem_of_filter. simpl.
    setoid_rewrite hm_iter_perm. rewrite elem_of_map_to_list. split.
    + intros [([k' c] & Hin & Hc)|[Hn Hb]].
      * apply elem_of_map_to_list in Hin. destruct c; simplify_eq/=. by rewrite Hin.
      * by rewrite Hn.
    + destruct (changes !! k) as [[e'|]|] eqn:E; intros H; simplify_eq.
      * left. exists (k, Some e). split; [by apply elem_of_map_to_list|done].
      * right. done.
Qed.

Lemma NoDup_fst_omap {A B} (f : bytes * A -> option (bytes * B)) (l : list (bytes * A)) :
  (forall x y, f x = Some y -> y.1 = x.1) -> NoDup l.*1 -> NoDup (omap f l).*1.
Proof.
  intros Hf. induction l as [|x l IH]; intros Hnd; [done|]. simpl.
  apply list.NoDup_cons in Hnd as [Hnin Hnd].
  destruct (f x) as [y|] eqn:E; [|by apply IH]. simpl. constructor; [|by apply IH].
  intros Hin. apply Hnin. apply Hf in E. rewrite E in Hin.
  apply list_elem_of_fmap in Hin as (z & Hz & Hin).
  apply list_elem_of_omap in Hin as (w & Hw & Hfw). apply Hf in Hfw.
  apply list_elem_of_fmap. exists w. split; [congruence|done].
Qed.

Lemma visit_NoDup d : NoDup (sd_visit d).*1.
Proof.
  destruct d as [data|base changes]; simpl; [apply hm_iter_NoDup|].
  rewrite fmap_app. apply list.NoDup_app. split; [|split].
  - apply NoDup_fst_omap; [|apply hm_iter_NoDup].
    intros [k [c|]] y; simpl; naive_solver.
  - intros k Hin1 Hin2. apply list_elem_of_fmap in Hin1 as ([k1 e1] & -> & Hin1).
    apply list_elem_of_omap in Hin1 as ([k2 c2] & Hin1 & Hc).
    apply list_elem_of_fmap in Hin2 as ([k3 e3] & Heq & Hin2).
    apply list_elem_of_filter in Hin2 as [Hn _].
    rewrite hm_iter_perm, elem_of_map_to_list in Hin1. destruct c2; simplify_eq/=.
  - apply (sublist_NoDup _ (hm_iter base).*1); [apply hm_iter_NoDup|].
    apply fmap_sublist, sublist_filter.
Qed.

(** [visit] enumerates the logical contents, each entry once. *)
Lemma visit_perm d : sd_visit d ≡ₚ map_to_list (view d).
Proof.
  apply list.NoDup_Permutation.
  - eapply NoDup_fmap_1, visit_NoDup.
  - apply NoDup_map_to_list.
  - intros [k e]. by rewrite elem_of_visit, elem_of_map_to_list.
Qed.

End Data.

(** ** Shards *)

Record Shard {JN : JsonNumber} : Type := mkShard {
  data : ShardData;
  op_count : Z;
  last_modified : Z;
  mem_bytes : Z;
  key_count : Z;
  (** The engine-wide counter all shards share; a locked shard sees its
      current value. *)
  total_keys : Z
}.

Inductive EvictionPolicy : Type :=
| NoEviction
| AllKeysLru
| VolatileLru
| AllKeysRandom
| VolatileRandom.

#[global] Instance EvictionPolicy_eq_dec : EqDecision EvictionPolicy.
Proof. solve_decision. Defined.

Definition EvictionPolicy_parse (s : bytes) : option EvictionPolicy :=
  let w := to_ascii_lowercase s in
  if bytes_eqb w (bs "noeviction") then Some NoEviction
  else if bytes_eqb w (bs "allkeys-lru") then Some AllKeysLru
  else if bytes_eqb w (bs "volatile-lru") then Some VolatileLru
  else if bytes_eqb w (bs "allkeys-random") then Some AllKeysRandom
  else if bytes_eqb w (bs "volatile-random") then Some VolatileRandom
  else None.

(** [nanos] is the sub-second part of the system time. *)
Definition cheap_random_index (nanos : Z) (n : Z) : Z :=
  if n =? 0 then 0 else wrap64 (nanos * 2654435761) mod n.

Section ShardOps.
Context {JN : JsonNumber} {SJ : SerdeJson} {HO : HashOrder}.

Definition shard_new (total : Z) : Shard :=
  mkShard JN (Flat ∅) 0 0 0 0 total.

#[global] Instance shard_inhabited : Inhabited Shard := populate (shard_new 0).

Definition with_data (s : Shard) (d : ShardData) : Shard :=
  mkShard JN d (op_count s) (last_modified s) (mem_bytes s) (key_count s) (total_keys s).
Definition with_mem (s : Shard) (m : Z) : Shard :=
  mkShard JN (data s) (op_count s) (last_modified s) m (key_count s) (total_keys s).
Definition with_count (s : Shard) (c : Z) : Shard :=
  mkShard JN (data s) (op_count s) (last_modified s) (mem_bytes s) c (total_keys s).
Definition with_total (s : Shard) (t : Z) : Shard :=
  mkShard JN (data s) (op_count s) (last_modified s) (mem_bytes s) (key_count s) t.

(** [self.op_count += 1; self.last_modified = ts]. *)
Definition bump (s : Shard) (ts : Z) : Shard :=
  mkShard JN (data s) (wrap64 (op_count s + 1)) ts (mem_bytes s) (key_count s) (total_keys s).

(** [fetch_update(checked_sub(1))]: an underflow leaves the counter alone. *)
Definition record_key_removal (s : Shard) : Shard :=
  match checked_sub (total_keys s) 1 with
  | Some t => with_total s t
  | None => s
  end.

(** [total_keys.fetch_add(1)]. *)
Definition record_key_insertion (s : Shard) : Shard :=
  with_total s (wrap64 (total_keys s + 1)).

(** The accounting of one removed entry. *)
Definition account_removal (s : Shard) (key : bytes) (entry : DataEntry) : Shard :=
  let s := with_mem s (sat_sub (mem_bytes s) (approx_entry_size key entry)) in
  let s := with_count s (sat_sub (key_count s) 1) in
  record_key_removal s.

Definition purge_if_expired (s : Shard) (key : bytes) (timestamp : Z) : Shard * bool :=
  let expired :=
    match sd_get (data s) key with
    | Some entry => expired_by timestamp entry
    | None => false
    end in
  if negb expired then (s, false)
  else
    let '(d, removed) := sd_remove (data s) key in
    let s := with_data s d in
    match removed with
    | Some entry => (account_removal s key entry, true)
    | None => (s, true)
    end.

Definition shard_get (clk : clock) (s : Shard) (key : bytes) : Shard * option DataEntry :=
  let ts := clk 0%nat in
  let '(s, _) := purge_if_expired s key ts in
  let '(d, found) := sd_get_mut (data s) key in
  match found with
  | None => (with_data s d, None)
  | Some entry =>
    let entry := set_accessed_field entry ts in
    (with_data s (sd_write d key entry), Some entry)
  end.

Definition shard_insert (clk : clock) (s : Shard) (key : bytes) (entry : DataEntry)
  : Shard * option DataEntry :=
  let s := bump s (clk 0%nat) in
  let new_size := approx_entry_size key entry in
  let '(d, old) := sd_insert (data s) key entry in
  let s := with_data s d in
  let s :=
    match old with
    | None => record_key_insertion (with_count s (sat_add (key_count s) 1))
    | Some old_entry => with_mem s (sat_sub (mem_bytes s) (approx_entry_size key old_entry))
    end in
  (with_mem s (sat_add (mem_bytes s) new_size), old).

Definition shard_remove (clk : clock) (s : Shard) (key : bytes) : Shard * option DataEntry :=
  let '(s, purged) := purge_if_expired s key (clk 0%nat) in
  if purged then (s, None)
  else
    let s := bump s (clk 1%nat) in
    let '(d, removed) := sd_remove (data s) key in
    let s := with_data s d in
    match removed with
    | Some e => (account_removal s key e, removed)
    | None => (s, removed)
    end.

Definition expire_one (s : Shard) (key : bytes) : Shard :=
  let '(d, removed) := sd_remove (data s) key in
  let s := with_data s d in
  match removed with
  | Some e => account_removal s key e
  | None => s
  end.

Definition expire_keys (clk : clock) (s : Shard) : Shard * Z :=
  let now := clk 0%nat in
  let expired := (filter (fun ke : bytes * DataEntry => expired_by now ke.2 = true)
                    (sd_visit (data s))).*1 in
  (fold_left expire_one expired s, len expired).

Definition shard_len (s : Shard) : Z := key_count s.

Definition shard_read {R} (clk : clock) (s : Shard) (key : bytes) (f : DataEntry -> R)
  : Shard * option R :=
  let '(s, o) := shard_get clk s key in (s, f <$> o).

Definition shard_update_if_exists_with_action {R} (clk : clock) (s : Shard) (key : bytes)
    (f : OnyxValue -> OnyxValue * EntryMutation R) : Shard * option R :=
  let ts := clk 0%nat in
  let '(s, _) := purge_if_expired s key ts in
  let '(d, found) := sd_get_mut (data s) key in
  let s := with_data s d in
  match found with
  | Some entry =>
    let s := bump s ts in
    let old_size := approx_entry_size key entry in
    let entry := set_accessed_field entry ts in
    let '(v, action) := f (value entry) in
    let s := with_data s (sd_write (data s) key (set_value_field entry v)) in
    match action with
    | Delete result =>
      let s := with_data s (sd_remove (data s) key).1 in
      let s := with_mem s (sat_sub (mem_bytes s) old_size) in
      let s := with_count s (sat_sub (key_count s) 1) in
      (record_key_removal s, Some result)
    | Keep result =>
      let new_size :=
        match sd_get (data s) key with
        | Some entry => approx_entry_size key entry
        | None => 0
        end in
      (with_mem s (sat_add (sat_sub (mem_bytes s) old_size) new_size), Some result)
    end
  | None => (s, None)
  end.

Definition shard_update_if_exists {R} (clk : clock) (s : Shard) (key : bytes)
    (f : OnyxValue -> OnyxValue * R) : Shard * option R :=
  shard_update_if_exists_with_action clk s key
    (fun v => let '(v', r) := f v in (v', Keep r)).

Definition shard_update_entry_or_insert_with_presence {R} (clk : clock) (s : Shard) (key : bytes)
    (dflt : OnyxValue) (f : DataEntry -> bool -> DataEntry * R) : Shard * option R :=
  let ts := clk 0%nat in
  let '(s, _) := purge_if_expired s key ts in
  let s := bump s ts in
  let existed := match sd_get (data s) key with Some _ => true | None => false end in
  let s :=
    if existed then s
    else
      let s := with_data s (sd_insert (data s) key (mkEntry JN dflt None ts ts)).1 in
      record_key_insertion (with_count s (sat_add (key_count s) 1)) in
  let '(d, found) := sd_get_mut (data s) key in
  let s := with_data s d in
  match found with
  | None => (s, None) (* the [expect], which cannot fail *)
  | Some entry =>
    let old_size := if existed then approx_entry_size key entry else 0 in
    let entry := set_accessed_field entry ts in
    let '(entry, result) := f entry existed in
    let s := with_data s (sd_write (data s) key entry) in
    let new_size := approx_entry_size key entry in
    (with_mem s (sat_add (sat_sub (mem_bytes s) old_size) new_size), Some result)
  end.

Definition shard_update_or_insert_with_presence {R} (clk : clock) (s : Shard) (key : bytes)
    (dflt : OnyxValue) (f : OnyxValue -> bool -> OnyxValue * R) : Shard * option R :=
  shard_update_entry_or_insert_with_presence clk s key dflt
    (fun entry existed =>
       let '(v, r) := f (value entry) existed in (set_value_field entry v, r)).

Definition shard_update_or_insert {R} (clk : clock) (s : Shard) (key : bytes)
    (dflt : OnyxValue) (f : OnyxValue -> OnyxValue * R) : Shard * option R :=
  shard_update_or_insert_with_presence clk s key dflt (fun v _ => f v).

Definition shard_set_expiry_conditional (clk : clock) (s : Shard) (key : bytes)
    (timestamp : Z) (require_expiry : option bool) : Shard * bool :=
  let current := clk 0%nat in
  let '(s, purged) := purge_if_expired s key current in
  if purged then (s, false)
  else
    match sd_get (data s) key with
    | None => (s, false)
    | Some entry =>
      let has_expiry := match expires_at entry with Some _ => true | None => false end in
      if match require_expiry with Some required => negb (Bool.eqb required has_expiry)
         | None => false end
      then (s, false)
      else if timestamp <=? current then
        let '(s, removed) := shard_remove (tick 1 clk) s key in
        (s, match removed with Some _ => true | None => false end)
      else
        let '(d, found) := sd_get_mut (data s) key in
        let s := with_data s d in
        match found with
        | Some entry =>
          let s := with_data s (sd_write (data s) key (set_expires_field entry (Some timestamp))) in
          (bump s (clk 1%nat), true)
        | None => (s, false)
        end
    end.

Definition shard_set_expiry (clk : clock) (s : Shard) (key : bytes) (timestamp : Z)
  : Shard * bool :=
  shard_set_expiry_conditional clk s key timestamp None.

Definition shard_insert_if_absent (clk : clock) (s : Shard) (key : bytes) (entry : DataEntry)
  : Shard * bool :=
  let '(s, _) := purge_if_expired s key (clk 0%nat) in
  match sd_get (data s) key with
  | Some _ => (s, false)
  | None =>
    let s := bump s (clk 1%nat) in
    let size := approx_entry_size key entry in
    let s := with_data s (sd_insert (data s) key entry).1 in
    let s := with_mem s (sat_add (mem_bytes s) size) in
    let s := with_count s (sat_add (key_count s) 1) in
    (record_key_insertion s, true)
  end.

(** The entries a policy may evict. *)
Definition eligible (policy : EvictionPolicy) (protected : gset bytes)
    (ke : bytes * DataEntry) : bool :=
  let only_volatile :=
    match policy with VolatileLru | VolatileRandom => true | _ => false end in
  negb (bool_decide (ke.1 ∈ protected)) &&
  (negb only_volatile || match expires_at ke.2 with Some _ => true | None => false end).

Definition eviction_candidate (nanos : Z) (s : Shard) (policy : EvictionPolicy)
    (protected : gset bytes) : option (bytes * Z) :=
  let is_random :=
    match policy with AllKeysRandom | VolatileRandom => true | _ => false end in
  let matching :=
    filter (fun ke : bytes * DataEntry => eligible policy protected ke = true)
      (sd_visit (data s)) in
  if is_random then
    (fun ke : bytes * DataEntry => (ke.1, 0)) <$>
      matching !! Z.to_nat (cheap_random_index nanos (len matching))
  else
    fold_left (fun selected (ke : bytes * DataEntry) =>
      match selected with
      | Some (_, score) =>
        if last_accessed ke.2 <? score then Some (ke.1, last_accessed ke.2) else selected
      | None => Some (ke.1, last_accessed ke.2)
      end) matching None.

End ShardOps.
