(* ===== verification/ShardSpec.v ===== *)
(** * ShardSpec: what the shard operations do to one key

    A [cell] operation maps the entry stored under a key (or its absence) to
    the entry left there and a result.  [shard_refines] says that an operation
    of Shard.v implements a cell operation on its key, leaves every other key
    alone, and keeps the accounting of the shard exact. *)

From Stdlib Require Import ZArith Lia.
From Stdlib Require Import Strings.Byte.
From stdpp Require Import base gmap list strings numbers.
From S2P Require Import Prelude Text Json Value Shard.

Open Scope Z_scope.

(** ** Cell operations *)

Section Cells.
Context {JN : JsonNumber}.

Definition cell (R : Type) : Type := option DataEntry -> option DataEntry * R.

(** What is left of a cell once its expiration has been enforced. *)
Definition c_live (now : Z) (o : option DataEntry) : option DataEntry :=
  match o with
  | Some e => if expired_by now e then None else Some e
  | None => None
  end.

Definition c_expired (now : Z) (o : option DataEntry) : bool :=
  match o with Some e => expired_by now e | None => false end.

Definition c_get (clk : clock) : cell (option DataEntry) := fun o =>
  let o' := (fun e => set_accessed_field e (clk 0%nat)) <$> c_live (clk 0%nat) o in (o', o').

Definition c_insert (entry : DataEntry) : cell (option DataEntry) := fun o => (Some entry, o).

Definition c_remove (clk : clock) : cell (option DataEntry) := fun o =>
  (None, c_live (clk 0%nat) o).

Definition c_read {R} (clk : clock) (f : DataEntry -> R) : cell (option R) := fun o =>
  let '(o', r) := c_get clk o in (o', f <$> r).

Definition c_update_action {R} (clk : clock) (f : OnyxValue -> OnyxValue * EntryMutation R)
  : cell (option R) := fun o =>
  match c_live (clk 0%nat) o with
  | None => (None, None)
  | Some e =>
    let '(v, action) := f (value e) in
    match action with
    | Keep r => (Some (set_value_field (set_accessed_field e (clk 0%nat)) v), Some r)
    | Delete r => (None, Some r)
    end
  end.

Definition c_update {R} (clk : clock) (f : OnyxValue -> OnyxValue * R) : cell (option R) :=
  c_update_action clk (fun v => let '(v', r) := f v in (v', Keep r)).

Definition c_upsert_entry {R} (clk : clock) (dflt : OnyxValue)
    (f : DataEntry -> bool -> DataEntry * R) : cell (option R) := fun o =>
  let ts := clk 0%nat in
  let '(e, existed) :=
    match c_live ts o with
    | Some e => (e, true)
    | None => (mkEntry JN dflt None ts ts, false)
    end in
  let '(e', r) := f (set_accessed_field e ts) existed in (Some e', Some r).

Definition c_upsert_presence {R} (clk : clock) (dflt : OnyxValue)
    (f : OnyxValue -> bool -> OnyxValue * R) : cell (option R) :=
  c_upsert_entry clk dflt (fun entry existed =>
    let '(v, r) := f (value entry) existed in (set_value_field entry v, r)).

Definition c_upsert {R} (clk : clock) (dflt : OnyxValue) (f : OnyxValue -> OnyxValue * R)
  : cell (option R) :=
  c_upsert_presence clk dflt (fun v _ => f v).

Definition c_set_expiry (clk : clock) (timestamp : Z) (require_expiry : option bool)
  : cell bool := fun o =>
  match c_live (clk 0%nat) o with
  | None => (None, false)
  | Some e =>
    let has_expiry := match expires_at e with Some _ => true | None => false end in
    if match require_expiry with Some required => negb (Bool.eqb required has_expiry)
       | None => false end
    then (Some e, false)
    else if timestamp <=? clk 0%nat then
      (None, match c_live (clk 1%nat) (Some e) with Some _ => true | None => false end)
    else (Some (set_expires_field e (Some timestamp)), true)
  end.

Definition c_insert_if_absent (clk : clock) (entry : DataEntry) : cell bool := fun o =>
  match c_live (clk 0%nat) o with
  | Some e => (Some e, false)
  | None => (Some entry, true)
  end.

End Cells.

(** ** Well-formed shards *)

Section Refinement.
Context {JN : JsonNumber} {SJ : SerdeJson} {HO : HashOrder}.

Definition contents (s : Shard) : gmap bytes DataEntry := view (data s).
Arguments contents : simpl never.

Record shard_wf (s : Shard) : Prop := {
  wf_count : key_count s = Z.of_nat (size (contents s));
  wf_mem : mem_bytes s = footprint (contents s);
  wf_fits : footprint (contents s) <= USIZE_MAX;
  wf_total : key_count s <= total_keys s <= USIZE_MAX
}.

(** Keys held by the other shards, as this shard's counters imply it. *)
Definition foreign_keys (s : Shard) : Z := total_keys s - key_count s.

(** One key's cell went from [o] to [o'] and the counters moved with it. *)
Record cell_step (k : bytes) (o' : option DataEntry) (s s' : Shard) : Prop := {
  cs_contents : contents s' = set_cell k o' (contents s);
  cs_mem : mem_bytes s' = mem_bytes s - cost k (contents s !! k) + cost k o';
  cs_count : key_count s' = key_count s - present (contents s !! k) + present o';
  cs_total : total_keys s' = total_keys s - present (contents s !! k) + present o'
}.

Lemma cell_step_wf k o' s s' :
  shard_wf s -> cell_step k o' s s' ->
  footprint (contents s') <= USIZE_MAX -> total_keys s' <= USIZE_MAX ->
  shard_wf s' /\ foreign_keys s' = foreign_keys s.
Proof.
  intros [Hc Hm Hf Ht] [Sv Sm Sc St] Hfit Htot. unfold foreign_keys.
  split; [|lia]. constructor.
  - rewrite Sv, size_set_cell. lia.
  - rewrite Sv, footprint_set_cell. lia.
  - done.
  - lia.
Qed.

(** An operation on the key [k] implements the cell operation [c]. *)
Definition shard_refines {R} (k : bytes) (f : Shard -> Shard * R) (c : cell R) : Prop :=
  forall s, shard_wf s ->
    footprint (set_cell k (c (contents s !! k)).1 (contents s)) <= USIZE_MAX ->
    total_keys s < USIZE_MAX ->
    (f s).2 = (c (contents s !! k)).2 /\
    contents (f s).1 = set_cell k (c (contents s !! k)).1 (contents s) /\
    shard_wf (f s).1 /\ foreign_keys (f s).1 = foreign_keys s.

Lemma get_contents s k : sd_get (data s) k = contents s !! k.
Proof. unfold contents. by rewrite lookup_view. Qed.

(** Facts about a key's share of the accounting, for [lia]. *)
Lemma wf_facts s k :
  shard_wf s ->
  0 <= cost k (contents s !! k) <= mem_bytes s /\ mem_bytes s <= USIZE_MAX /\
  0 <= present (contents s !! k) <= key_count s /\
  key_count s <= total_keys s <= USIZE_MAX /\
  64 * key_count s <= mem_bytes s.
Proof.
  intros [Hc Hm Hf Ht]. pose proof (cost_le_footprint k (contents s)).
  pose proof (present_le_size k (contents s)). pose proof (footprint_lower (contents s)). lia.
Qed.

Lemma wrap64_small z : 0 <= z <= USIZE_MAX -> wrap64 z = z.
Proof. unfold wrap64, USIZE_MAX. intros. apply Z.mod_small. lia. Qed.

(** Removing the entry under [k] with its accounting. *)
Lemma removal_step s s0 k e :
  shard_wf s -> contents s !! k = Some e ->
  contents s0 = delete k (contents s) -> mem_bytes s0 = mem_bytes s ->
  key_count s0 = key_count s -> total_keys s0 = total_keys s ->
  cell_step k None s (account_removal s0 k e).
Proof.
  intros Hw Hk Hv Hm Hc Ht. pose proof (wf_facts s k Hw) as Hx. rewrite Hk in Hx. simpl in Hx.
  unfold account_removal, record_key_removal, checked_sub. simpl.
  destruct (1 <=? total_keys s0) eqn:E; prop_tests; [|lia].
  constructor; rewrite ?Hk; simpl; try done; unfold sat_sub; lia.
Qed.

(** Enforcing a key's expiration is always within bounds. *)
Lemma purge_spec s k ts :
  shard_wf s ->
  (purge_if_expired s k ts).2 = c_expired ts (contents s !! k) /\
  contents (purge_if_expired s k ts).1 =
    set_cell k (c_live ts (contents s !! k)) (contents s) /\
  shard_wf (purge_if_expired s k ts).1 /\
  foreign_keys (purge_if_expired s k ts).1 = foreign_keys s /\
  total_keys (purge_if_expired s k ts).1 <= total_keys s.
Proof.
  intros Hw. unfold purge_if_expired. rewrite get_contents.
  change (match contents s !! k with Some entry => expired_by ts entry | None => false end)
    with (c_expired ts (contents s !! k)).
  destruct (c_expired ts (contents s !! k)) eqn:E; simpl.
  - destruct (contents s !! k) as [e|] eqn:Hk; [|done]. simpl in E.
    destruct (sd_remove (data s) k) as [d removed] eqn:Er.
    pose proof (sd_remove_spec (data s) k) as [Hv Ho]. rewrite Er in Hv, Ho. simpl in Hv, Ho.
    unfold contents in Hk. rewrite Hk in Ho. subst removed. simpl.
    rewrite E.
    assert (Hs : cell_step k None s (account_removal (with_data s d) k e)).
    { by apply removal_step. }
    pose proof (wf_facts s k Hw) as Hx. fold (contents s) in Hk. rewrite Hk in Hx.
    simpl in Hx. pose proof (cs_total _ _ _ _ Hs) as Hst. rewrite Hk in Hst. simpl in Hst.
    split; [done|]. split; [apply Hs|].
    destruct (cell_step_wf _ _ _ _ Hw Hs) as [Hw' Hf]; [|lia|split; [done|split; [done|lia]]].
    rewrite (cs_contents _ _ _ _ Hs), footprint_set_cell, Hk. simpl.
    destruct Hw as [_ Hm Hfit _]. lia.
  - assert (Hl : c_live ts (contents s !! k) = contents s !! k).
    { destruct (contents s !! k); simpl in *; by rewrite ?E. }
    rewrite Hl, set_cell_id. split; [done|]. split; [done|]. split; [done|]. split; lia.
Qed.

(** Operations that enforce the expiration first: it is enough to implement
    the rest on a cell whose expiration has been enforced. *)
Lemma refines_after_purge {R} k ts (f : Shard -> Shard * R) (c : cell R) :
  (forall s0 s o b, purge_if_expired s0 k ts = (s, b) -> shard_wf s ->
    b = c_expired ts o -> contents s !! k = c_live ts o -> contents s0 !! k = o ->
    footprint (set_cell k (c o).1 (contents s)) <= USIZE_MAX -> total_keys s < USIZE_MAX ->
    (f s0).2 = (c o).2 /\ cell_step k (c o).1 s (f s0).1) ->
  shard_refines k f c.
Proof.
  intros Hg s Hw Hfit Htot.
  destruct (purge_spec s k ts Hw) as (Hb & Hv & Hw1 & Hfk & Ht1).
  destruct (purge_if_expired s k ts) as [s1 b] eqn:Hp. cbn [fst snd] in *.
  assert (Hk1 : contents s1 !! k = c_live ts (contents s !! k)).
  { rewrite Hv. apply lookup_set_cell_eq. }
  assert (Hsc : set_cell k (c (contents s !! k)).1 (contents s1) =
                set_cell k (c (contents s !! k)).1 (contents s)).
  { rewrite Hv. apply set_cell_set_cell. }
  destruct (Hg s s1 (contents s !! k) b Hp Hw1 Hb Hk1 eq_refl) as [Hr Hs]; [by rewrite Hsc|lia|].
  split; [done|]. rewrite <- Hsc. split; [apply Hs|].
  pose proof (cell_step_wf _ _ _ _ Hw1 Hs) as Hwf.
  rewrite (cs_contents _ _ _ _ Hs), Hsc in Hwf.
  rewrite <- Hfk. apply Hwf; [done|].
  rewrite (cs_total _ _ _ _ Hs).
  pose proof (wf_facts s1 k Hw1).
  destruct (contents s1 !! k), (c (contents s !! k)).1; simpl in *; lia.
Qed.

(** ** Each operation implements its cell operation *)

Lemma shard_get_refines clk k : shard_refines k (fun s => shard_get clk s k) (c_get clk).
Proof.
  apply (refines_after_purge k (clk 0%nat)).
  intros s0 s o b Hp Hw -> Hk _ _ _. unfold c_get, shard_get. rewrite Hp.
  destruct (sd_get_mut_spec (data s) k) as [Hv Ho].
  destruct (sd_get_mut (data s) k) as [d found]. simpl in Hv, Ho.
  fold (contents s) in Hv, Ho. rewrite Hk in Ho. subst found.
  destruct (c_live (clk 0%nat) o) as [e|]; simpl; (split; [done|]); constructor;
    rewrite ?Hk; simpl; try done; try lia.
  - unfold contents at 1. simpl. by rewrite sd_write_spec, Hv.
  - change (approx_entry_size k (set_accessed_field e (clk 0%nat)))
      with (approx_entry_size k e). lia.
  - unfold contents at 1. simpl. rewrite Hv. by rewrite delete_id.
Qed.

Lemma shard_insert_refines clk k e :
  shard_refines k (fun s => shard_insert clk s k e) (c_insert e).
Proof.
  intros s Hw Hfit Htot. simpl in Hfit. unfold shard_insert.
  destruct (sd_insert_spec (data s) k e) as [Hv Ho].
  change (data (bump s (clk 0%nat))) with (data s).
  destruct (sd_insert (data s) k e) as [d old]. simpl in Hv, Ho.
  fold (contents s) in Hv, Ho. subst old. cbn [fst snd c_insert].
  pose proof (wf_facts s k Hw) as Hx.
  pose proof (footprint_set_cell k (Some e) (contents s)) as Hfp. simpl in Hfp.
  pose proof (wf_mem s Hw) as Hmem.
  split; [done|].
  match goal with |- contents ?x = _ /\ _ => assert (Hs : cell_step k (Some e) s x) end.
  { constructor.
    - unfold contents at 1. destruct (contents s !! k); simpl; exact Hv.
    - destruct (contents s !! k) as [e0|]; simpl in *; unfold sat_add, sat_sub; lia.
    - destruct (contents s !! k) as [e0|]; simpl in *; unfold sat_add, sat_sub; lia.
    - destruct (contents s !! k) as [e0|]; simpl in *; [lia|]. rewrite wrap64_small; lia. }
  split; [apply Hs|]. apply (cell_step_wf k (Some e)); [done|done| |].
  - by rewrite (cs_contents _ _ _ _ Hs).
  - rewrite (cs_total _ _ _ _ Hs). destruct (contents s !! k); simpl in *; lia.
Qed.

Lemma shard_remove_refines clk k :
  shard_refines k (fun s => shard_remove clk s k) (c_remove clk).
Proof.
  apply (refines_after_purge k (clk 0%nat)).
  intros s0 s o b Hp Hw -> Hk _ _ _. unfold c_remove, shard_remove. rewrite Hp. cbn [fst snd].
  destruct (c_expired (clk 0%nat) o) eqn:Hexp.
  - assert (Hl : c_live (clk 0%nat) o = None).
    { destruct o; simpl in *; by rewrite ?Hexp. }
    rewrite Hl in Hk. split; [by rewrite Hl|]. constructor; rewrite ?Hk; simpl; try lia.
    by rewrite delete_id.
  - change (data (bump s (clk 1%nat))) with (data s).
    destruct (sd_remove_spec (data s) k) as [Hv Ho].
    destruct (sd_remove (data s) k) as [d removed]. simpl in Hv, Ho.
    fold (contents s) in Hv, Ho. rewrite Hk in Ho. subst removed.
    destruct (c_live (clk 0%nat) o) as [e|]; (split; [done|]).
    + by apply removal_step.
    + constructor; rewrite ?Hk; simpl; try lia. exact Hv.
Qed.

Lemma shard_read_refines {R} clk k (f : DataEntry -> R) :
  shard_refines k (fun s => shard_read clk s k f) (c_read clk f).
Proof.
  intros s Hw Hfit Htot. unfold c_read in *. destruct (shard_get_refines clk k s Hw) as (Hr & Hrest).
  - unfold c_get in *. exact Hfit.
  - done.
  - unfold shard_read. destruct (shard_get clk s k) as [s' r].
    destruct (c_get clk (contents s !! k)) as [o' r'] eqn:E. simpl in *. subst. done.
Qed.

Lemma shard_update_action_refines {R} clk k (f : OnyxValue -> OnyxValue * EntryMutation R) :
  shard_refines k (fun s => shard_update_if_exists_with_action clk s k f) (c_update_action clk f).
Proof.
  apply (refines_after_purge k (clk 0%nat)).
  intros s0 s o b Hp Hw -> Hk _ Hfit _. unfold c_update_action, shard_update_if_exists_with_action in *. rewrite Hp.
  destruct (sd_get_mut_spec (data s) k) as [Hv Ho].
  destruct (sd_get_mut (data s) k) as [d found]. simpl in Hv, Ho.
  fold (contents s) in Hv, Ho. rewrite Hk in Ho. subst found.
  pose proof (wf_facts s k Hw) as Hx. pose proof (wf_mem s Hw) as Hmem.
  destruct (c_live (clk 0%nat) o) as [e|].
  - change (value (set_accessed_field e (clk 0%nat))) with (value e).
    set (e1 := set_accessed_field e (clk 0%nat)) in *.
    destruct (f (value e)) as [v [r|r]].
    + split; [done|].
      pose proof (footprint_set_cell k (Some (set_value_field e1 v)) (contents s)) as Hfp.
      cbn [fst] in Hfit. rewrite Hk in *. simpl in Hfp, Hfit, Hx.
      constructor; rewrite ?Hk; simpl; try lia.
      * unfold contents at 1. simpl. by rewrite sd_write_spec, Hv.
      * rewrite <- lookup_view, sd_write_spec, lookup_insert_eq.
        unfold sat_add, sat_sub. lia.
    + split; [done|]. rewrite Hk in *. simpl in Hx.
      unfold record_key_removal, checked_sub. simpl.
      destruct (1 <=? total_keys s) eqn:E; prop_tests; [|lia].
      constructor; rewrite ?Hk; simpl; unfold sat_sub; try lia.
      unfold contents at 1. simpl. destruct (sd_remove_spec (sd_write d k (set_value_field e1 v)) k)
        as [-> _]. rewrite sd_write_spec, Hv. by rewrite delete_insert_eq.
  - split; [done|]. constructor; rewrite ?Hk; simpl; try lia.
    unfold contents at 1. simpl. rewrite Hv. by rewrite delete_id.
Qed.

Lemma shard_update_refines {R} clk k (f : OnyxValue -> OnyxValue * R) :
  shard_refines k (fun s => shard_update_if_exists clk s k f) (c_update clk f).
Proof. apply shard_update_action_refines. Qed.

Lemma shard_upsert_entry_refines {R} clk k dflt (f : DataEntry -> bool -> DataEntry * R) :
  shard_refines k (fun s => shard_update_entry_or_insert_with_presence clk s k dflt f)
    (c_upsert_entry clk dflt f).
Proof.
  apply (refines_after_purge k (clk 0%nat)).
  intros s0 s o b Hp Hw -> Hk _ Hfit Htot. unfold c_upsert_entry, shard_update_entry_or_insert_with_presence in *. rewrite Hp.
  pose proof (wf_facts s k Hw) as Hx. pose proof (wf_mem s Hw) as Hmem.
  change (data (bump s (clk 0%nat))) with (data s). rewrite get_contents, Hk.
  destruct (c_live (clk 0%nat) o) as [e|].
  - change (data (bump s (clk 0%nat))) with (data s).
    destruct (sd_get_mut_spec (data s) k) as [Hv Ho].
    destruct (sd_get_mut (data s) k) as [d found]. simpl in Hv, Ho.
    fold (contents s) in Hv, Ho. rewrite Hk in Ho. subst found.
    destruct (f (set_accessed_field e (clk 0%nat)) true) as [e' r]. split; [done|].
    pose proof (footprint_set_cell k (Some e') (contents s)) as Hfp.
    cbn [fst] in Hfit. rewrite Hk in *. simpl in Hfp, Hfit, Hx.
    constructor; rewrite ?Hk; simpl; try lia.
    + unfold contents at 1. simpl. by rewrite sd_write_spec, Hv.
    + unfold sat_add, sat_sub. lia.
  - set (e0 := mkEntry JN dflt None (clk 0%nat) (clk 0%nat)) in *.
    destruct (sd_insert_spec (data s) k e0) as [Hvi _].
    set (d0 := (sd_insert (data s) k e0).1) in *. simpl.
    destruct (sd_get_mut_spec d0 k) as [Hv Ho].
    destruct (sd_get_mut d0 k) as [d found]. simpl in Hv, Ho. rewrite Hvi in Hv, Ho.
    rewrite lookup_insert_eq in Ho. subst found.
    destruct (f (set_accessed_field e0 (clk 0%nat)) false) as [e' r]. split; [done|].
    pose proof (footprint_set_cell k (Some e') (contents s)) as Hfp.
    cbn [fst] in Hfit. rewrite Hk in *. simpl in Hfp, Hfit, Hx.
    constructor; rewrite ?Hk; simpl.
    + unfold contents at 1. simpl. rewrite sd_write_spec, Hv.
      fold (contents s). by rewrite insert_insert_eq.
    + unfold sat_add, sat_sub. lia.
    + unfold sat_add. lia.
    + rewrite wrap64_small; lia.
Qed.

Lemma shard_upsert_presence_refines {R} clk k dflt (f : OnyxValue -> bool -> OnyxValue * R) :
  shard_refines k (fun s => shard_update_or_insert_with_presence clk s k dflt f)
    (c_upsert_presence clk dflt f).
Proof. apply shard_upsert_entry_refines. Qed.

Lemma shard_upsert_refines {R} clk k dflt (f : OnyxValue -> OnyxValue * R) :
  shard_refines k (fun s => shard_update_or_insert clk s k dflt f) (c_upsert clk dflt f).
Proof. apply shard_upsert_entry_refines. Qed.

Lemma shard_insert_if_absent_refines clk k e :
  shard_refines k (fun s => shard_insert_if_absent clk s k e) (c_insert_if_absent clk e).
Proof.
  apply (refines_after_purge k (clk 0%nat)).
  intros s0 s o b Hp Hw -> Hk _ Hfit Htot. unfold c_insert_if_absent, shard_insert_if_absent in *. rewrite Hp.
  rewrite get_contents, Hk. pose proof (wf_facts s k Hw) as Hx. pose proof (wf_mem s Hw) as Hmem.
  destruct (c_live (clk 0%nat) o) as [e0|]; (split; [done|]).
  - constructor; rewrite ?Hk; simpl; try lia. by rewrite insert_id.
  - pose proof (footprint_set_cell k (Some e) (contents s)) as Hfp.
    cbn [fst] in Hfit. rewrite Hk in *. simpl in Hfp, Hfit, Hx.
    constructor; rewrite ?Hk; simpl.
    + unfold contents at 1. simpl. by destruct (sd_insert_spec (data s) k e) as [-> _].
    + unfold sat_add. lia.
    + unfold sat_add. lia.
    + rewrite wrap64_small; lia.
Qed.

Lemma shard_set_expiry_refines clk k t req :
  shard_refines k (fun s => shard_set_expiry_conditional clk s k t req) (c_set_expiry clk t req).
Proof.
  intros s Hw Hfit Htot. unfold shard_set_expiry_conditional, c_set_expiry in *.
  destruct (purge_spec s k (clk 0%nat) Hw) as (Hb & Hv & Hw1 & Hfk & Ht1).
  destruct (purge_if_expired s k (clk 0%nat)) as [s1 b]. cbn [fst snd] in *.
  assert (Hk1 : contents s1 !! k = c_live (clk 0%nat) (contents s !! k)).
  { rewrite Hv. apply lookup_set_cell_eq. }
  rewrite get_contents, Hk1. destruct b.
  { assert (Hl : c_live (clk 0%nat) (contents s !! k) = None).
    { destruct (contents s !! k); simpl in *; by rewrite <- ?Hb. }
    rewrite Hl in *. cbn [fst snd]. done. }
  destruct (c_live (clk 0%nat) (contents s !! k)) as [e|] eqn:Hl; [|cbn [fst snd]; done].
  rewrite <- (set_cell_set_cell k (Some e)), <- Hv in Hfit.
  rewrite <- (set_cell_set_cell k (Some e)), <- Hv.
  destruct (match req with Some required => _ | None => false end).
  { cbn [fst snd] in *. rewrite <- Hk1, set_cell_id. done. }
  destruct (t <=? clk 0%nat).
  - destruct (shard_remove_refines (tick 1 clk) k s1 Hw1) as (Hr & Hc & Hw2 & Hf2).
    { unfold c_remove. simpl. pose proof (wf_fits s1 Hw1).
      pose proof (footprint_delete k (contents s1)).
      pose proof (cost_le_footprint k (contents s1)). lia. }
    { lia. }
    unfold c_remove in *. rewrite Hk1 in Hr. cbn [fst snd] in *.
    destruct (shard_remove (tick 1 clk) s1 k) as [s2 rm]. cbn [fst snd] in *. subst rm.
    split; [done|]. split; [done|]. split; [done|]. lia.
  - destruct (sd_get_mut_spec (data s1) k) as [Hv1 Ho1].
    destruct (sd_get_mut (data s1) k) as [d found]. cbn [fst snd] in Hv1, Ho1.
    fold (contents s1) in Hv1, Ho1. rewrite Hk1 in Ho1. subst found.
    cbn [fst snd] in *. split; [done|].
    match goal with |- contents ?x = _ /\ _ =>
      assert (Hs : cell_step k (Some (set_expires_field e (Some t))) s1 x) end.
    { constructor; rewrite ?Hk1; simpl; try lia.
      - unfold contents at 1. simpl. by rewrite sd_write_spec, Hv1.
      - change (approx_entry_size k (set_expires_field e (Some t))) with (approx_entry_size k e).
        lia. }
    split; [apply Hs|]. rewrite <- Hfk. apply (cell_step_wf _ _ _ _ Hw1 Hs).
    + by rewrite (cs_contents _ _ _ _ Hs).
    + rewrite (cs_total _ _ _ _ Hs), Hk1. simpl. lia.
Qed.

(** ** Sweeping expired keys *)

Lemma expire_one_step s k :
  shard_wf s ->
  contents (expire_one s k) = delete k (contents s) /\
  shard_wf (expire_one s k) /\ foreign_keys (expire_one s k) = foreign_keys s.
Proof.
  intros Hw. unfold expire_one. destruct (sd_remove_spec (data s) k) as [Hv Ho].
  destruct (sd_remove (data s) k) as [d removed]. cbn [fst snd] in Hv, Ho.
  fold (contents s) in Hv, Ho. subst removed.
  destruct (contents s !! k) as [e|] eqn:Hk.
  - assert (Hs : cell_step k None s (account_removal (with_data s d) k e)) by (by apply removal_step).
    split; [apply Hs|]. pose proof (wf_facts s k Hw) as Hx. rewrite Hk in Hx. simpl in Hx.
    apply (cell_step_wf _ _ _ _ Hw Hs).
    + rewrite (cs_contents _ _ _ _ Hs), footprint_set_cell, Hk. simpl.
      pose proof (wf_mem s Hw). lia.
    + rewrite (cs_total _ _ _ _ Hs), Hk. simpl. lia.
  - assert (Hc : contents (with_data s d) = contents s).
    { unfold contents at 1. simpl. rewrite Hv. by rewrite delete_id. }
    split; [by rewrite Hc, delete_id|]. split; [|done].
    destruct Hw. constructor; rewrite ?Hc; done.
Qed.

Lemma expire_fold l s :
  shard_wf s ->
  let s' := fold_left expire_one l s in
  (forall k, contents s' !! k = if decide (k ∈ l) then None else contents s !! k) /\
  shard_wf s' /\ foreign_keys s' = foreign_keys s.
Proof.
  revert s. induction l as [|k0 l IH]; intros s Hw; cbn [fold_left].
  - split; [|done]. intros k. rewrite decide_False by set_solver. done.
  - destruct (expire_one_step s k0 Hw) as (Hc & Hw1 & Hf1).
    destruct (IH _ Hw1) as (Hk & Hw2 & Hf2). split; [|split; [done|lia]].
    intros k. rewrite Hk, Hc. destruct (decide (k ∈ l)) as [Hin|Hnin].
    + rewrite decide_True by set_solver. done.
    + destruct (decide (k = k0)) as [->|Hne].
      * rewrite decide_True by set_solver. by rewrite lookup_delete_eq.
      * rewrite decide_False by set_solver. by rewrite lookup_delete_ne.
Qed.

(** The entries of a map that are still live at [now]. *)
Definition live_map (now : Z) (m : gmap bytes DataEntry) : gmap bytes DataEntry :=
  omap (fun e => c_live now (Some e)) m.

Lemma lookup_live_map now m k : live_map now m !! k = c_live now (m !! k).
Proof. unfold live_map. rewrite lookup_omap. by destruct (m !! k). Qed.

Lemma expire_keys_spec clk s :
  shard_wf s ->
  contents (expire_keys clk s).1 = live_map (clk 0%nat) (contents s) /\
  shard_wf (expire_keys clk s).1 /\
  foreign_keys (expire_keys clk s).1 = foreign_keys s.
Proof.
  intros Hw. unfold expire_keys. cbn [fst].
  match goal with |- context [fold_left expire_one ?l s] =>
    destruct (expire_fold l s Hw) as (Hk & Hw' & Hf') end.
  split; [|done]. apply map_eq. intros k. rewrite Hk, lookup_live_map.
  case_decide as Hin.
  - apply list_elem_of_fmap in Hin as ([k' e] & -> & Hin).
    apply list_elem_of_filter in Hin as [He Hin]. apply elem_of_visit in Hin.
    cbn [fst snd] in *. fold (contents s) in Hin. rewrite Hin. simpl. by rewrite He.
  - destruct (contents s !! k) as [e|] eqn:E; [|done]. simpl.
    destruct (expired_by (clk 0%nat) e) eqn:He; [|done]. exfalso. apply Hin.
    apply list_elem_of_fmap. exists (k, e). split; [done|].
    apply list_elem_of_filter. split; [done|]. by apply elem_of_visit.
Qed.

(** ** Eviction candidates *)

Lemma fold_candidate_mem l acc k t :
  fold_left (fun selected (ke : bytes * DataEntry) =>
      match selected with
      | Some (_, score) =>
        if last_accessed ke.2 <? score then Some (ke.1, last_accessed ke.2) else selected
      | None => Some (ke.1, last_accessed ke.2)
      end) l acc = Some (k, t) ->
  acc = Some (k, t) \/ exists e, (k, e) ∈ l /\ last_accessed e = t.
Proof.
  revert acc. induction l as [|[k0 e0] l IH]; intros acc; cbn [fold_left fst snd]; [auto|].
  intros H. apply IH in H as [H|(e & Hin & He)].
  - destruct acc as [[k1 t1]|].
    + destruct (last_accessed e0 <? t1); simplify_eq.
      * right. exists e0. set_solver.
      * by left.
    + simplify_eq. right. exists e0. set_solver.
  - right. exists e. set_solver.
Qed.

(** A proposed victim is stored in the shard and the policy allows it. *)
Lemma fold_candidate_min l acc k t :
  fold_left (fun selected (ke : bytes * DataEntry) =>
      match selected with
      | Some (_, score) =>
        if last_accessed ke.2 <? score then Some (ke.1, last_accessed ke.2) else selected
      | None => Some (ke.1, last_accessed ke.2)
      end) l acc = Some (k, t) ->
  (forall ke, ke ∈ l -> t <= last_accessed ke.2) /\ (forall p, acc = Some p -> t <= p.2).
Proof.
  revert acc. induction l as [|[k0 e0] l IH]; intros acc; cbn [fold_left fst snd].
  { intros ->. split; [set_solver|]. by intros p [= <-]. }
  intros H. apply IH in H as [Hl Ha].
  destruct acc as [[k1 t1]|]; [destruct (last_accessed e0 <? t1) eqn:E; prop_tests|];
    specialize (Ha _ eq_refl); simpl in Ha;
    (split; [intros ke Hin; apply elem_of_cons in Hin as [->|Hin]; [simpl; lia|by apply Hl]|]);
    intros p Hp; simplify_eq/=; lia.
Qed.

(** Policies that look at the time of the last access. *)
Definition by_access (policy : EvictionPolicy) : bool :=
  match policy with AllKeysRandom | VolatileRandom => false | _ => true end.

Lemma eviction_candidate_sound nanos s policy protected k score :
  eviction_candidate nanos s policy protected = Some (k, score) ->
  exists e, contents s !! k = Some e /\ eligible policy protected (k, e) = true /\
    (by_access policy = true -> last_accessed e = score /\
     forall k' e', contents s !! k' = Some e' -> eligible policy protected (k', e') = true ->
       score <= last_accessed e').
Proof.
  unfold eviction_candidate.
  assert (Hf : forall k e,
    (k, e) ∈ filter (fun ke : bytes * DataEntry => eligible policy protected ke = true)
      (sd_visit (data s)) <-> contents s !! k = Some e /\ eligible policy protected (k, e) = true).
  { intros k' e'. rewrite list_elem_of_filter, elem_of_visit. tauto. }
  replace (match policy with AllKeysRandom | VolatileRandom => true | _ => false end)
    with (negb (by_access policy)) by by destruct policy.
  destruct (by_access policy); simpl; intros H.
  - pose proof (proj1 (fold_candidate_min _ _ _ _ H)) as Hmin.
    apply fold_candidate_mem in H as [H|(e & Hin & <-)]; [done|]. apply Hf in Hin as [Hk He].
    exists e. split; [done|]. split; [done|]. intros _. split; [done|].
    intros k' e' Hk' He'. by apply (Hmin (k', e')), Hf.
  - apply fmap_Some in H as ([k' e'] & Hl & Heq). simplify_eq/=.
    apply list_elem_of_lookup_2, Hf in Hl as [Hk He]. by exists e'.
Qed.

Lemma fold_candidate_none l acc :
  fold_left (fun selected (ke : bytes * DataEntry) =>
      match selected with
      | Some (_, score) =>
        if last_accessed ke.2 <? score then Some (ke.1, last_accessed ke.2) else selected
      | None => Some (ke.1, last_accessed ke.2)
      end) l acc = None -> acc = None /\ l = [].
Proof.
  revert acc. induction l as [|[k0 e0] l IH]; intros acc; cbn [fold_left fst snd]; [done|].
  intros H. apply IH in H as [H _]. destruct acc as [[k1 t1]|]; [|done].
  by destruct (last_accessed e0 <? t1).
Qed.

(** No candidate means that nothing in the shard may be evicted. *)
Lemma eviction_candidate_complete nanos s policy protected k e :
  eviction_candidate nanos s policy protected = None ->
  contents s !! k = Some e -> eligible policy protected (k, e) = false.
Proof.
  unfold eviction_candidate. intros H Hk. apply not_true_is_false. intros He.
  assert (Hin : (k, e) ∈ filter (fun ke : bytes * DataEntry => eligible policy protected ke = true)
      (sd_visit (data s))).
  { apply list_elem_of_filter. split; [done|]. by apply elem_of_visit. }
  destruct (match policy with AllKeysRandom | VolatileRandom => true | _ => false end).
  - apply fmap_None, lookup_ge_None in H. unfold cheap_random_index, len in H.
    set (l := filter _ _) in *. destruct l as [|x l'] eqn:El; [set_solver|].
    destruct (Z.of_nat (length (x :: l')) =? 0) eqn:Hz; prop_tests; [simpl in Hz; lia|].
    pose proof (Z.mod_pos_bound (wrap64 (nanos * 2654435761)) (Z.of_nat (length (x :: l')))
      ltac:(simpl; lia)). lia.
  - apply fold_candidate_none in H as [_ H]. rewrite H in Hin. set_solver.
Qed.

(** ** Snapshot epochs

    The immutable base of the running epoch; [None] outside an epoch.  No
    shard operation touches it. *)
Definition epoch (d : ShardData) : option (gmap bytes DataEntry) :=
  match d with Flat _ => None | Snapshot base _ => Some base end.

Definition keeps_epoch {R} (f : Shard -> Shard * R) : Prop :=
  forall s, epoch (data (f s).1) = epoch (data s).

Lemma epoch_get_mut d k : epoch (sd_get_mut d k).1 = epoch d.
Proof. by destruct d. Qed.

Lemma epoch_write d k e : epoch (sd_write d k e) = epoch d.
Proof. by destruct d. Qed.

Lemma epoch_insert d k e : epoch (sd_insert d k e).1 = epoch d.
Proof. by destruct d. Qed.

Lemma epoch_remove d k : epoch (sd_remove d k).1 = epoch d.
Proof. destruct d; simpl; [done|]. by case_match. Qed.

(** The shared counter is not part of a shard's data. *)
Lemma data_record_key_removal s : data (record_key_removal s) = data s.
Proof. unfold record_key_removal. by case_match. Qed.

Lemma data_account_removal s k e : data (account_removal s k e) = data s.
Proof. unfold account_removal. by rewrite data_record_key_removal. Qed.

Lemma epoch_purge s k ts : epoch (data (purge_if_expired s k ts).1) = epoch (data s).
Proof.
  unfold purge_if_expired. destruct (negb _); [done|].
  pose proof (epoch_remove (data s) k) as H. destruct (sd_remove (data s) k) as [d [e|]];
    simpl in *; by rewrite ?data_account_removal.
Qed.

(** Runs through an operation's branches, keeping the epoch's equation of every
    intermediate piece of data. *)
Ltac solve_epoch :=
  repeat match goal with
  | |- context [purge_if_expired ?s ?k ?t] =>
      pose proof (epoch_purge s k t); destruct (purge_if_expired s k t) as [? ?]
  | |- context [sd_get_mut ?d ?k] =>
      pose proof (epoch_get_mut d k); destruct (sd_get_mut d k) as [? ?]
  | |- context [let '(_, _) := sd_insert ?d ?k ?e in _] =>
      pose proof (epoch_insert d k e); destruct (sd_insert d k e) as [? ?]
  | |- context [let '(_, _) := sd_remove ?d ?k in _] =>
      pose proof (epoch_remove d k); destruct (sd_remove d k) as [? ?]
  | |- context [let '(_, _) := ?x in _] => destruct x as [? ?]
  | |- context [match ?x with _ => _ end] => destruct x eqn:?
  end; simpl in *;
  rewrite ?data_account_removal, ?data_record_key_removal in *; simpl in *;
  rewrite ?epoch_remove, ?epoch_insert, ?epoch_write, ?epoch_get_mut in *; congruence.

Lemma shard_get_epoch clk k : keeps_epoch (fun s => shard_get clk s k).
Proof. intros s. unfold shard_get. solve_epoch. Qed.

Lemma shard_insert_epoch clk k e : keeps_epoch (fun s => shard_insert clk s k e).
Proof. intros s. unfold shard_insert. solve_epoch. Qed.

Lemma shard_remove_epoch clk k : keeps_epoch (fun s => shard_remove clk s k).
Proof. intros s. unfold shard_remove. solve_epoch. Qed.

Lemma shard_read_epoch {R} clk k (f : DataEntry -> R) :
  keeps_epoch (fun s => shard_read clk s k f).
Proof.
  intros s. unfold shard_read. pose proof (shard_get_epoch clk k s) as H. simpl in H.
  by destruct (shard_get clk s k).
Qed.

Lemma shard_update_action_epoch {R} clk k (f : OnyxValue -> OnyxValue * EntryMutation R) :
  keeps_epoch (fun s => shard_update_if_exists_with_action clk s k f).
Proof. intros s. unfold shard_update_if_exists_with_action. solve_epoch. Qed.

Lemma shard_upsert_entry_epoch {R} clk k dflt (f : DataEntry -> bool -> DataEntry * R) :
  keeps_epoch (fun s => shard_update_entry_or_insert_with_presence clk s k dflt f).
Proof. intros s. unfold shard_update_entry_or_insert_with_presence. solve_epoch. Qed.

Lemma shard_insert_if_absent_epoch clk k e :
  keeps_epoch (fun s => shard_insert_if_absent clk s k e).
Proof. intros s. unfold shard_insert_if_absent. solve_epoch. Qed.

Lemma shard_set_expiry_epoch clk k t req :
  keeps_epoch (fun s => shard_set_expiry_conditional clk s k t req).
Proof.
  intros s. unfold shard_set_expiry_conditional.
  pose proof (epoch_purge s k (clk 0%nat)) as H.
  destruct (purge_if_expired s k (clk 0%nat)) as [s1 b]. simpl in H. rewrite <- H.
  destruct b; [done|]. pose proof (shard_remove_epoch (tick 1 clk) k s1) as H1. simpl in H1.
  destruct (shard_remove (tick 1 clk) s1 k) as [s2 rm]. solve_epoch.
Qed.

Lemma expire_keys_epoch clk : keeps_epoch (fun s => expire_keys clk s).
Proof.
  intros s. unfold expire_keys. simpl. generalize ((filter (fun ke : bytes * DataEntry =>
    expired_by (clk 0%nat) ke.2 = true) (sd_visit (data s))).*1). intros l.
  revert s. induction l as [|k l IH]; intros s; simpl; [done|]. rewrite IH.
  unfold expire_one. solve_epoch.
Qed.

End Refinement.
