(* ===== verification/Engine.v ===== *)
(** * Engine: shard routing and cross-shard operations (src/engine.rs)

    The engine owns 64 shards, the counter of physically present keys they
    share, and the flag of the active snapshot epoch.  [with_shard] is one
    critical section: lock a shard, run an operation on it, release it.
    Operations over all shards visit them in index order. *)

From Stdlib Require Import ZArith Lia.
From Stdlib Require Import Strings.Byte.
From stdpp Require Import base gmap list strings numbers.
From S2P Require Import Prelude Text Json Value Shard.

Open Scope Z_scope.

Definition NUM_SHARDS : Z := 64.

Definition hash_key (key : bytes) : Z :=
  let FNV_OFFSET := 14695981039346656037 in
  let FNV_PRIME := 1099511628211 in
  fold_left (fun hash b => wrap64 (Z.lxor hash (byte_Z b) * FNV_PRIME)) key FNV_OFFSET.

Definition shard_for_key (key : bytes) : nat :=
  Z.to_nat (Z.land (hash_key key) (NUM_SHARDS - 1)).

Record OnyxEngine {JN : JsonNumber} : Type := mkEngine {
  shards : list Shard;
  engine_total : Z;
  snapshot_active : bool
}.

(** A released shard of a view is [None]. *)
Record EngineSnapshot {JN : JsonNumber} : Type := mkSnapshot {
  snap_shards : list (option (gmap bytes DataEntry));
  captured_at : Z;
  entry_capacity : Z
}.

Record EngineStats : Type := mkStats {
  stats_total_keys : Z;
  stats_total_ops : Z;
  stats_num_shards : Z
}.

Section EngineOps.
Context {JN : JsonNumber} {SJ : SerdeJson} {HO : HashOrder}.

Definition engine_new : OnyxEngine :=
  mkEngine JN (replicate (Z.to_nat NUM_SHARDS) (shard_new 0)) 0 false.

Definition physical_key_count (e : OnyxEngine) : Z := engine_total e.

(** The shard at an index as its lock holder sees it. *)
Definition lock (e : OnyxEngine) (i : nat) : Shard := with_total (shards e !!! i) (engine_total e).

Definition unlock (e : OnyxEngine) (i : nat) (s : Shard) : OnyxEngine :=
  mkEngine JN (<[i := s]> (shards e)) (total_keys s) (snapshot_active e).

Definition with_shard {R} (e : OnyxEngine) (i : nat) (f : Shard -> Shard * R)
  : OnyxEngine * R :=
  let '(s, r) := f (lock e i) in (unlock e i s, r).

(** Runs [f] on every shard in index order; [f] also gets the index. *)
Definition for_shards {R} (e : OnyxEngine) (f : nat -> Shard -> Shard * R)
  : OnyxEngine * list R :=
  fold_left (fun (acc : OnyxEngine * list R) i =>
    let '(e, rs) := acc in
    let '(e, r) := with_shard e i (f i) in (e, rs ++ [r]))
    (seq 0 (length (shards e))) (e, []).

Definition engine_get (clk : clock) (e : OnyxEngine) (key : bytes) : OnyxEngine * option DataEntry :=
  with_shard e (shard_for_key key) (fun s => shard_get clk s key).

Definition engine_peek (clk : clock) (e : OnyxEngine) (key : bytes) : OnyxEngine * option DataEntry :=
  with_shard e (shard_for_key key) (fun s =>
    let '(s, _) := purge_if_expired s key (clk 0%nat) in (s, sd_get (data s) key)).

(** [begin_snapshot]; [None] is the assertion failure on a nested epoch. *)
Definition engine_begin_snapshot (clk : clock) (e : OnyxEngine)
  : option (OnyxEngine * EngineSnapshot) :=
  if snapshot_active e then None
  else
    captured ← mapM (fun s => sd_begin_snapshot (data s)) (shards e);
    Some
      (mkEngine JN (zip_with (fun s (c : ShardData * gmap bytes DataEntry) => with_data s c.1)
                      (shards e) captured) (engine_total e) true,
       mkSnapshot JN (Some <$> captured.*2) (clk 0%nat) (physical_key_count e)).

(** Finishing one shard of the epoch; [None] is the assertion failure when the
    shard has already been finished. *)
Definition engine_finish_snapshot_shard (e : OnyxEngine) (shard_index : nat) : option OnyxEngine :=
  let s := shards e !!! shard_index in
  let '(d, finished) := sd_finish_snapshot (data s) in
  if finished
  then Some (mkEngine JN (<[shard_index := with_data s d]> (shards e)) (engine_total e)
               (snapshot_active e))
  else None.

Definition engine_finish_snapshot (e : OnyxEngine) : option OnyxEngine :=
  if snapshot_active e then
    Some (mkEngine JN ((fun s => with_data s (sd_finish_snapshot (data s)).1) <$> shards e)
            (engine_total e) false)
  else None.

(** Entries of a view that were live when it was captured. *)
Definition snapshot_live (captured : Z) (m : gmap bytes DataEntry) : list (bytes * DataEntry) :=
  filter (fun ke : bytes * DataEntry =>
            match expires_at ke.2 with Some expiry => captured <? expiry | None => true end = true)
    (hm_iter m).

Definition snapshot_entries (v : EngineSnapshot) : list (bytes * DataEntry) :=
  concat (map (fun o : option (gmap bytes DataEntry) =>
                 match o with Some m => snapshot_live (captured_at v) m | None => [] end)
            (snap_shards v)).

(** [append_shard_entries]; [None] is the [expect] on a released shard. *)
Definition append_shard_entries (v : EngineSnapshot) (shard_index : nat)
    (entries : list (bytes * DataEntry)) : option (list (bytes * DataEntry)) :=
  match snap_shards v !! shard_index with
  | Some (Some m) => Some (entries ++ snapshot_live (captured_at v) m)
  | _ => None
  end.

(** [release_shard]; [None] is the assertion failure on a second release. *)
Definition release_shard (v : EngineSnapshot) (shard_index : nat) : option EngineSnapshot :=
  match snap_shards v !! shard_index with
  | Some (Some _) =>
    Some (mkSnapshot JN (<[shard_index := None]> (snap_shards v)) (captured_at v)
            (entry_capacity v))
  | _ => None
  end.

Definition engine_apply_entry (clk : clock) (e : OnyxEngine) (key : bytes) (entry : DataEntry)
  : OnyxEngine * option DataEntry :=
  with_shard e (shard_for_key key) (fun s =>
    let '(s, _) := purge_if_expired s key (clk 0%nat) in
    if expired_by (clk 1%nat) entry then shard_remove (tick 2 clk) s key
    else shard_insert (tick 2 clk) s key entry).

(** [replace_all]; [None] is the assertion failure during a snapshot epoch.
    Every shard stays locked throughout. *)
Definition engine_replace_all (clk : clock) (e : OnyxEngine) (entries : list (bytes * DataEntry))
  : option OnyxEngine :=
  if snapshot_active e then None
  else
    let cleared :=
      imap (fun i s => bump (mkShard JN (Flat ∅) (op_count s) (last_modified s) 0 0 0) (clk i))
        (shards e) in
    let e := mkEngine JN cleared 0 (snapshot_active e) in
    Some (fold_left (fun e (ke : bytes * DataEntry) =>
            (with_shard e (shard_for_key ke.1) (fun s => shard_insert (tick 64 clk) s ke.1 ke.2)).1)
          entries e).

Definition engine_set (clk : clock) (e : OnyxEngine) (key : bytes) (v : OnyxValue) (expires : option Z)
  : OnyxEngine * option DataEntry :=
  with_shard e (shard_for_key key) (fun s =>
    let '(s, _) := purge_if_expired s key (clk 0%nat) in
    if match expires with Some expiry => expiry <=? clk 1%nat | None => false end
    then shard_remove (tick 2 clk) s key
    else shard_insert (tick 4 clk) s key (mkEntry JN v expires (clk 2%nat) (clk 3%nat))).

Definition engine_delete (clk : clock) (e : OnyxEngine) (key : bytes) : OnyxEngine * bool :=
  with_shard e (shard_for_key key) (fun s =>
    let '(s, removed) := shard_remove clk s key in
    (s, match removed with Some _ => true | None => false end)).

Definition engine_read {R} (clk : clock) (e : OnyxEngine) (key : bytes) (f : DataEntry -> R)
  : OnyxEngine * option R :=
  with_shard e (shard_for_key key) (fun s => shard_read clk s key f).

Definition engine_update_if_exists {R} (clk : clock) (e : OnyxEngine) (key : bytes)
    (f : OnyxValue -> OnyxValue * R) : OnyxEngine * option R :=
  with_shard e (shard_for_key key) (fun s => shard_update_if_exists clk s key f).

Definition engine_update_if_exists_with_action {R} (clk : clock) (e : OnyxEngine) (key : bytes)
    (f : OnyxValue -> OnyxValue * EntryMutation R) : OnyxEngine * option R :=
  with_shard e (shard_for_key key) (fun s => shard_update_if_exists_with_action clk s key f).

Definition engine_update_or_insert {R} (clk : clock) (e : OnyxEngine) (key : bytes) (dflt : OnyxValue)
    (f : OnyxValue -> OnyxValue * R) : OnyxEngine * option R :=
  with_shard e (shard_for_key key) (fun s => shard_update_or_insert clk s key dflt f).

Definition engine_update_or_insert_with_presence {R} (clk : clock) (e : OnyxEngine) (key : bytes)
    (dflt : OnyxValue) (f : OnyxValue -> bool -> OnyxValue * R) : OnyxEngine * option R :=
  with_shard e (shard_for_key key) (fun s =>
    shard_update_or_insert_with_presence clk s key dflt f).

Definition engine_update_entry_or_insert_with_presence {R} (clk : clock) (e : OnyxEngine) (key : bytes)
    (dflt : OnyxValue) (f : DataEntry -> bool -> DataEntry * R) : OnyxEngine * option R :=
  with_shard e (shard_for_key key) (fun s =>
    shard_update_entry_or_insert_with_presence clk s key dflt f).

Definition engine_set_expiry (clk : clock) (e : OnyxEngine) (key : bytes) (timestamp : Z)
  : OnyxEngine * bool :=
  with_shard e (shard_for_key key) (fun s => shard_set_expiry clk s key timestamp).

Definition engine_set_expiry_conditional (clk : clock) (e : OnyxEngine) (key : bytes) (timestamp : Z)
    (require_expiry : option bool) : OnyxEngine * bool :=
  with_shard e (shard_for_key key) (fun s =>
    shard_set_expiry_conditional clk s key timestamp require_expiry).

Definition engine_set_conditional (clk : clock) (e : OnyxEngine) (key : bytes) (v : OnyxValue)
    (expires : option Z) (condition : option bool) : OnyxEngine * bool :=
  with_shard e (shard_for_key key) (fun s =>
    let '(s, _) := purge_if_expired s key (clk 0%nat) in
    let exists_ := match sd_get (data s) key with Some _ => true | None => false end in
    let allowed :=
      match condition with
      | Some true => negb exists_
      | Some false => exists_
      | None => true
      end in
    if allowed then
      let ts := clk 1%nat in
      ((shard_insert (tick 2 clk) s key (mkEntry JN v expires ts ts)).1, allowed)
    else (s, allowed)).

Definition engine_set_if_absent (clk : clock) (e : OnyxEngine) (key : bytes) (v : OnyxValue)
  : OnyxEngine * bool :=
  with_shard e (shard_for_key key) (fun s =>
    let ts := clk 0%nat in
    shard_insert_if_absent (tick 1 clk) s key (mkEntry JN v None ts ts)).

(** Both shards are locked (in index order) for the whole operation when they
    differ, so the two critical sections run back to back. *)
Definition engine_rename (clk : clock) (e : OnyxEngine) (from to : bytes) : OnyxEngine * bool :=
  let from_shard := shard_for_key from in
  let to_shard := shard_for_key to in
  if bool_decide (from_shard = to_shard) then
    with_shard e from_shard (fun s =>
      let '(s, removed) := shard_remove clk s from in
      match removed with
      | Some entry => ((shard_insert (tick 2 clk) s to entry).1, true)
      | None => (s, false)
      end)
  else
    let '(e, entry) := with_shard e from_shard (fun s => shard_remove clk s from) in
    match entry with
    | Some en =>
      ((with_shard e to_shard (fun s => shard_insert (tick 2 clk) s to en)).1, true)
    | None => (e, false)
    end.

Definition engine_copy (clk : clock) (e : OnyxEngine) (from to : bytes) : OnyxEngine * bool :=
  let from_shard := shard_for_key from in
  let to_shard := shard_for_key to in
  let timestamp := clk 0%nat in
  if bool_decide (from_shard = to_shard) then
    with_shard e from_shard (fun s =>
      let '(s, _) := purge_if_expired s from timestamp in
      match sd_get (data s) from with
      | None => (s, false)
      | Some source =>
        if bool_decide (from = to) then (s, true)
        else
          ((shard_insert (tick 1 clk) s to
              (mkEntry JN (value source) (expires_at source) timestamp timestamp)).1, true)
      end)
  else
    let '(e, source) := with_shard e from_shard (fun s =>
      let '(s, _) := purge_if_expired s from timestamp in (s, sd_get (data s) from)) in
    match source with
    | None => (e, false)
    | Some source =>
      ((with_shard e to_shard (fun s => shard_insert (tick 1 clk) s to
          (mkEntry JN (value source) (expires_at source) timestamp timestamp))).1, true)
    end.

(** [mget]: the requests grouped by shard in index order, one lookup each. *)
Definition engine_mget (clk : clock) (e : OnyxEngine) (keys : list bytes)
  : OnyxEngine * list (option DataEntry) :=
  let indexed := imap (fun i k => (i, k)) keys in
  let work :=
    concat (map (fun s => filter (fun ik : nat * bytes => shard_for_key ik.2 = s) indexed)
              (seq 0 (Z.to_nat NUM_SHARDS))) in
  let '(e, results, _) :=
    fold_left (fun (acc : OnyxEngine * list (option DataEntry) * nat) (ik : nat * bytes) =>
      let '(e, results, n) := acc in
      let '(e, r) := with_shard e (shard_for_key ik.2) (fun s => shard_get (tick n clk) s ik.2) in
      (e, <[ik.1 := r]> results, S n))
      work (e, replicate (length keys) None, 0%nat) in
  (e, results).

Definition engine_all_keys (clk : clock) (e : OnyxEngine) : OnyxEngine * list bytes :=
  let '(e, rs) := for_shards e (fun i s =>
    let '(s, _) := expire_keys (tick i clk) s in (s, (sd_visit (data s)).*1)) in
  (e, concat rs).

Definition engine_snapshot_all (clk : clock) (e : OnyxEngine) : OnyxEngine * list (bytes * DataEntry) :=
  let '(e, rs) := for_shards e (fun i s =>
    let '(s, _) := expire_keys (tick i clk) s in (s, sd_visit (data s))) in
  (e, concat rs).

Definition engine_stats (clk : clock) (e : OnyxEngine) : OnyxEngine * EngineStats :=
  let '(e, rs) := for_shards e (fun i s =>
    let '(s, _) := expire_keys (tick i clk) s in (s, (shard_len s, op_count s))) in
  (e, mkStats (fold_left Z.add rs.*1 0) (fold_left (fun a b => wrap64 (a + b)) rs.*2 0) NUM_SHARDS).

Definition engine_total_memory_bytes (clk : clock) (e : OnyxEngine) : OnyxEngine * Z :=
  let '(e, rs) := for_shards e (fun i s =>
    let '(s, _) := expire_keys (tick i clk) s in (s, mem_bytes s)) in
  (e, fold_left sat_add rs 0).

Definition engine_gc_expired (clk : clock) (e : OnyxEngine) : OnyxEngine * Z :=
  let '(e, rs) := for_shards e (fun i s => expire_keys (tick i clk) s) in
  (e, fold_left Z.add rs 0).

(** The best candidate over all shards: the first one with the lowest score. *)
(** One shard of the scan for the lowest score. *)
Definition keep_better (nanos : nat -> Z) (e : OnyxEngine) (policy : EvictionPolicy)
    (protected : gset bytes) (best : option (nat * bytes * Z)) (i : nat)
  : option (nat * bytes * Z) :=
  match eviction_candidate (nanos i) (lock e i) policy protected with
  | Some (key, score) =>
    match best with
    | None => Some (i, key, score)
    | Some (_, _, best_score) => if score <? best_score then Some (i, key, score) else best
    end
  | None => best
  end.

Definition best_candidate (nanos : nat -> Z) (e : OnyxEngine) (policy : EvictionPolicy)
    (protected : gset bytes) : option (nat * bytes * Z) :=
  fold_left (keep_better nanos e policy protected) (seq 0 (length (shards e))) None.

(** Clock readings of one round: 64 sweeps and the two of the removal. *)
Definition ROUND : nat := 66.

(** The number of stored entries, whatever the counters say. *)
Definition stored_keys (e : OnyxEngine) : nat :=
  length (concat (map (fun s => sd_visit (data s)) (shards e))).

(** The eviction loop.  Every round that continues removes a stored key, so
    one more than the number of stored keys is enough fuel; [None] is running
    out of fuel. *)
Fixpoint evict_loop (fuel : nat) (clk : clock) (nanos : nat -> Z) (e : OnyxEngine)
    (maxmemory_bytes : Z) (policy : EvictionPolicy) (protected : gset bytes)
    (evicted : list (bytes * DataEntry)) : option (OnyxEngine * list (bytes * DataEntry)) :=
  match fuel with
  | O => None
  | S fuel =>
    let '(e, used) := engine_total_memory_bytes clk e in
    if used <=? maxmemory_bytes then Some (e, evicted)
    else
      match best_candidate nanos e policy protected with
      | Some (idx, key, _) =>
        let '(e, removed) := with_shard e idx (fun s => shard_remove (tick 64 clk) s key) in
        evict_loop fuel (tick ROUND clk) (fun i => nanos (64 + i)%nat) e maxmemory_bytes
          policy protected
          (match removed with Some entry => evicted ++ [(key, entry)] | None => evicted end)
      | None => Some (e, evicted)
      end
  end.

Definition evict_to_fit (clk : clock) (nanos : nat -> Z) (e : OnyxEngine) (maxmemory_bytes : Z)
    (policy : EvictionPolicy) (protected : gset bytes)
  : option (OnyxEngine * list (bytes * DataEntry)) :=
  if bool_decide (policy = NoEviction) || (maxmemory_bytes =? 0) then Some (e, [])
  else
    evict_loop (S (stored_keys e)) clk nanos e maxmemory_bytes policy protected [].

End EngineOps.
