(* ===== verification/EngineSpec.v ===== *)
(** * EngineSpec: the sharded engine implements one map with expirations

    [dataset] is the union of the shards' contents.  Every engine operation is
    shown to act on it as a one-line operation on a single map, to report that
    operation's result and to keep [engine_wf]: each key in the shard its hash
    names, exact key and memory counters, no copy-on-write data outside a
    snapshot epoch. *)

From Stdlib Require Import ZArith Lia.
From Stdlib Require Import Strings.Byte.
From stdpp Require Import base gmap list strings numbers.
From S2P Require Import Prelude Text Json Value Shard ShardSpec Engine.

Open Scope Z_scope.

Section EngineRefinement.
Context {JN : JsonNumber} {SJ : SerdeJson} {HO : HashOrder}.

(** ** Sums over disjoint maps *)

Lemma footprint_union (m1 m2 : gmap bytes DataEntry) :
  m1 ##ₘ m2 -> footprint (m1 ∪ m2) = footprint m1 + footprint m2.
Proof.
  revert m2. induction m1 as [|k e m1 Hk IH] using map_ind; intros m2 Hd.
  - rewrite (left_id_L ∅ (∪)). by replace (footprint ∅) with 0.
  - apply map_disjoint_insert_l in Hd as [Hk2 Hd]. rewrite <- insert_union_l.
    rewrite !footprint_insert_None by (rewrite ?lookup_union_None; done).
    rewrite IH by done. lia.
Qed.

Lemma footprint_mono (m1 m2 : gmap bytes DataEntry) :
  m1 ⊆ m2 -> footprint m1 <= footprint m2.
Proof.
  intros H. rewrite <- (map_difference_union m1 m2 H).
  rewrite footprint_union by (by apply map_disjoint_difference_r1).
  pose proof (footprint_nonneg (m2 ∖ m1)). lia.
Qed.

(** ** The dataset *)

Definition merged (ss : list Shard) : gmap bytes DataEntry :=
  foldr (fun s m => contents s ∪ m) ∅ ss.

Definition dataset (e : OnyxEngine) : gmap bytes DataEntry := merged (shards e).

(** Every key is in the shard its hash names. *)
Definition routed (ss : list Shard) : Prop :=
  forall i s k en, ss !! i = Some s -> contents s !! k = Some en -> shard_for_key k = i.

Record engine_wf (e : OnyxEngine) : Prop := {
  ewf_length : length (shards e) = Z.to_nat NUM_SHARDS;
  ewf_routed : routed (shards e);
  ewf_counts : forall i s, shards e !! i = Some s ->
    key_count s = Z.of_nat (size (contents s)) /\ mem_bytes s = footprint (contents s);
  ewf_total : engine_total e = Z.of_nat (size (dataset e));
  ewf_fits : footprint (dataset e) <= USIZE_MAX;
  ewf_flat : snapshot_active e = false ->
    forall i s, shards e !! i = Some s -> epoch (data s) = None
}.

Lemma shard_for_key_lt key : (shard_for_key key < 64)%nat.
Proof.
  unfold shard_for_key, NUM_SHARDS. change (64 - 1) with (Z.ones 6).
  rewrite Z.land_ones by lia.
  pose proof (Z.mod_pos_bound (hash_key key) (2 ^ 6) ltac:(lia)). lia.
Qed.

Lemma lookup_merged_Some ss k en :
  merged ss !! k = Some en -> exists i s, ss !! i = Some s /\ contents s !! k = Some en.
Proof.
  induction ss as [|s ss IH]; simpl; [by rewrite lookup_empty|].
  rewrite lookup_union_Some_raw. intros [H|[_ H]].
  - by exists 0%nat, s.
  - apply IH in H as (i & s' & Hi & Hk). by exists (S i), s'.
Qed.

Lemma lookup_merged_None ss k :
  merged ss !! k = None <-> forall i s, ss !! i = Some s -> contents s !! k = None.
Proof.
  induction ss as [|s ss IH]; simpl.
  - rewrite lookup_empty. split; [|done]. intros _ i s Hi. by rewrite lookup_nil in Hi.
  - rewrite lookup_union_None, IH. split.
    + intros [Hs H] [|i] s' Hi; simpl in Hi; [by simplify_eq|eauto].
    + intros H. split; [by apply (H 0%nat)|]. intros i s' Hi. by apply (H (S i)).
Qed.

Lemma lookup_merged ss i s k :
  routed ss -> ss !! i = Some s -> shard_for_key k = i -> merged ss !! k = contents s !! k.
Proof.
  intros Hr Hi Hk. destruct (merged ss !! k) as [en|] eqn:E.
  - apply lookup_merged_Some in E as (j & s' & Hj & Hs').
    pose proof (Hr _ _ _ _ Hj Hs'). subst. congruence.
  - symmetry. by eapply lookup_merged_None.
Qed.

Lemma shard_at e k : engine_wf e -> shards e !! shard_for_key k = Some (shards e !!! shard_for_key k).
Proof.
  intros Hw. apply list_lookup_lookup_total_lt. rewrite (ewf_length e Hw).
  pose proof (shard_for_key_lt k). unfold NUM_SHARDS. lia.
Qed.

Lemma lookup_dataset e k :
  engine_wf e -> dataset e !! k = contents (shards e !!! shard_for_key k) !! k.
Proof.
  intros Hw. apply (lookup_merged _ (shard_for_key k)); [apply Hw|by apply shard_at|done].
Qed.

Lemma merged_insert ss i s s' k o :
  routed ss -> ss !! i = Some s -> shard_for_key k = i ->
  contents s' = set_cell k o (contents s) ->
  merged (<[i := s']> ss) = set_cell k o (merged ss) /\ routed (<[i := s']> ss).
Proof.
  intros Hr Hi Hk Hc.
  assert (Hr' : routed (<[i := s']> ss)).
  { intros j sj k' en Hj Hk'. apply list_lookup_insert_Some in Hj as [(-> & -> & _)|[Hne Hj]].
    - destruct (decide (k' = k)) as [->|Hne]; [done|]. rewrite Hc, lookup_set_cell_ne in Hk' by done.
      by eapply Hr.
    - by eapply Hr. }
  split; [|done]. apply map_eq. intros k'.
  destruct (decide (k' = k)) as [->|Hne].
  - rewrite lookup_set_cell_eq. rewrite (lookup_merged _ i s' k Hr') by
      (rewrite ?list_lookup_insert_eq; by eauto using lookup_lt_Some).
    by rewrite Hc, lookup_set_cell_eq.
  - rewrite lookup_set_cell_ne by done.
    destruct (merged ss !! k') as [en|] eqn:E.
    + apply lookup_merged_Some in E as (j & sj & Hj & Hs).
      pose proof (Hr _ _ _ _ Hj Hs) as Hkj. destruct (decide (j = i)) as [->|Hji].
      * rewrite (lookup_merged _ i s' k' Hr'), Hc, lookup_set_cell_ne by
          (rewrite ?list_lookup_insert_eq; by eauto using lookup_lt_Some).
        congruence.
      * rewrite (lookup_merged _ j sj k' Hr') by (rewrite ?list_lookup_insert_ne; done). done.
    + apply lookup_merged_None. intros j sj Hj.
      apply list_lookup_insert_Some in Hj as [(-> & -> & _)|[Hji Hj]].
      * rewrite Hc, lookup_set_cell_ne by done. by eapply lookup_merged_None.
      * by eapply lookup_merged_None.
Qed.

Lemma contents_le_merged ss i s : routed ss -> ss !! i = Some s -> contents s ⊆ merged ss.
Proof.
  intros Hr Hi. apply map_subseteq_spec. intros k en Hk.
  rewrite (lookup_merged _ i s); eauto.
Qed.

Lemma contents_lock e i : contents (lock e i) = contents (shards e !!! i).
Proof. done. Qed.

(** A locked shard of a well-formed engine is well formed. *)
Lemma lock_wf e i s : engine_wf e -> shards e !! i = Some s -> shard_wf (lock e i).
Proof.
  intros Hw Hi. destruct (ewf_counts e Hw i s Hi) as [Hc Hm].
  pose proof (contents_le_merged _ _ _ (ewf_routed e Hw) Hi) as Hsub.
  pose proof (ewf_fits e Hw) as Hfit. pose proof (footprint_mono _ _ Hsub).
  fold (dataset e) in *.
  pose proof (map_subseteq_size _ _ Hsub). pose proof (ewf_total e Hw).
  pose proof (footprint_lower (dataset e)). fold (dataset e) in *.
  assert (Hl : shards e !!! i = s) by (by apply list_lookup_total_correct).
  assert (Hu : 0 <= Z.of_nat (size (dataset e))) by lia.
  constructor; rewrite ?contents_lock, ?Hl; unfold lock; simpl; rewrite ?Hl; lia.
Qed.

(** ** One critical section *)

(** The immutable bases of the running snapshot epoch, shard by shard. *)
Definition epochs (e : OnyxEngine) : list (option (gmap bytes DataEntry)) :=
  (fun s => epoch (data s)) <$> shards e.

(** Running an operation on [e] gave [out]: the dataset is now [m], the result
    is [x], the engine is still well formed and its snapshot epoch untouched. *)
Definition runs_to {R} (e : OnyxEngine) (out : OnyxEngine * R) (m : gmap bytes DataEntry) (x : R)
  : Prop :=
  out.2 = x /\ dataset out.1 = m /\ engine_wf out.1 /\
  snapshot_active out.1 = snapshot_active e /\ epochs out.1 = epochs e.

(** An operation on the key [k] acts on the dataset as the cell operation [c]. *)
Definition engine_refines {R} (k : bytes) (f : OnyxEngine -> OnyxEngine * R) (c : cell R) : Prop :=
  forall e, engine_wf e ->
    footprint (set_cell k (c (dataset e !! k)).1 (dataset e)) <= USIZE_MAX ->
    runs_to e (f e) (set_cell k (c (dataset e !! k)).1 (dataset e)) (c (dataset e !! k)).2.

(** Replacing a shard by one whose cell of [k] changed. *)
Lemma unlock_wf e k s' o :
  engine_wf e ->
  let i := shard_for_key k in
  contents s' = set_cell k o (contents (lock e i)) -> shard_wf s' ->
  foreign_keys s' = foreign_keys (lock e i) -> epoch (data s') = epoch (data (lock e i)) ->
  footprint (set_cell k o (dataset e)) <= USIZE_MAX ->
  dataset (unlock e i s') = set_cell k o (dataset e) /\ engine_wf (unlock e i s') /\
  epochs (unlock e i s') = epochs e.
Proof.
  intros Hw i Hc Hws Hf Hep Hfit. pose proof (shard_at e k Hw) as Hi. fold i in Hi.
  destruct (merged_insert (shards e) i _ s' k o (ewf_routed e Hw) Hi eq_refl Hc) as [Hd Hr].
  split; [done|]. split.
  - constructor; simpl; fold (dataset e) in *.
    + rewrite length_insert. apply Hw.
    + done.
    + intros j sj Hj. apply list_lookup_insert_Some in Hj as [(-> & -> & _)|[_ Hj]].
      * split; apply Hws.
      * by eapply (ewf_counts e Hw).
    + unfold dataset at 1. simpl. rewrite Hd, size_set_cell.
      fold (dataset e). rewrite (lookup_dataset e k Hw). fold i. rewrite <- (ewf_total e Hw).
      unfold foreign_keys in Hf. simpl in Hf. rewrite (wf_count _ Hws), Hc, size_set_cell in Hf.
      rewrite !contents_lock in Hf. pose proof (ewf_counts e Hw _ _ Hi) as [Hkc _]. lia.
    + unfold dataset. simpl. rewrite Hd. done.
    + intros Ha j sj Hj. apply list_lookup_insert_Some in Hj as [(-> & -> & _)|[_ Hj]].
      * rewrite Hep. simpl. by eapply (ewf_flat e Hw).
      * by eapply (ewf_flat e Hw).
  - unfold epochs. simpl. rewrite list_fmap_insert. apply list_insert_id. rewrite list_lookup_fmap, Hi. simpl.
    by rewrite Hep.
Qed.

Lemma dataset_small e : engine_wf e -> engine_total e < USIZE_MAX.
Proof.
  intros Hw. rewrite (ewf_total e Hw). pose proof (ewf_fits e Hw).
  pose proof (footprint_lower (dataset e)). unfold USIZE_MAX, U64_MAX in *. lia.
Qed.

Lemma with_shard_refines {R} k (f : Shard -> Shard * R) (c : cell R) :
  shard_refines k f c -> keeps_epoch f ->
  engine_refines k (fun e => with_shard e (shard_for_key k) f) c.
Proof.
  intros Hf Hep e Hw Hfit. set (i := shard_for_key k).
  pose proof (shard_at e k Hw) as Hi. fold i in Hi.
  pose proof (lock_wf e i _ Hw Hi) as Hws.
  rewrite (lookup_dataset e k Hw) in *. fold i in Hfit |- *.
  assert (Hl : footprint (set_cell k (c (contents (lock e i) !! k)).1 (contents (lock e i))) <= USIZE_MAX).
  { rewrite !contents_lock. etrans; [|exact Hfit].
    pose proof (contents_le_merged _ _ _ (ewf_routed e Hw) Hi) as Hsub.
    apply footprint_mono, map_subseteq_spec. intros k' en Hk'.
    destruct (decide (k' = k)) as [->|Hne].
    - by rewrite lookup_set_cell_eq in *.
    - rewrite lookup_set_cell_ne in * by done. by eapply lookup_weaken. }
  pose proof (dataset_small e Hw) as Hs.
  destruct (Hf (lock e i) Hws Hl Hs) as (Hr & Hc & Hw' & Hfk).
  pose proof (Hep (lock e i)) as He. unfold with_shard.
  destruct (f (lock e i)) as [s' r]. cbn [fst snd] in *.
  destruct (unlock_wf e k s' _ Hw Hc Hw' Hfk He) as (Hd & Hwf & Heps).
  { by rewrite contents_lock. }
  rewrite contents_lock in *. done.
Qed.

(** ** Combinators on shard operations *)

Lemma refines_ext {R} k (f g : Shard -> Shard * R) (c d : cell R) :
  (forall s, f s = g s) -> (forall o, c o = d o) -> shard_refines k g d -> shard_refines k f c.
Proof. intros Hf Hc H s Hw. rewrite Hf, Hc. by apply H. Qed.

Lemma refines_purge {R} k ts (g : Shard -> Shard * R) (c : cell R) :
  shard_refines k g c ->
  shard_refines k (fun s => g (purge_if_expired s k ts).1) (fun o => c (c_live ts o)).
Proof.
  intros Hg s Hw Hfit Htot.
  destruct (purge_spec s k ts Hw) as (_ & Hv & Hw1 & Hfk & Ht1).
  destruct (Hg _ Hw1) as (Hr & Hc & Hw2 & Hf2).
  - rewrite Hv, lookup_set_cell_eq, set_cell_set_cell. done.
  - lia.
  - rewrite Hv, lookup_set_cell_eq, set_cell_set_cell in Hc.
    rewrite Hv, lookup_set_cell_eq in Hr. rewrite <- Hfk. done.
Qed.

Lemma refines_return {R} k (g : option DataEntry -> R) :
  shard_refines k (fun s => (s, g (sd_get (data s) k))) (fun o => (o, g o)).
Proof. intros s Hw _ _. cbn [fst snd]. rewrite get_contents, set_cell_id. done. Qed.

Lemma refines_if {R} k (b : option DataEntry -> bool) (f g : Shard -> Shard * R) (c d : cell R) :
  shard_refines k f c -> shard_refines k g d ->
  shard_refines k (fun s => if b (sd_get (data s) k) then f s else g s)
    (fun o => if b o then c o else d o).
Proof.
  intros Hf Hg s Hw. rewrite get_contents.
  destruct (b (contents s !! k)); [by apply Hf|by apply Hg].
Qed.

Lemma refines_map {R R'} k (h : R -> R') (f : Shard -> Shard * R) (c : cell R) :
  shard_refines k f c ->
  shard_refines k (fun s => let '(s', r) := f s in (s', h r)) (fun o => let '(o', r) := c o in (o', h r)).
Proof.
  intros Hf s Hw. pose proof (Hf s Hw) as H. destruct (f s) as [s' r].
  destruct (c (contents s !! k)) as [o' r']. simpl in *. intros H1 H2.
  destruct (H H1 H2) as (-> & H'). done.
Qed.

(** ** The operations of the engine on one cell *)

Definition c_peek (clk : clock) : cell (option DataEntry) := fun o =>
  (c_live (clk 0%nat) o, c_live (clk 0%nat) o).

Definition c_delete (clk : clock) : cell bool := fun o =>
  (None, match c_live (clk 0%nat) o with Some _ => true | None => false end).

Definition c_apply (clk : clock) (entry : DataEntry) : cell (option DataEntry) := fun o =>
  if expired_by (clk 1%nat) entry
  then (None, c_live (clk 2%nat) (c_live (clk 0%nat) o))
  else (Some entry, c_live (clk 0%nat) o).

Definition c_set (clk : clock) (v : OnyxValue) (expires : option Z)
  : cell (option DataEntry) := fun o =>
  if match expires with Some expiry => expiry <=? clk 1%nat | None => false end
  then (None, c_live (clk 2%nat) (c_live (clk 0%nat) o))
  else (Some (mkEntry JN v expires (clk 2%nat) (clk 3%nat)), c_live (clk 0%nat) o).

Definition c_set_conditional (clk : clock) (v : OnyxValue) (expires : option Z)
    (condition : option bool) : cell bool := fun o =>
  let o := c_live (clk 0%nat) o in
  if match condition, o with
     | Some true, Some _ => false
     | Some false, None => false
     | _, _ => true
     end
  then (Some (mkEntry JN v expires (clk 1%nat) (clk 1%nat)), true)
  else (o, false).

Lemma keeps_epoch_purge {R} k ts (g : Shard -> Shard * R) :
  keeps_epoch g -> keeps_epoch (fun s => g (purge_if_expired s k ts).1).
Proof. intros H s. rewrite H. apply epoch_purge. Qed.

Lemma with_shard_refines' {R} k (f g : Shard -> Shard * R) (c d : cell R) :
  (forall s, f s = g s) -> (forall o, c o = d o) -> shard_refines k g d -> keeps_epoch g ->
  engine_refines k (fun e => with_shard e (shard_for_key k) f) c.
Proof.
  intros Hf Hc H He. apply with_shard_refines.
  - by eapply refines_ext.
  - intros s. rewrite Hf. apply He.
Qed.

Lemma get_refines clk k : engine_refines k (fun e => engine_get clk e k) (c_get clk).
Proof. apply with_shard_refines; [apply shard_get_refines|apply shard_get_epoch]. Qed.

Lemma peek_refines clk k : engine_refines k (fun e => engine_peek clk e k) (c_peek clk).
Proof.
  eapply with_shard_refines'; [| |apply (refines_purge k (clk 0%nat) _ _ (refines_return k id))
                              |intros s; apply epoch_purge].
  - intros s. cbv beta. by destruct (purge_if_expired s k (clk 0%nat)).
  - done.
Qed.

Lemma delete_refines clk k : engine_refines k (fun e => engine_delete clk e k) (c_delete clk).
Proof.
  eapply with_shard_refines'; [| |apply (refines_map k (fun r : option DataEntry =>
    match r with Some _ => true | None => false end) _ _ (shard_remove_refines clk k))|].
  - done.
  - done.
  - intros s. pose proof (shard_remove_epoch clk k s) as H. simpl in *.
    by destruct (shard_remove clk s k).
Qed.

Lemma apply_entry_refines clk k entry :
  engine_refines k (fun e => engine_apply_entry clk e k entry) (c_apply clk entry).
Proof.
  eapply with_shard_refines'; [| |apply (refines_purge k (clk 0%nat) _ _ (refines_if k
      (fun _ => expired_by (clk 1%nat) entry) _ _ _ _
      (shard_remove_refines (tick 2 clk) k) (shard_insert_refines (tick 2 clk) k entry)))|].
  - intros s. cbv beta. by destruct (purge_if_expired s k (clk 0%nat)).
  - done.
  - apply (keeps_epoch_purge k (clk 0%nat) (fun s => if expired_by (clk 1%nat) entry
      then shard_remove (tick 2 clk) s k else shard_insert (tick 2 clk) s k entry)).
    intros s. destruct (expired_by _ _); [apply shard_remove_epoch|apply shard_insert_epoch].
Qed.

Lemma set_refines clk k v x :
  engine_refines k (fun e => engine_set clk e k v x) (c_set clk v x).
Proof.
  eapply with_shard_refines'; [| |apply (refines_purge k (clk 0%nat) _ _ (refines_if k
      (fun _ => match x with Some expiry => expiry <=? clk 1%nat | None => false end) _ _ _ _
      (shard_remove_refines (tick 2 clk) k)
      (shard_insert_refines (tick 4 clk) k (mkEntry JN v x (clk 2%nat) (clk 3%nat)))))|].
  - intros s. cbv beta. by destruct (purge_if_expired s k (clk 0%nat)).
  - done.
  - apply (keeps_epoch_purge k (clk 0%nat) (fun s => if match x with
        Some expiry => expiry <=? clk 1%nat | None => false end
      then shard_remove (tick 2 clk) s k
      else shard_insert (tick 4 clk) s k (mkEntry JN v x (clk 2%nat) (clk 3%nat)))).
    intros s. destruct (match x with Some _ => _ | None => _ end);
      [apply shard_remove_epoch|apply shard_insert_epoch].
Qed.

Lemma set_conditional_refines clk k v x cond :
  engine_refines k (fun e => engine_set_conditional clk e k v x cond)
    (c_set_conditional clk v x cond).
Proof.
  eapply with_shard_refines'; [| |apply (refines_purge k (clk 0%nat) _ _ (refines_if k
      (fun o => match cond, o with Some true, Some _ => false | Some false, None => false
                | _, _ => true end) _ _ _ _
      (refines_map k (fun _ => true) _ _
         (shard_insert_refines (tick 2 clk) k (mkEntry JN v x (clk 1%nat) (clk 1%nat))))
      (refines_return k (fun _ => false))))|].
  - intros s. cbv beta. destruct (purge_if_expired s k (clk 0%nat)) as [s1 b]. simpl.
    destruct cond as [[|]|], (sd_get (data s1) k); simpl; try done;
      by destruct (shard_insert _ _ _ _).
  - done.
  - intros s. rewrite <- (epoch_purge s k (clk 0%nat)).
    destruct (purge_if_expired s k (clk 0%nat)) as [s1 b]. cbn [fst].
    pose proof (shard_insert_epoch (tick 2 clk) k (mkEntry JN v x (clk 1%nat) (clk 1%nat)) s1) as H.
    simpl in H. destruct (match cond with Some _ => _ | None => _ end); [|done].
    by destruct (shard_insert _ _ _ _).
Qed.

Lemma set_if_absent_refines clk k v :
  engine_refines k (fun e => engine_set_if_absent clk e k v)
    (c_insert_if_absent (tick 1 clk) (mkEntry JN v None (clk 0%nat) (clk 0%nat))).
Proof.
  apply with_shard_refines; [apply shard_insert_if_absent_refines|apply shard_insert_if_absent_epoch].
Qed.

Lemma read_refines {R} clk k (f : DataEntry -> R) :
  engine_refines k (fun e => engine_read clk e k f) (c_read clk f).
Proof. apply with_shard_refines; [apply shard_read_refines|apply shard_read_epoch]. Qed.

Lemma update_action_refines {R} clk k (f : OnyxValue -> OnyxValue * EntryMutation R) :
  engine_refines k (fun e => engine_update_if_exists_with_action clk e k f) (c_update_action clk f).
Proof. apply with_shard_refines; [apply shard_update_action_refines|apply shard_update_action_epoch]. Qed.

Lemma update_refines {R} clk k (f : OnyxValue -> OnyxValue * R) :
  engine_refines k (fun e => engine_update_if_exists clk e k f) (c_update clk f).
Proof. apply with_shard_refines; [apply shard_update_refines|apply shard_update_action_epoch]. Qed.

Lemma upsert_entry_refines {R} clk k dflt (f : DataEntry -> bool -> DataEntry * R) :
  engine_refines k (fun e => engine_update_entry_or_insert_with_presence clk e k dflt f)
    (c_upsert_entry clk dflt f).
Proof. apply with_shard_refines; [apply shard_upsert_entry_refines|apply shard_upsert_entry_epoch]. Qed.

Lemma upsert_presence_refines {R} clk k dflt (f : OnyxValue -> bool -> OnyxValue * R) :
  engine_refines k (fun e => engine_update_or_insert_with_presence clk e k dflt f)
    (c_upsert_presence clk dflt f).
Proof. apply with_shard_refines; [apply shard_upsert_presence_refines|apply shard_upsert_entry_epoch]. Qed.

Lemma upsert_refines {R} clk k dflt (f : OnyxValue -> OnyxValue * R) :
  engine_refines k (fun e => engine_update_or_insert clk e k dflt f) (c_upsert clk dflt f).
Proof. apply with_shard_refines; [apply shard_upsert_refines|apply shard_upsert_entry_epoch]. Qed.

Lemma set_expiry_conditional_refines clk k t req :
  engine_refines k (fun e => engine_set_expiry_conditional clk e k t req) (c_set_expiry clk t req).
Proof. apply with_shard_refines; [apply shard_set_expiry_refines|apply shard_set_expiry_epoch]. Qed.

Lemma set_expiry_refines clk k t :
  engine_refines k (fun e => engine_set_expiry clk e k t) (c_set_expiry clk t None).
Proof. apply (with_shard_refines k); [apply shard_set_expiry_refines|apply shard_set_expiry_epoch]. Qed.

(** ** The fresh engine *)

Lemma contents_shard_new total : contents (shard_new total) = ∅.
Proof. done. Qed.

Lemma dataset_engine_new : dataset engine_new = ∅.
Proof.
  unfold dataset, engine_new. cbn [shards]. generalize (Z.to_nat NUM_SHARDS). intros n.
  induction n as [|n IH]; [done|]. simpl. rewrite IH. apply (left_id_L ∅ (∪)).
Qed.

Lemma engine_new_wf : engine_wf engine_new.
Proof.
  assert (Hs : forall i s, shards engine_new !! i = Some s -> s = shard_new 0).
  { intros i s Hi. by apply lookup_replicate in Hi as [-> _]. }
  constructor.
  - apply length_replicate.
  - intros i s k en Hi Hk. rewrite (Hs _ _ Hi), contents_shard_new, lookup_empty in Hk. done.
  - intros i s Hi. rewrite (Hs _ _ Hi). done.
  - by rewrite dataset_engine_new.
  - rewrite dataset_engine_new. done.
  - intros _ i s Hi. by rewrite (Hs _ _ Hi).
Qed.

End EngineRefinement.
