(* ===== verification/EngineMulti.v ===== *)
(** * EngineMulti: operations of the engine on several keys and shards

    Renaming and copying, batched reads, sweeps of expired keys, eviction,
    snapshots and dataset replacement, each against the map it should act on. *)

From Stdlib Require Import ZArith Lia.
From Stdlib Require Import Strings.Byte.
From stdpp Require Import base gmap list strings numbers.
From S2P Require Import Prelude Text Json Value Shard ShardSpec Engine EngineSpec.

Open Scope Z_scope.

Section Multi.
Context {JN : JsonNumber} {SJ : SerdeJson} {HO : HashOrder}.

(** ** Two critical sections *)

Lemma shard_for_key_bound e k :
  length (shards e) = Z.to_nat NUM_SHARDS -> (shard_for_key k < length (shards e))%nat.
Proof. intros ->. pose proof (shard_for_key_lt k). unfold NUM_SHARDS. lia. Qed.

Lemma with_shard_twice {R} e i s (g : Shard -> Shard * R) :
  (i < length (shards e))%nat ->
  with_shard (unlock e i s) i g = let '(s', r) := g s in (unlock e i s', r).
Proof.
  intros Hi. unfold with_shard, lock. cbn [shards unlock engine_total].
  rewrite list_lookup_total_insert_eq by done.
  replace (with_total s (total_keys s)) with s by (by destruct s).
  destruct (g s) as [s' r]. unfold unlock. simpl. by rewrite list_insert_insert_eq.
Qed.

Lemma insert_entry_refines clk k en :
  engine_refines k (fun e => with_shard e (shard_for_key k) (fun s => shard_insert clk s k en))
    (c_insert en).
Proof. apply with_shard_refines; [apply shard_insert_refines|apply shard_insert_epoch]. Qed.

Lemma remove_entry_refines clk k :
  engine_refines k (fun e => with_shard e (shard_for_key k) (fun s => shard_remove clk s k))
    (c_remove clk).
Proof. apply with_shard_refines; [apply shard_remove_refines|apply shard_remove_epoch]. Qed.

Lemma runs_to_trans {R R'} e (o1 : OnyxEngine * R) m1 x1 (o2 : OnyxEngine * R') m2 x2 :
  runs_to e o1 m1 x1 -> runs_to o1.1 o2 m2 x2 -> runs_to e o2 m2 x2.
Proof.
  intros (_ & _ & _ & Ha & He) (Hx & Hd & Hw & Ha' & He').
  split; [done|]. split; [done|]. split; [done|]. split; congruence.
Qed.

Lemma runs_to_result {R R'} e (o1 : OnyxEngine * R) m x (x' : R') :
  runs_to e o1 m x -> runs_to e (o1.1, x') m x'.
Proof. intros (_ & Hd & Hw & Ha & He). done. Qed.

Lemma footprint_delete_le k m : footprint (delete k m) <= footprint m.
Proof. apply footprint_mono, delete_subseteq. Qed.

Definition m_rename (clk : clock) (from to : bytes) (m : gmap bytes DataEntry)
  : gmap bytes DataEntry * bool :=
  match c_live (clk 0%nat) (m !! from) with
  | Some en => (<[to := en]> (delete from m), true)
  | None => (delete from m, false)
  end.

Definition m_copy (clk : clock) (from to : bytes) (m : gmap bytes DataEntry)
  : gmap bytes DataEntry * bool :=
  match c_live (clk 0%nat) (m !! from) with
  | Some en =>
    (if bool_decide (from = to) then m
     else <[to := mkEntry JN (value en) (expires_at en) (clk 0%nat) (clk 0%nat)]> m, true)
  | None => (delete from m, false)
  end.

(** [rename] is a removal followed by an insertion, whether or not the two
    keys share a shard. *)
Lemma rename_sequential clk e from to :
  length (shards e) = Z.to_nat NUM_SHARDS ->
  engine_rename clk e from to =
  let '(e, removed) := with_shard e (shard_for_key from) (fun s => shard_remove clk s from) in
  match removed with
  | Some en => ((with_shard e (shard_for_key to) (fun s => shard_insert (tick 2 clk) s to en)).1, true)
  | None => (e, false)
  end.
Proof.
  intros Hw. unfold engine_rename. case_bool_decide as Hs; [|done]. rewrite <- Hs.
  pose proof (shard_for_key_bound e from Hw) as Hi.
  unfold with_shard at 1 2. destruct (shard_remove clk _ from) as [s [en|]]; [|done].
  rewrite with_shard_twice by done. by destruct (shard_insert _ _ _ _).
Qed.

Lemma rename_refines clk e from to :
  engine_wf e -> footprint (m_rename clk from to (dataset e)).1 <= USIZE_MAX ->
  runs_to e (engine_rename clk e from to) (m_rename clk from to (dataset e)).1
    (m_rename clk from to (dataset e)).2.
Proof.
  intros Hw Hfit. rewrite rename_sequential by apply Hw. unfold m_rename in *.
  pose proof (remove_entry_refines clk from e Hw) as Hr. unfold c_remove in Hr. simpl in Hr.
  pose proof (footprint_delete_le from (dataset e)). pose proof (ewf_fits e Hw).
  specialize (Hr ltac:(lia)).
  destruct (with_shard e _ _) as [e1 removed]. pose proof Hr as (Hx & Hd & Hw1 & _).
  simpl in Hx, Hd. subst removed.
  destruct (c_live (clk 0%nat) (dataset e !! from)) as [en|]; simpl in *.
  - eapply (runs_to_trans _ _ _ _ _ _ _ Hr). cbn [fst].
    pose proof (insert_entry_refines (tick 2 clk) to en e1 Hw1) as Hi. simpl in Hi.
    rewrite Hd in Hi. eapply runs_to_result, Hi. done.
  - eapply (runs_to_result _ (e1, None)), Hr.
Qed.

(** [copy] reads the source and inserts, whether or not the keys share a shard. *)
Lemma copy_sequential clk e from to :
  length (shards e) = Z.to_nat NUM_SHARDS ->
  engine_copy clk e from to =
  let '(e, source) := engine_peek clk e from in
  match source with
  | Some en =>
    if bool_decide (from = to) then (e, true)
    else ((with_shard e (shard_for_key to) (fun s => shard_insert (tick 1 clk) s to
             (mkEntry JN (value en) (expires_at en) (clk 0%nat) (clk 0%nat)))).1, true)
  | None => (e, false)
  end.
Proof.
  intros Hw. unfold engine_copy, engine_peek. case_bool_decide as Hs.
  - rewrite <- Hs.
    pose proof (shard_for_key_bound e from Hw) as Hi.
    unfold with_shard at 1 2. destruct (purge_if_expired _ from _) as [s b].
    destruct (sd_get (data s) from) as [en|]; [|done].
    case_bool_decide; [done|]. rewrite with_shard_twice by done.
    by destruct (shard_insert _ _ _ _).
  - destruct (with_shard _ _ _) as [e1 [en|]]; [|done].
    case_bool_decide; [congruence|done].
Qed.

Lemma copy_refines clk e from to :
  engine_wf e -> footprint (m_copy clk from to (dataset e)).1 <= USIZE_MAX ->
  runs_to e (engine_copy clk e from to) (m_copy clk from to (dataset e)).1
    (m_copy clk from to (dataset e)).2.
Proof.
  intros Hw Hfit. rewrite copy_sequential by apply Hw. unfold m_copy in *.
  pose proof (peek_refines clk from e Hw) as Hr. unfold c_peek in Hr. cbn [fst snd] in Hr.
  pose proof (footprint_delete_le from (dataset e)). pose proof (ewf_fits e Hw).
  destruct (engine_peek clk e from) as [e1 source].
  destruct (c_live (clk 0%nat) (dataset e !! from)) as [en|] eqn:El.
  - assert (Hid : set_cell from (Some en) (dataset e) = dataset e).
    { destruct (dataset e !! from) eqn:E; simpl in El; [|done].
      destruct (expired_by _ _); simplify_eq. by apply insert_id. }
    rewrite Hid in Hr. specialize (Hr ltac:(lia)). pose proof Hr as (Hx & Hd & Hw1 & _).
    simpl in Hx, Hd. subst source. case_bool_decide; cbn [fst snd] in *.
    + eapply (runs_to_result _ (e1, _)), Hr.
    + eapply (runs_to_trans _ _ _ _ _ _ _ Hr). cbn [fst].
      eapply runs_to_result. rewrite <- Hd in *. by apply (insert_entry_refines _ to).
  - specialize (Hr ltac:(simpl; lia)). pose proof Hr as (Hx & _). simpl in Hx. subst source.
    eapply (runs_to_result _ (e1, None)), Hr.
Qed.

(** ** Operations on whole shards *)

(** The keys of the other shards. *)
Definition others (e : OnyxEngine) (i : nat) : gmap bytes DataEntry :=
  filter (fun ke : bytes * DataEntry => shard_for_key ke.1 <> i) (dataset e).

Lemma others_disjoint (e : OnyxEngine) (i : nat) (m : gmap bytes DataEntry) :
  (forall k en, m !! k = Some en -> shard_for_key k = i) -> m ##ₘ others e i.
Proof.
  intros Hm. apply map_disjoint_spec. intros k en en' Hk Ho.
  apply map_lookup_filter_Some in Ho as [_ Hne]. apply Hm in Hk. done.
Qed.

Lemma routed_at e i s : routed (shards e) -> shards e !! i = Some s ->
  forall k en, contents s !! k = Some en -> shard_for_key k = i.
Proof. intros Hw Hi k en Hk. by eapply Hw. Qed.

Lemma dataset_split e i s :
  routed (shards e) -> shards e !! i = Some s -> dataset e = contents s ∪ others e i.
Proof.
  intros Hw Hi. apply map_eq. intros k. pose proof (routed_at e i s Hw Hi k) as Hr.
  destruct (decide (shard_for_key k = i)) as [Hk|Hk].
  - rewrite (lookup_merged _ i s k Hw Hi Hk : dataset e !! k = _).
    rewrite lookup_union_l; [done|].
    apply map_lookup_filter_None. right. intros en _ Hne. done.
  - rewrite lookup_union_r.
    + destruct (dataset e !! k) as [en|] eqn:E; symmetry.
      * apply map_lookup_filter_Some. done.
      * apply map_lookup_filter_None. by left.
    + destruct (contents s !! k) eqn:E; [|done]. exfalso. by eapply Hk, Hr.
Qed.

(** Replacing a whole shard by one whose contents are routed to it. *)
Lemma unlock_shard_dataset e i s' :
  routed (shards e) -> (i < length (shards e))%nat ->
  (forall k en, contents s' !! k = Some en -> shard_for_key k = i) ->
  routed (shards (unlock e i s')) /\ dataset (unlock e i s') = contents s' ∪ others e i.
Proof.
  intros Hw Hlt Hr'.
  assert (Hrt : routed (shards (unlock e i s'))).
  { intros j sj k en Hj Hk. simpl in Hj.
    apply list_lookup_insert_Some in Hj as [(-> & -> & _)|[_ Hj]]; [by eapply Hr'|].
    by eapply Hw. }
  split; [done|]. apply map_eq. intros k. destruct (decide (shard_for_key k = i)) as [Hk|Hk].
  - unfold dataset. rewrite (lookup_merged _ i s' k Hrt) by
      (cbn [shards unlock]; rewrite ?list_lookup_insert_eq; done).
    rewrite lookup_union_l; [done|]. apply map_lookup_filter_None. right. by intros en _ Hne.
  - assert (Hn : contents s' !! k = None).
    { destruct (contents s' !! k) eqn:E; [|done]. exfalso. by eapply Hk, Hr'. }
    rewrite lookup_union_r by done. destruct (others e i !! k) as [en|] eqn:E.
    + apply map_lookup_filter_Some in E as [E _].
      apply lookup_merged_Some in E as (j & sj & Hj & Hs).
      pose proof (Hw _ _ _ _ Hj Hs) as Hkj.
      unfold dataset. rewrite (lookup_merged _ j sj k Hrt); [done| |done].
      simpl. rewrite list_lookup_insert_ne; [done|by intros <-].
    + apply lookup_merged_None. intros j sj Hj. simpl in Hj.
      apply list_lookup_insert_Some in Hj as [(-> & -> & _)|[_ Hj]]; [done|].
      apply map_lookup_filter_None in E as [E|E]; [by eapply lookup_merged_None|].
      destruct (contents sj !! k) as [en|] eqn:E'; [|done]. exfalso. apply (E en); [|done].
      eapply lookup_weaken; [exact E'|]. by eapply contents_le_merged.
Qed.

Lemma unlock_shard_wf e i s s' :
  engine_wf e -> shards e !! i = Some s ->
  contents s' ⊆ contents s -> shard_wf s' ->
  foreign_keys s' = foreign_keys (lock e i) -> epoch (data s') = epoch (data s) ->
  engine_wf (unlock e i s') /\ dataset (unlock e i s') = contents s' ∪ others e i /\
  epochs (unlock e i s') = epochs e.
Proof.
  intros Hw Hi Hsub Hws Hf Hep. pose proof (routed_at e i s (ewf_routed e Hw) Hi) as Hr.
  assert (Hr' : forall k en, contents s' !! k = Some en -> shard_for_key k = i).
  { intros k en Hk. eapply Hr, lookup_weaken, Hsub. exact Hk. }
  destruct (unlock_shard_dataset e i s' (ewf_routed e Hw)) as [Hrt Hd]; [by eapply lookup_lt_Some|done|].
  split; [|split; [done|]].
  - pose proof (ewf_fits e Hw) as Hfit. pose proof (ewf_total e Hw) as Htot.
    rewrite (dataset_split e i s (ewf_routed e Hw) Hi) in Hfit, Htot.
    rewrite footprint_union in Hfit by (by apply others_disjoint).
    rewrite map_size_disj_union in Htot by (by apply others_disjoint).
    pose proof (footprint_mono _ _ Hsub).
    constructor.
    + simpl. rewrite length_insert. apply Hw.
    + done.
    + intros j sj Hj. simpl in Hj. apply list_lookup_insert_Some in Hj as [(-> & -> & _)|[_ Hj]].
      * split; apply Hws.
      * by eapply (ewf_counts e Hw).
    + rewrite Hd, map_size_disj_union by (by apply others_disjoint). simpl.
      unfold foreign_keys in Hf. simpl in Hf. rewrite (wf_count _ Hws) in Hf.
      rewrite (list_lookup_total_correct _ _ _ Hi) in Hf.
      destruct (ewf_counts e Hw i s Hi) as [Hkc _]. lia.
    + rewrite Hd, footprint_union by (by apply others_disjoint). lia.
    + intros Ha j sj Hj. simpl in Hj. apply list_lookup_insert_Some in Hj as [(-> & -> & _)|[_ Hj]].
      * rewrite Hep. by eapply (ewf_flat e Hw).
      * by eapply (ewf_flat e Hw).
  - unfold epochs. simpl. rewrite list_fmap_insert. apply list_insert_id.
    rewrite list_lookup_fmap, Hi. simpl. by rewrite Hep.
Qed.

Lemma for_shards_ind {R} (f : nat -> Shard -> Shard * R)
    (J : nat -> OnyxEngine -> list R -> Prop) e :
  J 0%nat e [] ->
  (forall i e' rs, (i < length (shards e))%nat -> J i e' rs ->
     J (S i) (with_shard e' i (f i)).1 (rs ++ [(with_shard e' i (f i)).2])) ->
  J (length (shards e)) (for_shards e f).1 (for_shards e f).2.
Proof.
  intros H0 HS. unfold for_shards.
  assert (H : forall n i e' rs, (i + n <= length (shards e))%nat -> J i e' rs ->
    let out := fold_left (fun (acc : OnyxEngine * list R) i =>
      let '(e, rs) := acc in
      let '(e, r) := with_shard e i (f i) in (e, rs ++ [r])) (seq i n) (e', rs) in
    J (i + n)%nat out.1 out.2).
  { induction n as [|n IH]; intros i e' rs Hle HJ; simpl.
    - by rewrite Nat.add_0_r.
    - replace (i + S n)%nat with (S i + n)%nat by lia.
      pose proof (HS i e' rs ltac:(lia) HJ) as HJ'.
      destruct (with_shard e' i (f i)) as [e'' r]. apply IH; [lia|done]. }
  apply (H (length (shards e)) 0%nat e []); [lia|done].
Qed.

(** ** Sweeping *)

(** Each shard is swept at its own reading of the clock. *)
Definition m_sweep (clk : clock) (m : gmap bytes DataEntry) : gmap bytes DataEntry :=
  map_imap (fun k en => c_live (clk (shard_for_key k)) (Some en)) m.

Lemma lookup_m_sweep clk m k : m_sweep clk m !! k = c_live (clk (shard_for_key k)) (m !! k).
Proof. unfold m_sweep. rewrite map_lookup_imap. by destruct (m !! k). Qed.

Lemma live_map_sub now m : live_map now m ⊆ m.
Proof.
  apply map_subseteq_spec. intros k en. rewrite lookup_live_map.
  destruct (m !! k) as [en'|]; simpl; [|done]. by destruct (expired_by now en').
Qed.

(** A swept shard and what the sweeping function reported of it. *)
Definition swept {R} (clk : clock) (h : Shard * Z -> R) (i : nat) (s s' : Shard) (r : R) : Prop :=
  exists t, let out := expire_keys (tick i clk) (with_total s t) in
  shard_wf (with_total s t) /\ s' = out.1 /\ r = h out.

(** One critical section of a sweep. *)
Lemma sweep_shard clk e i s :
  engine_wf e -> shards e !! i = Some s ->
  let e' := unlock e i (expire_keys (tick i clk) (lock e i)).1 in
  engine_wf e' /\ epochs e' = epochs e /\
  forall k, dataset e' !! k = if decide (shard_for_key k = i)
    then c_live (clk i) (dataset e !! k) else dataset e !! k.
Proof.
  intros Hw Hi e'. pose proof (lock_wf e i s Hw Hi) as Hws.
  destruct (expire_keys_spec (tick i clk) (lock e i) Hws) as (Hc & Hw1 & Hf1).
  pose proof (expire_keys_epoch (tick i clk) (lock e i)) as Hep. cbn beta in Hep.
  rewrite contents_lock, (list_lookup_total_correct _ _ _ Hi) in Hc.
  replace (tick i clk 0%nat) with (clk i) in Hc by (unfold tick; f_equal; lia).
  destruct (unlock_shard_wf e i s (expire_keys (tick i clk) (lock e i)).1 Hw Hi)
    as (Hwf & Hds & Heps); [rewrite Hc; apply live_map_sub|done|done| |].
  { rewrite Hep. simpl. by rewrite (list_lookup_total_correct _ _ _ Hi). }
  split; [done|]. split; [done|]. intros k. subst e'. rewrite Hds, Hc.
  rewrite (dataset_split e i s (ewf_routed e Hw) Hi). case_decide as Hk.
  - rewrite !lookup_union_l by
      (apply map_lookup_filter_None; right; by intros en _ Hne).
    apply lookup_live_map.
  - assert (Hn : contents s !! k = None).
    { destruct (contents s !! k) eqn:E; [|done]. exfalso. by eapply Hk, (routed_at e i s (ewf_routed e Hw)). }
    rewrite !lookup_union_r; [done|done|]. by rewrite lookup_live_map, Hn.
Qed.

(** The state of a sweep after the first [n] shards. *)
Record sweeping {R} (clk : clock) (h : Shard * Z -> R) (e : OnyxEngine) (n : nat)
    (e' : OnyxEngine) (rs : list R) : Prop := {
  sw_wf : engine_wf e';
  sw_active : snapshot_active e' = snapshot_active e;
  sw_epochs : epochs e' = epochs e;
  sw_results : length rs = n;
  sw_dataset : forall k, dataset e' !! k = if decide (shard_for_key k < n)%nat
    then c_live (clk (shard_for_key k)) (dataset e !! k) else dataset e !! k;
  sw_rest : forall i, (n <= i)%nat -> shards e' !! i = shards e !! i;
  sw_done : forall i s, (i < n)%nat -> shards e !! i = Some s -> exists s' r,
    shards e' !! i = Some s' /\ rs !! i = Some r /\ swept clk h i s s' r
}.

Lemma sweeping_step {R} clk (h : Shard * Z -> R) e i e' rs :
  (i < length (shards e))%nat -> sweeping clk h e i e' rs ->
  let o := expire_keys (tick i clk) (lock e' i) in
  sweeping clk h e (S i) (unlock e' i o.1) (rs ++ [h o]).
Proof.
  intros Hi [Hw' Ha He Hl Hd Hsame Hdone] o.
  destruct (shards e !! i) as [s|] eqn:Es; [|apply lookup_ge_None in Es; lia].
  assert (Es' : shards e' !! i = Some s) by (rewrite Hsame; done).
  assert (Hlk : lock e' i = with_total s (engine_total e')).
  { unfold lock. by rewrite (list_lookup_total_correct _ _ _ Es'). }
  destruct (sweep_shard clk e' i s Hw' Es') as (Hwf & Heps & Hds).
  fold o in Hwf, Heps, Hds.
  constructor; [done|done|by rewrite Heps|rewrite length_app; simpl; lia| | |].
  - intros k. rewrite Hds, Hd. case_decide as Hk.
    + rewrite decide_False, decide_True by lia. by rewrite Hk.
    + destruct (decide (shard_for_key k < i)%nat);
        [rewrite decide_True by lia|rewrite decide_False by lia]; done.
  - intros j Hj. simpl. rewrite list_lookup_insert_ne by lia. apply Hsame. lia.
  - intros j sj Hj Esj. simpl. destruct (decide (j = i)) as [->|Hne].
    + assert (sj = s) as -> by congruence. exists o.1, (h o).
      split; [apply list_lookup_insert_eq; by eapply lookup_lt_Some|].
      split; [by rewrite <- Hl, list_lookup_middle|].
      exists (engine_total e'). rewrite <- Hlk. split; [by eapply lock_wf|done].
    + destruct (Hdone j sj ltac:(lia) Esj) as (s' & r & H1 & H2 & H3).
      exists s', r. rewrite list_lookup_insert_ne by done.
      split; [done|]. split; [|done]. rewrite lookup_app_l; [done|lia].
Qed.

Lemma sweep_spec {R} clk (h : Shard * Z -> R) e :
  engine_wf e ->
  let out := for_shards e (fun i s => let o := expire_keys (tick i clk) s in (o.1, h o)) in
  runs_to e out (m_sweep clk (dataset e)) out.2 /\
  length out.2 = length (shards e) /\
  forall i s, shards e !! i = Some s -> exists s' r,
    shards out.1 !! i = Some s' /\ out.2 !! i = Some r /\ swept clk h i s s' r.
Proof.
  intros Hw out.
  assert (HJ : sweeping clk h e (length (shards e)) out.1 out.2).
  { apply for_shards_ind.
    - constructor; try done. intros. lia.
    - intros i e' rs Hi HJ. by apply (sweeping_step clk h e i e' rs). }
  destruct HJ as [Hw' Ha He Hl Hd _ Hdone].
  split; [|split; [done|]].
  - split; [done|]. split; [|done]. apply map_eq. intros k.
    rewrite Hd, lookup_m_sweep, decide_True; [done|].
    rewrite (ewf_length e Hw). pose proof (shard_for_key_lt k). unfold NUM_SHARDS. lia.
  - intros i s Hi. apply Hdone; [by eapply lookup_lt_Some|done].
Qed.

End Multi.
