(* ===== verification/EngineWhole.v ===== *)
(** * EngineWhole: observations of the whole dataset

    Key listing, full copies, statistics, memory totals and the sweeper: what
    they report is what the swept dataset holds. *)

From Stdlib Require Import ZArith Lia.
From Stdlib Require Import Strings.Byte.
From stdpp Require Import base gmap list strings numbers.
From S2P Require Import Prelude Text Json Value Shard ShardSpec Engine EngineSpec EngineMulti.

Open Scope Z_scope.

Section Whole.
Context {JN : JsonNumber} {SJ : SerdeJson} {HO : HashOrder}.

(** ** Sums over the shards *)

Definition zsum (l : list Z) : Z := foldr Z.add 0 l.

Lemma zsum_nonneg l : Forall (Z.le 0) l -> 0 <= zsum l.
Proof. induction 1; simpl; unfold zsum in *; simpl; lia. Qed.

Lemma fold_add_zsum l a : fold_left Z.add l a = a + zsum l.
Proof. revert a. induction l as [|x l IH]; intros a; simpl; [lia|]. rewrite IH. unfold zsum. simpl. lia. Qed.

Lemma fold_sat_zsum l a :
  Forall (Z.le 0) l -> 0 <= a -> a + zsum l <= USIZE_MAX -> fold_left sat_add l a = a + zsum l.
Proof.
  intros Hl. revert a. induction Hl as [|x l Hx Hl IH]; intros a Ha Hle; simpl in *.
  - unfold zsum. simpl. lia.
  - pose proof (zsum_nonneg l Hl). unfold zsum in *. simpl in *.
    rewrite sat_add_exact by lia. rewrite IH by lia. lia.
Qed.

Definition routed_from (n : nat) (ss : list Shard) : Prop :=
  forall i s k en, ss !! i = Some s -> contents s !! k = Some en -> shard_for_key k = (n + i)%nat.

Lemma routed_from_cons n s ss :
  routed_from n (s :: ss) -> routed_from (S n) ss /\ contents s ##ₘ merged ss.
Proof.
  intros Hr. split.
  - intros i s' k en Hi Hk. rewrite (Hr (S i) s' k en Hi Hk). lia.
  - apply map_disjoint_spec. intros k en en' Hk Hm.
    apply lookup_merged_Some in Hm as (i & s' & Hi & Hk').
    pose proof (Hr 0%nat s k en eq_refl Hk). pose proof (Hr (S i) s' k en' Hi Hk'). lia.
Qed.

Lemma merged_footprint n ss :
  routed_from n ss -> footprint (merged ss) = zsum ((fun s => footprint (contents s)) <$> ss).
Proof.
  revert n. induction ss as [|s ss IH]; intros n Hr; [done|].
  apply routed_from_cons in Hr as [Hr Hd]. simpl. rewrite footprint_union by done.
  by rewrite (IH _ Hr).
Qed.

Lemma merged_size n ss :
  routed_from n ss ->
  Z.of_nat (size (merged ss)) = zsum ((fun s => Z.of_nat (size (contents s))) <$> ss).
Proof.
  revert n. induction ss as [|s ss IH]; intros n Hr; [done|].
  apply routed_from_cons in Hr as [Hr Hd]. simpl. rewrite map_size_disj_union by done.
  rewrite Nat2Z.inj_add, (IH _ Hr). done.
Qed.

Lemma union_entries (m1 m2 : gmap bytes DataEntry) :
  m1 ##ₘ m2 -> map_to_list (m1 ∪ m2) ≡ₚ map_to_list m1 ++ map_to_list m2.
Proof.
  revert m2. induction m1 as [|k e m1 Hk IH] using map_ind; intros m2 Hd.
  - by rewrite (left_id_L ∅ (∪)), map_to_list_empty.
  - apply map_disjoint_insert_l in Hd as [Hk2 Hd]. rewrite <- insert_union_l.
    rewrite !map_to_list_insert by (rewrite ?lookup_union_None; done).
    rewrite IH by done. done.
Qed.

Lemma merged_entries n ss :
  routed_from n ss -> concat ((fun s => sd_visit (data s)) <$> ss) ≡ₚ map_to_list (merged ss).
Proof.
  revert n. induction ss as [|s ss IH]; intros n Hr; simpl.
  - by rewrite map_to_list_empty.
  - apply routed_from_cons in Hr as [Hr Hd].
    rewrite union_entries by done. rewrite (IH _ Hr), visit_perm. done.
Qed.

Lemma wf_routed_from e : engine_wf e -> routed_from 0 (shards e).
Proof. intros Hw i s k en Hi Hk. by eapply (ewf_routed e Hw). Qed.

(** ** What a sweep reports *)

Lemma for_shards_ext {R} (f g : nat -> Shard -> Shard * R) e :
  (forall i s, f i s = g i s) -> for_shards e f = for_shards e g.
Proof.
  intros H. unfold for_shards. generalize (e, @nil R).
  induction (seq 0 (length (shards e))) as [|i l IH]; intros acc; simpl; [done|].
  destruct acc as [e' rs]. unfold with_shard. rewrite H.
  destruct (g i (lock e' i)) as [s r]. apply IH.
Qed.

Lemma op_count_expire_keys clk s : op_count (expire_keys clk s).1 = op_count s.
Proof.
  unfold expire_keys. simpl. generalize ((filter (fun ke : bytes * DataEntry =>
    expired_by (clk 0%nat) ke.2 = true) (sd_visit (data s))).*1). intros l.
  revert s. induction l as [|k l IH]; intros s; simpl; [done|]. rewrite IH.
  unfold expire_one. destruct (sd_remove (data s) k) as [d [en|]]; [|done].
  unfold account_removal, record_key_removal. by destruct (checked_sub _ _).
Qed.

Lemma length_filter_split {A} (P : A -> bool) (l : list A) :
  (length (filter (fun a => P a = true) l) + length (filter (fun a => P a = false) l) = length l)%nat.
Proof.
  induction l as [|a l IH]; [done|]. rewrite !filter_cons.
  destruct (P a) eqn:E; repeat case_decide; simpl; try congruence; lia.
Qed.

Lemma live_entries (now : Z) (m : gmap bytes DataEntry) :
  map_to_list (live_map now m) ≡ₚ
  filter (fun ke : bytes * DataEntry => expired_by now ke.2 = false) (map_to_list m).
Proof.
  apply list.NoDup_Permutation.
  - apply NoDup_map_to_list.
  - apply list.NoDup_filter, NoDup_map_to_list.
  - intros [k en]. rewrite list_elem_of_filter, !elem_of_map_to_list, lookup_live_map. simpl.
    destruct (m !! k) as [en'|]; simpl; [|by split; [|intros [_ ?]]].
    destruct (expired_by now en') eqn:E; split; try done.
    + intros [H1 H2]. simplify_eq. congruence.
    + intros H. by simplify_eq.
    + intros [_ H]. by simplify_eq.
Qed.

(** The sweep removes as many keys as it reports. *)
Lemma expire_keys_count clk s :
  (expire_keys clk s).2 =
  Z.of_nat (size (contents s)) - Z.of_nat (size (live_map (clk 0%nat) (contents s))).
Proof.
  unfold expire_keys. simpl. unfold len. rewrite length_fmap.
  rewrite <- !length_map_to_list, live_entries.
  pose proof (visit_perm (data s)) as Hp. fold (contents s) in Hp. rewrite <- Hp.
  pose proof (length_filter_split (fun ke : bytes * DataEntry => expired_by (clk 0%nat) ke.2)
    (sd_visit (data s))). lia.
Qed.

(** Facts about every swept shard. *)
Lemma swept_facts {R} clk (h : Shard * Z -> R) i s s' r :
  swept clk h i s s' r ->
  contents s' = live_map (clk i) (contents s) /\
  op_count s' = op_count s /\
  exists n, r = h (s', n) /\ n = Z.of_nat (size (contents s)) - Z.of_nat (size (contents s')).
Proof.
  intros (t & Hw & -> & ->).
  destruct (expire_keys_spec (tick i clk) _ Hw) as (Hc & _ & _).
  replace (tick i clk 0%nat) with (clk i) in Hc by (unfold tick; f_equal; lia).
  pose proof (expire_keys_count (tick i clk) (with_total s t)) as Hn.
  pose proof (op_count_expire_keys (tick i clk) (with_total s t)) as Ho.
  replace (tick i clk 0%nat) with (clk i) in Hn by (unfold tick; f_equal; lia).
  destruct (expire_keys (tick i clk) (with_total s t)) as [s' n]. cbn [fst snd] in *.
  split; [done|]. split; [done|]. exists n. split; [done|]. by rewrite Hc.
Qed.

(** A sweep whose report depends on the swept shards. *)
Lemma sweep_report {R} clk (g : Shard -> R) e :
  engine_wf e ->
  let out := for_shards e (fun i s => let '(s, _) := expire_keys (tick i clk) s in (s, g s)) in
  runs_to e out (m_sweep clk (dataset e)) (g <$> shards out.1).
Proof.
  intros Hw. rewrite (for_shards_ext _ (fun i s => let o := expire_keys (tick i clk) s in (o.1, g o.1))).
  2: { intros i s. by destruct (expire_keys _ _). }
  destruct (sweep_spec clk (fun o => g o.1) e Hw) as (Hr & Hl & Hdone).
  split; [|apply Hr]. destruct Hr as (_ & _ & Hw' & _).
  apply list_eq. intros i. rewrite list_lookup_fmap.
  destruct (shards e !! i) as [s|] eqn:Es.
  - destruct (Hdone i s Es) as (s' & r & -> & -> & Hs).
    destruct (swept_facts _ _ _ _ _ _ Hs) as (_ & _ & n & -> & _). done.
  - apply lookup_ge_None in Es. rewrite !lookup_ge_None_2; [done| |lia].
    rewrite (ewf_length _ Hw'). pose proof (ewf_length e Hw). lia.
Qed.

(** ** The observers *)

(** [all_keys] lists every live key once. *)
Lemma all_keys_spec clk e :
  engine_wf e ->
  let out := engine_all_keys clk e in
  runs_to e out (m_sweep clk (dataset e)) out.2 /\
  out.2 ≡ₚ (map_to_list (m_sweep clk (dataset e))).*1.
Proof.
  intros Hw. unfold engine_all_keys.
  pose proof (sweep_report clk (fun s => (sd_visit (data s)).*1) e Hw) as Hr. cbv zeta in Hr.
  destruct (for_shards e _) as [e' rs]. destruct Hr as (Hx & Hd & Hw' & Ha & He).
  cbn [fst snd] in *. split; [done|]. subst rs. rewrite <- Hd.
  unfold dataset. rewrite <- (merged_entries 0 (shards e')) by (by apply wf_routed_from).
  clear. induction (shards e') as [|s ss IH]; simpl; [done|]. by rewrite fmap_app, IH.
Qed.

(** [snapshot_all] copies every live entry once. *)
Lemma snapshot_all_spec clk e :
  engine_wf e ->
  let out := engine_snapshot_all clk e in
  runs_to e out (m_sweep clk (dataset e)) out.2 /\
  out.2 ≡ₚ map_to_list (m_sweep clk (dataset e)).
Proof.
  intros Hw. unfold engine_snapshot_all.
  pose proof (sweep_report clk (fun s => sd_visit (data s)) e Hw) as Hr. cbv zeta in Hr.
  destruct (for_shards e _) as [e' rs]. destruct Hr as (Hx & Hd & Hw' & Ha & He).
  cbn [fst snd] in *. split; [done|]. subst rs. rewrite <- Hd.
  apply (merged_entries 0), wf_routed_from, Hw'.
Qed.

Lemma total_memory_spec clk e :
  engine_wf e ->
  runs_to e (engine_total_memory_bytes clk e) (m_sweep clk (dataset e))
    (footprint (m_sweep clk (dataset e))).
Proof.
  intros Hw. unfold engine_total_memory_bytes.
  pose proof (sweep_report clk mem_bytes e Hw) as Hr. cbv zeta in Hr.
  destruct (for_shards e _) as [e' rs]. destruct Hr as (Hx & Hd & Hw' & Ha & He).
  cbn [fst snd] in *. split; [|done]. cbn [snd]. subst rs. rewrite <- Hd.
  assert (Hm : mem_bytes <$> shards e' = (fun s => footprint (contents s)) <$> shards e').
  { apply list_fmap_ext. intros i s Hi. by destruct (ewf_counts _ Hw' i s Hi). }
  rewrite Hm. unfold dataset. rewrite (merged_footprint 0) by (by apply wf_routed_from).
  rewrite fold_sat_zsum; [lia| |lia|].
  - apply Forall_fmap, list.Forall_true. intros s. apply footprint_nonneg.
  - rewrite <- (merged_footprint 0) by (by apply wf_routed_from). apply (ewf_fits _ Hw').
Qed.

Lemma stats_spec clk e :
  engine_wf e ->
  let out := engine_stats clk e in
  runs_to e out (m_sweep clk (dataset e)) out.2 /\
  stats_total_keys out.2 = Z.of_nat (size (m_sweep clk (dataset e))) /\
  stats_num_shards out.2 = 64.
Proof.
  intros Hw. unfold engine_stats.
  pose proof (sweep_report clk (fun s => (shard_len s, op_count s)) e Hw) as Hr. cbv zeta in Hr.
  destruct (for_shards e _) as [e' rs]. destruct Hr as (Hx & Hd & Hw' & Ha & He).
  cbn [fst snd stats_total_keys stats_num_shards] in *. split; [done|]. split; [|done].
  subst rs. rewrite <- Hd, <- list_fmap_compose, fold_add_zsum.
  unfold dataset. rewrite (merged_size 0) by (by apply wf_routed_from). rewrite Z.add_0_l. f_equal.
  apply list_fmap_ext. intros i s Hi. by destruct (ewf_counts _ Hw' i s Hi).
Qed.

(** [gc_expired] removes exactly the expired keys and counts them. *)
Lemma gc_expired_spec clk e :
  engine_wf e ->
  runs_to e (engine_gc_expired clk e) (m_sweep clk (dataset e))
    (Z.of_nat (size (dataset e)) - Z.of_nat (size (m_sweep clk (dataset e)))).
Proof.
  intros Hw. unfold engine_gc_expired.
  rewrite (for_shards_ext _ (fun i s => let o := expire_keys (tick i clk) s in (o.1, snd o))).
  2: { intros i s. by destruct (expire_keys _ _). }
  destruct (sweep_spec clk snd e Hw) as (Hr & Hl & Hdone). cbv zeta in Hdone, Hl.
  destruct (for_shards e _) as [e' rs]. destruct Hr as (_ & Hd & Hw' & Ha & He).
  cbn [fst snd] in *. split; [|done]. cbn [snd]. rewrite fold_add_zsum, <- Hd. unfold dataset.
  rewrite !(merged_size 0) by (by apply wf_routed_from).
  assert (Hz : forall ss ss' (l : list Z), length l = length ss -> length ss' = length ss ->
    (forall i s s', ss !! i = Some s -> ss' !! i = Some s' ->
       l !! i = Some (Z.of_nat (size (contents s)) - Z.of_nat (size (contents s')))) ->
    zsum l = zsum ((fun s => Z.of_nat (size (contents s))) <$> ss) -
             zsum ((fun s => Z.of_nat (size (contents s))) <$> ss')).
  { unfold zsum. induction ss as [|s ss IH]; intros [|s' ss'] [|z l]; rewrite ?fmap_cons;
      cbn [foldr length]; try done.
    intros H1 H2 H. rewrite (IH ss' l) by (lia || (intros i; apply (H (S i)))).
    specialize (H 0%nat s s' eq_refl eq_refl). simpl in H. injection H as ->. lia. }
  rewrite (Hz (shards e) (shards e') rs Hl); [lia| |].
  - pose proof (ewf_length _ Hw'). pose proof (ewf_length _ Hw). lia.
  - intros i s s' Hs Hs'. destruct (Hdone i s Hs) as (s1 & r & H1 & -> & Hsw).
    destruct (swept_facts _ _ _ _ _ _ Hsw) as (_ & _ & n & -> & ->). simpl. congruence.
Qed.

End Whole.
