(* ===== verification/EngineActs.v ===== *)
(** * EngineActs: what operations do to the dataset, whatever the counters say

    The accounting theorems of EngineSpec.v assume that the dataset fits the
    memory counters.  The effect on the entries needs no such assumption:
    [shard_acts] and [engine_acts] state it for every state in which the keys
    are where their hash says. *)

From Stdlib Require Import ZArith Lia.
From Stdlib Require Import Strings.Byte.
From stdpp Require Import base gmap list strings numbers.
From S2P Require Import Prelude Text Json Value Shard ShardSpec Engine EngineSpec EngineMulti.

Open Scope Z_scope.

Section Acts.
Context {JN : JsonNumber} {SJ : SerdeJson} {HO : HashOrder}.

(** ** Shards *)

Definition shard_acts {R} (k : bytes) (f : Shard -> Shard * R) (c : cell R) : Prop :=
  forall s, (f s).2 = (c (contents s !! k)).2 /\
            contents (f s).1 = set_cell k (c (contents s !! k)).1 (contents s).

Lemma contents_account_removal s k e : contents (account_removal s k e) = contents s.
Proof. unfold contents. by rewrite data_account_removal. Qed.

Lemma contents_record_key_removal s : contents (record_key_removal s) = contents s.
Proof. unfold contents. by rewrite data_record_key_removal. Qed.

Lemma purge_acts k ts :
  shard_acts k (fun s => purge_if_expired s k ts) (fun o => (c_live ts o, c_expired ts o)).
Proof.
  intros s. unfold purge_if_expired. rewrite get_contents.
  change (match contents s !! k with Some entry => expired_by ts entry | None => false end)
    with (c_expired ts (contents s !! k)). cbn [fst snd].
  destruct (c_expired ts (contents s !! k)) eqn:E; cbn [negb].
  - destruct (contents s !! k) as [e|] eqn:Hk; [|done].
    destruct (sd_remove_spec (data s) k) as [Hv Ho].
    destruct (sd_remove (data s) k) as [d removed]. cbn [fst snd] in *.
    fold (contents s) in Ho, Hv. rewrite Hk in Ho. subst removed. cbn [fst snd c_live].
    simpl in E. rewrite E. split; [done|]. rewrite contents_account_removal. exact Hv.
  - split; [done|]. assert (c_live ts (contents s !! k) = contents s !! k) as ->.
    { destruct (contents s !! k); simpl in *; by rewrite ?E. }
    by rewrite set_cell_id.
Qed.

Lemma acts_ext {R} k (f g : Shard -> Shard * R) (c d : cell R) :
  (forall s, f s = g s) -> (forall o, c o = d o) -> shard_acts k g d -> shard_acts k f c.
Proof. intros Hf Hc H s. rewrite Hf, Hc. apply H. Qed.

Lemma acts_purge {R} k ts (g : Shard -> Shard * R) (c : cell R) :
  shard_acts k g c ->
  shard_acts k (fun s => g (purge_if_expired s k ts).1) (fun o => c (c_live ts o)).
Proof.
  intros Hg s. destruct (purge_acts k ts s) as [_ Hv]. cbn [fst] in Hv.
  destruct (Hg (purge_if_expired s k ts).1) as [Hr Hc].
  rewrite Hv, lookup_set_cell_eq in Hr, Hc. split; [done|]. by rewrite Hc, set_cell_set_cell.
Qed.

Lemma acts_return {R} k (g : option DataEntry -> R) :
  shard_acts k (fun s => (s, g (sd_get (data s) k))) (fun o => (o, g o)).
Proof. intros s. cbn [fst snd]. by rewrite get_contents, set_cell_id. Qed.

Lemma acts_if {R} k (b : option DataEntry -> bool) (f g : Shard -> Shard * R) (c d : cell R) :
  shard_acts k f c -> shard_acts k g d ->
  shard_acts k (fun s => if b (sd_get (data s) k) then f s else g s)
    (fun o => if b o then c o else d o).
Proof.
  intros Hf Hg s. rewrite get_contents.
  destruct (b (contents s !! k)); [by apply Hf|by apply Hg].
Qed.

Lemma acts_map {R R'} k (h : R -> R') (f : Shard -> Shard * R) (c : cell R) :
  shard_acts k f c ->
  shard_acts k (fun s => let '(s', r) := f s in (s', h r)) (fun o => let '(o', r) := c o in (o', h r)).
Proof.
  intros Hf s. pose proof (Hf s) as [H1 H2]. destruct (f s) as [s' r].
  destruct (c (contents s !! k)) as [o' r']. simpl in *. by subst.
Qed.

Lemma acts_get clk k : shard_acts k (fun s => shard_get clk s k) (c_get clk).
Proof.
  intros s. unfold shard_get, c_get. destruct (purge_acts k (clk 0%nat) s) as [_ Hp].
  destruct (purge_if_expired s k (clk 0%nat)) as [s1 b]. cbn [fst snd] in *.
  destruct (sd_get_mut_spec (data s1) k) as [Hv Ho]. fold (contents s1) in *.
  rewrite Hp, lookup_set_cell_eq in Ho. rewrite Hp in Hv.
  destruct (sd_get_mut (data s1) k) as [d found]. cbn [fst snd] in *. subst found.
  destruct (c_live (clk 0%nat) (contents s !! k)) as [e|]; cbn [fst snd fmap option_fmap option_map];
    (split; [done|]).
  - unfold contents at 1. simpl. rewrite sd_write_spec, Hv. apply (set_cell_set_cell k _ (Some _)).
  - exact Hv.
Qed.

Lemma acts_insert clk k e : shard_acts k (fun s => shard_insert clk s k e) (c_insert e).
Proof.
  intros s. unfold shard_insert. change (data (bump s (clk 0%nat))) with (data s).
  destruct (sd_insert_spec (data s) k e) as [Hv Ho].
  destruct (sd_insert (data s) k e) as [d old]. cbn [fst snd c_insert] in *.
  fold (contents s) in *. subst old. split; [done|].
  unfold contents at 1. destruct (contents s !! k); simpl; exact Hv.
Qed.

Lemma acts_remove clk k : shard_acts k (fun s => shard_remove clk s k) (c_remove clk).
Proof.
  intros s. unfold shard_remove, c_remove. destruct (purge_acts k (clk 0%nat) s) as [Hb Hv].
  destruct (purge_if_expired s k (clk 0%nat)) as [s1 b]. cbn [fst snd] in *. subst b.
  destruct (c_expired (clk 0%nat) (contents s !! k)) eqn:E.
  - assert (Hl : c_live (clk 0%nat) (contents s !! k) = None).
    { destruct (contents s !! k); simpl in *; by rewrite ?E. }
    by rewrite Hl in *.
  - change (data (bump s1 (clk 1%nat))) with (data s1).
    destruct (sd_remove_spec (data s1) k) as [Hv1 Ho]. fold (contents s1) in *.
    rewrite Hv, lookup_set_cell_eq in Ho. rewrite Hv in Hv1.
    destruct (sd_remove (data s1) k) as [d removed]. cbn [fst snd] in *. subst removed.
    assert (Hd : view d = delete k (contents s)).
    { rewrite Hv1. apply (set_cell_set_cell k _ None). }
    destruct (c_live (clk 0%nat) (contents s !! k)); cbn [fst snd]; (split; [done|]).
    + rewrite contents_account_removal. exact Hd.
    + exact Hd.
Qed.

Lemma acts_read {R} clk k (f : DataEntry -> R) :
  shard_acts k (fun s => shard_read clk s k f) (c_read clk f).
Proof. apply (acts_map k (fmap f) _ _ (acts_get clk k)). Qed.

Lemma acts_update_action {R} clk k (f : OnyxValue -> OnyxValue * EntryMutation R) :
  shard_acts k (fun s => shard_update_if_exists_with_action clk s k f) (c_update_action clk f).
Proof.
  intros s. unfold shard_update_if_exists_with_action, c_update_action.
  destruct (purge_acts k (clk 0%nat) s) as [_ Hp].
  destruct (purge_if_expired s k (clk 0%nat)) as [s1 b]. cbn [fst snd] in *.
  destruct (sd_get_mut_spec (data s1) k) as [Hv Ho]. fold (contents s1) in *.
  rewrite Hp, lookup_set_cell_eq in Ho. rewrite Hp in Hv.
  destruct (sd_get_mut (data s1) k) as [d found]. cbn [fst snd] in *. subst found.
  destruct (c_live (clk 0%nat) (contents s !! k)) as [e|]; [|by split].
  change (value (set_accessed_field e (clk 0%nat))) with (value e).
  destruct (f (value e)) as [v [r|r]]; cbn [fst snd]; (split; [done|]).
  - unfold contents at 1. simpl. rewrite sd_write_spec, Hv. apply (set_cell_set_cell k _ (Some _)).
  - rewrite contents_record_key_removal. unfold contents at 1. simpl.
    match goal with |- view (sd_remove ?d ?k).1 = _ => destruct (sd_remove_spec d k) as [-> _] end.
    rewrite sd_write_spec, Hv, delete_insert_eq. apply (set_cell_set_cell k _ None).
Qed.

Lemma acts_update {R} clk k (f : OnyxValue -> OnyxValue * R) :
  shard_acts k (fun s => shard_update_if_exists clk s k f) (c_update clk f).
Proof. apply acts_update_action. Qed.

Lemma acts_upsert_entry {R} clk k dflt (f : DataEntry -> bool -> DataEntry * R) :
  shard_acts k (fun s => shard_update_entry_or_insert_with_presence clk s k dflt f)
    (c_upsert_entry clk dflt f).
Proof.
  intros s. unfold shard_update_entry_or_insert_with_presence, c_upsert_entry.
  destruct (purge_acts k (clk 0%nat) s) as [_ Hp].
  destruct (purge_if_expired s k (clk 0%nat)) as [s1 b]. cbn [fst snd] in *.
  change (data (bump s1 (clk 0%nat))) with (data s1). rewrite get_contents.
  rewrite Hp, lookup_set_cell_eq.
  destruct (c_live (clk 0%nat) (contents s !! k)) as [e|].
  - change (data (bump s1 (clk 0%nat))) with (data s1).
    destruct (sd_get_mut_spec (data s1) k) as [Hv Ho]. fold (contents s1) in *.
    rewrite Hp, lookup_set_cell_eq in Ho. rewrite Hp in Hv.
    destruct (sd_get_mut (data s1) k) as [d found]. cbn [fst snd] in *. subst found.
    destruct (f _ true) as [e' r]. cbn [fst snd]. split; [done|].
    unfold contents at 1. simpl. rewrite sd_write_spec, Hv. apply (set_cell_set_cell k _ (Some _)).
  - set (e0 := mkEntry JN dflt None (clk 0%nat) (clk 0%nat)).
    destruct (sd_insert_spec (data s1) k e0) as [Hvi _]. fold (contents s1) in Hvi.
    cbn [data with_data with_count record_key_insertion with_total].
    destruct (sd_get_mut_spec (sd_insert (data s1) k e0).1 k) as [Hv Ho].
    rewrite Hvi, Hp in Hv, Ho. rewrite lookup_insert_eq in Ho.
    destruct (sd_get_mut (sd_insert (data s1) k e0).1 k) as [d found]. cbn [fst snd] in *. subst found.
    destruct (f _ false) as [e' r]. cbn [fst snd]. split; [done|].
    unfold contents at 1. simpl. rewrite sd_write_spec, Hv, insert_insert_eq.
    apply (set_cell_set_cell k None (Some e')).
Qed.

Lemma acts_insert_if_absent clk k e :
  shard_acts k (fun s => shard_insert_if_absent clk s k e) (c_insert_if_absent clk e).
Proof.
  intros s. unfold shard_insert_if_absent, c_insert_if_absent.
  destruct (purge_acts k (clk 0%nat) s) as [_ Hp].
  destruct (purge_if_expired s k (clk 0%nat)) as [s1 b]. cbn [fst snd] in *.
  rewrite get_contents, Hp, lookup_set_cell_eq.
  destruct (c_live (clk 0%nat) (contents s !! k)) as [e0|]; [by split|]. cbn [fst snd].
  split; [done|]. unfold contents at 1. simpl.
  destruct (sd_insert_spec (data s1) k e) as [-> _]. fold (contents s1). rewrite Hp.
  apply (set_cell_set_cell k None (Some e)).
Qed.

Lemma acts_set_expiry clk k t req :
  shard_acts k (fun s => shard_set_expiry_conditional clk s k t req) (c_set_expiry clk t req).
Proof.
  intros s. unfold shard_set_expiry_conditional, c_set_expiry.
  destruct (purge_acts k (clk 0%nat) s) as [Hb Hp].
  destruct (purge_if_expired s k (clk 0%nat)) as [s1 b]. cbn [fst snd] in *.
  assert (Hk : contents s1 !! k = c_live (clk 0%nat) (contents s !! k)).
  { rewrite Hp. apply lookup_set_cell_eq. }
  rewrite get_contents, Hk. clear Hk. destruct b.
  { assert (Hl : c_live (clk 0%nat) (contents s !! k) = None).
    { destruct (contents s !! k); simpl in *; by rewrite <- ?Hb. }
    by rewrite Hl in *. }
  destruct (c_live (clk 0%nat) (contents s !! k)) as [e|]; [|by split].
  destruct (match req with Some required => _ | None => false end); [by split|].
  destruct (t <=? clk 0%nat).
  - destruct (acts_remove (tick 1 clk) k s1) as [Hr Hc]. unfold c_remove in Hr, Hc.
    rewrite Hp, lookup_set_cell_eq in Hr. rewrite Hp in Hc.
    destruct (shard_remove (tick 1 clk) s1 k) as [s2 rm]. cbn [fst snd] in *. subst rm.
    split; [done|]. rewrite Hc. apply (set_cell_set_cell k (Some e) None).
  - destruct (sd_get_mut_spec (data s1) k) as [Hv1 Ho1]. fold (contents s1) in *.
    rewrite Hp, lookup_set_cell_eq in Ho1. rewrite Hp in Hv1.
    destruct (sd_get_mut (data s1) k) as [d found]. cbn [fst snd] in *. subst found.
    cbn [fst snd]. split; [done|]. unfold contents at 1. simpl. rewrite sd_write_spec, Hv1.
    apply (set_cell_set_cell k _ (Some _)).
Qed.

(** ** The engine *)

(** Every key is in the shard its hash names. *)
Record engine_ok (e : OnyxEngine) : Prop := {
  eok_length : length (shards e) = Z.to_nat NUM_SHARDS;
  eok_routed : routed (shards e)
}.

Lemma engine_wf_ok e : engine_wf e -> engine_ok e.
Proof. intros Hw. constructor; apply Hw. Qed.

(** The operation left the dataset [m] and the result [x]. *)
Definition leaves {R} (out : OnyxEngine * R) (m : gmap bytes DataEntry) (x : R) : Prop :=
  out.2 = x /\ dataset out.1 = m /\ engine_ok out.1.

Definition engine_acts {R} (k : bytes) (f : OnyxEngine -> OnyxEngine * R) (c : cell R) : Prop :=
  forall e, engine_ok e ->
    leaves (f e) (set_cell k (c (dataset e !! k)).1 (dataset e)) (c (dataset e !! k)).2.

Lemma ok_shard_at e k : engine_ok e ->
  shards e !! shard_for_key k = Some (shards e !!! shard_for_key k).
Proof.
  intros Hw. apply list_lookup_lookup_total_lt. rewrite (eok_length e Hw).
  pose proof (shard_for_key_lt k). unfold NUM_SHARDS. lia.
Qed.

Lemma ok_lookup_dataset e k :
  engine_ok e -> dataset e !! k = contents (shards e !!! shard_for_key k) !! k.
Proof.
  intros Hw. apply (lookup_merged _ (shard_for_key k)); [apply Hw|by apply ok_shard_at|done].
Qed.

Lemma with_shard_acts {R} k (f : Shard -> Shard * R) (c : cell R) :
  shard_acts k f c -> engine_acts k (fun e => with_shard e (shard_for_key k) f) c.
Proof.
  intros Hf e Hw. set (i := shard_for_key k).
  pose proof (ok_shard_at e k Hw) as Hi. fold i in Hi.
  rewrite (ok_lookup_dataset e k Hw). fold i.
  destruct (Hf (lock e i)) as (Hr & Hc). rewrite contents_lock in Hr, Hc. unfold with_shard.
  destruct (f (lock e i)) as [s' r]. cbn [fst snd] in *.
  destruct (merged_insert (shards e) i _ s' k _ (eok_routed e Hw) Hi eq_refl Hc) as [Hd Hrt].
  split; [done|]. split; [done|]. constructor; [|done]. simpl. rewrite length_insert. apply Hw.
Qed.

Lemma with_shard_acts' {R} k (f g : Shard -> Shard * R) (c d : cell R) :
  (forall s, f s = g s) -> (forall o, c o = d o) -> shard_acts k g d ->
  engine_acts k (fun e => with_shard e (shard_for_key k) f) c.
Proof. intros Hf Hc H. apply with_shard_acts. by eapply acts_ext. Qed.

Lemma get_acts clk k : engine_acts k (fun e => engine_get clk e k) (c_get clk).
Proof. apply with_shard_acts, acts_get. Qed.

Lemma peek_acts clk k : engine_acts k (fun e => engine_peek clk e k) (c_peek clk).
Proof.
  eapply with_shard_acts'; [| |apply (acts_purge k (clk 0%nat) _ _ (acts_return k id))].
  - intros s. cbv beta. by destruct (purge_if_expired s k (clk 0%nat)).
  - done.
Qed.

Lemma delete_acts clk k : engine_acts k (fun e => engine_delete clk e k) (c_delete clk).
Proof.
  eapply with_shard_acts'; [| |apply (acts_map k (fun r : option DataEntry =>
    match r with Some _ => true | None => false end) _ _ (acts_remove clk k))]; done.
Qed.

Lemma insert_entry_acts clk k en :
  engine_acts k (fun e => with_shard e (shard_for_key k) (fun s => shard_insert clk s k en))
    (c_insert en).
Proof. apply with_shard_acts, acts_insert. Qed.

Lemma apply_entry_acts clk k entry :
  engine_acts k (fun e => engine_apply_entry clk e k entry) (c_apply clk entry).
Proof.
  eapply with_shard_acts'; [| |apply (acts_purge k (clk 0%nat) _ _ (acts_if k
      (fun _ => expired_by (clk 1%nat) entry) _ _ _ _
      (acts_remove (tick 2 clk) k) (acts_insert (tick 2 clk) k entry)))].
  - intros s. cbv beta. by destruct (purge_if_expired s k (clk 0%nat)).
  - done.
Qed.

Lemma set_acts clk k v x :
  engine_acts k (fun e => engine_set clk e k v x) (c_set clk v x).
Proof.
  eapply with_shard_acts'; [| |apply (acts_purge k (clk 0%nat) _ _ (acts_if k
      (fun _ => match x with Some expiry => expiry <=? clk 1%nat | None => false end) _ _ _ _
      (acts_remove (tick 2 clk) k)
      (acts_insert (tick 4 clk) k (mkEntry JN v x (clk 2%nat) (clk 3%nat)))))].
  - intros s. cbv beta. by destruct (purge_if_expired s k (clk 0%nat)).
  - done.
Qed.

Lemma set_conditional_acts clk k v x cond :
  engine_acts k (fun e => engine_set_conditional clk e k v x cond)
    (c_set_conditional clk v x cond).
Proof.
  eapply with_shard_acts'; [| |apply (acts_purge k (clk 0%nat) _ _ (acts_if k
      (fun o => match cond, o with Some true, Some _ => false | Some false, None => false
                | _, _ => true end) _ _ _ _
      (acts_map k (fun _ => true) _ _
         (acts_insert (tick 2 clk) k (mkEntry JN v x (clk 1%nat) (clk 1%nat))))
      (acts_return k (fun _ => false))))].
  - intros s. cbv beta. destruct (purge_if_expired s k (clk 0%nat)) as [s1 b]. simpl.
    destruct cond as [[|]|], (sd_get (data s1) k); simpl; try done;
      by destruct (shard_insert _ _ _ _).
  - done.
Qed.

Lemma set_if_absent_acts clk k v :
  engine_acts k (fun e => engine_set_if_absent clk e k v)
    (c_insert_if_absent (tick 1 clk) (mkEntry JN v None (clk 0%nat) (clk 0%nat))).
Proof. apply with_shard_acts, acts_insert_if_absent. Qed.

Lemma read_acts {R} clk k (f : DataEntry -> R) :
  engine_acts k (fun e => engine_read clk e k f) (c_read clk f).
Proof. apply with_shard_acts, acts_read. Qed.

Lemma update_action_acts {R} clk k (f : OnyxValue -> OnyxValue * EntryMutation R) :
  engine_acts k (fun e => engine_update_if_exists_with_action clk e k f) (c_update_action clk f).
Proof. apply with_shard_acts, acts_update_action. Qed.

Lemma update_acts {R} clk k (f : OnyxValue -> OnyxValue * R) :
  engine_acts k (fun e => engine_update_if_exists clk e k f) (c_update clk f).
Proof. apply with_shard_acts, acts_update. Qed.

Lemma upsert_entry_acts {R} clk k dflt (f : DataEntry -> bool -> DataEntry * R) :
  engine_acts k (fun e => engine_update_entry_or_insert_with_presence clk e k dflt f)
    (c_upsert_entry clk dflt f).
Proof. apply with_shard_acts, acts_upsert_entry. Qed.

Lemma upsert_presence_acts {R} clk k dflt (f : OnyxValue -> bool -> OnyxValue * R) :
  engine_acts k (fun e => engine_update_or_insert_with_presence clk e k dflt f)
    (c_upsert_presence clk dflt f).
Proof. apply (with_shard_acts k), acts_upsert_entry. Qed.

Lemma upsert_acts {R} clk k dflt (f : OnyxValue -> OnyxValue * R) :
  engine_acts k (fun e => engine_update_or_insert clk e k dflt f) (c_upsert clk dflt f).
Proof. apply (with_shard_acts k), acts_upsert_entry. Qed.

Lemma set_expiry_conditional_acts clk k t req :
  engine_acts k (fun e => engine_set_expiry_conditional clk e k t req) (c_set_expiry clk t req).
Proof. apply with_shard_acts, acts_set_expiry. Qed.

Lemma set_expiry_acts clk k t :
  engine_acts k (fun e => engine_set_expiry clk e k t) (c_set_expiry clk t None).
Proof. apply (with_shard_acts k), acts_set_expiry. Qed.

(** ** Several keys *)

Lemma remove_entry_acts clk k :
  engine_acts k (fun e => with_shard e (shard_for_key k) (fun s => shard_remove clk s k))
    (c_remove clk).
Proof. apply with_shard_acts, acts_remove. Qed.

Lemma rename_acts clk e from to :
  engine_ok e ->
  leaves (engine_rename clk e from to) (m_rename clk from to (dataset e)).1
    (m_rename clk from to (dataset e)).2.
Proof.
  intros Hw. rewrite rename_sequential by apply Hw. unfold m_rename.
  destruct (remove_entry_acts clk from e Hw) as (Hx & Hd & Hw1). unfold c_remove in Hx, Hd.
  destruct (with_shard e _ _) as [e1 removed]. cbn [fst snd] in *. subst removed.
  destruct (c_live (clk 0%nat) (dataset e !! from)) as [en|]; cbn [fst snd]; [|done].
  destruct (insert_entry_acts (tick 2 clk) to en e1 Hw1) as (_ & Hd2 & Hw2).
  split; [done|]. split; [|done]. cbn [fst]. rewrite Hd2. simpl. by rewrite Hd.
Qed.

Lemma copy_acts clk e from to :
  engine_ok e ->
  leaves (engine_copy clk e from to) (m_copy clk from to (dataset e)).1
    (m_copy clk from to (dataset e)).2.
Proof.
  intros Hw. rewrite copy_sequential by apply Hw. unfold m_copy.
  destruct (peek_acts clk from e Hw) as (Hx & Hd & Hw1). unfold c_peek in Hx, Hd.
  destruct (engine_peek clk e from) as [e1 source]. cbn [fst snd] in *. subst source.
  destruct (c_live (clk 0%nat) (dataset e !! from)) as [en|] eqn:El; cbn [fst snd]; [|done].
  assert (Hid : dataset e1 = dataset e).
  { rewrite Hd. destruct (dataset e !! from) eqn:E; simpl in El; [|done].
    destruct (expired_by _ _); simplify_eq. by apply insert_id. }
  case_bool_decide; [done|].
  destruct (insert_entry_acts (tick 1 clk) to
    (mkEntry JN (value en) (expires_at en) (clk 0%nat) (clk 0%nat)) e1 Hw1) as (_ & Hd2 & Hw2).
  split; [done|]. split; [|done]. cbn [fst]. rewrite Hd2. simpl. by rewrite Hid.
Qed.

(** ** Sweeps *)

Lemma contents_expire_one s k : contents (expire_one s k) = delete k (contents s).
Proof.
  unfold expire_one. destruct (sd_remove_spec (data s) k) as [Hv _].
  destruct (sd_remove (data s) k) as [d [en|]]; [rewrite contents_account_removal|]; exact Hv.
Qed.

Lemma contents_expire_fold l s k :
  contents (fold_left expire_one l s) !! k = if decide (k ∈ l) then None else contents s !! k.
Proof.
  revert s. induction l as [|k0 l IH]; intros s; cbn [fold_left].
  - by rewrite decide_False by set_solver.
  - rewrite IH, contents_expire_one. destruct (decide (k = k0)) as [->|Hne].
    + rewrite lookup_delete_eq. rewrite (decide_True (P := k0 ∈ k0 :: l)) by set_solver.
      by destruct (decide (k0 ∈ l)).
    + rewrite lookup_delete_ne by done.
      destruct (decide (k ∈ l)); [rewrite decide_True by set_solver|rewrite decide_False by set_solver]; done.
Qed.

Lemma contents_expire_keys clk s :
  contents (expire_keys clk s).1 = live_map (clk 0%nat) (contents s).
Proof.
  unfold expire_keys. cbn [fst]. apply map_eq. intros k.
  rewrite contents_expire_fold, lookup_live_map. case_decide as Hin.
  - apply list_elem_of_fmap in Hin as ([k' e] & -> & Hin).
    apply list_elem_of_filter in Hin as [He Hin]. apply elem_of_visit in Hin.
    cbn [fst snd] in *. fold (contents s) in Hin. rewrite Hin. simpl. by rewrite He.
  - destruct (contents s !! k) as [e|] eqn:E; [|done]. simpl.
    destruct (expired_by (clk 0%nat) e) eqn:He; [|done]. exfalso. apply Hin.
    apply list_elem_of_fmap. exists (k, e). split; [done|].
    apply list_elem_of_filter. split; [done|]. by apply elem_of_visit.
Qed.

(** Every operation that sweeps each shard in turn leaves the swept dataset. *)
Lemma sweep_acts {R} clk (f : nat -> Shard -> Shard * R) e :
  engine_ok e -> (forall i s, (f i s).1 = (expire_keys (tick i clk) s).1) ->
  engine_ok (for_shards e f).1 /\ dataset (for_shards e f).1 = m_sweep clk (dataset e).
Proof.
  intros Hw Hf.
  set (J := fun (n : nat) (e' : OnyxEngine) (_ : list R) => engine_ok e' /\
    forall k, dataset e' !! k = if decide (shard_for_key k < n)%nat
      then c_live (clk (shard_for_key k)) (dataset e !! k) else dataset e !! k).
  assert (HJ : J (length (shards e)) (for_shards e f).1 (for_shards e f).2).
  { apply (for_shards_ind f J e); [split; [done|]; intros; by rewrite decide_False by lia|].
    intros i e' rs Hi [Hw' Hd].
    assert (Hlen : length (shards e') = length (shards e)).
    { rewrite (eok_length _ Hw'). symmetry. apply Hw. }
    destruct (lookup_lt_is_Some_2 (shards e') i ltac:(lia)) as [s Es].
    unfold with_shard. pose proof (Hf i (lock e' i)) as Hfi.
    destruct (f i (lock e' i)) as [s' r]. cbn [fst snd] in *. subst s'.
    set (s' := (expire_keys (tick i clk) (lock e' i)).1).
    assert (Hc : contents s' = live_map (clk i) (contents s)).
    { subst s'. rewrite contents_expire_keys, contents_lock, (list_lookup_total_correct _ _ _ Es).
      unfold tick. by rewrite Nat.add_0_r. }
    pose proof (routed_at e' i s (eok_routed _ Hw') Es) as Hr.
    destruct (unlock_shard_dataset e' i s' (eok_routed _ Hw')) as [Hrt Hds]; [lia| |].
    { intros k en Hk. rewrite Hc in Hk. eapply Hr, lookup_weaken, live_map_sub. exact Hk. }
    split; [constructor; [simpl; rewrite length_insert; apply Hw'|done]|].
    intros k. rewrite Hds, Hc. specialize (Hd k).
    rewrite (dataset_split e' i s (eok_routed _ Hw') Es) in Hd.
    destruct (decide (shard_for_key k = i)) as [Hk|Hk].
    - rewrite decide_False in Hd by lia. rewrite decide_True by lia.
      rewrite lookup_union_l in * by (apply map_lookup_filter_None; right; by intros en _ Hne).
      by rewrite lookup_live_map, Hd, Hk.
    - assert (Hn : contents s !! k = None).
      { destruct (contents s !! k) eqn:E; [|done]. exfalso. by eapply Hk, Hr. }
      rewrite lookup_union_r in Hd by done. rewrite lookup_union_r by (by rewrite lookup_live_map, Hn).
      rewrite Hd. destruct (decide (shard_for_key k < i)%nat);
        [rewrite decide_True by lia|rewrite decide_False by lia]; done. }
  destruct HJ as [Hw' Hd]. split; [done|]. apply map_eq. intros k.
  rewrite Hd, lookup_m_sweep, decide_True; [done|]. apply shard_for_key_bound, Hw.
Qed.

Lemma all_keys_acts clk e :
  engine_ok e -> let out := engine_all_keys clk e in leaves out (m_sweep clk (dataset e)) out.2.
Proof.
  intros Hw. unfold engine_all_keys. destruct (for_shards e _) as [e' rs] eqn:E.
  match type of E with for_shards _ ?f = _ => destruct (sweep_acts clk f e Hw) as [Hok Hd] end.
  { intros i s. by destruct (expire_keys _ _). }
  rewrite E in *. done.
Qed.

Lemma stats_acts clk e :
  engine_ok e -> let out := engine_stats clk e in leaves out (m_sweep clk (dataset e)) out.2.
Proof.
  intros Hw. unfold engine_stats. destruct (for_shards e _) as [e' rs] eqn:E.
  match type of E with for_shards _ ?f = _ => destruct (sweep_acts clk f e Hw) as [Hok Hd] end.
  { intros i s. by destruct (expire_keys _ _). }
  rewrite E in *. done.
Qed.

Lemma total_memory_acts clk e :
  engine_ok e ->
  let out := engine_total_memory_bytes clk e in leaves out (m_sweep clk (dataset e)) out.2.
Proof.
  intros Hw. unfold engine_total_memory_bytes. destruct (for_shards e _) as [e' rs] eqn:E.
  match type of E with for_shards _ ?f = _ => destruct (sweep_acts clk f e Hw) as [Hok Hd] end.
  { intros i s. by destruct (expire_keys _ _). }
  rewrite E in *. done.
Qed.

End Acts.
