(* ===== verification/EngineEvict.v ===== *)
(** * EngineEvict: eviction

    The eviction loop terminates; it ends with the dataset within its budget
    or with nothing left that the policy may remove, and every entry it made
    disappear was either eligible and reported or had expired. *)

From Stdlib Require Import ZArith Lia.
From Stdlib Require Import Strings.Byte.
From stdpp Require Import base gmap list strings numbers.
From S2P Require Import Prelude Text Json Value Shard ShardSpec Engine EngineSpec EngineMulti EngineWhole EngineActs.

Open Scope Z_scope.

Section Evict.
Context {JN : JsonNumber} {SJ : SerdeJson} {HO : HashOrder}.

(** ** What a policy may remove *)

Definition evictable (policy : EvictionPolicy) (protected : gset bytes) (k : bytes) (en : DataEntry)
  : Prop :=
  k ∉ protected /\ (policy = VolatileLru \/ policy = VolatileRandom -> is_Some (expires_at en)).

Lemma eligible_evictable policy protected k en :
  eligible policy protected (k, en) = true <-> evictable policy protected k en.
Proof.
  unfold eligible, evictable. cbn [fst snd].
  rewrite andb_true_iff, negb_true_iff, bool_decide_eq_false.
  destruct policy, (expires_at en); naive_solver.
Qed.

(** ** Candidate selection *)

Lemma keep_better_spec nanos e policy protected best i :
  match keep_better nanos e policy protected best i with
  | Some b => (best = Some b \/ eviction_candidate (nanos i) (lock e i) policy protected = Some (b.1.2, b.2)
                 /\ b.1.1 = i) /\
      (forall c, best = Some c -> b.2 <= c.2) /\
      (forall k sc, eviction_candidate (nanos i) (lock e i) policy protected = Some (k, sc) -> b.2 <= sc)
  | None => best = None /\ eviction_candidate (nanos i) (lock e i) policy protected = None
  end.
Proof.
  unfold keep_better.
  destruct (eviction_candidate _ _ _ _) as [[k sc]|], best as [[[i' k'] sc']|]; simpl;
    [destruct (sc <? sc') eqn:E; prop_tests; simpl| | |]; naive_solver lia.
Qed.

(** The scan finds a lowest score among the candidates of the shards. *)
Lemma scan_spec nanos e policy protected l best :
  match fold_left (keep_better nanos e policy protected) l best with
  | Some b => (best = Some b \/ b.1.1 ∈ l /\
                 eviction_candidate (nanos b.1.1) (lock e b.1.1) policy protected = Some (b.1.2, b.2)) /\
      (forall c, best = Some c -> b.2 <= c.2) /\
      (forall i k sc, i ∈ l ->
         eviction_candidate (nanos i) (lock e i) policy protected = Some (k, sc) -> b.2 <= sc)
  | None => best = None /\
      forall i, i ∈ l -> eviction_candidate (nanos i) (lock e i) policy protected = None
  end.
Proof.
  revert best. induction l as [|j l IH]; intros best; cbn [fold_left].
  { destruct best; [split; [by left|]; split; [by intros c [= ->]|set_solver]|set_solver]. }
  pose proof (keep_better_spec nanos e policy protected best j) as Hj.
  specialize (IH (keep_better nanos e policy protected best j)).
  destruct (fold_left _ l _) as [b|].
  - destruct IH as (Hmem & Hle & Hmin).
    destruct (keep_better nanos e policy protected best j) as [c|].
    + destruct Hj as (Hc & Hcle & Hcmin). specialize (Hle c eq_refl). repeat split.
      * destruct Hmem as [[= ->]|[? ?]]; [|right; set_solver].
        destruct Hc as [?|[? <-]]; [by left|right; set_solver].
      * intros c' Hc'. specialize (Hcle _ Hc'). lia.
      * intros i k sc Hi Hev. apply elem_of_cons in Hi as [->|Hi]; [|by eapply Hmin].
        specialize (Hcmin _ _ Hev). lia.
    + destruct Hj as [-> Hj]. destruct Hmem as [|[? ?]]; [done|]. repeat split; [right; set_solver|done|].
      intros i k sc Hi Hev. apply elem_of_cons in Hi as [->|Hi]; [congruence|by eapply Hmin].
  - destruct IH as [Hn Hl]. rewrite Hn in Hj. destruct Hj as [-> Hj]. split; [done|].
    intros i Hi. apply elem_of_cons in Hi as [->|Hi]; auto.
Qed.

Lemma best_candidate_sound nanos e policy protected i k score :
  best_candidate nanos e policy protected = Some (i, k, score) ->
  exists s en, shards e !! i = Some s /\ contents s !! k = Some en /\
    eligible policy protected (k, en) = true /\
    (by_access policy = true -> forall k' en', dataset e !! k' = Some en' ->
       eligible policy protected (k', en') = true -> last_accessed en <= last_accessed en').
Proof.
  unfold best_candidate. intros Hb.
  pose proof (scan_spec nanos e policy protected (seq 0 (length (shards e))) None) as H.
  rewrite Hb in H. simpl in H. destruct H as ([?|[Hi Hev]] & _ & Hmin); [done|].
  apply elem_of_seq in Hi. apply eviction_candidate_sound in Hev as (en & Hk & He & Hlru).
  exists (shards e !!! i), en. rewrite contents_lock in Hk. split; [apply list_lookup_lookup_total_lt; lia|].
  split; [done|]. split; [done|]. intros Hp k' en' Hk' He'. destruct (Hlru Hp) as [-> _].
  apply lookup_merged_Some in Hk' as (j & s & Hj & Hk').
  assert (Hc : contents (lock e j) !! k' = Some en')
    by by rewrite contents_lock, (list_lookup_total_correct _ _ _ Hj).
  destruct (eviction_candidate (nanos j) (lock e j) policy protected) as [[k2 sc]|] eqn:Ej.
  - apply lookup_lt_Some in Hj. specialize (Hmin j k2 sc).
    apply eviction_candidate_sound in Ej as Hs. destruct Hs as (en2 & _ & _ & Hs).
    destruct (Hs Hp) as [_ Hs']. specialize (Hs' k' en' Hc He').
    specialize (Hmin ltac:(apply elem_of_seq; lia) Ej). lia.
  - pose proof (eviction_candidate_complete _ _ _ _ _ _ Ej Hc). congruence.
Qed.

Lemma best_candidate_none nanos e policy protected :
  best_candidate nanos e policy protected = None ->
  forall k en, dataset e !! k = Some en -> eligible policy protected (k, en) = false.
Proof.
  unfold best_candidate. intros Hb k en Hk.
  pose proof (scan_spec nanos e policy protected (seq 0 (length (shards e))) None) as H.
  rewrite Hb in H. destruct H as [_ Hf].
  apply lookup_merged_Some in Hk as (i & s & Hi & Hk).
  eapply (eviction_candidate_complete (nanos i) (lock e i)).
  - apply Hf. apply elem_of_seq. apply lookup_lt_Some in Hi. lia.
  - by rewrite contents_lock, (list_lookup_total_correct _ _ _ Hi).
Qed.

(** ** The loop *)

(** What eviction from [e] to [e'] may have done. *)
Record evicts (clk : clock) (policy : EvictionPolicy) (protected : gset bytes)
    (e e' : OnyxEngine) (evicted : list (bytes * DataEntry)) : Prop := {
  evi_ok : engine_ok e';
  evi_keeps : engine_wf e ->
    engine_wf e' /\ snapshot_active e' = snapshot_active e /\ epochs e' = epochs e;
  evi_sub : dataset e' ⊆ dataset e;
  evi_once : NoDup evicted.*1;
  evi_evicted : forall k en, (k, en) ∈ evicted ->
    dataset e !! k = Some en /\ eligible policy protected (k, en) = true /\ dataset e' !! k = None;
  evi_account : forall k en, dataset e !! k = Some en ->
    dataset e' !! k = Some en \/ (k, en) ∈ evicted \/ exists i, expired_by (clk i) en = true;
  evi_oldest : by_access policy = true -> forall k en k' en', (k, en) ∈ evicted ->
    dataset e' !! k' = Some en' -> eligible policy protected (k', en') = true ->
    last_accessed en <= last_accessed en'
}.

Lemma m_sweep_sub clk m : m_sweep clk m ⊆ m.
Proof.
  apply map_subseteq_spec. intros k en. rewrite lookup_m_sweep.
  destruct (m !! k) as [en'|]; simpl; [|done]. by destruct (expired_by _ en').
Qed.

Lemma m_sweep_account (clk : clock) (m : gmap bytes DataEntry) (k : bytes) (en : DataEntry) :
  m !! k = Some en -> m_sweep clk m !! k = Some en \/ exists i, expired_by (clk i) en = true.
Proof.
  intros H. rewrite lookup_m_sweep, H. simpl.
  destruct (expired_by (clk (shard_for_key k)) en) eqn:E; [right; eauto|by left].
Qed.

Lemma evicts_sweep clk policy protected e (o : OnyxEngine * Z) x y :
  leaves o (m_sweep clk (dataset e)) x ->
  (engine_wf e -> runs_to e o (m_sweep clk (dataset e)) y) -> evicts clk policy protected e o.1 [].
Proof.
  intros (_ & Hd & Hok) Hw. constructor; [done| | |constructor|set_solver| |set_solver].
  - intros H. destruct (Hw H) as (_ & _ & ? & ? & ?). done.
  - rewrite Hd. apply m_sweep_sub.
  - intros k en Hk. rewrite Hd. destruct (m_sweep_account clk _ k en Hk); eauto.
Qed.

(** One round that removes the key [k]. *)
Lemma evicts_round clk policy protected e (o : OnyxEngine * Z) x y
    (o2 : OnyxEngine * option DataEntry) k en e' evicted :
  leaves o (m_sweep clk (dataset e)) x ->
  (engine_wf e -> runs_to e o (m_sweep clk (dataset e)) y) ->
  dataset o.1 !! k = Some en -> eligible policy protected (k, en) = true ->
  (by_access policy = true -> forall k' en', dataset o.1 !! k' = Some en' ->
     eligible policy protected (k', en') = true -> last_accessed en <= last_accessed en') ->
  leaves o2 (delete k (dataset o.1)) (c_live (clk 64%nat) (Some en)) ->
  (engine_wf o.1 -> runs_to o.1 o2 (delete k (dataset o.1)) (c_live (clk 64%nat) (Some en))) ->
  evicts (tick ROUND clk) policy protected o2.1 e' evicted ->
  evicts clk policy protected e e'
    (match o2.2 with Some entry => (k, entry) :: evicted | None => evicted end).
Proof.
  intros (_ & Hd & Hok) Hw Hk Hel Hold (Hx2 & Hd2 & Hok2) Hw2 [Iok Iw Is Io Iv Ic Il].
  assert (Hsub2 : dataset e' ⊆ m_sweep clk (dataset e)).
  { etrans; [exact Is|]. rewrite Hd2, Hd. apply delete_subseteq. }
  assert (Hsub : dataset e' ⊆ dataset e) by (etrans; [exact Hsub2|apply m_sweep_sub]).
  assert (Hk' : dataset e' !! k = None).
  { apply (lookup_weaken_None _ _ _ (lookup_delete_eq (dataset o.1) k)). by rewrite <- Hd2. }
  assert (Hke : dataset e !! k = Some en).
  { rewrite Hd in Hk. eapply lookup_weaken; [exact Hk|apply m_sweep_sub]. }
  assert (Hnin : k ∉ evicted.*1).
  { intros Hin. apply list_elem_of_fmap in Hin as ([k0 en0] & -> & Hin).
    apply Iv in Hin as (Hin & _). rewrite Hd2 in Hin. simpl in Hin.
    by rewrite lookup_delete_eq in Hin. }
  constructor; [done| |done| | | |].
  - intros H. destruct (Hw H) as (_ & _ & W1 & A1 & E1). destruct (Hw2 W1) as (_ & _ & W2 & A2 & E2).
    destruct (Iw W2) as (W3 & A3 & E3). split; [done|]. split; congruence.
  - destruct o2.2; [|done]. by constructor.
  - intros k1 en1 Hin.
    assert (Hin' : (k1, en1) ∈ evicted -> dataset e !! k1 = Some en1 /\
      eligible policy protected (k1, en1) = true /\ dataset e' !! k1 = None).
    { intros Hi. destruct (Iv _ _ Hi) as (H1 & H2 & H3). split; [|done].
      rewrite Hd2 in H1. eapply lookup_weaken, m_sweep_sub. rewrite <- Hd.
      eapply lookup_weaken; [exact H1|apply delete_subseteq]. }
    rewrite Hx2 in Hin. simpl in Hin. destruct (expired_by (clk 64%nat) en); [by apply Hin'|].
    apply elem_of_cons in Hin as [[= -> ->]|Hin]; [done|by apply Hin'].
  - intros k1 en1 Hk1. destruct (decide (k1 = k)) as [->|Hne].
    + assert (en1 = en) as -> by congruence. right. rewrite Hx2. simpl.
      destruct (expired_by (clk 64%nat) en) eqn:E; [right; eauto|left; set_solver].
    + destruct (m_sweep_account clk _ _ _ Hk1) as [Hs|Hs]; [|by right; right].
      destruct (Ic k1 en1) as [H|[H|[i H]]].
      * rewrite Hd2, lookup_delete_ne by done. by rewrite Hd.
      * by left.
      * right. left. destruct o2.2; set_solver.
      * right. right. by exists (ROUND + i)%nat.
  - intros Hp k1 en1 k2 en2 Hin H2 He2. rewrite Hx2 in Hin. simpl in Hin.
    destruct (expired_by (clk 64%nat) en); [by eapply Il|].
    apply elem_of_cons in Hin as [[= -> ->]|Hin]; [|by eapply Il].
    apply (Hold Hp k2); [|done]. rewrite Hd. by eapply lookup_weaken.
Qed.

Lemma evict_loop_spec fuel clk nanos e maxmemory policy protected acc :
  engine_ok e -> (size (dataset e) < fuel)%nat ->
  exists e' evicted,
    evict_loop fuel clk nanos e maxmemory policy protected acc = Some (e', acc ++ evicted) /\
    evicts clk policy protected e e' evicted /\
    (engine_wf e -> footprint (dataset e') <= maxmemory \/
     forall k en, dataset e' !! k = Some en -> eligible policy protected (k, en) = false).
Proof.
  revert clk nanos e acc. induction fuel as [|fuel IH]; intros clk nanos e acc Hok Hlt; [lia|].
  cbn [evict_loop]. pose proof (total_memory_acts clk e Hok) as Ht. cbv zeta in Ht.
  pose proof (total_memory_spec clk e) as Hts.
  destruct (engine_total_memory_bytes clk e) as [e1 used] eqn:Em.
  pose proof Ht as (_ & Hd & Hok1). cbn [fst snd] in Hd, Hok1.
  pose proof (evicts_sweep clk policy protected e _ _ _ Ht Hts) as Hs. cbn [fst] in Hs.
  destruct (used <=? maxmemory) eqn:Efit.
  { prop_tests. exists e1, []. rewrite app_nil_r. split; [done|]. split; [done|].
    intros Hw. left. destruct (Hts Hw) as (Hu & _). cbn [snd] in Hu. by rewrite Hd, <- Hu. }
  destruct (best_candidate nanos e1 policy protected) as [[[i k] score]|] eqn:Eb.
  2: { exists e1, []. rewrite app_nil_r. split; [done|]. split; [done|].
       intros _. right. by eapply best_candidate_none. }
  apply best_candidate_sound in Eb as (s & en & Hi & Hk & Hel & Hold).
  pose proof (eok_routed e1 Hok1 i s k en Hi Hk) as <-.
  assert (Hke : dataset e1 !! k = Some en) by (rewrite <- Hk; by eapply lookup_merged; [apply Hok1| |]).
  pose proof (remove_entry_acts (tick 64 clk) k e1 Hok1) as Hr.
  assert (Hrw : engine_wf e1 -> runs_to e1 (with_shard e1 (shard_for_key k)
      (fun s => shard_remove (tick 64 clk) s k)) (delete k (dataset e1)) (c_live (clk 64%nat) (Some en))).
  { intros Hw1. pose proof (remove_entry_refines (tick 64 clk) k e1 Hw1) as Hx. unfold c_remove in Hx.
    simpl in Hx. pose proof (footprint_delete_le k (dataset e1)). pose proof (ewf_fits e1 Hw1).
    specialize (Hx ltac:(lia)). by rewrite Hke in Hx. }
  unfold c_remove in Hr. simpl in Hr. rewrite Hke in Hr.
  destruct (with_shard e1 _ _) as [e2 removed] eqn:Ew.
  pose proof Hr as (Hx2 & Hd2 & Hok2). cbn [fst snd] in Hx2, Hd2, Hok2.
  set (acc' := match removed with Some entry => acc ++ [(k, entry)] | None => acc end).
  destruct (IH (tick ROUND clk) (fun i => nanos (64 + i)%nat) e2 acc' Hok2) as (e' & ev & -> & Hev & Hgoal).
  { rewrite Hd2. assert (size (delete k (dataset e1)) < size (dataset e1))%nat.
    { rewrite map_size_delete_Some by eauto.
      assert (size (dataset e1) <> 0)%nat; [|lia]. intros Hz.
      apply map_size_empty_inv in Hz. rewrite Hz in Hke. by rewrite lookup_empty in Hke. }
    pose proof (map_subseteq_size _ _ (evi_sub _ _ _ _ _ _ Hs)). lia. }
  exists e', (match removed with Some entry => (k, entry) :: ev | None => ev end).
  split; [subst acc'; destruct removed; by rewrite <- ?(assoc_L (++))|]. split.
  - by eapply (evicts_round clk policy protected e _ _ _ (e2, removed) k en e' ev Ht).
  - intros Hw. apply Hgoal. destruct (Hts Hw) as (_ & _ & Hw1 & _). cbn [fst] in Hw1.
    by destruct (Hrw Hw1) as (_ & _ & ? & _).
Qed.

Lemma ok_routed_from e : engine_ok e -> routed_from 0 (shards e).
Proof. intros Hok i s k en Hi Hk. by eapply (eok_routed e Hok). Qed.

Lemma stored_keys_size e : engine_ok e -> stored_keys e = size (dataset e).
Proof.
  intros Hok. unfold stored_keys. change (map ?f ?l) with (f <$> l).
  rewrite (Permutation_length (merged_entries 0 (shards e) (ok_routed_from e Hok))).
  by rewrite length_map_to_list.
Qed.

Lemma evict_to_fit_spec clk nanos e maxmemory policy protected :
  engine_ok e ->
  exists e' evicted,
    evict_to_fit clk nanos e maxmemory policy protected = Some (e', evicted) /\
    evicts clk policy protected e e' evicted /\
    (engine_wf e -> policy = NoEviction \/ maxmemory = 0 \/ footprint (dataset e') <= maxmemory \/
     forall k en, dataset e' !! k = Some en -> eligible policy protected (k, en) = false).
Proof.
  intros Hok. unfold evict_to_fit.
  destruct (bool_decide (policy = NoEviction) || (maxmemory =? 0)) eqn:E.
  - exists e, []. split; [done|]. split.
    + constructor; try done; [constructor|set_solver|by left|set_solver].
    + intros _. apply orb_true_iff in E as [E|E]; [left; by apply bool_decide_eq_true in E|].
      right. left. by prop_tests.
  - destruct (evict_loop_spec (S (stored_keys e)) clk nanos e maxmemory policy
      protected [] Hok) as (e' & ev & Heq & Hev & Hg).
    { rewrite (stored_keys_size e Hok). lia. }
    exists e', ev. split; [done|]. split; [done|]. intros Hw. destruct (Hg Hw); tauto.
Qed.

End Evict.
