(* ===== verification/EngineSnapshots.v ===== *)
(** * EngineSnapshots: snapshot epochs, dataset replacement, batched reads *)

From Stdlib Require Import ZArith Lia.
From Stdlib Require Import Strings.Byte.
From stdpp Require Import base gmap list strings numbers.
From S2P Require Import Prelude Text Json Value Shard ShardSpec Engine EngineSpec EngineMulti EngineWhole.

Open Scope Z_scope.

Section Snapshots.
Context {JN : JsonNumber} {SJ : SerdeJson} {HO : HashOrder}.

(** ** Changing the representation of the shards only *)

Definition same_shard (s s' : Shard) : Prop :=
  contents s' = contents s /\ key_count s' = key_count s /\ mem_bytes s' = mem_bytes s.

Lemma reshape_wf e ss' active :
  engine_wf e -> Forall2 same_shard (shards e) ss' ->
  (active = false -> forall i s, ss' !! i = Some s -> epoch (data s) = None) ->
  let e' := mkEngine JN ss' (engine_total e) active in
  dataset e' = dataset e /\ engine_wf e'.
Proof.
  intros Hw Hss Hact e'.
  assert (Hd : dataset e' = dataset e).
  { unfold dataset. simpl. clear -Hss. induction Hss as [|s s' ss ss' (Hc & _) _ IH]; [done|].
    simpl. by rewrite Hc, IH. }
  split; [done|]. destruct Hw as [Hl Hr Hc Ht Hf Hfl]. constructor; simpl.
  - rewrite <- Hl. symmetry. by eapply Forall2_length.
  - intros i s k en Hi Hk. destruct (Forall2_lookup_r _ _ _ _ _ Hss Hi) as (s0 & Hi0 & Hc0 & _).
    rewrite Hc0 in Hk. by eapply Hr.
  - intros i s Hi. destruct (Forall2_lookup_r _ _ _ _ _ Hss Hi) as (s0 & Hi0 & -> & -> & ->).
    by apply (Hc i).
  - fold (dataset e'). by rewrite Hd.
  - fold (dataset e'). by rewrite Hd.
  - done.
Qed.

Lemma mapM_begin_snapshot ss :
  (forall i s, ss !! i = Some s -> epoch (data s) = None) ->
  exists captured, mapM (fun s => sd_begin_snapshot (data s)) ss = Some captured /\
    Forall2 (fun s (c : ShardData * gmap bytes DataEntry) =>
      view c.1 = contents s /\ c.2 = contents s /\ epoch c.1 = Some (contents s)) ss captured.
Proof.
  induction ss as [|s ss IH]; intros Hf; [by exists []|].
  destruct IH as (cs & Hcs & HF); [intros i s' Hi; by apply (Hf (S i))|].
  specialize (Hf 0%nat s eq_refl). unfold contents in *.
  destruct (data s) as [m|] eqn:Ed; [|done]. simpl. rewrite Hcs, Ed. simpl.
  eexists. split; [done|]. constructor; [|done]. rewrite Ed. split; [|done]. simpl.
  apply map_eq. intros k. rewrite lookup_merge, lookup_empty. by destruct (m !! k).
Qed.

(** [begin_snapshot] succeeds outside an epoch, changes nothing logically and
    captures exactly the entries that are live at the capture boundary. *)
Lemma begin_snapshot_spec clk e :
  engine_wf e -> snapshot_active e = false ->
  exists e' v, engine_begin_snapshot clk e = Some (e', v) /\
    dataset e' = dataset e /\ engine_wf e' /\ snapshot_active e' = true /\
    epochs e' = snap_shards v /\ captured_at v = clk 0%nat /\
    snap_shards v = (fun s => Some (contents s)) <$> shards e.
Proof.
  intros Hw Ha. unfold engine_begin_snapshot. rewrite Ha.
  destruct (mapM_begin_snapshot (shards e)) as (cs & -> & HF).
  { intros i s Hi. by eapply (ewf_flat e Hw). }
  simpl. do 2 eexists. split; [done|].
  destruct (reshape_wf e (zip_with (fun s (c : ShardData * gmap bytes DataEntry) => with_data s c.1)
    (shards e) cs) true Hw) as [Hd Hwf].
  { clear -HF. induction HF as [|s c ss cs (H1 & H2) _ IH]; simpl; constructor; done. }
  { done. }
  split; [done|]. split; [done|]. split; [done|].
  unfold epochs. simpl. clear -HF. split; [|split; [done|]].
  - induction HF as [|s c ss cs (H1 & H2 & H3) _ IH]; simpl; [done|].
    f_equal; [congruence|exact IH].
  - induction HF as [|s c ss cs (H1 & H2 & H3) _ IH]; simpl; [done|].
    f_equal; [congruence|exact IH].
Qed.

Lemma snapshot_live_spec (t : Z) (m : gmap bytes DataEntry) :
  snapshot_live t m ≡ₚ map_to_list (live_map t m).
Proof.
  rewrite live_entries. unfold snapshot_live. rewrite hm_iter_perm.
  erewrite list_filter_iff; [done|]. intros [k en]. simpl. unfold expired_by.
  destruct (expires_at en) as [x|]; [|done].
  destruct (t <? x) eqn:E1, (x <=? t) eqn:E2; prop_tests; try done; lia.
Qed.

Lemma live_map_union (t : Z) (m1 m2 : gmap bytes DataEntry) :
  m1 ##ₘ m2 -> live_map t (m1 ∪ m2) = live_map t m1 ∪ live_map t m2 /\
  live_map t m1 ##ₘ live_map t m2.
Proof.
  intros Hd. split.
  - apply map_eq. intros k. rewrite lookup_live_map, !lookup_union, !lookup_live_map.
    specialize (Hd k). destruct (m1 !! k) as [e1|], (m2 !! k) as [e2|]; simpl in *; try done;
      by destruct (expired_by t _).
  - apply map_disjoint_spec. intros k x y H1 H2. eapply (map_disjoint_spec m1 m2); [done| |].
    + eapply lookup_weaken, live_map_sub. exact H1.
    + eapply lookup_weaken, live_map_sub. exact H2.
Qed.

(** The entries of a full view are the live part of the captured dataset. *)
Lemma snapshot_entries_spec e v :
  engine_wf e -> snap_shards v = (fun s => Some (contents s)) <$> shards e ->
  snapshot_entries v ≡ₚ map_to_list (live_map (captured_at v) (dataset e)).
Proof.
  intros Hw Hv. unfold snapshot_entries, dataset. rewrite Hv.
  pose proof (wf_routed_from e Hw) as Hr. revert Hr. generalize 0%nat. clear Hv Hw.
  induction (shards e) as [|s ss IH]; intros n Hr; simpl.
  - unfold live_map. by rewrite omap_empty, map_to_list_empty.
  - apply routed_from_cons in Hr as [Hr Hd]. destruct (live_map_union (captured_at v) _ _ Hd) as [-> Hd'].
    rewrite union_entries by done. rewrite snapshot_live_spec. by rewrite (IH _ Hr).
Qed.

Lemma finish_snapshot_spec e :
  engine_wf e -> snapshot_active e = true ->
  exists e', engine_finish_snapshot e = Some e' /\ dataset e' = dataset e /\
    engine_wf e' /\ snapshot_active e' = false.
Proof.
  intros Hw Ha. unfold engine_finish_snapshot. rewrite Ha. eexists. split; [done|].
  destruct (reshape_wf e ((fun s => with_data s (sd_finish_snapshot (data s)).1) <$> shards e) false Hw)
    as [Hd Hwf].
  - apply Forall2_fmap_r, Forall_Forall2_diag, list.Forall_true. intros s. split; [|done].
    unfold contents. simpl. apply sd_finish_snapshot_spec.
  - intros _ i s Hi. apply list_lookup_fmap_Some in Hi as (s0 & -> & _). simpl.
    by destruct (data s0).
  - done.
Qed.

(** Finishing one shard of the epoch leaves the dataset alone. *)
Lemma finish_snapshot_shard_spec e i s base :
  engine_wf e -> snapshot_active e = true -> shards e !! i = Some s ->
  epoch (data s) = Some base ->
  exists e', engine_finish_snapshot_shard e i = Some e' /\ dataset e' = dataset e /\
    engine_wf e' /\ snapshot_active e' = true /\ epochs e' = <[i := None]> (epochs e).
Proof.
  intros Hw Ha Hi Hb. unfold engine_finish_snapshot_shard.
  rewrite (list_lookup_total_correct _ _ _ Hi).
  pose proof (sd_finish_snapshot_spec (data s)) as Hv.
  destruct (data s) as [|b0 ch] eqn:Ed; [done|]. cbn [sd_finish_snapshot fst] in *.
  eexists. split; [done|]. rewrite Ha.
  match goal with |- context [mkEngine JN ?ss _ _] =>
    destruct (reshape_wf e ss true Hw) as [Hd Hwf] end.
  - rewrite <- (list_insert_id (shards e) i s Hi) at 1. apply Forall2_insert.
    + apply Forall_Forall2_diag, list.Forall_true. done.
    + split; [|done]. unfold contents. simpl. by rewrite Ed.
  - done.
  - split; [done|]. split; [done|]. split; [done|]. unfold epochs. simpl. by rewrite list_fmap_insert.
Qed.

(** ** Replacing the dataset *)

Lemma cleared_wf (clk : clock) (ss : list Shard) :
  length ss = Z.to_nat NUM_SHARDS ->
  let e := mkEngine JN (imap (fun i s =>
    bump (mkShard JN (Flat ∅) (op_count s) (last_modified s) 0 0 0) (clk i)) ss) 0 false in
  engine_wf e /\ dataset e = ∅.
Proof.
  intros Hl e.
  assert (Hc : forall i s, shards e !! i = Some s ->
    data s = Flat ∅ /\ key_count s = 0 /\ mem_bytes s = 0).
  { intros i s Hi. simpl in Hi. rewrite list_lookup_imap in Hi.
    apply fmap_Some in Hi as (s0 & _ & ->). done. }
  assert (Hce : forall i s, shards e !! i = Some s -> contents s = ∅).
  { intros i s Hi. unfold contents. by destruct (Hc i s Hi) as (-> & _). }
  assert (Hd : dataset e = ∅).
  { apply map_empty. intros k. apply lookup_merged_None. intros i s Hi. by rewrite (Hce i s Hi). }
  split; [|done]. constructor.
  - simpl. by rewrite length_imap.
  - intros i s k en Hi. rewrite (Hce i s Hi). by rewrite lookup_empty.
  - intros i s Hi. rewrite (Hce i s Hi). destruct (Hc i s Hi) as (_ & -> & ->). done.
  - by rewrite Hd.
  - rewrite Hd. vm_compute. done.
  - intros _ i s Hi. by destruct (Hc i s Hi) as (-> & _).
Qed.

(** Inserting a list of entries with distinct keys one by one. *)
Lemma insert_all_spec clk entries e :
  engine_wf e -> NoDup entries.*1 ->
  (forall k, k ∈ entries.*1 -> dataset e !! k = None) ->
  footprint (list_to_map entries ∪ dataset e) <= USIZE_MAX ->
  let e' := fold_left (fun e (ke : bytes * DataEntry) =>
    (with_shard e (shard_for_key ke.1) (fun s => shard_insert clk s ke.1 ke.2)).1) entries e in
  engine_wf e' /\ dataset e' = list_to_map entries ∪ dataset e /\
  snapshot_active e' = snapshot_active e.
Proof.
  revert e. induction entries as [|[k en] l IH]; intros e Hw Hnd Hfresh Hfit; cbn [fold_left].
  - split; [done|]. split; [|done]. simpl. by rewrite (left_id_L ∅ (∪)).
  - apply list.NoDup_cons in Hnd as [Hnin Hnd]. simpl in Hfit.
    assert (Hsub : <[k := en]> (dataset e) ⊆ <[k := en]> (list_to_map l) ∪ dataset e).
    { rewrite <- insert_union_l. apply insert_mono, map_union_subseteq_r.
      apply map_disjoint_spec. intros k' x y Hx Hy. apply elem_of_list_to_map_2 in Hx.
      rewrite (Hfresh k') in Hy; [done|]. apply elem_of_cons. right.
      apply list_elem_of_fmap. by exists (k', x). }
    destruct (insert_entry_refines clk k en e Hw) as (_ & Hd & Hw1 & Ha1 & _).
    { simpl. pose proof (footprint_mono _ _ Hsub). lia. }
    simpl in Hd. cbn [fst snd] in *.
    assert (Hcomm : list_to_map l ∪ <[k := en]> (dataset e) =
                    <[k := en]> (list_to_map l) ∪ dataset e).
    { rewrite <- insert_union_l, insert_union_r; [done|].
      by apply not_elem_of_list_to_map_1. }
    destruct (IH _ Hw1 Hnd) as (Hw' & Hd' & Ha').
    + intros k' Hk'. rewrite Hd. rewrite lookup_insert_ne by (intros ->; done).
      apply Hfresh. set_solver.
    + rewrite Hd, Hcomm. done.
    + split; [done|]. split; [|congruence]. rewrite Hd', Hd. by rewrite Hcomm.
Qed.

(** [replace_all] installs exactly the given entries. *)
Lemma replace_all_spec clk e entries :
  engine_wf e -> snapshot_active e = false -> NoDup entries.*1 ->
  footprint (list_to_map entries) <= USIZE_MAX ->
  exists e', engine_replace_all clk e entries = Some e' /\ engine_wf e' /\
    dataset e' = list_to_map entries /\ snapshot_active e' = false.
Proof.
  intros Hw Ha Hnd Hfit. unfold engine_replace_all. rewrite Ha. eexists. split; [done|].
  destruct (cleared_wf clk (shards e) (ewf_length e Hw)) as [Hw0 Hd0].
  destruct (insert_all_spec (tick 64 clk) entries _ Hw0 Hnd) as (Hw' & Hd' & Ha').
  - intros k _. by rewrite Hd0.
  - by rewrite Hd0, (right_id_L ∅ (∪)).
  - split; [done|]. split; [|done]. by rewrite Hd', Hd0, (right_id_L ∅ (∪)).
Qed.

End Snapshots.

(** * Copying a dataset out of one engine into another

    What [snapshot_all] reports and what [replace_all] installs, on engines of
    any size: the accounting may have saturated. *)

From S2P Require Import JsonPath EngineActs.

Section Rebuild.
Context {JN : JsonNumber} {SJ : SerdeJson} {HO : HashOrder}.

(** A sweep that reports on every shard it leaves. *)
Lemma for_shards_report {R} (f : nat -> Shard -> Shard * R) (g : Shard -> R) e :
  (forall i s, (f i s).2 = g (f i s).1) ->
  (for_shards e f).2 = g <$> shards (for_shards e f).1.
Proof.
  intros Hf.
  pose proof (for_shards_ind f (fun n e' rs => length (shards e') = length (shards e) /\
    rs = g <$> take n (shards e')) e) as H.
  destruct H as [Hl Hr].
  - by rewrite take_0.
  - intros i e' rs Hi [Hl ->]. unfold with_shard. specialize (Hf i (lock e' i)).
    destruct (f i (lock e' i)) as [s' r]. cbn [fst snd] in *. subst r.
    simpl. rewrite length_insert. split; [done|].
    rewrite (take_S_r _ i s') by (apply list_lookup_insert_eq; lia).
    rewrite fmap_app, take_insert_ge by lia. done.
  - rewrite Hr at 1. rewrite <- Hl at 1. by rewrite firstn_all.
Qed.

Lemma routed_from_0 ss : routed ss -> routed_from 0 ss.
Proof. intros Hr i s k en Hi Hk. exact (Hr i s k en Hi Hk). Qed.

(** [snapshot_all] copies every live entry once. *)
Lemma snapshot_all_acts clk e :
  engine_ok e ->
  let out := engine_snapshot_all clk e in
  leaves out (m_sweep clk (dataset e)) out.2 /\ out.2 ≡ₚ map_to_list (m_sweep clk (dataset e)).
Proof.
  intros Hok. unfold engine_snapshot_all. destruct (for_shards e _) as [e' rs] eqn:E.
  match type of E with for_shards _ ?f = _ =>
    destruct (sweep_acts clk f e Hok) as [Hok' Hd];
      [by intros i s; destruct (expire_keys _ _)|];
    pose proof (for_shards_report f (fun s => sd_visit (data s)) e) as Hr
  end.
  rewrite E in *. cbn [fst snd] in *. split; [done|].
  rewrite <- Hd, Hr by (intros i s; by destruct (expire_keys _ _)).
  apply (merged_entries 0), routed_from_0, Hok'.
Qed.

Lemma cleared_ok (clk : clock) (ss : list Shard) :
  length ss = Z.to_nat NUM_SHARDS ->
  let e := mkEngine JN (imap (fun i s =>
    bump (mkShard JN (Flat ∅) (op_count s) (last_modified s) 0 0 0) (clk i)) ss) 0 false in
  engine_ok e /\ dataset e = ∅.
Proof. intros Hl e. destruct (cleared_wf clk ss Hl) as [Hw Hd]. split; [by apply engine_wf_ok|done]. Qed.

Lemma insert_all_acts clk entries e :
  engine_ok e -> NoDup entries.*1 ->
  let e' := fold_left (fun e (ke : bytes * DataEntry) =>
    (with_shard e (shard_for_key ke.1) (fun s => shard_insert clk s ke.1 ke.2)).1) entries e in
  engine_ok e' /\ dataset e' = list_to_map entries ∪ dataset e.
Proof.
  revert e. induction entries as [|[k en] l IH]; intros e Hok Hnd; cbn [fold_left].
  - split; [done|]. simpl. by rewrite (left_id_L ∅ (∪)).
  - apply list.NoDup_cons in Hnd as [Hnin Hnd].
    destruct (insert_entry_acts clk k en e Hok) as (_ & Hd & Hok1). simpl in Hd. cbn [fst snd].
    destruct (IH _ Hok1 Hnd) as [Hok' Hd']. split; [done|].
    rewrite Hd', Hd. simpl. rewrite <- insert_union_l, insert_union_r; [done|].
    by apply not_elem_of_list_to_map_1.
Qed.

(** [replace_all] installs exactly the given entries. *)
Lemma replace_all_acts clk e entries :
  engine_ok e -> snapshot_active e = false -> NoDup entries.*1 ->
  exists e', engine_replace_all clk e entries = Some e' /\ engine_ok e' /\
    dataset e' = list_to_map entries /\
    (footprint (list_to_map entries) <= USIZE_MAX -> engine_wf e').
Proof.
  intros Hok Ha Hnd. unfold engine_replace_all. rewrite Ha. eexists. split; [done|].
  destruct (cleared_ok clk (shards e) (eok_length e Hok)) as [Hok0 Hd0].
  destruct (insert_all_acts (tick 64 clk) entries _ Hok0 Hnd) as [Hok' Hd'].
  split; [done|]. split; [by rewrite Hd', Hd0, (right_id_L ∅ (∪))|]. intros Hfit.
  destruct (cleared_wf clk (shards e) (eok_length e Hok)) as [Hw0 _].
  apply (insert_all_spec (tick 64 clk) entries _ Hw0 Hnd).
  - intros k _. by rewrite Hd0.
  - by rewrite Hd0, (right_id_L ∅ (∪)).
Qed.

End Rebuild.
