(* ===== verification/EngineTrace.v ===== *)
(** * EngineTrace: sequences of engine operations

    Batched reads, and the refinement of a whole sequence of operations on the
    64 shards by the same sequence on one map with expirations. *)

From Stdlib Require Import ZArith Lia.
From Stdlib Require Import Strings.Byte.
From stdpp Require Import base gmap list strings numbers.
From S2P Require Import Prelude Text Json Value Shard ShardSpec Engine EngineSpec EngineMulti EngineWhole EngineEvict EngineSnapshots.

Open Scope Z_scope.

Section Batched.
Context {JN : JsonNumber} {SJ : SerdeJson} {HO : HashOrder}.

(** The answer a read at time [t] gives for a cell. *)
Definition read_at (t : Z) (o : option DataEntry) : option DataEntry :=
  (fun en => set_accessed_field en t) <$> c_live t o.

Definition monotone (clk : clock) : Prop := forall i j, (i <= j)%nat -> clk i <= clk j.

Lemma expired_by_mono t t' en : t <= t' -> expired_by t en = true -> expired_by t' en = true.
Proof. unfold expired_by. destruct (expires_at en); intros; prop_tests; [apply Z.leb_le; lia|done]. Qed.

Lemma read_at_read_at t t' o : t <= t' -> read_at t' (read_at t o) = read_at t' o.
Proof.
  intros Ht. unfold read_at. destruct o as [en|]; simpl; [|done].
  destruct (expired_by t en) eqn:E; simpl.
  - by rewrite (expired_by_mono t t' en).
  - unfold expired_by at 1. simpl. fold (expired_by t' en). by destruct (expired_by t' en).
Qed.

Lemma footprint_read_at (t : Z) (k : bytes) (m : gmap bytes DataEntry) :
  footprint (set_cell k (read_at t (m !! k)) m) <= footprint m.
Proof.
  rewrite footprint_set_cell. unfold read_at.
  destruct (m !! k) as [en|]; simpl; [|lia]. pose proof (approx_entry_size_bounds k en).
  destruct (expired_by t en); simpl; [lia|].
  change (approx_entry_size k (set_accessed_field en t)) with (approx_entry_size k en). lia.
Qed.

(** Cells of [m'] differ from those of [m] by earlier reads only. *)
Definition read_since (clk : clock) (n : nat) (m m' : gmap bytes DataEntry) : Prop :=
  forall k, m' !! k = m !! k \/ exists j, (j < n)%nat /\ m' !! k = read_at (clk j) (m !! k).

Definition answered (clk : clock) (m : gmap bytes DataEntry) (k : bytes) (r : option DataEntry)
  : Prop := exists j, r = read_at (clk j) (m !! k).

Definition mget_step (clk : clock) (acc : OnyxEngine * list (option DataEntry) * nat)
    (ik : nat * bytes) : OnyxEngine * list (option DataEntry) * nat :=
  let '(e, results, n) := acc in
  let '(e, r) := with_shard e (shard_for_key ik.2) (fun s => shard_get (tick n clk) s ik.2) in
  (e, <[ik.1 := r]> results, S n).

Lemma mget_fold clk e (keys : list bytes) work :
  monotone clk -> (forall ik, ik ∈ work -> keys !! ik.1 = Some ik.2) ->
  forall e1 rs n, engine_wf e1 -> read_since clk n (dataset e) (dataset e1) ->
  length rs = length keys ->
  let '(e2, rs2, n2) := fold_left (mget_step clk) work (e1, rs, n) in
  engine_wf e2 /\ snapshot_active e2 = snapshot_active e1 /\ epochs e2 = epochs e1 /\
  read_since clk n2 (dataset e) (dataset e2) /\ length rs2 = length keys /\
  forall i k r, keys !! i = Some k -> rs2 !! i = Some r ->
    (i ∉ work.*1 -> rs !! i = Some r) /\ (i ∈ work.*1 -> answered clk (dataset e) k r).
Proof.
  intros Hmono. induction work as [|[i k] work IH]; intros Hwork e1 rs n Hw1 Hsince Hlen.
  - cbn [fold_left]. split; [done|]. split; [done|]. split; [done|]. split; [done|].
    split; [done|]. intros i k r Hk Hr. split; [done|set_solver].
  - cbn [fold_left]. unfold mget_step at 2. cbn [fst snd].
    destruct (get_refines (tick n clk) k e1 Hw1) as (Hx & Hd & Hw2 & Ha2 & He2).
    { unfold c_get. cbn [fst]. pose proof (footprint_read_at (tick n clk 0%nat) k (dataset e1)).
      pose proof (ewf_fits e1 Hw1). unfold read_at in *. lia. }
    unfold engine_get, c_get in Hx, Hd, Hw2, Ha2, He2. cbn [fst snd] in Hx, Hd.
    replace (tick n clk 0%nat) with (clk n) in Hx, Hd by (unfold tick; f_equal; lia).
    fold (read_at (clk n) (dataset e1 !! k)) in Hx, Hd.
    assert (Hread : read_at (clk n) (dataset e1 !! k) = read_at (clk n) (dataset e !! k)).
    { destruct (Hsince k) as [->|(j & Hj & ->)]; [done|]. apply read_at_read_at, Hmono. lia. }
    rewrite Hread in Hx, Hd.
    destruct (with_shard e1 (shard_for_key k) _) as [e2 r]. cbn [fst snd] in *.
    assert (Hs2 : read_since clk (S n) (dataset e) (dataset e2)).
    { intros k'. rewrite Hd. destruct (decide (k' = k)) as [->|Hne].
      - rewrite lookup_set_cell_eq. right. exists n. split; [lia|done].
      - rewrite lookup_set_cell_ne by done. destruct (Hsince k') as [H|(j & Hj & H)]; [by left|].
        right. exists j. split; [lia|done]. }
    specialize (IH ltac:(set_solver) e2 (<[i := r]> rs) (S n) Hw2 Hs2
      ltac:(by rewrite length_insert)).
    destruct (fold_left (mget_step clk) work (e2, <[i := r]> rs, S n)) as [[e3 rs3] n3].
    destruct IH as (Hw3 & Ha3 & He3 & Hs3 & Hl3 & Hres).
    split; [done|]. split; [congruence|]. split; [congruence|]. split; [done|]. split; [done|].
    intros i' k' r' Hk' Hr'. destruct (Hres i' k' r' Hk' Hr') as [Hout Hin]. simpl. split.
    + intros Hnin. rewrite <- Hout by set_solver. rewrite list_lookup_insert_ne; [done|set_solver].
    + intros Hi'. destruct (decide (i' ∈ work.*1)) as [Hd1|Hd1]; [by apply Hin|].
      assert (i' = i) as -> by set_solver.
      specialize (Hout Hd1). rewrite list_lookup_insert_eq in Hout.
      * exists n. pose proof (Hwork (i, k) ltac:(set_solver)). simpl in *. congruence.
      * rewrite Hlen. by eapply lookup_lt_Some.
Qed.

Lemma mget_work (keys : list bytes) i k :
  let work := concat (map (fun s => filter (fun ik : nat * bytes => shard_for_key ik.2 = s)
                (imap (fun i k => (i, k)) keys)) (seq 0 (Z.to_nat NUM_SHARDS))) in
  (i, k) ∈ work <-> keys !! i = Some k.
Proof.
  intros work. subst work. rewrite list_elem_of_In, in_concat.
  setoid_rewrite in_map_iff. setoid_rewrite <- list_elem_of_In. split.
  - intros (l & (s & <- & _) & Hin). apply list_elem_of_filter in Hin as [_ Hin].
    apply elem_of_lookup_imap in Hin as (j & k' & Heq & Hj). by simplify_eq.
  - intros Hk. eexists. split.
    + exists (shard_for_key k). split; [done|]. apply elem_of_seq.
      pose proof (shard_for_key_lt k). unfold NUM_SHARDS. lia.
    + apply list_elem_of_filter. split; [done|]. apply elem_of_lookup_imap. by exists i, k.
Qed.

(** A batched read answers every request, in request order, as a single read. *)
Lemma mget_spec clk e keys :
  engine_wf e -> monotone clk ->
  let out := engine_mget clk e keys in
  engine_wf out.1 /\ snapshot_active out.1 = snapshot_active e /\ epochs out.1 = epochs e /\
  length out.2 = length keys /\
  forall i k r, keys !! i = Some k -> out.2 !! i = Some r -> answered clk (dataset e) k r.
Proof.
  intros Hw Hmono. unfold engine_mget.
  match goal with |- context [fold_left _ ?work _] => set (w := work) end.
  change (fold_left _ w (e, replicate (length keys) None, 0%nat)) with
    (fold_left (mget_step clk) w (e, replicate (length keys) None, 0%nat)).
  pose proof (mget_fold clk e keys w Hmono) as Hf.
  specialize (Hf ltac:(intros [i k] Hin; by apply mget_work) e (replicate (length keys) None) 0%nat Hw).
  specialize (Hf ltac:(intros k; by left) ltac:(by rewrite length_replicate)).
  destruct (fold_left (mget_step clk) w _) as [[e' rs] n].
  destruct Hf as (Hw' & Ha & He & _ & Hl & Hres).
  split; [done|]. split; [done|]. split; [done|]. split; [done|].
  intros i k r Hk Hr. apply (Hres i k r Hk Hr). apply list_elem_of_fmap. exists (i, k).
  split; [done|]. by apply mget_work.
Qed.

End Batched.

(** ** Sequences of operations *)

Inductive EngineOp {JN : JsonNumber} (R : Type) : Type :=
| OpGet (key : bytes)
| OpPeek (key : bytes)
| OpApplyEntry (key : bytes) (entry : DataEntry)
| OpSet (key : bytes) (v : OnyxValue) (expires : option Z)
| OpDelete (key : bytes)
| OpRead (key : bytes) (f : DataEntry -> R)
| OpUpdate (key : bytes) (f : OnyxValue -> OnyxValue * R)
| OpUpdateAction (key : bytes) (f : OnyxValue -> OnyxValue * EntryMutation R)
| OpUpsert (key : bytes) (dflt : OnyxValue) (f : OnyxValue -> OnyxValue * R)
| OpUpsertPresence (key : bytes) (dflt : OnyxValue) (f : OnyxValue -> bool -> OnyxValue * R)
| OpUpsertEntry (key : bytes) (dflt : OnyxValue) (f : DataEntry -> bool -> DataEntry * R)
| OpSetExpiry (key : bytes) (timestamp : Z)
| OpSetExpiryConditional (key : bytes) (timestamp : Z) (require_expiry : option bool)
| OpSetConditional (key : bytes) (v : OnyxValue) (expires : option Z) (condition : option bool)
| OpSetIfAbsent (key : bytes) (v : OnyxValue)
| OpRename (from to : bytes)
| OpCopy (from to : bytes)
| OpTotalMemory
| OpGcExpired.
Arguments OpGet {JN R} key.
Arguments OpPeek {JN R} key.
Arguments OpApplyEntry {JN R} key entry.
Arguments OpSet {JN R} key v expires.
Arguments OpDelete {JN R} key.
Arguments OpRead {JN R} key f.
Arguments OpUpdate {JN R} key f.
Arguments OpUpdateAction {JN R} key f.
Arguments OpUpsert {JN R} key dflt f.
Arguments OpUpsertPresence {JN R} key dflt f.
Arguments OpUpsertEntry {JN R} key dflt f.
Arguments OpSetExpiry {JN R} key timestamp.
Arguments OpSetExpiryConditional {JN R} key timestamp require_expiry.
Arguments OpSetConditional {JN R} key v expires condition.
Arguments OpSetIfAbsent {JN R} key v.
Arguments OpRename {JN R} from to.
Arguments OpCopy {JN R} from to.
Arguments OpTotalMemory {JN R}.
Arguments OpGcExpired {JN R}.

Inductive OpResult {JN : JsonNumber} (R : Type) : Type :=
| REntry (o : option DataEntry)
| RFlag (b : bool)
| RValue (o : option R)
| RCount (n : Z).
Arguments REntry {JN R} o.
Arguments RFlag {JN R} b.
Arguments RValue {JN R} o.
Arguments RCount {JN R} n.

Section Traces.
Context {JN : JsonNumber} {SJ : SerdeJson} {HO : HashOrder} {R : Type}.

Definition with_result {S A} (wrap : A -> OpResult R) (out : S * A) : S * OpResult R :=
  (out.1, wrap out.2).

(** The operation on the sharded engine. *)
Definition run_op (clk : clock) (e : OnyxEngine) (op : EngineOp R) : OnyxEngine * OpResult R :=
  match op with
  | OpGet k => with_result REntry (engine_get clk e k)
  | OpPeek k => with_result REntry (engine_peek clk e k)
  | OpApplyEntry k en => with_result REntry (engine_apply_entry clk e k en)
  | OpSet k v x => with_result REntry (engine_set clk e k v x)
  | OpDelete k => with_result RFlag (engine_delete clk e k)
  | OpRead k f => with_result RValue (engine_read clk e k f)
  | OpUpdate k f => with_result RValue (engine_update_if_exists clk e k f)
  | OpUpdateAction k f => with_result RValue (engine_update_if_exists_with_action clk e k f)
  | OpUpsert k d f => with_result RValue (engine_update_or_insert clk e k d f)
  | OpUpsertPresence k d f =>
    with_result RValue (engine_update_or_insert_with_presence clk e k d f)
  | OpUpsertEntry k d f =>
    with_result RValue (engine_update_entry_or_insert_with_presence clk e k d f)
  | OpSetExpiry k t => with_result RFlag (engine_set_expiry clk e k t)
  | OpSetExpiryConditional k t req => with_result RFlag (engine_set_expiry_conditional clk e k t req)
  | OpSetConditional k v x c => with_result RFlag (engine_set_conditional clk e k v x c)
  | OpSetIfAbsent k v => with_result RFlag (engine_set_if_absent clk e k v)
  | OpRename a b => with_result RFlag (engine_rename clk e a b)
  | OpCopy a b => with_result RFlag (engine_copy clk e a b)
  | OpTotalMemory => with_result RCount (engine_total_memory_bytes clk e)
  | OpGcExpired => with_result RCount (engine_gc_expired clk e)
  end.

(** A cell operation on a map. *)
Definition on_cell {A} (k : bytes) (c : cell A) (m : gmap bytes DataEntry)
  : gmap bytes DataEntry * A :=
  (set_cell k (c (m !! k)).1 m, (c (m !! k)).2).

(** The operation on one map. *)
Definition spec_op (clk : clock) (m : gmap bytes DataEntry) (op : EngineOp R)
  : gmap bytes DataEntry * OpResult R :=
  match op with
  | OpGet k => with_result REntry (on_cell k (c_get clk) m)
  | OpPeek k => with_result REntry (on_cell k (c_peek clk) m)
  | OpApplyEntry k en => with_result REntry (on_cell k (c_apply clk en) m)
  | OpSet k v x => with_result REntry (on_cell k (c_set clk v x) m)
  | OpDelete k => with_result RFlag (on_cell k (c_delete clk) m)
  | OpRead k f => with_result RValue (on_cell k (c_read clk f) m)
  | OpUpdate k f => with_result RValue (on_cell k (c_update clk f) m)
  | OpUpdateAction k f => with_result RValue (on_cell k (c_update_action clk f) m)
  | OpUpsert k d f => with_result RValue (on_cell k (c_upsert clk d f) m)
  | OpUpsertPresence k d f => with_result RValue (on_cell k (c_upsert_presence clk d f) m)
  | OpUpsertEntry k d f => with_result RValue (on_cell k (c_upsert_entry clk d f) m)
  | OpSetExpiry k t => with_result RFlag (on_cell k (c_set_expiry clk t None) m)
  | OpSetExpiryConditional k t req => with_result RFlag (on_cell k (c_set_expiry clk t req) m)
  | OpSetConditional k v x c => with_result RFlag (on_cell k (c_set_conditional clk v x c) m)
  | OpSetIfAbsent k v =>
    with_result RFlag
      (on_cell k (c_insert_if_absent (tick 1 clk) (mkEntry JN v None (clk 0%nat) (clk 0%nat))) m)
  | OpRename a b => with_result RFlag (m_rename clk a b m)
  | OpCopy a b => with_result RFlag (m_copy clk a b m)
  | OpTotalMemory => (m_sweep clk m, RCount (footprint (m_sweep clk m)))
  | OpGcExpired =>
    (m_sweep clk m, RCount (Z.of_nat (size m) - Z.of_nat (size (m_sweep clk m))))
  end.

Lemma run_to_wrap {A} e (out : OnyxEngine * A) m x (wrap : A -> OpResult R) :
  runs_to e out m x -> runs_to e (with_result wrap out) m (wrap x).
Proof. intros (Hx & Hd & H). unfold with_result. split; [simpl; by rewrite Hx|done]. Qed.

Lemma run_op_refines clk e op :
  engine_wf e -> footprint (spec_op clk (dataset e) op).1 <= USIZE_MAX ->
  runs_to e (run_op clk e op) (spec_op clk (dataset e) op).1 (spec_op clk (dataset e) op).2.
Proof.
  intros Hw Hfit. destruct op; cbn [run_op spec_op with_result on_cell fst snd] in *;
    apply run_to_wrap.
  - exact (get_refines clk key e Hw Hfit).
  - exact (peek_refines clk key e Hw Hfit).
  - exact (apply_entry_refines clk key entry e Hw Hfit).
  - exact (set_refines clk key v expires e Hw Hfit).
  - exact (delete_refines clk key e Hw Hfit).
  - exact (read_refines clk key f e Hw Hfit).
  - exact (update_refines clk key f e Hw Hfit).
  - exact (update_action_refines clk key f e Hw Hfit).
  - exact (upsert_refines clk key dflt f e Hw Hfit).
  - exact (upsert_presence_refines clk key dflt f e Hw Hfit).
  - exact (upsert_entry_refines clk key dflt f e Hw Hfit).
  - exact (set_expiry_refines clk key timestamp e Hw Hfit).
  - exact (set_expiry_conditional_refines clk key timestamp require_expiry e Hw Hfit).
  - exact (set_conditional_refines clk key v expires condition e Hw Hfit).
  - exact (set_if_absent_refines clk key v e Hw Hfit).
  - by apply rename_refines.
  - by apply copy_refines.
  - by apply total_memory_spec.
  - by apply gc_expired_spec.
Qed.

Fixpoint run_ops (e : OnyxEngine) (ops : list (clock * EngineOp R))
  : OnyxEngine * list (OpResult R) :=
  match ops with
  | [] => (e, [])
  | (clk, op) :: ops =>
    let '(e, r) := run_op clk e op in
    let '(e, rs) := run_ops e ops in (e, r :: rs)
  end.

Fixpoint spec_ops (m : gmap bytes DataEntry) (ops : list (clock * EngineOp R))
  : gmap bytes DataEntry * list (OpResult R) :=
  match ops with
  | [] => (m, [])
  | (clk, op) :: ops =>
    let '(m, r) := spec_op clk m op in
    let '(m, rs) := spec_ops m ops in (m, r :: rs)
  end.

(** Every state of the run is small enough for the memory counters. *)
Fixpoint ops_fit (m : gmap bytes DataEntry) (ops : list (clock * EngineOp R)) : Prop :=
  match ops with
  | [] => True
  | (clk, op) :: ops =>
    footprint (spec_op clk m op).1 <= USIZE_MAX /\ ops_fit (spec_op clk m op).1 ops
  end.

Lemma run_ops_refines ops e :
  engine_wf e -> ops_fit (dataset e) ops ->
  runs_to e (run_ops e ops) (spec_ops (dataset e) ops).1 (spec_ops (dataset e) ops).2.
Proof.
  revert e. induction ops as [|[clk op] ops IH]; intros e Hw Hfit; [done|].
  cbn [run_ops spec_ops ops_fit] in *. destruct Hfit as [Hfit Hrest].
  pose proof (run_op_refines clk e op Hw Hfit) as H1.
  destruct (run_op clk e op) as [e1 r1]. destruct (spec_op clk (dataset e) op) as [m1 r1'].
  pose proof H1 as (Hx & Hd & Hw1 & _). cbn [fst snd] in *. subst r1'. rewrite <- Hd in Hrest |- *.
  specialize (IH e1 Hw1 Hrest). destruct (run_ops e1 ops) as [e2 rs].
  destruct (spec_ops (dataset e1) ops) as [m2 rs'].
  apply (runs_to_trans _ _ _ _ _ _ _ H1) in IH. cbn [fst snd] in *.
  destruct IH as (Hx2 & IH). cbn [snd] in Hx2. subst rs'. done.
Qed.

End Traces.
