(* ===== verification/StoreSnapshot.v ===== *)
(** * StoreSnapshot: materialising a snapshot while the store is written to (src/store.rs)

    [into_entries] copies and releases one shard at a time; other threads take
    the shard locks in between.  [between] is what they do at each of those
    points. *)

From Stdlib Require Import ZArith Lia.
From Stdlib Require Import Strings.Byte.
From stdpp Require Import base gmap list strings numbers.
From S2P Require Import Prelude Text Json Value Shard ShardSpec Engine EngineSpec EngineMulti EngineWhole EngineSnapshots EngineTrace.

Open Scope Z_scope.

Section Materialise.
Context {JN : JsonNumber} {SJ : SerdeJson} {HO : HashOrder}.

(** The loop of [into_entries] from shard [i] on, for [n] shards; [None] is a
    failed assertion. *)
Fixpoint copy_shards (between : nat -> OnyxEngine -> OnyxEngine) (n i : nat) (e : OnyxEngine)
    (v : EngineSnapshot) (entries : list (bytes * DataEntry))
  : option (OnyxEngine * list (bytes * DataEntry)) :=
  match n with
  | O => Some (e, entries)
  | S n =>
    entries ← append_shard_entries v i entries;
    v ← release_shard v i;
    e ← engine_finish_snapshot_shard (between (2 * i)%nat e) i;
    copy_shards between n (S i) (between (2 * i + 1)%nat e) v entries
  end.

Definition into_entries (between : nat -> OnyxEngine -> OnyxEngine) (e : OnyxEngine)
    (v : EngineSnapshot) : option (OnyxEngine * list (bytes * DataEntry)) :=
  '(e, entries) ← copy_shards between (length (snap_shards v)) 0 e v [];
  e ← engine_finish_snapshot e;
  Some (e, entries).

(** Dropping a snapshot that was not materialised. *)
Definition drop_snapshot (e : OnyxEngine) (view : option EngineSnapshot) : option OnyxEngine :=
  match view with
  | Some _ => engine_finish_snapshot e
  | None => Some e
  end.

Context {R : Type}.

(** Other threads run these operations. *)
Definition threads (ops : nat -> list (clock * EngineOp R)) (j : nat) (e : OnyxEngine) : OnyxEngine :=
  (run_ops e (ops j)).1.

Lemma ops_fit_app m (l l' : list (clock * EngineOp R)) :
  ops_fit m (l ++ l') <-> ops_fit m l /\ ops_fit (spec_ops m l).1 l'.
Proof.
  revert m. induction l as [|[clk op] l IH]; intros m; cbn [app ops_fit spec_ops fst]; [tauto|].
  rewrite IH. destruct (spec_op clk m op) as [m1 r]. cbn [fst].
  destruct (spec_ops m1 l) as [m2 rs]. cbn [fst]. tauto.
Qed.

Lemma spec_ops_app m (l l' : list (clock * EngineOp R)) :
  (spec_ops m (l ++ l')).1 = (spec_ops (spec_ops m l).1 l').1.
Proof.
  revert m. induction l as [|[clk op] l IH]; intros m; cbn [app spec_ops fst]; [done|].
  destruct (spec_op clk m op) as [m1 r]. specialize (IH m1).
  destruct (spec_ops m1 (l ++ l')), (spec_ops m1 l). done.
Qed.

(** What the threads run from point [j] on, for [n] shards. *)
Definition schedule (ops : nat -> list (clock * EngineOp R)) (j n : nat) : list (clock * EngineOp R) :=
  concat (map ops (seq j (2 * n))).

Lemma schedule_S ops i n :
  schedule ops (2 * i) (S n) = ops (2 * i)%nat ++ ops (2 * i + 1)%nat ++ schedule ops (2 * S i) n.
Proof.
  unfold schedule. replace (2 * S n)%nat with (S (S (2 * n))) by lia. cbn [seq map concat].
  replace (S (2 * i)) with (2 * i + 1)%nat by lia.
  replace (S (2 * i + 1)) with (2 * S i)%nat by lia. done.
Qed.

(** The live entries of the shards of a view from [i] on. *)
Definition entries_from (v : EngineSnapshot) (i : nat) : list (bytes * DataEntry) :=
  snapshot_entries (mkSnapshot JN (drop i (snap_shards v)) (captured_at v) (entry_capacity v)).

Lemma copy_shards_spec ops n i e v entries :
  engine_wf e -> snapshot_active e = true -> epochs e = snap_shards v ->
  (i + n = length (snap_shards v))%nat ->
  (forall j, (i <= j < length (snap_shards v))%nat -> exists m, snap_shards v !! j = Some (Some m)) ->
  ops_fit (dataset e) (schedule ops (2 * i) n) ->
  exists e', copy_shards (threads ops) n i e v entries = Some (e', entries ++ entries_from v i) /\
    engine_wf e' /\ snapshot_active e' = true /\
    dataset e' = (spec_ops (dataset e) (schedule ops (2 * i) n)).1.
Proof.
  revert i e v entries. induction n as [|n IH]; intros i e v entries Hw Ha He Hlen Hm Hfit.
  { exists e. cbn [copy_shards]. split; [|done]. unfold entries_from, snapshot_entries.
    cbn [snap_shards]. rewrite drop_ge by lia. by rewrite app_nil_r. }
  destruct (Hm i) as [m Hi]; [lia|]. cbn [copy_shards]. unfold append_shard_entries, release_shard.
  rewrite Hi. cbn [mbind option_bind]. rewrite schedule_S in Hfit |- *.
  apply ops_fit_app in Hfit as [Hf1 Hf2]. apply ops_fit_app in Hf2 as [Hf2 Hf3].
  destruct (run_ops_refines (ops (2 * i)%nat) e Hw Hf1) as (_ & Hd1 & Hw1 & Ha1 & He1).
  fold (threads ops (2 * i) e) in Hd1, Hw1, Ha1, He1. set (e1 := threads ops (2 * i) e) in *.
  assert (Hs : exists s, shards e1 !! i = Some s /\ epoch (data s) = Some m).
  { rewrite <- He, <- He1 in Hi. unfold epochs in Hi. apply list_lookup_fmap_Some in Hi as (s & -> & Hi).
    by exists s. }
  destruct Hs as (s & Hs & Hep).
  destruct (finish_snapshot_shard_spec e1 i s m Hw1) as (e2 & -> & Hd2 & Hw2 & Ha2 & He2);
    [congruence|done|done|]. cbn [mbind option_bind].
  rewrite <- Hd1, <- Hd2 in Hf2.
  destruct (run_ops_refines (ops (2 * i + 1)%nat) e2 Hw2 Hf2) as (_ & Hd3 & Hw3 & Ha3 & He3).
  fold (threads ops (2 * i + 1) e2) in Hd3, Hw3, Ha3, He3. set (e3 := threads ops (2 * i + 1) e2) in *.
  set (v' := mkSnapshot JN (<[i:=None]> (snap_shards v)) (captured_at v) (entry_capacity v)).
  destruct (IH (S i) e3 v' (entries ++ snapshot_live (captured_at v) m)) as (e' & -> & Hw' & Ha' & Hd').
  - done.
  - congruence.
  - rewrite He3, He2, He1, He. done.
  - simpl. rewrite length_insert. lia.
  - intros j Hj. simpl in Hj |- *. rewrite length_insert in Hj.
    rewrite list_lookup_insert_ne by lia. apply Hm. lia.
  - rewrite Hd3, Hd2, Hd1. done.
  - exists e'. split; [|split; [done|]; split; [done|]].
    + rewrite <- (assoc_L (++)). do 4 f_equal. unfold entries_from, snapshot_entries. cbn [snap_shards v' captured_at].
      rewrite (drop_S _ _ _ Hi). cbn [map concat]. f_equal.
      rewrite drop_insert_lt by lia. done.
    + rewrite Hd', Hd3, Hd2, Hd1. by rewrite !spec_ops_app.
Qed.

Lemma snapshot_copy_spec clk e ops :
  engine_wf e -> snapshot_active e = false -> ops_fit (dataset e) (schedule ops 0 64) ->
  exists e1 v e2 entries,
    engine_begin_snapshot clk e = Some (e1, v) /\
    into_entries (threads ops) e1 v = Some (e2, entries) /\
    entries ≡ₚ map_to_list (live_map (clk 0%nat) (dataset e)) /\
    dataset e2 = (spec_ops (dataset e) (schedule ops 0 64)).1 /\
    engine_wf e2 /\ snapshot_active e2 = false.
Proof.
  intros Hw Ha Hfit.
  destruct (begin_snapshot_spec clk e Hw Ha) as (e1 & v & E1 & Hd1 & Hw1 & Ha1 & He1 & Hc1 & Hv).
  assert (Hlen : length (snap_shards v) = 64%nat).
  { rewrite Hv, length_fmap. apply (ewf_length e Hw). }
  exists e1, v.
  destruct (copy_shards_spec ops 64 0 e1 v []) as (e2 & E2 & Hw2 & Ha2 & Hd2);
    [done|done|done|by rewrite Hlen| |by rewrite Hd1|].
  { intros j Hj. destruct (lookup_lt_is_Some_2 (snap_shards v) j) as [o Ho]; [lia|].
    rewrite Ho. rewrite Hv in Ho. apply list_lookup_fmap_Some in Ho as (s & -> & _). eauto. }
  destruct (finish_snapshot_spec e2 Hw2 Ha2) as (e3 & E3 & Hd3 & Hw3 & Ha3).
  exists e3, (entries_from v 0). split; [done|]. split; [|split; [|split; [|done]]].
  - unfold into_entries. rewrite Hlen, E2. cbn [mbind option_bind]. by rewrite E3.
  - rewrite <- Hc1. unfold entries_from. rewrite drop_0. destruct v as [vs cap n].
    by apply snapshot_entries_spec.
  - by rewrite Hd3, Hd2, Hd1.
Qed.

End Materialise.
