(* ===== verification/Store.v ===== *)
(** * Store: the typed storage facade (src/store.rs)

    Every operation is one critical section of the engine with a closure over
    the value it finds.  An operation is a [prog]: it takes the store and
    returns the new store and a result, or [None] where the source panics.
    Admission control and the engine's snapshots are in Admission.v. *)

From Stdlib Require Import ZArith Lia.
From Stdlib Require Import Strings.Byte.
From stdpp Require Import base gmap list strings numbers.
From S2P Require Import Prelude Text Json JsonPath Value Shard Engine.

Open Scope Z_scope.

Definition MAX_KEYS : Z := 1000000.

Record ShardedStore {JN : JsonNumber} : Type := mkStore {
  engine : OnyxEngine;
  maxmemory_bytes : Z;
  maxmemory_policy : EvictionPolicy
}.

Inductive StoreError : Type := WrongType.

Definition StoreError_message (e : StoreError) : bytes :=
  match e with
  | WrongType => bs "WRONGTYPE Operation against a key holding the wrong kind of value"
  end.

(** ** Programs on the store *)

Definition with_engine {JN : JsonNumber} (st : ShardedStore) (e : OnyxEngine) : ShardedStore :=
  mkStore JN e (maxmemory_bytes st) (maxmemory_policy st).

Definition prog {JN : JsonNumber} (A : Type) : Type :=
  ShardedStore -> option (ShardedStore * A).

#[global] Instance prog_ret {JN : JsonNumber} : MRet prog := fun A a st => Some (st, a).
#[global] Instance prog_bind {JN : JsonNumber} : MBind prog := fun A B f m st =>
  match m st with Some (st', a) => f a st' | None => None end.

Lemma bind_run {JN : JsonNumber} {A B} (m : prog A) (f : A -> prog B) st st' a :
  m st = Some (st', a) -> (m ≫= f) st = f a st'.
Proof. intros H. unfold mbind, prog_bind. by rewrite H. Qed.

(** One critical section of the engine. *)
Definition on_engine {JN : JsonNumber} {R} (f : OnyxEngine -> OnyxEngine * R) : prog R := fun st =>
  let '(e, r) := f (engine st) in Some (with_engine st e, r).

(** A critical section whose [expect] would panic on [None]. *)
Definition on_engine_expect {JN : JsonNumber} {R} (f : OnyxEngine -> OnyxEngine * option R)
  : prog R := fun st =>
  let '(e, r) := f (engine st) in
  match r with Some r => Some (with_engine st e, r) | None => None end.

Definition is_some {A} (o : option A) : bool := match o with Some _ => true | None => false end.

(** [Option<Result<A, E>>::transpose]. *)
Definition transpose {E A} (o : option (result E A)) : result E (option A) :=
  match o with
  | Some (Ok a) => Ok (Some a)
  | Some (Err e) => Err e
  | None => Ok None
  end.

Section Pure.
Context {JN : JsonNumber} {SJ : SerdeJson} {HO : HashOrder}.

(** ** What the closures do to a value *)

Definition read_string (entry : DataEntry) : result StoreError bytes :=
  match value entry with
  | Blob b => Ok (Utf8.from_utf8_lossy b)
  | Int n => Ok (print_i64 n)
  | _ => Err WrongType
  end.

Definition err_not_integer : bytes := bs "ERR value is not an integer".
Definition err_overflow : bytes := bs "ERR increment or decrement would overflow".

Definition incrby_value (delta : Z) (v : OnyxValue) : OnyxValue * result bytes Z :=
  match
    match v with
    | Int n => Ok n
    | Blob b =>
      ok_or (match Utf8.from_utf8 b with Some s => parse_i64 s | None => None end) err_not_integer
    | _ => Err err_not_integer
    end
  with
  | Err e => (v, Err e)
  | Ok current =>
    match checked_add_i64 current delta with
    | None => (v, Err err_overflow)
    | Some new_val => (Int new_val, Ok new_val)
    end
  end.

Definition append_value (suffix : bytes) (v : OnyxValue) : OnyxValue * result StoreError Z :=
  match
    match v with
    | Blob b => Ok (Utf8.from_utf8_lossy b)
    | Int n => Ok (print_i64 n)
    | _ => Err WrongType
    end
  with
  | Err e => (v, Err e)
  | Ok s => (Blob (s ++ suffix), Ok (len (s ++ suffix)))
  end.

Definition getset_entry (new_value : bytes) (entry : DataEntry) (existed : bool)
  : DataEntry * result StoreError (option bytes) :=
  match read_string entry with
  | Err e => (entry, Err e)
  | Ok old =>
    (set_expires_field (set_value_field entry (Blob new_value)) None,
     Ok (if existed then Some old else None))
  end.

Definition lpush_value (item : bytes) (v : OnyxValue) : OnyxValue * result StoreError Z :=
  match v with
  | VList l => (VList (item :: l), Ok (len (item :: l)))
  | _ => (v, Err WrongType)
  end.

Definition rpush_value (item : bytes) (v : OnyxValue) : OnyxValue * result StoreError Z :=
  match v with
  | VList l => (VList (l ++ [item]), Ok (len (l ++ [item])))
  | _ => (v, Err WrongType)
  end.

(** The entry is deleted together with its last element. *)
Definition pop_action (rest : list bytes) (item : bytes)
  : EntryMutation (result StoreError (option bytes)) :=
  let result := Ok (Some (Utf8.from_utf8_lossy item)) in
  match rest with [] => Delete result | _ => Keep result end.

Definition lpop_value (v : OnyxValue)
  : OnyxValue * EntryMutation (result StoreError (option bytes)) :=
  match v with
  | VList (item :: rest) => (VList rest, pop_action rest item)
  | VList [] => (v, Keep (Ok None))
  | _ => (v, Keep (Err WrongType))
  end.

Definition rpop_value (v : OnyxValue)
  : OnyxValue * EntryMutation (result StoreError (option bytes)) :=
  match v with
  | VList l =>
    match list.last l with
    | Some item => (VList (removelast l), pop_action (removelast l) item)
    | None => (v, Keep (Ok None))
    end
  | _ => (v, Keep (Err WrongType))
  end.

(** Inclusive bounds, negative indices from the end, clamped. *)
Definition lrange_slice {A} (l : list A) (start stop : Z) : list A :=
  let n := len l in
  if n =? 0 then []
  else
    let norm idx := if idx <? 0 then Z.max (n + idx) 0 else idx in
    let s := norm start in
    let e := norm stop in
    if (n - 1 <? s) || (e <? s) then []
    else
      let e := if n - 1 <? e then n - 1 else e in
      slice l s (e + 1).

Definition hset_value (field value : bytes) (v : OnyxValue) : OnyxValue * result StoreError bool :=
  match v with
  | Hash h => (Hash (<[field := value]> h), Ok (negb (is_some (h !! field))))
  | _ => (v, Err WrongType)
  end.

Definition hdel_value (field : bytes) (v : OnyxValue)
  : OnyxValue * EntryMutation (result StoreError bool) :=
  match v with
  | Hash h =>
    let removed := is_some (h !! field) in
    let h := delete field h in
    (Hash h, if removed && bool_decide (h = ∅) then Delete (Ok removed) else Keep (Ok removed))
  | _ => (v, Keep (Err WrongType))
  end.

Definition sadd_value (member : bytes) (v : OnyxValue) : OnyxValue * result StoreError bool :=
  match v with
  | VSet s => (VSet ({[member]} ∪ s), Ok (negb (bool_decide (member ∈ s))))
  | _ => (v, Err WrongType)
  end.

Definition srem_value (member : bytes) (v : OnyxValue)
  : OnyxValue * EntryMutation (result StoreError bool) :=
  match v with
  | VSet s =>
    let removed := bool_decide (member ∈ s) in
    let s := s ∖ {[member]} in
    (VSet s, if removed && bool_decide (s = ∅) then Delete (Ok removed) else Keep (Ok removed))
  | _ => (v, Keep (Err WrongType))
  end.

Definition json_set_root (new_value : Value) (v : OnyxValue) (_ : bool)
  : OnyxValue * result bytes unit :=
  match v with
  | Json _ => (Json new_value, Ok tt)
  | _ => (v, Err (StoreError_message WrongType))
  end.

Definition json_set_partial (segments : list JsonPathSegment) (new_value : Value) (v : OnyxValue)
  : OnyxValue * option bool :=
  match v with
  | Json root => let '(root, ok) := set_json_path root segments new_value in (Json root, Some ok)
  | _ => (v, None)
  end.

Definition json_del_root (v : OnyxValue) : OnyxValue * EntryMutation (result bytes bool) :=
  match v with
  | Json _ => (v, Delete (Ok true))
  | _ => (v, Keep (Err (StoreError_message WrongType)))
  end.

Definition json_del_partial (segments : list JsonPathSegment) (v : OnyxValue)
  : OnyxValue * option bool :=
  match v with
  | Json root => let '(root, ok) := delete_json_path root segments in (Json root, Some ok)
  | _ => (v, None)
  end.

Definition json_numincrby_value (segments : list JsonPathSegment) (delta : Z) (v : OnyxValue)
  : OnyxValue * option (result bytes Z) :=
  match v with
  | Json root => let '(root, r) := numincrby_json_path root segments delta in (Json root, Some r)
  | _ => (v, None)
  end.

Definition json_arrappend_value (segments : list JsonPathSegment) (new_value : Value)
    (v : OnyxValue) : OnyxValue * option (result bytes Z) :=
  match v with
  | Json root => let '(root, r) := arrappend_json_path root segments new_value in (Json root, Some r)
  | _ => (v, None)
  end.

Definition json_type_name (v : Value) : bytes :=
  match v with
  | JNull => bs "null"
  | JBool _ => bs "boolean"
  | JNumber _ => bs "number"
  | JString _ => bs "string"
  | JArray _ => bs "array"
  | JObject _ => bs "object"
  end.

Definition as_array (v : Value) : option (list Value) :=
  match v with JArray l => Some l | _ => None end.
Definition as_object (v : Value) : option (list (bytes * Value)) :=
  match v with JObject m => Some m | _ => None end.

Definition value_type_name (v : OnyxValue) : bytes :=
  match v with
  | Blob _ => bs "string"
  | Int _ => bs "int"
  | Float _ => bs "float"
  | VList _ => bs "list"
  | Hash _ => bs "hash"
  | VSet _ => bs "set"
  | Json _ => bs "json"
  | Vector _ => bs "vector"
  end.

End Pure.

(** [is_expired], at the clock reading [now]. *)
Definition is_expired {JN : JsonNumber} (now : Z) (entry : DataEntry) : bool :=
  match expires_at entry with Some exp => exp <=? now | None => false end.

(** ** Glob matching *)

(** The main loop of [glob_match] on characters, from the state of its four
    variables.  It ends: [fuel] is computed by [glob_match]. *)
Fixpoint glob_loop (fuel : nat) (p t : list bytes) (p_idx t_idx : nat)
    (star_idx : option nat) (match_idx : nat) : option (nat * bool) :=
  match fuel with
  | O => None
  | S fuel =>
    match t !! t_idx with
    | None => Some (p_idx, true)
    | Some c =>
      if bool_decide (p !! p_idx = Some c) then
        glob_loop fuel p t (S p_idx) (S t_idx) star_idx match_idx
      else if bool_decide (p !! p_idx = Some (bs "*")) then
        glob_loop fuel p t (S p_idx) t_idx (Some p_idx) t_idx
      else
        match star_idx with
        | Some star => glob_loop fuel p t (S star) (S match_idx) star_idx (S match_idx)
        | None => Some (p_idx, false)
        end
    end
  end.

(** The loop over trailing stars and the final comparison. *)
Definition glob_tail (p : list bytes) (p_idx : nat) : bool :=
  bool_decide (drop_while (fun c => bytes_eqb c (bs "*")) (drop p_idx p) = []).

(** Each round either moves [p_idx] or, at most once per text position, moves
    [match_idx] and resets [p_idx]. *)
Definition glob_fuel (p t : list bytes) : nat :=
  S ((length t + 1) * (length p + 1) + length p).

Definition glob_match (pattern text : bytes) : option bool :=
  let p := Utf8.chars pattern in
  let t := Utf8.chars text in
  match glob_loop (glob_fuel p t) p t 0 0 None 0 with
  | Some (p_idx, true) => Some (glob_tail p p_idx)
  | Some (_, false) => Some false
  | None => None
  end.

Section Ops.
Context {JN : JsonNumber} {SJ : SerdeJson} {HO : HashOrder}.

Definition store_with_maxmemory (bytes_limit : Z) (policy : EvictionPolicy) : ShardedStore :=
  mkStore JN engine_new bytes_limit policy.

Definition store_new : ShardedStore := store_with_maxmemory 0 NoEviction.

(** ** Raw entries *)

Definition peek_entry (clk : clock) (key : bytes) : prog (option DataEntry) :=
  on_engine (fun e => engine_peek clk e key).

Definition get_entry (clk : clock) (key : bytes) : prog (option DataEntry) :=
  on_engine (fun e => engine_get clk e key).

Definition store_apply_entry (clk : clock) (key : bytes) (entry : DataEntry)
  : prog (option DataEntry) :=
  on_engine (fun e => engine_apply_entry clk e key entry).

Definition set_value (clk : clock) (key : bytes) (v : OnyxValue) (expires : option Z)
  : prog (option DataEntry) :=
  on_engine (fun e => engine_set clk e key v expires).

Definition delete_bytes (clk : clock) (key : bytes) : prog bool :=
  on_engine (fun e => engine_delete clk e key).

Definition set_conditional_value (clk : clock) (key : bytes) (v : OnyxValue)
    (expires : option Z) (condition : option bool) : prog bool :=
  on_engine (fun e => engine_set_conditional clk e key v expires condition).

Definition raw_entries (clk : clock) : prog (list (bytes * DataEntry)) :=
  on_engine (fun e => engine_snapshot_all clk e).

(** ** Strings *)

Definition store_set (clk : clock) (key v : bytes) : prog unit :=
  _ ← on_engine (fun e => engine_set clk e key (Blob v) None); mret tt.

Definition set_raw (clk : clock) (key : bytes) (entry : DataEntry) : prog unit :=
  _ ← on_engine (fun e => engine_set clk e key (value entry) (expires_at entry)); mret tt.

Definition store_get (clk : clock) (key : bytes) : prog (result StoreError (option bytes)) :=
  r ← on_engine (fun e => engine_read clk e key read_string); mret (transpose r).

Definition get_raw (clk : clock) (key : bytes) : prog (option DataEntry) :=
  on_engine (fun e => engine_get clk e key).

Definition store_delete (clk : clock) (key : bytes) : prog bool :=
  on_engine (fun e => engine_delete clk e key).

Definition store_exists (clk : clock) (key : bytes) : prog bool :=
  o ← on_engine (fun e => engine_peek clk e key); mret (is_some o).

Definition expire_at (clk : clock) (key : bytes) (timestamp : Z) : prog bool :=
  on_engine (fun e => engine_set_expiry clk e key timestamp).

(** [expire] reads the clock once before the engine does. *)
Definition expire (clk : clock) (key : bytes) (seconds : Z) : prog bool :=
  expire_at (tick 1 clk) key (sat_add (clk 0%nat) seconds).

(** The closure reads the clock after the engine has. *)
Definition ttl_of (now : Z) (entry : DataEntry) : Z :=
  match expires_at entry with
  | Some exp =>
    let remaining := sat_sub exp now in
    if remaining =? 0 then -2
    else if remaining <=? I64_MAX then remaining else I64_MAX
  | None => -1
  end.

Definition ttl (clk : clock) (key : bytes) : prog Z :=
  r ← on_engine (fun e => engine_read clk e key (ttl_of (clk 1%nat)));
  mret (match r with Some t => t | None => -2 end).

Definition incrby (clk : clock) (key : bytes) (delta : Z) : prog (result bytes Z) :=
  on_engine_expect (fun e => engine_update_or_insert clk e key (Int 0) (incrby_value delta)).

Definition incr (clk : clock) (key : bytes) : prog (result bytes Z) := incrby clk key 1.

Definition store_append (clk : clock) (key suffix : bytes) : prog (result StoreError Z) :=
  on_engine_expect (fun e => engine_update_or_insert clk e key (Blob []) (append_value suffix)).

Definition strlen (clk : clock) (key : bytes) : prog (result StoreError Z) :=
  r ← store_get clk key;
  mret (match r with
        | Ok (Some v) => Ok (len v)
        | Ok None => Ok 0
        | Err e => Err e
        end).

Definition getset (clk : clock) (key new_value : bytes) : prog (result StoreError (option bytes)) :=
  on_engine_expect (fun e =>
    engine_update_entry_or_insert_with_presence clk e key (Blob []) (getset_entry new_value)).

Definition setnx (clk : clock) (key v : bytes) : prog bool :=
  on_engine (fun e => engine_set_if_absent clk e key (Blob v)).

(** ** Lists *)

Definition lpush (clk : clock) (key item : bytes) : prog (result StoreError Z) :=
  on_engine_expect (fun e => engine_update_or_insert clk e key (VList []) (lpush_value item)).

Definition rpush (clk : clock) (key item : bytes) : prog (result StoreError Z) :=
  on_engine_expect (fun e => engine_update_or_insert clk e key (VList []) (rpush_value item)).

Definition unwrap_or {A} (d : A) (o : option A) : A := match o with Some a => a | None => d end.

Definition lpop (clk : clock) (key : bytes) : prog (result StoreError (option bytes)) :=
  r ← on_engine (fun e => engine_update_if_exists_with_action clk e key lpop_value);
  mret (unwrap_or (Ok None) r).

Definition rpop (clk : clock) (key : bytes) : prog (result StoreError (option bytes)) :=
  r ← on_engine (fun e => engine_update_if_exists_with_action clk e key rpop_value);
  mret (unwrap_or (Ok None) r).

Definition lrange (clk : clock) (key : bytes) (start stop : Z)
  : prog (result StoreError (list bytes)) :=
  r ← on_engine (fun e => engine_read clk e key (fun entry =>
        match value entry with
        | VList l => Ok (map Utf8.from_utf8_lossy (lrange_slice l start stop))
        | _ => Err WrongType
        end));
  mret (unwrap_or (Ok []) r).

Definition llen (clk : clock) (key : bytes) : prog (result StoreError Z) :=
  r ← on_engine (fun e => engine_read clk e key (fun entry =>
        match value entry with VList l => Ok (len l) | _ => Err WrongType end));
  mret (unwrap_or (Ok 0) r).

(** ** Hashes *)

Definition hset (clk : clock) (key field v : bytes) : prog (result StoreError bool) :=
  on_engine_expect (fun e => engine_update_or_insert clk e key (Hash ∅) (hset_value field v)).

Definition hget (clk : clock) (key field : bytes) : prog (result StoreError (option bytes)) :=
  r ← on_engine (fun e => engine_read clk e key (fun entry =>
        match value entry with
        | Hash h => Ok (Utf8.from_utf8_lossy <$> h !! field)
        | _ => Err WrongType
        end));
  mret (unwrap_or (Ok None) r).

Definition hgetall (clk : clock) (key : bytes) : prog (result StoreError (list (bytes * bytes))) :=
  r ← on_engine (fun e => engine_read clk e key (fun entry =>
        match value entry with
        | Hash h => Ok (map (fun kv : bytes * bytes =>
                          (Utf8.from_utf8_lossy kv.1, Utf8.from_utf8_lossy kv.2)) (hm_iter h))
        | _ => Err WrongType
        end));
  mret (unwrap_or (Ok []) r).

Definition hdel (clk : clock) (key field : bytes) : prog (result StoreError bool) :=
  r ← on_engine (fun e => engine_update_if_exists_with_action clk e key (hdel_value field));
  mret (unwrap_or (Ok false) r).

Definition hkeys (clk : clock) (key : bytes) : prog (result StoreError (list bytes)) :=
  r ← hgetall clk key; mret ((fun l => map fst l) <$> r).

Definition hvals (clk : clock) (key : bytes) : prog (result StoreError (list bytes)) :=
  r ← hgetall clk key; mret ((fun l => map snd l) <$> r).

(** ** Sets *)

Definition sadd (clk : clock) (key member : bytes) : prog (result StoreError bool) :=
  on_engine_expect (fun e => engine_update_or_insert clk e key (VSet ∅) (sadd_value member)).

Definition smembers (clk : clock) (key : bytes) : prog (result StoreError (list bytes)) :=
  r ← on_engine (fun e => engine_read clk e key (fun entry =>
        match value entry with
        | VSet s => Ok (map Utf8.from_utf8_lossy (hs_iter s))
        | _ => Err WrongType
        end));
  mret (unwrap_or (Ok []) r).

Definition srem (clk : clock) (key member : bytes) : prog (result StoreError bool) :=
  r ← on_engine (fun e => engine_update_if_exists_with_action clk e key (srem_value member));
  mret (unwrap_or (Ok false) r).

Definition sismember (clk : clock) (key member : bytes) : prog (result StoreError bool) :=
  r ← on_engine (fun e => engine_read clk e key (fun entry =>
        match value entry with
        | VSet s => Ok (bool_decide (member ∈ s))
        | _ => Err WrongType
        end));
  mret (unwrap_or (Ok false) r).

(** ** JSON *)

Definition err_json_path : bytes := bs "ERR invalid JSON path".
Definition err_unreachable : bytes :=
  bs "ERR path not reachable (intermediate element missing or index out of bounds)".
Definition err_no_document : bytes :=
  bs "ERR key does not exist: use JSON.SET key $ {...} to create it".

Definition json_set (clk : clock) (key path : bytes) (new_value : Value)
  : prog (result bytes unit) :=
  match parse_json_path path with
  | None => mret (Err err_json_path)
  | Some [] =>
    on_engine_expect (fun e =>
      engine_update_or_insert_with_presence clk e key (Json JNull) (json_set_root new_value))
  | Some segments =>
    r ← on_engine (fun e =>
          engine_update_if_exists clk e key (json_set_partial segments new_value));
    mret (match r with
          | Some (Some true) => Ok tt
          | Some (Some false) => Err err_unreachable
          | Some None => Err (StoreError_message WrongType)
          | None => Err err_no_document
          end)
  end.

(** The node a path names; the empty path is the root itself. *)
Definition json_node (root : Value) (segments : list JsonPathSegment) : option Value :=
  match segments with [] => Some root | _ => get_json_path root segments end.

(** The shape of every JSON read: parse the path, read under the lock. *)
Definition json_read {A} (clk : clock) (key path : bytes)
    (f : Value -> list JsonPathSegment -> option A) : prog (result bytes (option A)) :=
  match parse_json_path path with
  | None => mret (Err err_json_path)
  | Some segments =>
    r ← on_engine (fun e => engine_read clk e key (fun entry =>
          match value entry with
          | Json root => Ok (f root segments)
          | _ => Err (StoreError_message WrongType)
          end));
    mret (match r with
          | Some (Ok v) => Ok v
          | Some (Err e) => Err e
          | None => Ok None
          end)
  end.

Definition json_get (clk : clock) (key path : bytes) : prog (result bytes (option bytes)) :=
  json_read clk key path (fun root segments => json_to_string <$> json_node root segments).

Definition json_del (clk : clock) (key path : bytes) : prog (result bytes bool) :=
  match parse_json_path path with
  | None => mret (Err err_json_path)
  | Some [] =>
    r ← on_engine (fun e => engine_update_if_exists_with_action clk e key json_del_root);
    mret (unwrap_or (Ok false) r)
  | Some segments =>
    r ← on_engine (fun e => engine_update_if_exists clk e key (json_del_partial segments));
    mret (match r with
          | Some (Some deleted) => Ok deleted
          | Some None => Err (StoreError_message WrongType)
          | None => Ok false
          end)
  end.

Definition json_type (clk : clock) (key path : bytes) : prog (result bytes (option bytes)) :=
  json_read clk key path (fun root segments => json_type_name <$> json_node root segments).

(** The reply of the two in-place JSON updates. *)
Definition json_update_reply {A} (r : option (option (result bytes A))) : result bytes A :=
  match r with
  | Some (Some (Ok a)) => Ok a
  | Some (Some (Err e)) => Err e
  | Some None => Err (StoreError_message WrongType)
  | None => Err err_no_document
  end.

Definition json_numincrby (clk : clock) (key path : bytes) (delta : Z) : prog (result bytes Z) :=
  match parse_json_path path with
  | None => mret (Err err_json_path)
  | Some segments =>
    r ← on_engine (fun e => engine_update_if_exists clk e key (json_numincrby_value segments delta));
    mret (json_update_reply r)
  end.

Definition json_arrappend (clk : clock) (key path : bytes) (new_value : Value)
  : prog (result bytes Z) :=
  match parse_json_path path with
  | None => mret (Err err_json_path)
  | Some segments =>
    r ← on_engine (fun e =>
          engine_update_if_exists clk e key (json_arrappend_value segments new_value));
    mret (json_update_reply r)
  end.

Definition json_arrlen (clk : clock) (key path : bytes) : prog (result bytes (option Z)) :=
  json_read clk key path (fun root segments =>
    n ← json_node root segments; len <$> as_array n).

Definition json_objkeys (clk : clock) (key path : bytes)
  : prog (result bytes (option (list bytes))) :=
  json_read clk key path (fun root segments =>
    n ← json_node root segments; (fun m => map fst m) <$> as_object n).

(** ** Keys *)

Definition store_rename (clk : clock) (old_key new_key : bytes) : prog bool :=
  on_engine (fun e => engine_rename clk e old_key new_key).

Definition store_copy (clk : clock) (src dst : bytes) : prog bool :=
  on_engine (fun e => engine_copy clk e src dst).

Definition value_type (clk : clock) (key : bytes) : prog (option bytes) :=
  on_engine (fun e => engine_read clk e key (fun entry => value_type_name (value entry))).

Definition store_all_keys (clk : clock) : prog (list bytes) :=
  ks ← on_engine (fun e => engine_all_keys clk e); mret (map Utf8.from_utf8_lossy ks).

(** [None] of the matcher would be running out of fuel, which cannot happen. *)
Definition keys_matching (clk : clock) (pattern : bytes) : prog (list bytes) :=
  if bytes_eqb pattern (bs "*") || bytes_eqb pattern [] then store_all_keys clk
  else
    ks ← store_all_keys clk;
    mret (filter (fun k => glob_match pattern k = Some true) ks).

Definition store_snapshot_entries (clk : clock) : prog (list (bytes * DataEntry)) :=
  es ← on_engine (fun e => engine_snapshot_all clk e);
  mret (map (fun ke : bytes * DataEntry => (Utf8.from_utf8_lossy ke.1, ke.2)) es).

Definition used_memory_bytes (clk : clock) : prog Z :=
  on_engine (fun e => engine_total_memory_bytes clk e).

Definition expire_conditional (clk : clock) (key : bytes) (seconds : Z) (condition : bytes)
  : prog bool :=
  if bytes_eqb condition (bs "NX") then
    on_engine (fun e => engine_set_expiry_conditional (tick 1 clk) e key
      (sat_add (clk 0%nat) seconds) (Some false))
  else if bytes_eqb condition (bs "XX") then
    on_engine (fun e => engine_set_expiry_conditional (tick 1 clk) e key
      (sat_add (clk 0%nat) seconds) (Some true))
  else mret false.

Definition get_expiry (clk : clock) (key : bytes) : prog (option Z) :=
  r ← on_engine (fun e => engine_read clk e key expires_at);
  mret (match r with Some x => x | None => None end).

Definition store_stats (clk : clock) : prog EngineStats :=
  on_engine (fun e => engine_stats clk e).

Definition store_gc_expired (clk : clock) : prog Z :=
  on_engine (fun e => engine_gc_expired clk e).

End Ops.
