(* ===== verification/GlobSpec.v ===== *)
(** * GlobSpec: the matcher of KEYS patterns against a reference definition

    A pattern is a list of characters in which a star stands for any run of
    characters.  The matcher always terminates and accepts only texts that
    match; it finds every match in texts that contain no star themselves. *)

From Stdlib Require Import ZArith Lia.
From Stdlib Require Import Strings.Byte.
From stdpp Require Import base gmap list strings numbers.
From S2P Require Import Prelude Text Json JsonPath Value Shard Engine Store.

Open Scope Z_scope.

Abbreviation star := (bs "*").

Inductive glob : list bytes -> list bytes -> Prop :=
| glob_nil : glob [] []
| glob_char c p t : glob p t -> glob (c :: p) (c :: t)
| glob_star p u t : glob p t -> glob (star :: p) (u ++ t).

(** ** Termination *)

Definition glob_measure (p t : list bytes) (p_idx match_idx : nat) : nat :=
  ((length t - match_idx) * (length p + 1) + (length p - p_idx))%nat.

Lemma glob_loop_terminates fuel p t p_idx t_idx star_idx match_idx :
  (glob_measure p t p_idx match_idx < fuel)%nat -> (match_idx <= t_idx)%nat ->
  is_Some (glob_loop fuel p t p_idx t_idx star_idx match_idx).
Proof.
  revert p_idx t_idx star_idx match_idx. unfold glob_measure.
  induction fuel as [|fuel IH]; intros p_idx t_idx star_idx match_idx Hf Hm; [lia|].
  cbn [glob_loop]. destruct (t !! t_idx) as [c|] eqn:Et; [|eauto].
  pose proof (lookup_lt_Some _ _ _ Et) as Ht.
  case_bool_decide as H1; [pose proof (lookup_lt_Some _ _ _ H1); apply IH; lia|].
  case_bool_decide as H2; [pose proof (lookup_lt_Some _ _ _ H2); apply IH; nia|].
  destruct star_idx as [s|]; [|eauto]. apply IH; nia.
Qed.

Lemma glob_match_total pattern text : is_Some (glob_match pattern text).
Proof.
  unfold glob_match. set (p := Utf8.chars pattern). set (t := Utf8.chars text).
  destruct (glob_loop_terminates (glob_fuel p t) p t 0 0 None 0) as [[i [|]] ->]; eauto.
  unfold glob_fuel, glob_measure. nia.
Qed.

(** ** Facts about the reference *)

Lemma glob_stars p : Forall (eq star) p -> glob p [].
Proof. induction 1 as [|c p <- _ IH]; [constructor|]. by apply (glob_star p [] []). Qed.

Lemma glob_empty p : glob p [] -> Forall (eq star) p.
Proof.
  remember [] as t eqn:Et. induction 1 as [|c p t H IH|p u t H IH]; [constructor|done|].
  apply app_eq_nil in Et as [-> ->]. constructor; auto.
Qed.

Lemma glob_literal c p t : c <> star -> glob (c :: p) t -> exists t', t = c :: t' /\ glob p t'.
Proof. intros Hc H. inversion H; subst; [eauto|done]. Qed.

Lemma glob_literals seg p t :
  star ∉ seg -> glob (seg ++ p) t -> exists t', t = seg ++ t' /\ glob p t'.
Proof.
  revert t. induction seg as [|c seg IH]; intros t Hs H; simpl in *; [eauto|].
  apply not_elem_of_cons in Hs as [Hc Hs].
  apply glob_literal in H as (t1 & -> & H); [|done]. destruct (IH t1 Hs H) as (t' & -> & ?). eauto.
Qed.

Lemma glob_star_longer p u t : glob (star :: p) t -> glob (star :: p) (u ++ t).
Proof.
  intros H. inversion H as [|c p' t' H'|p' u' t' H']; subst.
  - change (star :: t') with ([star] ++ t'). rewrite (assoc_L (++)). by apply glob_star.
  - rewrite (assoc_L (++)). by apply glob_star.
Qed.

Lemma glob_tail_spec p i : glob_tail p i = true <-> glob (drop i p) [].
Proof.
  unfold glob_tail. rewrite bool_decide_eq_true. generalize (drop i p) as q. clear. split.
  - intros H. apply glob_stars. induction q as [|c q IH]; [constructor|]. simpl in H.
    destruct (bytes_eqb_spec c star) as [->|]; [|done]. constructor; auto.
  - intros H%glob_empty. induction H as [|c q <- _ IH]; [done|]. simpl. exact IH.
Qed.

(** ** Soundness *)

Lemma glob_loop_sound fuel p t p_idx t_idx star_idx match_idx i :
  (forall j, star_idx = Some j -> forall n, (match_idx <= n)%nat ->
     glob (drop (S j) p) (drop n t) -> glob p t) ->
  (glob (drop p_idx p) (drop t_idx t) -> glob p t) ->
  glob_loop fuel p t p_idx t_idx star_idx match_idx = Some (i, true) ->
  glob_tail p i = true -> glob p t.
Proof.
  revert p_idx t_idx star_idx match_idx.
  induction fuel as [|fuel IH]; intros p_idx t_idx star_idx match_idx Hstar Hcur; [done|].
  cbn [glob_loop]. destruct (t !! t_idx) as [c|] eqn:Et.
  2: { intros [= <-] Htail. apply Hcur. rewrite (drop_ge t) by (by apply lookup_ge_None_1).
       by apply glob_tail_spec. }
  case_bool_decide as H1.
  { apply IH; [done|]. intros H. apply Hcur. rewrite (drop_S _ _ _ H1), (drop_S _ _ _ Et).
    by constructor. }
  case_bool_decide as H2.
  { apply IH.
    - intros j [= <-] n Hn H. apply Hcur. rewrite (drop_S _ _ _ H2).
      rewrite <- (take_drop (n - t_idx) (drop t_idx t)), drop_drop.
      replace (t_idx + (n - t_idx))%nat with n by lia. by constructor.
    - intros H. apply Hcur. rewrite (drop_S _ _ _ H2). by apply (glob_star _ []). }
  destruct star_idx as [s|]; [|done]. apply IH.
  - intros j [= <-] n Hn. apply (Hstar s eq_refl). lia.
  - apply (Hstar s eq_refl). lia.
Qed.

(** ** Completeness for texts without stars *)

(** The part of the pattern since the last star has matched the text since
    the position that star was last tried at. *)
Definition segment (p t : list bytes) (p_idx t_idx s match_idx : nat) : Prop :=
  exists seg, drop (S s) p = seg ++ drop p_idx p /\ drop match_idx t = seg ++ drop t_idx t.

(** A match of the whole can still be found. *)
Definition can_match (p t : list bytes) (p_idx t_idx : nat) (star_idx : option nat)
    (match_idx : nat) : Prop :=
  glob (drop p_idx p) (drop t_idx t) \/
  exists s n, star_idx = Some s /\ (match_idx < n <= length t)%nat /\ glob (drop (S s) p) (drop n t).

Lemma segment_later p t p_idx t_idx s match_idx n :
  star ∉ t -> segment p t p_idx t_idx s match_idx -> (match_idx < n <= length t)%nat ->
  glob (drop (S s) p) (drop n t) ->
  (t_idx < length t)%nat /\ exists m, (t_idx < m)%nat /\ glob (drop p_idx p) (drop m t).
Proof.
  intros Ht (seg & Hp & Hseg) Hn H. rewrite Hp in H.
  assert (Hs : star ∉ seg).
  { intros Hin. apply Ht. rewrite <- (take_drop match_idx t), Hseg, !elem_of_app. tauto. }
  apply glob_literals in H as (t' & Heq & H); [|done].
  assert (Hl1 : (length t - match_idx = length seg + (length t - t_idx))%nat).
  { pose proof (f_equal length Hseg) as Hl. rewrite length_app, !length_drop in Hl. lia. }
  assert (Hl2 : (length t - n = length seg + length t')%nat).
  { pose proof (f_equal length Heq) as Hl. rewrite length_app, !length_drop in Hl. lia. }
  assert (Ht' : t' = drop (n + length seg) t).
  { rewrite <- drop_drop, Heq. by rewrite drop_app_length. }
  split; [lia|]. exists (n + length seg)%nat. rewrite <- Ht'. split; [lia|done].
Qed.

Lemma segment_refl p t i j : segment p t (S i) j i j.
Proof. by exists []. Qed.

Lemma segment_step p t p_idx t_idx s match_idx c :
  p !! p_idx = Some c -> t !! t_idx = Some c ->
  segment p t p_idx t_idx s match_idx -> segment p t (S p_idx) (S t_idx) s match_idx.
Proof.
  intros Hp Ht (seg & H1 & H2). exists (seg ++ [c]).
  rewrite <- !(assoc_L (++)). simpl. by rewrite <- (drop_S _ _ _ Hp), <- (drop_S _ _ _ Ht).
Qed.

Lemma glob_loop_complete fuel p t p_idx t_idx star_idx match_idx i b :
  star ∉ t ->
  (forall s, star_idx = Some s -> segment p t p_idx t_idx s match_idx) ->
  can_match p t p_idx t_idx star_idx match_idx ->
  glob_loop fuel p t p_idx t_idx star_idx match_idx = Some (i, b) ->
  b = true /\ glob_tail p i = true.
Proof.
  intros Hns. revert p_idx t_idx star_idx match_idx.
  induction fuel as [|fuel IH]; intros p_idx t_idx star_idx match_idx Hseg Hcan; [done|].
  cbn [glob_loop]. destruct (t !! t_idx) as [c|] eqn:Et.
  2: { apply lookup_ge_None_1 in Et. intros [= <- <-]. split; [done|]. apply glob_tail_spec.
       destruct Hcan as [H|(s & n & Hs & Hn & H)]; [by rewrite (drop_ge t) in H|].
       destruct (segment_later p t p_idx t_idx s match_idx n Hns (Hseg s Hs) Hn H) as [? _]. lia. }
  assert (Hc : c <> star).
  { intros ->. apply Hns. by eapply list_elem_of_lookup_2. }
  case_bool_decide as H1.
  { apply IH; [intros s Hs; by eapply segment_step; auto|].
    destruct Hcan as [H|?]; [left|by right]. rewrite (drop_S _ _ _ H1), (drop_S _ _ _ Et) in H.
    by apply glob_literal in H as (t' & [= ->] & H). }
  case_bool_decide as H2.
  { apply IH; [intros s [= <-]; apply segment_refl|].
    assert (Hcur : glob (drop p_idx p) (drop t_idx t)).
    { destruct Hcan as [H|(s & n & Hs & Hn & H)]; [done|].
      destruct (segment_later p t p_idx t_idx s match_idx n Hns (Hseg s Hs) Hn H) as (_ & m & Hm & Hg).
      rewrite (drop_S _ _ _ H2) in Hg |- *.
      rewrite <- (take_drop (m - t_idx) (drop t_idx t)), drop_drop.
      replace (t_idx + (m - t_idx))%nat with m by lia. by apply glob_star_longer. }
    rewrite (drop_S _ _ _ H2) in Hcur.
    inversion Hcur as [|c' p' t' H' Hp' Ht'|p' u t' H' Hp' Ht']; subst.
    - rewrite (drop_S _ _ _ Et) in Ht'. congruence.
    - destruct (decide (u = [])) as [->|Hu]; [left; simpl in Ht'; by rewrite <- Ht'|].
      right. exists p_idx, (t_idx + length u)%nat. split; [done|].
      pose proof (f_equal length Ht') as Hl. rewrite length_app, length_drop in Hl.
      pose proof (lookup_lt_Some _ _ _ Et). split; [destruct u; [done|simpl in *; lia]|]. rewrite <- drop_drop, <- Ht'. by rewrite drop_app_length. }
  assert (Hno : ~ glob (drop p_idx p) (drop t_idx t)).
  { rewrite (drop_S _ _ _ Et). intros H. destruct (p !! p_idx) as [c'|] eqn:Ep.
    - rewrite (drop_S _ _ _ Ep) in H. apply glob_literal in H as (t' & [= ->] & _); congruence.
    - rewrite drop_ge in H by (by apply lookup_ge_None_1). inversion H. }
  destruct Hcan as [?|(s & n & -> & Hn & H)]; [done|]. apply IH; [intros s' [= <-]; apply segment_refl|].
  destruct (decide (n = S match_idx)) as [->|Hne]; [by left|]. right. exists s, n.
  split; [done|]. split; [lia|done].
Qed.

(** The KEYS matcher terminates, accepts only texts that match the
    pattern, and accepts every match whose text has no star in it. *)
Theorem glob_match_correct (pattern text : bytes) :
  exists b, glob_match pattern text = Some b /\
    (b = true -> glob (Utf8.chars pattern) (Utf8.chars text)) /\
    (star ∉ Utf8.chars text -> glob (Utf8.chars pattern) (Utf8.chars text) -> b = true).
Proof.
  destruct (glob_match_total pattern text) as [b Hb]. exists b. split; [done|].
  unfold glob_match in Hb. set (p := Utf8.chars pattern) in *. set (t := Utf8.chars text) in *.
  destruct (glob_loop (glob_fuel p t) p t 0 0 None 0) as [[i r]|] eqn:E; [|done]. split.
  - intros ->. destruct r; [|done]. injection Hb as Hb.
    by apply (glob_loop_sound (glob_fuel p t) p t 0 0 None 0 i).
  - intros Hns Hg. destruct (glob_loop_complete (glob_fuel p t) p t 0 0 None 0 i r) as [-> Ht];
      [done|done|by left|done|congruence].
Qed.

(** A text that contains a star can be missed: the literal comparison
    comes before the wildcard, so *a does not find the key *ba. *)
Theorem glob_match_misses_starred_text :
  glob (Utf8.chars (bs "*a")) (Utf8.chars (bs "*ba")) /\
  glob_match (bs "*a") (bs "*ba") = Some false.
Proof.
  split; [|reflexivity].
  change (Utf8.chars (bs "*a")) with [star; bs "a"].
  change (Utf8.chars (bs "*ba")) with ([star; bs "b"] ++ [bs "a"]).
  apply glob_star. repeat constructor.
Qed.
