(* ===== verification/TypedSpec.v ===== *)
(** * TypedSpec: the typed operations against abstract data types

    Sequences of list, hash and set operations on a key behave as on a deque, a
    finite map and a finite set; a key that holds an empty collection is
    absent. *)

From Stdlib Require Import ZArith Lia.
From Stdlib Require Import Strings.Byte.
From stdpp Require Import base gmap list strings numbers.
From S2P Require Import Prelude Text Json JsonPath Value Shard ShardSpec Engine EngineSpec EngineMulti EngineActs Store.

Open Scope Z_scope.

Section Typed.
Context {JN : JsonNumber} {SJ : SerdeJson} {HO : HashOrder}.

(** The key holds the value [ov] and does not expire, or is absent. *)
Record persists (st : ShardedStore) (k : bytes) (ov : option OnyxValue) : Prop := {
  ps_ok : engine_ok (engine st);
  ps_cell : match ov with
            | Some v => exists en, dataset (engine st) !! k = Some en /\ value en = v /\ expires_at en = None
            | None => dataset (engine st) !! k = None
            end
}.

Lemma live_persistent_entry t en : expires_at en = None -> c_live t (Some en) = Some en.
Proof. intros H. simpl. unfold expired_by. by rewrite H. Qed.

Lemma upsert_run {R} clk k d (f : OnyxValue -> OnyxValue * R) st ov :
  persists st k ov ->
  let v := match ov with Some v => v | None => d end in
  exists st', on_engine_expect (fun e => engine_update_or_insert clk e k d f) st = Some (st', (f v).2) /\
    persists st' k (Some (f v).1).
Proof.
  intros [Hok Hc] v. destruct (upsert_acts clk k d f (engine st) Hok) as (Hr & Hd & Hok').
  unfold on_engine_expect.
  destruct (engine_update_or_insert clk (engine st) k d f) as [e' r]. cbn [fst snd] in *. subst r.
  unfold c_upsert, c_upsert_presence, c_upsert_entry in *. subst v.
  destruct ov as [v|].
  - destruct Hc as (en & Hen & Hv & Hx). rewrite Hen, (live_persistent_entry _ _ Hx) in *.
    cbn [value set_accessed_field] in *. rewrite Hv in *. destruct (f v) as [v' r].
    cbn [fst snd] in *. eexists. split; [done|]. constructor; [done|]. eexists.
    split; [simpl; by rewrite Hd, lookup_set_cell_eq|done].
  - rewrite Hc in *. cbn [c_live value set_accessed_field] in *. destruct (f d) as [v' r].
    cbn [fst snd] in *. eexists. split; [done|]. constructor; [done|]. eexists.
    split; [simpl; by rewrite Hd, lookup_set_cell_eq|done].
Qed.

Lemma action_run {R} clk k (f : OnyxValue -> OnyxValue * EntryMutation R) st ov :
  persists st k ov ->
  exists st' r, on_engine (fun e => engine_update_if_exists_with_action clk e k f) st = Some (st', r) /\
    match ov with
    | None => r = None /\ persists st' k None
    | Some v => match (f v).2 with
                | Keep x => r = Some x /\ persists st' k (Some (f v).1)
                | Delete x => r = Some x /\ persists st' k None
                end
    end.
Proof.
  intros [Hok Hc]. destruct (update_action_acts clk k f (engine st) Hok) as (Hr & Hd & Hok').
  unfold on_engine.
  destruct (engine_update_if_exists_with_action clk (engine st) k f) as [e' r]. cbn [fst snd] in *.
  exists (with_engine st e'), r. split; [done|]. unfold c_update_action in *. destruct ov as [v|].
  - destruct Hc as (en & Hen & Hv & Hx). rewrite Hen, (live_persistent_entry _ _ Hx), Hv in *.
    destruct (f v) as [v' [x|x]]; cbn [fst snd] in *; (split; [done|]); (constructor; [done|]); simpl;
      rewrite Hd, lookup_set_cell_eq; [by eexists|done].
  - rewrite Hc in *. cbn [c_live fst snd] in *. split; [done|]. constructor; [done|]. simpl.
    by rewrite Hd, lookup_set_cell_eq.
Qed.

Lemma read_run {R} clk k (f : DataEntry -> R) (g : OnyxValue -> R) st ov :
  (forall en, f en = g (value en)) -> persists st k ov ->
  exists st', on_engine (fun e => engine_read clk e k f) st = Some (st', g <$> ov) /\ persists st' k ov.
Proof.
  intros Hfg [Hok Hc]. destruct (read_acts clk k f (engine st) Hok) as (Hr & Hd & Hok').
  unfold on_engine. destruct (engine_read clk (engine st) k f) as [e' r]. cbn [fst snd] in *.
  exists (with_engine st e'). unfold c_read, c_get in *. destruct ov as [v|].
  - destruct Hc as (en & Hen & Hv & Hx). rewrite Hen, (live_persistent_entry _ _ Hx) in *.
    cbn [fmap option_fmap option_map fst snd] in *. split; [rewrite Hr, Hfg; cbn; by rewrite Hv|].
    constructor; [done|]. eexists. simpl. rewrite Hd, lookup_set_cell_eq. done.
  - rewrite Hc in *. cbn [c_live fmap option_fmap option_map fst snd] in Hr, Hd. split; [by rewrite Hr|]. constructor; [done|]. simpl.
    by rewrite Hd, lookup_set_cell_eq.
Qed.

(** ** Lists as deques *)

Inductive ListOp : Type :=
| LPush (item : bytes) | RPush (item : bytes) | LPop | RPop
| LRange (start stop : Z) | LLen.

Inductive ListResult : Type :=
| LLength (r : result StoreError Z)
| LItem (r : result StoreError (option bytes))
| LItems (r : result StoreError (list bytes)).

Definition run_list_op (clk : clock) (k : bytes) (op : ListOp) : prog ListResult :=
  match op with
  | LPush item => r ← lpush clk k item; mret (LLength r)
  | RPush item => r ← rpush clk k item; mret (LLength r)
  | LPop => r ← lpop clk k; mret (LItem r)
  | RPop => r ← rpop clk k; mret (LItem r)
  | LRange a b => r ← lrange clk k a b; mret (LItems r)
  | LLen => r ← llen clk k; mret (LLength r)
  end.

(** The deque; items come back as text. *)
Definition spec_list_op (l : list bytes) (op : ListOp) : list bytes * ListResult :=
  match op with
  | LPush item => (item :: l, LLength (Ok (1 + len l)))
  | RPush item => (l ++ [item], LLength (Ok (1 + len l)))
  | LPop => (tail l, LItem (Ok (Utf8.from_utf8_lossy <$> head l)))
  | RPop => (removelast l, LItem (Ok (Utf8.from_utf8_lossy <$> list.last l)))
  | LRange a b => (l, LItems (Ok (map Utf8.from_utf8_lossy (lrange_slice l a b))))
  | LLen => (l, LLength (Ok (len l)))
  end.

Definition list_cell (l : list bytes) : option OnyxValue :=
  match l with [] => None | _ => Some (VList l) end.

Lemma map_map_run {A B C} (m : prog A) (g : A -> B) (h : B -> C) st st' a :
  m st = Some (st', a) ->
  (y ← (x ← m; mret (g x)); mret (h y)) st = Some (st', h (g a)).
Proof. intros E. unfold mbind, prog_bind. by rewrite E. Qed.

Lemma len_snoc {A} (x : A) l : len (l ++ [x]) = 1 + len l.
Proof. unfold len. rewrite length_app. simpl. lia. Qed.

Lemma list_op_run clk k op st l :
  persists st k (list_cell l) ->
  exists st', run_list_op clk k op st = Some (st', (spec_list_op l op).2) /\
    persists st' k (list_cell (spec_list_op l op).1).
Proof.
  intros Hp. destruct op as [item|item| | |a b|]; cbn [run_list_op spec_list_op fst snd].
  - destruct (upsert_run clk k (VList []) (lpush_value item) st _ Hp) as (st' & E & H).
    unfold lpush. rewrite (bind_run _ _ _ _ _ E), <- (len_cons item). exists st'. by destruct l.
  - destruct (upsert_run clk k (VList []) (rpush_value item) st _ Hp) as (st' & E & H).
    unfold rpush. rewrite (bind_run _ _ _ _ _ E), <- (len_snoc item). exists st'. by destruct l.
  - destruct (action_run clk k lpop_value st _ Hp) as (st' & r & E & H).
    unfold lpop. rewrite (map_map_run _ _ _ _ _ _ E). exists st'. destruct l as [|x [|y l]]; cbn in *;
      destruct H as [-> H]; done.
  - destruct (action_run clk k rpop_value st _ Hp) as (st' & r & E & H).
    unfold rpop. rewrite (map_map_run _ _ _ _ _ _ E). exists st'.
    destruct l as [|x l] using rev_ind; [by destruct H as [-> H]|]. clear IHl.
    assert (Hcell : list_cell (l ++ [x]) = Some (VList (l ++ [x]))) by (by destruct l).
    rewrite Hcell in H. unfold rpop_value in H.
    rewrite list.last_snoc, removelast_last in *. cbn [fst snd fmap option_fmap option_map] in *.
    unfold pop_action in H. destruct l; destruct H as [-> H]; done.
  - match goal with |- context [lrange clk k a b] => unfold lrange end.
    destruct (read_run clk k _ (fun v => match v with
      | VList l => Ok (map Utf8.from_utf8_lossy (lrange_slice l a b)) | _ => Err WrongType end)
      st _ (fun en => eq_refl) Hp) as (st' & E & H).
    rewrite (map_map_run _ _ _ _ _ _ E). exists st'. by destruct l.
  - destruct (read_run clk k _ (fun v => match v with VList l => Ok (len l) | _ => Err WrongType end)
      st _ (fun en => eq_refl) Hp) as (st' & E & H).
    unfold llen. rewrite (map_map_run _ _ _ _ _ _ E). exists st'. by destruct l.
Qed.

(** ** Hashes as finite maps *)

Inductive HashOp : Type := HSet (field v : bytes) | HGet (field : bytes) | HDel (field : bytes).

Inductive HashResult : Type :=
| HFlag (r : result StoreError bool)
| HValue (r : result StoreError (option bytes)).

Definition run_hash_op (clk : clock) (k : bytes) (op : HashOp) : prog HashResult :=
  match op with
  | HSet f v => r ← hset clk k f v; mret (HFlag r)
  | HGet f => r ← hget clk k f; mret (HValue r)
  | HDel f => r ← hdel clk k f; mret (HFlag r)
  end.

Definition spec_hash_op (h : gmap bytes bytes) (op : HashOp) : gmap bytes bytes * HashResult :=
  match op with
  | HSet f v => (<[f := v]> h, HFlag (Ok (negb (is_some (h !! f)))))
  | HGet f => (h, HValue (Ok (Utf8.from_utf8_lossy <$> h !! f)))
  | HDel f => (delete f h, HFlag (Ok (is_some (h !! f))))
  end.

Definition hash_cell (h : gmap bytes bytes) : option OnyxValue :=
  if bool_decide (h = ∅) then None else Some (Hash h).

Lemma hash_op_run clk k op st h :
  persists st k (hash_cell h) ->
  exists st', run_hash_op clk k op st = Some (st', (spec_hash_op h op).2) /\
    persists st' k (hash_cell (spec_hash_op h op).1).
Proof.
  intros Hp. unfold hash_cell in Hp. destruct op as [f v|f|f]; cbn [run_hash_op spec_hash_op fst snd].
  - destruct (upsert_run clk k (Hash ∅) (hset_value f v) st _ Hp) as (st' & E & H).
    unfold hset. rewrite (bind_run _ _ _ _ _ E). exists st'.
    assert (Hcell : hash_cell (<[f := v]> h) = Some (Hash (<[f := v]> h))).
    { unfold hash_cell. rewrite bool_decide_eq_false_2; [done|]. apply insert_non_empty. }
    rewrite Hcell. case_bool_decide as Hh; [subst h|]; done.
  - destruct (read_run clk k _ (fun v => match v with
      | Hash h => Ok (Utf8.from_utf8_lossy <$> h !! f) | _ => Err WrongType end)
      st _ (fun en => eq_refl) Hp) as (st' & E & H).
    unfold hget. rewrite (map_map_run _ _ _ _ _ _ E). exists st'. unfold hash_cell.
    case_bool_decide as Hh; [subst h|]; done.
  - destruct (action_run clk k (hdel_value f) st _ Hp) as (st' & r & E & H).
    unfold hdel. rewrite (map_map_run _ _ _ _ _ _ E). exists st'. unfold hash_cell.
    case_bool_decide as Hh.
    + subst h. rewrite delete_empty, bool_decide_eq_true_2 by done. by destruct H as [-> H].
    + cbn [hdel_value fst snd] in H. destruct (h !! f) as [x|] eqn:Ef; cbn [is_some andb] in *.
      * case_bool_decide; destruct H as [-> H]; done.
      * rewrite (delete_id h f Ef) in *. rewrite bool_decide_eq_false_2 by done.
        by destruct H as [-> H].
Qed.

(** ** Sets as finite sets *)

Inductive SetOp : Type := SAdd (m : bytes) | SRem (m : bytes) | SIsMember (m : bytes).

Definition run_set_op (clk : clock) (k : bytes) (op : SetOp) : prog (result StoreError bool) :=
  match op with
  | SAdd m => sadd clk k m
  | SRem m => srem clk k m
  | SIsMember m => sismember clk k m
  end.

Definition spec_set_op (s : gset bytes) (op : SetOp) : gset bytes * result StoreError bool :=
  match op with
  | SAdd m => ({[m]} ∪ s, Ok (negb (bool_decide (m ∈ s))))
  | SRem m => (s ∖ {[m]}, Ok (bool_decide (m ∈ s)))
  | SIsMember m => (s, Ok (bool_decide (m ∈ s)))
  end.

Definition set_cell_of (s : gset bytes) : option OnyxValue :=
  if bool_decide (s = ∅) then None else Some (VSet s).

Lemma set_op_run clk k op st s :
  persists st k (set_cell_of s) ->
  exists st', run_set_op clk k op st = Some (st', (spec_set_op s op).2) /\
    persists st' k (set_cell_of (spec_set_op s op).1).
Proof.
  intros Hp. unfold set_cell_of in Hp. destruct op as [m|m|m]; cbn [run_set_op spec_set_op fst snd].
  - destruct (upsert_run clk k (VSet ∅) (sadd_value m) st _ Hp) as (st' & E & H).
    unfold sadd. rewrite E. exists st'.
    assert (Hcell : set_cell_of ({[m]} ∪ s) = Some (VSet ({[m]} ∪ s))).
    { unfold set_cell_of. rewrite bool_decide_eq_false_2; [done|]. set_solver. }
    rewrite Hcell. case_bool_decide as Hs; [subst s|]; done.
  - destruct (action_run clk k (srem_value m) st _ Hp) as (st' & r & E & H).
    unfold srem. rewrite (bind_run _ _ _ _ _ E). exists st'. unfold set_cell_of.
    case_bool_decide as Hs.
    + subst s. destruct H as [-> H]. rewrite bool_decide_eq_false_2 by set_solver.
      rewrite bool_decide_eq_true_2 by set_solver. done.
    + cbn [srem_value fst snd] in H. destruct (decide (m ∈ s)) as [Hm|Hm].
      * rewrite (bool_decide_eq_true_2 (m ∈ s)) in * by done. cbn [andb] in H.
        case_bool_decide; destruct H as [-> H]; done.
      * rewrite (bool_decide_eq_false_2 (m ∈ s)) in * by done. cbn [andb] in H.
        rewrite difference_disjoint_L in * by set_solver.
        rewrite bool_decide_eq_false_2 by done. by destruct H as [-> H].
  - destruct (read_run clk k _ (fun v => match v with
      | VSet s => Ok (bool_decide (m ∈ s)) | _ => Err WrongType end)
      st _ (fun en => eq_refl) Hp) as (st' & E & H).
    unfold sismember. rewrite (bind_run _ _ _ _ _ E). exists st'. unfold set_cell_of.
    case_bool_decide as Hs; [subst s|]; done.
Qed.

(** ** Sequences *)

Section Sequences.
Context {Op Res Abs : Type} (run : clock -> bytes -> Op -> prog Res) (step : Abs -> Op -> Abs * Res)
  (cell_of : Abs -> option OnyxValue).
Context (one : forall clk k op st a, persists st k (cell_of a) ->
  exists st', run clk k op st = Some (st', (step a op).2) /\ persists st' k (cell_of (step a op).1)).

Fixpoint run_all (k : bytes) (ops : list (clock * Op)) : prog (list Res) :=
  match ops with
  | [] => mret []
  | (clk, op) :: ops => r ← run clk k op; rs ← run_all k ops; mret (r :: rs)
  end.

Fixpoint step_all (a : Abs) (ops : list (clock * Op)) : Abs * list Res :=
  match ops with
  | [] => (a, [])
  | (_, op) :: ops =>
    let '(a, r) := step a op in
    let '(a, rs) := step_all a ops in (a, r :: rs)
  end.

Lemma run_all_refines k ops st a :
  persists st k (cell_of a) ->
  exists st', run_all k ops st = Some (st', (step_all a ops).2) /\
    persists st' k (cell_of (step_all a ops).1).
Proof.
  revert st a. induction ops as [|[clk op] ops IH]; intros st a Hp; cbn [run_all step_all]; [eauto|].
  destruct (one clk k op st a Hp) as (st1 & E1 & H1). rewrite (bind_run _ _ _ _ _ E1).
  destruct (step a op) as [a1 r]. cbn [fst snd] in *.
  destruct (IH st1 a1 H1) as (st2 & E2 & H2). rewrite (bind_run _ _ _ _ _ E2).
  destruct (step_all a1 ops) as [a2 rs]. eauto.
Qed.

End Sequences.

(** ** Ranges *)

(** A list index counted from the end when negative. *)
Definition norm_index (n idx : Z) : Z := if idx <? 0 then Z.max (n + idx) 0 else idx.

Lemma lrange_slice_lookup {A} (l : list A) (start stop : Z) (i : nat) :
  lrange_slice l start stop !! i =
  if norm_index (len l) start + Z.of_nat i <=? norm_index (len l) stop
  then l !! Z.to_nat (norm_index (len l) start + Z.of_nat i) else None.
Proof.
  unfold lrange_slice. fold (norm_index (len l) start) (norm_index (len l) stop).
  assert (Hs : 0 <= norm_index (len l) start) by (unfold norm_index; destruct (start <? 0) eqn:E; prop_tests; lia).
  set (s := norm_index (len l) start) in *. set (e := norm_index (len l) stop).
  assert (Hout : forall j, len l <= Z.of_nat j -> l !! j = None)
    by (intros j Hj; apply lookup_ge_None_2; unfold len in Hj; lia).
  destruct (len l =? 0) eqn:E0; prop_tests.
  { rewrite lookup_nil. destruct (s + Z.of_nat i <=? e); [|done]. symmetry. apply Hout. lia. }
  destruct ((len l - 1 <? s) || (e <? s)) eqn:E1.
  { rewrite lookup_nil. destruct (s + Z.of_nat i <=? e) eqn:E2; [|done]. symmetry. apply Hout.
    apply orb_true_iff in E1 as [E1|E1]; prop_tests; lia. }
  apply orb_false_iff in E1 as [E1 E2]. prop_tests.
  unfold slice.
  assert (Hlk : drop (Z.to_nat s) l !! i = l !! Z.to_nat (s + Z.of_nat i))
    by (rewrite lookup_drop; f_equal; lia).
  destruct (len l - 1 <? e) eqn:E3; prop_tests; destruct (s + Z.of_nat i <=? e) eqn:E4; prop_tests.
  - destruct (decide (Z.of_nat i < len l - s)).
    + rewrite lookup_take_lt by lia. exact Hlk.
    + rewrite lookup_take_ge by lia. symmetry. apply Hout. lia.
  - rewrite lookup_take_ge by lia. done.
  - rewrite lookup_take_lt by lia. exact Hlk.
  - rewrite lookup_take_ge by lia. done.
Qed.

End Typed.
