(* ===== verification/Persistence.v ===== *)
(** * Persistence: errors and segment names (src/persistence/mod.rs)

    The error type of the persistence layer and the names of sealed binlog
    segments, which carry the last sequence of the segment. *)

From Stdlib Require Import ZArith Lia.
From Stdlib Require Import Strings.Byte.
From stdpp Require Import base gmap list strings numbers.
From S2P Require Import Prelude Text.

Open Scope Z_scope.

(** ** Errors *)

Record PersistenceError : Type := mkPError {
  pe_message : bytes;
  upstream_unavailable : bool;
  indeterminate : bool
}.

Definition PersistenceError_new (m : bytes) : PersistenceError := mkPError m false false.
Definition PersistenceError_upstream_unavailable (m : bytes) : PersistenceError := mkPError m true false.
Definition PersistenceError_indeterminate (m : bytes) : PersistenceError := mkPError m false true.
Definition is_indeterminate (e : PersistenceError) : bool := indeterminate e.

(** ** File names

    [PersistencePaths::in_directory] joins these to one directory, so the files
    of a node are identified by their names. *)

Definition snapshot_path : bytes := bs "onyx.snapshot".
Definition snapshot_temp_path : bytes := bs "onyx.snapshot.tmp".
Definition snapshot_backup_path : bytes := bs "onyx.snapshot.previous".
Definition binlog_path : bytes := bs "onyx.binlog".
Definition binlog_temp_path : bytes := bs "onyx.binlog.tmp".
Definition binlog_backup_path : bytes := bs "onyx.binlog.previous".
Definition replica_state_path : bytes := bs "onyx.replica".
Definition replica_state_temp_path : bytes := bs "onyx.replica.tmp".

(** ** Segment names *)

Definition BINLOG_SEGMENT_PREFIX : bytes := bs "onyx.binlog.segment.".
Definition BINLOG_SEGMENT_SEQUENCE_WIDTH : Z := 20.
Definition MAX_BINLOG_SEGMENTS : Z := 1024.

(** [format!("{n:0w$}")] for an unsigned number. *)
Definition zero_padded (w n : Z) : bytes :=
  let digits := print_Z n in
  replicate (Z.to_nat (w - len digits)) x30 ++ digits.

(** The file name of [PersistencePaths::binlog_segment]. *)
Definition binlog_segment (end_sequence : Z) : bytes :=
  BINLOG_SEGMENT_PREFIX ++ zero_padded BINLOG_SEGMENT_SEQUENCE_WIDTH end_sequence.

(** A file name that is not UTF-8 is [None]. *)
Definition parse_binlog_segment_end_sequence (file_name : option bytes)
  : result PersistenceError (option Z) :=
  match file_name with
  | None => Ok None
  | Some name =>
    match strip_prefix BINLOG_SEGMENT_PREFIX name with
    | None => Ok None
    | Some encoded =>
      if negb (len encoded =? BINLOG_SEGMENT_SEQUENCE_WIDTH) || negb (forallb is_ascii_digit encoded)
      then Err (PersistenceError_new (bs "Malformed binlog segment name: " ++ name))
      else
        match parse_u64 encoded with
        | None => Err (PersistenceError_new (bs "Invalid binlog segment sequence: " ++ name))
        | Some end_sequence =>
          if end_sequence =? 0
          then Err (PersistenceError_new (bs "Binlog segment end sequence must be non-zero"))
          else Ok (Some end_sequence)
        end
    end
  end.

(** ** Segment names carry their sequence *)

Lemma zero_padded_spec n :
  0 <= n <= U64_MAX ->
  len (zero_padded 20 n) = 20 /\ Forall (fun b => is_ascii_digit b = true) (zero_padded 20 n) /\
  parse_u64 (zero_padded 20 n) = Some n.
Proof.
  intros Hn. pose proof (print_Z_length n Hn) as Hl. unfold zero_padded.
  destruct (print_Z_spec n ltac:(lia)) as (d & ds & Hp & Hd & Hv).
  set (k := Z.to_nat (20 - len (print_Z n))).
  assert (Hall : Forall (fun b => is_ascii_digit b = true) (replicate k x30 ++ print_Z n)).
  { apply list.Forall_app. split; [apply Forall_replicate; reflexivity|by rewrite Hp]. }
  assert (Hval : digits_value 0 (replicate k x30 ++ print_Z n) = n).
  { unfold digits_value. rewrite fold_left_app.
    assert (Hz : fold_left (fun a b => a * 10 + digit_value b) (replicate k x30) 0 = 0).
    { clear. induction k as [|k IH]; [reflexivity|exact IH]. }
    rewrite Hz, Hp. exact Hv. }
  split; [rewrite len_app; unfold len at 1; rewrite length_replicate; lia|]. split; [done|].
  unfold parse_u64, parse_unsigned.
  destruct (replicate k x30 ++ print_Z n) as [|b r] eqn:E.
  { rewrite Hp in E. by destruct (replicate k x30). }
  inversion Hall as [|? ? Hb Hr]; subst.
  rewrite bool_decide_eq_false_2 by (by apply digit_not_sign in Hb as [? _]).
  unfold parse_digits1. rewrite parse_digits_value; [by rewrite Hval|done|lia|lia].
Qed.

Lemma parse_binlog_segment n :
  1 <= n <= U64_MAX -> parse_binlog_segment_end_sequence (Some (binlog_segment n)) = Ok (Some n).
Proof.
  intros Hn. unfold parse_binlog_segment_end_sequence, binlog_segment, BINLOG_SEGMENT_SEQUENCE_WIDTH.
  rewrite strip_prefix_app. destruct (zero_padded_spec n ltac:(lia)) as (-> & Hd & ->).
  replace (forallb is_ascii_digit (zero_padded 20 n)) with true.
  - simpl. by rewrite (proj2 (Z.eqb_neq n 0)) by lia.
  - symmetry. apply forallb_forall. intros b Hb. rewrite list.Forall_forall in Hd.
    by apply Hd, list_elem_of_In.
Qed.
