(* ===== verification/Model.v ===== *)
(** * Model: committed effects (src/persistence/model.rs)

    The persistent part of an entry, the effects a mutation commits, how a
    batch is derived from the state before and after a command, and how a
    batch is applied during recovery and on a replica. *)

From Stdlib Require Import ZArith Lia.
From Stdlib Require Import Strings.Byte.
From stdpp Require Import base gmap list strings numbers.
From S2P Require Import Prelude Text Json JsonPath Value Shard Engine Store Persistence.

Open Scope Z_scope.

Record PersistentEntry {JN : JsonNumber} : Type := mkPersistent {
  p_value : OnyxValue;
  p_expires_at : option Z
}.

Inductive CommittedEffect {JN : JsonNumber} : Type :=
| Put (key : bytes) (entry : PersistentEntry)
| DeleteKey (key : bytes).

Record CommittedBatch {JN : JsonNumber} : Type := mkBatch {
  effects : list CommittedEffect
}.

Definition PersistentEntry_from {JN : JsonNumber} (e : DataEntry) : PersistentEntry :=
  mkPersistent JN (value e) (expires_at e).

(** [into_data_entry], at one clock reading. *)
Definition into_data_entry {JN : JsonNumber} (now : Z) (p : PersistentEntry) : DataEntry :=
  mkEntry JN (p_value p) (p_expires_at p) now now.

(** ** Equality of entries ([PartialEq])

    Floating-point payloads compare numerically, so a zero equals a zero of
    the other sign and a NaN differs from itself. *)

Fixpoint list_eqb {A} (eqb : A -> A -> bool) (l k : list A) : bool :=
  match l, k with
  | [], [] => true
  | a :: l, b :: k => eqb a b && list_eqb eqb l k
  | _, _ => false
  end.

Definition onyx_eqb {JN : JsonNumber} (a b : OnyxValue) : bool :=
  match a, b with
  | Blob x, Blob y => bytes_eqb x y
  | Int x, Int y => x =? y
  | Float x, Float y => F64.eqb x y
  | VList x, VList y => list_eqb bytes_eqb x y
  | Hash x, Hash y => bool_decide (x = y)
  | VSet x, VSet y => bool_decide (x = y)
  | Json x, Json y => value_eqb x y
  | Vector x, Vector y => list_eqb f32_eqb x y
  | _, _ => false
  end.

Definition entry_eqb {JN : JsonNumber} (a b : PersistentEntry) : bool :=
  onyx_eqb (p_value a) (p_value b) && bool_decide (p_expires_at a = p_expires_at b).

Definition opt_entry_eqb {JN : JsonNumber} (a b : option PersistentEntry) : bool :=
  match a, b with
  | Some x, Some y => entry_eqb x y
  | None, None => true
  | _, _ => false
  end.

Section Batches.
Context {JN : JsonNumber} {SJ : SerdeJson} {HO : HashOrder}.

Definition CommittedBatch_new (l : list CommittedEffect) : result PersistenceError CommittedBatch :=
  match l with
  | [] => Err (PersistenceError_new (bs "A committed mutation batch cannot be empty"))
  | _ => Ok (mkBatch JN l)
  end.

(** The first loop: one deletion per evicted key. *)
Fixpoint eviction_effects (deleted : gset bytes) (evicted : list (bytes * DataEntry))
  : list CommittedEffect * gset bytes :=
  match evicted with
  | [] => ([], deleted)
  | (key, _) :: rest =>
    if bool_decide (key ∈ deleted) then eviction_effects deleted rest
    else
      let '(effects, deleted) := eviction_effects ({[key]} ∪ deleted) rest in
      (DeleteKey key :: effects, deleted)
  end.

(** The body of the second loop for one key. *)
Definition key_effect (previous current : option PersistentEntry) (was_evicted : bool)
    (key : bytes) : list CommittedEffect :=
  if opt_entry_eqb previous current && negb was_evicted then []
  else
    match current with
    | Some entry => [Put key entry]
    | None => if was_evicted then [] else [DeleteKey key]
    end.

Fixpoint key_effects (clk : clock) (keys : list bytes) (before : gmap bytes (option DataEntry))
    (deleted : gset bytes) : prog (list CommittedEffect) :=
  match keys with
  | [] => mret []
  | key :: rest =>
    let previous := PersistentEntry_from <$> (match before !! key with Some o => o | None => None end) in
    current ← peek_entry clk key;
    effects ← key_effects (tick 1 clk) rest before deleted;
    mret (key_effect previous (PersistentEntry_from <$> current) (bool_decide (key ∈ deleted)) key
            ++ effects)
  end.

Definition derive_committed_batch (clk : clock) (keys : list bytes)
    (before : gmap bytes (option DataEntry)) (evicted : list (bytes * DataEntry))
  : prog (option CommittedBatch) :=
  let '(evictions, deleted) := eviction_effects ∅ evicted in
  effects ← key_effects clk keys before deleted;
  mret (match evictions ++ effects with
        | [] => None
        | l => Some (mkBatch JN l)
        end).

(** One effect; [into_data_entry] reads the clock before the store does. *)
Definition apply_effect (clk : clock) (effect : CommittedEffect) : prog unit :=
  match effect with
  | Put key entry =>
    _ ← store_apply_entry (tick 1 clk) key (into_data_entry (clk 0%nat) entry); mret tt
  | DeleteKey key => _ ← delete_bytes clk key; mret tt
  end.

(** Clock readings of one effect. *)
Definition EFFECT_TICKS : nat := 8.

Fixpoint apply_effects (clk : clock) (l : list CommittedEffect) : prog unit :=
  match l with
  | [] => mret tt
  | effect :: rest => _ ← apply_effect clk effect; apply_effects (tick EFFECT_TICKS clk) rest
  end.

Definition apply_committed_batch (clk : clock) (batch : CommittedBatch) : prog unit :=
  apply_effects clk (effects batch).

End Batches.
