(* ===== verification/Codec.v ===== *)
(** * Codec: the binary formats (src/persistence/codec.rs)

    Big-endian integers, entry records, committed batches and checksummed
    binlog records.  A reader takes a buffer and an offset and returns what it
    read with the offset after it; [crc32fast::hash] is a parameter. *)

From Stdlib Require Import ZArith Lia.
From Stdlib Require Import Strings.Byte.
From stdpp Require Import base gmap list strings numbers.
From S2P Require Import Prelude Text Json JsonPath Value Shard Engine Store Persistence Model.

Open Scope Z_scope.

Class Crc32 := {
  crc32 : bytes -> Z;
  crc32_range : forall b, 0 <= crc32 b <= U32_MAX
}.

Definition BINLOG_RECORD_MAGIC : bytes := bs "ONX4".
Definition CHECKSUMLESS_BINLOG_RECORD_MAGIC : bytes := bs "ONX3".
Definition PREVIOUS_BINLOG_RECORD_MAGIC : bytes := bs "ONX2".
Definition BINLOG_CHECKSUM_SIZE : Z := 4.
Definition BINLOG_RECORD_LENGTH_SIZE : Z := 4.
Definition MAX_BINLOG_RECORD_SIZE : Z := 512 * 1024 * 1024 + 1024.
Definition MAX_SNAPSHOT_RECORD_SIZE : Z := 512 * 1024 * 1024 + 1024.

(** ** Integers *)

Definition write_u32_be (buf : bytes) (val : Z) : bytes :=
  buf ++ [Z_byte (Z.shiftr val 24); Z_byte (Z.shiftr val 16); Z_byte (Z.shiftr val 8); Z_byte val].

Definition write_u64_be (buf : bytes) (val : Z) : bytes :=
  buf ++ [Z_byte (Z.shiftr val 56); Z_byte (Z.shiftr val 48); Z_byte (Z.shiftr val 40);
          Z_byte (Z.shiftr val 32); Z_byte (Z.shiftr val 24); Z_byte (Z.shiftr val 16);
          Z_byte (Z.shiftr val 8); Z_byte val].

(** [u32::from_be_bytes] and [u64::from_be_bytes]: the bytes from the most
    significant on. *)
Definition from_be_bytes (b : bytes) : Z :=
  fold_left (fun acc x => Z.lor (Z.shiftl acc 8) (byte_Z x)) b 0.

(** [i64::from_be_bytes] of the unsigned value. *)
Definition as_i64 (z : Z) : Z := if z <=? I64_MAX then z else z - (U64_MAX + 1).

Definition safe_slice (b : bytes) (offset length : Z) : option bytes :=
  stop ← checked_add offset length;
  get_range b offset stop.

(** [bytes[i] as uN], for an index already checked against the length. *)
Definition byte_at (b : bytes) (i : Z) : Z :=
  match nth_byte b i with Some x => byte_Z x | None => 0 end.

Definition read_u32_be (b : bytes) (offset : Z) : option (Z * Z) :=
  stop ← checked_add offset 4;
  if len b <? stop then None
  else
    let val := Z.lor (Z.lor (Z.lor (Z.shiftl (byte_at b offset) 24)
                                   (Z.shiftl (byte_at b (offset + 1)) 16))
                            (Z.shiftl (byte_at b (offset + 2)) 8))
                     (byte_at b (offset + 3)) in
    Some (val, offset + 4).

Definition read_u64_be (b : bytes) (offset : Z) : option (Z * Z) :=
  stop ← checked_add offset 8;
  if len b <? stop then None
  else
    let val := Z.lor (Z.lor (Z.lor (Z.lor (Z.lor (Z.lor (Z.lor
                 (Z.shiftl (byte_at b offset) 56)
                 (Z.shiftl (byte_at b (offset + 1)) 48))
                 (Z.shiftl (byte_at b (offset + 2)) 40))
                 (Z.shiftl (byte_at b (offset + 3)) 32))
                 (Z.shiftl (byte_at b (offset + 4)) 24))
                 (Z.shiftl (byte_at b (offset + 5)) 16))
                 (Z.shiftl (byte_at b (offset + 6)) 8))
                 (byte_at b (offset + 7)) in
    Some (val, offset + 8).

(** ** Binlog records *)

Section Records.
Context {CRC : Crc32}.

Definition err_record_overflow : PersistenceError :=
  PersistenceError_new (bs "Binlog record length overflow").

Definition versioned_binlog_record_length (sequence effect_record_length : Z)
  : result PersistenceError Z :=
  if sequence =? 0
  then Err (PersistenceError_new (bs "Versioned binlog records require a non-zero sequence"))
  else
    record_length ← ok_or
      (l ← checked_add (len BINLOG_RECORD_MAGIC) BINLOG_RECORD_LENGTH_SIZE;
       l ← checked_add l 8;
       l ← checked_add l effect_record_length;
       checked_add l BINLOG_CHECKSUM_SIZE) err_record_overflow;
    if MAX_BINLOG_RECORD_SIZE <? record_length
    then Err (PersistenceError_new (bs "Binlog record exceeds the format limit"))
    else Ok record_length.

(** [u32::try_from]. *)
Definition u32_try_from (n : Z) : option Z := if n <=? U32_MAX then Some n else None.

Definition err_record_u32 : PersistenceError :=
  PersistenceError_new (bs "Binlog record length exceeds u32").

Definition encode_versioned_binlog_record_into (sequence : Z) (effect_record output : bytes)
  : result PersistenceError bytes :=
  record_length ← versioned_binlog_record_length sequence (len effect_record);
  let record_start := len output in
  let output := output ++ BINLOG_RECORD_MAGIC in
  l ← ok_or (u32_try_from record_length) err_record_u32;
  let output := write_u32_be output l in
  let output := write_u64_be output sequence in
  let output := output ++ effect_record in
  let checksum := crc32 (drop (Z.to_nat record_start) output) in
  Ok (write_u32_be output checksum).

Definition encode_framed_versioned_binlog_record_into (sequence : Z) (effect_record output : bytes)
  : result PersistenceError bytes :=
  record_length ← versioned_binlog_record_length sequence (len effect_record);
  l ← ok_or (u32_try_from record_length) err_record_u32;
  encode_versioned_binlog_record_into sequence effect_record (write_u32_be output l).

Definition framed_versioned_binlog_record_length (effect_record_length : Z)
  : result PersistenceError Z :=
  l ← versioned_binlog_record_length 1 effect_record_length;
  ok_or (checked_add l BINLOG_RECORD_LENGTH_SIZE)
    (PersistenceError_new (bs "Framed binlog record length overflow")).

Inductive BinlogRecordIntegrity : Type := Checksummed | ChecksumlessLegacy.

#[export] Instance integrity_eq_dec : EqDecision BinlogRecordIntegrity.
Proof. solve_decision. Defined.

Record DecodedBinlogRecord : Type := mkVersioned {
  rec_sequence : Z;
  rec_effects : bytes;
  rec_integrity : BinlogRecordIntegrity
}.

Definition err_length_mismatch (outer embedded : Z) : PersistenceError :=
  PersistenceError_new (bs "Binlog record length mismatch: outer length " ++ print_Z outer
                        ++ bs ", embedded length " ++ print_Z embedded).

(** The magic, the end of the effects, and whether the checksum was verified. *)
Definition record_framing (record : bytes)
  : result PersistenceError (bytes * Z * BinlogRecordIntegrity) :=
  if starts_with record BINLOG_RECORD_MAGIC then
    checksum_offset ← ok_or
      (o ← checked_sub (len record) BINLOG_CHECKSUM_SIZE;
       if len BINLOG_RECORD_MAGIC + BINLOG_RECORD_LENGTH_SIZE + 8 <=? o then Some o else None)
      (PersistenceError_new (bs "Truncated checksummed binlog record"));
    let expected_checksum := from_be_bytes (drop (Z.to_nat checksum_offset) record) in
    let actual_checksum := crc32 (take (Z.to_nat checksum_offset) record) in
    if negb (actual_checksum =? expected_checksum)
    then Err (PersistenceError_new (bs "Binlog record checksum mismatch"))
    else Ok (BINLOG_RECORD_MAGIC, checksum_offset, Checksummed)
  else if starts_with record CHECKSUMLESS_BINLOG_RECORD_MAGIC then
    Ok (CHECKSUMLESS_BINLOG_RECORD_MAGIC, len record, ChecksumlessLegacy)
  else
    Err (PersistenceError_new (bs "Unsupported unsafe binlog format: " ++
      (if starts_with record PREVIOUS_BINLOG_RECORD_MAGIC then bs "ONX2 command records"
       else bs "legacy command records"))).

Definition decode_binlog_record (record : bytes) : result PersistenceError DecodedBinlogRecord :=
  '(magic, effects_end, integrity) ← record_framing record;
  offset ← (if bool_decide (integrity = Checksummed) then
              '(embedded_length, offset) ← ok_or (read_u32_be record (len magic))
                (PersistenceError_new (bs "Missing embedded binlog record length"));
              if negb (embedded_length =? len record)
              then Err (err_length_mismatch (len record) embedded_length)
              else Ok offset
            else Ok (len magic));
  '(sequence, offset) ← ok_or (read_u64_be record offset)
    (PersistenceError_new (bs "Truncated versioned binlog record header"));
  if sequence =? 0
  then Err (PersistenceError_new (bs "Versioned binlog records must have a non-zero sequence"))
  else
    effects ← ok_or (get_range record offset effects_end)
      (PersistenceError_new (bs "Missing committed-effect payload"));
    match effects with
    | [] => Err (PersistenceError_new
              (bs "Versioned binlog record contains an empty committed-effect payload"))
    | _ => Ok (mkVersioned sequence effects integrity)
    end.

End Records.

(** ** Entries *)

Definition checked_u32_length (length : Z) (description : bytes) : result PersistenceError Z :=
  ok_or (u32_try_from length) (PersistenceError_new (description ++ bs " exceeds the format limit")).

Definition append_snapshot_bytes (record b : bytes) : result PersistenceError bytes :=
  length ← checked_u32_length (len b) (bs "Snapshot value");
  Ok (write_u32_be record length ++ b).

Fixpoint append_all (record : bytes) (values : list bytes) : result PersistenceError bytes :=
  match values with
  | [] => Ok record
  | v :: rest => record ← append_snapshot_bytes record v; append_all record rest
  end.

Fixpoint append_pairs (record : bytes) (values : list (bytes * bytes)) : result PersistenceError bytes :=
  match values with
  | [] => Ok record
  | (field, v) :: rest =>
    record ← append_snapshot_bytes record field;
    record ← append_snapshot_bytes record v;
    append_pairs record rest
  end.

Section Entries.
Context {JN : JsonNumber} {SJ : SerdeJson} {HO : HashOrder}.

Definition count_of {A} (values : list A) (too_large : bytes) : result PersistenceError Z :=
  ok_or (u32_try_from (len values)) (PersistenceError_new too_large).

(** The type tag and payload of a value. *)
Definition encode_value_into (record : bytes) (v : OnyxValue) : result PersistenceError bytes :=
  match v with
  | Blob b => append_snapshot_bytes (record ++ [x01]) b
  | Int n => Ok (write_u64_be (record ++ [x02]) (wrap64 n))
  | Float bits => Ok (write_u64_be (record ++ [x03]) bits)
  | VList l =>
    n ← count_of l (bs "Snapshot list is too large");
    append_all (write_u32_be (record ++ [x04]) n) l
  | Hash h =>
    n ← count_of (hm_iter h) (bs "Snapshot hash is too large");
    append_pairs (write_u32_be (record ++ [x05]) n) (hm_iter h)
  | VSet s =>
    n ← count_of (hs_iter s) (bs "Snapshot set is too large");
    append_all (write_u32_be (record ++ [x06]) n) (hs_iter s)
  | Json j => append_snapshot_bytes (record ++ [x07]) (json_to_string j)
  | Vector l =>
    n ← count_of l (bs "Snapshot vector is too large");
    Ok (fold_left write_u32_be l (write_u32_be (record ++ [x08]) n))
  end.

Definition encode_snapshot_entry (key : bytes) (entry : DataEntry) : result PersistenceError bytes :=
  record ← append_snapshot_bytes [] key;
  let record := write_u64_be record (match expires_at entry with Some x => x | None => 0 end) in
  record ← encode_value_into record (value entry);
  if MAX_SNAPSHOT_RECORD_SIZE <? len record
  then Err (PersistenceError_new (bs "Snapshot entry exceeds the format limit"))
  else Ok record.

Definition read_snapshot_bytes (record : bytes) (offset : Z) : option (bytes * Z) :=
  '(length, offset) ← read_u32_be record offset;
  b ← safe_slice record offset length;
  offset ← checked_add offset length;
  Some (b, offset).

Fixpoint read_many (n : nat) (record : bytes) (offset : Z)
  : result PersistenceError (list bytes * Z) :=
  match n with
  | O => Ok ([], offset)
  | S n =>
    '(v, offset) ← ok_or (read_snapshot_bytes record offset)
      (PersistenceError_new (bs "Invalid snapshot collection value"));
    '(rest, offset) ← read_many n record offset;
    Ok (v :: rest, offset)
  end.

Definition read_values (record : bytes) (offset : Z) : result PersistenceError (list bytes * Z) :=
  '(count, offset) ← ok_or (read_u32_be record offset)
    (PersistenceError_new (bs "Invalid snapshot collection count"));
  if sat_sub (len record) offset / 4 <? count
  then Err (PersistenceError_new (bs "Snapshot collection count exceeds the record bounds"))
  else read_many (Z.to_nat count) record offset.

Fixpoint read_fields (n : nat) (record : bytes) (offset : Z) (values : gmap bytes bytes)
  : result PersistenceError (gmap bytes bytes * Z) :=
  match n with
  | O => Ok (values, offset)
  | S n =>
    '(field, offset) ← ok_or (read_snapshot_bytes record offset)
      (PersistenceError_new (bs "Invalid snapshot hash field"));
    '(v, offset) ← ok_or (read_snapshot_bytes record offset)
      (PersistenceError_new (bs "Invalid snapshot hash value"));
    read_fields n record offset (<[field := v]> values)
  end.

(** [chunks_exact(4)] with [u32::from_be_bytes] on each chunk. *)
Fixpoint be_chunks (b : bytes) : list Z :=
  match b with
  | b0 :: b1 :: b2 :: b3 :: rest => from_be_bytes [b0; b1; b2; b3] :: be_chunks rest
  | _ => []
  end.

Definition read_blob (what : bytes) (record : bytes) (offset : Z)
  : result PersistenceError (bytes * Z) :=
  ok_or (read_snapshot_bytes record offset) (PersistenceError_new (bs "Invalid snapshot " ++ what)).

Definition decode_hash (record : bytes) (offset : Z) : result PersistenceError (OnyxValue * Z) :=
  '(count, offset) ← ok_or (read_u32_be record offset)
    (PersistenceError_new (bs "Invalid snapshot hash count"));
  if sat_sub (len record) offset / 8 <? count
  then Err (PersistenceError_new (bs "Snapshot hash count exceeds the record bounds"))
  else
    '(values, offset) ← read_fields (Z.to_nat count) record offset ∅;
    Ok (Hash values, offset).

Definition decode_vector (record : bytes) (offset : Z) : result PersistenceError (OnyxValue * Z) :=
  '(count, offset) ← ok_or (read_u32_be record offset)
    (PersistenceError_new (bs "Invalid snapshot vector count"));
  byte_length ← ok_or (checked_mul count 4)
    (PersistenceError_new (bs "Snapshot vector length overflow"));
  b ← ok_or (safe_slice record offset byte_length)
    (PersistenceError_new (bs "Invalid snapshot vector"));
  Ok (Vector (be_chunks b), offset + byte_length).

(** The value after its type tag. *)
Definition decode_value (value_type : Z) (record : bytes) (offset : Z)
  : result PersistenceError (OnyxValue * Z) :=
  if value_type =? 1 then
    '(b, offset) ← read_blob (bs "blob") record offset; Ok (Blob b, offset)
  else if value_type =? 2 then
    b ← ok_or (safe_slice record offset 8) (PersistenceError_new (bs "Invalid snapshot integer"));
    Ok (Int (as_i64 (from_be_bytes b)), offset + 8)
  else if value_type =? 3 then
    '(bits, offset) ← ok_or (read_u64_be record offset)
      (PersistenceError_new (bs "Invalid snapshot float"));
    Ok (Float bits, offset)
  else if value_type =? 4 then
    '(l, offset) ← read_values record offset; Ok (VList l, offset)
  else if value_type =? 5 then decode_hash record offset
  else if value_type =? 6 then
    '(l, offset) ← read_values record offset; Ok (VSet (list_to_set l), offset)
  else if value_type =? 7 then
    '(b, offset) ← read_blob (bs "JSON value") record offset;
    j ← ok_or (json_from_str b) (PersistenceError_new (json_error b));
    Ok (Json j, offset)
  else if value_type =? 8 then decode_vector record offset
  else Err (PersistenceError_new (bs "Unknown snapshot value type")).

Definition decode_snapshot_entry (now : Z) (record : bytes)
  : result PersistenceError (bytes * DataEntry) :=
  '(key, offset) ← read_blob (bs "key") record 0;
  '(expiry, offset) ← ok_or (read_u64_be record offset)
    (PersistenceError_new (bs "Invalid snapshot expiry"));
  value_type ← ok_or (nth_byte record offset)
    (PersistenceError_new (bs "Missing snapshot value type"));
  '(v, offset) ← decode_value (byte_Z value_type) record (offset + 1);
  if negb (offset =? len record)
  then Err (PersistenceError_new (bs "Trailing bytes in snapshot entry"))
  else Ok (key, mkEntry JN v (if expiry =? 0 then None else Some expiry) now now).

(** ** Committed batches *)

Definition EFFECT_PUT : byte := x01.
Definition EFFECT_DELETE : byte := x02.

Definition encode_effect_into (encoded : bytes) (effect : CommittedEffect)
  : result PersistenceError bytes :=
  match effect with
  | Put key entry =>
    record ← encode_snapshot_entry key (mkEntry JN (p_value entry) (p_expires_at entry) 0 0);
    append_snapshot_bytes (encoded ++ [EFFECT_PUT]) record
  | DeleteKey key => append_snapshot_bytes (encoded ++ [EFFECT_DELETE]) key
  end.

Fixpoint encode_effects_into (encoded : bytes) (l : list CommittedEffect)
  : result PersistenceError bytes :=
  match l with
  | [] => Ok encoded
  | effect :: rest => encoded ← encode_effect_into encoded effect; encode_effects_into encoded rest
  end.

Definition encode_committed_batch (batch : CommittedBatch) : result PersistenceError bytes :=
  if len (effects batch) =? 0
  then Err (PersistenceError_new (bs "Committed-effect batch cannot be empty"))
  else
    count ← count_of (effects batch) (bs "Committed-effect batch is too large");
    encoded ← encode_effects_into (write_u32_be [] count) (effects batch);
    if MAX_BINLOG_RECORD_SIZE <? len encoded
    then Err (PersistenceError_new (bs "Committed-effect batch exceeds the binlog record limit"))
    else Ok encoded.

Definition decode_effect (now : Z) (encoded : bytes) (offset : Z)
  : result PersistenceError (CommittedEffect * Z) :=
  opcode ← ok_or (nth_byte encoded offset)
    (PersistenceError_new (bs "Missing committed-effect opcode"));
  '(payload, offset) ← ok_or (read_snapshot_bytes encoded (offset + 1))
    (PersistenceError_new (bs "Invalid committed-effect payload"));
  if bool_decide (opcode = EFFECT_PUT) then
    '(key, entry) ← decode_snapshot_entry now payload;
    Ok (Put key (PersistentEntry_from entry), offset)
  else if bool_decide (opcode = EFFECT_DELETE) then Ok (DeleteKey payload, offset)
  else Err (PersistenceError_new (bs "Unknown committed-effect opcode: " ++ print_Z (byte_Z opcode))).

Fixpoint decode_effects (clk : clock) (n : nat) (encoded : bytes) (offset : Z)
  : result PersistenceError (list CommittedEffect * Z) :=
  match n with
  | O => Ok ([], offset)
  | S n =>
    '(effect, offset) ← decode_effect (clk 0%nat) encoded offset;
    '(rest, offset) ← decode_effects (tick 1 clk) n encoded offset;
    Ok (effect :: rest, offset)
  end.

Definition decode_committed_batch (clk : clock) (encoded : bytes)
  : result PersistenceError CommittedBatch :=
  '(count, offset) ← ok_or (read_u32_be encoded 0)
    (PersistenceError_new (bs "Missing committed-effect count"));
  if count =? 0
  then Err (PersistenceError_new (bs "Committed-effect batch cannot be empty"))
  else if sat_sub (len encoded) offset / 5 <? count
  then Err (PersistenceError_new (bs "Committed-effect count exceeds the record bounds"))
  else
    '(l, offset) ← decode_effects clk (Z.to_nat count) encoded offset;
    if negb (offset =? len encoded)
    then Err (PersistenceError_new (bs "Trailing bytes in committed-effect batch"))
    else CommittedBatch_new l.

End Entries.
