(* ===== verification/CodecSpec.v ===== *)
(** * CodecSpec: what is encoded is read back

    [reads r enc a] says that the reader [r], placed at [enc] anywhere in a
    buffer, returns [a] and moves past [enc].  The readers of the codec read
    what the writers wrote, up to whole entries, batches and binlog records. *)

From Stdlib Require Import ZArith Lia.
From Stdlib Require Import Strings.Byte.
From stdpp Require Import base gmap list strings numbers.
From S2P Require Import Prelude Text Json JsonPath Value Shard Engine Store Persistence Model Codec.

Open Scope Z_scope.

(** Injectivity without computing the sides. *)
Lemma Ok_inj {E A} (a b : A) : @Ok E A a = Ok b -> a = b.
Proof. congruence. Qed.

Lemma ok_bind {E A B} (a : A) (e : E) (f : A -> result E B) : (ok_or (Some a) e ≫= f) = f a.
Proof. reflexivity. Qed.

Lemma Ok_bind {E A B} (a : A) (f : A -> result E B) : (Ok a ≫= f) = f a.
Proof. reflexivity. Qed.

(** Runs a reader step whose outcome is known. *)
Ltac step := repeat (first [rewrite ok_bind | rewrite Ok_bind]; cbv beta iota).

(** ** Integers *)

Definition be32 (v : Z) : bytes := write_u32_be [] v.
Definition be64 (v : Z) : bytes := write_u64_be [] v.
Arguments be32 v : simpl never.
Arguments be64 v : simpl never.

Lemma write_u32_be_app b v : write_u32_be b v = b ++ be32 v.
Proof. reflexivity. Qed.

Lemma write_u64_be_app b v : write_u64_be b v = b ++ be64 v.
Proof. reflexivity. Qed.

Lemma len_be32 v : len (be32 v) = 4.
Proof. reflexivity. Qed.

Lemma len_be64 v : len (be64 v) = 8.
Proof. reflexivity. Qed.

Lemma land_disjoint x y n : 0 <= n -> 0 <= y < 2 ^ n -> Z.land (Z.shiftl x n) y = 0.
Proof.
  intros Hn Hy. rewrite <- (Z.mod_small y (2 ^ n) Hy). apply Z.bits_inj'. intros i Hi.
  rewrite Z.land_spec, Z.bits_0. destruct (Z.ltb_spec i n) as [Hlt|Hge].
  - by rewrite Z.shiftl_spec_low.
  - rewrite Z.mod_pow2_bits_high by lia. apply andb_false_r.
Qed.

Lemma lor_disjoint x y n : 0 <= n -> 0 <= y < 2 ^ n -> Z.lor (Z.shiftl x n) y = x * 2 ^ n + y.
Proof.
  intros Hn Hy. pose proof (land_disjoint x y n Hn Hy) as H.
  rewrite <- Z.lxor_lor, <- Z.add_nocarry_lxor by done. by rewrite Z.shiftl_mul_pow2.
Qed.

Lemma shifts_as_fold (a b c d : byte) :
  Z.lor (Z.lor (Z.lor (Z.shiftl (byte_Z a) 24) (Z.shiftl (byte_Z b) 16)) (Z.shiftl (byte_Z c) 8)) (byte_Z d) =
  from_be_bytes [a; b; c; d].
Proof.
  unfold from_be_bytes. cbn [fold_left]. rewrite Z.shiftl_0_l, Z.lor_0_l.
  by rewrite !Z.shiftl_lor, !Z.shiftl_shiftl by lia.
Qed.

Lemma shifts_as_fold8 (a b c d e f g h : byte) :
  Z.lor (Z.lor (Z.lor (Z.lor (Z.lor (Z.lor (Z.lor (Z.shiftl (byte_Z a) 56) (Z.shiftl (byte_Z b) 48))
    (Z.shiftl (byte_Z c) 40)) (Z.shiftl (byte_Z d) 32)) (Z.shiftl (byte_Z e) 24)) (Z.shiftl (byte_Z f) 16))
    (Z.shiftl (byte_Z g) 8)) (byte_Z h) = from_be_bytes [a; b; c; d; e; f; g; h].
Proof.
  unfold from_be_bytes. cbn [fold_left]. rewrite Z.shiftl_0_l, Z.lor_0_l.
  by rewrite !Z.shiftl_lor, !Z.shiftl_shiftl by lia.
Qed.

Lemma from_be_app b x : from_be_bytes (b ++ [x]) = from_be_bytes b * 256 + byte_Z x.
Proof.
  unfold from_be_bytes. rewrite fold_left_app. cbn [fold_left]. apply lor_disjoint; [lia|apply byte_Z_range].
Qed.

(** Appending the next lower byte of [v]. *)
Lemma be_next b v k : 0 <= k -> from_be_bytes b = Z.shiftr v (k + 8) ->
  from_be_bytes (b ++ [Z_byte (Z.shiftr v k)]) = Z.shiftr v k.
Proof.
  intros Hk Hb. rewrite from_be_app, Hb, byte_Z_of_Z, <- Z.shiftr_shiftr by lia.
  rewrite (Z.shiftr_div_pow2 _ 8) by lia. change (2 ^ 8) with 256.
  pose proof (Z.div_mod (Z.shiftr v k) 256 ltac:(lia)). lia.
Qed.

Lemma be_first v k : 0 <= k -> 0 <= v < 2 ^ (k + 8) -> from_be_bytes [Z_byte (Z.shiftr v k)] = Z.shiftr v k.
Proof.
  intros Hk Hv. apply (be_next []); [done|]. rewrite Z.shiftr_div_pow2 by lia.
  symmetry. by apply Z.div_small.
Qed.

Lemma from_be32 v : 0 <= v <= U32_MAX -> from_be_bytes (be32 v) = v.
Proof.
  intros Hv. change (be32 v) with ((([Z_byte (Z.shiftr v 24)] ++ [Z_byte (Z.shiftr v 16)])
    ++ [Z_byte (Z.shiftr v 8)]) ++ [Z_byte (Z.shiftr v 0)]).
  rewrite be_next, Z.shiftr_0_r; [done..|]. rewrite be_next; [done..|]. rewrite be_next; [done..|].
  apply be_first; [done|]. unfold U32_MAX in Hv. change (2 ^ (24 + 8)) with 4294967296. lia.
Qed.

Lemma from_be64 v : 0 <= v <= U64_MAX -> from_be_bytes (be64 v) = v.
Proof.
  intros Hv. change (be64 v) with ((((((([Z_byte (Z.shiftr v 56)] ++ [Z_byte (Z.shiftr v 48)])
    ++ [Z_byte (Z.shiftr v 40)]) ++ [Z_byte (Z.shiftr v 32)]) ++ [Z_byte (Z.shiftr v 24)])
    ++ [Z_byte (Z.shiftr v 16)]) ++ [Z_byte (Z.shiftr v 8)]) ++ [Z_byte (Z.shiftr v 0)]).
  rewrite be_next, Z.shiftr_0_r; [done..|]. do 6 (rewrite be_next; [done..|]).
  apply be_first; [done|]. unfold U64_MAX in Hv. change (2 ^ (56 + 8)) with 18446744073709551616. lia.
Qed.

Lemma as_i64_wrap n : I64_MIN <= n <= I64_MAX -> as_i64 (wrap64 n) = n.
Proof.
  unfold as_i64, wrap64, I64_MIN, I64_MAX, U64_MAX. intros Hn.
  destruct (Z.leb_spec 0 n) as [H|H].
  - rewrite Z.mod_small by lia. by rewrite (proj2 (Z.leb_le n _)) by lia.
  - rewrite <- (Z.mod_add n 1) by lia. rewrite Z.mod_small by lia.
    rewrite (proj2 (Z.leb_gt _ _)) by lia. lia.
Qed.

Lemma wrap64_range n : 0 <= wrap64 n <= U64_MAX.
Proof. unfold wrap64. pose proof (Z.mod_pos_bound n (U64_MAX + 1) ltac:(done)). lia. Qed.

(** ** Readers *)

(** The buffers the source works on fit the address space. *)
Definition reads {A} (r : bytes -> Z -> option (A * Z)) (enc : bytes) (a : A) : Prop :=
  forall p q, len (p ++ enc ++ q) <= USIZE_MAX ->
    r (p ++ enc ++ q) (len p) = Some (a, len p + len enc).

Lemma byte_at_app (p l : bytes) (i : Z) x q :
  0 <= i -> l !! Z.to_nat i = Some x -> byte_at (p ++ l ++ q) (len p + i) = byte_Z x.
Proof.
  intros H0 Hi. unfold byte_at, nth_byte, len. rewrite (proj2 (Z.ltb_ge _ _)) by lia.
  replace (Z.to_nat (Z.of_nat (length p) + i)) with (length p + Z.to_nat i)%nat by lia.
  rewrite lookup_app_r by lia. replace (length p + Z.to_nat i - length p)%nat with (Z.to_nat i) by lia.
  by rewrite (lookup_app_l_Some _ _ _ _ Hi).
Qed.

Lemma byte_at_start (p l : bytes) x q :
  l !! 0%nat = Some x -> byte_at (p ++ l ++ q) (len p) = byte_Z x.
Proof. intros H. rewrite <- (Z.add_0_r (len p)). by apply byte_at_app. Qed.

(** Evaluates the byte accesses of a reader placed at the known bytes [l]. *)
Ltac read_bytes p l q :=
  rewrite (byte_at_start p l _ q eq_refl);
  repeat match goal with
  | |- context [byte_at (p ++ l ++ q) (len p + ?i)] =>
      rewrite (byte_at_app p l i _ q ltac:(lia) eq_refl)
  end.

(** The bounds check of a reader of [len enc] bytes at [enc]. *)
Lemma read_guard (p enc q : bytes) :
  len (p ++ enc ++ q) <= USIZE_MAX ->
  checked_add (len p) (len enc) = Some (len p + len enc) /\
  (len (p ++ enc ++ q) <? len p + len enc) = false.
Proof.
  rewrite !len_app. intros H. pose proof (len_nonneg q). unfold checked_add, USIZE_MAX in *.
  rewrite (proj2 (Z.leb_le _ _)) by lia. split; [done|]. apply Z.ltb_ge. lia.
Qed.

Lemma reads_u32 v : 0 <= v <= U32_MAX -> reads read_u32_be (be32 v) v.
Proof.
  intros Hv p q Hq. destruct (read_guard _ _ _ Hq) as [Hc Hl]. rewrite len_be32 in *.
  unfold read_u32_be. rewrite Hc. cbn [mbind option_bind]. rewrite Hl. cbv zeta.
  read_bytes p (be32 v) q.
  rewrite shifts_as_fold. do 2 f_equal. by apply from_be32.
Qed.

Lemma reads_u64 v : 0 <= v <= U64_MAX -> reads read_u64_be (be64 v) v.
Proof.
  intros Hv p q Hq. destruct (read_guard _ _ _ Hq) as [Hc Hl]. rewrite len_be64 in *.
  unfold read_u64_be. rewrite Hc. cbn [mbind option_bind]. rewrite Hl. cbv zeta.
  read_bytes p (be64 v) q.
  rewrite shifts_as_fold8. do 2 f_equal. by apply from_be64.
Qed.

Lemma safe_slice_app p b q :
  len (p ++ b ++ q) <= USIZE_MAX -> safe_slice (p ++ b ++ q) (len p) (len b) = Some b.
Proof.
  intros H. unfold safe_slice. rewrite (proj1 (read_guard _ _ _ H)). cbn [mbind option_bind].
  apply get_range_app_middle.
Qed.

(** A length-prefixed byte string. *)
Definition prefixed (b : bytes) : bytes := be32 (len b) ++ b.
Arguments prefixed b : simpl never.

Lemma reads_bytes b : len b <= U32_MAX -> reads read_snapshot_bytes (prefixed b) b.
Proof.
  intros Hb p q Hq. unfold read_snapshot_bytes, prefixed in *. rewrite <- app_assoc in *.
  rewrite (reads_u32 (len b)) by (auto with onyx; pose proof (len_nonneg b); lia).
  cbn [mbind option_bind]. rewrite len_be32, (app_assoc p) in *.
  replace (len p + 4) with (len (p ++ be32 (len b))) by (by rewrite len_app).
  rewrite safe_slice_app by done. cbn [mbind option_bind].
  rewrite (proj1 (read_guard _ _ _ Hq)). cbn [mbind option_bind]. do 2 f_equal.
  rewrite !len_app, len_be32. lia.
Qed.

(** A reader that reports errors. *)
Definition parses {A} (r : bytes -> Z -> result PersistenceError (A * Z)) (enc : bytes) (a : A)
  : Prop :=
  forall p q, len (p ++ enc ++ q) <= USIZE_MAX ->
    r (p ++ enc ++ q) (len p) = Ok (a, len p + len enc).

Lemma reads_parses {A} (r : bytes -> Z -> option (A * Z)) enc a e :
  reads r enc a -> parses (fun b o => ok_or (r b o) e) enc a.
Proof. intros H p q Hq. by rewrite (H p q Hq). Qed.

(** A reader placed at the second of two encodings. *)
Lemma parses_after {A} (r : bytes -> Z -> result PersistenceError (A * Z)) p m enc q a :
  parses r enc a -> len (p ++ (m ++ enc) ++ q) <= USIZE_MAX ->
  r (p ++ (m ++ enc) ++ q) (len p + len m) = Ok (a, len p + len (m ++ enc)).
Proof.
  intros Hr Hq. rewrite <- (assoc_L (++)), (assoc_L (++) p m) in *. rewrite <- len_app.
  rewrite Hr by done. do 2 f_equal. rewrite !len_app. lia.
Qed.

(** ** What the writers append *)

Lemma append_bytes_spec record b r :
  append_snapshot_bytes record b = Ok r -> r = record ++ prefixed b /\ len b <= U32_MAX.
Proof.
  unfold append_snapshot_bytes, checked_u32_length, u32_try_from. intros H.
  destruct (len b <=? U32_MAX) eqn:E; [|discriminate H]. prop_tests.
  injection H as <-. rewrite write_u32_be_app, <- (assoc_L (++)). done.
Qed.

Lemma append_all_spec l record r :
  append_all record l = Ok r ->
  r = record ++ concat (map prefixed l) /\ Forall (fun b => len b <= U32_MAX) l.
Proof.
  revert record. induction l as [|b l IH]; intros record H; cbn [append_all] in H.
  { injection H as <-. by rewrite app_nil_r. }
  inv_binds. apply append_bytes_spec in Ha as [-> Hb]. apply IH in H as [-> Hl].
  rewrite <- (assoc_L (++)). split; [done|by constructor].
Qed.

Definition prefixed_pair (fv : bytes * bytes) : bytes := prefixed fv.1 ++ prefixed fv.2.

Lemma append_pairs_spec l record r :
  append_pairs record l = Ok r ->
  r = record ++ concat (map prefixed_pair l) /\
  Forall (fun fv : bytes * bytes => len fv.1 <= U32_MAX /\ len fv.2 <= U32_MAX) l.
Proof.
  revert record. induction l as [|[f v] l IH]; intros record H; cbn [append_pairs] in H.
  { injection H as <-. by rewrite app_nil_r. }
  inv_binds. apply append_bytes_spec in Ha as [-> Hf]. apply append_bytes_spec in Ha0 as [-> Hv].
  apply IH in H as [-> Hl]. cbn [map concat]. split; [|by constructor].
  change (prefixed_pair (f, v)) with (prefixed f ++ prefixed v). by rewrite !(assoc_L (++)).
Qed.

Lemma fold_write_u32 l record : fold_left write_u32_be l record = record ++ concat (map be32 l).
Proof.
  revert record. induction l as [|v l IH]; intros record; simpl; [by rewrite app_nil_r|].
  by rewrite IH, write_u32_be_app, <- (assoc_L (++)).
Qed.

(** ** Reading collections *)

Lemma len_prefixed b : len (prefixed b) = 4 + len b.
Proof. unfold prefixed. by rewrite len_app, len_be32. Qed.

Lemma parses_many l :
  Forall (fun b => len b <= U32_MAX) l ->
  parses (read_many (length l)) (concat (map prefixed l)) l.
Proof.
  induction 1 as [|b l Hb Hl IH]; intros p q Hq; cbn [read_many map concat length].
  { simpl. rewrite len_nil. do 2 f_equal. lia. }
  pose proof (reads_parses _ _ _ (PersistenceError_new (bs "Invalid snapshot collection value"))
    (reads_bytes b Hb)) as Hr.
  cbn [map concat] in Hq. rewrite <- (assoc_L (++)) in Hq. rewrite <- (assoc_L (++)).
  rewrite (Hr p (concat (map prefixed l) ++ q) Hq). cbn [mbind result_bind].
  rewrite (assoc_L (++) p) in Hq. rewrite (assoc_L (++) p), <- len_app, (IH _ q Hq).
  cbn [mbind result_bind]. do 2 f_equal. rewrite !len_app. lia.
Qed.

Lemma concat_prefixed_len l : 4 * len l <= len (concat (map prefixed l)).
Proof.
  induction l as [|b l IH]; cbn [map concat]; [done|]. rewrite len_app, len_cons, len_prefixed.
  pose proof (len_nonneg b). lia.
Qed.

(** A count followed by that many items of at least [k] bytes passes the check. *)
Lemma count_check (k n : Z) (p m items q : bytes) :
  0 < k -> k * n <= len items ->
  (sat_sub (len (p ++ (m ++ items) ++ q)) (len p + len m) / k <? n) = false.
Proof.
  intros Hk Hn. apply Z.ltb_ge. unfold sat_sub. rewrite !len_app.
  pose proof (len_nonneg q). pose proof (len_nonneg items).
  apply Z.div_le_lower_bound; lia.
Qed.

Lemma len_to_nat {A} (l : list A) : Z.to_nat (len l) = length l.
Proof. unfold len. lia. Qed.

Lemma parses_values l :
  len l <= U32_MAX -> Forall (fun b => len b <= U32_MAX) l ->
  parses read_values (be32 (len l) ++ concat (map prefixed l)) l.
Proof.
  intros Hn Hl p q Hq. unfold read_values.
  pose proof (len_nonneg l) as H0.
  pose proof Hq as Hq'. rewrite <- (assoc_L (++)) in Hq'.
  rewrite <- (assoc_L (++)) at 1.
  rewrite (reads_u32 (len l) ltac:(lia) p _ Hq'). cbn [ok_or mbind result_bind].
  rewrite count_check by (try lia; apply concat_prefixed_len). rewrite len_to_nat.
  by apply parses_after; [apply parses_many|].
Qed.

Definition insert_fields (m : gmap bytes bytes) (l : list (bytes * bytes)) : gmap bytes bytes :=
  fold_left (fun m (fv : bytes * bytes) => <[fv.1 := fv.2]> m) l m.

Lemma insert_fields_NoDup l m : NoDup l.*1 -> insert_fields m l = list_to_map l ∪ m.
Proof.
  revert m. induction l as [|[f v] l IH]; intros m Hnd; cbn [insert_fields fold_left fst snd].
  { symmetry. apply (left_id_L ∅ (∪)). }
  apply list.NoDup_cons in Hnd as [Hf Hnd]. unfold insert_fields in IH. rewrite IH by done. simpl.
  rewrite <- insert_union_l. symmetry. apply insert_union_r, not_elem_of_list_to_map_1, Hf.
Qed.

Lemma parses_fields l m :
  Forall (fun fv : bytes * bytes => len fv.1 <= U32_MAX /\ len fv.2 <= U32_MAX) l ->
  parses (fun b o => read_fields (length l) b o m) (concat (map prefixed_pair l)) (insert_fields m l).
Proof.
  intros Hl. revert m. induction Hl as [|[f v] l [Hf Hv] Hl IH]; intros m p q Hq;
    cbn [read_fields map concat length insert_fields fold_left fst snd] in *.
  { rewrite len_nil. do 2 f_equal. lia. }
  change (prefixed_pair (f, v)) with (prefixed f ++ prefixed v) in *.
  rewrite <- !(assoc_L (++)) in *.
  rewrite (reads_bytes f Hf p _ Hq). cbn [ok_or mbind result_bind].
  rewrite (assoc_L (++) p), <- len_app in *. rewrite (reads_bytes v Hv _ _ Hq). cbn [ok_or mbind result_bind].
  rewrite (assoc_L (++) (p ++ _)), <- len_app in *. rewrite (IH _ _ q Hq). do 2 f_equal.
  rewrite !len_app. lia.
Qed.

Lemma concat_pairs_len l : 8 * len l <= len (concat (map prefixed_pair l)).
Proof.
  induction l as [|[f v] l IH]; cbn [map concat]; [done|]. rewrite len_app, len_cons.
  unfold prefixed_pair at 1. rewrite len_app, !len_prefixed.
  pose proof (len_nonneg f). pose proof (len_nonneg v). simpl in *. lia.
Qed.

Lemma be_chunks_concat l : Forall (fun v => 0 <= v <= U32_MAX) l -> be_chunks (concat (map be32 l)) = l.
Proof.
  induction 1 as [|v l Hv Hl IH]; [done|]. cbn [map concat].
  change (from_be_bytes (be32 v) :: be_chunks (concat (map be32 l)) = v :: l).
  by rewrite from_be32, IH.
Qed.

Lemma concat_be32_len l : len (concat (map be32 l)) = 4 * len l.
Proof.
  induction l as [|v l IH]; [done|]. cbn [map concat]. rewrite len_app, len_cons, len_be32. lia.
Qed.

Section Entries.
Context {JN : JsonNumber} {SJ : SerdeJson} {HO : HashOrder}.

Lemma count_of_spec {A} (l : list A) e n : count_of l e = Ok n -> n = len l /\ len l <= U32_MAX.
Proof.
  unfold count_of, u32_try_from. intros H. destruct (len l <=? U32_MAX) eqn:E; [|discriminate H].
  prop_tests. by injection H as <-.
Qed.

Lemma parses_hash h :
  len (hm_iter h) <= U32_MAX ->
  Forall (fun fv : bytes * bytes => len fv.1 <= U32_MAX /\ len fv.2 <= U32_MAX) (hm_iter h) ->
  parses decode_hash (be32 (len (hm_iter h)) ++ concat (map prefixed_pair (hm_iter h))) (Hash h).
Proof.
  intros Hn Hl p q Hq. unfold decode_hash. pose proof (len_nonneg (hm_iter h)) as H0.
  pose proof Hq as Hq'. rewrite <- (assoc_L (++)) in Hq'. rewrite <- (assoc_L (++)) at 1.
  rewrite (reads_u32 (len (hm_iter h)) (conj H0 Hn) p _ Hq'). cbn [ok_or mbind result_bind].
  rewrite count_check by (try lia; apply concat_pairs_len). rewrite len_to_nat.
  pose proof (parses_after _ p (be32 (len (hm_iter h))) _ q _ (parses_fields (hm_iter h) ∅ Hl) Hq) as Hf.
  cbv beta in Hf. rewrite Hf. cbn [mbind result_bind]. do 3 f_equal.
  rewrite insert_fields_NoDup by apply hm_iter_NoDup. rewrite (right_id_L ∅ (∪)). apply list_to_map_hm_iter.
Qed.

Lemma parses_vector l :
  len l <= U32_MAX -> Forall (fun v => 0 <= v <= U32_MAX) l ->
  parses decode_vector (be32 (len l) ++ concat (map be32 l)) (Vector l).
Proof.
  intros Hn Hl p q Hq. unfold decode_vector. pose proof (len_nonneg l) as H0.
  rewrite <- (assoc_L (++)) in *.
  rewrite (reads_u32 (len l) ltac:(lia) p _ Hq). cbn [ok_or mbind result_bind].
  replace (checked_mul (len l) 4) with (Some (len (concat (map be32 l)))).
  2: { rewrite concat_be32_len. unfold checked_mul. rewrite (proj2 (Z.leb_le _ _)).
       - f_equal. lia.
       - unfold U32_MAX, U64_MAX in *. lia. }
  cbn [ok_or mbind result_bind]. rewrite (assoc_L (++) p), <- len_app in *. rewrite safe_slice_app by done.
  cbn [ok_or mbind result_bind]. rewrite be_chunks_concat by done. do 2 f_equal. rewrite !len_app. lia.
Qed.

Lemma len_nil_l (n : Z) : len (@nil byte) + n = n.
Proof. reflexivity. Qed.

(** ** Values and entries *)

(** Values whose encoding identifies them.  The text of a JSON document is
    parsed back by serde_json, so it is the part of the format that is not the
    codec's own. *)
Definition storable (v : OnyxValue) : Prop :=
  match v with
  | Int n => I64_MIN <= n <= I64_MAX
  | Float bits => 0 <= bits <= U64_MAX
  | Json j => json_from_str (json_to_string j) = Some j
  | Vector l => Forall (fun b => 0 <= b <= U32_MAX) l
  | Blob _ | VList _ | Hash _ | VSet _ => True
  end.

Lemma encode_value_spec record v r :
  storable v -> encode_value_into record v = Ok r ->
  exists tag payload, r = record ++ tag :: payload /\ parses (decode_value (byte_Z tag)) payload v.
Proof.
  intros Hs He. destruct v as [b|n|bits|l|h|s|j|l]; cbn [encode_value_into storable] in *.
  - apply append_bytes_spec in He as [-> Hb]. exists x01, (prefixed b).
    split; [by rewrite <- (assoc_L (++))|]. intros p q Hq. cbn [decode_value]. unfold decode_value, read_blob.
    by rewrite (reads_bytes b Hb p q Hq).
  - injection He as <-. exists x02, (be64 (wrap64 n)).
    split; [by rewrite write_u64_be_app, <- (assoc_L (++))|]. intros p q Hq.
    unfold decode_value. simpl Z.eqb. cbv iota.
    rewrite <- (len_be64 (wrap64 n)), safe_slice_app by done. cbn [ok_or mbind result_bind].
    rewrite from_be64 by apply wrap64_range. by rewrite as_i64_wrap.
  - injection He as <-. exists x03, (be64 bits).
    split; [by rewrite write_u64_be_app, <- (assoc_L (++))|]. intros p q Hq.
    unfold decode_value. simpl Z.eqb. cbv iota. by rewrite (reads_u64 bits Hs p q Hq).
  - inv_binds. apply count_of_spec in Ha as [-> Hn]. apply append_all_spec in He as [-> Hl].
    exists x04, (be32 (len l) ++ concat (map prefixed l)).
    split; [by rewrite write_u32_be_app, <- !(assoc_L (++))|]. intros p q Hq.
    unfold decode_value. simpl Z.eqb. cbv iota. by rewrite (parses_values l Hn Hl p q Hq).
  - inv_binds. apply count_of_spec in Ha as [-> Hn]. apply append_pairs_spec in He as [-> Hl].
    exists x05, (be32 (len (hm_iter h)) ++ concat (map prefixed_pair (hm_iter h))).
    split; [by rewrite write_u32_be_app, <- !(assoc_L (++))|]. by apply parses_hash.
  - inv_binds. apply count_of_spec in Ha as [-> Hn]. apply append_all_spec in He as [-> Hl].
    exists x06, (be32 (len (hs_iter s)) ++ concat (map prefixed (hs_iter s))).
    split; [by rewrite write_u32_be_app, <- !(assoc_L (++))|]. intros p q Hq.
    unfold decode_value. simpl Z.eqb. cbv iota. rewrite (parses_values _ Hn Hl p q Hq).
    cbn [mbind result_bind]. do 3 f_equal. by rewrite hs_iter_perm, list_to_set_elements_L.
  - apply append_bytes_spec in He as [-> Hb]. exists x07, (prefixed (json_to_string j)).
    split; [by rewrite <- (assoc_L (++))|]. intros p q Hq. unfold decode_value, read_blob. simpl Z.eqb. cbv iota.
    rewrite (reads_bytes _ Hb p q Hq). cbn [ok_or mbind result_bind]. by rewrite Hs.
  - inv_binds. apply count_of_spec in Ha as [-> Hn]. subst r.
    exists x08, (be32 (len l) ++ concat (map be32 l)).
    split; [by rewrite fold_write_u32, write_u32_be_app, <- !(assoc_L (++))|]. by apply parses_vector.
Qed.

Lemma max_record_fits : MAX_SNAPSHOT_RECORD_SIZE <= USIZE_MAX /\ MAX_BINLOG_RECORD_SIZE <= USIZE_MAX.
Proof. done. Qed.

(** A stored expiration is a positive timestamp: zero encodes its absence. *)
Definition expiry_ok (o : option Z) : Prop :=
  match o with Some x => 0 < x <= U64_MAX | None => True end.

Lemma entry_roundtrip now key e r :
  storable (value e) -> expiry_ok (expires_at e) -> encode_snapshot_entry key e = Ok r ->
  decode_snapshot_entry now r = Ok (key, mkEntry JN (value e) (expires_at e) now now) /\
  len r <= MAX_SNAPSHOT_RECORD_SIZE.
Proof.
  intros Hv Hx He. unfold encode_snapshot_entry in He. inv_binds.
  apply append_bytes_spec in Ha as [-> Hk]. simpl in Ha0.
  set (x := match expires_at e with Some x => x | None => 0 end) in *.
  assert (Hx' : 0 <= x <= U64_MAX).
  { subst x. destruct (expires_at e); simpl in Hx; unfold U64_MAX in *; lia. }
  apply encode_value_spec in Ha0 as (tag & payload & -> & Hp); [|done].
  rewrite write_u64_be_app, <- !(assoc_L (++)) in He.
  destruct (MAX_SNAPSHOT_RECORD_SIZE <? _) eqn:El in He; [discriminate He|]. prop_tests.
  apply Ok_inj in He as <-. split; [|done].
  assert (Hu : len (prefixed key ++ be64 x ++ tag :: payload) <= USIZE_MAX).
  { etrans; [exact El|apply max_record_fits]. }
  unfold decode_snapshot_entry, read_blob.
  rewrite (reads_bytes key Hk [] _ Hu : read_snapshot_bytes (prefixed key ++ _) 0 = _).
  rewrite len_nil_l. step.
  rewrite (reads_u64 x Hx' (prefixed key) _ Hu). step.
  rewrite (assoc_L (++)) in *. rewrite <- len_app, nth_byte_app_head. step.
  pose proof (Hp ((prefixed key ++ be64 x) ++ [tag]) []) as Hp'.
  rewrite app_nil_r, <- (assoc_L (++)) in Hp'. cbn [app] in Hp'. specialize (Hp' Hu).
  replace (len ((prefixed key ++ be64 x) ++ [tag])) with (len (prefixed key ++ be64 x) + 1) in Hp'
    by (rewrite !len_app; reflexivity).
  rewrite Hp'. step.
  replace (len (prefixed key ++ be64 x) + 1 + len payload) with (len ((prefixed key ++ be64 x) ++ tag :: payload))
    by (rewrite (len_app _ (tag :: payload)), len_cons; lia).
  rewrite Z.eqb_refl. cbn [negb]. do 3 f_equal.
  subst x. destruct (expires_at e) as [y|]; simpl in Hx; [|done].
  by rewrite (proj2 (Z.eqb_neq y 0)) by lia.
Qed.

(** ** Batches *)

Definition effect_ok (effect : CommittedEffect) : Prop :=
  match effect with
  | Put _ entry => storable (p_value entry) /\ expiry_ok (p_expires_at entry)
  | DeleteKey _ => True
  end.

Lemma parses_effect now encoded effect r :
  effect_ok effect -> encode_effect_into encoded effect = Ok r ->
  exists enc, r = encoded ++ enc /\ parses (decode_effect now) enc effect /\ 5 <= len enc.
Proof.
  intros Hok He.
  assert (Hgen : forall op payload e2, e2 = encoded ++ op :: prefixed payload ->
    5 <= len (op :: prefixed payload)).
  { intros op payload e2 _. rewrite len_cons, len_prefixed. pose proof (len_nonneg payload). lia. }
  assert (Hread : forall op payload p q, len payload <= U32_MAX ->
    len (p ++ (op :: prefixed payload) ++ q) <= USIZE_MAX ->
    nth_byte (p ++ (op :: prefixed payload) ++ q) (len p) = Some op /\
    read_snapshot_bytes (p ++ (op :: prefixed payload) ++ q) (len p + 1) =
      Some (payload, len p + len (op :: prefixed payload))).
  { intros op payload p q Hp Hq. cbn [app] in *. split; [apply nth_byte_app_head|].
    change (p ++ op :: prefixed payload ++ q) with (p ++ [op] ++ prefixed payload ++ q) in *.
    rewrite (assoc_L (++) p) in *. change (len p + 1) with (len p + len [op]). rewrite <- len_app.
    rewrite (reads_bytes payload Hp _ q Hq). do 2 f_equal. rewrite len_app, len_cons, len_nil, len_cons. lia. }
  destruct effect as [key entry|key]; cbn [encode_effect_into effect_ok] in *.
  - inv_binds. destruct Hok as [Hs Hx].
    apply (entry_roundtrip now) in Ha as [Hd _]; [|done|done].
    apply append_bytes_spec in He as [-> Hl]. exists (EFFECT_PUT :: prefixed a).
    split; [by rewrite <- (assoc_L (++))|]. split; [|by eapply Hgen]. intros p q Hq.
    unfold decode_effect. destruct (Hread EFFECT_PUT a p q Hl Hq) as [-> ->].
    step. rewrite bool_decide_eq_true_2 by done. rewrite Hd.
    step. by destruct entry.
  - apply append_bytes_spec in He as [-> Hl]. exists (EFFECT_DELETE :: prefixed key).
    split; [by rewrite <- (assoc_L (++))|]. split; [|by eapply Hgen]. intros p q Hq.
    unfold decode_effect. by destruct (Hread EFFECT_DELETE key p q Hl Hq) as [-> ->].
Qed.

Lemma parses_effects clk l encoded r :
  Forall effect_ok l -> encode_effects_into encoded l = Ok r ->
  exists enc, r = encoded ++ enc /\ parses (decode_effects clk (length l)) enc l /\ 5 * len l <= len enc.
Proof.
  intros Hok. revert clk encoded. induction Hok as [|effect l He Hl IH]; intros clk encoded Henc;
    cbn [encode_effects_into] in Henc.
  { injection Henc as <-. exists []. split; [by rewrite app_nil_r|]. split; [|done].
    intros p q _. cbn [decode_effects length]. rewrite len_nil. do 2 f_equal. lia. }
  inv_binds. apply (parses_effect (clk 0%nat)) in Ha as (e1 & -> & Hp1 & H1); [|done].
  apply (IH (tick 1 clk)) in Henc as (e2 & -> & Hp2 & H2).
  exists (e1 ++ e2). split; [by rewrite (assoc_L (++))|]. split; [|rewrite len_app, len_cons; lia].
  intros p q Hq. cbn [decode_effects length]. rewrite <- (assoc_L (++)) in *.
  rewrite (Hp1 p (e2 ++ q) Hq). step.
  rewrite (assoc_L (++) p), <- len_app in *. rewrite (Hp2 _ q Hq). step.
  do 2 f_equal. rewrite !len_app. lia.
Qed.

Lemma batch_roundtrip clk batch r :
  Forall effect_ok (effects batch) -> encode_committed_batch batch = Ok r ->
  decode_committed_batch clk r = Ok batch /\ 0 < len r <= MAX_BINLOG_RECORD_SIZE.
Proof.
  intros Hok He. unfold encode_committed_batch in He.
  destruct (len (effects batch) =? 0) eqn:Hz; [discriminate He|]. inv_binds.
  apply count_of_spec in Ha as [-> Hn]. destruct (MAX_BINLOG_RECORD_SIZE <? _) eqn:El.
  { discriminate He. }
  prop_tests. apply Ok_inj in He as <-.
  apply (parses_effects clk) in Ha0 as (enc & -> & Hp & Hlen); [|done].
  change (write_u32_be [] (len (effects batch))) with (be32 (len (effects batch))) in *.
  assert (Hu : len (be32 (len (effects batch)) ++ enc) <= USIZE_MAX) by (etrans; [exact El|apply max_record_fits]).
  split; [|rewrite len_app, len_be32 in *; pose proof (len_nonneg enc); lia].
  pose proof (len_nonneg (effects batch)) as H0.
  assert (Hr : read_u32_be (be32 (len (effects batch)) ++ enc) 0 = Some (len (effects batch), 4)).
  { pose proof (reads_u32 (len (effects batch)) (conj H0 Hn) [] enc Hu) as H. by rewrite len_nil_l, len_be32 in H. }
  pose proof (count_check 5 (len (effects batch)) [] (be32 (len (effects batch))) enc [] ltac:(lia) Hlen) as Hc.
  rewrite app_nil_r, len_nil_l, len_be32 in Hc. cbn [app] in Hc.
  pose proof (Hp (be32 (len (effects batch))) []) as Hp'. rewrite app_nil_r, len_be32 in Hp'.
  unfold decode_committed_batch. rewrite Hr. step. rewrite (proj2 (Z.eqb_neq _ _) Hz), Hc, len_to_nat, (Hp' Hu). step.
  rewrite len_app, len_be32, Z.eqb_refl. destruct batch as [[|f l]]; [done|reflexivity].
Qed.

End Entries.

(** ** Binlog records *)

Section Records.
Context {CRC : Crc32}.

(** The record written for a sequence and its effects, and its frame. *)
Definition record_body (sequence : Z) (effect_record : bytes) : bytes :=
  BINLOG_RECORD_MAGIC ++ be32 (20 + len effect_record) ++ be64 sequence ++ effect_record.
Definition record_bytes (sequence : Z) (effect_record : bytes) : bytes :=
  record_body sequence effect_record ++ be32 (crc32 (record_body sequence effect_record)).
Definition frame_bytes (sequence : Z) (effect_record : bytes) : bytes :=
  be32 (20 + len effect_record) ++ record_bytes sequence effect_record.

Lemma len_record_bytes s b : len (record_bytes s b) = 20 + len b.
Proof. unfold record_bytes, record_body. rewrite !len_app, !len_be32, len_be64. change (len BINLOG_RECORD_MAGIC) with 4. lia. Qed.

Lemma record_length_spec s n l :
  0 <= n -> versioned_binlog_record_length s n = Ok l ->
  s <> 0 /\ l = 20 + n /\ 20 + n <= MAX_BINLOG_RECORD_SIZE.
Proof.
  intros Hn H. unfold versioned_binlog_record_length in H. destruct (s =? 0) eqn:E; [discriminate H|].
  prop_tests. inv_binds. destruct (MAX_BINLOG_RECORD_SIZE <? _) eqn:El; [discriminate H|].
  prop_tests. injection H as <-. change (len BINLOG_RECORD_MAGIC) with 4 in *.
  unfold BINLOG_RECORD_LENGTH_SIZE, BINLOG_CHECKSUM_SIZE in *. split; [done|]. lia.
Qed.

Lemma encode_record_spec s b output r :
  encode_versioned_binlog_record_into s b output = Ok r ->
  r = output ++ record_bytes s b /\ s <> 0 /\ 20 + len b <= MAX_BINLOG_RECORD_SIZE.
Proof.
  unfold encode_versioned_binlog_record_into. intros H. inv_binds.
  apply record_length_spec in Ha as (Hs & -> & Hl); [|apply len_nonneg].
  unfold u32_try_from in Ha0. destruct (_ <=? U32_MAX); [|discriminate Ha0]. injection Ha0 as <-.
  subst r. split; [|done].
  rewrite !write_u32_be_app, write_u64_be_app.
  replace (drop (Z.to_nat (len output)) ((((output ++ BINLOG_RECORD_MAGIC) ++ be32 (20 + len b)) ++ be64 s) ++ b))
    with (record_body s b).
  - unfold record_bytes. rewrite (assoc_L (++)). f_equal. unfold record_body. by rewrite !(assoc_L (++)).
  - rewrite len_to_nat, <- !(assoc_L (++)). by rewrite drop_app_length.
Qed.

Lemma encode_framed_spec s b output r :
  encode_framed_versioned_binlog_record_into s b output = Ok r ->
  r = output ++ frame_bytes s b /\ s <> 0 /\ 20 + len b <= MAX_BINLOG_RECORD_SIZE.
Proof.
  unfold encode_framed_versioned_binlog_record_into. intros H. inv_binds.
  apply record_length_spec in Ha as (Hs & -> & Hl); [|apply len_nonneg].
  unfold u32_try_from in Ha0. destruct (_ <=? U32_MAX); [|discriminate Ha0]. injection Ha0 as <-.
  apply encode_record_spec in H as (-> & _). split; [|done]. by rewrite write_u32_be_app, <- (assoc_L (++)).
Qed.

Lemma len_record_body s b : len (record_body s b) = 16 + len b.
Proof.
  unfold record_body. rewrite !len_app, len_be32, len_be64. change (len BINLOG_RECORD_MAGIC) with 4. lia.
Qed.

Lemma record_size_u32 (b : bytes) : 20 + len b <= MAX_BINLOG_RECORD_SIZE -> 0 <= 20 + len b <= U32_MAX.
Proof. pose proof (len_nonneg b). unfold MAX_BINLOG_RECORD_SIZE, U32_MAX. lia. Qed.

Lemma record_framing_spec s b :
  record_framing (record_bytes s b) = Ok (BINLOG_RECORD_MAGIC, 16 + len b, Checksummed).
Proof.
  unfold record_framing.
  assert (Hm : starts_with (record_bytes s b) BINLOG_RECORD_MAGIC = true).
  { unfold record_bytes, record_body. rewrite <- (assoc_L (++)). apply starts_with_app. }
  rewrite Hm, len_record_bytes. unfold BINLOG_CHECKSUM_SIZE, BINLOG_RECORD_LENGTH_SIZE, checked_sub.
  change (len BINLOG_RECORD_MAGIC) with 4. pose proof (len_nonneg b).
  rewrite (proj2 (Z.leb_le 4 _)) by lia. cbn [mbind option_bind].
  rewrite (proj2 (Z.leb_le (4 + 4 + 8) _)) by lia. step.
  replace (20 + len b - 4) with (len (record_body s b)) by (rewrite len_record_body; lia).
  rewrite len_to_nat. unfold record_bytes at 1 2. rewrite drop_app_length, take_app_length.
  rewrite from_be32 by apply crc32_range. rewrite Z.eqb_refl. cbn [negb]. by rewrite len_record_body.
Qed.

Lemma record_roundtrip s b :
  0 < s <= U64_MAX -> 0 < len b -> 20 + len b <= MAX_BINLOG_RECORD_SIZE ->
  decode_binlog_record (record_bytes s b) = Ok (mkVersioned s b Checksummed).
Proof.
  intros Hs Hb Hl. pose proof (record_size_u32 b Hl) as Hu.
  assert (Hfit : len (record_bytes s b) <= USIZE_MAX).
  { rewrite len_record_bytes. etrans; [exact Hl|apply max_record_fits]. }
  unfold decode_binlog_record. rewrite record_framing_spec. step.
  rewrite bool_decide_eq_true_2 by done.
  set (crc := be32 (crc32 (record_body s b))).
  assert (He : record_bytes s b = BINLOG_RECORD_MAGIC ++ be32 (20 + len b) ++ (be64 s ++ b ++ crc)).
  { unfold record_bytes, record_body. by rewrite <- !(assoc_L (++)). }
  rewrite He in Hfit |- *.
  rewrite (reads_u32 _ Hu _ _ Hfit). step. rewrite <- He at 1. rewrite len_record_bytes, Z.eqb_refl.
  cbn [negb]. step.
  rewrite (assoc_L (++) BINLOG_RECORD_MAGIC) in Hfit |- *. rewrite <- len_app.
  rewrite (reads_u64 s ltac:(lia) _ _ Hfit). step. rewrite (proj2 (Z.eqb_neq s 0)) by lia.
  rewrite (assoc_L (++) _ (be64 s)), <- len_app.
  replace (16 + len b) with (len ((BINLOG_RECORD_MAGIC ++ be32 (20 + len b)) ++ be64 s) + len b)
    by (rewrite !len_app, len_be32, len_be64; change (len BINLOG_RECORD_MAGIC) with 4; lia).
  rewrite get_range_app_middle. step. by destruct b as [|x b].
Qed.

End Records.
