(* ===== verification/BinlogFile.v ===== *)
(** * BinlogFile: scanning a binlog file (src/persistence/recovery.rs)

    [for_each_binlog_record] walks the frames of a file and hands every complete
    record to a visitor; it stops at an incomplete last frame, which a crash may
    leave behind, and refuses anything else.  [inspect_binlog] validates the
    records and their sequence numbers.

    A file is the list of its bytes, and [None] when it does not exist.  It does
    not change while it is scanned. *)

From Stdlib Require Import ZArith Lia.
From Stdlib Require Import Strings.Byte.
From stdpp Require Import base gmap list strings numbers.
From S2P Require Import Prelude Text Json JsonPath Value Shard Engine Store Persistence Model Codec.

Open Scope Z_scope.

Definition err_record_length (record_len : Z) : PersistenceError :=
  PersistenceError_new (bs "Invalid binlog record length: " ++ print_Z record_len).
Definition err_incomplete_onx3 : PersistenceError :=
  PersistenceError_new (bs "Cannot safely truncate an incomplete checksumless ONX3 binlog record").
Definition err_unknown_framing : PersistenceError :=
  PersistenceError_new (bs "Cannot safely truncate an incomplete binlog record with unknown framing").

(** What the scan finds at the start of [rest], the file from [record_start] on. *)
Inductive frame_result : Type :=
| EndOfLog (truncated_tail : bool)
| Frame (record : bytes)
| BadFrame (e : PersistenceError).

Definition read_frame (file_len record_start : Z) (rest : bytes) : frame_result :=
  if len rest <? 4 then EndOfLog (negb (file_len =? record_start))
  else
    let record_len := from_be_bytes (take 4 rest) in
    if (record_len =? 0) || (MAX_BINLOG_RECORD_SIZE <? record_len)
    then BadFrame (err_record_length record_len)
    else
      let after := drop 4 rest in
      let header_probe_length :=
        Z.min record_len (len BINLOG_RECORD_MAGIC + BINLOG_RECORD_LENGTH_SIZE) in
      let available_length := sat_sub file_len (record_start + 4) in
      let readable_header_length := Z.min available_length header_probe_length in
      let visible_header := take (Z.to_nat readable_header_length) after in
      if readable_header_length <? header_probe_length then
        if starts_with visible_header CHECKSUMLESS_BINLOG_RECORD_MAGIC then BadFrame err_incomplete_onx3
        else if (len BINLOG_RECORD_MAGIC <=? readable_header_length)
                && negb (starts_with visible_header BINLOG_RECORD_MAGIC)
        then BadFrame err_unknown_framing
        else EndOfLog true
      else
        let embedded_length :=
          match read_u32_be visible_header (len BINLOG_RECORD_MAGIC) with
          | Some (n, _) => n
          | None => 0
          end in
        if starts_with visible_header BINLOG_RECORD_MAGIC
           && (len BINLOG_RECORD_MAGIC + BINLOG_RECORD_LENGTH_SIZE <=? record_len)
           && negb (embedded_length =? record_len)
        then BadFrame (err_length_mismatch record_len embedded_length)
        else if available_length <? record_len then
          if starts_with visible_header CHECKSUMLESS_BINLOG_RECORD_MAGIC then BadFrame err_incomplete_onx3
          else if negb (starts_with visible_header BINLOG_RECORD_MAGIC) then BadFrame err_unknown_framing
          else EndOfLog true
        else Frame (take (Z.to_nat record_len) after).

Section Scan.
Context {St : Type} (visitor : St -> bytes -> option (result PersistenceError St)).

(** [None] stands for a panic of the visitor, or for lack of fuel. *)
Fixpoint scan (fuel : nat) (file_len record_start : Z) (rest : bytes) (s : St)
  : option (result PersistenceError (St * (Z * bool))) :=
  match fuel with
  | O => None
  | S fuel =>
    match read_frame file_len record_start rest with
    | EndOfLog truncated_tail => Some (Ok (s, (record_start, truncated_tail)))
    | BadFrame e => Some (Err e)
    | Frame record =>
      r ← visitor s record;
      match r with
      | Err e => Some (Err e)
      | Ok s =>
        scan fuel file_len (record_start + 4 + len record) (drop (Z.to_nat (4 + len record)) rest) s
      end
    end
  end.

Definition for_each_binlog_record (file : option bytes) (s : St)
  : option (result PersistenceError (St * (Z * bool))) :=
  match file with
  | None => Some (Ok (s, (0, false)))
  | Some b => scan (length b + 1) (len b) 0 b s
  end.

End Scan.

Record BinlogInspection : Type := mkInspection {
  min_sequence : option Z;
  max_sequence : Z;
  valid_len : Z;
  truncated_tail : bool;
  contains_checksumless_records : bool
}.

Section Inspect.
Context {CRC : Crc32} {JN : JsonNumber} {SJ : SerdeJson}.

Definition err_non_contiguous (sequence previous : Z) : PersistenceError :=
  PersistenceError_new (bs "Non-contiguous binlog sequence: " ++ print_Z sequence
                        ++ bs " after " ++ print_Z previous).

(** The state of the inspection between records; the decoder reads the clock,
    which does not affect what it decodes. *)
Definition inspect_record (clk : clock) (s : BinlogInspection * option Z) (record : bytes)
  : option (result PersistenceError (BinlogInspection * option Z)) :=
  Some (
    let '(inspection, last_sequence) := s in
    decoded ← decode_binlog_record record;
    let sequence := rec_sequence decoded in
    if match last_sequence with
       | Some previous => negb (bool_decide (checked_add previous 1 = Some sequence))
       | None => false
       end
    then Err (err_non_contiguous sequence (match last_sequence with Some p => p | None => 0 end))
    else
      match decode_committed_batch clk (rec_effects decoded) with
      | Err error =>
        Err (PersistenceError_new (bs "Invalid committed-effect payload at binlog sequence "
               ++ print_Z sequence ++ bs ": " ++ pe_message error))
      | Ok _ =>
        Ok (mkInspection
              (match min_sequence inspection with Some m => Some m | None => Some sequence end)
              sequence (valid_len inspection) (truncated_tail inspection)
              (contains_checksumless_records inspection
               || bool_decide (rec_integrity decoded = ChecksumlessLegacy)),
            Some sequence)
      end).

Definition inspect_binlog (clk : clock) (file : option bytes)
  : option (result PersistenceError BinlogInspection) :=
  r ← for_each_binlog_record (inspect_record clk) file (mkInspection None 0 0 false false, None);
  Some (match r with
        | Err e => Err e
        | Ok ((inspection, _), (valid_len, truncated_tail)) =>
          Ok (mkInspection (min_sequence inspection) (max_sequence inspection) valid_len truncated_tail
                (contains_checksumless_records inspection))
        end).

End Inspect.

(** * Scanning a log that a crash may have cut

    [log l] is the file written for the records [l].  Scanning any prefix of
    it visits exactly the records that are complete in the prefix. *)

From S2P Require Import CodecSpec.

Section Logs.
Context {CRC : Crc32}.

Definition frame (r : Z * bytes) : bytes := frame_bytes r.1 r.2.
Definition log (l : list (Z * bytes)) : bytes := concat (map frame l).

(** Records the writer accepts. *)
Definition loggable (r : Z * bytes) : Prop :=
  0 < r.1 <= U64_MAX /\ 0 < len r.2 /\ 20 + len r.2 <= MAX_BINLOG_RECORD_SIZE.

Lemma log_app l k : log (l ++ k) = log l ++ log k.
Proof. unfold log. by rewrite map_app, concat_app. Qed.

Lemma len_frame r : len (frame r) = 24 + len r.2.
Proof. unfold frame, frame_bytes. rewrite len_app, len_be32, len_record_bytes. lia. Qed.

(** ** A prefix of a record *)

(** The bytes a record starts with. *)
Lemma record_bytes_head s b : exists q, record_bytes s b = BINLOG_RECORD_MAGIC ++ be32 (20 + len b) ++ q.
Proof. eexists. unfold record_bytes, record_body. by rewrite <- !(assoc_L (++)). Qed.

Lemma starts_with_take (p l q : bytes) (n : nat) :
  (length p <= n)%nat -> l = p ++ q -> starts_with (take n l) p = true.
Proof.
  intros Hn ->. rewrite take_app_ge by done. apply starts_with_app.
Qed.

Lemma starts_with_other (n : nat) (q : bytes) :
  starts_with (take n (BINLOG_RECORD_MAGIC ++ q)) CHECKSUMLESS_BINLOG_RECORD_MAGIC = false.
Proof. by do 5 (destruct n as [|n]; [reflexivity|]). Qed.

Lemma take_take_le {A} (n m : nat) (l : list A) : (n <= m)%nat -> take n (take m l) = take n l.
Proof. intros H. rewrite take_take. f_equal. lia. Qed.

(** The embedded length of a visible header. *)
Lemma embedded_length s b :
  20 + len b <= MAX_BINLOG_RECORD_SIZE ->
  read_u32_be (take 8 (record_bytes s b)) (len BINLOG_RECORD_MAGIC) = Some (20 + len b, 8).
Proof.
  intros Hl. destruct (record_bytes_head s b) as [q ->].
  replace (take 8 (BINLOG_RECORD_MAGIC ++ be32 (20 + len b) ++ q))
    with (BINLOG_RECORD_MAGIC ++ be32 (20 + len b) ++ []) by reflexivity.
  apply (reads_u32 (20 + len b) (record_size_u32 b Hl)). done.
Qed.

Lemma frame_length_field r q :
  loggable r -> from_be_bytes (take 4 (frame r ++ q)) = 20 + len r.2.
Proof.
  intros (_ & _ & Hl). unfold frame, frame_bytes. rewrite <- (assoc_L (++)).
  change 4%nat with (length (be32 (20 + len r.2))). rewrite take_app_length.
  apply from_be32, record_size_u32, Hl.
Qed.

Lemma record_len_tests r :
  loggable r ->
  (20 + len r.2 =? 0) || (MAX_BINLOG_RECORD_SIZE <? 20 + len r.2) = false /\
  Z.min (20 + len r.2) (len BINLOG_RECORD_MAGIC + BINLOG_RECORD_LENGTH_SIZE) = 8.
Proof.
  intros (_ & Hb & Hl). change (len BINLOG_RECORD_MAGIC + BINLOG_RECORD_LENGTH_SIZE) with 8.
  split; [|lia]. apply orb_false_iff. split; [apply Z.eqb_neq|apply Z.ltb_ge]; lia.
Qed.

Lemma read_frame_whole pre r q :
  loggable r ->
  read_frame (len (pre ++ frame r ++ q)) (len pre) (frame r ++ q) = Frame (record_bytes r.1 r.2).
Proof.
  intros Hr. pose proof Hr as (_ & Hb & Hl). destruct (record_len_tests r Hr) as [Ht Hp].
  unfold read_frame. rewrite (frame_length_field r q Hr).
  rewrite (proj2 (Z.ltb_ge (len (frame r ++ q)) 4))
    by (rewrite len_app, len_frame; pose proof (len_nonneg q); lia).
  rewrite Ht, Hp.
  replace (drop 4 (frame r ++ q)) with (record_bytes r.1 r.2 ++ q) by reflexivity.
  assert (Ha : sat_sub (len (pre ++ frame r ++ q)) (len pre + 4) = 20 + len r.2 + len q).
  { unfold sat_sub. rewrite !len_app, len_frame. pose proof (len_nonneg q). lia. }
  rewrite Ha. pose proof (len_nonneg q).
  replace (Z.min (20 + len r.2 + len q) 8) with 8 by lia. cbn [Z.ltb Z.compare Pos.compare Pos.compare_cont].
  assert (Htake : take (Z.to_nat 8) (record_bytes r.1 r.2 ++ q) = take 8 (record_bytes r.1 r.2)).
  { apply take_app_le. pose proof (len_record_bytes r.1 r.2). unfold len in *. lia. }
  rewrite Htake, embedded_length, Z.eqb_refl by done. cbn [negb]. rewrite andb_false_r.
  rewrite (proj2 (Z.ltb_ge (20 + len r.2 + len q) (20 + len r.2))) by lia.
  rewrite <- (len_record_bytes r.1 r.2), len_to_nat, take_app_length. reflexivity.
Qed.

(** What a crash leaves of a record that was being appended. *)
Definition torn (r : Z * bytes) (tail : bytes) : Prop := exists q, q <> [] /\ frame r = tail ++ q.

Lemma read_frame_torn pre r tail :
  loggable r -> torn r tail ->
  read_frame (len (pre ++ tail)) (len pre) tail = EndOfLog (bool_decide (tail <> [])).
Proof.
  intros Hr (q & Hq & Hf). pose proof Hr as (_ & Hb & Hl). destruct (record_len_tests r Hr) as [Ht Hp].
  assert (Hlen : len tail + len q = 24 + len r.2) by (rewrite <- len_app, <- Hf; apply len_frame).
  assert (Hq0 : 0 < len q) by (destruct q; [done|rewrite len_cons; pose proof (len_nonneg q); lia]).
  unfold read_frame. destruct (Z.ltb_spec (len tail) 4) as [E4|E4].
  { f_equal. rewrite len_app. destruct tail as [|x tail].
    - rewrite (proj2 (Z.eqb_eq _ _)) by (unfold len; simpl; lia). by rewrite bool_decide_eq_false_2 by naive_solver.
    - rewrite (proj2 (Z.eqb_neq _ _)) by (rewrite len_cons; pose proof (len_nonneg tail); lia).
      by rewrite bool_decide_eq_true_2. }
  rewrite bool_decide_eq_true_2 by (intros ->; unfold len in E4; simpl in E4; lia).
  assert (Hfield : from_be_bytes (take 4 tail) = 20 + len r.2).
  { rewrite <- (frame_length_field r [] Hr), app_nil_r, Hf. rewrite take_app_le; [done|].
    unfold len in E4. lia. }
  rewrite Hfield, Ht, Hp.
  assert (Hafter : record_bytes r.1 r.2 = drop 4 tail ++ q).
  { change (record_bytes r.1 r.2) with (drop 4 (frame r)). rewrite Hf, drop_app_le; [done|].
    unfold len in E4. lia. }
  assert (Ha : sat_sub (len (pre ++ tail)) (len pre + 4) = len (drop 4 tail)).
  { unfold sat_sub. rewrite len_app. unfold len. rewrite length_drop. unfold len in E4. lia. }
  assert (Hav : len (drop 4 tail) < 20 + len r.2).
  { rewrite <- (len_record_bytes r.1 r.2), Hafter, len_app. lia. }
  rewrite Ha. set (t := drop 4 tail) in *. destruct (record_bytes_head r.1 r.2) as [h Hh].
  assert (Hvis : forall n, n <= len t -> take (Z.to_nat n) t = take (Z.to_nat n) (record_bytes r.1 r.2)).
  { intros n Hn. rewrite Hafter, take_app_le; [done|]. unfold len in Hn. lia. }
  rewrite Hvis by lia. rewrite Hh at 1. rewrite starts_with_other. cbv zeta.
  destruct (Z.ltb_spec (Z.min (len t) 8) 8) as [E8|E8].
  - rewrite Hh. destruct (Z.leb_spec (len BINLOG_RECORD_MAGIC) (Z.min (len t) 8)) as [Em|Em]; [|done].
    rewrite (starts_with_take BINLOG_RECORD_MAGIC _ _ (Z.to_nat (Z.min (len t) 8))
      ltac:(unfold len in *; lia) eq_refl). done.
  - replace (Z.min (len t) 8) with 8 by lia. change (Z.to_nat 8) with 8%nat.
    rewrite embedded_length, Z.eqb_refl by done. cbn [negb]. rewrite andb_false_r.
    rewrite (proj2 (Z.ltb_lt _ _) Hav), Hh, starts_with_other.
    by rewrite (starts_with_take BINLOG_RECORD_MAGIC _ _ 8 ltac:(simpl; lia) eq_refl).
Qed.

(** Every prefix of a log is a number of whole frames and at most a torn one. *)
Lemma log_prefix l p q :
  log l = p ++ q ->
  exists done rest tail, l = done ++ rest /\ p = log done ++ tail /\
    match rest with [] => tail = [] | r :: _ => torn r tail end.
Proof.
  revert p. induction l as [|r l IH]; intros p Hp.
  { exists [], [], []. symmetry in Hp. by apply app_nil in Hp as [-> _]. }
  change (log (r :: l)) with (frame r ++ log l) in Hp.
  destruct (decide (length (frame r) <= length p)%nat) as [Hle|Hlt].
  - assert (Hsplit : p = frame r ++ drop (length (frame r)) p).
    { rewrite <- (take_drop (length (frame r)) p) at 1. f_equal.
      apply (f_equal (take (length (frame r)))) in Hp.
      rewrite take_app_length, take_app_le in Hp by done. done. }
    rewrite Hsplit, <- (assoc_L (++)) in Hp. apply app_inv_head in Hp.
    destruct (IH _ Hp) as (done & rest & tail & -> & Ht & Hr).
    exists (r :: done), rest, tail. split; [done|]. split; [|done].
    change (log (r :: done)) with (frame r ++ log done). rewrite <- (assoc_L (++)), <- Ht. exact Hsplit.
  - exists [], (r :: l), p. split; [done|]. split; [done|].
    exists (drop (length p) (frame r)). split.
    + intros H. apply (f_equal length) in H. rewrite length_drop in H. change (length (@nil byte)) with 0%nat in H. lia.
    + rewrite <- (take_drop (length p) (frame r)) at 1. f_equal.
      apply (f_equal (take (length p))) in Hp. rewrite take_app_length, take_app_le in Hp by lia. done.
Qed.

(** ** Scanning *)

Section Visit.
Context {St : Type} (visitor : St -> bytes -> option (result PersistenceError St)).

(** The visitor on one record after the other. *)
Fixpoint visits (s : St) (l : list (Z * bytes)) : option (result PersistenceError St) :=
  match l with
  | [] => Some (Ok s)
  | r :: l =>
    match visitor s (record_bytes r.1 r.2) with
    | Some (Ok s) => visits s l
    | other => other
    end
  end.

Lemma visits_app s l k :
  visits s (l ++ k) = match visits s l with Some (Ok s) => visits s k | other => other end.
Proof.
  revert s. induction l as [|r l IH]; intros s; simpl; [done|].
  destruct (visitor s _) as [[s'|e]|]; [apply IH|done|done].
Qed.

(** The outcome of a scan that ends after the records [l]. *)
Definition ends_after (o : option (result PersistenceError St)) (at_byte : Z) (cut : bool)
  : option (result PersistenceError (St * (Z * bool))) :=
  match o with
  | Some (Ok s) => Some (Ok (s, (at_byte, cut)))
  | Some (Err e) => Some (Err e)
  | None => None
  end.

Lemma scan_log l : forall fuel pre tail s,
  Forall loggable l -> (length l < fuel)%nat ->
  (forall pre, read_frame (len (pre ++ tail)) (len pre) tail = EndOfLog (bool_decide (tail <> []))) ->
  scan visitor fuel (len (pre ++ log l ++ tail)) (len pre) (log l ++ tail) s =
  ends_after (visits s l) (len pre + len (log l)) (bool_decide (tail <> [])).
Proof.
  induction l as [|r l IH]; intros fuel pre tail s Hl Hf Ht; destruct fuel as [|fuel]; try (simpl in Hf; lia).
  { cbn [scan log map concat app visits]. rewrite Ht. simpl. do 4 f_equal. rewrite len_nil. lia. }
  inversion Hl as [|? ? Hr Hl']; subst. cbn [scan visits].
  change (log (r :: l)) with (frame r ++ log l). rewrite <- (assoc_L (++)), read_frame_whole by done.
  destruct (visitor s (record_bytes r.1 r.2)) as [[s'|e]|]; cbn [mbind option_bind]; [|done|done].
  assert (Hlen : 4 + len (record_bytes r.1 r.2) = len (frame r)) by (rewrite len_frame, len_record_bytes; lia).
  rewrite <- Z.add_assoc, Hlen, len_to_nat, drop_app_length, (assoc_L (++) pre), <- len_app.
  rewrite IH by (try done; simpl in Hf; lia). f_equal. rewrite !len_app. lia.
Qed.

Lemma torn_nil_frame (pre : bytes) : read_frame (len (pre ++ [])) (len pre) [] = EndOfLog (bool_decide ((@nil byte) <> [])).
Proof. unfold read_frame. rewrite app_nil_r. simpl. by rewrite Z.eqb_refl. Qed.

(** Scanning a prefix of a log visits the complete records and reports where
    they end and whether the prefix continues. *)
Lemma for_each_log done rest tail s :
  Forall loggable (done ++ rest) ->
  match rest with [] => tail = [] | r :: _ => torn r tail end ->
  for_each_binlog_record visitor (Some (log done ++ tail)) s =
  ends_after (visits s done) (len (log done)) (bool_decide (tail <> [])).
Proof.
  intros Hl Ht. apply list.Forall_app in Hl as [Hd Hr]. unfold for_each_binlog_record.
  pose proof (scan_log done (length (log done ++ tail) + 1) [] tail s Hd) as H.
  cbn [app] in H. change (len []) with 0 in H. rewrite Z.add_0_l in H. apply H.
  - rewrite length_app. assert (length done <= length (log done))%nat; [|lia].
    clear. induction done as [|r l IH]; [done|]. change (log (r :: l)) with (frame r ++ log l).
    pose proof (len_frame r). pose proof (len_nonneg r.2). rewrite length_app. unfold len in *. simpl. lia.
  - intros pre. destruct rest as [|r rest]; [subst; apply torn_nil_frame|].
    inversion Hr; subst. by apply read_frame_torn with r.
Qed.

(** Scanning terminates on every file. *)
Lemma frame_consumes file_len start rest record :
  read_frame file_len start rest = Frame record -> 4 <= len rest.
Proof. unfold read_frame. destruct (Z.ltb_spec (len rest) 4); [done|lia]. Qed.

Lemma scan_total fuel file_len start rest s :
  (forall s record, visitor s record <> None) -> (length rest < fuel)%nat ->
  scan visitor fuel file_len start rest s <> None.
Proof.
  intros Hv. revert start rest s. induction fuel as [|fuel IH]; intros start rest s Hf; [lia|].
  cbn [scan]. destruct (read_frame file_len start rest) as [t|record|e] eqn:E; [done| |done].
  apply frame_consumes in E. specialize (Hv s record).
  destruct (visitor s record) as [[s'|e]|]; cbn [mbind option_bind]; [|done|done].
  apply IH. rewrite length_drop. pose proof (len_nonneg record). unfold len in *. lia.
Qed.

Lemma for_each_total file s :
  (forall s record, visitor s record <> None) -> for_each_binlog_record visitor file s <> None.
Proof. intros Hv. destruct file as [b|]; [|done]. apply scan_total; [done|lia]. Qed.

End Visit.

End Logs.
