(* ===== verification/BinlogIo.v ===== *)
(** * BinlogIo: appending to the binlog (src/persistence/runtime.rs)

    [BinlogIo] is the storage the binlog worker writes to.  Its operations may
    fail, and what they leave behind is stated by [BinlogIoSpec], the contract
    of the operating system's files: the worker's append is proved against it
    and [ManagedBinlog] discharges it. *)

From Stdlib Require Import ZArith Lia.
From Stdlib Require Import Strings.Byte.
From stdpp Require Import base gmap list strings numbers.
From S2P Require Import Prelude Text Json JsonPath Value Shard Engine Store Persistence Model Codec.

Open Scope Z_scope.

(** ** Errors *)

(** [std::io::Error]: whether its kind is [Interrupted], and its text. *)
Record io_error : Type := mkIoError {
  ie_interrupted : bool;
  ie_message : bytes
}.

Inductive StorageFailureDisposition : Type := Rejected | Indeterminate.

Record StorageFailure : Type := mkFailure {
  disposition : StorageFailureDisposition;
  sf_message : bytes
}.

Definition rejected (m : bytes) : StorageFailure := mkFailure Rejected m.
Definition indeterminate_failure (m : bytes) : StorageFailure := mkFailure Indeterminate m.

Definition into_persistence_error (f : StorageFailure) : PersistenceError :=
  match disposition f with
  | Rejected => PersistenceError_new (sf_message f)
  | Indeterminate => PersistenceError_indeterminate (sf_message f)
  end.

Inductive TruncateError : Type :=
| TruncateUnchanged (e : io_error)
| TruncateIndeterminate (e : io_error).

Inductive BinlogRotationError : Type :=
| RotationUnchanged (e : io_error)
| RotationIndeterminate (e : io_error).

Inductive FsyncPolicy : Type := Always | EverySec | NoSync.

(** ** The storage *)

Class BinlogIo (T : Type) := {
  io_write : T -> bytes -> T * result io_error Z;
  io_flush : T -> T * result io_error unit;
  io_seek_end : T -> T * result io_error Z;
  io_seek_start : T -> Z -> T * result io_error Z;
  io_sync_data : T -> T * result io_error unit;
  io_sync_all : T -> T * result io_error unit;
  io_truncate : T -> Z -> T * result TruncateError unit;
  io_seal_active : T -> Z -> T * result BinlogRotationError Z
}.

(** What the operations do to the active file: its [contents], the write
    position, and the contents as they were when they last reached the disk. *)
Class BinlogIoSpec (T : Type) {IO : BinlogIo T} := {
  contents : T -> bytes;
  cursor : T -> Z;
  disk : T -> bytes;
  write_law : forall t b, cursor t = len (contents t) ->
    let '(t', r) := io_write t b in
    disk t' = disk t /\
    match r with
    | Ok n => 0 <= n <= len b /\ contents t' = contents t ++ take (Z.to_nat n) b /\
              cursor t' = len (contents t')
    | Err _ => contents t' = contents t /\ cursor t' = cursor t
    end;
  flush_law : forall t, let '(t', _) := io_flush t in
    contents t' = contents t /\ disk t' = disk t;
  seek_end_law : forall t, let '(t', r) := io_seek_end t in
    contents t' = contents t /\ disk t' = disk t /\
    match r with Ok p => p = len (contents t) /\ cursor t' = p | Err _ => True end;
  seek_start_law : forall t p, let '(t', _) := io_seek_start t p in
    contents t' = contents t /\ disk t' = disk t;
  sync_data_law : forall t, let '(t', r) := io_sync_data t in
    contents t' = contents t /\
    match r with Ok _ => disk t' = contents t | Err _ => disk t' = disk t end;
  sync_all_law : forall t, let '(t', r) := io_sync_all t in
    contents t' = contents t /\
    match r with Ok _ => disk t' = contents t | Err _ => disk t' = disk t end;
  truncate_law : forall t n, 0 <= n <= len (contents t) ->
    let '(t', r) := io_truncate t n in
    disk t' = disk t /\
    match r with
    | Ok _ => contents t' = take (Z.to_nat n) (contents t)
    | Err _ => contents t' = contents t \/ contents t' = take (Z.to_nat n) (contents t)
    end
}.

Section Append.
Context {T : Type} {IO : BinlogIo T}.

(** ** Rolling back *)

Definition rollback_tail (t : T) (previous_length : Z) : T * result bytes unit :=
  match io_truncate t previous_length with
  | (t, Err (TruncateUnchanged e)) | (t, Err (TruncateIndeterminate e)) =>
    (t, Err (bs "tail truncation failed: " ++ ie_message e))
  | (t, Ok _) =>
    match io_seek_start t previous_length with
    | (t, Err e) => (t, Err (bs "tail seek failed: " ++ ie_message e))
    | (t, Ok _) =>
      match io_flush t with
      | (t, Err e) => (t, Err (bs "rollback flush failed: " ++ ie_message e))
      | (t, Ok _) =>
        match io_sync_all t with
        | (t, Err e) => (t, Err (bs "rollback sync failed: " ++ ie_message e))
        | (t, Ok _) => (t, Ok tt)
        end
      end
    end
  end.

Definition rollback_binlog_tail (t : T) (previous_length : Z) (original_error : io_error)
  : T * StorageFailure :=
  let '(t, r) := rollback_tail t previous_length in
  (t, match r with
      | Ok _ => rejected (bs "Binlog append was durably rolled back after I/O failure: "
                          ++ ie_message original_error)
      | Err rollback_error =>
        indeterminate_failure (bs "Binlog append failed after possible modification ("
          ++ ie_message original_error
          ++ bs ") and durable tail rollback could not be proven (" ++ rollback_error ++ bs ")")
      end).

(** ** Appending *)

Definition err_write_zero : io_error :=
  mkIoError false (bs "failed to write the complete binlog record").

(** The write loop; an interrupted write is retried, so [None] stands for more
    than [fuel] writes. *)
Fixpoint write_all_tracking_modification (fuel : nat) (t : T) (buffer : bytes) (modified : bool)
  : option (T * bool * result io_error unit) :=
  match fuel with
  | O => None
  | S fuel =>
    match buffer with
    | [] => Some (t, modified, Ok tt)
    | _ =>
      match io_write t buffer with
      | (t, Ok written) =>
        if written =? 0 then Some (t, modified, Err err_write_zero)
        else write_all_tracking_modification fuel t (drop (Z.to_nat written) buffer) true
      | (t, Err error) =>
        if ie_interrupted error then write_all_tracking_modification fuel t buffer modified
        else Some (t, modified, Err error)
      end
    end
  end.

Definition append_binlog_tail (fuel : nat) (t : T) (encoded_tail : bytes) (fsync_policy : FsyncPolicy)
  : option (T * result StorageFailure unit) :=
  match io_seek_end t with
  | (t, Err error) => Some (t, Err (rejected (bs "Binlog seek failed: " ++ ie_message error)))
  | (t, Ok previous_length) =>
    '(t, modified, written) ← write_all_tracking_modification fuel t encoded_tail false;
    let '(t, write_result) :=
      match written with
      | Err error => (t, Err error)
      | Ok _ =>
        match io_flush t with
        | (t, Err error) => (t, Err error)
        | (t, Ok _) =>
          match fsync_policy with
          | Always => io_sync_data t
          | EverySec | NoSync => (t, Ok tt)
          end
        end
      end in
    Some (match write_result with
          | Ok _ => (t, Ok tt)
          | Err error =>
            if negb modified
            then (t, Err (rejected (bs "Binlog append failed before modifying the file: "
                                    ++ ie_message error)))
            else let '(t, failure) := rollback_binlog_tail t previous_length error in (t, Err failure)
          end)
  end.

Context {CRC : Crc32}.

Fixpoint group_length (records : list (Z * bytes)) (total : Z) : result StorageFailure Z :=
  match records with
  | [] => Ok total
  | (_, record) :: rest =>
    match framed_versioned_binlog_record_length (len record) with
    | Err error => Err (rejected (pe_message error))
    | Ok record_length =>
      match checked_add total record_length with
      | None => Err (rejected (bs "Binlog append group exceeds addressable memory"))
      | Some total => group_length rest total
      end
    end
  end.

Fixpoint encode_group (records : list (Z * bytes)) (encoded_tail : bytes) : result StorageFailure bytes :=
  match records with
  | [] => Ok encoded_tail
  | (sequence, record) :: rest =>
    match encode_framed_versioned_binlog_record_into sequence record encoded_tail with
    | Err error => Err (rejected (pe_message error))
    | Ok encoded_tail => encode_group rest encoded_tail
    end
  end.

(** Running out of memory for the encoded group is not modelled. *)
Definition append_binlog_records (fuel : nat) (t : T) (records : list (Z * bytes))
    (fsync_policy : FsyncPolicy) : option (T * result StorageFailure unit) :=
  match records with
  | [] => Some (t, Err (rejected (bs "A binlog append group must contain at least one record")))
  | _ =>
    match group_length records 0 with
    | Err failure => Some (t, Err failure)
    | Ok _ =>
      match encode_group records [] with
      | Err failure => Some (t, Err failure)
      | Ok encoded_tail => append_binlog_tail fuel t encoded_tail fsync_policy
      end
    end
  end.

End Append.
