(* ===== verification/AppendSpec.v ===== *)
(** * AppendSpec: an append to the binlog is all or nothing

    Proved against the contract of the storage: the group of records is in the
    file, or the file is as it was, or the failure is reported as indeterminate
    and the file holds a prefix of the group. *)

From Stdlib Require Import ZArith Lia.
From Stdlib Require Import Strings.Byte.
From stdpp Require Import base gmap list strings numbers.
From S2P Require Import Prelude Text Json JsonPath Value Shard Engine Store Persistence Model Codec CodecSpec BinlogFile BinlogIo.

Open Scope Z_scope.

(** ** An append is all or nothing *)

Section Atomic.
Context {T : Type} {IO : BinlogIo T} {IOS : BinlogIoSpec T} {CRC : Crc32}.

Lemma write_all_spec fuel t buffer modified t' modified' r :
  cursor t = len (contents t) ->
  write_all_tracking_modification fuel t buffer modified = Some (t', modified', r) ->
  exists written rest, buffer = written ++ rest /\ contents t' = contents t ++ written /\
    disk t' = disk t /\ cursor t' = len (contents t') /\
    (match r with Ok _ => rest = [] | Err _ => True end) /\
    (modified = false -> modified' = false -> written = []) /\ (modified = true -> modified' = true).
Proof.
  revert t buffer modified. induction fuel as [|fuel IH]; intros t buffer modified Hc Hrun; [done|].
  cbn [write_all_tracking_modification] in Hrun.
  destruct buffer as [|b0 buffer0]; [injection Hrun as <- <- <-; exists [], []; rewrite !app_nil_r; done|].
  set (buffer := b0 :: buffer0) in *. clearbody buffer.
  pose proof (write_law t buffer Hc) as L. destruct (io_write t buffer) as [t1 [n|error]].
  - destruct L as (Hd & Hn & Hcont & Hcur). destruct (Z.eqb_spec n 0) as [Hz|Hnz].
    { injection Hrun as <- <- <-. exists [], buffer. rewrite Hz in Hcont.
      split; [done|]. split; [exact Hcont|]. done. }
    destruct (IH t1 (drop (Z.to_nat n) buffer) true Hcur Hrun)
      as (written & rest & Hb & Hw & Hd' & Hc' & Hr & _ & Hm).
    exists (take (Z.to_nat n) buffer ++ written), rest.
    split; [rewrite <- (take_drop (Z.to_nat n) buffer) at 1; by rewrite Hb, (assoc_L (++))|].
    split; [by rewrite Hw, Hcont, (assoc_L (++))|]. split; [congruence|]. split; [done|]. split; [done|].
    specialize (Hm eq_refl). split; intros; congruence.
  - destruct L as (Hd & Hcont & Hcur). destruct (ie_interrupted error).
    + destruct (IH t1 buffer modified ltac:(congruence) Hrun) as (written & rest & Hb & Hw & Hd' & Hrest).
      exists written, rest. rewrite Hcont in Hw. split; [done|]. split; [done|]. split; [congruence|done].
    + injection Hrun as <- <- <-. exists [], buffer. rewrite app_nil_r.
      split; [done|]. split; [done|]. split; [done|]. split; [congruence|done].
Qed.

Lemma rollback_spec t previous t' r :
  0 <= previous <= len (contents t) -> rollback_tail t previous = (t', r) ->
  match r with
  | Ok _ => contents t' = take (Z.to_nat previous) (contents t) /\ disk t' = contents t'
  | Err _ => (contents t' = contents t \/ contents t' = take (Z.to_nat previous) (contents t)) /\
             (disk t' = disk t \/ disk t' = contents t')
  end.
Proof.
  intros Hp Hrun. unfold rollback_tail in Hrun.
  pose proof (truncate_law t previous Hp) as L. destruct (io_truncate t previous) as [t1 [u|e]].
  2: { destruct e; injection Hrun as <- <-; destruct L as [Hd Hc]; by auto. }
  destruct L as [Hd1 Hc1].
  pose proof (seek_start_law t1 previous) as L. destruct (io_seek_start t1 previous) as [t2 [p|e]];
    destruct L as [Hc2 Hd2]; [|injection Hrun as <- <-; split; [right|left]; congruence].
  pose proof (flush_law t2) as L. destruct (io_flush t2) as [t3 [u3|e]];
    destruct L as [Hc3 Hd3]; [|injection Hrun as <- <-; split; [right|left]; congruence].
  pose proof (sync_all_law t3) as L. destruct (io_sync_all t3) as [t4 [u4|e]];
    destruct L as [Hc4 Hd4]; injection Hrun as <- <-; [split; congruence|split; [right|left]; congruence].
Qed.

(** What an append leaves in the active file. *)
Definition append_outcome (t t' : T) (tail : bytes) (policy : FsyncPolicy) (r : result StorageFailure unit)
  : Prop :=
  match r with
  | Ok _ => contents t' = contents t ++ tail /\
            (policy = Always -> disk t' = contents t') /\ (policy <> Always -> disk t' = disk t)
  | Err f =>
    match disposition f with
    | Rejected => contents t' = contents t /\ (disk t' = disk t \/ disk t' = contents t')
    | Indeterminate =>
      (exists written, written `prefix_of` tail /\ contents t' = contents t ++ written) /\
      (disk t' = disk t \/ disk t' = contents t')
    end
  end.

Lemma append_tail_spec fuel t tail policy t' r :
  append_binlog_tail fuel t tail policy = Some (t', r) -> append_outcome t t' tail policy r.
Proof.
  unfold append_binlog_tail. intros Hrun.
  pose proof (seek_end_law t) as L. destruct (io_seek_end t) as [t1 [previous|error]].
  2: { injection Hrun as <- <-. destruct L as (Hc & Hd & _). split; [done|by left]. }
  destruct L as (Hc1 & Hd1 & -> & Hcur).
  destruct (write_all_tracking_modification fuel t1 tail false) as [[[t2 modified] written]|] eqn:Ew;
    [|discriminate Hrun]. cbn [mbind option_bind] in Hrun.
  apply write_all_spec in Ew as (w & rest & -> & Hc2 & Hd2 & Hcur2 & Hw & Hm & _); [|congruence].
  rewrite Hc1 in Hc2.
  (* what the operations after the writes leave behind *)
  assert (Hfinish : exists t3 wr, (match written with
      | Err error => (t2, Err error)
      | Ok _ => match io_flush t2 with
                | (t, Err error) => (t, Err error)
                | (t, Ok _) => match policy with Always => io_sync_data t | _ => (t, Ok tt) end
                end
      end) = (t3, wr) /\ contents t3 = contents t ++ w /\
      match wr with
      | Ok _ => rest = [] /\ (policy = Always -> disk t3 = contents t3) /\ (policy <> Always -> disk t3 = disk t)
      | Err _ => disk t3 = disk t
      end).
  { destruct written as [u|error]; [|exists t2, (Err error); by rewrite Hc2, Hd2].
    pose proof (flush_law t2) as L. destruct (io_flush t2) as [t3 [u3|e3]]; destruct L as [Hc3 Hd3];
      [|exists t3, (Err e3); rewrite Hc3, Hd3, Hc2, Hd2; done].
    destruct policy; try (exists t3, (Ok tt); rewrite Hc3, Hd3, Hc2, Hd2; done).
    pose proof (sync_data_law t3) as L. destruct (io_sync_data t3) as [t4 [u4|e4]]; destruct L as [Hc4 Hd4];
      eexists _, _; (split; [reflexivity|]); rewrite Hc4, Hd4, Hc3, ?Hd3, Hc2, ?Hd2; done. }
  destruct Hfinish as (t3 & wr & Heq & Hc3 & Hrest). rewrite Heq in Hrun. clear Heq.
  destruct wr as [u|error].
  - injection Hrun as <- <-. destruct Hrest as (-> & Hs & Hn). unfold append_outcome. by rewrite app_nil_r.
  - destruct modified; cbn [negb] in Hrun.
    + unfold rollback_binlog_tail in Hrun.
      destruct (rollback_tail t3 (len (contents t))) as [t4 rb] eqn:Erb.
      apply rollback_spec in Erb;
        [|rewrite Hc3, len_app; pose proof (len_nonneg (contents t)); pose proof (len_nonneg w); lia].
      assert (Htake : take (Z.to_nat (len (contents t))) (contents t3) = contents t)
        by (by rewrite Hc3, len_to_nat, take_app_length).
      rewrite Htake in Erb. injection Hrun as <- <-. destruct rb as [u|e]; cbn [append_outcome disposition rejected indeterminate_failure].
      * destruct Erb as [Hc4 Hd4]. split; [done|by right].
      * destruct Erb as [Hc4 Hd4]. rewrite Hrest in Hd4. split; [|done].
        destruct Hc4 as [Hc4|Hc4]; rewrite Hc4.
        -- exists w. rewrite Hc3. split; [by apply prefix_app_r|done].
        -- exists []. rewrite app_nil_r. split; [apply prefix_nil|done].
    + injection Hrun as <- <-. specialize (Hm eq_refl eq_refl) as ->. rewrite app_nil_r in Hc3.
      split; [done|]. left. congruence.
Qed.

(** The bytes of a group are those of a log. *)
Lemma encode_group_spec records tail r :
  encode_group records tail = Ok r -> Forall (fun s => s <= U64_MAX) records.*1 ->
  Forall (fun s => 0 <= s) records.*1 -> Forall (fun b => 0 < len b) records.*2 ->
  r = tail ++ log records /\ Forall loggable records.
Proof.
  revert tail. induction records as [|[s b] records IH]; intros tail H Hmax Hmin Hne; cbn [encode_group] in H.
  { injection H as <-. split; [by rewrite app_nil_r|constructor]. }
  inversion Hmax as [|? ? Hs Hmax']; inversion Hmin as [|? ? Hs0 Hmin']; inversion Hne as [|? ? Hb Hne']; subst.
  destruct (encode_framed_versioned_binlog_record_into s b tail) as [t1|e] eqn:E; [|discriminate H].
  apply encode_framed_spec in E as (-> & Hs1 & Hl). apply IH in H as [-> Hlog]; [|done..].
  split; [|constructor; [|done]].
  - by rewrite <- (assoc_L (++)).
  - unfold loggable. cbn [fst snd] in *. lia.
Qed.

Lemma append_records_spec fuel t records policy t' r :
  Forall (fun s => 0 <= s <= U64_MAX) records.*1 -> Forall (fun b => 0 < len b) records.*2 ->
  append_binlog_records fuel t records policy = Some (t', r) ->
  append_outcome t t' (log records) policy r /\
  (match r with Ok _ => True | Err f => disposition f = Indeterminate end ->
   Forall loggable records /\ records <> []).
Proof.
  intros Hs Hb Hrun. unfold append_binlog_records in Hrun.
  assert (Hsame : forall m, append_outcome t t (log records) policy (Err (rejected m)))
    by (intros m; split; [done|by left]).
  assert (Hrej : forall l total f, group_length l total = Err f -> exists m, f = rejected m).
  { clear. induction l as [|[s b] l IH]; intros total f H; cbn [group_length] in H; [done|].
    destruct (framed_versioned_binlog_record_length (len b)); [|injection H as <-; eauto].
    destruct (checked_add total _); [by eapply IH|injection H as <-; eauto]. }
  assert (Hrej2 : forall l o f, encode_group l o = Err f -> exists m, f = rejected m).
  { clear. induction l as [|[s b] l IH]; intros o f H; cbn [encode_group] in H; [done|].
    destruct (encode_framed_versioned_binlog_record_into s b o); [by eapply IH|injection H as <-; eauto]. }
  destruct records as [|rec records0]; [injection Hrun as <- <-; split; [apply Hsame|done]|].
  set (records := rec :: records0) in *. assert (Hne : records <> []) by done. clearbody records.
  destruct (group_length records 0) as [total|f] eqn:Eg.
  2: { injection Hrun as <- <-. apply Hrej in Eg as [m ->]. split; [apply Hsame|done]. }
  destruct (encode_group records []) as [tail|f] eqn:Ee.
  2: { injection Hrun as <- <-. apply Hrej2 in Ee as [m ->]. split; [apply Hsame|done]. }
  apply encode_group_spec in Ee as [-> Hlog]; [| |by eapply list.Forall_impl; [exact Hs|simpl; lia]|done].
  2: { eapply list.Forall_impl; [exact Hs|simpl; lia]. }
  apply append_tail_spec in Hrun. done.
Qed.

(** The loop ends when writes are interrupted finitely often. *)
Lemma write_all_returns (patience : T -> nat) fuel t buffer modified :
  (forall t b, let '(t', r) := io_write t b in
     (patience t' <= patience t)%nat /\
     match r with Err e => ie_interrupted e = true -> (patience t' < patience t)%nat | Ok _ => True end) ->
  cursor t = len (contents t) -> (length buffer + patience t < fuel)%nat ->
  write_all_tracking_modification fuel t buffer modified <> None.
Proof.
  intros Hq. revert t buffer modified. induction fuel as [|fuel IH]; intros t buffer modified Hc Hf; [lia|].
  cbn [write_all_tracking_modification]. destruct buffer as [|b0 buffer0]; [done|].
  set (buffer := b0 :: buffer0) in *. assert (0 < length buffer)%nat by (simpl; lia). clearbody buffer.
  pose proof (write_law t buffer Hc) as L. specialize (Hq t buffer).
  destruct (io_write t buffer) as [t1 [n|error]]; destruct Hq as [Hq1 Hq2].
  - destruct L as (_ & Hn & _ & Hcur). destruct (Z.eqb_spec n 0); [done|]. apply IH; [done|].
    rewrite length_drop. unfold len in Hn. lia.
  - destruct L as (_ & Hc1 & Hcur). destruct (ie_interrupted error); [|done]. specialize (Hq2 eq_refl).
    apply IH; [congruence|lia].
Qed.

(** ** What no append touches *)

Section Invariant.
Context (P : T -> Prop) (previous : Z).
Context (Pwrite : forall t b, P t -> P (io_write t b).1) (Pflush : forall t, P t -> P (io_flush t).1).
Context (Pend : forall t, P t -> P (io_seek_end t).1) (Pstart : forall t p, P t -> P (io_seek_start t p).1).
Context (Pdata : forall t, P t -> P (io_sync_data t).1) (Pall : forall t, P t -> P (io_sync_all t).1).
Context (rolls_back : Prop) (Ptruncate : rolls_back -> forall t, P t -> P (io_truncate t previous).1).

Lemma write_all_preserves fuel t buffer modified t' modified' r :
  P t -> write_all_tracking_modification fuel t buffer modified = Some (t', modified', r) -> P t'.
Proof.
  revert t buffer modified. induction fuel as [|fuel IH]; intros t buffer modified Hp Hrun; [done|].
  cbn [write_all_tracking_modification] in Hrun. destruct buffer as [|b buffer]; [by injection Hrun as <- <- <-|].
  pose proof (Pwrite t (b :: buffer) Hp) as H1. destruct (io_write t (b :: buffer)) as [t1 [n|e]]; cbn [fst] in H1.
  - destruct (n =? 0); [by injection Hrun as <- <- <-|]. exact (IH _ _ _ H1 Hrun).
  - destruct (ie_interrupted e); [exact (IH _ _ _ H1 Hrun)|by injection Hrun as <- <- <-].
Qed.

Lemma rollback_preserves t t' r : rolls_back -> P t -> rollback_tail t previous = (t', r) -> P t'.
Proof.
  intros Hrb Hp Hrun. unfold rollback_tail in Hrun. pose proof (Ptruncate Hrb t Hp) as H1.
  destruct (io_truncate t previous) as [t1 [u|[]]]; cbn [fst] in *; try (by injection Hrun as <- <-).
  pose proof (Pstart t1 previous H1) as H2. destruct (io_seek_start t1 previous) as [t2 [p|e]]; cbn [fst] in *;
    [|by injection Hrun as <- <-].
  pose proof (Pflush t2 H2) as H3. destruct (io_flush t2) as [t3 [u3|e]]; cbn [fst] in *; [|by injection Hrun as <- <-].
  pose proof (Pall t3 H3) as H4. destruct (io_sync_all t3) as [t4 [u4|e]]; cbn [fst] in *; by injection Hrun as <- <-.
Qed.

(** Only a failed append truncates. *)
Lemma append_tail_preserves fuel t tail policy t' r :
  match r with Ok _ => True | Err _ => rolls_back end -> previous = len (contents t) -> P t -> append_binlog_tail fuel t tail policy = Some (t', r) -> P t'.
Proof.
  intros Hrb Hprev Hp Hrun. unfold append_binlog_tail in Hrun.
  pose proof (seek_end_law t) as L. pose proof (Pend t Hp) as H1.
  destruct (io_seek_end t) as [t1 [p|e]]; cbn [fst] in *; [|by injection Hrun as <- <-].
  destruct L as (_ & _ & -> & _). rewrite <- Hprev in Hrun.
  destruct (write_all_tracking_modification fuel t1 tail false) as [[[t2 modified] w]|] eqn:Ew; [|discriminate Hrun].
  cbn [mbind option_bind] in Hrun. apply write_all_preserves in Ew; [|done].
  assert (Hfin : forall t3 wr, (match w with
      | Err error => (t2, Err error)
      | Ok _ => match io_flush t2 with
                | (t, Err error) => (t, Err error)
                | (t, Ok _) => match policy with Always => io_sync_data t | _ => (t, Ok tt) end
                end
      end) = (t3, wr) -> P t3).
  { intros t3 wr H. destruct w; [|by injection H as <- <-].
    pose proof (Pflush t2 Ew) as H2. destruct (io_flush t2) as [t4 [u4|e4]]; cbn [fst] in *; [|by injection H as <- <-].
    destruct policy; try (by injection H as <- <-). pose proof (Pdata t4 H2) as H3. by rewrite H in H3. }
  match type of Hrun with context [let '(_, _) := ?x in _] => destruct x as [t3 wr] end.
  specialize (Hfin t3 wr eq_refl). destruct wr as [u|error]; [by injection Hrun as <- <-|].
  destruct modified; cbn [negb] in Hrun; [|by injection Hrun as <- <-].
  unfold rollback_binlog_tail in Hrun. destruct (rollback_tail t3 previous) as [t4 rb] eqn:Erb.
  injection Hrun as <- <-. by apply rollback_preserves in Erb.
Qed.

Lemma append_records_preserves fuel t records policy t' r :
  match r with Ok _ => True | Err _ => rolls_back end -> previous = len (contents t) -> P t -> append_binlog_records fuel t records policy = Some (t', r) -> P t'.
Proof.
  intros Hrb Hprev Hp Hrun. unfold append_binlog_records in Hrun. destruct records; [by injection Hrun as <- <-|].
  destruct (group_length _ _); [|by injection Hrun as <- <-].
  destruct (encode_group _ _); [|by injection Hrun as <- <-]. by eapply append_tail_preserves.
Qed.

End Invariant.

End Atomic.
