(* ===== verification/Recovery.v ===== *)
(** * Recovery: rebuilding the dataset at startup (src/persistence/recovery.rs)

    The files of the data directory are a finite map from names to contents.
    Operating-system errors are not modelled: creating, renaming, truncating and
    removing a file that is there succeeds.  Errors that recovery itself raises
    on what it finds are, and leave behind the files as they are at that point.

    flate2's gzip is a parameter: decoding a file gives the bytes it delivers and
    the error, if any, after them. *)

From Stdlib Require Import ZArith Lia.
From Stdlib Require Import Strings.Byte.
From stdpp Require Import base gmap list strings numbers sorting.
From S2P Require Import Prelude Text Json JsonPath Value Shard Engine Store Persistence Model Codec BinlogFile.

Open Scope Z_scope.

Class Gzip := {
  gzip : bytes -> bytes;
  gunzip : bytes -> bytes * option bytes;
  gunzip_gzip : forall b, gunzip (gzip b) = (b, None)
}.

Definition SNAPSHOT_MAGIC : bytes := bs "ONYXSNAP".
Definition SNAPSHOT_VERSION : Z := 2.
Definition MAX_SNAPSHOT_METADATA_SIZE : Z := 4096.

Notation Files := (gmap bytes bytes).

(** ** File programs *)

Definition io (A : Type) : Type := Files -> option (Files * result PersistenceError A).

#[global] Instance io_ret : MRet io := fun A a fs => Some (fs, Ok a).
#[global] Instance io_bind : MBind io := fun A B f m fs =>
  match m fs with
  | Some (fs, Ok a) => f a fs
  | Some (fs, Err e) => Some (fs, Err e)
  | None => None
  end.

Definition get_files : io Files := fun fs => Some (fs, Ok fs).
Definition fail {A} (e : PersistenceError) : io A := fun fs => Some (fs, Err e).
Definition lift {A} (r : result PersistenceError A) : io A := fun fs => Some (fs, r).
Definition lift_option {A} (r : option (result PersistenceError A)) : io A := fun fs =>
  match r with Some r => Some (fs, r) | None => None end.

(** [set_len], [remove_file] and [durable_rename] on a file that is there. *)
Definition truncate_file (name : bytes) (length : Z) : io unit := fun fs =>
  Some (match fs !! name with Some b => <[name := take (Z.to_nat length) b]> fs | None => fs end, Ok tt).
Definition remove_file (name : bytes) : io unit := fun fs => Some (delete name fs, Ok tt).
Definition rename_file (from to : bytes) : io unit := fun fs =>
  Some (match fs !! from with Some b => <[to := b]> (delete from fs) | None => fs end, Ok tt).
Definition exists_file (name : bytes) : io bool := fun fs =>
  Some (fs, Ok (match fs !! name with Some _ => true | None => false end)).

(** ** Reading a snapshot *)

(** A reader over a decoded stream: the bytes left and the error after them. *)
Record stream : Type := mkStream { left : bytes; broken : option bytes }.

Definition err_eof : PersistenceError := PersistenceError_new (bs "failed to fill whole buffer").

(** [read_exact]. *)
Definition read_exact (n : Z) (s : stream) : result PersistenceError (bytes * stream) :=
  if n <=? len (left s)
  then Ok (take (Z.to_nat n) (left s), mkStream (drop (Z.to_nat n) (left s)) (broken s))
  else Err (match broken s with Some e => PersistenceError_new e | None => err_eof end).

(** [while line.ends_with(['\r', '\n']) { line.pop(); }]. *)
Fixpoint drop_newlines (reversed : bytes) : bytes :=
  match reversed with
  | b :: rest => if bool_decide (b = x0d) || bool_decide (b = x0a) then drop_newlines rest else reversed
  | [] => []
  end.
Definition trim_newlines (line : bytes) : bytes := rev (drop_newlines (rev line)).

(** The bytes up to and including the first newline of [b]. *)
Fixpoint line_of (b : bytes) : option bytes :=
  match b with
  | [] => None
  | x :: rest => if bool_decide (x = x0a) then Some [x] else cons x <$> line_of rest
  end.

(** [read_until] on the reader limited to [maximum_size + 1] bytes. *)
Definition read_line_bytes (maximum_size : Z) (s : stream) : result PersistenceError bytes :=
  let window := take (Z.to_nat (maximum_size + 1)) (left s) in
  match line_of window with
  | Some line => Ok line
  | None =>
    if maximum_size + 1 <=? len (left s) then Ok window
    else match broken s with Some e => Err (PersistenceError_new e) | None => Ok window end
  end.

Definition read_bounded_utf8_line (maximum_size : Z) (s : stream)
  : result PersistenceError (option bytes * stream) :=
  line ← read_line_bytes maximum_size s;
  let s := mkStream (drop (length line) (left s)) (broken s) in
  match line with
  | [] => Ok (None, s)
  | _ =>
    if maximum_size <? len line
    then Err (PersistenceError_new (bs "Snapshot line exceeds the " ++ print_Z maximum_size
                                    ++ bs " byte limit"))
    else
      match Utf8.from_utf8 line with
      | None => Err (PersistenceError_new (bs "Snapshot contains invalid UTF-8"))
      | Some line => Ok (Some (trim_newlines line), s)
      end
  end.

Inductive SnapshotFormat : Type :=
| Missing
| Legacy
| Versioned (watermark : Z).

(** [split('\t')]. *)
Fixpoint split_tabs (cur b : bytes) : list bytes :=
  match b with
  | [] => [cur]
  | x :: rest => if bool_decide (x = x09) then cur :: split_tabs [] rest else split_tabs (cur ++ [x]) rest
  end.

Definition parse_header (first_line : bytes) : result PersistenceError SnapshotFormat :=
  if negb (starts_with first_line SNAPSHOT_MAGIC) then Ok Legacy
  else
    match split_tabs [] first_line with
    | [magic; version; watermark] =>
      if negb (bytes_eqb magic SNAPSHOT_MAGIC)
      then Err (PersistenceError_new (bs "Malformed snapshot metadata header"))
      else
        version ← ok_or (parse_u8 version) (PersistenceError_new (bs "Invalid snapshot format version"));
        if negb (version =? SNAPSHOT_VERSION)
        then Err (PersistenceError_new (bs "Unsupported snapshot format version: " ++ print_Z version))
        else
          watermark ← ok_or (parse_u64 watermark)
            (PersistenceError_new (bs "Invalid snapshot sequence watermark"));
          Ok (Versioned watermark)
    | _ => Err (PersistenceError_new (bs "Malformed snapshot metadata header"))
    end.

Section Recovery.
Context {CRC : Crc32} {GZ : Gzip} {JN : JsonNumber} {SJ : SerdeJson} {HO : HashOrder}.

Definition open_snapshot (file : bytes) : stream :=
  let '(b, e) := gunzip file in mkStream b e.

Definition inspect_snapshot (file : option bytes) : result PersistenceError SnapshotFormat :=
  match file with
  | None => Ok Missing
  | Some file =>
    '(first_line, _) ← read_bounded_utf8_line MAX_SNAPSHOT_METADATA_SIZE (open_snapshot file);
    first_line ← ok_or first_line (PersistenceError_new (bs "Snapshot is empty"));
    parse_header first_line
  end.

(** Clock readings of one loaded entry. *)
Definition LOAD_TICKS : nat := 10.

(** The loop over the records of a versioned snapshot. *)
Fixpoint load_records (fuel : nat) (clk : clock) (s : stream) (count : Z)
  : prog (result PersistenceError Z) :=
  match fuel with
  | O => fun _ => None
  | S fuel =>
    match left s, broken s with
    | [], None => mret (Ok count)
    | [], Some e => mret (Err (PersistenceError_new e))
    | _, _ =>
      match ('(length_bytes, s) ← read_exact 4 s;
             let record_length := from_be_bytes length_bytes in
             if (record_length =? 0) || (MAX_SNAPSHOT_RECORD_SIZE <? record_length)
             then Err (PersistenceError_new (bs "Invalid snapshot record length: " ++ print_Z record_length))
             else
               '(record, s) ← read_exact record_length s;
               '(key, entry) ← decode_snapshot_entry (clk 0%nat) record;
               Ok (key, entry, s)) with
      | Err e => mret (Err e)
      | Ok (key, entry, s) =>
        if is_expired (clk 1%nat) entry then load_records fuel (tick LOAD_TICKS clk) s count
        else
          _ ← set_value (tick 2 clk) key (value entry) (expires_at entry);
          load_records fuel (tick LOAD_TICKS clk) s (count + 1)
      end
    end
  end.

(** The legacy text format is refused before entries are loaded. *)
Definition load_snapshot_entries (clk : clock) (file : option bytes) (format : SnapshotFormat)
  : prog (result PersistenceError Z) :=
  match format, file with
  | Versioned _, Some file =>
    match read_bounded_utf8_line MAX_SNAPSHOT_METADATA_SIZE (open_snapshot file) with
    | Err e => mret (Err e)
    | Ok (None, _) => mret (Err (PersistenceError_new (bs "Snapshot metadata header is missing")))
    | Ok (Some _, s) => load_records (length (left s) + 1) clk s 0
    end
  | _, _ => mret (Ok 0)
  end.

(** ** The binlog history *)

Record InspectedBinlogFile : Type := mkInspected {
  path : bytes;
  declared_end_sequence : option Z;
  inspection : BinlogInspection
}.

(** The scan of the directory, in whatever order it lists the files. *)
Fixpoint list_segments (clk : clock) (entries : list (bytes * bytes)) (segments : list InspectedBinlogFile)
  : io (list InspectedBinlogFile) :=
  match entries with
  | [] => mret segments
  | (name, contents) :: rest =>
    end_sequence ← lift (parse_binlog_segment_end_sequence (Utf8.from_utf8 name));
    match end_sequence with
    | None => list_segments clk rest segments
    | Some end_sequence =>
      if len segments =? MAX_BINLOG_SEGMENTS
      then fail (PersistenceError_new (bs "Binlog segment count exceeds the "
             ++ print_Z MAX_BINLOG_SEGMENTS ++ bs " segment limit"))
      else
        inspection ← lift_option (inspect_binlog clk (Some contents));
        list_segments clk rest (segments ++ [mkInspected name (Some end_sequence) inspection])
    end
  end.

Definition end_of (f : InspectedBinlogFile) : Z :=
  match declared_end_sequence f with Some s => s | None => 0 end.

Definition by_end (a b : InspectedBinlogFile) : Prop := end_of a <= end_of b.
#[export] Instance by_end_decision : RelDecision by_end.
Proof. intros a b. unfold by_end. apply _. Defined.

(** The corrected segment, or [None] when nothing of it was complete. *)
Definition repair_last_incomplete_segment (segment : InspectedBinlogFile)
  : io (option InspectedBinlogFile) :=
  _ ← truncate_file (path segment) (valid_len (inspection segment));
  match min_sequence (inspection segment) with
  | None => _ ← remove_file (path segment); mret None
  | Some _ =>
    let corrected_end_sequence := max_sequence (inspection segment) in
    let corrected_path := binlog_segment corrected_end_sequence in
    let repaired := mkInspection (min_sequence (inspection segment)) (max_sequence (inspection segment))
                      (valid_len (inspection segment)) false
                      (contains_checksumless_records (inspection segment)) in
    if bytes_eqb corrected_path (path segment)
    then mret (Some (mkInspected (path segment) (declared_end_sequence segment) repaired))
    else
      taken ← exists_file corrected_path;
      if taken : bool
      then fail (PersistenceError_new
             (bs "Cannot repair binlog segment because corrected path already exists: " ++ corrected_path))
      else
        _ ← rename_file (path segment) corrected_path;
        mret (Some (mkInspected corrected_path (Some corrected_end_sequence) repaired))
  end.

(** The first segment with an incomplete tail, and those around it. *)
Fixpoint split_truncated (before segments : list InspectedBinlogFile)
  : option (list InspectedBinlogFile * InspectedBinlogFile * list InspectedBinlogFile) :=
  match segments with
  | [] => None
  | f :: rest =>
    if truncated_tail (inspection f) then Some (before, f, rest)
    else split_truncated (before ++ [f]) rest
  end.

Definition repair_history (active : BinlogInspection) (segments : list InspectedBinlogFile)
  : io (list InspectedBinlogFile) :=
  match split_truncated [] segments with
  | None => mret segments
  | Some (before, f, rest) =>
    if negb (bool_decide (rest = [])) || match min_sequence active with Some _ => true | None => false end
    then fail (PersistenceError_new
           (bs "Sealed binlog segment has an incomplete tail before later history: " ++ path f))
    else
      repaired ← repair_last_incomplete_segment f;
      mret (match repaired with Some f => before ++ [f] | None => before end)
  end.

Fixpoint check_segments (segments : list InspectedBinlogFile) : result PersistenceError unit :=
  match segments with
  | [] => Ok tt
  | f :: rest =>
    match min_sequence (inspection f) with
    | None => Err (PersistenceError_new (bs "Sealed binlog segment is empty: " ++ path f))
    | Some _ =>
      if negb (max_sequence (inspection f) =? end_of f)
      then Err (PersistenceError_new (bs "Binlog segment " ++ path f
             ++ bs " does not match its final record sequence "
             ++ print_Z (max_sequence (inspection f))))
      else check_segments rest
    end
  end.

Fixpoint check_contiguous (previous_end : option Z) (files : list InspectedBinlogFile)
  : result PersistenceError unit :=
  match files with
  | [] => Ok tt
  | f :: rest =>
    match min_sequence (inspection f) with
    | None => check_contiguous previous_end rest
    | Some first_sequence =>
      if match previous_end with
         | Some e => negb (bool_decide (checked_add e 1 = Some first_sequence))
         | None => false
         end
      then Err (PersistenceError_new (bs "Non-contiguous binlog history: sequence "
             ++ print_Z first_sequence ++ bs " follows "
             ++ print_Z (match previous_end with Some e => e | None => 0 end)))
      else check_contiguous (Some (max_sequence (inspection f))) rest
    end
  end.

Definition inspect_binlog_history (clk : clock) : io (list InspectedBinlogFile) :=
  fs ← get_files;
  segments ← list_segments clk (hm_iter fs) [];
  let segments := merge_sort by_end segments in
  active_inspection ← lift_option (inspect_binlog clk (fs !! binlog_path));
  segments ← repair_history active_inspection segments;
  _ ← lift (check_segments segments);
  let segments := segments ++ [mkInspected binlog_path None active_inspection] in
  _ ← lift (check_contiguous None segments);
  mret segments.

(** ** Loading *)

Definition recover_interrupted_binlog_rotation : io unit :=
  active ← exists_file binlog_path;
  if active : bool then mret tt
  else
    backup ← exists_file binlog_backup_path;
    if backup : bool then rename_file binlog_backup_path binlog_path
    else
      temp ← exists_file binlog_temp_path;
      if temp : bool
      then fail (PersistenceError_new
             (bs "Binlog rotation temporary file exists without an active or backup binlog"))
      else mret tt.

(** Deletes what the snapshot covers; the number of sealed segments left. *)
Fixpoint remove_covered (watermark : Z) (history : list InspectedBinlogFile) (removed : Z) : io Z :=
  match history with
  | [] => mret removed
  | f :: rest =>
    if match declared_end_sequence f with Some _ => true | None => false end
       && (max_sequence (inspection f) <=? watermark)
    then _ ← remove_file (path f); remove_covered watermark rest (removed + 1)
    else remove_covered watermark rest removed
  end.

Definition sealed (history : list InspectedBinlogFile) : Z :=
  len (filter (fun f => declared_end_sequence f <> None) history).

Definition cleanup_snapshot_covered_segments (history : list InspectedBinlogFile) (watermark : Z) : io Z :=
  removed ← remove_covered watermark history 0;
  mret (sat_sub (sealed history) removed).

Definition cleanup_redundant_binlog_rotation_files : io unit :=
  _ ← remove_file binlog_temp_path; remove_file binlog_backup_path.

Record replay_state : Type := mkReplay {
  rp_clock : clock;
  rp_store : ShardedStore;
  rp_expected : option Z;
  rp_replayed : Z
}.

Definition err_replay (expected : option Z) (sequence : Z) : PersistenceError :=
  PersistenceError_new (bs "Non-contiguous binlog replay sequence: expected "
    ++ (match expected with Some e => print_Z e | None => bs "no further sequence" end)
    ++ bs ", found " ++ print_Z sequence).

Definition replay_record (watermark : Z) (s : replay_state) (record : bytes)
  : option (result PersistenceError replay_state) :=
  match decode_binlog_record record with
  | Err e => Some (Err e)
  | Ok decoded =>
    let sequence := rec_sequence decoded in
    if sequence <=? watermark then Some (Ok s)
    else if negb (bool_decide (rp_expected s = Some sequence))
    then Some (Err (err_replay (rp_expected s) sequence))
    else
      match decode_committed_batch (rp_clock s) (rec_effects decoded) with
      | Err e => Some (Err e)
      | Ok batch =>
        let n := length (effects batch) in
        '(staging, _) ← apply_committed_batch (tick n (rp_clock s)) batch (rp_store s);
        Some (Ok (mkReplay (tick (n + EFFECT_TICKS * n) (rp_clock s)) staging
                   (checked_add sequence 1) (rp_replayed s + 1)))
      end
  end.

Fixpoint replay_history (watermark : Z) (history : list InspectedBinlogFile) (s : replay_state)
  : io replay_state :=
  match history with
  | [] => mret s
  | f :: rest =>
    fs ← get_files;
    '(s, _) ← lift_option (for_each_binlog_record (replay_record watermark) (fs !! path f) s);
    replay_history watermark rest s
  end.

Record RecoveryState : Type := mkRecovery {
  last_sequence : Z;
  snapshot_watermark : Z;
  replayed_records : Z;
  active_binlog_bytes : Z;
  unsnapshotted_segment_count : Z;
  physical_segment_count : Z
}.

Definition find_active (history : list InspectedBinlogFile) : option InspectedBinlogFile :=
  snd <$> list_find (fun f => declared_end_sequence f = None) history.

Definition err_legacy_snapshot : PersistenceError :=
  PersistenceError_new (bs "Unsupported unsafe legacy snapshot format; create a verified versioned snapshot before upgrading").
Definition err_history_gap : PersistenceError :=
  PersistenceError_new (bs "Binlog begins after the snapshot recovery boundary").

(** The first sequence of the history. *)
Fixpoint first_sequence (history : list InspectedBinlogFile) : option Z :=
  match history with
  | [] => None
  | f :: rest =>
    match min_sequence (inspection f) with Some s => Some s | None => first_sequence rest end
  end.

Definition truncate_active (history : list InspectedBinlogFile) : io unit :=
  match find_active history with
  | Some active =>
    if truncated_tail (inspection active)
    then truncate_file (path active) (valid_len (inspection active))
    else mret tt
  | None => mret tt
  end.

(** A sealed segment the snapshot does not cover. *)
Definition beyond (watermark : Z) (f : InspectedBinlogFile) : bool :=
  match declared_end_sequence f with Some e => watermark <? e | None => false end.

(** [clks] are the clock readings of the inspection, the snapshot, the replay
    and the replacement of the dataset. *)
Definition load_data_from_paths (clks : nat -> clock) (store : ShardedStore)
  : io (ShardedStore * RecoveryState) :=
  _ ← recover_interrupted_binlog_rotation;
  primary ← exists_file snapshot_path;
  backup ← exists_file snapshot_backup_path;
  let name := if negb primary && backup then snapshot_backup_path else snapshot_path in
  fs ← get_files;
  snapshot_format ← lift (inspect_snapshot (fs !! name));
  match snapshot_format with
  | Legacy => fail err_legacy_snapshot
  | _ =>
    history ← inspect_binlog_history (clks 0%nat);
    let watermark := match snapshot_format with Versioned w => w | _ => 0 end in
    if match first_sequence history with
       | Some first => sat_add watermark 1 <? first
       | None => false
       end
    then fail err_history_gap
    else
      '(staging, _) ← lift_option
        (match load_snapshot_entries (clks 1%nat) (fs !! name) snapshot_format store_new with
         | Some (st, Ok n) => Some (Ok (st, n))
         | Some (_, Err e) => Some (Err e)
         | None => None
         end);
      replay ← replay_history watermark history
        (mkReplay (clks 2%nat) staging (checked_add watermark 1) 0);
      _ ← truncate_active history;
      '(staging, entries) ← lift_option
        (match raw_entries (clks 3%nat) (rp_store replay) with
         | Some r => Some (Ok r)
         | None => None
         end);
      e ← lift_option
        (match engine_replace_all (clks 4%nat) (engine store) entries with
         | Some e => Some (Ok e)
         | None => None
         end);
      physical ← cleanup_snapshot_covered_segments history watermark;
      _ ← cleanup_redundant_binlog_rotation_files;
      let history_sequence :=
        fold_left Z.max (map (fun f => max_sequence (inspection f)) history) 0 in
      let unsnapshotted := len (filter (fun f => beyond watermark f = true) history) in
      mret (with_engine store e,
            mkRecovery (Z.max watermark history_sequence) watermark (rp_replayed replay)
              (match find_active history with Some f => valid_len (inspection f) | None => 0 end)
              unsnapshotted physical)
  end.

(** ** Writing a snapshot *)

Fixpoint snapshot_records (entries : list (bytes * DataEntry)) : result PersistenceError bytes :=
  match entries with
  | [] => Ok []
  | (key, entry) :: rest =>
    record ← encode_snapshot_entry key entry;
    record_length ← ok_or (u32_try_from (len record))
      (PersistenceError_new (bs "Snapshot entry exceeds the format limit"));
    rest ← snapshot_records rest;
    Ok (write_u32_be [] record_length ++ record ++ rest)
  end.

Definition snapshot_header (watermark : Z) : bytes :=
  SNAPSHOT_MAGIC ++ [x09] ++ print_Z SNAPSHOT_VERSION ++ [x09] ++ print_Z watermark ++ [x0a].

End Recovery.
