(* ===== verification/ManagedBinlog.v ===== *)
(** * ManagedBinlog: the active binlog and its sealed generations
    (src/persistence/runtime.rs)

    [ManagedBinlogFile] owns the handle of the active file.  The operating
    system decides how every call ends: the outcomes of the calls to come are a
    list, and every call after the list succeeds.  [m_disk] is the part of the
    active file that a crash cannot take back. *)

From Stdlib Require Import ZArith Lia.
From Stdlib Require Import Strings.Byte.
From stdpp Require Import base gmap list strings numbers sorting.
From S2P Require Import Prelude Text Json JsonPath Value Shard Engine Store Persistence Model Codec BinlogFile BinlogIo Recovery.

Open Scope Z_scope.

(** How a call to the operating system ends: it succeeds; it writes at most [n]
    bytes; it fails, and resizing a file may have happened all the same. *)
Inductive outcome : Type :=
| Done
| Partial (n : Z)
| Fails (e : io_error) (applied : bool).

Record ManagedBinlogFile : Type := mkManaged {
  m_files : Files;
  m_handle : option Z;
  m_disk : bytes;
  m_next : list outcome
}.

Definition active_contents (m : ManagedBinlogFile) : bytes :=
  match m_files m !! binlog_path with Some b => b | None => [] end.

Definition with_files (m : ManagedBinlogFile) (fs : Files) : ManagedBinlogFile :=
  mkManaged fs (m_handle m) (m_disk m) (m_next m).
Definition with_handle (m : ManagedBinlogFile) (h : option Z) : ManagedBinlogFile :=
  mkManaged (m_files m) h (m_disk m) (m_next m).
Definition with_disk (m : ManagedBinlogFile) (d : bytes) : ManagedBinlogFile :=
  mkManaged (m_files m) (m_handle m) d (m_next m).
Definition with_active (m : ManagedBinlogFile) (b : bytes) : ManagedBinlogFile :=
  with_files m (<[binlog_path := b]> (m_files m)).

(** ** System calls *)

Definition next_outcome (m : ManagedBinlogFile) : ManagedBinlogFile * outcome :=
  match m_next m with
  | [] => (m, Done)
  | o :: rest => (mkManaged (m_files m) (m_handle m) (m_disk m) rest, o)
  end.

(** A call that changes nothing the model tracks. *)
Definition sys (m : ManagedBinlogFile) : ManagedBinlogFile * result io_error unit :=
  match next_outcome m with
  | (m, Fails e _) => (m, Err e)
  | (m, _) => (m, Ok tt)
  end.

Definition err_no_handle : io_error :=
  mkIoError false (bs "Active binlog handle is unavailable after rotation failure").

(** A call through the handle of the active file ([file_mut]). *)
Definition on_handle {A} (m : ManagedBinlogFile)
    (f : ManagedBinlogFile -> Z -> ManagedBinlogFile * result io_error A)
  : ManagedBinlogFile * result io_error A :=
  match m_handle m with
  | None => (m, Err err_no_handle)
  | Some position => f m position
  end.

(** The bytes of a file after [data] is written at [position]. *)
Definition write_at (position : Z) (data old : bytes) : bytes :=
  take (Z.to_nat position) old ++ replicate (Z.to_nat (position - len old)) x00 ++ data
  ++ drop (Z.to_nat (position + len data)) old.

Definition m_write (m : ManagedBinlogFile) (buffer : bytes) : ManagedBinlogFile * result io_error Z :=
  on_handle m (fun m position =>
    let write m n :=
      let data := take (Z.to_nat n) buffer in
      (with_handle (with_active m (write_at position data (active_contents m))) (Some (position + n)), Ok n) in
    match next_outcome m with
    | (m, Done) => write m (len buffer)
    | (m, Partial n) => write m (Z.max 0 (Z.min n (len buffer)))
    | (m, Fails e _) => (m, Err e)
    end).

Definition m_flush (m : ManagedBinlogFile) : ManagedBinlogFile * result io_error unit :=
  on_handle m (fun m _ => sys m).

Definition m_seek (m : ManagedBinlogFile) (position : ManagedBinlogFile -> Z)
  : ManagedBinlogFile * result io_error Z :=
  on_handle m (fun m _ =>
    match sys m with
    | (m, Ok _) => (with_handle m (Some (position m)), Ok (position m))
    | (m, Err e) => (m, Err e)
    end).

Definition m_seek_end (m : ManagedBinlogFile) : ManagedBinlogFile * result io_error Z :=
  m_seek m (fun m => len (active_contents m)).
Definition m_seek_start (m : ManagedBinlogFile) (p : Z) : ManagedBinlogFile * result io_error Z :=
  m_seek m (fun _ => p).

(** [sync_data] and [sync_all]. *)
Definition m_sync (m : ManagedBinlogFile) : ManagedBinlogFile * result io_error unit :=
  on_handle m (fun m _ =>
    match sys m with
    | (m, Ok _) => (with_disk m (active_contents m), Ok tt)
    | (m, Err e) => (m, Err e)
    end).

Definition resized (length : Z) (old : bytes) : bytes :=
  take (Z.to_nat length) old ++ replicate (Z.to_nat (length - len old)) x00.

Definition set_len (m : ManagedBinlogFile) (length : Z) : ManagedBinlogFile * result io_error unit :=
  on_handle m (fun m _ =>
    match next_outcome m with
    | (m, Fails e applied) =>
      (if applied then with_active m (resized length (active_contents m)) else m, Err e)
    | (m, _) => (with_active m (resized length (active_contents m)), Ok tt)
    end).

Definition sys_rename (m : ManagedBinlogFile) (from to : bytes) : ManagedBinlogFile * result io_error unit :=
  match sys m with
  | (m, Err e) => (m, Err e)
  | (m, Ok _) =>
    (match m_files m !! from with
     | Some b => with_files m (<[to := b]> (delete from (m_files m)))
     | None => m
     end, Ok tt)
  end.

Definition sys_remove (m : ManagedBinlogFile) (name : bytes) : ManagedBinlogFile * result io_error unit :=
  match sys m with
  | (m, Err e) => (m, Err e)
  | (m, Ok _) => (with_files m (delete name (m_files m)), Ok tt)
  end.

(** ** Segments *)

Definition by_sequence (a b : Z * bytes) : Prop := a.1 <= b.1.
#[export] Instance by_sequence_decision : RelDecision by_sequence.
Proof. intros a b. unfold by_sequence. apply _. Defined.

Fixpoint segment_names (names : list bytes) : result PersistenceError (list (Z * bytes)) :=
  match names with
  | [] => Ok []
  | name :: rest =>
    end_sequence ← parse_binlog_segment_end_sequence (Utf8.from_utf8 name);
    segments ← segment_names rest;
    Ok (match end_sequence with Some n => (n, name) :: segments | None => segments end)
  end.

Section Managed.
Context {HO : HashOrder}.

Definition list_binlog_segments (m : ManagedBinlogFile)
  : ManagedBinlogFile * result io_error (list (Z * bytes)) :=
  match sys m with
  | (m, Err e) => (m, Err e)
  | (m, Ok _) =>
    (m, match segment_names (hm_iter (m_files m)).*1 with
        | Ok segments => Ok (merge_sort by_sequence segments)
        | Err e => Err (mkIoError false (pe_message e))
        end)
  end.

Fixpoint remove_segments (m : ManagedBinlogFile) (segments : list (Z * bytes)) (removed : bool)
  : ManagedBinlogFile * result io_error bool :=
  match segments with
  | [] => (m, Ok removed)
  | (_, name) :: rest =>
    match sys_remove m name with
    | (m, Ok _) => remove_segments m rest true
    | (m, Err e) => (m, Err e)
    end
  end.

Definition remove_all_binlog_segments (m : ManagedBinlogFile)
  : ManagedBinlogFile * result io_error unit :=
  match list_binlog_segments m with
  | (m, Err e) => (m, Err e)
  | (m, Ok segments) =>
    match remove_segments m segments false with
    | (m, Err e) => (m, Err e)
    | (m, Ok removed) => if removed : bool then sys m else (m, Ok tt)
    end
  end.

Definition m_truncate (m : ManagedBinlogFile) (length : Z)
  : ManagedBinlogFile * result TruncateError unit :=
  match set_len m length with
  | (m, Err e) => (m, Err (TruncateIndeterminate e))
  | (m, Ok _) =>
    match m_seek_start m length with
    | (m, Err e) => (m, Err (TruncateIndeterminate e))
    | (m, Ok _) =>
      if length =? 0 then
        match remove_all_binlog_segments m with
        | (m, Err e) => (m, Err (TruncateIndeterminate e))
        | (m, Ok _) => (m, Ok tt)
        end
      else (m, Ok tt)
    end
  end.

(** ** Sealing *)

Definition reopen_active (m : ManagedBinlogFile) : ManagedBinlogFile * result io_error unit :=
  match sys m with
  | (m, Err e) => (m, Err e)
  | (m, Ok _) =>
    match m_files m !! binlog_path with
    | None => (m, Err (mkIoError false (bs "No such file or directory (os error 2)")))
    | Some b =>
      match sys m with
      | (m, Err e) => (m, Err e)
      | (m, Ok _) => (with_handle m (Some (len b)), Ok tt)
      end
    end
  end.

Definition io_other (m : bytes) : io_error := mkIoError false m.

Definition restore_segment_after_failed_seal (m : ManagedBinlogFile) (segment : bytes)
    (original_error : io_error) : ManagedBinlogFile * result BinlogRotationError Z :=
  if is_some (m_files m !! binlog_path)
  then (m, Err (RotationIndeterminate (io_other (bs "Binlog generation sealing failed ("
           ++ ie_message original_error ++ bs ") after a new active path became visible"))))
  else
    let '(m, restoration) :=
      match sys_rename m segment binlog_path with
      | (m, Err e) => (m, Err e)
      | (m, Ok _) =>
        match sys m with
        | (m, Err e) => (m, Err e)
        | (m, Ok _) => reopen_active m
        end
      end in
    (m, Err (match restoration with
             | Ok _ => RotationUnchanged original_error
             | Err restoration_error =>
               RotationIndeterminate (io_other (bs "Binlog generation sealing failed ("
                 ++ ie_message original_error
                 ++ bs ") and the original active file could not be restored ("
                 ++ ie_message restoration_error ++ bs ")"))
             end)).

(** The new active file is created, synchronized and adopted. *)
Definition install_successor (m : ManagedBinlogFile) (segment : bytes) (active_length : Z)
  : ManagedBinlogFile * result BinlogRotationError Z :=
  match sys m with
  | (m, Err e) => restore_segment_after_failed_seal m segment e
  | (m, Ok _) =>
    if is_some (m_files m !! binlog_path)
    then restore_segment_after_failed_seal m segment (io_other (bs "File exists (os error 17)"))
    else
      let m := with_disk (with_active m []) [] in
      match sys m with
      | (m, Err e) => (with_handle m (Some 0), Err (RotationIndeterminate e))
      | (m, Ok _) =>
        match sys m with
        | (m, Err e) => (with_handle m (Some 0), Err (RotationIndeterminate e))
        | (m, Ok _) =>
          match sys m with
          | (m, Err e) => (m, Err (RotationIndeterminate e))
          | (m, Ok _) => (with_handle m (Some 0), Ok active_length)
          end
        end
      end
  end.

(** The predecessor is renamed once it is on disk. *)
Definition rename_active (m : ManagedBinlogFile) (segment : bytes) (active_length : Z)
  : ManagedBinlogFile * result BinlogRotationError Z :=
  let m := with_handle m None in
  match sys_rename m binlog_path segment with
  | (m, Err e) =>
    match reopen_active m with
    | (m, Ok _) => (m, Err (RotationUnchanged e))
    | (m, Err reopen_error) =>
      (m, Err (RotationIndeterminate (io_other (bs "Binlog generation rename failed ("
         ++ ie_message e ++ bs ") and the active file could not be reopened ("
         ++ ie_message reopen_error ++ bs ")"))))
    end
  | (m, Ok _) =>
    match sys m with
    | (m, Err e) => restore_segment_after_failed_seal m segment e
    | (m, Ok _) => install_successor m segment active_length
    end
  end.

Definition m_seal_active (m : ManagedBinlogFile) (end_sequence : Z)
  : ManagedBinlogFile * result BinlogRotationError Z :=
  match m_handle m with
  | None => (m, Err (RotationIndeterminate err_no_handle))
  | Some _ =>
    match sys m with
    | (m, Err e) => (m, Err (RotationUnchanged e))
    | (m, Ok _) =>
      let active_length := len (active_contents m) in
      if active_length =? 0 then (m, Ok 0)
      else if end_sequence =? 0
      then (m, Err (RotationUnchanged (io_other (bs "A non-empty binlog cannot be sealed at sequence zero"))))
      else
        let segment := binlog_segment end_sequence in
        if is_some (m_files m !! segment)
        then (m, Err (RotationUnchanged (io_other (bs "Binlog segment already exists: " ++ segment))))
        else
          match m_flush m with
          | (m, Err e) => (m, Err (RotationIndeterminate e))
          | (m, Ok _) =>
            match m_sync m with
            | (m, Err e) => (m, Err (RotationIndeterminate e))
            | (m, Ok _) => rename_active m segment active_length
            end
          end
    end
  end.

#[export] Instance managed_binlog_io : BinlogIo ManagedBinlogFile := {|
  io_write := m_write;
  io_flush := m_flush;
  io_seek_end := m_seek_end;
  io_seek_start := m_seek_start;
  io_sync_data := m_sync;
  io_sync_all := m_sync;
  io_truncate := m_truncate;
  io_seal_active := m_seal_active
|}.

End Managed.
