(* ===== verification/SnapshotWriter.v ===== *)
(** * SnapshotWriter: installing a snapshot file (src/persistence/recovery.rs)

    The new snapshot is written to a temporary file and renamed over the
    previous one, which is kept as the backup.  Any call may fail; whatever
    happens, the snapshot that recovery finds is the old one or the new one. *)

From Stdlib Require Import ZArith Lia.
From Stdlib Require Import Strings.Byte.
From stdpp Require Import base gmap list strings numbers sorting.
From S2P Require Import Prelude Text Json JsonPath Value Shard Engine Store Persistence Model Codec BinlogFile BinlogIo Recovery ManagedBinlog.

Open Scope Z_scope.

Definition io_to_persistence (e : io_error) : PersistenceError := PersistenceError_new (ie_message e).

(** Creates or replaces a file and writes it; a failure leaves a part of it. *)
Definition sys_write_file (m : ManagedBinlogFile) (name contents : bytes)
  : ManagedBinlogFile * result io_error unit :=
  match next_outcome m with
  | (m, Done) => (with_files m (<[name := contents]> (m_files m)), Ok tt)
  | (m, Partial n) =>
    (with_files m (<[name := take (Z.to_nat n) contents]> (m_files m)),
     Err (mkIoError false (bs "failed to write whole buffer")))
  | (m, Fails e applied) =>
    (if applied then with_files m (<[name := []]> (m_files m)) else m, Err e)
  end.

Section Writer.
Context {GZ : Gzip} {JN : JsonNumber} {SJ : SerdeJson} {HO : HashOrder}.

(** [write_snapshot_file_with_installer] after the temporary file is complete. *)
Definition install_snapshot (m : ManagedBinlogFile) : ManagedBinlogFile * result PersistenceError unit :=
  let '(m, prepared) :=
    if is_some (m_files m !! snapshot_path) then
      match sys_rename m snapshot_path snapshot_backup_path with
      | (m, Err e) => (m, Err e)
      | (m, Ok _) => sys m
      end
    else (m, Ok tt) in
  match prepared with
  | Err e => (m, Err (io_to_persistence e))
  | Ok _ =>
    match sys_rename m snapshot_temp_path snapshot_path with
    | (m, Err e) =>
      let m :=
        if negb (is_some (m_files m !! snapshot_path)) && is_some (m_files m !! snapshot_backup_path)
        then (sys (sys_rename m snapshot_backup_path snapshot_path).1).1
        else m in
      (m, Err (io_to_persistence e))
    | (m, Ok _) =>
      match sys m with
      | (m, Err e) => (m, Err (io_to_persistence e))
      | (m, Ok _) => (m, Ok tt)
      end
    end
  end.

(** The header and the records are compressed into the temporary file, which
    is then synchronized.  A record that cannot be encoded leaves it empty. *)
Definition write_snapshot_file (entries : list (bytes * DataEntry)) (watermark : Z) (m : ManagedBinlogFile)
  : ManagedBinlogFile * result PersistenceError unit :=
  match snapshot_records entries with
  | Err e =>
    match sys_write_file m snapshot_temp_path [] with
    | (m, Err e) => (m, Err (io_to_persistence e))
    | (m, Ok _) => (m, Err e)
    end
  | Ok records =>
    match sys_write_file m snapshot_temp_path (gzip (snapshot_header watermark ++ records)) with
    | (m, Err e) => (m, Err (io_to_persistence e))
    | (m, Ok _) =>
      match sys m with
      | (m, Err e) => (m, Err (io_to_persistence e))
      | (m, Ok _) => install_snapshot m
      end
    end
  end.

End Writer.

(** ** Installation keeps a snapshot *)

(** The snapshot recovery reads. *)
Definition current_snapshot (fs : Files) : option bytes :=
  match fs !! snapshot_path with
  | Some b => Some b
  | None => fs !! snapshot_backup_path
  end.

(** Other files are not touched. *)
Definition snapshot_files : list bytes := [snapshot_path; snapshot_temp_path; snapshot_backup_path].

Definition rest_kept (fs fs' : Files) : Prop := forall name, name ∉ snapshot_files -> fs' !! name = fs !! name.
