(* ===== verification/ReplicaState.v ===== *)
(** * ReplicaState: the durable replica identity (src/persistence/replica_state.rs) *)

From Stdlib Require Import ZArith Lia.
From Stdlib Require Import Strings.Byte.
From stdpp Require Import base gmap list strings numbers sorting.
From S2P Require Import Prelude Text Persistence BinlogIo Recovery ManagedBinlog SnapshotWriter.

Open Scope Z_scope.

Definition REPLICA_STATE_MAGIC : bytes := bs "ONYXREPL".
Definition REPLICA_STATE_VERSION : Z := 2.

Record ReplicaIdentity : Type := mkIdentity {
  replid : Z;
  baseline_sequence : Z
}.

Inductive DurableReplicaState : Type :=
| Detached
| Installing
| Ready (identity : ReplicaIdentity).

(** [str::trim_end]. *)
Definition trim_end (s : bytes) : bytes := concat (rev (drop_while is_whitespace (rev (Utf8.chars s)))).

Definition malformed_state : PersistenceError := PersistenceError_new (bs "Malformed durable replica state").

Definition parse_replica_state (contents : bytes) (snapshot_watermark : Z)
  : result PersistenceError DurableReplicaState :=
  match split_tabs [] (trim_end contents) with
  | [magic; version; status; replid; baseline_sequence] =>
    if negb (bytes_eqb magic REPLICA_STATE_MAGIC) then Err malformed_state
    else
      version ← ok_or (parse_u8 version) (PersistenceError_new (bs "Invalid durable replica state version"));
      if negb (version =? REPLICA_STATE_VERSION)
      then Err (PersistenceError_new (bs "Unsupported durable replica state version: " ++ print_Z version))
      else
        replid ← ok_or (parse_u64 replid) (PersistenceError_new (bs "Invalid upstream replication ID"));
        baseline_sequence ← ok_or (parse_u64 baseline_sequence)
          (PersistenceError_new (bs "Invalid replica baseline sequence"));
        if bytes_eqb status (bs "DETACHED") && (replid =? 0) && (baseline_sequence =? 0) then Ok Detached
        else if bytes_eqb status (bs "INSTALLING") && (replid =? 0) && (baseline_sequence =? 0) then Ok Installing
        else if bytes_eqb status (bs "READY") && negb (replid =? 0) then
          if negb (baseline_sequence =? snapshot_watermark) then Ok Installing
          else Ok (Ready (mkIdentity replid baseline_sequence))
        else Err (PersistenceError_new (bs "Invalid durable replica state fields"))
  | _ => Err malformed_state
  end.

Definition load_durable_replica_state (fs : Files) (snapshot_watermark : Z)
  : result PersistenceError (option DurableReplicaState) :=
  match fs !! replica_state_path with
  | None => Ok None
  | Some contents =>
    if MAX_SNAPSHOT_METADATA_SIZE <? len contents
    then Err (PersistenceError_new (bs "Replica identity metadata exceeds the format limit"))
    else
      match Utf8.from_utf8 contents with
      | None => Err (PersistenceError_new (bs "stream did not contain valid UTF-8"))
      | Some contents => Some <$> parse_replica_state contents snapshot_watermark
      end
  end.

Definition state_line (status : bytes) (replid baseline_sequence : Z) : bytes :=
  REPLICA_STATE_MAGIC ++ [x09] ++ print_Z REPLICA_STATE_VERSION ++ [x09] ++ status ++ [x09]
  ++ print_Z replid ++ [x09] ++ print_Z baseline_sequence.

Definition render_state (state : DurableReplicaState) : bytes :=
  (match state with
   | Detached => state_line (bs "DETACHED") 0 0
   | Installing => state_line (bs "INSTALLING") 0 0
   | Ready identity => state_line (bs "READY") (replid identity) (baseline_sequence identity)
   end) ++ [x0a].

Definition write_durable_replica_state (state : DurableReplicaState) (m : ManagedBinlogFile)
  : ManagedBinlogFile * result PersistenceError unit :=
  match sys_write_file m replica_state_temp_path (render_state state) with
  | (m, Err e) => (m, Err (io_to_persistence e))
  | (m, Ok _) =>
    match sys m with
    | (m, Err e) => (m, Err (io_to_persistence e))
    | (m, Ok _) =>
      match sys_rename m replica_state_temp_path replica_state_path with
      | (m, Err e) => (m, Err (io_to_persistence e))
      | (m, Ok _) =>
        match sys m with
        | (m, Err e) => (m, Err (io_to_persistence e))
        | (m, Ok _) => (m, Ok tt)
        end
      end
    end
  end.

Definition write_replica_identity (identity : ReplicaIdentity) := write_durable_replica_state (Ready identity).
Definition write_replica_installing := write_durable_replica_state Installing.
Definition write_replica_detached := write_durable_replica_state Detached.

(** Which identity a server starts with; a replica that starts as a master
    detaches, unless an installation was interrupted. *)
Definition prepare_replication_startup (snapshot_watermark : Z) (configured_as_replica : bool) (m : ManagedBinlogFile)
  : ManagedBinlogFile * result PersistenceError (option ReplicaIdentity) :=
  match load_durable_replica_state (m_files m) snapshot_watermark with
  | Err error => (m, Err error)
  | Ok state =>
    if configured_as_replica
    then (m, Ok (match state with Some (Ready identity) => Some identity | _ => None end))
    else
      match state with
      | Some Installing =>
        (m, Err (PersistenceError_new
               (bs "Cannot start as master while replica baseline installation is incomplete")))
      | Some (Ready _) =>
        match write_replica_detached m with
        | (m, Ok _) => (m, Ok None)
        | (m, Err error) => (m, Err error)
        end
      | Some Detached | None => (m, Ok None)
      end
  end.
