(* ===== verification/Runtime.v ===== *)
(** * Runtime: the commit runtime (src/persistence/runtime.rs)

    The counters that drive maintenance, the binlog worker's messages, the
    acceptance of committed batches, and the phases of a rollover and of a
    compaction.  A phase is what runs without giving way to a commit: between
    two phases other requests may be accepted.  Metrics and log messages are
    left out; tasks that panic are not modelled. *)

From Stdlib Require Import ZArith Lia.
From Stdlib Require Import Strings.Byte.
From stdpp Require Import base gmap list strings numbers sorting.
From S2P Require Import Prelude Text Json JsonPath Value Shard Engine Store Persistence Model Codec BinlogFile BinlogIo Recovery ManagedBinlog.

Open Scope Z_scope.

Definition COMPACTION_PREFLUSH_WRITE_BUDGET_BYTES : Z := 8 * 1024 * 1024.
Definition BINLOG_GENERATION_TARGET_BYTES : Z := 16 * 1024 * 1024.
Definition BINLOG_GENERATION_ADMISSION_LIMIT_BYTES : Z :=
  BINLOG_GENERATION_TARGET_BYTES + COMPACTION_PREFLUSH_WRITE_BUDGET_BYTES.
Definition MAX_UNSNAPSHOTTED_BINLOG_SEGMENTS : Z := 256.
Definition BINLOG_SEGMENT_SNAPSHOT_PRESSURE : Z := MAX_BINLOG_SEGMENTS - MAX_UNSNAPSHOTTED_BINLOG_SEGMENTS.
Definition BINLOG_SEGMENT_ROLLOVER_LIMIT : Z := MAX_BINLOG_SEGMENTS - 1.
Definition WRITE_BUDGET_OPEN : Z := U64_MAX.

Record MaintenanceRequest : Type := mkMaintenance {
  mr_snapshot : bool;
  mr_rollover : bool
}.

Definition is_empty_request (r : MaintenanceRequest) : bool := negb (mr_snapshot r) && negb (mr_rollover r).

Record CommitRuntime : Type := mkRuntime {
  rt_binlog : ManagedBinlogFile;
  rt_write_count : Z;
  rt_accepted_bytes : Z;
  rt_active_bytes : Z;
  rt_unsnapshotted : Z;
  rt_physical : Z;
  rt_watermark : Z;
  rt_cleanup_blocked : bool;
  rt_catalog_unavailable : bool;
  rt_entry_floor : Z;
  rt_budget_limit : Z;
  rt_compaction_pending : bool;
  rt_rollover_pending : bool;
  rt_accepting_writes : bool;
  rt_offset : Z;
  rt_failure : option bytes;
  rt_fail_stop_started : bool;
  rt_fail_stop_reason : option bytes
}.

Definition CommitRuntime_new (binlog : ManagedBinlogFile) (initial_sequence : Z) : CommitRuntime :=
  mkRuntime binlog 0 0 0 0 0 0 false false 0 WRITE_BUDGET_OPEN false false true initial_sequence None false None.

(** ** Updates of single fields *)

Definition set_binlog (m : ManagedBinlogFile) (r : CommitRuntime) : CommitRuntime :=
  mkRuntime m (rt_write_count r) (rt_accepted_bytes r) (rt_active_bytes r) (rt_unsnapshotted r) (rt_physical r)
    (rt_watermark r) (rt_cleanup_blocked r) (rt_catalog_unavailable r) (rt_entry_floor r) (rt_budget_limit r)
    (rt_compaction_pending r) (rt_rollover_pending r) (rt_accepting_writes r) (rt_offset r) (rt_failure r)
    (rt_fail_stop_started r) (rt_fail_stop_reason r).
Definition set_write_count (n : Z) (r : CommitRuntime) : CommitRuntime :=
  mkRuntime (rt_binlog r) n (rt_accepted_bytes r) (rt_active_bytes r) (rt_unsnapshotted r) (rt_physical r)
    (rt_watermark r) (rt_cleanup_blocked r) (rt_catalog_unavailable r) (rt_entry_floor r) (rt_budget_limit r)
    (rt_compaction_pending r) (rt_rollover_pending r) (rt_accepting_writes r) (rt_offset r) (rt_failure r)
    (rt_fail_stop_started r) (rt_fail_stop_reason r).
Definition set_bytes (accepted active : Z) (r : CommitRuntime) : CommitRuntime :=
  mkRuntime (rt_binlog r) (rt_write_count r) accepted active (rt_unsnapshotted r) (rt_physical r)
    (rt_watermark r) (rt_cleanup_blocked r) (rt_catalog_unavailable r) (rt_entry_floor r) (rt_budget_limit r)
    (rt_compaction_pending r) (rt_rollover_pending r) (rt_accepting_writes r) (rt_offset r) (rt_failure r)
    (rt_fail_stop_started r) (rt_fail_stop_reason r).
Definition set_segments (unsnapshotted physical : Z) (r : CommitRuntime) : CommitRuntime :=
  mkRuntime (rt_binlog r) (rt_write_count r) (rt_accepted_bytes r) (rt_active_bytes r) unsnapshotted physical
    (rt_watermark r) (rt_cleanup_blocked r) (rt_catalog_unavailable r) (rt_entry_floor r) (rt_budget_limit r)
    (rt_compaction_pending r) (rt_rollover_pending r) (rt_accepting_writes r) (rt_offset r) (rt_failure r)
    (rt_fail_stop_started r) (rt_fail_stop_reason r).
Definition set_watermark (n : Z) (r : CommitRuntime) : CommitRuntime :=
  mkRuntime (rt_binlog r) (rt_write_count r) (rt_accepted_bytes r) (rt_active_bytes r) (rt_unsnapshotted r)
    (rt_physical r) n (rt_cleanup_blocked r) (rt_catalog_unavailable r) (rt_entry_floor r) (rt_budget_limit r)
    (rt_compaction_pending r) (rt_rollover_pending r) (rt_accepting_writes r) (rt_offset r) (rt_failure r)
    (rt_fail_stop_started r) (rt_fail_stop_reason r).
Definition set_catalog (blocked unavailable : bool) (r : CommitRuntime) : CommitRuntime :=
  mkRuntime (rt_binlog r) (rt_write_count r) (rt_accepted_bytes r) (rt_active_bytes r) (rt_unsnapshotted r)
    (rt_physical r) (rt_watermark r) blocked unavailable (rt_entry_floor r) (rt_budget_limit r)
    (rt_compaction_pending r) (rt_rollover_pending r) (rt_accepting_writes r) (rt_offset r) (rt_failure r)
    (rt_fail_stop_started r) (rt_fail_stop_reason r).
Definition set_compaction_entry_floor (entry_count : Z) (r : CommitRuntime) : CommitRuntime :=
  mkRuntime (rt_binlog r) (rt_write_count r) (rt_accepted_bytes r) (rt_active_bytes r) (rt_unsnapshotted r)
    (rt_physical r) (rt_watermark r) (rt_cleanup_blocked r) (rt_catalog_unavailable r) entry_count
    (rt_budget_limit r) (rt_compaction_pending r) (rt_rollover_pending r) (rt_accepting_writes r) (rt_offset r)
    (rt_failure r) (rt_fail_stop_started r) (rt_fail_stop_reason r).
Definition set_budget (limit : Z) (r : CommitRuntime) : CommitRuntime :=
  mkRuntime (rt_binlog r) (rt_write_count r) (rt_accepted_bytes r) (rt_active_bytes r) (rt_unsnapshotted r)
    (rt_physical r) (rt_watermark r) (rt_cleanup_blocked r) (rt_catalog_unavailable r) (rt_entry_floor r) limit
    (rt_compaction_pending r) (rt_rollover_pending r) (rt_accepting_writes r) (rt_offset r) (rt_failure r)
    (rt_fail_stop_started r) (rt_fail_stop_reason r).
Definition set_pending (compaction rollover : bool) (r : CommitRuntime) : CommitRuntime :=
  mkRuntime (rt_binlog r) (rt_write_count r) (rt_accepted_bytes r) (rt_active_bytes r) (rt_unsnapshotted r)
    (rt_physical r) (rt_watermark r) (rt_cleanup_blocked r) (rt_catalog_unavailable r) (rt_entry_floor r)
    (rt_budget_limit r) compaction rollover (rt_accepting_writes r) (rt_offset r) (rt_failure r)
    (rt_fail_stop_started r) (rt_fail_stop_reason r).
Definition set_offset (sequence : Z) (r : CommitRuntime) : CommitRuntime :=
  mkRuntime (rt_binlog r) (rt_write_count r) (rt_accepted_bytes r) (rt_active_bytes r) (rt_unsnapshotted r)
    (rt_physical r) (rt_watermark r) (rt_cleanup_blocked r) (rt_catalog_unavailable r) (rt_entry_floor r)
    (rt_budget_limit r) (rt_compaction_pending r) (rt_rollover_pending r) (rt_accepting_writes r) sequence
    (rt_failure r) (rt_fail_stop_started r) (rt_fail_stop_reason r).
Definition set_failure (accepting : bool) (failure : option bytes) (started : bool) (reason : option bytes)
    (r : CommitRuntime) : CommitRuntime :=
  mkRuntime (rt_binlog r) (rt_write_count r) (rt_accepted_bytes r) (rt_active_bytes r) (rt_unsnapshotted r)
    (rt_physical r) (rt_watermark r) (rt_cleanup_blocked r) (rt_catalog_unavailable r) (rt_entry_floor r)
    (rt_budget_limit r) (rt_compaction_pending r) (rt_rollover_pending r) accepting (rt_offset r) failure
    started reason.

(** ** Maintenance *)

Definition compaction_record_threshold (r : CommitRuntime) (minimum : Z) : Z := Z.max minimum (rt_entry_floor r).

Definition request_snapshot_if_needed (compaction_threshold : Z) (r : CommitRuntime) : CommitRuntime * bool :=
  let physical_pressure :=
    (BINLOG_SEGMENT_SNAPSHOT_PRESSURE <=? rt_physical r) && negb (rt_cleanup_blocked r) in
  if ((compaction_record_threshold r compaction_threshold <=? rt_write_count r)
      || (MAX_UNSNAPSHOTTED_BINLOG_SEGMENTS <=? rt_unsnapshotted r) || physical_pressure)
     && negb (rt_compaction_pending r)
  then (set_pending true (rt_rollover_pending r) r, true)
  else (r, false).

Definition request_rollover_if_needed (r : CommitRuntime) : CommitRuntime * bool :=
  let snapshot_catalog_pressure :=
    (BINLOG_SEGMENT_SNAPSHOT_PRESSURE <=? rt_physical r) && negb (rt_cleanup_blocked r) in
  if (BINLOG_GENERATION_TARGET_BYTES <=? rt_active_bytes r)
     && (rt_physical r <? BINLOG_SEGMENT_ROLLOVER_LIMIT)
     && negb snapshot_catalog_pressure && negb (rt_rollover_pending r)
  then (set_pending (rt_compaction_pending r) true r, true)
  else (r, false).

Definition request_maintenance_if_needed (compaction_threshold : Z) (r : CommitRuntime)
  : CommitRuntime * MaintenanceRequest :=
  let '(r, snapshot) := request_snapshot_if_needed compaction_threshold r in
  let '(r, rollover) := request_rollover_if_needed r in
  (r, mkMaintenance snapshot rollover).

(** The counter wraps around like the atomic it models. *)
Definition record_persisted_writes (count compaction_threshold : Z) (r : CommitRuntime)
  : CommitRuntime * MaintenanceRequest :=
  request_maintenance_if_needed compaction_threshold (set_write_count (wrap64 (rt_write_count r + count)) r).

Definition finish_compaction_schedule_and_rearm (compaction_threshold : Z) (retry_immediately : bool)
    (r : CommitRuntime) : CommitRuntime * MaintenanceRequest :=
  let r := set_pending false (rt_rollover_pending r) r in
  if retry_immediately then request_maintenance_if_needed compaction_threshold r
  else
    let '(r, rollover) := request_rollover_if_needed r in (r, mkMaintenance false rollover).

Definition finish_rollover_schedule_and_rearm (compaction_threshold : Z) (retry_immediately : bool)
    (r : CommitRuntime) : CommitRuntime * MaintenanceRequest :=
  let r := set_pending (rt_compaction_pending r) false r in
  if retry_immediately then request_maintenance_if_needed compaction_threshold r
  else
    let '(r, snapshot) := request_snapshot_if_needed compaction_threshold r in (r, mkMaintenance snapshot false).

Definition compaction_write_budget_active (r : CommitRuntime) : bool := negb (rt_budget_limit r =? WRITE_BUDGET_OPEN).

Definition rollover_backpressure_active (r : CommitRuntime) : bool :=
  rt_rollover_pending r && (BINLOG_GENERATION_ADMISSION_LIMIT_BYTES <=? rt_active_bytes r).

Definition segment_catalog_backpressure_active (r : CommitRuntime) : bool :=
  ((BINLOG_SEGMENT_ROLLOVER_LIMIT <=? rt_physical r) || rt_catalog_unavailable r)
  && (BINLOG_GENERATION_ADMISSION_LIMIT_BYTES <=? rt_active_bytes r).

(** A commit takes the boundary only when this holds. *)
Definition compaction_write_budget_allows_progress (r : CommitRuntime) : bool :=
  ((rt_budget_limit r =? WRITE_BUDGET_OPEN) || (rt_accepted_bytes r <? rt_budget_limit r))
  && negb (rollover_backpressure_active r) && negb (segment_catalog_backpressure_active r).

(** [None]: the budget is already owned, which is a panic. *)
Definition activate_compaction_write_budget (r : CommitRuntime) : option CommitRuntime :=
  let limit := match checked_add (rt_accepted_bytes r) COMPACTION_PREFLUSH_WRITE_BUDGET_BYTES with
               | Some l => l
               | None => WRITE_BUDGET_OPEN - 1
               end in
  if rt_budget_limit r =? WRITE_BUDGET_OPEN then Some (set_budget limit r) else None.

Definition release_budget (r : CommitRuntime) : CommitRuntime := set_budget WRITE_BUDGET_OPEN r.

Definition restore_maintenance_state (replayed_records active_bytes unsnapshotted physical watermark : Z)
    (r : CommitRuntime) : CommitRuntime :=
  set_catalog false false (set_watermark watermark (set_segments unsnapshotted physical
    (set_bytes (rt_accepted_bytes r) active_bytes (set_write_count replayed_records r)))).

(** [None]: the catalog limit is exceeded, which is a panic. *)
Definition record_sealed_segment (sealed_bytes : Z) (r : CommitRuntime) : option CommitRuntime :=
  if sealed_bytes =? 0 then Some r
  else if rt_physical r <? MAX_BINLOG_SEGMENTS
  then Some (set_catalog false (rt_catalog_unavailable r)
               (set_segments (rt_unsnapshotted r + 1) (rt_physical r + 1) r))
  else None.

Definition record_accepted_binlog_bytes (accepted_bytes : Z) (r : CommitRuntime) : CommitRuntime :=
  set_bytes (sat_add (rt_accepted_bytes r) accepted_bytes) (sat_add (rt_active_bytes r) accepted_bytes) r.

Definition next_sequence (r : CommitRuntime) : result PersistenceError Z :=
  ok_or (checked_add (rt_offset r) 1) (PersistenceError_new (bs "Persistence sequence is exhausted")).

Definition install_baseline (sequence entry_count : Z) (r : CommitRuntime) : CommitRuntime :=
  set_compaction_entry_floor entry_count (set_catalog false false (set_watermark sequence
    (set_segments 0 0 (set_bytes 0 0 (set_write_count 0 (set_offset sequence r)))))).

(** ** Failure *)

Definition or_else {A} (o : option A) (a : A) : option A := match o with Some x => Some x | None => Some a end.

Definition enter_fail_stop_with_visibility_guard (message : bytes) (r : CommitRuntime) : CommitRuntime :=
  set_failure false (or_else (rt_failure r) message) true (or_else (rt_fail_stop_reason r) message) r.

Definition error_with_context (error : PersistenceError) (context : bytes) : PersistenceError :=
  let message := context ++ bs ": " ++ pe_message error in
  if is_indeterminate error then PersistenceError_indeterminate message else PersistenceError_new message.

(** ** The binlog worker and its handle *)

(** What becomes of a message to the worker: it is answered; the worker is gone;
    or its answer is lost, whether or not it was carried out. *)
Inductive delivery : Type :=
| Answered
| WorkerGone
| AnswerLost (carried_out : bool).

Section Runtime.
Context {CRC : Crc32} {GZ : Gzip} {JN : JsonNumber} {SJ : SerdeJson} {HO : HashOrder}.

Definition storage (r : result io_error unit) (context : bytes) : result StorageFailure unit :=
  match r with
  | Ok _ => Ok tt
  | Err e => Err (indeterminate_failure (context ++ ie_message e))
  end.

(** The group is written in at most as many calls as it has bytes, besides the
    ones that are interrupted. *)
Definition append_fuel (m : ManagedBinlogFile) (records : list (Z * bytes)) : nat :=
  match encode_group records [] with
  | Ok tail => length tail + length (m_next m) + 1
  | Err _ => 1
  end.

Definition worker_append (fsync_policy : FsyncPolicy) (records : list (Z * bytes)) (m : ManagedBinlogFile)
  : option (ManagedBinlogFile * result StorageFailure unit) :=
  append_binlog_records (append_fuel m records) m records fsync_policy.

Definition worker_checkpoint (m : ManagedBinlogFile) : ManagedBinlogFile * result StorageFailure Z :=
  match m_flush m with
  | (m, Err e) => (m, Err (indeterminate_failure (bs "Binlog compaction checkpoint flush failed: " ++ ie_message e)))
  | (m, Ok _) =>
    match m_seek_end m with
    | (m, Err e) => (m, Err (indeterminate_failure (bs "Binlog compaction checkpoint seek failed: " ++ ie_message e)))
    | (m, Ok p) => (m, Ok p)
    end
  end.

Definition worker_seal_active (end_sequence : Z) (m : ManagedBinlogFile)
  : ManagedBinlogFile * result StorageFailure Z :=
  match m_seal_active m end_sequence with
  | (m, Ok n) => (m, Ok n)
  | (m, Err (RotationUnchanged e)) =>
    (m, Err (rejected (bs "Binlog generation sealing did not modify history: " ++ ie_message e)))
  | (m, Err (RotationIndeterminate e)) =>
    (m, Err (indeterminate_failure (bs "Binlog generation sealing outcome is indeterminate: " ++ ie_message e)))
  end.

Definition worker_flush (m : ManagedBinlogFile) : ManagedBinlogFile * result StorageFailure unit :=
  match m_flush m with
  | (m, Err e) => (m, Err (indeterminate_failure (bs "Binlog flush failed: " ++ ie_message e)))
  | (m, Ok _) => let '(m, r) := m_sync m in (m, storage r (bs "Binlog sync failed: "))
  end.

Definition worker_sync_data (m : ManagedBinlogFile) : ManagedBinlogFile * result StorageFailure unit :=
  let '(m, r) := m_sync m in (m, storage r (bs "Binlog sync failed: ")).

Definition worker_truncate (m : ManagedBinlogFile) : ManagedBinlogFile * result StorageFailure unit :=
  match m_flush m with
  | (m, Err e) =>
    (m, Err (rejected (bs "Binlog was not truncated because the pre-truncation flush failed: " ++ ie_message e)))
  | (m, Ok _) =>
    match m_truncate m 0 with
    | (m, Err (TruncateUnchanged e)) =>
      (m, Err (rejected (bs "Binlog truncation did not modify the file: " ++ ie_message e)))
    | (m, Err (TruncateIndeterminate e)) =>
      (m, Err (indeterminate_failure (bs "Binlog truncation outcome is indeterminate: " ++ ie_message e)))
    | (m, Ok _) =>
      let '(m, r) := m_sync m in
      (m, storage r (bs "Binlog truncation completed but could not be durably synchronized: "))
    end
  end.

(** Sends a message and waits for its answer; the caller says what an
    unavailable worker and a lost answer mean. *)
Definition ask {A} (d : delivery) (unavailable lost : PersistenceError)
    (f : ManagedBinlogFile -> ManagedBinlogFile * result StorageFailure A) (m : ManagedBinlogFile)
  : ManagedBinlogFile * result PersistenceError A :=
  match d with
  | WorkerGone => (m, Err unavailable)
  | AnswerLost carried_out => (if carried_out then (f m).1 else m, Err lost)
  | Answered =>
    match f m with
    | (m, Ok a) => (m, Ok a)
    | (m, Err failure) => (m, Err (into_persistence_error failure))
    end
  end.

Definition handle_checkpoint (d : delivery) : ManagedBinlogFile -> ManagedBinlogFile * result PersistenceError Z :=
  ask d (PersistenceError_indeterminate (bs "Binlog worker is unavailable during compaction checkpoint"))
    (PersistenceError_indeterminate (bs "Binlog compaction checkpoint completion was dropped")) worker_checkpoint.

Definition handle_seal_active (d : delivery) (end_sequence : Z)
  : ManagedBinlogFile -> ManagedBinlogFile * result PersistenceError Z :=
  ask d (PersistenceError_indeterminate (bs "Binlog worker is unavailable during generation sealing"))
    (PersistenceError_indeterminate (bs "Binlog generation sealing completion was dropped"))
    (worker_seal_active end_sequence).

Definition handle_flush (d : delivery) : ManagedBinlogFile -> ManagedBinlogFile * result PersistenceError unit :=
  ask d (PersistenceError_indeterminate (bs "Binlog worker is unavailable during flush"))
    (PersistenceError_indeterminate (bs "Binlog flush completion was dropped")) worker_flush.

Definition handle_sync_data (d : delivery) : ManagedBinlogFile -> ManagedBinlogFile * result PersistenceError unit :=
  ask d (PersistenceError_indeterminate (bs "Binlog worker is unavailable during sync"))
    (PersistenceError_indeterminate (bs "Binlog sync completion was dropped")) worker_sync_data.

Definition handle_truncate (d : delivery) : ManagedBinlogFile -> ManagedBinlogFile * result PersistenceError unit :=
  ask d (PersistenceError_indeterminate (bs "Binlog worker is unavailable during truncation"))
    (PersistenceError_indeterminate (bs "Binlog truncate completion was dropped")) worker_truncate.

Fixpoint physical_bytes (records : list (Z * bytes)) (total : Z) : result PersistenceError Z :=
  match records with
  | [] => Ok total
  | (_, record) :: rest =>
    l ← framed_versioned_binlog_record_length (len record);
    total ← ok_or (checked_add total l) (PersistenceError_new (bs "Binlog append group length overflow"));
    physical_bytes rest total
  end.

Definition append_records (fsync_policy : FsyncPolicy) (d : delivery) (records : list (Z * bytes))
    (m : ManagedBinlogFile) : option (ManagedBinlogFile * result PersistenceError Z) :=
  match physical_bytes records 0 with
  | Err e => Some (m, Err e)
  | Ok n =>
    match d with
    | WorkerGone => Some (m, Err (PersistenceError_new (bs "Binlog worker is unavailable")))
    | AnswerLost carried_out =>
      m ← (if carried_out then fst <$> worker_append fsync_policy records m else Some m);
      Some (m, Err (PersistenceError_indeterminate (bs "Binlog append completion was dropped")))
    | Answered =>
      '(m, r) ← worker_append fsync_policy records m;
      Some (m, match r with Ok _ => Ok n | Err failure => Err (into_persistence_error failure) end)
    end
  end.

Definition append_batch (fsync_policy : FsyncPolicy) (d : delivery) (sequence : Z) (batch : CommittedBatch)
    (m : ManagedBinlogFile) : option (ManagedBinlogFile * result PersistenceError Z) :=
  match encode_committed_batch batch with
  | Err e => Some (m, Err e)
  | Ok record => append_records fsync_policy d [(sequence, record)] m
  end.

Fixpoint encode_batches (batches : list (Z * CommittedBatch)) : result PersistenceError (list (Z * bytes)) :=
  match batches with
  | [] => Ok []
  | (sequence, batch) :: rest =>
    record ← encode_committed_batch batch;
    records ← encode_batches rest;
    Ok ((sequence, record) :: records)
  end.

Definition append_batches (fsync_policy : FsyncPolicy) (d : delivery) (batches : list (Z * CommittedBatch))
    (m : ManagedBinlogFile) : option (ManagedBinlogFile * result PersistenceError Z) :=
  match batches with
  | [] => Some (m, Err (PersistenceError_new
             (bs "A binlog append group must contain at least one committed batch")))
  | _ =>
    match encode_batches batches with
    | Err e => Some (m, Err e)
    | Ok records => append_records fsync_policy d records m
    end
  end.

(** ** Accepting batches *)

Definition err_sequence_mismatch (expected received : Z) : PersistenceError :=
  PersistenceError_new (bs "Persistence sequence mismatch: expected " ++ print_Z expected
                        ++ bs ", received " ++ print_Z received).

Definition accept_next_batch (fsync_policy : FsyncPolicy) (d : delivery) (sequence : Z) (batch : CommittedBatch)
    (compaction_threshold : Z) (r : CommitRuntime)
  : option (CommitRuntime * result PersistenceError MaintenanceRequest) :=
  match next_sequence r with
  | Err e => Some (r, Err e)
  | Ok expected =>
    if negb (sequence =? expected) then Some (r, Err (err_sequence_mismatch expected sequence))
    else
      '(m, appended) ← append_batch fsync_policy d sequence batch (rt_binlog r);
      let r := set_binlog m r in
      Some (match appended with
            | Err e => (r, Err e)
            | Ok accepted_bytes =>
              let r := set_offset sequence (record_accepted_binlog_bytes accepted_bytes r) in
              let '(r, maintenance) := record_persisted_writes 1 compaction_threshold r in
              (r, Ok maintenance)
            end)
  end.

Fixpoint check_sequences (expected : option Z) (batches : list (Z * CommittedBatch))
  : result PersistenceError unit :=
  match batches with
  | [] => Ok tt
  | (sequence, _) :: rest =>
    match expected with
    | None => Err (PersistenceError_new (bs "Persistence sequence is exhausted"))
    | Some expected_sequence =>
      if negb (sequence =? expected_sequence) then Err (err_sequence_mismatch expected_sequence sequence)
      else check_sequences (checked_add expected_sequence 1) rest
    end
  end.

Definition accept_next_batches (fsync_policy : FsyncPolicy) (d : delivery)
    (batches : list (Z * CommittedBatch)) (compaction_threshold : Z) (r : CommitRuntime)
  : option (CommitRuntime * result PersistenceError MaintenanceRequest) :=
  match batches with
  | [] => Some (r, Err (PersistenceError_new
             (bs "A persistence group must contain at least one committed batch")))
  | _ =>
    match (expected ← next_sequence r; check_sequences (Some expected) batches) with
    | Err e => Some (r, Err e)
    | Ok _ =>
      '(m, appended) ← append_batches fsync_policy d batches (rt_binlog r);
      let r := set_binlog m r in
      Some (match appended with
            | Err e => (r, Err e)
            | Ok accepted_bytes =>
              let last_sequence := match list.last batches with Some (s, _) => s | None => 0 end in
              let r := set_offset last_sequence (record_accepted_binlog_bytes accepted_bytes r) in
              let '(r, maintenance) := record_persisted_writes (len batches) compaction_threshold r in
              (r, Ok maintenance)
            end)
    end
  end.

(** ** The segment catalog *)

Record BinlogSegmentCleanup : Type := mkCleanup {
  removed_files : Z;
  removed_bytes : Z;
  failed_files : Z;
  remaining_files : Z
}.

Definition err_cleanup (context message : bytes) : PersistenceError :=
  PersistenceError_new (context ++ message).

(** The loop over the segments; [clk] is read by the validation. *)
Fixpoint cleanup_segments (clk : clock) (watermark : Z) (segments : list (Z * bytes))
    (cleanup : BinlogSegmentCleanup) (m : ManagedBinlogFile)
  : ManagedBinlogFile * result PersistenceError BinlogSegmentCleanup :=
  match segments with
  | [] => (m, Ok cleanup)
  | (end_sequence, name) :: rest =>
    if watermark <? end_sequence then cleanup_segments clk watermark rest cleanup m
    else
      match inspect_binlog clk (m_files m !! name) with
      | None => (m, Err (err_cleanup (bs "Unable to validate snapshot-covered binlog segment ") name))
      | Some (Err e) =>
        (m, Err (err_cleanup (bs "Unable to validate snapshot-covered binlog segment ")
                   (name ++ bs ": " ++ pe_message e)))
      | Some (Ok inspection) =>
        if negb (is_some (min_sequence inspection)) || negb (max_sequence inspection =? end_sequence)
           || truncated_tail inspection
        then (m, Err (err_cleanup
                (bs "Snapshot-covered binlog segment does not match its catalog identity: ") name))
        else
          let length := match m_files m !! name with Some b => len b | None => 0 end in
          match sys_remove m name with
          | (m, Ok _) =>
            cleanup_segments clk watermark rest
              (mkCleanup (removed_files cleanup + 1) (sat_add (removed_bytes cleanup) length)
                 (failed_files cleanup) (remaining_files cleanup)) m
          | (m, Err _) =>
            cleanup_segments clk watermark rest
              (mkCleanup (removed_files cleanup) (removed_bytes cleanup)
                 (failed_files cleanup + 1) (remaining_files cleanup)) m
          end
      end
  end.

Definition cleanup_binlog_segments_through (clk : clock) (watermark : Z) (m : ManagedBinlogFile)
  : ManagedBinlogFile * result PersistenceError BinlogSegmentCleanup :=
  match list_binlog_segments m with
  | (m, Err e) => (m, Err (err_cleanup (bs "Unable to enumerate binlog segment catalog: ") (ie_message e)))
  | (m, Ok segments) =>
    match cleanup_segments clk watermark segments (mkCleanup 0 0 0 0) m with
    | (m, Err e) => (m, Err e)
    | (m, Ok cleanup) =>
      match sys m with
      | (m, Err e) =>
        (m, Err (err_cleanup (bs "Unable to synchronize binlog segment catalog maintenance: ") (ie_message e)))
      | (m, Ok _) =>
        match list_binlog_segments m with
        | (m, Err e) =>
          (m, Err (err_cleanup (bs "Unable to refresh binlog segment catalog after cleanup: ") (ie_message e)))
        | (m, Ok segments) =>
          (m, Ok (mkCleanup (removed_files cleanup) (removed_bytes cleanup) (failed_files cleanup) (len segments)))
        end
      end
    end
  end.

Definition apply_segment_catalog_cleanup (cleanup : BinlogSegmentCleanup) (r : CommitRuntime) : CommitRuntime :=
  set_catalog (0 <? failed_files cleanup) false (set_segments (rt_unsnapshotted r) (remaining_files cleanup) r).

Definition refresh_segment_catalog (clk : clock) (r : CommitRuntime)
  : CommitRuntime * result PersistenceError BinlogSegmentCleanup :=
  let '(m, result) := cleanup_binlog_segments_through clk (rt_watermark r) (rt_binlog r) in
  let r := set_binlog m r in
  match result with
  | Ok cleanup => (apply_segment_catalog_cleanup cleanup r, Ok cleanup)
  | Err e => (set_catalog true true r, Err e)
  end.

(** The bytes made durable ahead of the seal: [open], [metadata], [sync_data]. *)
Definition preflush_active_generation (m : ManagedBinlogFile)
  : ManagedBinlogFile * result PersistenceError Z :=
  match sys m with
  | (m, Err e) => (m, Err (PersistenceError_new (ie_message e)))
  | (m, Ok _) =>
    match m_files m !! binlog_path with
    | None => (m, Err (PersistenceError_new (bs "No such file or directory (os error 2)")))
    | Some b =>
      match sys m with
      | (m, Err e) => (m, Err (PersistenceError_new (ie_message e)))
      | (m, Ok _) =>
        if 0 <? len b then
          match sys m with
          | (m, Err e) => (m, Err (PersistenceError_new (ie_message e)))
          | (m, Ok _) => (with_disk m b, Ok (len b))
          end
        else (m, Ok (len b))
      end
    end
  end.

End Runtime.
