(* ===== verification/Compaction.v ===== *)
(** * Compaction: rollover and snapshot compaction (src/persistence/runtime.rs)

    Both run beside the commits.  A definition is one phase: what happens
    between taking and releasing the gates that exclude commits, or without
    touching what commits change.  [None] is a failed assertion. *)

From Stdlib Require Import ZArith Lia.
From Stdlib Require Import Strings.Byte.
From stdpp Require Import base gmap list strings numbers sorting.
From S2P Require Import Prelude Text Json JsonPath Value Shard Engine Store Persistence Model Codec BinlogFile BinlogIo Recovery ManagedBinlog SnapshotWriter ReplicaState Runtime.

Open Scope Z_scope.

Section Compaction.
Context {CRC : Crc32} {GZ : Gzip} {JN : JsonNumber} {SJ : SerdeJson} {HO : HashOrder}.

(** ** Rollover *)

Inductive rollover_prepared : Type :=
| RolloverNothing (watermark : Z)
| RolloverReady (preflushed_bytes : Z).

Definition err_rollover_blocked (physical : Z) : PersistenceError :=
  PersistenceError_new (bs "Binlog generation rollover is blocked at " ++ print_Z physical
    ++ bs " physical segments; the remaining catalog capacity is reserved for snapshot compaction").

(** [rollover_generation_owned] up to the commit boundary. *)
Definition rollover_prepare (clk : clock) (r : CommitRuntime)
  : option (CommitRuntime * result PersistenceError rollover_prepared) :=
  if rt_active_bytes r =? 0 then Some (r, Ok (RolloverNothing (rt_offset r)))
  else
    match refresh_segment_catalog clk r with
    | (r, Err error) =>
      Some (r, Err (error_with_context error (bs "Binlog generation rollover catalog maintenance failed")))
    | (r, Ok _) =>
      if BINLOG_SEGMENT_ROLLOVER_LIMIT <=? rt_physical r
      then Some (r, Err (err_rollover_blocked (rt_physical r)))
      else
        r ← activate_compaction_write_budget r;
        let '(m, preflushed) := preflush_active_generation (rt_binlog r) in
        let r := set_binlog m r in
        Some (match preflushed with
              | Err error =>
                (release_budget r,
                 Err (error_with_context error (bs "Active binlog generation preflush failed")))
              | Ok preflushed_bytes => (r, Ok (RolloverReady preflushed_bytes))
              end)
    end.

(** The failure of a seal, under the boundary. *)
Definition seal_failed (error : PersistenceError) (r : CommitRuntime) : CommitRuntime :=
  if is_indeterminate error then enter_fail_stop_with_visibility_guard (pe_message error) r else r.

(** [rollover_generation_owned] from the commit boundary on. *)
Definition rollover_seal (d : delivery) (r : CommitRuntime)
  : option (CommitRuntime * result PersistenceError Z) :=
  let watermark := rt_offset r in
  let '(m, seal) := handle_seal_active d watermark (rt_binlog r) in
  let r := set_binlog m r in
  match seal with
  | Err error =>
    let error := error_with_context error (bs "Binlog generation rollover failed") in
    Some (release_budget (seal_failed error r), Err error)
  | Ok sealed_bytes =>
    r ← record_sealed_segment sealed_bytes (set_bytes (rt_accepted_bytes r) 0 r);
    Some (release_budget r, Ok watermark)
  end.

(** ** Compaction *)

(** [compact_owned] up to the commit boundary: whether a generation is sealed. *)
Definition compact_prepare (clk : clock) (r : CommitRuntime)
  : option (CommitRuntime * result PersistenceError bool) :=
  match refresh_segment_catalog clk r with
  | (r, Err error) =>
    Some (r, Err (error_with_context error (bs "Snapshot compaction catalog maintenance failed")))
  | (r, Ok _) =>
    if rt_physical r <? MAX_BINLOG_SEGMENTS then
      r ← activate_compaction_write_budget r;
      let '(m, preflushed) := preflush_active_generation (rt_binlog r) in
      let r := set_binlog m r in
      Some (match preflushed with
            | Err error =>
              (release_budget r,
               Err (error_with_context error (bs "Active binlog generation preflush failed")))
            | Ok _ => (r, Ok true)
            end)
    else Some (r, Ok false)
  end.

(** What is captured under the boundary. *)
Record capture : Type := mkCapture {
  cap_watermark : Z;
  cap_writes : Z;
  cap_segments : Z;
  cap_view : EngineSnapshot
}.

Definition compact_capture (d : delivery) (clk : clock) (seal_generation : bool)
    (r : CommitRuntime) (store : ShardedStore)
  : option (CommitRuntime * ShardedStore * result PersistenceError capture) :=
  let watermark := rt_offset r in
  let '(m, seal) :=
    if seal_generation then handle_seal_active d watermark (rt_binlog r) else (rt_binlog r, Ok 0) in
  let r := set_binlog m r in
  match seal with
  | Err error =>
    let error := error_with_context error (bs "Binlog generation sealing failed") in
    Some (release_budget (seal_failed error r), store, Err error)
  | Ok sealed_bytes =>
    r ← (if seal_generation
         then record_sealed_segment sealed_bytes (set_bytes (rt_accepted_bytes r) 0 r) else Some r);
    '(e, view) ← engine_begin_snapshot clk (engine store);
    Some (if seal_generation then release_budget r else r, with_engine store e,
          Ok (mkCapture watermark (rt_write_count r) (rt_unsnapshotted r) view))
  end.

(** The snapshot is written without any gate. *)
Definition compact_write (watermark : Z) (entries : list (bytes * DataEntry)) (r : CommitRuntime)
  : CommitRuntime * result PersistenceError unit :=
  let '(m, written) := write_snapshot_file entries watermark (rt_binlog r) in
  (set_binlog m r,
   match written with
   | Ok _ => Ok tt
   | Err error => Err (PersistenceError_new (bs "Snapshot installation failed: " ++ pe_message error))
   end).

(** The second boundary: the snapshot becomes the recovery baseline. *)
Definition compact_finish (d : delivery) (upstream_replid : Z) (cap : capture) (snapshot_entry_count : Z)
    (r : CommitRuntime) : CommitRuntime * result PersistenceError Z :=
  let '(m, checkpoint) := handle_checkpoint d (rt_binlog r) in
  let r := set_binlog m r in
  match checkpoint with
  | Err error =>
    let error := error_with_context error (bs "Post-snapshot binlog checkpoint failed") in
    (seal_failed error r, Err error)
  | Ok _ =>
    let '(m, identity) :=
      if upstream_replid =? 0 then (rt_binlog r, Ok tt)
      else write_replica_identity (mkIdentity upstream_replid (cap_watermark cap)) (rt_binlog r) in
    let r := set_binlog m r in
    match identity with
    | Err error => (r, Err error)
    | Ok _ =>
      (set_compaction_entry_floor snapshot_entry_count
         (set_segments (sat_sub (rt_unsnapshotted r) (cap_segments cap)) (rt_physical r)
            (set_write_count (sat_sub (rt_write_count r) (cap_writes cap))
               (set_watermark (cap_watermark cap) r))),
       Ok (cap_watermark cap))
    end
  end.

(** Covered segments are removed; a failure only blocks the next attempt. *)
Definition compact_cleanup (clk : clock) (r : CommitRuntime) : CommitRuntime := (refresh_segment_catalog clk r).1.

End Compaction.
