(* ===== verification/HistorySpec.v ===== *)
(** * HistorySpec: what the inspection finds in a data directory

    The directory a server leaves behind holds sealed segments and an active
    binlog whose records carry consecutive sequence numbers; a crash may cut the
    active file inside its last record. *)

From Stdlib Require Import ZArith Lia.
From Stdlib Require Import Strings.Byte.
From stdpp Require Import base gmap list strings numbers sorting.
From S2P Require Import Prelude Text Json JsonPath Value Shard Engine Store Persistence Model Codec CodecSpec BinlogFile Recovery.

Open Scope Z_scope.

Section History.
Context {CRC : Crc32} {GZ : Gzip} {JN : JsonNumber} {SJ : SerdeJson} {HO : HashOrder}.

(** ** Numbered batches *)

(** [rs] are the records of the batches [bs], numbered from [s] on. *)
Inductive encodes : Z -> list CommittedBatch -> list (Z * bytes) -> Prop :=
| encodes_nil s : encodes s [] []
| encodes_cons s b p bs rs :
    0 < s <= U64_MAX -> Forall effect_ok (effects b) -> encode_committed_batch b = Ok p ->
    20 + len p <= MAX_BINLOG_RECORD_SIZE ->
    encodes (s + 1) bs rs -> encodes s (b :: bs) ((s, p) :: rs).

Lemma encodes_loggable s bs rs : encodes s bs rs -> Forall loggable rs.
Proof.
  induction 1 as [s|s b p bs rs Hs Hb Hp Hl He IH]; constructor; [|done].
  destruct (batch_roundtrip (fun _ => 0) b p Hb Hp) as [_ Hlen]. unfold loggable. cbn [fst snd]. lia.
Qed.

Lemma encodes_app s bs rs bs' rs' :
  encodes s bs rs -> encodes (s + len bs) bs' rs' -> encodes s (bs ++ bs') (rs ++ rs').
Proof.
  induction 1 as [s|s b p bs rs Hs Hb Hp Hl He IH]; intros H; simpl.
  - rewrite len_nil, Z.add_0_r in H. done.
  - constructor; try done. apply IH. rewrite len_cons in H. by replace (s + 1 + len bs) with (s + (1 + len bs)) by lia.
Qed.

Lemma encodes_split s bs rs1 rs2 :
  encodes s bs (rs1 ++ rs2) ->
  exists bs1 bs2, bs = bs1 ++ bs2 /\ encodes s bs1 rs1 /\ encodes (s + len bs1) bs2 rs2.
Proof.
  revert s bs. induction rs1 as [|r rs1 IH]; intros s bs H; simpl in H.
  - exists [], bs. rewrite len_nil, Z.add_0_r. split; [done|]. split; [constructor|done].
  - inversion H as [|s0 b p bs0 rs0 Hs Hb Hp Hl He]; subst.
    destruct (IH _ _ He) as (bs1 & bs2 & -> & H1 & H2). exists (b :: bs1), bs2.
    split; [done|]. split; [by constructor|]. rewrite len_cons.
    by replace (s + (1 + len bs1)) with (s + 1 + len bs1) by lia.
Qed.

(** ** Inspecting one file *)

Definition count_after (bs : list CommittedBatch) (s : Z) (i : BinlogInspection) : BinlogInspection :=
  match bs with
  | [] => i
  | _ => mkInspection (match min_sequence i with Some m => Some m | None => Some s end)
           (s + len bs - 1) (valid_len i) (truncated_tail i) (contains_checksumless_records i)
  end.

Lemma inspect_visits clk s bs rs i last :
  encodes s bs rs -> last = None \/ last = Some (s - 1) ->
  visits (inspect_record clk) (i, last) rs =
  Some (Ok (count_after bs s i, match bs with [] => last | _ => Some (s + len bs - 1) end)).
Proof.
  intros He. revert i last. induction He as [s|s b p bs rs Hs Hb Hp Hl He IH]; intros i last Hlast; [done|].
  cbn [visits fst snd]. destruct (batch_roundtrip clk b p Hb Hp) as [Hdec Hlen].
  unfold inspect_record. rewrite record_roundtrip by (done || lia). step. cbn [rec_sequence rec_effects rec_integrity].
  assert (Hg : match last with
               | Some previous => negb (bool_decide (checked_add previous 1 = Some s))
               | None => false end = false).
  { destruct Hlast as [->| ->]; [done|]. rewrite bool_decide_eq_true_2; [done|]. unfold checked_add.
    rewrite (proj2 (Z.leb_le _ _)) by (unfold USIZE_MAX, U64_MAX in *; lia). f_equal. lia. }
  rewrite Hg, Hdec. cbn [visits]. rewrite IH by (right; f_equal; lia).
  destruct bs as [|b' bs]; cbn [count_after min_sequence max_sequence valid_len truncated_tail
    contains_checksumless_records].
  - change (len [b]) with 1. rewrite orb_false_r. do 3 f_equal; [f_equal|]; lia || (f_equal; lia).
  - rewrite !len_cons, orb_false_r. do 3 f_equal; [destruct (min_sequence i); f_equal; lia|f_equal; lia].
Qed.

(** What is left of a record the crash interrupted. *)
Definition torn_tail (tail : bytes) : Prop := tail = [] \/ exists r, loggable r /\ torn r tail.

Lemma for_each_torn {St} (visitor : St -> bytes -> option (result PersistenceError St)) rs tail s :
  Forall loggable rs -> torn_tail tail ->
  for_each_binlog_record visitor (Some (log rs ++ tail)) s =
  ends_after (visits visitor s rs) (len (log rs)) (bool_decide (tail <> [])).
Proof.
  intros Hl [->|(r & Hr & Ht)].
  - apply (for_each_log visitor rs [] []); [by rewrite app_nil_r|done].
  - apply (for_each_log visitor rs [r] tail); [|done]. apply list.Forall_app. split; [done|by constructor].
Qed.

Definition inspected (s : Z) (bs : list CommittedBatch) (rs : list (Z * bytes)) (tail : bytes)
  : BinlogInspection :=
  match bs with
  | [] => mkInspection None 0 (len (log rs)) (bool_decide (tail <> [])) false
  | _ => mkInspection (Some s) (s + len bs - 1) (len (log rs)) (bool_decide (tail <> [])) false
  end.

Lemma inspect_log clk s bs rs tail :
  encodes s bs rs -> torn_tail tail ->
  inspect_binlog clk (Some (log rs ++ tail)) = Some (Ok (inspected s bs rs tail)).
Proof.
  intros He Ht. unfold inspect_binlog.
  rewrite for_each_torn by (done || by eapply encodes_loggable).
  rewrite (inspect_visits clk s bs rs) by (done || by left). by destruct bs.
Qed.

(** ** The directory *)

(** A sealed segment: its first sequence, its batches and their records. *)
Record chunk : Type := mkChunk {
  c_start : Z;
  c_batches : list CommittedBatch;
  c_records : list (Z * bytes)
}.

Definition c_end (c : chunk) : Z := c_start c + len (c_batches c) - 1.

(** Segments that follow one another from [s] up to, not including, [e]. *)
Inductive chain : Z -> list chunk -> Z -> Prop :=
| chain_nil s : chain s [] s
| chain_cons c cs e :
    encodes (c_start c) (c_batches c) (c_records c) -> c_batches c <> [] ->
    chain (c_end c + 1) cs e -> chain (c_start c) (c :: cs) e.

Definition chain_batches (cs : list chunk) : list CommittedBatch := concat (map c_batches cs).

Record history_on (fs : Files) (s : Z) (cs : list chunk) (e : Z)
    (bs : list CommittedBatch) (rs : list (Z * bytes)) (tail : bytes) : Prop := {
  ho_start : 0 < s;
  ho_chain : chain s cs e;
  ho_active : encodes e bs rs;
  ho_tail : torn_tail tail;
  ho_file : fs !! binlog_path = Some (log rs ++ tail) \/
            (fs !! binlog_path = None /\ bs = [] /\ tail = []);
  ho_segments : forall c, c ∈ cs -> fs !! binlog_segment (c_end c) = Some (log (c_records c));
  ho_others : forall name, is_Some (fs !! name) ->
    parse_binlog_segment_end_sequence (Utf8.from_utf8 name) = Ok None \/
    exists c, c ∈ cs /\ name = binlog_segment (c_end c);
  ho_count : len cs <= MAX_BINLOG_SEGMENTS
}.

Definition sealed_file (c : chunk) : InspectedBinlogFile :=
  mkInspected (binlog_segment (c_end c)) (Some (c_end c))
    (inspected (c_start c) (c_batches c) (c_records c) []).

Definition active_file (e : Z) (bs : list CommittedBatch) (rs : list (Z * bytes)) (tail : bytes)
  : InspectedBinlogFile := mkInspected binlog_path None (inspected e bs rs tail).

(** What the inspection reports. *)
Definition history_of cs e bs rs tail : list InspectedBinlogFile :=
  map sealed_file cs ++ [active_file e bs rs tail].

(** *** Facts about chains *)

Lemma chunk_bounds c :
  encodes (c_start c) (c_batches c) (c_records c) -> c_batches c <> [] ->
  0 < c_start c <= c_end c /\ c_end c <= U64_MAX.
Proof.
  unfold c_end. generalize (c_start c). intros s He Hne.
  assert (H : forall s bs rs, encodes s bs rs -> bs <> [] -> 0 < s <= s + len bs - 1 /\ s + len bs - 1 <= U64_MAX).
  { clear. induction 1 as [s|s b p bs rs Hs Hb Hp Hl He IH]; [done|]. intros _.
    rewrite len_cons. destruct bs as [|b' bs]; [change (len (@nil CommittedBatch)) with 0; lia|].
    specialize (IH ltac:(done)). lia. }
  by eapply H.
Qed.

Lemma chain_bounds s cs e c :
  chain s cs e -> c ∈ cs -> s <= c_start c <= c_end c /\ c_end c < e /\ 0 < c_end c <= U64_MAX.
Proof.
  intros Hc. revert c. induction Hc as [s|c0 cs e He Hne Hc IH]; intros c Hin; [by apply not_elem_of_nil in Hin|].
  pose proof (chunk_bounds c0 He Hne).
  assert (Hle : c_end c0 + 1 <= e).
  { clear - Hc. induction Hc as [s|c cs e He Hne Hc IH]; [lia|].
    pose proof (chunk_bounds c He Hne). lia. }
  apply elem_of_cons in Hin as [->|Hin]; [lia|]. specialize (IH c Hin). lia.
Qed.

Lemma chain_le s cs e : chain s cs e -> s <= e.
Proof.
  intros Hc. induction Hc as [s|c cs e He Hne Hc IH]; [lia|]. pose proof (chunk_bounds c He Hne). lia.
Qed.

Lemma chain_in s cs e c : chain s cs e -> c ∈ cs ->
  encodes (c_start c) (c_batches c) (c_records c) /\ c_batches c <> [].
Proof.
  induction 1 as [s|c0 cs e He Hne Hc IH]; intros Hin; [by apply not_elem_of_nil in Hin|].
  apply elem_of_cons in Hin as [->|Hin]; [done|by apply IH].
Qed.

Lemma chain_sorted s cs e : chain s cs e -> StronglySorted by_end (map sealed_file cs).
Proof.
  induction 1 as [s|c cs e He Hne Hc IH]; simpl; constructor; [done|].
  apply list.Forall_forall. intros f Hf. apply list_elem_of_In, in_map_iff in Hf as (c' & <- & Hin).
  apply list_elem_of_In in Hin. destruct (chain_bounds _ _ _ c' Hc Hin) as (H1 & H2 & H3).
  unfold by_end, end_of. simpl. lia.
Qed.

Lemma chain_distinct s cs e c c' :
  chain s cs e -> c ∈ cs -> c' ∈ cs -> c_end c = c_end c' -> c = c'.
Proof.
  induction 1 as [s|c0 cs e He Hne Hc IH]; intros H1 H2 Heq; [by apply not_elem_of_nil in H1|].
  apply elem_of_cons in H1 as [->|H1]; apply elem_of_cons in H2 as [->|H2]; [done| | |by apply IH].
  - destruct (chain_bounds _ _ _ c' Hc H2). lia.
  - destruct (chain_bounds _ _ _ c Hc H1). lia.
Qed.

Lemma chain_nodup s cs e : chain s cs e -> NoDup cs.
Proof.
  induction 1 as [s|c cs e He Hne Hc IH]; constructor; [|done].
  intros Hin. destruct (chain_bounds _ _ _ c Hc Hin). lia.
Qed.

(** ** Inspecting the directory *)

Lemma io_run {A B} (m : io A) (f : A -> io B) fs fs' a :
  m fs = Some (fs', Ok a) -> (m ≫= f) fs = f a fs'.
Proof. intros H. unfold mbind, io_bind. by rewrite H. Qed.

Lemma from_utf8_segment n :
  0 <= n <= U64_MAX -> Utf8.from_utf8 (binlog_segment n) = Some (binlog_segment n).
Proof.
  intros Hn. unfold Utf8.from_utf8, binlog_segment. rewrite Utf8.valid_app; [done|reflexivity|].
  apply valid_digits, zero_padded_spec, Hn.
Qed.

Lemma segment_parses n :
  0 < n <= U64_MAX ->
  parse_binlog_segment_end_sequence (Utf8.from_utf8 (binlog_segment n)) = Ok (Some n).
Proof. intros Hn. rewrite from_utf8_segment by lia. apply parse_binlog_segment. lia. Qed.

(** The segment a directory entry holds, if any. *)
Definition segment_of (cs : list chunk) (nc : bytes * bytes) : option InspectedBinlogFile :=
  sealed_file <$> (snd <$> list_find (fun c => binlog_segment (c_end c) = nc.1) cs).

Lemma segment_of_in s cs e c contents :
  chain s cs e -> c ∈ cs ->
  segment_of cs (binlog_segment (c_end c), contents) = Some (sealed_file c).
Proof.
  intros Hc Hin. unfold segment_of. cbn [fst].
  destruct (list_find _ cs) as [[i c']|] eqn:E.
  - apply list_find_Some in E as (Hi & Heq & _). apply list_elem_of_lookup_2 in Hi.
    destruct (chain_bounds _ _ _ c Hc Hin) as (_ & _ & B). destruct (chain_bounds _ _ _ c' Hc Hi) as (_ & _ & B').
    pose proof (segment_parses (c_end c) B) as P. rewrite <- Heq, (segment_parses _ B') in P.
    simpl. do 2 f_equal. apply (chain_distinct s cs e); [done..|congruence].
  - apply list_find_None in E. rewrite list.Forall_forall in E. by destruct (E c Hin).
Qed.

Lemma segment_of_out cs name contents :
  (forall c, c ∈ cs -> binlog_segment (c_end c) <> name) -> segment_of cs (name, contents) = None.
Proof.
  intros H. unfold segment_of. cbn [fst]. destruct (list_find _ cs) as [[i c]|] eqn:E; [|done].
  apply list_find_Some in E as (Hi & Heq & _). apply list_elem_of_lookup_2 in Hi. by destruct (H c Hi).
Qed.

Section Directory.
Context (clk : clock) (fs : Files) (s : Z) (cs : list chunk) (e : Z).
Context (bs : list CommittedBatch) (rs : list (Z * bytes)) (tail : bytes).
Context (Hh : history_on fs s cs e bs rs tail).

Lemma chunk_inspected c :
  c ∈ cs -> inspect_binlog clk (Some (log (c_records c))) =
  Some (Ok (inspected (c_start c) (c_batches c) (c_records c) [])).
Proof.
  intros Hin. destruct (chain_in _ _ _ c (ho_chain _ _ _ _ _ _ _ Hh) Hin) as [He _].
  rewrite <- (app_nil_r (log _)). apply inspect_log; [done|by left].
Qed.

(** One directory entry. *)
Lemma entry_kind name contents :
  fs !! name = Some contents ->
  (parse_binlog_segment_end_sequence (Utf8.from_utf8 name) = Ok None /\
   segment_of cs (name, contents) = None) \/
  exists c, c ∈ cs /\ name = binlog_segment (c_end c) /\ contents = log (c_records c) /\
    parse_binlog_segment_end_sequence (Utf8.from_utf8 name) = Ok (Some (c_end c)) /\
    segment_of cs (name, contents) = Some (sealed_file c).
Proof.
  intros Hn. pose proof (ho_chain _ _ _ _ _ _ _ Hh) as Hc.
  assert (Hp : forall c, c ∈ cs -> parse_binlog_segment_end_sequence
    (Utf8.from_utf8 (binlog_segment (c_end c))) = Ok (Some (c_end c))).
  { intros c Hin. apply segment_parses. apply (chain_bounds _ _ _ c Hc Hin). }
  destruct (ho_others _ _ _ _ _ _ _ Hh name ltac:(by eexists)) as [Hnone|(c & Hin & ->)].
  - left. split; [done|]. apply segment_of_out. intros c Hin <-. rewrite (Hp c Hin) in Hnone. done.
  - right. exists c. rewrite (ho_segments _ _ _ _ _ _ _ Hh c Hin) in Hn. split_and!; [done|done|congruence|by apply Hp|].
    by eapply segment_of_in.
Qed.

Lemma list_segments_spec entries acc :
  (forall name contents, (name, contents) ∈ entries -> fs !! name = Some contents) ->
  len acc + len (omap (segment_of cs) entries) <= MAX_BINLOG_SEGMENTS ->
  list_segments clk entries acc fs = Some (fs, Ok (acc ++ omap (segment_of cs) entries)).
Proof.
  revert acc. induction entries as [|[name contents] entries IH]; intros acc Hin Hcount.
  { cbn [list_segments omap list_omap]. by rewrite app_nil_r. }
  cbn [list_segments]. specialize (IH) as IH'.
  assert (Hrest : forall n c, (n, c) ∈ entries -> fs !! n = Some c) by (intros; apply Hin; by right).
  cbn [omap list_omap] in *.
  destruct (entry_kind name contents (Hin _ _ ltac:(by left))) as [[Hp Hs]|(c & Hc & -> & -> & Hp & Hs)];
    rewrite Hs in *; rewrite (io_run _ _ fs fs _ (f_equal (fun r => Some (fs, r)) Hp)).
  - by apply IH.
  - rewrite len_cons in Hcount. fold (omap (M := list) (segment_of cs) entries) in *.
    pose proof (len_nonneg (omap (segment_of cs) entries)).
    rewrite (proj2 (Z.eqb_neq _ _)) by lia.
    rewrite (io_run _ _ fs fs (inspected (c_start c) (c_batches c) (c_records c) []))
      by (unfold lift_option; by rewrite chunk_inspected).
    rewrite IH; [by rewrite <- (assoc_L (++))|done|].
    rewrite len_app, len_cons. change (len (@nil InspectedBinlogFile)) with 0. lia.
Qed.

Lemma elem_of_segments f :
  f ∈ omap (segment_of cs) (hm_iter fs) <-> f ∈ map sealed_file cs.
Proof.
  pose proof (ho_chain _ _ _ _ _ _ _ Hh) as Hc.
  rewrite list_elem_of_omap. setoid_rewrite hm_iter_perm. split.
  - intros ([name contents] & Hin & Hs). apply elem_of_map_to_list in Hin.
    destruct (entry_kind name contents Hin) as [[_ Hn]|(c & Hcin & _ & _ & _ & Hf)]; [congruence|].
    rewrite Hf in Hs. injection Hs as <-. by apply list_elem_of_fmap_2.
  - intros Hf. apply list_elem_of_fmap in Hf as (c & -> & Hin).
    exists (binlog_segment (c_end c), log (c_records c)). split; [|by eapply segment_of_in].
    apply elem_of_map_to_list, (ho_segments _ _ _ _ _ _ _ Hh c Hin).
Qed.

Lemma omap_segments_nodup entries :
  NoDup entries.*1 -> (forall name contents, (name, contents) ∈ entries -> fs !! name = Some contents) ->
  NoDup (omap (segment_of cs) entries).
Proof.
  induction entries as [|[name contents] entries IH]; intros Hnd Hin; cbn [omap list_omap]; [constructor|].
  apply list.NoDup_cons in Hnd as [Hnew Hnd].
  specialize (IH Hnd ltac:(intros; apply Hin; by right)).
  destruct (entry_kind name contents (Hin _ _ ltac:(by left))) as [[_ Hs]|(c & Hc & Hn & _ & _ & Hs)];
    rewrite Hs; [done|]. constructor; [|done]. intros Hf.
  apply list_elem_of_omap in Hf as ([name' contents'] & Hin' & Hs'). apply Hnew.
  apply list_elem_of_fmap. exists (name', contents'). split; [|done]. cbn [fst].
  destruct (entry_kind name' contents' (Hin _ _ ltac:(by right))) as [[_ Hs2]|(c' & _ & Hn' & _ & _ & Hs2)];
    rewrite Hs2 in Hs'; [done|]. injection Hs' as Hp. subst name name'. congruence.
Qed.

Lemma segments_found :
  omap (segment_of cs) (hm_iter fs) ≡ₚ map sealed_file cs.
Proof.
  pose proof (ho_chain _ _ _ _ _ _ _ Hh) as Hc.
  apply list.NoDup_Permutation; [| |apply elem_of_segments].
  - apply omap_segments_nodup.
    + rewrite hm_iter_perm. apply NoDup_fst_map_to_list.
    + intros name contents. rewrite hm_iter_perm. apply elem_of_map_to_list.
  - pose proof (chain_nodup _ _ _ Hc) as Hnd.
    assert (Hinj : forall c c', c ∈ cs -> c' ∈ cs -> sealed_file c = sealed_file c' -> c = c').
    { intros c c' H1 H2 Heq. apply (chain_distinct s cs e); try done. unfold sealed_file in Heq. congruence. }
    clear - Hnd Hinj. induction Hnd as [|c cs Hnin Hnd IH]; simpl; constructor.
    + intros Hf. apply list_elem_of_fmap in Hf as (c' & Heq & Hin).
      apply Hnin. rewrite (Hinj c c'); [done|by left|by right|done].
    + apply IH. intros c1 c2 H1 H2. apply Hinj; by right.
Qed.

Lemma segments_sorted :
  merge_sort by_end (omap (segment_of cs) (hm_iter fs)) = map sealed_file cs.
Proof.
  pose proof (ho_chain _ _ _ _ _ _ _ Hh) as Hc.
  assert (Hp : merge_sort by_end (omap (segment_of cs) (hm_iter fs)) ≡ₚ map sealed_file cs).
  { by rewrite merge_sort_Permutation, segments_found. }
  apply (StronglySorted_unique_strong by_end); [| |by eapply chain_sorted|done].
  - intros f f' Hf Hf' H1 H2. rewrite Hp in Hf.
    apply list_elem_of_fmap in Hf as (c & -> & Hin). apply list_elem_of_fmap in Hf' as (c' & -> & Hin').
    f_equal. apply (chain_distinct s cs e); [done..|]. unfold by_end, end_of in *. simpl in *. lia.
  - apply StronglySorted_merge_sort.
    + intros f f'. unfold by_end. lia.
    + intros f f'. unfold by_end. lia.
Qed.

Lemma active_inspected :
  inspect_binlog clk (fs !! binlog_path) = Some (Ok (inspected e bs rs tail)).
Proof.
  pose proof (ho_active _ _ _ _ _ _ _ Hh) as He.
  destruct (ho_file _ _ _ _ _ _ _ Hh) as [Hf|(Hf & Hb & Ht)]; rewrite Hf.
  - apply inspect_log; [done|apply Hh].
  - subst. inversion He; subst. done.
Qed.

Lemma sealed_inspection c :
  c ∈ cs -> min_sequence (inspection (sealed_file c)) = Some (c_start c) /\
  max_sequence (inspection (sealed_file c)) = c_end c /\
  truncated_tail (inspection (sealed_file c)) = false.
Proof.
  intros Hin. destruct (chain_in _ _ _ c (ho_chain _ _ _ _ _ _ _ Hh) Hin) as [_ Hne].
  unfold sealed_file, inspected, c_end. simpl. by destruct (c_batches c).
Qed.

Lemma repair_nothing act : repair_history act (map sealed_file cs) = mret (map sealed_file cs).
Proof.
  unfold repair_history. enough (H : forall l before, (forall c, c ∈ l -> c ∈ cs) ->
    split_truncated before (map sealed_file l) = None) by (by rewrite H).
  induction l as [|c l IH]; intros before Hl; [done|]. cbn [map split_truncated].
  destruct (sealed_inspection c (Hl c ltac:(by left))) as (_ & _ & ->). apply IH.
  intros c' H. apply Hl. by right.
Qed.

Lemma check_segments_ok : check_segments (map sealed_file cs) = Ok tt.
Proof.
  enough (H : forall l, (forall c, c ∈ l -> c ∈ cs) -> check_segments (map sealed_file l) = Ok tt) by auto.
  induction l as [|c l IH]; intros Hl; [done|]. cbn [map check_segments].
  destruct (sealed_inspection c (Hl c ltac:(by left))) as (-> & -> & _).
  unfold end_of. simpl. rewrite Z.eqb_refl. simpl. apply IH. intros c' H. apply Hl. by right.
Qed.

Lemma next_contiguous a b : 0 < a -> b + 1 = a -> a <= U64_MAX ->
  negb (bool_decide (checked_add b 1 = Some a)) = false.
Proof.
  intros H0 H1 H2. rewrite bool_decide_eq_true_2; [done|]. unfold checked_add.
  rewrite (proj2 (Z.leb_le _ _)) by (unfold USIZE_MAX, U64_MAX in *; lia). by rewrite H1.
Qed.

Lemma encodes_first s0 b0 bs0 rs0 : encodes s0 (b0 :: bs0) rs0 -> 0 < s0 <= U64_MAX.
Proof. by inversion 1. Qed.

Lemma check_contiguous_ok : check_contiguous None (history_of cs e bs rs tail) = Ok tt.
Proof.
  enough (H : forall l s0 e1 prev, chain s0 l e1 -> e1 = e -> (forall c, c ∈ l -> c ∈ cs) ->
    prev = None \/ prev = Some (s0 - 1) ->
    check_contiguous prev (map sealed_file l ++ [active_file e bs rs tail]) = Ok tt).
  { apply (H cs s e); [apply Hh|done|done|by left]. }
  intros l s0 e1 prev Hc. revert prev. induction Hc as [s1|c l e1 He Hne Hc IH]; intros prev Heq Hl Hprev.
  - cbn [map app check_contiguous]. unfold active_file, inspected. cbn [inspection].
    pose proof (ho_active _ _ _ _ _ _ _ Hh) as Ha.
    destruct bs as [|b bs']; [done|]. cbn [min_sequence]. apply encodes_first in Ha as Hb. subst s1.
    destruct Hprev as [->| ->]; [done|]. by rewrite next_contiguous by lia.
  - cbn [map app check_contiguous]. destruct (sealed_inspection c (Hl c ltac:(by left))) as (-> & -> & _).
    destruct (chunk_bounds c He Hne) as [B1 B2].
    assert (Hrest : check_contiguous (Some (c_end c)) (map sealed_file l ++ [active_file e bs rs tail]) = Ok tt).
    { apply IH; [done|intros; apply Hl; by right|right; f_equal; lia]. }
    destruct Hprev as [->| ->]; [done|]. by rewrite next_contiguous by lia.
Qed.

Lemma inspect_history :
  inspect_binlog_history clk fs = Some (fs, Ok (history_of cs e bs rs tail)).
Proof.
  unfold inspect_binlog_history. rewrite (io_run _ _ fs fs fs) by done.
  rewrite (io_run _ _ fs fs (omap (segment_of cs) (hm_iter fs))).
  2: { rewrite list_segments_spec; [done| |].
       - intros name contents. rewrite hm_iter_perm. apply elem_of_map_to_list.
       - unfold len at 2. rewrite segments_found, length_map. apply (ho_count _ _ _ _ _ _ _ Hh). }
  cbv zeta. rewrite segments_sorted.
  rewrite (io_run _ _ fs fs (inspected e bs rs tail)) by (exact (f_equal (fun o => lift_option o fs) active_inspected)).
  rewrite repair_nothing. rewrite (io_run _ _ fs fs (map sealed_file cs)) by done.
  rewrite (io_run _ _ fs fs tt) by (exact (f_equal (fun r => Some (fs, r)) check_segments_ok)).
  by rewrite (io_run _ _ fs fs tt) by (exact (f_equal (fun r => Some (fs, r)) check_contiguous_ok)).
Qed.

End Directory.

End History.
