(* ===== verification/ManagedSpec.v ===== *)
(** * ManagedSpec: the managed file keeps the contract of the storage *)

From Stdlib Require Import ZArith Lia.
From Stdlib Require Import Strings.Byte.
From stdpp Require Import base gmap list strings numbers sorting.
From S2P Require Import Prelude Text Json JsonPath Value Shard Engine Store Persistence Model Codec CodecSpec BinlogFile BinlogIo AppendSpec Recovery ManagedBinlog HistorySpec.

Open Scope Z_scope.

Section Managed.
Context {HO : HashOrder}.

Definition position (m : ManagedBinlogFile) : Z := match m_handle m with Some p => p | None => 0 end.

(** Runs the outcome of the next call. *)
Lemma next_outcome_spec m m' o :
  next_outcome m = (m', o) ->
  m_files m' = m_files m /\ m_handle m' = m_handle m /\ m_disk m' = m_disk m /\
  (length (m_next m') <= length (m_next m))%nat /\
  ((exists e b, o = Fails e b) -> length (m_next m') < length (m_next m))%nat.
Proof.
  unfold next_outcome. destruct (m_next m) as [|o0 rest] eqn:E; intros [= <- <-].
  - rewrite E. split_and!; try done. by intros (e & b & [=]).
  - simpl. split_and!; try done; lia.
Qed.

Lemma sys_spec m m' r : sys m = (m', r) ->
  m_files m' = m_files m /\ m_handle m' = m_handle m /\ m_disk m' = m_disk m.
Proof.
  unfold sys. destruct (next_outcome m) as [m1 o] eqn:E. apply next_outcome_spec in E as (? & ? & ? & _).
  destruct o; intros [= <- <-]; done.
Qed.

Lemma active_files m m' : m_files m' = m_files m -> active_contents m' = active_contents m.
Proof. unfold active_contents. by intros ->. Qed.

Lemma active_with_active m b : active_contents (with_active m b) = b.
Proof. unfold active_contents. simpl. by rewrite lookup_insert_eq. Qed.

Lemma write_at_end (data old : bytes) : write_at (len old) data old = old ++ data.
Proof.
  unfold write_at. rewrite Z.sub_diag. cbn [Z.to_nat replicate app].
  rewrite take_ge by (unfold len; lia). rewrite drop_ge by (unfold len; lia). by rewrite app_nil_r.
Qed.

Lemma resized_shorter (n : Z) (old : bytes) : 0 <= n <= len old -> resized n old = take (Z.to_nat n) old.
Proof.
  intros Hn. unfold resized. replace (Z.to_nat (n - len old)) with 0%nat by lia. by rewrite app_nil_r.
Qed.

(** The active file is not a segment. *)
Lemma segment_names_spec names segments :
  segment_names names = Ok segments ->
  forall n name, (n, name) ∈ segments -> name ∈ names /\
    parse_binlog_segment_end_sequence (Utf8.from_utf8 name) = Ok (Some n).
Proof.
  revert segments. induction names as [|name0 names IH]; intros segments H n name Hin; cbn [segment_names] in H.
  - injection H as <-. by apply not_elem_of_nil in Hin.
  - destruct (parse_binlog_segment_end_sequence _) as [o|e] eqn:Ep; [|discriminate H].
    cbn [mbind result_bind] in H. destruct (segment_names names) as [rest|e]; [|discriminate H].
    cbn [mbind result_bind] in H. injection H as <-. destruct o as [n0|].
    + apply elem_of_cons in Hin as [[= -> ->]|Hin]; [split; [by left|done]|].
      destruct (IH rest eq_refl n name Hin). split; [by right|done].
    + destruct (IH rest eq_refl n name Hin). split; [by right|done].
Qed.

Lemma list_segments_spec' m m' r :
  list_binlog_segments m = (m', r) ->
  m_files m' = m_files m /\ m_handle m' = m_handle m /\ m_disk m' = m_disk m /\
  match r with
  | Ok segments => forall n name, (n, name) ∈ segments ->
      parse_binlog_segment_end_sequence (Utf8.from_utf8 name) = Ok (Some n)
  | Err _ => True
  end.
Proof.
  unfold list_binlog_segments. destruct (sys m) as [m1 [u|e]] eqn:E; apply sys_spec in E as (Hf & Hh & Hd);
    intros [= <- <-]; (split; [done|]); (split; [done|]); (split; [done|]); [|done].
  destruct (segment_names _) as [segments|e] eqn:Es; [|done]. intros n name Hin.
  rewrite merge_sort_Permutation in Hin. by eapply segment_names_spec in Es as [_ ?].
Qed.

Lemma remove_segments_active m segments removed m' r :
  (forall n name, (n, name) ∈ segments -> name <> binlog_path) ->
  remove_segments m segments removed = (m', r) ->
  active_contents m' = active_contents m /\ m_handle m' = m_handle m /\ m_disk m' = m_disk m.
Proof.
  revert m removed. induction segments as [|[n name] segments IH]; intros m removed Hn H; cbn [remove_segments] in H.
  - by injection H as <- <-.
  - unfold sys_remove in H. destruct (sys m) as [m1 [u|e]] eqn:E; apply sys_spec in E as (Hf & Hh & Hd).
    + apply IH in H as (Ha & Hh' & Hd'); [|intros; eapply Hn; by right].
      rewrite Ha, Hh', Hd'. simpl. split; [|split; congruence]. unfold active_contents. simpl.
      rewrite lookup_delete_ne by (eapply Hn; by left). by rewrite Hf.
    + injection H as <- <-. split; [by apply active_files|done].
Qed.

Lemma remove_all_active m m' r :
  remove_all_binlog_segments m = (m', r) ->
  active_contents m' = active_contents m /\ m_handle m' = m_handle m /\ m_disk m' = m_disk m.
Proof.
  unfold remove_all_binlog_segments. destruct (list_binlog_segments m) as [m1 [segments|e]] eqn:El;
    apply list_segments_spec' in El as (Hf & Hh & Hd & Hs).
  2: { intros [= <- <-]. split; [by apply active_files|done]. }
  destruct (remove_segments m1 segments false) as [m2 r2] eqn:Er. apply remove_segments_active in Er as (Ha2 & Hh2 & Hd2).
  2: { intros n name Hin ->. by specialize (Hs n _ Hin). }
  assert (Hall : active_contents m2 = active_contents m /\ m_handle m2 = m_handle m /\ m_disk m2 = m_disk m).
  { rewrite Ha2, Hh2, Hd2. split; [by apply active_files|done]. }
  destruct Hall as (A & B & C). destruct r2 as [[]|e]; try (by intros [= <- <-]).
  intros H. apply sys_spec in H as (Hf3 & Hh3 & Hd3). split; [rewrite <- A; by apply active_files|split; congruence].
Qed.

(** ** The contract *)

(** Opens the outcome of the next call. *)
Ltac outcome m1 o := match goal with |- context [next_outcome ?m] =>
  let E := fresh "E" in destruct (next_outcome m) as [m1 o] eqn:E;
  apply next_outcome_spec in E as (?Hf & ?Hh & ?Hd & ?Hl & ?Hl') end.
Ltac call m1 := match goal with |- context [sys ?m] =>
  let E := fresh "E" in destruct (sys m) as [m1 [?u|?e]] eqn:E; apply sys_spec in E as (?Hf & ?Hh & ?Hd) end.

Lemma m_write_law m b : position m = len (active_contents m) ->
  let '(m', r) := m_write m b in
  m_disk m' = m_disk m /\
  match r with
  | Ok n => 0 <= n <= len b /\ active_contents m' = active_contents m ++ take (Z.to_nat n) b /\
            position m' = len (active_contents m')
  | Err _ => active_contents m' = active_contents m /\ position m' = position m
  end.
Proof.
  intros Hp. unfold m_write, on_handle. destruct (m_handle m) as [p|] eqn:Eh; [|done].
  assert (Hp' : p = len (active_contents m)) by (unfold position in Hp; by rewrite Eh in Hp). clear Hp.
  outcome m1 o. pose proof (active_files _ _ Hf) as Ha. pose proof (len_nonneg b) as Hb.
  assert (Hwrite : forall n, 0 <= n <= len b ->
    let m' := with_handle (with_active m1 (write_at p (take (Z.to_nat n) b) (active_contents m1))) (Some (p + n)) in
    m_disk m' = m_disk m /\ 0 <= n <= len b /\
    active_contents m' = active_contents m ++ take (Z.to_nat n) b /\ position m' = len (active_contents m')).
  { intros n Hn m'. assert (Hc : active_contents m' = active_contents m ++ take (Z.to_nat n) b).
    { subst m'. unfold active_contents at 1. simpl. rewrite lookup_insert_eq, Ha, Hp'. apply write_at_end. }
    split; [exact Hd|]. split; [done|]. split; [done|]. rewrite Hc, len_app. subst m'. unfold position. simpl.
    unfold len in *. rewrite length_take. lia. }
  destruct o as [|n|e applied].
  - by apply Hwrite.
  - apply Hwrite. lia.
  - split; [done|]. split; [done|]. unfold position. by rewrite Hh.
Qed.

Lemma m_flush_law m : let '(m', _) := m_flush m in
  active_contents m' = active_contents m /\ m_disk m' = m_disk m.
Proof.
  unfold m_flush, on_handle. destruct (m_handle m); [|done]. call m1; split; try done; by apply active_files.
Qed.

Lemma m_seek_law m f : let '(m', r) := m_seek m f in
  active_contents m' = active_contents m /\ m_disk m' = m_disk m /\
  match r with Ok p => exists m1, m_files m1 = m_files m /\ p = f m1 /\ position m' = p | Err _ => True end.
Proof.
  unfold m_seek, on_handle. destruct (m_handle m); [|done].
  call m1; (split; [by apply active_files|]); (split; [done|]); [|done]. by exists m1.
Qed.

Lemma m_sync_law m : let '(m', r) := m_sync m in
  active_contents m' = active_contents m /\
  match r with Ok _ => m_disk m' = active_contents m | Err _ => m_disk m' = m_disk m end.
Proof.
  unfold m_sync, on_handle. destruct (m_handle m); [|done].
  call m1; (split; [by apply active_files|]); [|done]. simpl. by apply active_files.
Qed.

Lemma set_len_spec m n m' r : 0 <= n <= len (active_contents m) -> set_len m n = (m', r) ->
  m_disk m' = m_disk m /\
  match r with
  | Ok _ => active_contents m' = take (Z.to_nat n) (active_contents m)
  | Err _ => active_contents m' = active_contents m \/ active_contents m' = take (Z.to_nat n) (active_contents m)
  end.
Proof.
  intros Hn. unfold set_len, on_handle. destruct (m_handle m) as [p|]; [|intros [= <- <-]; by auto].
  outcome m1 o. pose proof (active_files _ _ Hf) as Ha.
  assert (Hr : active_contents (with_active m1 (resized n (active_contents m1))) = take (Z.to_nat n) (active_contents m)).
  { rewrite active_with_active, Ha. by apply resized_shorter. }
  destruct o as [|k|e []]; intros [= <- <-]; split; try exact Hd; try exact Hr; [by right|by left].
Qed.

Lemma m_truncate_law m n : 0 <= n <= len (active_contents m) ->
  let '(m', r) := m_truncate m n in
  m_disk m' = m_disk m /\
  match r with
  | Ok _ => active_contents m' = take (Z.to_nat n) (active_contents m)
  | Err _ => active_contents m' = active_contents m \/ active_contents m' = take (Z.to_nat n) (active_contents m)
  end.
Proof.
  intros Hn. unfold m_truncate. destruct (set_len m n) as [m1 [u|e]] eqn:E;
    apply set_len_spec in E as [Hd Hc]; [| |done..]; [|done].
  pose proof (m_seek_law m1 (fun _ => n)) as L. fold (m_seek_start m1 n) in L.
  destruct (m_seek_start m1 n) as [m2 [p|e]]; destruct L as (Hc2 & Hd2 & _).
  2: { split; [congruence|]. right. congruence. }
  destruct (n =? 0); [|split; congruence].
  destruct (remove_all_binlog_segments m2) as [m3 [u3|e3]] eqn:E3; apply remove_all_active in E3 as (Hc3 & _ & Hd3);
    (split; [congruence|]); [congruence|right; congruence].
Qed.

#[export] Instance managed_spec : BinlogIoSpec ManagedBinlogFile.
Proof.
  refine (Build_BinlogIoSpec _ _ active_contents position m_disk _ _ _ _ _ _ _).
  - exact m_write_law.
  - exact m_flush_law.
  - intros m. pose proof (m_seek_law m (fun m => len (active_contents m))) as L. simpl.
    unfold m_seek_end. destruct (m_seek m _) as [m' [p|e]]; [|done]. destruct L as (Hc & Hd & m1 & Hf & -> & Hp).
    rewrite (active_files _ _ Hf) in *. done.
  - intros m p. pose proof (m_seek_law m (fun _ => p)) as L. simpl. unfold m_seek_start.
    destruct (m_seek m _) as [m' r]. by destruct L as (Hc & Hd & _).
  - exact m_sync_law.
  - exact m_sync_law.
  - exact m_truncate_law.
Defined.

(** ** Appending leaves the other files alone *)

Definition others_kept (m m' : ManagedBinlogFile) : Prop :=
  forall name, name <> binlog_path -> m_files m' !! name = m_files m !! name.

Lemma others_files m0 m m' : m_files m' = m_files m -> others_kept m0 m -> others_kept m0 m'.
Proof. intros Hf H name Hn. rewrite Hf. by apply H. Qed.

Lemma others_active m0 m b : others_kept m0 m -> others_kept m0 (with_active m b).
Proof. intros H name Hn. simpl. rewrite lookup_insert_ne by done. by apply H. Qed.

Lemma sys_files m : m_files (sys m).1 = m_files m.
Proof. destruct (sys m) as [m' r] eqn:E. by apply sys_spec in E as (? & _). Qed.

Lemma write_others m0 m b : others_kept m0 m -> others_kept m0 (m_write m b).1.
Proof.
  intros H. unfold m_write, on_handle. destruct (m_handle m); [|done]. outcome m1 o.
  destruct o; cbn [fst];
    [eapply others_files; [|apply (others_active m0 m1); by apply (others_files _ m)]; done..|].
  by apply (others_files _ m).
Qed.

Lemma flush_others m0 m : others_kept m0 m -> others_kept m0 (m_flush m).1.
Proof.
  intros H. unfold m_flush, on_handle. destruct (m_handle m); [|done]. apply (others_files _ m); [apply sys_files|done].
Qed.

Lemma seek_others m0 m f : others_kept m0 m -> others_kept m0 (m_seek m f).1.
Proof.
  intros H. unfold m_seek, on_handle. destruct (m_handle m); [|done].
  call m1; by apply (others_files _ m).
Qed.

Lemma sync_others m0 m : others_kept m0 m -> others_kept m0 (m_sync m).1.
Proof.
  intros H. unfold m_sync, on_handle. destruct (m_handle m); [|done]. call m1; by apply (others_files _ m).
Qed.

Lemma truncate_others m0 m n : n <> 0 -> others_kept m0 m -> others_kept m0 (m_truncate m n).1.
Proof.
  intros Hn H. unfold m_truncate.
  assert (Hset : others_kept m0 (set_len m n).1).
  { unfold set_len, on_handle. destruct (m_handle m); [|done]. outcome m1 o.
    destruct o as [|k|e []]; cbn [fst]; [apply others_active..|]; by apply (others_files _ m). }
  destruct (set_len m n) as [m1 [u|e]]; [|done]. cbn [fst] in Hset.
  pose proof (seek_others m0 m1 (fun _ => n) Hset) as Hseek. fold (m_seek_start m1 n) in Hseek.
  destruct (m_seek_start m1 n) as [m2 [p|e]]; [|done]. rewrite (proj2 (Z.eqb_neq n 0) Hn). done.
Qed.

(** *** The handle stays open *)

Lemma seek_handle m f : is_Some (m_handle m) -> is_Some (m_handle (m_seek m f).1).
Proof.
  intros H. unfold m_seek, on_handle. destruct (m_handle m) eqn:E; [|by destruct H].
  call m1; simpl; [eauto|by rewrite Hh, E].
Qed.

Lemma sync_handle m : is_Some (m_handle m) -> is_Some (m_handle (m_sync m).1).
Proof.
  intros H. unfold m_sync, on_handle. destruct (m_handle m) eqn:E; [|by destruct H]. call m1; simpl; by rewrite Hh, E.
Qed.

Lemma truncate_handle m n : is_Some (m_handle m) -> is_Some (m_handle (m_truncate m n).1).
Proof.
  intros H. unfold m_truncate.
  assert (Hset : is_Some (m_handle (set_len m n).1)).
  { unfold set_len, on_handle. destruct (m_handle m) eqn:E; [|by destruct H]. outcome m1 o.
    destruct o as [|k|e []]; simpl; by rewrite Hh, E. }
  destruct (set_len m n) as [m1 [u|e]]; [|done]. cbn [fst] in Hset.
  pose proof (seek_handle m1 (fun _ => n) Hset) as Hseek. fold (m_seek_start m1 n) in Hseek.
  destruct (m_seek_start m1 n) as [m2 [p|e]]; [|done]. cbn [fst] in Hseek. destruct (n =? 0); [|done].
  destruct (remove_all_binlog_segments m2) as [m3 [u3|e3]] eqn:E3; apply remove_all_active in E3 as (_ & Hh3 & _);
    cbn [fst]; by rewrite Hh3.
Qed.

Lemma remove_segments_exists m segments removed m' r :
  (forall n name, (n, name) ∈ segments -> name <> binlog_path) ->
  remove_segments m segments removed = (m', r) -> m_files m' !! binlog_path = m_files m !! binlog_path.
Proof.
  revert m removed. induction segments as [|[n name] segments IH]; intros m removed Hn H; cbn [remove_segments] in H.
  - by injection H as <- <-.
  - unfold sys_remove in H. destruct (sys m) as [m1 [u|e]] eqn:E; apply sys_spec in E as (Hf & _ & _).
    + apply IH in H; [|intros; eapply Hn; by right]. rewrite H. simpl.
      rewrite lookup_delete_ne by (eapply Hn; by left). by rewrite Hf.
    + injection H as <- <-. by rewrite Hf.
Qed.

Lemma truncate_exists m n : is_Some (m_files m !! binlog_path) -> is_Some (m_files (m_truncate m n).1 !! binlog_path).
Proof.
  intros H. unfold m_truncate.
  assert (Hset : is_Some (m_files (set_len m n).1 !! binlog_path)).
  { unfold set_len, on_handle. destruct (m_handle m); [|done]. outcome m1 o.
    destruct o as [|k|e []]; simpl; rewrite ?lookup_insert_eq, ?Hf; eauto. }
  destruct (set_len m n) as [m1 [u|e]]; [|done]. cbn [fst] in Hset.
  assert (Hseek : is_Some (m_files (m_seek_start m1 n).1 !! binlog_path)).
  { unfold m_seek_start, m_seek, on_handle. destruct (m_handle m1); [|done]. call m2; simpl; by rewrite Hf. }
  destruct (m_seek_start m1 n) as [m2 [p|e]]; [|done]. cbn [fst] in Hseek. destruct (n =? 0); [|done].
  unfold remove_all_binlog_segments.
  destruct (list_binlog_segments m2) as [m3 [segments|e]] eqn:El; apply list_segments_spec' in El as (Hf & _ & _ & Hs).
  2: { cbn [fst]. by rewrite Hf. }
  destruct (remove_segments m3 segments false) as [m4 r4] eqn:Er. apply remove_segments_exists in Er.
  2: { intros k name Hin ->. by specialize (Hs k _ Hin). }
  rewrite Hf in Er. destruct r4 as [[]|e4]; cbn [fst]; try (by rewrite Er).
  call m5; cbn [fst]; by rewrite Hf0, Er.
Qed.

(** A directory without sealed segments. *)
Definition no_segments (fs : Files) : Prop :=
  forall name, is_Some (fs !! name) -> parse_binlog_segment_end_sequence (Utf8.from_utf8 name) = Ok None.

Lemma no_segments_listed fs : no_segments fs -> segment_names (hm_iter fs).*1 = Ok [].
Proof.
  intros H. assert (Hn : forall name, name ∈ (hm_iter fs).*1 -> is_Some (fs !! name)).
  { intros name Hin. apply list_elem_of_fmap in Hin as ([n b] & -> & Hin). rewrite hm_iter_perm in Hin.
    apply elem_of_map_to_list in Hin. eauto. }
  induction (hm_iter fs).*1 as [|name names IH]; [done|]. cbn [segment_names].
  rewrite (H name) by (apply Hn; by left). cbn [mbind result_bind]. rewrite IH; [done|]. intros; apply Hn. by right.
Qed.

Lemma no_segments_others m m' : others_kept m m' -> no_segments (m_files m) -> no_segments (m_files m').
Proof.
  intros Ho Hs name Hn. destruct (decide (name = binlog_path)) as [->|Hne]; [done|].
  rewrite Ho in Hn by done. by apply Hs.
Qed.

Lemma truncate_no_segments m0 m n :
  no_segments (m_files m0) -> others_kept m0 m -> others_kept m0 (m_truncate m n).1.
Proof.
  intros Hs H. destruct (decide (n = 0)) as [->|Hn]; [|by apply truncate_others]. unfold m_truncate.
  assert (Hset : others_kept m0 (set_len m 0).1).
  { unfold set_len, on_handle. destruct (m_handle m); [|done]. outcome m1 o.
    destruct o as [|k|e []]; cbn [fst]; [apply others_active..|]; by apply (others_files _ m). }
  destruct (set_len m 0) as [m1 [u|e]]; [|done]. cbn [fst] in Hset.
  pose proof (seek_others m0 m1 (fun _ => 0) Hset) as Hseek. fold (m_seek_start m1 0) in Hseek.
  destruct (m_seek_start m1 0) as [m2 [p|e]]; [|done]. cbn [fst Z.eqb] in *.
  unfold remove_all_binlog_segments, list_binlog_segments. call m3; [|by apply (others_files _ m2)].
  rewrite no_segments_listed.
  - change (merge_sort by_sequence []) with (@nil (Z * bytes)). cbn [remove_segments fst]. by apply (others_files _ m2).
  - apply (no_segments_others m0); [|done]. by apply (others_files _ m2).
Qed.

(** A failed append does not touch the sealed segments. *)
Definition rollback_safe (m : ManagedBinlogFile) : Prop := active_contents m <> [] \/ no_segments (m_files m).

Context {CRC : Crc32}.

(** An append that succeeds leaves every other file alone; so does one that
    fails on a file that is not empty, or when there is no segment. *)
Lemma append_keeps_others fuel m records policy m' r :
  match r with Ok _ => True | Err _ => rollback_safe m end ->
  append_binlog_records fuel m records policy = Some (m', r) -> others_kept m m'.
Proof.
  intros Hsafe Hrun. revert Hrun. eapply (append_records_preserves (others_kept m) (len (active_contents m)));
    [..|exact Hsafe|done|done].
  - intros. by apply write_others.
  - intros. by apply flush_others.
  - intros. by apply seek_others.
  - intros. by apply seek_others.
  - intros. by apply sync_others.
  - intros. by apply sync_others.
  - intros [Hne|Hs] t Ht; [|by apply truncate_no_segments].
    apply truncate_others; [|done]. destruct (active_contents m); [done|].
    rewrite len_cons. pose proof (len_nonneg l). lia.
Qed.

Lemma append_handle fuel m records policy m' r :
  is_Some (m_handle m) -> append_binlog_records fuel m records policy = Some (m', r) -> is_Some (m_handle m').
Proof.
  intros Hm Hrun. revert Hm Hrun.
  eapply (append_records_preserves (fun m => is_Some (m_handle m)) (len (active_contents m))) with (rolls_back := True);
    simpl; [..|by destruct r|done].
  - intros t b Ht. unfold m_write, on_handle. destruct (m_handle t) eqn:E; [|by destruct Ht].
    outcome m1 o. destruct o; cbn [fst]; [eauto|eauto|by rewrite Hh, E].
  - intros t Ht. unfold m_flush, on_handle. destruct (m_handle t) eqn:E; [|by destruct Ht].
    call m1; cbn [fst]; by rewrite Hh, E.
  - intros t Ht. apply seek_handle, Ht.
  - intros t p Ht. apply seek_handle, Ht.
  - intros t Ht. apply sync_handle, Ht.
  - intros t Ht. apply sync_handle, Ht.
  - intros _ t Ht. apply truncate_handle, Ht.
Qed.

(** The active file is not removed. *)
Lemma append_binlog_exists fuel m records policy m' r :
  is_Some (m_files m !! binlog_path) -> append_binlog_records fuel m records policy = Some (m', r) ->
  is_Some (m_files m' !! binlog_path).
Proof.
  set (P := fun m => is_Some (m_files m !! binlog_path)).
  assert (Hfiles : forall m m', m_files m' = m_files m -> P m -> P m') by (unfold P; by intros ? ? ->).
  assert (Hactive : forall m b, P (with_active m b)) by (intros; unfold P; simpl; rewrite lookup_insert_eq; eauto).
  eapply (append_records_preserves P (len (active_contents m))) with (rolls_back := True); simpl; [..|by destruct r|done].
  - intros t b Ht. unfold m_write, on_handle. destruct (m_handle t); [|done].
    outcome m1 o. destruct o; cbn [fst]; [exact (Hactive _ _)|exact (Hactive _ _)|by apply (Hfiles t)].
  - intros t Ht. unfold m_flush, on_handle. destruct (m_handle t); [|done]. apply (Hfiles t); [apply sys_files|done].
  - intros t Ht. unfold m_seek_end, m_seek, on_handle. destruct (m_handle t); [|done]. call m1; by apply (Hfiles t).
  - intros t p Ht. unfold m_seek_start, m_seek, on_handle. destruct (m_handle t); [|done]. call m1; by apply (Hfiles t).
  - intros t Ht. unfold m_sync, on_handle. destruct (m_handle t); [|done]. call m1; by apply (Hfiles t).
  - intros t Ht. unfold m_sync, on_handle. destruct (m_handle t); [|done]. call m1; by apply (Hfiles t).
  - intros _ t Ht. apply truncate_exists, Ht.
Qed.

Lemma seek_next m m' r : m_seek_end m = (m', r) -> (length (m_next m') <= length (m_next m))%nat.
Proof.
  unfold m_seek_end, m_seek, on_handle. destruct (m_handle m); [|by intros [= <- <-]]. unfold sys. outcome m1 o.
  destruct o; intros [= <- <-]; simpl; done.
Qed.

(** Every call consumes an outcome, so a write is interrupted finitely often. *)
Lemma managed_patience m b :
  let '(m', r) := m_write m b in
  (length (m_next m') <= length (m_next m))%nat /\
  match r with Err e => ie_interrupted e = true -> (length (m_next m') < length (m_next m))%nat | Ok _ => True end.
Proof.
  unfold m_write, on_handle. destruct (m_handle m); [|done]. outcome m1 o.
  destruct o as [|n|e applied]; [done|done|]. split; [done|]. intros _. apply Hl'. eauto.
Qed.

End Managed.
