(* ===== verification/SealSpec.v ===== *)
(** * SealSpec: sealing the active binlog never loses a committed batch

    Every state the directory goes through while a generation is sealed, and
    every state a failure leaves behind, holds the same batches. *)

From Stdlib Require Import ZArith Lia.
From Stdlib Require Import Strings.Byte.
From stdpp Require Import base gmap list strings numbers sorting.
From S2P Require Import Prelude Text Json JsonPath Value Shard Engine Store Persistence Model Codec CodecSpec BinlogFile BinlogIo Recovery ManagedBinlog HistorySpec ManagedSpec.

Open Scope Z_scope.

Section Seal.
Context {CRC : Crc32} {GZ : Gzip} {JN : JsonNumber} {SJ : SerdeJson} {HO : HashOrder}.

Lemma chain_snoc s cs e bs rs :
  chain s cs e -> encodes e bs rs -> bs <> [] -> chain s (cs ++ [mkChunk e bs rs]) (e + len bs).
Proof.
  intros Hc He Hne. induction Hc as [s|c cs e He0 Hne0 Hc IH]; simpl.
  - pose proof (chain_cons (mkChunk s bs rs) [] (s + len bs) He Hne) as H. apply H.
    unfold c_end. simpl. replace (s + len bs - 1 + 1) with (s + len bs) by lia. constructor.
  - constructor; [done|done|]. by apply IH.
Qed.

Lemma log_not_empty e bs rs : encodes e bs rs -> bs <> [] -> len (log rs) <> 0.
Proof.
  intros He Hne. inversion He as [|s0 b q bs0 rs0 Hs Hb Hq Hl He']; subst; [done|].
  change (log ((e, q) :: rs0)) with (frame (e, q) ++ log rs0). rewrite len_app, len_frame.
  pose proof (len_nonneg q). pose proof (len_nonneg (log rs0)). cbn [snd]. lia.
Qed.

Lemma binlog_segment_inj a b :
  0 < a <= U64_MAX -> 0 < b <= U64_MAX -> binlog_segment a = binlog_segment b -> a = b.
Proof.
  intros Ha Hb Heq. pose proof (segment_parses a Ha) as P. rewrite Heq, (segment_parses b Hb) in P. congruence.
Qed.

Section Directory.
Context (fs : Files) (s : Z) (cs : list chunk) (e : Z) (bs : list CommittedBatch) (rs : list (Z * bytes)).
Context (Hh : history_on fs s cs e bs rs []) (Hfile : fs !! binlog_path = Some (log rs)).
Context (Hne : bs <> []) (Hroom : len cs < MAX_BINLOG_SEGMENTS).

Let end_sequence : Z := e + len bs - 1.
Let segment : bytes := binlog_segment end_sequence.
Context (Hfree : fs !! segment = None).

(** The directory after the rename, and after the new file is created. *)
Definition renamed : Files := <[segment := log rs]> (delete binlog_path fs).
Definition succeeded : Files := <[binlog_path := []]> renamed.

Let c : chunk := mkChunk e bs rs.

Lemma sealed_bounds : 0 < e <= end_sequence /\ end_sequence <= U64_MAX.
Proof. apply (chunk_bounds c); [apply Hh|done]. Qed.

Lemma segment_not_active : segment <> binlog_path.
Proof.
  intros Heq. destruct sealed_bounds. assert (P := segment_parses end_sequence ltac:(lia)).
  fold segment in P. rewrite Heq in P. discriminate P.
Qed.

Lemma restored : <[binlog_path := log rs]> (delete segment renamed) = fs.
Proof.
  unfold renamed. rewrite delete_insert_id by (by rewrite lookup_delete_ne by (apply not_eq_sym, segment_not_active)).
  by rewrite insert_delete_eq, insert_id.
Qed.

Lemma renamed_lookup name :
  renamed !! name = if decide (name = segment) then Some (log rs)
                    else if decide (name = binlog_path) then None else fs !! name.
Proof.
  unfold renamed. destruct (decide (name = segment)) as [->|H1]; [by rewrite lookup_insert_eq|].
  rewrite lookup_insert_ne by done. destruct (decide (name = binlog_path)) as [->|H2];
    [by rewrite lookup_delete_eq|by rewrite lookup_delete_ne].
Qed.

Lemma sealed_elsewhere c' : c' ∈ cs -> binlog_segment (c_end c') <> segment /\ binlog_segment (c_end c') <> binlog_path.
Proof.
  intros Hin. destruct (chain_bounds _ _ _ c' (ho_chain _ _ _ _ _ _ _ Hh) Hin) as (_ & Hlt & B).
  destruct sealed_bounds. split.
  - intros Heq. apply binlog_segment_inj in Heq; lia.
  - intros Heq. pose proof (segment_parses _ B) as P. rewrite Heq in P. discriminate P.
Qed.

(** [fs'] holds the sealed generation and nothing in the active file. *)
Lemma sealed_history fs' :
  (fs' !! binlog_path = None \/ fs' !! binlog_path = Some []) ->
  (forall name, name <> binlog_path -> fs' !! name = renamed !! name) ->
  history_on fs' s (cs ++ [c]) (e + len bs) [] [] [].
Proof.
  intros Hact Hrest. destruct sealed_bounds as [B1 B2]. constructor.
  - apply Hh.
  - apply chain_snoc; [apply Hh|apply Hh|done].
  - constructor.
  - by left.
  - destruct Hact as [Ha|Ha]; [by right|by left].
  - intros c' Hin. apply elem_of_app in Hin as [Hin|Hin].
    + destruct (sealed_elsewhere c' Hin). rewrite Hrest by done. rewrite renamed_lookup, !decide_False by done.
      by apply Hh.
    + apply list_elem_of_singleton in Hin as ->. change (binlog_segment (c_end c)) with segment.
      rewrite Hrest by apply segment_not_active. by rewrite renamed_lookup, decide_True.
  - intros name Hsome. destruct (decide (name = binlog_path)) as [->|Hn]; [by left|].
    rewrite Hrest, renamed_lookup in Hsome by done.
    destruct (decide (name = segment)) as [->|Hs].
    + right. exists c. split; [apply elem_of_app; right; by apply list_elem_of_singleton|done].
    + rewrite decide_False in Hsome by done. destruct (ho_others _ _ _ _ _ _ _ Hh name Hsome) as [Hp|(c' & Hin & ->)];
        [by left|]. right. exists c'. split; [apply elem_of_app; by left|done].
  - rewrite len_app. change (len [c]) with 1. lia.
Qed.

Lemma renamed_history : history_on renamed s (cs ++ [c]) (e + len bs) [] [] [].
Proof.
  apply sealed_history; [left|done].
  rewrite renamed_lookup, decide_False by (apply not_eq_sym, segment_not_active). by rewrite decide_True.
Qed.

Lemma succeeded_history : history_on succeeded s (cs ++ [c]) (e + len bs) [] [] [].
Proof.
  apply sealed_history; [right; apply lookup_insert_eq|]. intros name Hn. by apply lookup_insert_ne.
Qed.

(** ** The operations *)

Lemma reopen_spec m m' r : reopen_active m = (m', r) ->
  m_files m' = m_files m /\ (r = Ok tt -> m_handle m' = Some (len (active_contents m))).
Proof.
  unfold reopen_active. destruct (sys m) as [m1 [u|e1]] eqn:E1; apply sys_spec in E1 as (Hf1 & _ & _);
    [|by intros [= <- <-]].
  destruct (m_files m1 !! binlog_path) as [b|] eqn:Eb; [|by intros [= <- <-]].
  destruct (sys m1) as [m2 [u2|e2]] eqn:E2; apply sys_spec in E2 as (Hf2 & _ & _); intros [= <- <-];
    (split; [simpl; congruence|]); [|done].
  intros _. simpl. unfold active_contents. rewrite <- Hf1. by rewrite Eb.
Qed.

Lemma restore_spec m e0 m' r :
  m_files m = renamed -> restore_segment_after_failed_seal m segment e0 = (m', r) ->
  (m_files m' = fs \/ m_files m' = renamed) /\
  match r with
  | Ok _ => False
  | Err (RotationUnchanged _) => m_files m' = fs /\ m_handle m' = Some (len (log rs))
  | Err (RotationIndeterminate _) => True
  end.
Proof.
  intros Hf. unfold restore_segment_after_failed_seal.
  assert (Hno : renamed !! binlog_path = None).
  { rewrite renamed_lookup, decide_False by (apply not_eq_sym, segment_not_active). by rewrite decide_True. }
  assert (Hseg : renamed !! segment = Some (log rs)) by (by rewrite renamed_lookup, decide_True).
  rewrite Hf, Hno. cbn [is_some]. unfold sys_rename.
  destruct (sys m) as [m1 [u|e1]] eqn:E1; apply sys_spec in E1 as (Hf1 & _ & _).
  2: { intros [= <- <-]. split; [right; congruence|done]. }
  rewrite Hf1, Hf, Hseg.
  set (m2 := with_files m1 (<[binlog_path := log rs]> (delete segment renamed))).
  assert (Hf2 : m_files m2 = fs) by apply restored. clearbody m2.
  destruct (sys m2) as [m3 [u3|e3]] eqn:E3; apply sys_spec in E3 as (Hf3 & _ & _).
  2: { intros [= <- <-]. split; [left; congruence|done]. }
  destruct (reopen_active m3) as [m4 r4] eqn:E4. apply reopen_spec in E4 as [Hf4 Hh4].
  intros [= <- <-]. split; [left; congruence|]. destruct r4 as [[]|e4]; [|done]. split; [congruence|].
  rewrite Hh4 by done. unfold active_contents. by rewrite Hf3, Hf2, Hfile.
Qed.

(** What sealing leaves behind. *)
Definition seal_outcome (m' : ManagedBinlogFile) (r : result BinlogRotationError Z) : Prop :=
  (m_files m' = fs \/ m_files m' = renamed \/ m_files m' = succeeded) /\
  match r with
  | Ok n => n = len (log rs) /\ m_files m' = succeeded /\ m_handle m' = Some 0
  | Err (RotationUnchanged _) => m_files m' = fs /\ is_Some (m_handle m')
  | Err (RotationIndeterminate _) => True
  end.

Lemma restore_outcome m e0 m' r :
  m_files m = renamed -> restore_segment_after_failed_seal m segment e0 = (m', r) -> seal_outcome m' r.
Proof.
  intros Hf H. apply restore_spec in H as [Hor Hr]; [|done]. split; [tauto|].
  destruct r as [n|[e1|e1]]; [done| |done]. destruct Hr as [-> ->]. eauto.
Qed.

Lemma install_outcome m m' r :
  m_files m = renamed -> install_successor m segment (len (log rs)) = (m', r) -> seal_outcome m' r.
Proof.
  intros Hf. unfold install_successor.
  destruct (sys m) as [m1 [u|e1]] eqn:E1; apply sys_spec in E1 as (Hf1 & _ & _);
    [|apply restore_outcome; congruence].
  assert (Hno : m_files m1 !! binlog_path = None).
  { rewrite Hf1, Hf, renamed_lookup, decide_False by (apply not_eq_sym, segment_not_active). by rewrite decide_True. }
  rewrite Hno. cbn [is_some]. set (m2 := with_disk (with_active m1 []) []).
  assert (Hf2 : m_files m2 = succeeded) by (unfold succeeded; simpl; by rewrite Hf1, Hf). clearbody m2.
  destruct (sys m2) as [m3 [u3|e3]] eqn:E3; apply sys_spec in E3 as (Hf3 & _ & _).
  2: { intros [= <- <-]. split; [right; right; simpl; congruence|done]. }
  destruct (sys m3) as [m4 [u4|e4]] eqn:E4; apply sys_spec in E4 as (Hf4 & _ & _).
  2: { intros [= <- <-]. split; [right; right; simpl; congruence|done]. }
  destruct (sys m4) as [m5 [u5|e5]] eqn:E5; apply sys_spec in E5 as (Hf5 & _ & _).
  2: { intros [= <- <-]. split; [right; right; simpl; congruence|done]. }
  intros [= <- <-]. split; [right; right; simpl; congruence|]. split_and!; [done|simpl; congruence|done].
Qed.

Lemma rename_outcome m m' r :
  m_files m = fs -> rename_active m segment (len (log rs)) = (m', r) -> seal_outcome m' r.
Proof.
  intros Hf. unfold rename_active, sys_rename.
  destruct (sys (with_handle m None)) as [m1 [u|e1]] eqn:E1; apply sys_spec in E1 as (Hf1 & _ & _); simpl in Hf1.
  - rewrite Hf1, Hf, Hfile. set (m2 := with_files m1 _).
    assert (Hf2 : m_files m2 = renamed) by done. clearbody m2.
    destruct (sys m2) as [m3 [u3|e3]] eqn:E3; apply sys_spec in E3 as (Hf3 & _ & _);
      [apply install_outcome; congruence|apply restore_outcome; congruence].
  - destruct (reopen_active m1) as [m2 [[]|e2]] eqn:E2; apply reopen_spec in E2 as [Hf2 Hh2]; intros [= <- <-].
    + split; [left; congruence|]. split; [congruence|]. rewrite Hh2 by done. eauto.
    + split; [left; congruence|done].
Qed.

Lemma seal_outcome_spec m m' r :
  m_files m = fs -> is_Some (m_handle m) -> m_seal_active m end_sequence = (m', r) -> seal_outcome m' r.
Proof.
  intros Hf [p Hp]. unfold m_seal_active. rewrite Hp.
  destruct (sys m) as [m1 [u|e1]] eqn:E1; apply sys_spec in E1 as (Hf1 & Hh1 & _).
  2: { intros [= <- <-]. split; [left; congruence|]. split; [congruence|]. rewrite Hh1, Hp. eauto. }
  assert (Ha : active_contents m1 = log rs) by (unfold active_contents; by rewrite Hf1, Hf, Hfile).
  pose proof (log_not_empty _ _ _ (ho_active _ _ _ _ _ _ _ Hh) Hne) as Hlen.
  rewrite Ha, (proj2 (Z.eqb_neq _ _) Hlen). destruct sealed_bounds as [B1 B2].
  rewrite (proj2 (Z.eqb_neq end_sequence 0)) by lia. fold segment. rewrite Hf1, Hf, Hfree. cbn [is_some].
  pose proof (sys_files m1) as Hfl. unfold m_flush, on_handle. rewrite Hh1, Hp.
  destruct (sys m1) as [m2 [u2|e2]] eqn:E2; apply sys_spec in E2 as (Hf2 & Hh2 & _).
  2: { intros [= <- <-]. split; [left; congruence|done]. }
  unfold m_sync, on_handle. rewrite Hh2, Hh1, Hp.
  destruct (sys m2) as [m3 [u3|e3]] eqn:E3; apply sys_spec in E3 as (Hf3 & _ & _).
  2: { intros [= <- <-]. split; [left; congruence|done]. }
  apply rename_outcome. simpl. congruence.
Qed.

End Directory.
End Seal.
