(* ===== verification/EntryEq.v ===== *)
(** * EntryEq: the source's equality of entries as a partial equivalence

    [PartialEq] on stored values is not equality: zeros of either sign are
    equal and a NaN differs from itself.  [same_entry], its reflexive closure,
    is the equivalence up to which replicas and rollbacks reproduce a state. *)

From Stdlib Require Import ZArith Lia.
From Stdlib Require Import Strings.Byte Floats.SpecFloat.
From stdpp Require Import base gmap list strings numbers.
From S2P Require Import Prelude Text Json JsonPath Value Shard Engine Store Model.

Open Scope Z_scope.

(** Equal, or equal for the source's [==] on entries. *)
Definition same_entry {JN : JsonNumber} (a b : option PersistentEntry) : Prop :=
  a = b \/ opt_entry_eqb a b = true.

(** A boolean relation that is symmetric and transitive. *)
Record per {A : Type} (eqb : A -> A -> bool) : Prop := {
  per_sym : forall a b, eqb a b = true -> eqb b a = true;
  per_trans : forall a b c, eqb a b = true -> eqb b c = true -> eqb a c = true
}.

Lemma per_spec {A} (eqb : A -> A -> bool) (R : A -> A -> Prop) :
  (forall a b, eqb a b = true <-> R a b) -> Symmetric R -> Transitive R -> per eqb.
Proof.
  intros H Hs Ht. constructor; intros *; rewrite !H; [apply Hs|apply Ht].
Qed.

Lemma list_eqb_per {A} (eqb : A -> A -> bool) : per eqb -> per (list_eqb eqb).
Proof.
  intros [Hs Ht]. constructor.
  - intros l. induction l as [|a l IH]; intros [|b k]; simpl; try done.
    intros [H1 H2]%andb_true_iff. by rewrite (Hs _ _ H1), (IH _ H2).
  - intros l. induction l as [|a l IH]; intros [|b k] [|c m]; simpl; try done.
    intros [H1 H2]%andb_true_iff [H3 H4]%andb_true_iff. by rewrite (Ht _ _ _ H1 H3), (IH _ _ H2 H4).
Qed.

Lemma bytes_eqb_per : per bytes_eqb.
Proof. apply (per_spec _ eq); [intros; apply bool_decide_eq_true| |]; [by intros ? ? ->|by intros ? ? ? -> ->]. Qed.

(** ** Floating-point payloads *)

Lemma SFeqb_cases a b :
  SFeqb a b = true <->
  (a = b /\ a <> S754_nan) \/ exists s t, a = S754_zero s /\ b = S754_zero t.
Proof.
  split.
  - unfold SFeqb. destruct a as [s|s| |s p e], b as [t|t| |t q f]; cbn; try done.
    all: try (destruct s; done). all: try (destruct t; done).
    + right. by eexists _, _.
    + destruct s, t; try done; by left.
    + intros H. left. assert (Hc : s = t /\ e = f /\ Pos.compare p q = Eq).
      { destruct s, t; try done; destruct (e ?= f)%Z eqn:E; try done; apply Z.compare_eq in E;
          unfold Pos.compare; by destruct (Pos.compare_cont Eq p q). }
      destruct Hc as (-> & -> & ->%Pos.compare_eq). done.
  - intros [[-> Hn]|(s & t & -> & ->)]; [|done]. unfold SFeqb.
    destruct b as [t|t| |t q f]; cbn; try done; destruct t; try done;
      rewrite Z.compare_refl; change (Pos.compare_cont Eq q q) with (Pos.compare q q);
      by rewrite Pos.compare_refl.
Qed.

Lemma F64_eqb_per : per F64.eqb.
Proof.
  apply (per_spec _ _ (fun a b => SFeqb_cases (F64.decode a) (F64.decode b))).
  - intros a b [[H1 H2]|(s & t & H1 & H2)]; [left; split; congruence|right; by exists t, s].
  - intros a b c [[H1 H2]|(s & t & H1 & H2)] [[H3 H4]|(s' & t' & H3 & H4)].
    + left. split; congruence.
    + right. exists s', t'. split; congruence.
    + right. exists s, t. split; congruence.
    + right. by exists s, t'.
Qed.

Lemma f32_eqb_per : per f32_eqb.
Proof.
  apply (per_spec _ (fun a b => (Z.land a 2147483647 <= 2139095040 /\ Z.land b 2147483647 <= 2139095040) /\
    (a = b \/ Z.land a 2147483647 = 0 /\ Z.land b 2147483647 = 0))).
  - intros a b. unfold f32_eqb.
    destruct (2139095040 <? Z.land a 2147483647) eqn:Ea, (2139095040 <? Z.land b 2147483647) eqn:Eb;
      cbn [orb]; rewrite ?Z.ltb_lt, ?Z.ltb_ge in *; try (split; [done|lia]).
    rewrite orb_true_iff, andb_true_iff, !Z.eqb_eq. tauto.
  - intros a b. intuition.
  - intros a b c [[H1 H2] H3] [[H4 H5] H6]. split; [done|].
    destruct H3 as [->|[H3 H3']]; [done|]. destruct H6 as [<-|[H6 H6']]; [by right|by right].
Qed.

Section Entries.
Context {JN : JsonNumber}.
(** [serde_json::Number] implements [Eq]. *)
Context (number_per : per number_eqb).

(** ** JSON documents *)

Lemma Value_nested (P : Value -> Prop) :
  P JNull -> (forall b, P (JBool b)) -> (forall n, P (JNumber n)) -> (forall s, P (JString s)) ->
  (forall l, Forall P l -> P (JArray l)) ->
  (forall m, Forall (fun kv => P kv.2) m -> P (JObject m)) -> forall v, P v.
Proof.
  intros H1 H2 H3 H4 H5 H6. fix IH 1. intros [|b|n|s|l|m].
  - exact H1. - apply H2. - apply H3. - apply H4.
  - apply H5. induction l as [|v l IHl]; constructor; [apply IH|exact IHl].
  - apply H6. induction m as [|[k v] m IHm]; constructor; [apply IH|exact IHm].
Qed.

Lemma value_eqb_sym v : forall u, value_eqb v u = true -> value_eqb u v = true.
Proof.
  induction v as [|b|n|s|l IH|m IH] using Value_nested; intros [|b'|n'|s'|k|k]; try done; simpl.
  - by destruct b, b'.
  - apply number_per.
  - apply bytes_eqb_per.
  - revert k. induction IH as [|v l Hv _ IH]; intros [|u k]; try done.
    intros [E1 E2]%andb_true_iff. by rewrite (Hv _ E1), (IH _ E2).
  - revert k. induction IH as [|[kx v] m Hv _ IH]; intros [|[ky u] k]; try done. cbn [snd] in Hv.
    intros [[E0 E1]%andb_true_iff E2]%andb_true_iff.
    by rewrite (per_sym _ bytes_eqb_per _ _ E0), (Hv _ E1), (IH _ E2).
Qed.

Lemma value_eqb_trans v :
  forall u w, value_eqb v u = true -> value_eqb u w = true -> value_eqb v w = true.
Proof.
  induction v as [|b|n|s|l IH|m IH] using Value_nested;
    intros [|b'|n'|s'|k|k] [|b2|n2|s2|k2|k2]; try done; simpl.
  - by destruct b, b'.
  - apply number_per.
  - apply bytes_eqb_per.
  - revert k k2. induction IH as [|v l Hv _ IH]; intros [|u k] [|u2 k2]; try done.
    intros [E1 E2]%andb_true_iff [E3 E4]%andb_true_iff. by rewrite (Hv _ _ E1 E3), (IH _ _ E2 E4).
  - revert k k2. induction IH as [|[kx v] m Hv _ IH]; intros [|[ky u] k] [|[kz u2] k2]; try done.
    cbn [snd] in Hv.
    intros [[E0 E1]%andb_true_iff E2]%andb_true_iff [[F0 F1]%andb_true_iff F2]%andb_true_iff.
    by rewrite (per_trans _ bytes_eqb_per _ _ _ E0 F0), (Hv _ _ E1 F1), (IH _ _ E2 F2).
Qed.

(** ** Entries *)

Lemma bool_decide_eq_per {A} `{EqDecision A} : per (fun a b : A => bool_decide (a = b)).
Proof.
  apply (per_spec _ eq); [intros; apply bool_decide_eq_true| |];
    [by intros ? ? ->|by intros ? ? ? -> ->].
Qed.

Lemma Zeqb_per : per Z.eqb.
Proof. apply (per_spec _ eq); [apply Z.eqb_eq| |]; [by intros ? ? ->|by intros ? ? ? -> ->]. Qed.

Lemma onyx_eqb_per : per onyx_eqb.
Proof.
  constructor.
  - intros [] []; simpl; try done.
    + apply bytes_eqb_per. + apply Zeqb_per. + apply F64_eqb_per.
    + apply list_eqb_per, bytes_eqb_per. + apply bool_decide_eq_per. + apply bool_decide_eq_per.
    + apply value_eqb_sym. + apply list_eqb_per, f32_eqb_per.
  - intros [] [] []; simpl; try done.
    + apply bytes_eqb_per. + apply Zeqb_per. + apply F64_eqb_per.
    + apply list_eqb_per, bytes_eqb_per. + apply bool_decide_eq_per. + apply bool_decide_eq_per.
    + apply value_eqb_trans. + apply list_eqb_per, f32_eqb_per.
Qed.

Lemma opt_entry_eqb_per : per opt_entry_eqb.
Proof.
  constructor.
  - intros [a|] [b|]; simpl; try done. unfold entry_eqb. intros [H1 H2]%andb_true_iff.
    by rewrite (per_sym _ onyx_eqb_per _ _ H1), (per_sym _ bool_decide_eq_per _ _ H2).
  - intros [a|] [b|] [c|]; simpl; try done. unfold entry_eqb.
    intros [H1 H2]%andb_true_iff [H3 H4]%andb_true_iff.
    by rewrite (per_trans _ onyx_eqb_per _ _ _ H1 H3), (per_trans _ bool_decide_eq_per _ _ _ H2 H4).
Qed.

Lemma same_entry_equivalence : Equivalence same_entry.
Proof.
  pose proof opt_entry_eqb_per as [Hs Ht]. constructor.
  - intros a. by left.
  - intros a b [->|H]; [by left|right; by apply Hs].
  - intros a b c [->|H1] [->|H2]; [by left|by right|by right|right; by apply (Ht _ b)].
Qed.

End Entries.

(** The instance used for concrete runs. *)
Lemma demo_numbers_per : per (@number_eqb demo_numbers).
Proof. exact F64_eqb_per. Qed.
