(* ===== verification/StoreSpec.v ===== *)
(** * StoreSpec: what the store operations do to the logical state

    The logical state at a time [T] is the persistent part (value and
    expiration) of the entries live at [T].  [spec] says of a program that it
    does not panic, keeps the representation and the stored values well formed,
    changes the logical state at most at given keys, and does not change it at
    all when its result is [quiet]. *)

From Stdlib Require Import ZArith Lia.
From Stdlib Require Import Strings.Byte.
From stdpp Require Import base gmap list strings numbers.
From S2P Require Import Prelude Text Json JsonPath Value Shard ShardSpec Engine EngineSpec EngineMulti EngineActs Store Model.

Open Scope Z_scope.

Section Logical.
Context {JN : JsonNumber} {SJ : SerdeJson} {HO : HashOrder}.

(** The logical content of a cell at time [T]. *)
Definition logical_cell (T : Z) (o : option DataEntry) : option PersistentEntry :=
  PersistentEntry_from <$> c_live T o.

Definition logical (T : Z) (m : gmap bytes DataEntry) : gmap bytes PersistentEntry :=
  PersistentEntry_from <$> live_map T m.

Lemma lookup_logical (T : Z) (m : gmap bytes DataEntry) (k : bytes) :
  logical T m !! k = logical_cell T (m !! k).
Proof. unfold logical, logical_cell. by rewrite lookup_fmap, lookup_live_map. Qed.

Lemma live_expired t T en : t <= T -> expired_by t en = true -> expired_by T en = true.
Proof. unfold expired_by. destruct (expires_at en); intros; prop_tests; [apply Z.leb_le; lia|done]. Qed.

(** Enforcing an expiration that is past is not observable. *)
Lemma logical_live t T o : t <= T -> logical_cell T (c_live t o) = logical_cell T o.
Proof.
  intros Ht. unfold logical_cell. destruct o as [en|]; [|done]. simpl.
  destruct (expired_by t en) eqn:E; simpl; [by rewrite (live_expired t T)|done].
Qed.

Lemma logical_not_live t T o : t <= T -> c_live t o = None -> logical_cell T o = None.
Proof. intros Ht Hl. by rewrite <- (logical_live t T o Ht), Hl. Qed.

Lemma logical_accessed T o t :
  logical_cell T ((fun e => set_accessed_field e t) <$> o) = logical_cell T o.
Proof.
  unfold logical_cell. destruct o as [en|]; [|done]. simpl.
  unfold expired_by. simpl. by destruct (match expires_at en with Some _ => _ | None => _ end).
Qed.

(** ** Well-formed values *)

Definition value_ok (v : OnyxValue) : Prop :=
  match v with
  | Int n => I64_MIN <= n <= I64_MAX
  | VList l => l <> []
  | Hash h => h <> ∅
  | VSet s => s <> ∅
  | Json j => wf_value j
  | Blob _ | Float _ | Vector _ => True
  end.

Definition cell_ok (o : option DataEntry) : Prop :=
  match o with Some e => value_ok (value e) | None => True end.

Definition values_ok (m : gmap bytes DataEntry) : Prop := forall k, cell_ok (m !! k).

Lemma values_ok_set_cell k o m : values_ok m -> cell_ok o -> values_ok (set_cell k o m).
Proof.
  intros Hm Ho k'. destruct (decide (k' = k)) as [->|Hne].
  - by rewrite lookup_set_cell_eq.
  - by rewrite lookup_set_cell_ne.
Qed.

Lemma cell_ok_live t o : cell_ok o -> cell_ok (c_live t o).
Proof. destruct o as [e|]; simpl; [|done]. by destruct (expired_by t e). Qed.

(** ** Specifications of programs *)

Record good_store (st : ShardedStore) : Prop := {
  gs_engine : engine_ok (engine st);
  gs_values : values_ok (dataset (engine st))
}.

Definition same_limits (st st' : ShardedStore) : Prop :=
  maxmemory_bytes st' = maxmemory_bytes st /\ maxmemory_policy st' = maxmemory_policy st.

(** The outcome of a program on [st]. *)
Record outcome {A : Type} (T : Z) (K : gset bytes) (quiet : A -> Prop) (st st' : ShardedStore) (a : A)
  : Prop := {
  oc_good : good_store st';
  oc_limits : same_limits st st';
  oc_frame : forall k, k ∉ K ->
    logical_cell T (dataset (engine st') !! k) = logical_cell T (dataset (engine st) !! k);
  oc_quiet : quiet a -> logical T (dataset (engine st')) = logical T (dataset (engine st))
}.

Definition spec {A : Type} (T : Z) (K : gset bytes) (quiet : A -> Prop) (p : prog A) : Prop :=
  forall st, good_store st -> exists st' a, p st = Some (st', a) /\ outcome T K quiet st st' a.

Lemma logical_ext (T : Z) (m m' : gmap bytes DataEntry) :
  (forall k, logical_cell T (m' !! k) = logical_cell T (m !! k)) -> logical T m' = logical T m.
Proof. intros H. apply map_eq. intros k. by rewrite !lookup_logical. Qed.

Lemma spec_ret {A} T K quiet (a : A) : spec T K quiet (mret a).
Proof. intros st Hg. exists st, a. split; [done|]. by constructor. Qed.

(** Post-processing a result. *)
Lemma spec_map {A B} T K K' (quiet : A -> Prop) (quiet' : B -> Prop) (p : prog A) (g : A -> B) :
  spec T K quiet p -> K ⊆ K' -> (forall a, quiet' (g a) -> quiet a) ->
  spec T K' quiet' (a ← p; mret (g a)).
Proof.
  intros Hp HK Hq st Hg. destruct (Hp st Hg) as (st' & a & Heq & [H1 H2 H3 H4]).
  exists st', (g a). split; [unfold mbind, prog_bind; by rewrite Heq|].
  constructor; [done|done| |auto]. intros k Hk. apply H3. set_solver.
Qed.

(** A program that never changes the logical state, followed by another one. *)
Lemma spec_bind {A B} T K (quiet : B -> Prop) (p : prog A) (f : A -> prog B) :
  spec T ∅ (fun _ => True) p -> (forall a, spec T K quiet (f a)) -> spec T K quiet (p ≫= f).
Proof.
  intros Hp Hf st Hg. destruct (Hp st Hg) as (st1 & a & Heq & [G1 L1 F1 Q1]).
  destruct (Hf a st1 G1) as (st2 & b & Heq2 & [G2 L2 F2 Q2]).
  exists st2, b. split; [unfold mbind, prog_bind; by rewrite Heq|].
  constructor; [done| | |].
  - destruct L1, L2. split; congruence.
  - intros k Hk. rewrite F2 by done. apply F1. set_solver.
  - intros Hq. rewrite Q2 by done. by apply Q1.
Qed.

Lemma spec_weaken {A} T K K' (quiet quiet' : A -> Prop) (p : prog A) :
  spec T K quiet p -> K ⊆ K' -> (forall a, quiet' a -> quiet a) -> spec T K' quiet' p.
Proof.
  intros Hp HK Hq st Hg. destruct (Hp st Hg) as (st' & a & Heq & [H1 H2 H3 H4]).
  exists st', a. split; [done|]. constructor; [done|done| |auto].
  intros k Hk. apply H3. set_solver.
Qed.

(** ** Cell operations as programs *)

(** What a cell operation must satisfy. *)
Definition cell_spec {A} (T : Z) (quiet : A -> Prop) (c : cell A) : Prop :=
  forall o, cell_ok o ->
    cell_ok (c o).1 /\ (quiet (c o).2 -> logical_cell T (c o).1 = logical_cell T o).

Lemma outcome_cell {A} T k (quiet : A -> Prop) st e' o' a :
  good_store st -> engine_ok e' -> dataset e' = set_cell k o' (dataset (engine st)) ->
  cell_ok o' -> (quiet a -> logical_cell T o' = logical_cell T (dataset (engine st) !! k)) ->
  outcome T {[k]} quiet st (with_engine st e') a.
Proof.
  intros Hg Hok Hd Hco Hq. constructor.
  - constructor; [done|]. simpl. rewrite Hd. apply values_ok_set_cell; [apply Hg|done].
  - done.
  - intros k' Hk'. simpl. rewrite Hd, lookup_set_cell_ne by set_solver. done.
  - intros Ha. apply logical_ext. intros k'. simpl. rewrite Hd.
    destruct (decide (k' = k)) as [->|Hne].
    + rewrite lookup_set_cell_eq. auto.
    + by rewrite lookup_set_cell_ne.
Qed.

Lemma spec_on_engine {A} T k (quiet : A -> Prop) f (c : cell A) :
  engine_acts k f c -> cell_spec T quiet c -> spec T {[k]} quiet (on_engine f).
Proof.
  intros Ha Hc st Hg. destruct (Ha (engine st) (gs_engine st Hg)) as (Hr & Hd & Hok).
  unfold on_engine. destruct (f (engine st)) as [e' r]. cbn [fst snd] in *.
  eexists _, _. split; [done|].
  destruct (Hc (dataset (engine st) !! k) (gs_values st Hg k)) as [H1 H2].
  eapply outcome_cell; eauto. intros Hq. apply H2. congruence.
Qed.

(** The [expect] of an upsert never fails. *)
Lemma spec_on_engine_expect {A} T k (quiet : A -> Prop) f (c : cell (option A)) :
  engine_acts k f c -> (forall o, is_Some (c o).2) ->
  cell_spec T (fun r => match r with Some a => quiet a | None => True end) c ->
  spec T {[k]} quiet (on_engine_expect f).
Proof.
  intros Ha Hs Hc st Hg. destruct (Ha (engine st) (gs_engine st Hg)) as (Hr & Hd & Hok).
  unfold on_engine_expect. destruct (f (engine st)) as [e' r]. cbn [fst snd] in *. subst r.
  destruct (Hc (dataset (engine st) !! k) (gs_values st Hg k)) as [H1 H2].
  destruct (Hs (dataset (engine st) !! k)) as [a Ea]. rewrite Ea in *.
  eexists _, _. split; [done|]. eapply outcome_cell; eauto.
Qed.

(** Reads leave the logical state alone. *)
Lemma spec_read_only {A} T k f (c : cell A) :
  engine_acts k f c -> cell_spec T (fun _ => True) c -> spec T ∅ (fun _ => True) (on_engine f).
Proof.
  intros Ha Hc st Hg. destruct (spec_on_engine T k _ f c Ha Hc st Hg) as (st' & a & Heq & [G L F Q]).
  exists st', a. split; [done|]. constructor; [done|done| |done].
  intros k' _. pose proof (Q I) as HQ. apply (f_equal (fun m => m !! k')) in HQ.
  by rewrite !lookup_logical in HQ.
Qed.

Section Clocked.
Context (clk : clock) (T : Z) (Hclk : clock_before clk T).

Lemma cs_get : cell_spec T (fun _ => True) (c_get clk).
Proof.
  intros o Ho. unfold c_get. cbn [fst snd]. split.
  - pose proof (cell_ok_live (clk 0%nat) o Ho) as H. by destruct (c_live (clk 0%nat) o).
  - intros _. rewrite logical_accessed. apply logical_live, Hclk.
Qed.

Lemma cs_read {R} (f : DataEntry -> R) : cell_spec T (fun _ => True) (c_read clk f).
Proof. intros o Ho. apply (cs_get o Ho). Qed.

Lemma cs_peek : cell_spec T (fun _ => True) (c_peek clk).
Proof. intros o Ho. split; [by apply cell_ok_live|]. intros _. apply logical_live, Hclk. Qed.

Lemma cs_delete : cell_spec T (fun b => b = false) (c_delete clk).
Proof.
  intros o Ho. split; [done|]. unfold c_delete. cbn [fst snd].
  destruct (c_live (clk 0%nat) o) eqn:E; [done|]. intros _. symmetry.
  apply (logical_not_live (clk 0%nat)); [apply Hclk|done].
Qed.

Lemma cs_set v x : value_ok v -> cell_spec T (fun _ => False) (c_set clk v x).
Proof.
  intros Hv o Ho. split; [|done]. unfold c_set.
  by destruct (match x with Some expiry => _ | None => _ end).
Qed.

Lemma cs_set_conditional v x c :
  value_ok v -> cell_spec T (fun b => b = false) (c_set_conditional clk v x c).
Proof.
  intros Hv o Ho. unfold c_set_conditional.
  destruct (match c with Some true => _ | _ => _ end); cbn [fst snd]; [done|].
  split; [by apply cell_ok_live|]. intros _. apply logical_live, Hclk.
Qed.

Lemma cs_insert_if_absent e :
  value_ok (value e) -> cell_spec T (fun b => b = false) (c_insert_if_absent clk e).
Proof.
  intros Hv o Ho. unfold c_insert_if_absent.
  pose proof (cell_ok_live (clk 0%nat) o Ho) as Hl.
  pose proof (logical_live (clk 0%nat) T o (Hclk 0%nat)) as Hlog.
  destruct (c_live (clk 0%nat) o); cbn [fst snd]; done.
Qed.

Lemma cs_set_expiry t req : cell_spec T (fun b => b = false) (c_set_expiry clk t req).
Proof.
  intros o Ho. unfold c_set_expiry. pose proof (cell_ok_live (clk 0%nat) o Ho) as Hl.
  pose proof (logical_live (clk 0%nat) T o (Hclk 0%nat)) as Hlog.
  destruct (c_live (clk 0%nat) o) as [e|]; [|done].
  destruct (match req with Some required => _ | None => _ end); [done|].
  destruct (t <=? clk 0%nat); [|done]. cbn [fst snd]. split; [done|].
  destruct (c_live (clk 1%nat) (Some e)) eqn:E; [done|]. intros _. rewrite <- Hlog. symmetry.
  apply (logical_not_live (clk 1%nat)); [apply Hclk|done].
Qed.

(** Updates: the closure keeps values well formed, and a quiet result means
    that it returned the value it was given. *)
Lemma cs_update_action {R} (quiet : R -> Prop) (f : OnyxValue -> OnyxValue * EntryMutation R) :
  (forall v, value_ok v -> match (f v).2 with
    | Keep r => value_ok (f v).1 /\ (quiet r -> (f v).1 = v)
    | Delete r => ~ quiet r end) ->
  cell_spec T (fun r => match r with Some a => quiet a | None => True end) (c_update_action clk f).
Proof.
  intros Hf o Ho. unfold c_update_action.
  pose proof (cell_ok_live (clk 0%nat) o Ho) as Hl.
  pose proof (logical_live (clk 0%nat) T o (Hclk 0%nat)) as Hlog.
  destruct (c_live (clk 0%nat) o) as [e|]; [|done]. simpl in Hl. specialize (Hf (value e) Hl).
  destruct (f (value e)) as [v [r|r]]; cbn [fst snd] in *; [|done].
  destruct Hf as [Hv Hq]. split; [done|]. intros Hr. rewrite (Hq Hr), <- Hlog.
  change (set_value_field (set_accessed_field e (clk 0%nat)) (value e))
    with (set_accessed_field e (clk 0%nat)).
  apply (logical_accessed T (Some e)).
Qed.

Lemma cs_update {R} (quiet : R -> Prop) (f : OnyxValue -> OnyxValue * R) :
  (forall v, value_ok v -> value_ok (f v).1 /\ (quiet (f v).2 -> (f v).1 = v)) ->
  cell_spec T (fun r => match r with Some a => quiet a | None => True end) (c_update clk f).
Proof.
  intros Hf. apply (cs_update_action quiet). intros v Hv. specialize (Hf v Hv).
  by destruct (f v) as [v' r].
Qed.

Lemma cs_upsert_entry {R} (quiet : R -> Prop) dflt (f : DataEntry -> bool -> DataEntry * R) :
  (forall e, value_ok (value e) -> value_ok (value (f e true).1) /\
     (quiet (f e true).2 -> PersistentEntry_from (f e true).1 = PersistentEntry_from e)) ->
  (forall e, value e = dflt -> value_ok (value (f e false).1) /\ ~ quiet (f e false).2) ->
  cell_spec T (fun r => match r with Some a => quiet a | None => True end)
    (c_upsert_entry clk dflt f).
Proof.
  intros Hf Hd o Ho. unfold c_upsert_entry.
  pose proof (cell_ok_live (clk 0%nat) o Ho) as Hl.
  pose proof (logical_live (clk 0%nat) T o (Hclk 0%nat)) as Hlog.
  destruct (c_live (clk 0%nat) o) as [e|].
  - specialize (Hf (set_accessed_field e (clk 0%nat)) Hl).
    destruct (f (set_accessed_field e (clk 0%nat)) true) as [e' r]. cbn [fst snd] in *.
    destruct Hf as [Hv Hq]. split; [done|]. intros Hr. rewrite <- Hlog.
    rewrite <- (logical_accessed T (Some e) (clk 0%nat)).
    specialize (Hq Hr). unfold PersistentEntry_from in Hq. injection Hq as H1 H2.
    unfold logical_cell. simpl. unfold expired_by. simpl. rewrite H2. simpl.
    destruct (match expires_at e with Some _ => _ | None => _ end); [done|].
    simpl. unfold PersistentEntry_from. simpl. by rewrite H1, H2.
  - specialize (Hd (set_accessed_field (mkEntry JN dflt None (clk 0%nat) (clk 0%nat)) (clk 0%nat)) eq_refl).
    destruct (f (set_accessed_field (mkEntry JN dflt None (clk 0%nat) (clk 0%nat)) (clk 0%nat)) false)
      as [e' r]. cbn [fst snd] in *. by destruct Hd.
Qed.

Lemma cs_upsert {R} (quiet : R -> Prop) dflt (f : OnyxValue -> OnyxValue * R) :
  (forall v, value_ok v -> value_ok (f v).1 /\ (quiet (f v).2 -> (f v).1 = v)) ->
  value_ok (f dflt).1 -> ~ quiet (f dflt).2 ->
  cell_spec T (fun r => match r with Some a => quiet a | None => True end) (c_upsert clk dflt f).
Proof.
  intros Hf H1 H2. apply (cs_upsert_entry quiet).
  - intros e He. specialize (Hf (value e) He). destruct (f (value e)) as [v r].
    cbn [fst snd value set_value_field] in *. destruct Hf as [Hv Hq]. split; [done|].
    intros Hr. unfold PersistentEntry_from. simpl. by rewrite (Hq Hr).
  - intros e ->. destruct (f dflt) as [v r]. done.
Qed.

Lemma upsert_is_some {R} dflt (f : DataEntry -> bool -> DataEntry * R) o :
  is_Some (c_upsert_entry clk dflt f o).2.
Proof.
  unfold c_upsert_entry. destruct (c_live (clk 0%nat) o) as [e|];
    destruct (f _ _) as [? ?]; eauto.
Qed.

End Clocked.

End Logical.
