(* ===== verification/ModelSpec.v ===== *)
(** * ModelSpec: a derived batch reproduces the mutation it was derived from *)

From Stdlib Require Import ZArith Lia.
From Stdlib Require Import Strings.Byte.
From stdpp Require Import base gmap list strings numbers.
From S2P Require Import Prelude Text Json JsonPath Value Shard ShardSpec Engine EngineSpec EngineMulti EngineActs Store Model EntryEq StoreSpec.

Open Scope Z_scope.

Section Batches.
Context {JN : JsonNumber} {SJ : SerdeJson} {HO : HashOrder}.

(** The logical cell of a key of a store. *)
Definition cell_at (T : Z) (st : ShardedStore) (k : bytes) : option PersistentEntry :=
  logical_cell T (dataset (engine st) !! k).

Definition live_persistent (T : Z) (p : PersistentEntry) : option PersistentEntry :=
  match p_expires_at p with
  | Some x => if x <=? T then None else Some p
  | None => Some p
  end.

Lemma logical_cell_some T en : logical_cell T (Some en) = live_persistent T (PersistentEntry_from en).
Proof.
  unfold logical_cell, live_persistent. simpl. unfold expired_by. simpl.
  destruct (expires_at en) as [x|]; [|done]. by destruct (x <=? T).
Qed.

(** What an effect does to the logical cell of [k]. *)
Definition effect_on (T : Z) (k : bytes) (c : option PersistentEntry) (effect : CommittedEffect)
  : option PersistentEntry :=
  match effect with
  | Put key p => if bool_decide (key = k) then live_persistent T p else c
  | DeleteKey key => if bool_decide (key = k) then None else c
  end.

(** ** Applying *)

Lemma apply_effect_spec T clk effect st :
  clock_before clk T -> engine_ok (engine st) ->
  exists st', apply_effect clk effect st = Some (st', tt) /\ engine_ok (engine st') /\
    same_limits st st' /\ forall k, cell_at T st' k = effect_on T k (cell_at T st k) effect.
Proof.
  intros Hclk Hok. destruct effect as [key p|key]; cbn [apply_effect effect_on].
  - pose proof (apply_entry_acts (tick 1 clk) key (into_data_entry (clk 0%nat) p) (engine st) Hok)
      as (_ & Hd & Hok').
    unfold mbind, prog_bind, store_apply_entry, on_engine.
    destruct (engine_apply_entry _ _ _ _) as [e' r]. cbn [fst] in *.
    eexists. split; [done|]. split; [done|]. split; [done|]. intros k. unfold cell_at. simpl.
    rewrite Hd. case_bool_decide as Hk.
    + subst k. rewrite lookup_set_cell_eq. unfold c_apply.
      destruct (expired_by (tick 1 clk 1%nat) (into_data_entry (clk 0%nat) p)) eqn:E; cbn [fst].
      * apply (live_expired _ T) in E; [|apply Hclk]. unfold expired_by in E. simpl in E.
        unfold live_persistent. destruct (p_expires_at p); [|done]. by rewrite E.
      * rewrite logical_cell_some. by destruct p.
    + by rewrite lookup_set_cell_ne by done.
  - pose proof (delete_acts clk key (engine st) Hok) as (_ & Hd & Hok').
    unfold mbind, prog_bind, delete_bytes, on_engine.
    destruct (engine_delete _ _ _) as [e' r]. cbn [fst] in *.
    eexists. split; [done|]. split; [done|]. split; [done|]. intros k. unfold cell_at. simpl.
    rewrite Hd. case_bool_decide as Hk.
    + subst k. by rewrite lookup_set_cell_eq.
    + by rewrite lookup_set_cell_ne by done.
Qed.

Lemma apply_effects_spec T clk l st :
  clock_before clk T -> engine_ok (engine st) ->
  exists st', apply_effects clk l st = Some (st', tt) /\ engine_ok (engine st') /\
    same_limits st st' /\ forall k, cell_at T st' k = fold_left (effect_on T k) l (cell_at T st k).
Proof.
  revert clk st. induction l as [|effect l IH]; intros clk st Hclk Hok; cbn [apply_effects fold_left].
  - exists st. done.
  - destruct (apply_effect_spec T clk effect st Hclk Hok) as (st1 & H1 & Hok1 & [L1 L1'] & Hc1).
    destruct (IH (tick EFFECT_TICKS clk) st1) as (st2 & H2 & Hok2 & [L2 L2'] & Hc2);
      [by apply clock_before_tick|done|].
    exists st2. unfold mbind, prog_bind. rewrite H1. split; [done|]. split; [done|].
    split; [split; congruence|]. intros k. by rewrite Hc2, Hc1.
Qed.

(** ** Well-formed values *)

(** The values stay well formed. *)
Definition keeps_values (st st' : ShardedStore) : Prop :=
  values_ok (dataset (engine st)) -> values_ok (dataset (engine st')).

Definition effect_value_ok (effect : CommittedEffect) : Prop :=
  match effect with Put _ p => value_ok (p_value p) | DeleteKey _ => True end.

Lemma apply_effect_values clk effect st st' u :
  engine_ok (engine st) -> apply_effect clk effect st = Some (st', u) -> effect_value_ok effect -> keeps_values st st'.
Proof.
  intros Hok Hrun He Hv. destruct effect as [key p|key]; cbn [apply_effect] in Hrun.
  - pose proof (apply_entry_acts (tick 1 clk) key (into_data_entry (clk 0%nat) p) (engine st) Hok) as (_ & Hd & _).
    unfold mbind, prog_bind, store_apply_entry, on_engine in Hrun.
    destruct (engine_apply_entry _ _ _ _) as [e' r]. cbn [fst] in *. injection Hrun as <- _. cbn [engine with_engine].
    rewrite Hd. apply values_ok_set_cell; [done|]. unfold c_apply. by destruct (expired_by _ _); cbn [fst].
  - pose proof (delete_acts clk key (engine st) Hok) as (_ & Hd & _).
    unfold mbind, prog_bind, delete_bytes, on_engine in Hrun.
    destruct (engine_delete _ _ _) as [e' r]. cbn [fst] in *. injection Hrun as <- _. cbn [engine with_engine].
    rewrite Hd. by apply values_ok_set_cell.
Qed.

Lemma apply_effects_values T clk l st st' u :
  clock_before clk T -> engine_ok (engine st) -> apply_effects clk l st = Some (st', u) -> Forall effect_value_ok l ->
  keeps_values st st'.
Proof.
  revert clk st. induction l as [|effect l IH]; intros clk st Hclk Hok Hrun Hl; cbn [apply_effects] in Hrun.
  - injection Hrun as <- _. by intros ?.
  - destruct (apply_effect_spec T clk effect st Hclk Hok) as (st1 & H1 & Hok1 & _).
    unfold mbind, prog_bind in Hrun. rewrite H1 in Hrun. apply list.Forall_cons in Hl as [He Hl]. intros Hv.
    eapply IH; [|exact Hok1|exact Hrun|done|]; [by apply clock_before_tick|].
    exact (apply_effect_values clk effect st st1 tt Hok H1 He Hv).
Qed.

(** ** Runs that are not observable *)

Lemma values_ok_sub (m m' : gmap bytes DataEntry) : m' ⊆ m -> values_ok m -> values_ok m'.
Proof.
  intros Hs Hm k. destruct (m' !! k) as [en|] eqn:E; [|done].
  specialize (Hm k). by rewrite (lookup_weaken _ _ _ _ E Hs) in Hm.
Qed.

(** A run that is not observable at [T]: it may only have enforced expirations. *)
Record quiet_run (T : Z) (st st' : ShardedStore) : Prop := {
  qr_ok : engine_ok (engine st');
  qr_wf : engine_wf (engine st) -> engine_wf (engine st');
  qr_limits : same_limits st st';
  qr_cells : forall k, cell_at T st' k = cell_at T st k;
  qr_values : keeps_values st st'
}.

Lemma quiet_refl T st : engine_ok (engine st) -> quiet_run T st st.
Proof. constructor; try done. by intros ?. Qed.

Lemma quiet_trans T st1 st2 st3 : quiet_run T st1 st2 -> quiet_run T st2 st3 -> quiet_run T st1 st3.
Proof.
  intros [O1 W1 [L1 L1'] C1 V1] [O2 W2 [L2 L2'] C2 V2]. constructor; [done|auto| | |].
  - split; congruence.
  - intros k. by rewrite C2.
  - intros Hv. by apply V2, V1.
Qed.

Lemma peek_quiet T clk key st :
  clock_before clk T -> engine_ok (engine st) ->
  exists st' o, on_engine (fun e => engine_peek clk e key) st = Some (st', o) /\
    quiet_run T st st' /\ logical_cell T o = cell_at T st key /\
    (values_ok (dataset (engine st)) -> cell_ok o).
Proof.
  intros Hclk Hok. pose proof (peek_acts clk key (engine st) Hok) as (Hr & Hd & Hok').
  pose proof (peek_refines clk key (engine st)) as Hwf. cbv beta in Hwf.
  unfold on_engine. destruct (engine_peek clk (engine st) key) as [e' o]. cbn [fst snd] in *.
  exists (with_engine st e'), o. split; [done|]. unfold c_peek in *. cbn [fst snd] in *.
  assert (Hl : logical_cell T (c_live (clk 0%nat) (dataset (engine st) !! key)) = cell_at T st key)
    by (apply logical_live, Hclk).
  split; [|split; [by rewrite Hr|intros Hv; rewrite Hr; apply cell_ok_live, Hv]].
  constructor; [done| |done| |].
  - intros Hw. apply (Hwf Hw). clear Hwf. pose proof (ewf_fits _ Hw) as Hf.
    rewrite footprint_set_cell. destruct (dataset (engine st) !! key) as [en|]; simpl; [|lia].
    pose proof (approx_entry_size_bounds key en).
    destruct (expired_by (clk 0%nat) en); simpl; lia.
  - intros k. unfold cell_at. simpl. rewrite Hd. destruct (decide (k = key)) as [->|Hne].
    + by rewrite lookup_set_cell_eq.
    + by rewrite lookup_set_cell_ne.
  - intros Hv. simpl. rewrite Hd. apply values_ok_set_cell; [done|]. apply cell_ok_live, Hv.
Qed.

(** ** Deriving *)

Definition previous_of (before : gmap bytes (option DataEntry)) (k : bytes) : option PersistentEntry :=
  PersistentEntry_from <$> (match before !! k with Some o => o | None => None end).

(** The effects the second loop emits, from what it saw of each key. *)
Definition emitted (before : gmap bytes (option DataEntry)) (deleted : gset bytes)
    (seen : list (bytes * option DataEntry)) : list CommittedEffect :=
  concat (map (fun kc : bytes * option DataEntry =>
    key_effect (previous_of before kc.1) (PersistentEntry_from <$> kc.2)
      (bool_decide (kc.1 ∈ deleted)) kc.1) seen).

Lemma key_effects_spec (T : Z) (clk : clock) (keys : list bytes)
    (before : gmap bytes (option DataEntry)) (deleted : gset bytes) (st : ShardedStore) :
  clock_before clk T -> engine_ok (engine st) ->
  exists st' seen, key_effects clk keys before deleted st = Some (st', emitted before deleted seen) /\
    seen.*1 = keys /\ quiet_run T st st' /\
    (forall k o, (k, o) ∈ seen -> logical_cell T o = cell_at T st k).
Proof.
  revert clk st. induction keys as [|key rest IH]; intros clk st Hclk Hok; cbn [key_effects].
  - exists st, []. split; [done|]. split; [done|]. split; [by apply quiet_refl|].
    intros k o Hin. by apply not_elem_of_nil in Hin.
  - destruct (peek_quiet T clk key st Hclk Hok) as (st1 & cur & H1 & Q1 & Hr & _).
    unfold peek_entry. rewrite (bind_run _ _ _ _ _ H1).
    destruct (IH (tick 1 clk) st1) as (st2 & seen & H2 & Hk & Q2 & Hs);
      [by apply clock_before_tick|apply Q1|].
    exists st2, ((key, cur) :: seen). rewrite (bind_run _ _ _ _ _ H2).
    split; [done|]. split; [rewrite fmap_cons; cbn [fst]; by rewrite Hk|].
    split; [by eapply quiet_trans|]. intros k o Hin.
    apply elem_of_cons in Hin as [[= -> ->]|Hin]; [done|].
    rewrite (Hs k o Hin). apply (qr_cells _ _ _ Q1).
Qed.

(** Effects on other keys do not matter. *)
Lemma fold_effects_other T k l c :
  (forall eff, eff ∈ l -> match eff with Put key _ | DeleteKey key => key <> k end) ->
  fold_left (effect_on T k) l c = c.
Proof.
  revert c. induction l as [|eff l IH]; intros c Hl; cbn [fold_left]; [done|].
  rewrite IH by (intros e He; apply Hl; by right). specialize (Hl eff ltac:(by left)).
  destruct eff; simpl; by rewrite bool_decide_eq_false_2.
Qed.

Lemma key_effect_key p c e key eff :
  eff ∈ key_effect p c e key -> match eff with Put k _ | DeleteKey k => k = key end.
Proof.
  unfold key_effect. destruct (_ && _); [by intros ?%not_elem_of_nil|].
  destruct c as [x|]; [intros ->%list_elem_of_singleton; done|].
  destruct e; [by intros ?%not_elem_of_nil|]. by intros ->%list_elem_of_singleton.
Qed.

Lemma emitted_key before deleted seen eff :
  eff ∈ emitted before deleted seen -> match eff with Put k _ | DeleteKey k => k ∈ seen.*1 end.
Proof.
  unfold emitted. rewrite list_elem_of_In, in_concat. intros (l & Hl & Heff).
  apply in_map_iff in Hl as ([k o] & <- & Hin). apply list_elem_of_In, key_effect_key in Heff.
  apply list_elem_of_In in Hin. destruct eff; subst;
    (apply list_elem_of_fmap; by exists (k, o)).
Qed.

(** The last word on a key of the second loop. *)
Lemma fold_emitted (T : Z) (before : gmap bytes (option DataEntry)) (deleted : gset bytes)
    (seen : list (bytes * option DataEntry)) (k : bytes) (c : option PersistentEntry) :
  NoDup seen.*1 ->
  (k ∉ seen.*1 -> fold_left (effect_on T k) (emitted before deleted seen) c = c) /\
  (forall o, (k, o) ∈ seen ->
     fold_left (effect_on T k) (emitted before deleted seen) c =
     fold_left (effect_on T k)
       (key_effect (previous_of before k) (PersistentEntry_from <$> o) (bool_decide (k ∈ deleted)) k) c).
Proof.
  intros Hnd. split.
  - intros Hk. apply fold_effects_other. intros eff Heff. apply emitted_key in Heff.
    destruct eff; by intros ->.
  - revert c Hnd. induction seen as [|[k0 o0] seen IH]; intros c Hnd o Hin;
      [by apply not_elem_of_nil in Hin|].
    apply list.NoDup_cons in Hnd as [Hnin Hnd]. unfold emitted. cbn [map concat fst snd].
    fold (emitted before deleted seen). rewrite fold_left_app.
    apply elem_of_cons in Hin as [[= -> ->]|Hin].
    + rewrite (fold_effects_other T k0 (emitted before deleted seen)); [done|].
      intros eff Heff. apply emitted_key in Heff. destruct eff; by intros ->.
    + rewrite (fold_effects_other T k (key_effect _ _ _ k0)); [by apply IH|].
      intros eff Heff. apply key_effect_key in Heff. assert (k0 <> k).
      { intros ->. apply Hnin. apply list_elem_of_fmap. by exists (k, o). }
      destruct eff; congruence.
Qed.

Lemma eviction_effects_spec evicted deleted :
  (eviction_effects deleted evicted).2 = deleted ∪ list_to_set evicted.*1 /\
  (forall eff, eff ∈ (eviction_effects deleted evicted).1 ->
     exists k, eff = DeleteKey k /\ k ∈ evicted.*1) /\
  (forall k, k ∈ evicted.*1 -> k ∉ deleted -> DeleteKey k ∈ (eviction_effects deleted evicted).1).
Proof.
  revert deleted. induction evicted as [|[k0 e0] evicted IH]; intros deleted; cbn [eviction_effects].
  - split; [set_solver|]. split; [by intros ? ?%not_elem_of_nil|by intros ? ?%not_elem_of_nil].
  - case_bool_decide as Hin.
    + destruct (IH deleted) as (H1 & H2 & H3). split; [|split].
      * rewrite H1. cbn [fmap list_fmap list_to_set fst]. set_solver.
      * intros eff Heff. destruct (H2 eff Heff) as (k & -> & Hk). exists k. split; [done|].
        apply elem_of_cons. by right.
      * intros k Hk Hnin. apply elem_of_cons in Hk as [->|Hk]; [done|]. by apply H3.
    + destruct (IH ({[k0]} ∪ deleted)) as (H1 & H2 & H3).
      destruct (eviction_effects ({[k0]} ∪ deleted) evicted) as [l d]. cbn [fst snd] in *.
      split; [|split].
      * rewrite H1. cbn [fmap list_fmap list_to_set fst]. set_solver.
      * intros eff Heff. apply elem_of_cons in Heff as [->|Heff].
        -- exists k0. split; [done|]. apply elem_of_cons. by left.
        -- destruct (H2 eff Heff) as (k & -> & Hk). exists k. split; [done|].
           apply elem_of_cons. by right.
      * intros k Hk Hnin. apply elem_of_cons. apply elem_of_cons in Hk as [->|Hk]; [by left|].
        destruct (decide (k = k0)) as [->|Hne]; [by left|]. right. apply H3; [done|set_solver].
Qed.

Lemma fold_evictions (T : Z) (evicted : list (bytes * DataEntry)) (k : bytes)
    (c : option PersistentEntry) :
  fold_left (effect_on T k) (eviction_effects ∅ evicted).1 c =
  if bool_decide (k ∈ evicted.*1) then None else c.
Proof.
  destruct (eviction_effects_spec evicted ∅) as (_ & H2 & H3).
  case_bool_decide as Hk.
  - specialize (H3 k Hk (not_elem_of_empty k)). revert c H2 H3.
    generalize (eviction_effects ∅ evicted).1. intros l.
    assert (Hn : forall l, (forall eff, eff ∈ l -> exists k, eff = DeleteKey k /\ k ∈ evicted.*1) ->
      fold_left (effect_on T k) l None = None).
    { clear. induction l as [|eff l IH]; intros Hl; cbn [fold_left]; [done|].
      destruct (Hl eff ltac:(by left)) as (k' & -> & _). simpl.
      replace (if bool_decide (k' = k) then None else None) with (@None PersistentEntry)
        by (by case_bool_decide). apply IH. intros e He. apply Hl. by right. }
    induction l as [|eff l IH]; intros c H2 H3; [by apply not_elem_of_nil in H3|].
    cbn [fold_left]. apply elem_of_cons in H3 as [<-|H3].
    + simpl. rewrite bool_decide_eq_true_2 by done. apply Hn. intros e He. apply H2. by right.
    + apply IH; [|done]. intros e He. apply H2. by right.
  - apply fold_effects_other. intros eff Heff. destruct (H2 eff Heff) as (k' & -> & Hk').
    by intros ->.
Qed.

(** ** Reproducing a mutation *)

(** The batch and the state after deriving it. *)
Lemma derive_spec (T : Z) (clk : clock) (keys : list bytes)
    (before : gmap bytes (option DataEntry)) (evicted : list (bytes * DataEntry))
    (st : ShardedStore) :
  clock_before clk T -> engine_ok (engine st) ->
  exists st' seen ob, derive_committed_batch clk keys before evicted st = Some (st', ob) /\
    seen.*1 = keys /\ quiet_run T st st' /\
    (forall k o, (k, o) ∈ seen -> logical_cell T o = cell_at T st k) /\
    (match ob with Some b => effects b | None => [] end) =
      (eviction_effects ∅ evicted).1 ++ emitted before (list_to_set evicted.*1) seen.
Proof.
  intros Hclk Hok. unfold derive_committed_batch.
  destruct (eviction_effects_spec evicted ∅) as (Hdel & _).
  destruct (eviction_effects ∅ evicted) as [ev deleted]. cbn [fst snd] in *.
  rewrite (left_id_L ∅ (∪)) in Hdel. subst deleted.
  destruct (key_effects_spec T clk keys before (list_to_set evicted.*1) st Hclk Hok)
    as (st' & seen & Heq & Hk & Q & Hs).
  unfold mbind, prog_bind. rewrite Heq. exists st', seen. eexists. split; [done|].
  split; [done|]. split; [done|]. split; [done|].
  by destruct (ev ++ emitted _ _ _).
Qed.

(** Applied to a state that agrees with the state before the mutation, the
    derived batch produces a state that agrees with the state after it. *)
Lemma replay_cells (T : Z) (keys : list bytes) (before : gmap bytes (option DataEntry))
    (evicted : list (bytes * DataEntry)) (seen : list (bytes * option DataEntry))
    (pre post : bytes -> option PersistentEntry) (k : bytes) :
  NoDup keys -> seen.*1 = keys ->
  (forall k o, (k, o) ∈ seen -> logical_cell T o = post k) ->
  (forall k, k ∈ keys -> exists o, before !! k = Some o /\ logical_cell T o = pre k) ->
  (forall k, k ∉ keys -> k ∉ evicted.*1 -> post k = pre k) ->
  (forall k, k ∉ keys -> k ∈ evicted.*1 -> post k = None) ->
  same_entry
    (fold_left (effect_on T k)
       ((eviction_effects ∅ evicted).1 ++ emitted before (list_to_set evicted.*1) seen) (pre k))
    (post k).
Proof.
  intros Hnd Hseen Hpost Hbefore Hframe Hev.
  rewrite fold_left_app, fold_evictions. subst keys.
  destruct (fold_emitted T before (list_to_set evicted.*1) seen k
    (if bool_decide (k ∈ evicted.*1) then None else pre k) Hnd) as [Hout Hin].
  destruct (decide (k ∈ seen.*1)) as [Hk|Hk].
  2: { rewrite Hout by done. left. case_bool_decide; symmetry; auto. }
  destruct (Hbefore k Hk) as (o0 & Hb & Hpre).
  pose proof Hk as Hk'. apply list_elem_of_fmap in Hk' as ([k' o] & -> & Hko). cbn [fst] in *.
  rewrite (Hin o Hko). specialize (Hpost _ _ Hko). clear Hin Hout.
  rewrite (bool_decide_ext (k' ∈ (list_to_set evicted.*1 : gset bytes)) (k' ∈ evicted.*1))
    by (by rewrite elem_of_list_to_set).
  unfold previous_of. rewrite Hb. unfold key_effect.
  case_bool_decide as Hevk; cbn [negb]; rewrite ?andb_false_r, ?andb_true_r.
  - left. rewrite <- Hpost. destruct o as [en|]; cbn [fmap option_fmap option_map fold_left]; [|done].
    simpl. rewrite bool_decide_eq_true_2 by done. by rewrite logical_cell_some.
  - destruct (opt_entry_eqb _ _) eqn:Eq; cbn [fold_left].
    + rewrite <- Hpre, <- Hpost. unfold same_entry. destruct o0 as [e0|], o as [e1|]; simpl in Eq; try done.
      * rewrite !logical_cell_some. unfold live_persistent, PersistentEntry_from in *. simpl.
        unfold entry_eqb in Eq. simpl in Eq. apply andb_true_iff in Eq as [Ev Ex].
        apply bool_decide_eq_true in Ex. rewrite Ex.
        destruct (expires_at e1) as [x|]; [destruct (x <=? T); [by left|]|]; right; simpl;
          unfold entry_eqb; simpl; rewrite Ev; first [done|by rewrite bool_decide_eq_true_2].
      * by left.
    + left. rewrite <- Hpost.
      destruct o as [en|]; cbn [fmap option_fmap option_map fold_left effect_on];
        rewrite bool_decide_eq_true_2 by done; [by rewrite logical_cell_some|done].
Qed.

End Batches.
