(* ===== verification/SnapshotSpec.v ===== *)
(** * SnapshotSpec: a snapshot file is read back as it was written *)

From Stdlib Require Import ZArith Lia.
From Stdlib Require Import Strings.Byte.
From stdpp Require Import base gmap list strings numbers.
From S2P Require Import Prelude Text Json JsonPath Value Shard ShardSpec Engine EngineSpec EngineActs Store Persistence Model Codec CodecSpec BinlogFile Recovery EntryEq StoreSpec ModelSpec.

Open Scope Z_scope.

(** ** The header line *)

(** Decides a closed goal. *)
Ltac by_decision :=
  match goal with |- ?P => refine (bool_decide_eq_true_1 P _); vm_compute; reflexivity end.

Lemma line_of_app (l q : bytes) : x0a ∉ l -> line_of ((l ++ [x0a]) ++ q) = Some (l ++ [x0a]).
Proof.
  induction l as [|b l IH]; intros Hl; cbn [app line_of].
  - by rewrite bool_decide_eq_true_2.
  - rewrite bool_decide_eq_false_2 by (intros ->; apply Hl; by left).
    rewrite IH; [done|]. intros H. apply Hl. by right.
Qed.

Lemma trim_newlines_app (l : bytes) (b : byte) :
  b <> x0a -> b <> x0d -> trim_newlines ((l ++ [b]) ++ [x0a]) = l ++ [b].
Proof.
  intros Ha Hd. unfold trim_newlines. rewrite !rev_app_distr. cbn [rev app drop_newlines].
  rewrite (bool_decide_eq_true_2 (x0a = x0a)) by done. rewrite orb_true_r.
  rewrite !bool_decide_eq_false_2 by done. cbn [orb rev]. by rewrite rev_involutive.
Qed.

Lemma split_tabs_last (l cur : bytes) : x09 ∉ l -> split_tabs cur l = [cur ++ l].
Proof.
  revert cur. induction l as [|b l IH]; intros cur Hl; cbn [split_tabs]; [by rewrite app_nil_r|].
  rewrite bool_decide_eq_false_2 by (intros ->; apply Hl; by left).
  rewrite IH by (intros H; apply Hl; by right). by rewrite <- (assoc_L (++)).
Qed.

Lemma split_tabs_field (l cur q : bytes) : x09 ∉ l -> split_tabs cur (l ++ [x09] ++ q) = (cur ++ l) :: split_tabs [] q.
Proof.
  revert cur. induction l as [|b l IH]; intros cur Hl; cbn [split_tabs app].
  - by rewrite bool_decide_eq_true_2, app_nil_r.
  - rewrite bool_decide_eq_false_2 by (intros ->; apply Hl; by left).
    rewrite IH by (intros H; apply Hl; by right). by rewrite <- (assoc_L (++)).
Qed.

(** The header without its newline. *)
Definition header_line (watermark : Z) : bytes :=
  SNAPSHOT_MAGIC ++ [x09] ++ print_Z SNAPSHOT_VERSION ++ [x09] ++ print_Z watermark.

Lemma snapshot_header_line w : snapshot_header w = header_line w ++ [x0a].
Proof. unfold snapshot_header, header_line. by rewrite <- !(assoc_L (++)). Qed.

Lemma digits_no b w : is_ascii_digit b = false -> 0 <= w -> b ∉ print_Z w.
Proof.
  intros Hb Hw Hin. destruct (print_Z_spec w Hw) as (d & ds & Hp & Hd & _). rewrite Hp in Hin.
  rewrite list.Forall_forall in Hd. specialize (Hd b Hin). congruence.
Qed.

Lemma header_parses w : 0 <= w <= U64_MAX -> parse_header (header_line w) = Ok (Versioned w).
Proof.
  intros Hw. unfold parse_header.
  assert (Hs : starts_with (header_line w) SNAPSHOT_MAGIC = true) by (unfold header_line; apply starts_with_app).
  rewrite Hs. cbn [negb]. unfold header_line.
  rewrite split_tabs_field by by_decision.
  rewrite split_tabs_field by by_decision.
  rewrite split_tabs_last by (apply digits_no; [done|lia]).
  rewrite !(left_id_L [] (++)), bytes_eqb_refl. cbn [negb].
  change (parse_u8 (print_Z SNAPSHOT_VERSION)) with (Some 2). step.
  change (negb (2 =? SNAPSHOT_VERSION)) with false. cbv iota.
  unfold parse_u64. by rewrite parse_print_unsigned.
Qed.

Lemma header_text w : 0 <= w <= U64_MAX ->
  x0a ∉ header_line w /\ Utf8.valid (header_line w ++ [x0a]) = true /\
  trim_newlines (header_line w ++ [x0a]) = header_line w /\ len (header_line w) <= 31.
Proof.
  intros Hw. destruct (print_Z_spec w ltac:(lia)) as (d & ds & Hp & Hd & _).
  assert (Hn : x0a ∉ print_Z w) by (apply digits_no; [done|lia]).
  assert (Hpre : header_line w = (SNAPSHOT_MAGIC ++ [x09] ++ print_Z SNAPSHOT_VERSION ++ [x09]) ++ print_Z w).
  { unfold header_line. by rewrite <- !(assoc_L (++)). }
  split; [|split; [|split]].
  - rewrite Hpre. intros Hin. apply elem_of_app in Hin as [Hin|Hin]; [|done].
    revert Hin. by_decision.
  - rewrite Hpre. apply Utf8.valid_app; [apply Utf8.valid_app; [reflexivity|]|reflexivity].
    rewrite Hp. by apply valid_digits.
  - assert (Hlast : exists l b, print_Z w = l ++ [b]).
    { rewrite Hp. destruct (exists_last (l := d :: ds) ltac:(done)) as (l & b & E). by exists l, b. }
    destruct Hlast as (l & b & E). rewrite Hpre, E, (assoc_L (++)).
    assert (Hb : is_ascii_digit b = true).
    { rewrite <- Hp, E in Hd. apply list.Forall_app in Hd as [_ Hd]. by inversion Hd. }
    apply trim_newlines_app; intros ->; done.
  - rewrite Hpre, len_app. pose proof (print_Z_length w Hw). change (len (SNAPSHOT_MAGIC ++ [x09] ++ print_Z SNAPSHOT_VERSION ++ [x09])) with 11. lia.
Qed.

Lemma read_header w q err :
  0 <= w <= U64_MAX ->
  read_bounded_utf8_line MAX_SNAPSHOT_METADATA_SIZE (mkStream (snapshot_header w ++ q) err) =
  Ok (Some (header_line w), mkStream q err).
Proof.
  intros Hw. destruct (header_text w Hw) as (Hn & Hv & Ht & Hl). rewrite snapshot_header_line.
  unfold read_bounded_utf8_line, read_line_bytes. cbn [left broken].
  assert (Hlen : length (header_line w ++ [x0a]) = S (length (header_line w)))
    by (rewrite length_app; simpl; lia).
  rewrite take_app_ge by (unfold MAX_SNAPSHOT_METADATA_SIZE; unfold len in Hl; rewrite Hlen; lia).
  rewrite line_of_app by done. step.
  rewrite drop_app_ge by done. rewrite Nat.sub_diag.
  change (drop 0 q) with q.
  destruct (header_line w ++ [x0a]) as [|b r] eqn:E; [by destruct (header_line w)|]. rewrite <- E in *.
  rewrite (proj2 (Z.ltb_ge _ _)) by (rewrite len_app; unfold MAX_SNAPSHOT_METADATA_SIZE; change (len [x0a]) with 1; lia).
  unfold Utf8.from_utf8. by rewrite Hv, Ht.
Qed.

Section Snapshot.
Context {CRC : Crc32} {GZ : Gzip} {JN : JsonNumber} {SJ : SerdeJson} {HO : HashOrder}.

(** ** The entries *)

Definition entry_ok (ke : bytes * DataEntry) : Prop :=
  storable (value ke.2) /\ expiry_ok (expires_at ke.2).

(** A file that holds the snapshot of [entries] at the sequence [watermark]. *)
Definition snapshot_of (watermark : Z) (entries : list (bytes * DataEntry)) (file : bytes) : Prop :=
  0 <= watermark <= U64_MAX /\ NoDup entries.*1 /\ Forall entry_ok entries /\
  exists records, snapshot_records entries = Ok records /\
    file = gzip (snapshot_header watermark ++ records).

(** The effects that rebuild the entries of a snapshot. *)
Definition snapshot_effects (entries : list (bytes * DataEntry)) : list CommittedEffect :=
  map (fun ke => Put ke.1 (PersistentEntry_from ke.2)) entries.

Lemma open_gzip b : open_snapshot (gzip b) = mkStream b None.
Proof. unfold open_snapshot. by rewrite gunzip_gzip. Qed.

Lemma inspect_snapshot_of w entries file :
  snapshot_of w entries file -> inspect_snapshot (Some file) = Ok (Versioned w).
Proof.
  intros (Hw & _ & _ & records & _ & ->). unfold inspect_snapshot.
  rewrite open_gzip, read_header by done. step. by apply header_parses.
Qed.

Lemma read_exact_app b q err :
  read_exact (len b) (mkStream (b ++ q) err) = Ok (b, mkStream q err).
Proof.
  unfold read_exact. cbn [left broken]. rewrite (proj2 (Z.leb_le _ _)) by (rewrite len_app; pose proof (len_nonneg q); lia).
  by rewrite len_to_nat, take_app_length, drop_app_length.
Qed.

(** Loading one live entry. *)
Lemma set_value_effect T clk key v x st :
  clock_before clk T -> engine_ok (engine st) ->
  exists st' o, set_value clk key v x st = Some (st', o) /\ engine_ok (engine st') /\
    (value_ok v -> keeps_values st st') /\
    forall k, cell_at T st' k = effect_on T k (cell_at T st k) (Put key (mkPersistent JN v x)).
Proof.
  intros Hclk Hok. pose proof (set_acts clk key v x (engine st) Hok) as (_ & Hd & Hok').
  unfold set_value, on_engine. destruct (engine_set _ _ _ _ _) as [e' o]. cbn [fst] in *.
  exists (with_engine st e'), o. split; [done|]. split; [done|]. split.
  { intros Hvo Hv. cbn [engine with_engine]. rewrite Hd. apply values_ok_set_cell; [done|]. unfold c_set. by case_match. }
  intros k. unfold cell_at. simpl.
  rewrite Hd. case_bool_decide as Hk; [|by rewrite lookup_set_cell_ne].
  subst k. rewrite lookup_set_cell_eq. unfold c_set, live_persistent. cbn [p_expires_at].
  destruct x as [x|]; [|done]. destruct (Z.leb_spec x (clk 1%nat)) as [Hx|Hx]; cbn [fst].
  - specialize (Hclk 1%nat). by rewrite (proj2 (Z.leb_le _ _)) by lia.
  - rewrite logical_cell_some. done.
Qed.

Lemma snapshot_records_cons key entry rest r :
  snapshot_records ((key, entry) :: rest) = Ok r ->
  exists record records, encode_snapshot_entry key entry = Ok record /\
    snapshot_records rest = Ok records /\ r = be32 (len record) ++ record ++ records /\ len record <= U32_MAX.
Proof.
  cbn [snapshot_records]. intros H. inv_binds. unfold u32_try_from in Ha0.
  destruct (len _ <=? U32_MAX) eqn:E; [|discriminate Ha0]. prop_tests. injection Ha0 as <-.
  subst r. by exists a, a1.
Qed.

Lemma load_records_spec T entries : forall fuel clk count st records,
  snapshot_records entries = Ok records -> Forall entry_ok entries -> NoDup entries.*1 ->
  (forall k, k ∈ entries.*1 -> cell_at T st k = None) ->
  clock_before clk T -> engine_ok (engine st) -> (length entries < fuel)%nat ->
  exists st' n, load_records fuel clk (mkStream records None) count st = Some (st', Ok n) /\
    engine_ok (engine st') /\
    (Forall effect_value_ok (snapshot_effects entries) -> keeps_values st st') /\
    forall k, cell_at T st' k = fold_left (effect_on T k) (snapshot_effects entries) (cell_at T st k).
Proof.
  induction entries as [|[key entry] entries IH]; intros fuel clk count st records Hr Hok Hnd Hnew Hclk He Hf;
    (destruct fuel as [|fuel]; [simpl in Hf; lia|]).
  { apply Ok_inj in Hr as <-. exists st, count. split; [done|]. split; [done|]. split; [by intros _ ?|done]. }
  apply snapshot_records_cons in Hr as (record & rest & Henc & Hrest & -> & Hu).
  inversion Hok as [|? ? [Hs Hx] Hok']; subst. cbn [fst snd] in *.
  apply list.NoDup_cons in Hnd as [Hkey Hnd].
  destruct (entry_roundtrip (clk 0%nat) key entry record Hs Hx Henc) as [Hdec Hmax].
  assert (Hpos : 0 < len record).
  { destruct record; [discriminate Hdec|]. rewrite len_cons. pose proof (len_nonneg record). lia. }
  cbn [load_records left broken].
  assert (Hne : be32 (len record) ++ record ++ rest <> []) by done.
  destruct (be32 (len record) ++ record ++ rest) as [|b0 r0] eqn:E; [done|]. rewrite <- E. clear E Hne b0 r0.
  change 4 with (len (be32 (len record))) at 1. rewrite read_exact_app. step.
  rewrite from_be32 by lia. rewrite (proj2 (Z.eqb_neq _ _)), (proj2 (Z.ltb_ge _ _)) by lia. cbn [orb].
  rewrite read_exact_app. step. rewrite Hdec. step.
  assert (Hfree : forall st' : ShardedStore, (forall k, cell_at T st' k = effect_on T k (cell_at T st k) (Put key (PersistentEntry_from entry))) ->
    forall k, k ∈ entries.*1 -> cell_at T st' k = None).
  { intros st' Hc k Hk. rewrite Hc. simpl. rewrite bool_decide_eq_false_2 by (intros ->; done). apply Hnew. by right. }
  destruct (is_expired (clk 1%nat) _) eqn:Hexp.
  - assert (Hcell : forall k, cell_at T st k = effect_on T k (cell_at T st k) (Put key (PersistentEntry_from entry))).
    { intros k. simpl. case_bool_decide as Hk; [|done]. subst k. rewrite Hnew by (by left).
      unfold live_persistent. cbn [PersistentEntry_from p_expires_at].
      unfold is_expired in Hexp. cbn [expires_at] in Hexp. destruct (expires_at entry) as [x|]; [|done].
      specialize (Hclk 1%nat). apply Z.leb_le in Hexp. by rewrite (proj2 (Z.leb_le _ _)) by lia. }
    destruct (IH fuel (tick LOAD_TICKS clk) count st rest) as (st' & n & Hrun & Hok2 & Hv & Hc); [done|done|done|by apply Hfree|by auto with onyx|done|simpl in Hf; lia|].
    exists st', n. split; [exact Hrun|]. split; [done|]. split; [by intros [_ ?]%list.Forall_cons; apply Hv|]. intros k. rewrite Hc. cbn [snapshot_effects map fold_left fst snd].
    by rewrite <- Hcell.
  - destruct (set_value_effect T (tick 2 clk) key (value entry) (expires_at entry) st) as (st1 & o & Hset & Hok1 & Hv1 & Hc1);
      auto with onyx.
    cbn [value expires_at].
    change (mkPersistent JN (value entry) (expires_at entry)) with (PersistentEntry_from entry) in Hc1.
    rewrite (bind_run _ _ _ _ _ Hset).
    destruct (IH fuel (tick LOAD_TICKS clk) (count + 1) st1 rest) as (st' & n & Hrun & Hok2 & Hv & Hc); [done|done|done|by apply Hfree|by auto with onyx|done|simpl in Hf; lia|].
    exists st', n. split; [exact Hrun|]. split; [done|]. split.
    { intros [Ha Hb]%list.Forall_cons Hs0. apply Hv; [done|]. by apply Hv1. }
    intros k. rewrite Hc. cbn [snapshot_effects map fold_left fst snd].
    by rewrite Hc1.
Qed.

Lemma records_count entries records :
  snapshot_records entries = Ok records -> (length entries <= length records)%nat.
Proof.
  revert records. induction entries as [|[key entry] entries IH]; intros records Hr; [simpl; lia|].
  apply snapshot_records_cons in Hr as (record & rest & _ & Hrest & -> & _). specialize (IH rest Hrest).
  rewrite !length_app. cbn [length]. change (length (be32 (len record))) with 4%nat. lia.
Qed.

Lemma cell_at_new T k : cell_at T store_new k = None.
Proof. unfold cell_at. change (engine store_new) with engine_new. by rewrite dataset_engine_new. Qed.

Lemma new_values_ok : values_ok (dataset (engine store_new)).
Proof. intros k. change (engine store_new) with engine_new. by rewrite dataset_engine_new. Qed.

Lemma store_new_ok : engine_ok (engine store_new).
Proof. apply engine_wf_ok, engine_new_wf. Qed.

(** Loading a snapshot into an empty store rebuilds its entries. *)
Lemma load_snapshot_spec T clk w entries file :
  clock_before clk T -> snapshot_of w entries file ->
  exists st n, load_snapshot_entries clk (Some file) (Versioned w) store_new = Some (st, Ok n) /\
    engine_ok (engine st) /\
    (Forall effect_value_ok (snapshot_effects entries) -> values_ok (dataset (engine st))) /\
    forall k, cell_at T st k = fold_left (effect_on T k) (snapshot_effects entries) None.
Proof.
  intros Hclk (Hw & Hnd & Hok & records & Hr & ->). unfold load_snapshot_entries.
  rewrite open_gzip, read_header by done. cbn [left].
  destruct (load_records_spec T entries (length records + 1) clk 0 store_new records) as (st & n & Hrun & He & Hv & Hc);
    [done..| |done|apply store_new_ok|pose proof (records_count _ _ Hr); lia|].
  { intros k _. apply cell_at_new. }
  exists st, n. split; [done|]. split; [done|]. split; [intros H; apply Hv; [done|apply new_values_ok]|].
  intros k. by rewrite Hc, cell_at_new.
Qed.

End Snapshot.
