(* ===== verification/RecoverySpec.v ===== *)
(** * RecoverySpec: recovery rebuilds the committed state

    Loading a directory replays, on top of the snapshot, every batch the binlog
    holds completely and the snapshot does not cover, in order and once. *)

From Stdlib Require Import ZArith Lia.
From Stdlib Require Import Strings.Byte.
From stdpp Require Import base gmap list strings numbers sorting.
From S2P Require Import Prelude Text Json JsonPath Value Shard ShardSpec Engine EngineSpec EngineMulti EngineActs EngineSnapshots Store Persistence Model Codec CodecSpec BinlogFile Recovery HistorySpec EntryEq StoreSpec ModelSpec SnapshotSpec.

Open Scope Z_scope.

Section Recovery.
Context {CRC : Crc32} {GZ : Gzip} {JN : JsonNumber} {SJ : SerdeJson} {HO : HashOrder}.

(** ** Replaying *)

(** The batches after sequence [w] of those numbered from [s] on. *)
Definition after (w s : Z) (bs : list CommittedBatch) : list CommittedBatch :=
  drop (Z.to_nat (w + 1 - s)) bs.

Lemma after_app w s bs bs' : after w s (bs ++ bs') = after w s bs ++ after w (s + len bs) bs'.
Proof. unfold after. rewrite drop_app. do 2 f_equal. unfold len. lia. Qed.

Lemma after_covered w s b bs : s <= w -> after w s (b :: bs) = after w (s + 1) bs.
Proof.
  intros H. unfold after. replace (Z.to_nat (w + 1 - s)) with (S (Z.to_nat (w + 1 - (s + 1)))) by lia. done.
Qed.

Lemma after_all w s bs : w < s -> after w s bs = bs.
Proof. intros H. unfold after. by replace (Z.to_nat (w + 1 - s)) with 0%nat by lia. Qed.

Definition batch_effects (bs : list CommittedBatch) : list CommittedEffect := concat (map effects bs).

Lemma batch_effects_app bs bs' : batch_effects (bs ++ bs') = batch_effects bs ++ batch_effects bs'.
Proof. unfold batch_effects. by rewrite map_app, concat_app. Qed.

(** The state of the replay before the record [s]. *)
Record replaying (T w s : Z) (r : replay_state) : Prop := {
  rs_clock : clock_before (rp_clock r) T;
  rs_ok : engine_ok (engine (rp_store r));
  rs_expected : rp_expected r = checked_add (Z.max w (s - 1)) 1
}.

(** What replaying the batches [bs] did to it. *)
Definition replayed (T : Z) (bs : list CommittedBatch) (r r' : replay_state) : Prop :=
  rp_replayed r' = rp_replayed r + len bs /\
  (Forall effect_value_ok (batch_effects bs) -> keeps_values (rp_store r) (rp_store r')) /\
  forall k, cell_at T (rp_store r') k = fold_left (effect_on T k) (batch_effects bs) (cell_at T (rp_store r) k).

Lemma replayed_refl T r : replayed T [] r r.
Proof. split; [change (len (@nil CommittedBatch)) with 0; lia|]. split; [by intros _ ?|done]. Qed.

Lemma replayed_trans T bs bs' r1 r2 r3 :
  replayed T bs r1 r2 -> replayed T bs' r2 r3 -> replayed T (bs ++ bs') r1 r3.
Proof.
  intros (N1 & V1 & C1) (N2 & V2 & C2). split; [rewrite len_app; lia|]. split.
  { rewrite batch_effects_app. intros [H1 H2]%list.Forall_app Hv. apply V2; [done|]. by apply V1. }
  intros k.
  by rewrite batch_effects_app, fold_left_app, C2, C1.
Qed.

Lemma checked_succ a : 0 <= a -> a + 1 <= U64_MAX -> checked_add a 1 = Some (a + 1).
Proof. intros H0 H. unfold checked_add. by rewrite (proj2 (Z.leb_le _ _)) by (unfold USIZE_MAX, U64_MAX in *; lia). Qed.

Lemma replay_visits T w s bs rs r :
  encodes s bs rs -> 0 <= w -> replaying T w s r ->
  exists r', visits (replay_record w) r rs = Some (Ok r') /\
    replaying T w (s + len bs) r' /\ replayed T (after w s bs) r r'.
Proof.
  intros He Hw. revert r. induction He as [s|s b p bs rs Hs Hb Hp Hl He IH]; intros r Hr.
  { exists r. change (len (@nil CommittedBatch)) with 0. rewrite Z.add_0_r. split; [done|]. split; [done|].
    unfold after. rewrite drop_nil. apply replayed_refl. }
  cbn [visits fst snd]. destruct (batch_roundtrip (rp_clock r) b p Hb Hp) as [Hdec Hlen].
  unfold replay_record. rewrite record_roundtrip by (done || lia). cbn [rec_sequence rec_effects].
  rewrite len_cons. replace (s + (1 + len bs)) with (s + 1 + len bs) by lia.
  destruct (Z.leb_spec s w) as [Hle|Hgt].
  - rewrite after_covered by done. apply IH. destruct Hr as [C O E]. constructor; [done|done|].
    rewrite E. f_equal. lia.
  - rewrite after_all by done.
    destruct Hr as [C O E]. rewrite E. rewrite Z.max_r by lia. rewrite checked_succ by lia.
    replace (s - 1 + 1) with s by lia. rewrite bool_decide_eq_true_2 by done. cbn [negb]. rewrite Hdec.
    destruct (apply_effects_spec T (tick (length (effects b)) (rp_clock r)) (effects b) (rp_store r))
      as (st' & Hrun & Hok' & _ & Hc); [auto with onyx|done|].
    unfold apply_committed_batch. rewrite Hrun. cbn [mbind option_bind].
    match goal with |- exists _, visits _ ?r1 _ = _ /\ _ => destruct (IH r1) as (r' & Hv & Hr' & Hrep) end.
    { constructor; cbn [rp_clock rp_store rp_expected]; [auto with onyx|done|]. f_equal. lia. }
    exists r'. split; [done|]. split; [done|]. rewrite after_all in Hrep by lia.
    eapply (replayed_trans T [b] bs); [|exact Hrep]. split; [done|].
    unfold batch_effects. cbn [map concat rp_store]. rewrite app_nil_r. split; [|done].
    intros Hvs. refine (apply_effects_values T _ _ _ _ _ _ O Hrun Hvs). auto with onyx.
Qed.

Lemma replay_file T w s bs rs tail r :
  encodes s bs rs -> torn_tail tail -> 0 <= w -> replaying T w s r ->
  exists r' o, for_each_binlog_record (replay_record w) (Some (log rs ++ tail)) r = Some (Ok (r', o)) /\
    replaying T w (s + len bs) r' /\ replayed T (after w s bs) r r'.
Proof.
  intros He Ht Hw Hr. rewrite for_each_torn by (done || by eapply encodes_loggable).
  destruct (replay_visits T w s bs rs r He Hw Hr) as (r' & -> & Hr' & Hrep).
  exists r'. eexists. done.
Qed.

Lemma replay_chain T w fs s cs e r rest :
  chain s cs e -> (forall c, c ∈ cs -> fs !! binlog_segment (c_end c) = Some (log (c_records c))) ->
  0 <= w -> replaying T w s r ->
  exists r', replay_history w (map sealed_file cs ++ rest) r fs = replay_history w rest r' fs /\
    replaying T w e r' /\ replayed T (after w s (chain_batches cs)) r r'.
Proof.
  intros Hc Hfs Hw. revert r. induction Hc as [s|c cs e He Hne Hc IH]; intros r Hr.
  { exists r. split; [done|]. split; [done|]. unfold after. change (chain_batches []) with (@nil CommittedBatch).
    rewrite drop_nil. apply replayed_refl. }
  cbn [map app replay_history]. rewrite (io_run _ _ fs fs fs) by done.
  destruct (replay_file T w (c_start c) (c_batches c) (c_records c) [] r He) as (r1 & o & Hrun & Hr1 & Hrep1);
    [by left|done|done|]. rewrite app_nil_r in Hrun.
  rewrite (io_run _ _ fs fs (r1, o)).
  2: { cbn [sealed_file path]. rewrite Hfs by (by left). exact (f_equal (fun o => lift_option o fs) Hrun). }
  replace (c_start c + len (c_batches c)) with (c_end c + 1) in Hr1 by (unfold c_end; lia).
  destruct (IH ltac:(intros; apply Hfs; by right) r1 Hr1) as (r' & Hrest & Hr' & Hrep').
  exists r'. split; [exact Hrest|]. split; [done|].
  change (chain_batches (c :: cs)) with (c_batches c ++ chain_batches cs). rewrite after_app.
  replace (c_start c + len (c_batches c)) with (c_end c + 1) by (unfold c_end; lia).
  by eapply replayed_trans.
Qed.

Lemma chain_length s cs e : chain s cs e -> s + len (chain_batches cs) = e.
Proof.
  induction 1 as [s|c cs e He Hne Hc IH]; [change (len (chain_batches [])) with 0; lia|].
  change (chain_batches (c :: cs)) with (c_batches c ++ chain_batches cs). rewrite len_app.
  unfold c_end in *. lia.
Qed.

Lemma replay_directory T w fs s cs e bs rs tail r :
  history_on fs s cs e bs rs tail -> 0 <= w -> replaying T w s r ->
  exists r', replay_history w (history_of cs e bs rs tail) r fs = Some (fs, Ok r') /\
    replaying T w (e + len bs) r' /\ replayed T (after w s (chain_batches cs ++ bs)) r r'.
Proof.
  intros Hh Hw Hr. unfold history_of.
  destruct (replay_chain T w fs s cs e r [active_file e bs rs tail]) as (r1 & Hrun & Hr1 & Hrep1);
    [apply Hh|apply Hh|done|done|].
  rewrite Hrun. cbn [replay_history]. rewrite (io_run _ _ fs fs fs) by done. cbn [active_file path].
  assert (Hafter : after w s (chain_batches cs ++ bs) = after w s (chain_batches cs) ++ after w e bs).
  { rewrite after_app. do 2 f_equal. apply (chain_length s cs e), Hh. }
  rewrite Hafter. destruct (ho_file _ _ _ _ _ _ _ Hh) as [Hf|(Hf & -> & ->)].
  - destruct (replay_file T w e bs rs tail r1) as (r2 & o & Hrun2 & Hr2 & Hrep2);
      [apply Hh|apply Hh|done|done|].
    rewrite (io_run _ _ fs fs (r2, o)).
    2: { rewrite Hf. exact (f_equal (fun o => lift_option o fs) Hrun2). }
    exists r2. split; [done|]. split; [done|]. by eapply replayed_trans.
  - rewrite (io_run _ _ fs fs (r1, (0, false))) by (by rewrite Hf). exists r1. split; [done|].
    split; [by rewrite Z.add_0_r|]. eapply replayed_trans; [done|]. unfold after. rewrite drop_nil. apply replayed_refl.
Qed.

(** ** Loading *)

(** No file of an interrupted rotation is left. *)
Definition rotation_clean (fs : Files) : Prop := fs !! binlog_backup_path = None /\ fs !! binlog_temp_path = None.

(** A data directory: a snapshot of [entries] at the sequence [w], or none, and
    a binlog history that reaches back to it. *)
Record directory (fs : Files) (w : Z) (entries : list (bytes * DataEntry)) (s : Z) (cs : list chunk)
    (e : Z) (bs : list CommittedBatch) (rs : list (Z * bytes)) (tail : bytes) : Prop := {
  dir_history : history_on fs s cs e bs rs tail;
  dir_joined : s <= w + 1;
  dir_watermark : 0 <= w <= U64_MAX;
  dir_snapshot :
    match fs !! snapshot_path, fs !! snapshot_backup_path with
    | Some file, _ | None, Some file => snapshot_of w entries file
    | None, None => w = 0 /\ entries = []
    end;
  dir_rotation : fs !! binlog_path = None ->
    fs !! binlog_backup_path = None /\ fs !! binlog_temp_path = None
}.

(** The effects recovery applies to an empty store. *)
Definition recovered_effects (w : Z) (entries : list (bytes * DataEntry)) (s : Z) (cs : list chunk)
    (bs : list CommittedBatch) : list CommittedEffect :=
  snapshot_effects entries ++ batch_effects (after w s (chain_batches cs ++ bs)).

Lemma exists_file_run name fs : exists_file name fs = Some (fs, Ok (is_some (fs !! name))).
Proof. unfold exists_file. by destruct (fs !! name). Qed.

Section Load.
Context (T w : Z) (fs : Files) (entries : list (bytes * DataEntry)) (s : Z) (cs : list chunk) (e : Z).
Context (bs : list CommittedBatch) (rs : list (Z * bytes)) (tail : bytes).
Context (Hdir : directory fs w entries s cs e bs rs tail).

Lemma rotation_settled : recover_interrupted_binlog_rotation fs = Some (fs, Ok tt).
Proof.
  unfold recover_interrupted_binlog_rotation. rewrite (io_run _ _ _ _ _ (exists_file_run _ _)).
  destruct (fs !! binlog_path) as [f|] eqn:E; [done|]. cbn [is_some].
  destruct (dir_rotation _ _ _ _ _ _ _ _ _ Hdir E) as [Hb Ht].
  rewrite (io_run _ _ _ _ _ (exists_file_run _ _)), Hb. cbn [is_some].
  by rewrite (io_run _ _ _ _ _ (exists_file_run _ _)), Ht.
Qed.

(** The snapshot that is used. *)
Definition snapshot_name : bytes :=
  if negb (is_some (fs !! snapshot_path)) && is_some (fs !! snapshot_backup_path)
  then snapshot_backup_path else snapshot_path.

Definition snapshot_format : SnapshotFormat :=
  match fs !! snapshot_name with Some _ => Versioned w | None => Missing end.

Lemma snapshot_found :
  inspect_snapshot (fs !! snapshot_name) = Ok snapshot_format /\
  match fs !! snapshot_name with Some file => snapshot_of w entries file | None => w = 0 /\ entries = [] end.
Proof.
  pose proof (dir_snapshot _ _ _ _ _ _ _ _ _ Hdir) as Hs. unfold snapshot_format, snapshot_name.
  destruct (fs !! snapshot_path) as [f|] eqn:E1; cbn [is_some negb andb].
  { rewrite E1. split; [by eapply inspect_snapshot_of|done]. }
  destruct (fs !! snapshot_backup_path) as [f|] eqn:E2; cbn [is_some].
  - rewrite E2. split; [by eapply inspect_snapshot_of|done].
  - by rewrite E1.
Qed.

Lemma staged clk :
  clock_before clk T ->
  exists st n, load_snapshot_entries clk (fs !! snapshot_name) snapshot_format store_new = Some (st, Ok n) /\
    engine_ok (engine st) /\
    (Forall effect_value_ok (snapshot_effects entries) -> values_ok (dataset (engine st))) /\
    forall k, cell_at T st k = fold_left (effect_on T k) (snapshot_effects entries) None.
Proof.
  intros Hclk. destruct snapshot_found as [_ Hs]. unfold snapshot_format.
  destruct (fs !! snapshot_name) as [file|].
  - by apply (load_snapshot_spec T clk w).
  - destruct Hs as [_ ->]. exists store_new, 0. split; [done|]. split; [apply store_new_ok|].
    split; [intros _; apply new_values_ok|]. apply cell_at_new.
Qed.

Lemma first_sequence_joined :
  match first_sequence (history_of cs e bs rs tail) with
  | Some first => sat_add w 1 <? first
  | None => false
  end = false.
Proof.
  pose proof (dir_history _ _ _ _ _ _ _ _ _ Hdir) as Hh. pose proof (dir_joined _ _ _ _ _ _ _ _ _ Hdir) as Hj.
  assert (Hle : forall first, first = s -> first <= U64_MAX -> (sat_add w 1 <? first) = false).
  { intros first -> Hmax. apply Z.ltb_ge. unfold sat_add. unfold USIZE_MAX, U64_MAX in *. lia. }
  unfold history_of. pose proof (ho_chain _ _ _ _ _ _ _ Hh) as Hc. pose proof (ho_active _ _ _ _ _ _ _ Hh) as Ha.
  destruct cs as [|c cs'].
  - inversion Hc; subst. cbn [map app first_sequence active_file inspection]. unfold inspected.
    destruct bs as [|b bs']; [done|]. cbn [min_sequence]. apply Hle; [done|]. apply encodes_first in Ha. lia.
  - inversion Hc as [|c0 cs0 e0 He Hne Hc']; subst. cbn [map app first_sequence sealed_file inspection].
    destruct (chunk_bounds c He Hne) as [B1 B2].
    unfold inspected. destruct (c_batches c); [done|]. cbn [min_sequence]. apply Hle; [done|lia].
Qed.

Lemma find_active_history :
  find_active (history_of cs e bs rs tail) = Some (active_file e bs rs tail).
Proof.
  unfold find_active, history_of. clear Hdir. induction cs as [|c cs' IH]; [done|].
  cbn [map app list_find]. rewrite decide_False by done.
  destruct (list_find _ _) as [[i f]|] eqn:E; [|done]. simpl in *. congruence.
Qed.

Lemma history_max :
  Z.max w (fold_left Z.max (map (fun f => max_sequence (inspection f)) (history_of cs e bs rs tail)) 0)
  = Z.max w (e + len bs - 1).
Proof.
  pose proof (dir_history _ _ _ _ _ _ _ _ _ Hdir) as Hh. pose proof (dir_joined _ _ _ _ _ _ _ _ _ Hdir) as Hj.
  pose proof (ho_start _ _ _ _ _ _ _ Hh) as H0.
  pose proof (dir_watermark _ _ _ _ _ _ _ _ _ Hdir) as Hw.
  enough (H : forall l s0 e1 a, chain s0 l e1 -> e1 = e -> 0 <= a -> Z.max w a = Z.max w (s0 - 1) ->
    Z.max w (fold_left Z.max (map (fun f => max_sequence (inspection f))
      (map sealed_file l ++ [active_file e bs rs tail])) a) = Z.max w (e + len bs - 1)).
  { apply (H cs s e); [apply Hh|done|lia|lia]. }
  clear Hh. intros l s0 e1 a Hc. revert a. induction Hc as [s1|c l e1 He Hne Hc IH]; intros a -> Ha Hm.
  - cbn [map app fold_left active_file inspection]. unfold inspected.
    destruct bs as [|b bs']; cbn [max_sequence]; [change (len (@nil CommittedBatch)) with 0|rewrite len_cons;
      pose proof (len_nonneg bs')]; lia.
  - cbn [map app fold_left sealed_file inspection]. pose proof (chunk_bounds c He Hne) as [B1 B2].
    assert (Hms : max_sequence (inspected (c_start c) (c_batches c) (c_records c) []) = c_end c)
      by (unfold inspected, c_end; by destruct (c_batches c)).
    rewrite Hms. apply IH; lia.
Qed.

(** *** Cleaning up *)

Lemma segment_name_other c name :
  c ∈ cs -> parse_binlog_segment_end_sequence (Utf8.from_utf8 name) = Ok None ->
  binlog_segment (c_end c) <> name.
Proof.
  intros Hin Hp <-. pose proof (ho_chain _ _ _ _ _ _ _ (dir_history _ _ _ _ _ _ _ _ _ Hdir)) as Hc.
  rewrite segment_parses in Hp; [done|]. apply (chain_bounds _ _ _ c Hc Hin).
Qed.

Section Clean.
Context (v : Z) (Hv : v <= w).

(** Segments that do not end by [v]. *)
Definition kept : list chunk := filter (fun c => v < c_end c) cs.

Lemma sealed_split :
  sealed (history_of cs e bs rs tail) = len (filter (fun c => c_end c <= v) cs) + len kept.
Proof.
  clear. unfold sealed, history_of, kept, len. rewrite filter_app, length_app.
  replace (length (filter (fun f => declared_end_sequence f <> None) [active_file e bs rs tail]))
    with 0%nat by done.
  induction cs as [|c cs' IH]; [done|]. cbn [map]. rewrite !filter_cons.
  rewrite (decide_True (P := declared_end_sequence (sealed_file c) <> None)) by done.
  destruct (decide (c_end c <= v)); [rewrite decide_False by lia|rewrite decide_True by lia];
    cbn [length] in *; lia.
Qed.

(** [fs'] is [fs] without the segments that end by [v]. *)
Definition cleaned (fs fs' : Files) : Prop :=
  (forall c, c ∈ cs -> c_end c <= v -> fs' !! binlog_segment (c_end c) = None) /\
  (forall name, (forall c, c ∈ cs -> c_end c <= v -> binlog_segment (c_end c) <> name) ->
    fs' !! name = fs !! name).

Lemma remove_covered_spec fs0 :
  exists fs', cleanup_snapshot_covered_segments (history_of cs e bs rs tail) v fs0 =
    Some (fs', Ok (len kept)) /\ cleaned fs0 fs'.
Proof.
  pose proof (dir_history _ _ _ _ _ _ _ _ _ Hdir) as Hh.
  enough (H : forall l fs1 n, (forall c, c ∈ l -> c ∈ cs) -> exists fs',
    remove_covered v (map sealed_file l ++ [active_file e bs rs tail]) n fs1 =
      Some (fs', Ok (n + len (filter (fun c => c_end c <= v) l))) /\
    (forall c, c ∈ l -> c_end c <= v -> fs' !! binlog_segment (c_end c) = None) /\
    (forall name, fs1 !! name = None -> fs' !! name = None) /\
    (forall name, (forall c, c ∈ l -> c_end c <= v -> binlog_segment (c_end c) <> name) ->
      fs' !! name = fs1 !! name)).
  { destruct (H cs fs0 0 ltac:(done)) as (fs' & Hrun & Hc1 & _ & Hc2). exists fs'. split; [|done].
    unfold cleanup_snapshot_covered_segments, history_of. rewrite (io_run _ _ _ _ _ Hrun).
    unfold mret, io_ret. do 3 f_equal. fold (history_of cs e bs rs tail). unfold sat_sub. rewrite sealed_split. pose proof (len_nonneg kept). lia. }
  induction l as [|c l IH]; intros fs1 n Hl.
  - exists fs1. rewrite filter_nil. change (len (@nil chunk)) with 0. rewrite Z.add_0_r. split; [done|]. split; [by intros c ?%not_elem_of_nil|]. done.
  - cbn [map app remove_covered sealed_file declared_end_sequence path inspection].
    destruct (sealed_inspection fs s cs e bs rs tail Hh c (Hl c ltac:(by left))) as (_ & Hm & _).
    cbn [sealed_file inspection] in Hm. rewrite Hm. cbn [andb]. rewrite filter_cons.
    specialize (IH) as IH'. assert (Hl' : forall c0, c0 ∈ l -> c0 ∈ cs) by (intros; apply Hl; by right).
    destruct (Z.leb_spec (c_end c) v) as [Hle|Hgt].
    + rewrite decide_True by done. rewrite (io_run _ _ _ (delete (binlog_segment (c_end c)) fs1) tt) by done.
      destruct (IH (delete (binlog_segment (c_end c)) fs1) (n + 1) Hl') as (fs' & Hrun & H1 & H2 & H3).
      exists fs'. split; [rewrite Hrun, len_cons; do 3 f_equal; lia|]. split; [|split].
      * intros c0 Hin Hle0. apply elem_of_cons in Hin as [->|Hin]; [|by apply H1].
        apply H2, lookup_delete_eq.
      * intros name Hn. apply H2. apply lookup_delete_None. by right.
      * intros name Hn. rewrite H3 by (intros; apply Hn; [by right|done]).
        apply lookup_delete_ne, Hn; [by left|done].
    + rewrite decide_False by lia. destruct (IH fs1 n Hl') as (fs' & Hrun & H1 & H2 & H3).
      exists fs'. split; [done|]. split; [|split; [done|]].
      * intros c0 Hin Hle0. apply elem_of_cons in Hin as [->|Hin]; [lia|by apply H1].
      * intros name Hn. apply H3. intros; apply Hn; [by right|done].
Qed.

Lemma filter_all {A} (P : A -> Prop) {HP : forall a, Decision (P a)} (l : list A) :
  (forall a, a ∈ l -> P a) -> filter P l = l.
Proof.
  induction l as [|a l IH]; intros H; [done|]. rewrite filter_cons, decide_True by (apply H; by left).
  f_equal. apply IH. intros b Hb. apply H. by right.
Qed.

(** The rest of the history still joins the snapshot. *)
Lemma chain_kept :
  exists s' P, chain s' kept e /\ 0 < s' <= w + 1 /\
    chain_batches cs = P ++ chain_batches kept /\ s' = s + len P.
Proof.
  pose proof (dir_history _ _ _ _ _ _ _ _ _ Hdir) as Hh. pose proof (ho_start _ _ _ _ _ _ _ Hh) as H0.
  pose proof (dir_joined _ _ _ _ _ _ _ _ _ Hdir) as Hj. pose proof (ho_chain _ _ _ _ _ _ _ Hh) as Hc.
  unfold kept. clear Hdir Hh. induction Hc as [s|c l e He Hne Hc IH].
  - exists s, []. rewrite filter_nil. split; [constructor|]. split; [lia|]. split; [done|].
    change (len (@nil CommittedBatch)) with 0. lia.
  - pose proof (chunk_bounds c He Hne) as [B1 B2]. rewrite filter_cons.
    destruct (decide (v < c_end c)) as [Hlt|Hge].
    + exists (c_start c), []. replace (filter (fun c => v < c_end c) l) with l.
      * split; [by constructor|]. split; [lia|]. split; [done|]. change (len (@nil CommittedBatch)) with 0. lia.
      * symmetry. apply filter_all. intros c' Hin. destruct (chain_bounds _ _ _ c' Hc Hin). lia.
    + destruct (IH ltac:(lia) ltac:(lia)) as (s' & P & Hc' & Hs' & Hb & Heq). exists s', (c_batches c ++ P).
      split; [done|]. split; [done|]. change (chain_batches (c :: l)) with (c_batches c ++ chain_batches l).
      rewrite Hb, (assoc_L (++)). split; [done|]. rewrite len_app. unfold c_end in Heq. lia.
Qed.

(** What is left agrees with what there was. *)
Lemma after_suffix (q s0 : Z) (P X : list CommittedBatch) :
  s0 + len P - 1 <= q -> after q s0 (P ++ X) = after q (s0 + len P) X.
Proof.
  intros Hq. rewrite after_app. assert (Hcov : after q s0 P = []) by (apply drop_ge; unfold len in Hq; lia).
  by rewrite Hcov.
Qed.

(** The active file without its torn tail. *)
Lemma truncated_active :
  exists fs', truncate_active (history_of cs e bs rs tail) fs = Some (fs', Ok tt) /\
    (forall name, name <> binlog_path -> fs' !! name = fs !! name) /\
    (fs' !! binlog_path = Some (log rs) \/ (fs' !! binlog_path = None /\ fs !! binlog_path = None /\ bs = [])).
Proof.
  pose proof (dir_history _ _ _ _ _ _ _ _ _ Hdir) as Hh.
  unfold truncate_active. rewrite find_active_history. cbn [active_file inspection path].
  assert (Hi : truncated_tail (inspected e bs rs tail) = bool_decide (tail <> []) /\
    valid_len (inspected e bs rs tail) = len (log rs)) by (unfold inspected; by destruct bs).
  destruct Hi as [-> ->]. destruct (ho_file _ _ _ _ _ _ _ Hh) as [Hf|(Hf & -> & ->)].
  - case_bool_decide as Ht.
    + unfold truncate_file. rewrite Hf. eexists. split; [done|]. split.
      * intros name Hn. by apply lookup_insert_ne.
      * left. rewrite lookup_insert_eq. f_equal. by rewrite len_to_nat, take_app_length.
    + exists fs. split; [done|]. split; [done|]. left. rewrite Hf.
      by rewrite Ht, app_nil_r.
  - exists fs. split; [done|]. split; [done|]. by right.
Qed.

(** The directory recovery leaves behind. *)
Lemma directory_after fs1 fs2 :
  (forall name, name <> binlog_path -> fs1 !! name = fs !! name) ->
  (fs1 !! binlog_path = Some (log rs) \/ (fs1 !! binlog_path = None /\ fs !! binlog_path = None /\ bs = [])) ->
  cleaned fs1 fs2 ->
  exists s' P, directory (delete binlog_backup_path (delete binlog_temp_path fs2)) w entries s' kept e bs rs [] /\
    recovered_effects w entries s' kept bs = recovered_effects w entries s cs bs /\
    chain_batches cs = P ++ chain_batches kept /\ s' = s + len P.
Proof.
  intros H1 Hb [H2 H3]. pose proof (dir_history _ _ _ _ _ _ _ _ _ Hdir) as Hh.
  destruct chain_kept as (s' & P & Hc' & Hs' & HP & Heq). exists s', P.
  split; [|split; [|done]].
  2: { unfold recovered_effects. rewrite HP, <- (assoc_L (++)), (after_suffix w s P) by lia. by rewrite Heq. }
  set (fs' := delete binlog_backup_path (delete binlog_temp_path fs2)).
  assert (Hother : forall name, parse_binlog_segment_end_sequence (Utf8.from_utf8 name) = Ok None ->
    name <> binlog_backup_path -> name <> binlog_temp_path -> fs' !! name = fs1 !! name).
  { intros name Hp Hn1 Hn2. unfold fs'. rewrite !lookup_delete_ne by done. apply H3.
    intros c Hin _. by apply segment_name_other. }
  assert (Hbin : fs' !! binlog_path = fs1 !! binlog_path) by (by apply Hother).
  constructor; [constructor| | | |].
  - lia.
  - done.
  - apply Hh.
  - by left.
  - rewrite Hbin, app_nil_r. destruct Hb as [Hb|(Hb & _ & ->)]; [by left|by right].
  - intros c Hin. apply list_elem_of_filter in Hin as [Hgt Hin]. unfold fs'.
    rewrite !lookup_delete_ne by (apply not_eq_sym, segment_name_other; done).
    rewrite H3.
    + rewrite H1 by (apply segment_name_other; done). apply (ho_segments _ _ _ _ _ _ _ Hh c Hin).
    + intros c' Hin' Hle Heq'. pose proof (ho_chain _ _ _ _ _ _ _ Hh) as Hc.
      destruct (chain_bounds _ _ _ c Hc Hin) as (_ & _ & B). destruct (chain_bounds _ _ _ c' Hc Hin') as (_ & _ & B').
      pose proof (segment_parses _ B') as Q. rewrite Heq', (segment_parses _ B) in Q. injection Q. lia.
  - intros name [f Hf]. unfold fs' in Hf. apply lookup_delete_Some in Hf as [_ Hf].
    apply lookup_delete_Some in Hf as [_ Hf].
    assert (Hor : (exists c, c ∈ cs /\ c_end c <= v /\ name = binlog_segment (c_end c)) \/
      forall c, c ∈ cs -> c_end c <= v -> binlog_segment (c_end c) <> name).
    { destruct (decide (Exists (fun c => c_end c <= v /\ name = binlog_segment (c_end c)) cs)) as [He|He].
      - left. apply list.Exists_exists in He as (c & Hin & Hle & ->). by exists c.
      - right. intros c Hin Hle <-. apply He, list.Exists_exists. by exists c. }
    destruct Hor as [(c & Hin & Hle & ->)|Hn]; [rewrite (H2 c Hin Hle) in Hf; done|].
    rewrite H3 in Hf by done. destruct (decide (name = binlog_path)) as [->|Hne]; [by left|].
    rewrite H1 in Hf by done.
    destruct (ho_others _ _ _ _ _ _ _ Hh name ltac:(by eexists)) as [Hp|(c & Hin & ->)]; [by left|].
    right. exists c. split; [|done]. apply list_elem_of_filter. split; [|done].
    destruct (Z.lt_ge_cases v (c_end c)) as [Hlt|Hge]; [done|]. by destruct (Hn c Hin Hge).
  - etrans; [|apply (ho_count _ _ _ _ _ _ _ Hh)]. unfold len, kept. apply inj_le, length_filter.
  - lia.
  - apply Hdir.
  - rewrite !Hother by done. rewrite !H1 by done. apply Hdir.
  - intros _. unfold fs'. rewrite lookup_delete_eq, lookup_delete_ne by done. by rewrite lookup_delete_eq.
Qed.

End Clean.

(** *** The dataset *)

Lemma installed clk clk' st store :
  clock_before clk T -> engine_ok (engine st) -> engine_ok (engine store) ->
  snapshot_active (engine store) = false ->
  exists st' out e', raw_entries clk st = Some (st', out) /\
    engine_replace_all clk' (engine store) out = Some e' /\ engine_ok e' /\
    (footprint (dataset e') <= USIZE_MAX -> engine_wf e') /\
    (values_ok (dataset (engine st)) -> values_ok (dataset e')) /\
    forall k, logical_cell T (dataset e' !! k) = cell_at T st k.
Proof.
  intros Hclk Hok Hoks Ha.
  destruct (snapshot_all_acts clk (engine st) Hok) as [(_ & Hd & Hok') Hp].
  unfold raw_entries, on_engine. destruct (engine_snapshot_all clk (engine st)) as [e1 out]. cbn [fst snd] in *.
  assert (Hnd : NoDup out.*1) by (rewrite Hp; apply NoDup_fst_map_to_list).
  destruct (replace_all_acts clk' (engine store) out Hoks Ha Hnd) as (e' & Hr & Hoke & Hde & Hwf).
  exists (with_engine st e1), out, e'. split; [done|]. split; [done|]. split; [done|].
  rewrite Hde. split; [done|].
  rewrite (list_to_map_proper _ (map_to_list (m_sweep clk (dataset (engine st)))) Hnd Hp), list_to_map_to_list.
  split; [intros Hv k; rewrite lookup_m_sweep; apply cell_ok_live, Hv|].
  intros k. rewrite lookup_m_sweep. unfold cell_at. apply logical_live, Hclk.
Qed.

(** Recovery succeeds on every such directory, rebuilds the state of the
    snapshot and the complete batches after it, and leaves a directory without
    the torn tail from which the same state is recovered. *)
Lemma load_data_spec clks store :
  (forall i, clock_before (clks i) T) -> engine_ok (engine store) ->
  snapshot_active (engine store) = false ->
  exists fs' store' state s', load_data_from_paths clks store fs = Some (fs', Ok (store', state)) /\
    engine_ok (engine store') /\
    (footprint (dataset (engine store')) <= USIZE_MAX -> engine_wf (engine store')) /\
    same_limits store store' /\
    (forall k, cell_at T store' k = fold_left (effect_on T k) (recovered_effects w entries s cs bs) None) /\
    state = mkRecovery (Z.max w (e + len bs - 1)) w (len (after w s (chain_batches cs ++ bs)))
              (len (log rs)) (len (kept w)) (len (kept w)) /\
    directory fs' w entries s' (kept w) e bs rs [] /\ rotation_clean fs' /\
    recovered_effects w entries s' (kept w) bs = recovered_effects w entries s cs bs /\
    (Forall effect_value_ok (recovered_effects w entries s cs bs) -> values_ok (dataset (engine store'))) /\
    forall name, parse_binlog_segment_end_sequence (Utf8.from_utf8 name) = Ok None -> name <> binlog_path ->
      name <> binlog_backup_path -> name <> binlog_temp_path -> fs' !! name = fs !! name.
Proof.
  intros Hclks Hok Ha. pose proof (dir_history _ _ _ _ _ _ _ _ _ Hdir) as Hh.
  pose proof (dir_watermark _ _ _ _ _ _ _ _ _ Hdir) as Hw.
  unfold load_data_from_paths. rewrite (io_run _ _ _ _ _ rotation_settled).
  do 2 rewrite (io_run _ _ _ _ _ (exists_file_run _ _)). fold snapshot_name. cbv zeta.
  rewrite (io_run _ _ fs fs fs) by done.
  destruct snapshot_found as [Hfmt Hsnap].
  rewrite (io_run _ _ fs fs snapshot_format) by (unfold lift; by rewrite Hfmt).
  assert (Hwm : match snapshot_format with Versioned x => x | _ => 0 end = w).
  { unfold snapshot_format. destruct (fs !! snapshot_name); [done|]. by destruct Hsnap as [-> _]. }
  assert (Hmatch : forall X (a : X) (b : X), match snapshot_format with Legacy => a | _ => b end = b).
  { intros X a b. unfold snapshot_format. by destruct (fs !! snapshot_name). }
  rewrite Hmatch. rewrite (io_run _ _ _ _ _ (inspect_history (clks 0%nat) fs s cs e bs rs tail Hh)).
  rewrite Hwm, first_sequence_joined.
  destruct (staged (clks 1%nat) (Hclks 1%nat)) as (st1 & n & Hload & Hok1 & Hv1 & Hc1). rewrite Hload.
  rewrite (io_run _ _ fs fs (st1, n)) by done.
  destruct (replay_directory T w fs s cs e bs rs tail (mkReplay (clks 2%nat) st1 (checked_add w 1) 0) Hh ltac:(lia))
    as (r & Hrun & Hr & Hn & Hv2 & Hc2).
  { constructor; cbn [rp_clock rp_store rp_expected]; [done|done|].
    pose proof (dir_joined _ _ _ _ _ _ _ _ _ Hdir). f_equal. lia. }
  rewrite (io_run _ _ _ _ _ Hrun). destruct truncated_active as (fs1 & Htr & Hf1 & Hb1).
  rewrite (io_run _ _ _ _ _ Htr).
  destruct (installed (clks 3%nat) (clks 4%nat) (rp_store r) store (Hclks 3%nat) (rs_ok _ _ _ _ Hr) Hok Ha)
    as (st3 & out & e' & Hraw & Hrep & Hoke & Hwf & Hv3 & Hcell).
  rewrite Hraw. rewrite (io_run _ _ fs1 fs1 (st3, out)) by done. cbv beta iota.
  rewrite Hrep. rewrite (io_run _ _ fs1 fs1 e') by done.
  destruct (remove_covered_spec w fs1) as (fs2 & Hclean & Hcl). rewrite (io_run _ _ _ _ _ Hclean).
  rewrite (io_run _ _ fs2 (delete binlog_backup_path (delete binlog_temp_path fs2)) tt) by done.
  destruct (directory_after w ltac:(lia) fs1 fs2 Hf1 Hb1 Hcl) as (s' & P & Hd' & Heff & _).
  eexists _, _, _, s'. split; [done|]. cbn [engine with_engine]. split; [done|]. split; [done|].
  split; [done|]. split; [|split; [|split; [done|split; [|split; [done|split]]]]].
  - intros k. unfold cell_at. cbn [engine with_engine]. rewrite Hcell, Hc2. cbn [rp_store]. rewrite Hc1.
    unfold recovered_effects. by rewrite fold_left_app.
  - rewrite history_max, find_active_history, Hn. cbn [rp_replayed]. f_equal.
    + cbn [active_file inspection]. unfold inspected. by destruct bs.
    + clear. unfold history_of, kept, len. f_equal.
      induction cs as [|c cs' IH]; [done|]. cbn [map app]. rewrite !filter_cons.
      assert (Hb : beyond w (sealed_file c) = (w <? c_end c)) by done.
      destruct (decide (w < c_end c)); [rewrite decide_True by (rewrite Hb; by apply Z.ltb_lt)|
        rewrite decide_False by (rewrite Hb; intros ?%Z.ltb_lt; lia)]; cbn [length]; [by f_equal|done].
  - split; [apply lookup_delete_eq|]. rewrite lookup_delete_ne by done. apply lookup_delete_eq.
  - unfold recovered_effects. intros [H1 H2]%list.Forall_app. apply Hv3, Hv2; [done|]. by apply Hv1.
  - intros name Hp Hn1 Hn2 Hn3. rewrite !lookup_delete_ne by done. destruct Hcl as [_ Hcl]. rewrite Hcl; [by apply Hf1|].
    intros c Hin _. by apply segment_name_other.
Qed.

End Load.

End Recovery.
