(* ===== verification/InstallSpec.v ===== *)
(** * InstallSpec: small files are replaced as a whole

    A snapshot or a replica identity that is being replaced is, at every
    moment, the old one or the new one. *)

From Stdlib Require Import ZArith Lia.
From Stdlib Require Import Strings.Byte.
From stdpp Require Import base gmap list strings numbers sorting.
From S2P Require Import Prelude Text Json JsonPath Value Shard Engine Store Persistence Model Codec CodecSpec BinlogFile BinlogIo Recovery ManagedBinlog SnapshotWriter ReplicaState HistorySpec ManagedSpec SnapshotSpec.

Open Scope Z_scope.

(** ** File operations *)

Lemma sys_rename_spec m from to m' r :
  sys_rename m from to = (m', r) ->
  match r with
  | Ok _ => m_files m' = match m_files m !! from with Some b => <[to := b]> (delete from (m_files m)) | None => m_files m end
  | Err _ => m_files m' = m_files m
  end /\ m_handle m' = m_handle m /\ m_disk m' = m_disk m.
Proof.
  unfold sys_rename. destruct (sys m) as [m1 [u|e]] eqn:E; apply sys_spec in E as (Hf & Hh & Hd);
    intros [= <- <-]; [|done]. rewrite Hf. destruct (m_files m !! from); simpl; rewrite ?Hf; done.
Qed.

Lemma sys_write_file_spec m name contents m' r :
  sys_write_file m name contents = (m', r) ->
  (forall n, n <> name -> m_files m' !! n = m_files m !! n) /\ m_handle m' = m_handle m /\ m_disk m' = m_disk m /\
  (r = Ok tt -> m_files m' !! name = Some contents).
Proof.
  unfold sys_write_file. destruct (next_outcome m) as [m1 o] eqn:E.
  apply next_outcome_spec in E as (Hf & Hh & Hd & _).
  assert (Hins : forall b n, n <> name -> (<[name := b]> (m_files m1)) !! n = m_files m !! n)
    by (intros b n Hn; by rewrite lookup_insert_ne, Hf).
  destruct o as [|n|e []]; intros [= <- <-]; simpl; (split; [by intros; rewrite ?Hins, ?Hf|]);
    (split; [done|]); (split; [done|]); try done. intros _. apply lookup_insert_eq.
Qed.

(** ** Snapshots *)

Section Snapshots.
Context {GZ : Gzip} {JN : JsonNumber} {SJ : SerdeJson} {HO : HashOrder}.

Lemma snapshot_paths_distinct :
  snapshot_path <> snapshot_temp_path /\ snapshot_path <> snapshot_backup_path /\
  snapshot_temp_path <> snapshot_backup_path.
Proof. done. Qed.

(** The state while a snapshot [new] replaces [old]. *)
Definition installing (old : option bytes) (new : bytes) (fs0 fs : Files) : Prop :=
  rest_kept fs0 fs /\ (current_snapshot fs = old \/ current_snapshot fs = Some new).

Lemma rest_kept_insert fs0 fs name b : name ∈ snapshot_files -> rest_kept fs0 fs -> rest_kept fs0 (<[name := b]> fs).
Proof. intros Hin H n Hn. rewrite lookup_insert_ne by (intros ->; done). by apply H. Qed.

Lemma rest_kept_delete fs0 fs name : name ∈ snapshot_files -> rest_kept fs0 fs -> rest_kept fs0 (delete name fs).
Proof. intros Hin H n Hn. rewrite lookup_delete_ne by (intros ->; done). by apply H. Qed.

Lemma in_snapshot_files :
  snapshot_path ∈ snapshot_files /\ snapshot_temp_path ∈ snapshot_files /\ snapshot_backup_path ∈ snapshot_files.
Proof. unfold snapshot_files. split_and!; repeat constructor. Qed.

(** Renaming the snapshot to the backup keeps it current. *)
Lemma backup_current fs b :
  fs !! snapshot_path = Some b ->
  current_snapshot (<[snapshot_backup_path := b]> (delete snapshot_path fs)) = Some b.
Proof.
  intros H. unfold current_snapshot. rewrite lookup_insert_ne by done. rewrite lookup_delete_eq. by rewrite lookup_insert_eq.
Qed.

Lemma install_spec old new m m' r :
  m_files m !! snapshot_temp_path = Some new -> current_snapshot (m_files m) = old ->
  install_snapshot m = (m', r) ->
  installing old new (m_files m) (m_files m') /\ (r = Ok tt -> current_snapshot (m_files m') = Some new) /\
  m_handle m' = m_handle m /\ m_disk m' = m_disk m.
Proof.
  intros Ht Hold. unfold install_snapshot. destruct in_snapshot_files as (Is & It & Ib).
  assert (Hrefl : rest_kept (m_files m) (m_files m)) by done.
  (* the backup *)
  assert (Hprep : exists m1 prepared, (if is_some (m_files m !! snapshot_path) then
      match sys_rename m snapshot_path snapshot_backup_path with
      | (m, Err e) => (m, Err e)
      | (m, Ok _) => sys m
      end else (m, Ok tt)) = (m1, prepared) /\ rest_kept (m_files m) (m_files m1) /\
      current_snapshot (m_files m1) = old /\ m_files m1 !! snapshot_temp_path = Some new /\
      m_handle m1 = m_handle m /\ m_disk m1 = m_disk m).
  { destruct (m_files m !! snapshot_path) as [b|] eqn:Eb; cbn [is_some]; [|by eexists _, _].
    destruct (sys_rename m snapshot_path snapshot_backup_path) as [m1 [u|e]] eqn:E1;
      apply sys_rename_spec in E1 as (Hf1 & Hh1 & Hd1).
    - rewrite Eb in Hf1. destruct (sys m1) as [m2 r2] eqn:E2. apply sys_spec in E2 as (Hf2 & Hh2 & Hd2).
      eexists m2, r2. split; [done|]. rewrite Hf2, Hf1, Hh2, Hd2. split_and!; try done.
      + by apply rest_kept_insert, rest_kept_delete.
      + rewrite backup_current by done. unfold current_snapshot in Hold. by rewrite Eb in Hold.
      + by rewrite lookup_insert_ne, lookup_delete_ne.
    - eexists m1, (Err e). split; [done|]. by rewrite Hf1, Hh1, Hd1. }
  destruct Hprep as (m1 & prepared & -> & Hk1 & Hc1 & Ht1 & Hh1 & Hd1).
  destruct prepared as [u|e]; [|intros [= <- <-]; split; [split; [done|by left]|done]].
  destruct (sys_rename m1 snapshot_temp_path snapshot_path) as [m2 [u2|e2]] eqn:E2;
    apply sys_rename_spec in E2 as (Hf2 & Hh2 & Hd2).
  - rewrite Ht1 in Hf2.
    assert (Hnew : current_snapshot (m_files m2) = Some new)
      by (unfold current_snapshot; by rewrite Hf2, lookup_insert_eq).
    assert (Hk2 : rest_kept (m_files m) (m_files m2)) by (rewrite Hf2; by apply rest_kept_insert, rest_kept_delete).
    destruct (sys m2) as [m3 [u3|e3]] eqn:E3; apply sys_spec in E3 as (Hf3 & Hh3 & Hd3); intros [= <- <-];
      rewrite Hf3; (split; [split; [done|by right]|]); (split; [done|]); split; congruence.
  - destruct (negb (is_some (m_files m2 !! snapshot_path)) && is_some (m_files m2 !! snapshot_backup_path)) eqn:Eb.
    + apply andb_true_iff in Eb as [Ep Eb].
      destruct (sys_rename m2 snapshot_backup_path snapshot_path) as [m3 r3] eqn:E3.
      apply sys_rename_spec in E3 as (Hf3 & Hh3 & Hd3). cbn [fst].
      destruct (sys m3) as [m4 r4] eqn:E4. apply sys_spec in E4 as (Hf4 & Hh4 & Hd4). cbn [fst].
      intros [= <- <-]. rewrite Hf4. split; [|split; [done|split; congruence]].
      destruct r3 as [u3|e3]; rewrite Hf3; [|rewrite Hf2; split; [done|by left]].
      rewrite Hf2 in Ep, Eb |- *. destruct (m_files m1 !! snapshot_backup_path) as [b|] eqn:Ebb; [|discriminate Eb].
      split; [by apply rest_kept_insert, rest_kept_delete|]. left.
      unfold current_snapshot at 1. rewrite lookup_insert_eq. unfold current_snapshot in Hc1.
      destruct (m_files m1 !! snapshot_path); [discriminate Ep|congruence].
    + intros [= <- <-]. rewrite Hf2. split; [split; [done|by left]|]. split; [done|]. split; congruence.
Qed.

Lemma write_snapshot_spec entries watermark m m' r :
  write_snapshot_file entries watermark m = (m', r) ->
  rest_kept (m_files m) (m_files m') /\ m_handle m' = m_handle m /\ m_disk m' = m_disk m /\
  ((current_snapshot (m_files m') = current_snapshot (m_files m) /\ r <> Ok tt) \/
   exists records, snapshot_records entries = Ok records /\
     current_snapshot (m_files m') = Some (gzip (snapshot_header watermark ++ records))).
Proof.
  unfold write_snapshot_file. destruct in_snapshot_files as (Is & It & Ib).
  assert (Htemp : forall contents m1 r1, sys_write_file m snapshot_temp_path contents = (m1, r1) ->
    rest_kept (m_files m) (m_files m1) /\ current_snapshot (m_files m1) = current_snapshot (m_files m) /\
    m_handle m1 = m_handle m /\ m_disk m1 = m_disk m /\ (r1 = Ok tt -> m_files m1 !! snapshot_temp_path = Some contents)).
  { intros contents m1 r1 E. apply sys_write_file_spec in E as (Hf & Hh & Hd & Ht). split_and!; try done.
    - intros n Hn. apply Hf. intros ->. done.
    - unfold current_snapshot. by rewrite !Hf by done. }
  destruct (snapshot_records entries) as [records|e] eqn:Er.
  - destruct (sys_write_file m snapshot_temp_path _) as [m1 [[]|e1]] eqn:E1;
      apply Htemp in E1 as (Hk1 & Hc1 & Hh1 & Hd1 & Ht1); [|intros [= <- <-]; split_and!; [done..|by left]].
    destruct (sys m1) as [m2 [u2|e2]] eqn:E2; apply sys_spec in E2 as (Hf2 & Hh2 & Hd2);
      [|intros [= <- <-]; rewrite Hf2; split_and!; [done|congruence|congruence|left; by rewrite Hc1]].
    intros E3. apply (install_spec (current_snapshot (m_files m)) (gzip (snapshot_header watermark ++ records))) in E3
      as ([Hk3 Hc3] & Hok & Hh3 & Hd3).
    + split; [intros n Hn; rewrite Hk3, Hf2 by done; by apply Hk1|]. split; [congruence|]. split; [congruence|].
      destruct r as [[]|e3]; [right; exists records; split; [done|by apply Hok]|].
      destruct Hc3 as [Hc3|Hc3]; [by left|right; by exists records].
    + rewrite Hf2. by apply Ht1.
    + by rewrite Hf2.
  - destruct (sys_write_file m snapshot_temp_path []) as [m1 [u1|e1]] eqn:E1;
      apply Htemp in E1 as (Hk1 & Hc1 & Hh1 & Hd1 & _); intros [= <- <-]; split_and!; try done; by left.
Qed.

End Snapshots.

(** ** The replica identity *)

(** States that can be written and read back. *)
Definition state_ok (state : DurableReplicaState) : Prop :=
  match state with
  | Ready identity => 0 < replid identity <= U64_MAX /\ 0 <= baseline_sequence identity <= U64_MAX
  | _ => True
  end.

(** What is read for a state that was written when the snapshot is at [watermark]. *)
Definition seen_at (watermark : Z) (state : DurableReplicaState) : DurableReplicaState :=
  match state with
  | Ready identity => if baseline_sequence identity =? watermark then state else Installing
  | _ => state
  end.

Lemma trim_end_digits (l : bytes) (d : bytes) :
  Utf8.valid l = true -> d <> [] -> Forall (fun b => is_ascii_digit b = true) d ->
  trim_end ((l ++ d) ++ [x0a]) = l ++ d.
Proof.
  intros Hl Hd Hds. destruct (exists_last Hd) as (d0 & b & ->). apply list.Forall_app in Hds as [Hd0 Hb].
  inversion Hb as [|? ? Hb' _]; subst.
  assert (V0 : Utf8.valid (l ++ d0) = true) by (apply Utf8.valid_app; [done|by apply valid_digits]).
  assert (Vb : Utf8.valid [b] = true) by (apply valid_digits; by constructor).
  unfold trim_end. rewrite (assoc_L (++) l).
  assert (Cb : Utf8.chars [b] = [[b]]).
  { clear - Hb'. destruct b; vm_compute in Hb'; try discriminate Hb'; reflexivity. }
  assert (Wb : is_whitespace [b] = false).
  { clear - Hb'. destruct b; vm_compute in Hb'; try discriminate Hb'; reflexivity. }
  rewrite <- (assoc_L (++)), (chars_app (l ++ d0)) by done. change ([b] ++ [x0a]) with ([b] ++ [x0a]).
  rewrite (chars_app [b]) by done. rewrite Cb. change (Utf8.chars [x0a]) with [[x0a]].
  rewrite !rev_app_distr. cbn [rev app drop_while]. change (is_whitespace [x0a]) with true. cbn iota.
  rewrite Wb. cbn [rev]. rewrite rev_involutive, concat_app. cbn [concat]. rewrite app_nil_r.
  by rewrite Utf8.concat_chars.
Qed.

Lemma state_line_head status r b :
  state_line status r b =
  (REPLICA_STATE_MAGIC ++ [x09] ++ print_Z REPLICA_STATE_VERSION ++ [x09] ++ status ++ [x09] ++ print_Z r ++ [x09])
  ++ print_Z b.
Proof. unfold state_line. by rewrite <- !(assoc_L (++)). Qed.

Lemma state_line_fields status r b :
  x09 ∉ status -> 0 <= r -> 0 <= b ->
  split_tabs [] (state_line status r b) =
  [REPLICA_STATE_MAGIC; print_Z REPLICA_STATE_VERSION; status; print_Z r; print_Z b].
Proof.
  intros Hs Hr Hb. unfold state_line.
  rewrite split_tabs_field by by_decision. rewrite split_tabs_field by by_decision.
  rewrite split_tabs_field by done. rewrite split_tabs_field by (by apply digits_no).
  rewrite split_tabs_last by (by apply digits_no). done.
Qed.

Lemma state_line_read status r b :
  Utf8.valid status = true -> len status <= 10 -> 0 <= r <= U64_MAX -> 0 <= b <= U64_MAX ->
  Utf8.valid (state_line status r b ++ [x0a]) = true /\ len (state_line status r b ++ [x0a]) <= 100 /\
  trim_end (state_line status r b ++ [x0a]) = state_line status r b.
Proof.
  intros Hs Hl Hr Hb.
  destruct (print_Z_spec r ltac:(lia)) as (d1 & ds1 & P1 & D1 & _).
  destruct (print_Z_spec b ltac:(lia)) as (d2 & ds2 & P2 & D2 & _).
  assert (V : Utf8.valid (REPLICA_STATE_MAGIC ++ [x09] ++ print_Z REPLICA_STATE_VERSION ++ [x09] ++ status
    ++ [x09] ++ print_Z r ++ [x09]) = true).
  { repeat (apply Utf8.valid_app; [first [reflexivity|done|rewrite P1; by apply valid_digits]|]). reflexivity. }
  rewrite state_line_head. split; [|split].
  - apply Utf8.valid_app; [apply Utf8.valid_app; [done|rewrite P2; by apply valid_digits]|reflexivity].
  - rewrite !len_app. pose proof (print_Z_length r Hr). pose proof (print_Z_length b Hb).
    change (len REPLICA_STATE_MAGIC) with 8. change (len [x09]) with 1. change (len [x0a]) with 1.
    change (len (print_Z REPLICA_STATE_VERSION)) with 1. lia.
  - apply trim_end_digits; [done| |]; rewrite P2; done.
Qed.

(** Writing a state and reading it back. *)
Lemma replica_state_roundtrip fs state watermark :
  state_ok state -> fs !! replica_state_path = Some (render_state state) ->
  load_durable_replica_state fs watermark = Ok (Some (seen_at watermark state)).
Proof.
  intros Hok Hf. unfold load_durable_replica_state. rewrite Hf.
  assert (H : exists status r b, render_state state = state_line status r b ++ [x0a] /\
    Utf8.valid status = true /\ len status <= 10 /\ 0 <= r <= U64_MAX /\ 0 <= b <= U64_MAX /\
    x09 ∉ status /\ parse_replica_state (state_line status r b ++ [x0a]) watermark = Ok (seen_at watermark state)).
  { assert (Hp : forall status r b, Utf8.valid status = true -> len status <= 10 ->
      0 <= r <= U64_MAX -> 0 <= b <= U64_MAX -> x09 ∉ status ->
      parse_replica_state (state_line status r b ++ [x0a]) watermark =
      (if bytes_eqb status (bs "DETACHED") && (r =? 0) && (b =? 0) then Ok Detached
        else if bytes_eqb status (bs "INSTALLING") && (r =? 0) && (b =? 0) then Ok Installing
        else if bytes_eqb status (bs "READY") && negb (r =? 0) then
          if negb (b =? watermark) then Ok Installing else Ok (Ready (mkIdentity r b))
        else Err (PersistenceError_new (bs "Invalid durable replica state fields")))).
    { intros status r b V L R B X. unfold parse_replica_state.
      destruct (state_line_read status r b V L R B) as (_ & _ & ->).
      rewrite state_line_fields by (done || lia). rewrite bytes_eqb_refl. cbn [negb].
      change (parse_u8 (print_Z REPLICA_STATE_VERSION)) with (Some 2). step.
      change (negb (2 =? REPLICA_STATE_VERSION)) with false. cbv iota.
      unfold parse_u64. by rewrite !parse_print_unsigned by lia. }
    destruct state as [| |[r b]].
    - exists (bs "DETACHED"), 0, 0. split_and!; first [done|lia|by_decision].
    - exists (bs "INSTALLING"), 0, 0. split_and!; first [done|lia|by_decision].
    - destruct Hok as [Hr Hb]. cbn [replid baseline_sequence] in *. exists (bs "READY"), r, b.
      split_and!; try first [done|lia|by_decision]. rewrite Hp by first [done|lia|by_decision].
      rewrite (proj2 (Z.eqb_neq r 0)) by lia. cbn [seen_at baseline_sequence].
      change (bytes_eqb (bs "READY") (bs "DETACHED")) with false.
      change (bytes_eqb (bs "READY") (bs "INSTALLING")) with false.
      change (bytes_eqb (bs "READY") (bs "READY")) with true. cbn [andb negb].
      by destruct (b =? watermark). }
  destruct H as (status & r & b & -> & V & L & R & B & X & Hp).
  destruct (state_line_read status r b V L R B) as (V2 & L2 & _).
  rewrite (proj2 (Z.ltb_ge _ _)) by (unfold MAX_SNAPSHOT_METADATA_SIZE; lia).
  unfold Utf8.from_utf8. rewrite V2, Hp. done.
Qed.

(** The file holds the old state or the new one, and the new one on success. *)
Lemma write_state_spec state m m' r :
  write_durable_replica_state state m = (m', r) ->
  (forall name, name <> replica_state_path -> name <> replica_state_temp_path ->
    m_files m' !! name = m_files m !! name) /\ m_handle m' = m_handle m /\ m_disk m' = m_disk m /\
  ((m_files m' !! replica_state_path = m_files m !! replica_state_path /\ r <> Ok tt) \/
   m_files m' !! replica_state_path = Some (render_state state)).
Proof.
  unfold write_durable_replica_state.
  destruct (sys_write_file m replica_state_temp_path (render_state state)) as [m1 [[]|e1]] eqn:E1;
    apply sys_write_file_spec in E1 as (Hf1 & Hh1 & Hd1 & Ht1).
  2: { intros [= <- <-]. split_and!; [intros; by apply Hf1|done|done|left; split; [by apply Hf1|done]]. }
  destruct (sys m1) as [m2 [u2|e2]] eqn:E2; apply sys_spec in E2 as (Hf2 & Hh2 & Hd2).
  2: { intros [= <- <-]. rewrite Hf2. split_and!; [intros; by apply Hf1|congruence|congruence|left; split; [by apply Hf1|done]]. }
  destruct (sys_rename m2 replica_state_temp_path replica_state_path) as [m3 [u3|e3]] eqn:E3;
    apply sys_rename_spec in E3 as (Hf3 & Hh3 & Hd3).
  2: { intros [= <- <-]. rewrite Hf3, Hf2. split_and!; [intros; by apply Hf1|congruence|congruence|left; split; [by apply Hf1|done]]. }
  rewrite Hf2, (Ht1 eq_refl) in Hf3.
  assert (Hn : m_files m3 !! replica_state_path = Some (render_state state)) by (by rewrite Hf3, lookup_insert_eq).
  assert (Hk : forall name, name <> replica_state_path -> name <> replica_state_temp_path ->
    m_files m3 !! name = m_files m !! name).
  { intros name H1 H2. rewrite Hf3, lookup_insert_ne, lookup_delete_ne by done. by apply Hf1. }
  destruct (sys m3) as [m4 [u4|e4]] eqn:E4; apply sys_spec in E4 as (Hf4 & Hh4 & Hd4); intros [= <- <-];
    rewrite Hf4; (split_and!; [done|congruence|congruence|by right]).
Qed.
