(* ===== verification/CommitSpec.v ===== *)
(** * CommitSpec: accepted batches are in the directory

    What the acceptance of a group of batches does to the directory: every
    batch is stored, or none is, or the failure is indeterminate and a prefix
    of the group can be recovered. *)

From Stdlib Require Import ZArith Lia.
From Stdlib Require Import Strings.Byte.
From stdpp Require Import base gmap list strings numbers sorting.
From S2P Require Import Prelude Text Json JsonPath Value Shard Engine Store Persistence Model Codec CodecSpec BinlogFile BinlogIo AppendSpec Recovery ManagedBinlog SnapshotWriter ReplicaState Runtime HistorySpec ManagedSpec SealSpec EntryEq StoreSpec ModelSpec SnapshotSpec RecoverySpec.

Open Scope Z_scope.

Section Commit.
Context {CRC : Crc32} {GZ : Gzip} {JN : JsonNumber} {SJ : SerdeJson} {HO : HashOrder}.

(** ** Numbering *)

Lemma check_sequences_spec batches n :
  0 < n <= U64_MAX -> check_sequences (Some n) batches = Ok tt ->
  forall i s b, batches !! i = Some (s, b) -> s = n + Z.of_nat i /\ s <= U64_MAX.
Proof.
  revert n. induction batches as [|[s0 b0] batches IH]; intros n Hn H i s b Hi; [done|].
  cbn [check_sequences] in H. destruct (Z.eqb_spec s0 n) as [->|]; [|discriminate H]. cbn [negb] in H.
  destruct i as [|i]; [injection Hi as <- <-; lia|].
  unfold checked_add in H. destruct (Z.leb_spec (n + 1) U64_MAX) as [Hle|Hgt].
  - destruct (IH (n + 1) ltac:(lia) H i s b Hi). lia.
  - destruct batches as [|[s1 b1] rest]; [done|discriminate H].
Qed.

Lemma check_sequences_cons s b batches n :
  check_sequences (Some n) ((s, b) :: batches) = Ok tt -> 0 < n <= U64_MAX ->
  s = n /\ (batches = [] \/ (n + 1 <= U64_MAX /\ check_sequences (Some (n + 1)) batches = Ok tt)).
Proof.
  cbn [check_sequences]. intros H Hn. destruct (Z.eqb_spec s n) as [->|]; [|discriminate H]. cbn [negb] in H.
  split; [done|]. unfold checked_add in H. destruct (Z.leb_spec (n + 1) U64_MAX) as [Hle|Hgt]; [by right|].
  destruct batches as [|[s1 b1] rest]; [by left|discriminate H].
Qed.

Definition batches_ok (batches : list (Z * CommittedBatch)) : Prop :=
  Forall (fun b => Forall effect_ok (effects b)) batches.*2.

(** The records of a numbered group. *)
Lemma encode_batches_spec batches n records :
  0 < n <= U64_MAX -> check_sequences (Some n) batches = Ok tt -> encode_batches batches = Ok records ->
  batches_ok batches ->
  Forall (fun s => 0 <= s <= U64_MAX) records.*1 /\ Forall (fun b => 0 < len b) records.*2 /\
  (Forall loggable records -> encodes n batches.*2 records) /\ length records = length batches.
Proof.
  revert n records. induction batches as [|[s b] batches IH]; intros n records Hn Hc He Hok.
  { apply Ok_inj in He as <-. split_and!; [constructor|constructor|intros _; constructor|done]. }
  apply check_sequences_cons in Hc as [-> Hc]; [|done]. unfold batches_ok in Hok. rewrite fmap_cons in Hok.
  inversion Hok as [|? ? Hb Hok']; subst. cbn [snd] in Hb.
  cbn [encode_batches] in He. destruct (encode_committed_batch b) as [p|e] eqn:Ep; [|discriminate He].
  cbn [mbind result_bind] in He. destruct (encode_batches batches) as [rest|e] eqn:Er; [|discriminate He].
  cbn [mbind result_bind] in He. injection He as <-.
  destruct (batch_roundtrip (fun _ => 0) b p Hb Ep) as [_ Hp].
  assert (Hrest : Forall (fun s => 0 <= s <= U64_MAX) rest.*1 /\ Forall (fun b => 0 < len b) rest.*2 /\
    (Forall loggable rest -> encodes (n + 1) batches.*2 rest) /\ length rest = length batches).
  { destruct Hc as [->|[Hle Hc]]; [|by apply IH; [lia|..]].
    apply Ok_inj in Er as <-. split_and!; [constructor|constructor|intros _; constructor|done]. }
  destruct Hrest as (H1 & H2 & H3 & H4). rewrite !fmap_cons. cbn [fst snd].
  split_and!; [constructor; [lia|done]|constructor; [lia|done]| |simpl; congruence].
  intros Hl. inversion Hl as [|? ? (Hs & Hpos & Hmax) Hl']; subst. cbn [fst snd] in *.
  constructor; auto.
Qed.

(** ** Appending to a directory *)

(** The directory holds a prefix of what was being written. *)
Lemma append_directory fs fs' w entries s cs e bs rs bs2 rs2 p q :
  directory fs w entries s cs e bs rs [] -> encodes (e + len bs) bs2 rs2 ->
  log rs2 = p ++ q -> fs' !! binlog_path = Some (log rs ++ p) ->
  (forall name, name <> binlog_path -> fs' !! name = fs !! name) ->
  exists bs2a bs2b rs2a tail, bs2 = bs2a ++ bs2b /\
    directory fs' w entries s cs e (bs ++ bs2a) (rs ++ rs2a) tail /\
    (q = [] -> bs2b = [] /\ rs2a = rs2 /\ tail = []).
Proof.
  intros Hd He Hpq Hf Hothers. pose proof (dir_history _ _ _ _ _ _ _ _ _ Hd) as Hh.
  destruct (log_prefix rs2 p q Hpq) as (done & rest & tail & Hr & Hp & Ht).
  rewrite Hr in He. apply encodes_split in He as (bs2a & bs2b & -> & Ha & Hb).
  exists bs2a, bs2b, done, tail. split; [auto|].
  assert (Htail : torn_tail tail).
  { destruct rest as [|r rest]; [by left|]. right. exists r. split; [|auto].
    apply encodes_loggable in Hb. by inversion Hb. }
  split.
  - constructor; [constructor| | | |].
    + apply Hh.
    + apply Hh.
    + apply encodes_app; [apply Hh|auto].
    + auto.
    + left. rewrite Hf, Hp, log_app. by rewrite <- (assoc_L (++)).
    + intros c Hin. rewrite Hothers; [by apply Hh|].
      intros Heq. destruct (chain_bounds _ _ _ c (ho_chain _ _ _ _ _ _ _ Hh) Hin) as (_ & _ & B).
      pose proof (segment_parses _ B) as P. rewrite Heq in P. discriminate P.
    + intros name Hs. destruct (decide (name = binlog_path)) as [->|Hn]; [by left|].
      rewrite Hothers in Hs by auto. by apply (ho_others _ _ _ _ _ _ _ Hh).
    + apply Hh.
    + apply Hd.
    + apply Hd.
    + rewrite !Hothers by discriminate. apply Hd.
    + intros Hnone. rewrite Hf in Hnone. discriminate Hnone.
  - intros ->. rewrite app_nil_r in Hpq. destruct rest as [|r rest].
    + subst tail. rewrite app_nil_r in *. inversion Hb; subst. by rewrite ?app_nil_r in *.
    + exfalso. destruct Ht as (q' & Hq' & Hfr).
      assert (Hlen : len (log rs2) = len (log done) + len tail) by (by rewrite Hpq, Hp, len_app).
      rewrite Hr, log_app, len_app in Hlen. change (log (r :: rest)) with (frame r ++ log rest) in Hlen.
      rewrite len_app, Hfr, len_app in Hlen. pose proof (len_nonneg (log rest)).
      destruct q'; [done|]. rewrite len_cons in Hlen. pose proof (len_nonneg q'). lia.
Qed.

(** ** The durable state *)

(** Recovery at time [T] from the directory [fs] would apply effects that leave
    the same cells as [F]. *)
Definition recoverable (T : Z) (fs : Files) (F : list CommittedEffect) : Prop :=
  exists w entries s cs e bs rs tail, directory fs w entries s cs e bs rs tail /\
    forall k, fold_left (effect_on T k) (recovered_effects w entries s cs bs) None =
              fold_left (effect_on T k) F None.

(** The directory holds exactly [F], up to the runtime's offset, and the active
    file is open. *)
Definition stored_as (T : Z) (r : CommitRuntime) (F : list CommittedEffect)
    (w : Z) (entries : list (bytes * DataEntry)) (s : Z) (cs : list chunk) (e : Z)
    (bs : list CommittedBatch) (rs : list (Z * bytes)) : Prop :=
  directory (m_files (rt_binlog r)) w entries s cs e bs rs [] /\
  m_files (rt_binlog r) !! binlog_path = Some (log rs) /\
  (is_Some (m_handle (rt_binlog r)) /\ rotation_clean (m_files (rt_binlog r))) /\
  w <= rt_offset r /\ rt_offset r = e + len bs - 1 /\
  forall k, fold_left (effect_on T k) (recovered_effects w entries s cs bs) None =
            fold_left (effect_on T k) F None.

Definition stored (T : Z) (r : CommitRuntime) (F : list CommittedEffect) : Prop :=
  exists w entries s cs e bs rs, stored_as T r F w entries s cs e bs rs.

Lemma stored_recoverable T r F : stored T r F -> recoverable T (m_files (rt_binlog r)) F.
Proof. intros (w & entries & s & cs & e & bs & rs & Hd & _ & _ & _ & _ & Hk). by exists w, entries, s, cs, e, bs, rs, []. Qed.

Lemma recovered_effects_app w entries s cs e bs bs2 :
  chain s cs e -> w < e + len bs ->
  recovered_effects w entries s cs (bs ++ bs2) = recovered_effects w entries s cs bs ++ batch_effects bs2.
Proof.
  intros Hc Hw. unfold recovered_effects. rewrite (assoc_L (++) (chain_batches cs)), (after_app w s (_ ++ bs)).
  rewrite (after_all w (s + _)) by (rewrite len_app; pose proof (chain_length s cs e Hc); lia).
  by rewrite batch_effects_app, (assoc_L (++)).
Qed.

(** ** Accepting a group *)

Section Accept.
Context (T : Z) (r : CommitRuntime) (F : list CommittedEffect).
Context (w : Z) (entries : list (bytes * DataEntry)) (s : Z) (cs : list chunk) (e : Z).
Context (bs : list CommittedBatch) (rs : list (Z * bytes)).
Context (Hst : stored_as T r F w entries s cs e bs rs).

Let m := rt_binlog r.

(** [fs'] holds the files of [r] with [p], a part of the records of [bs2], at
    the end of the active file. *)
Lemma extended_directory (fs' : Files) bs2 rs2 (p q : bytes) :
  encodes (e + len bs) bs2 rs2 -> log rs2 = p ++ q -> fs' !! binlog_path = Some (log rs ++ p) ->
  (forall name, name <> binlog_path -> fs' !! name = m_files m !! name) ->
  exists bs2a, bs2a `prefix_of` bs2 /\ recoverable T fs' (F ++ batch_effects bs2a) /\
    (q = [] -> bs2a = bs2 /\ directory fs' w entries s cs e (bs ++ bs2) (rs ++ rs2) [] /\
      forall k, fold_left (effect_on T k) (recovered_effects w entries s cs (bs ++ bs2)) None =
                fold_left (effect_on T k) (F ++ batch_effects bs2) None).
Proof.
  destruct Hst as (Hd & Hf & _ & Hw & Ho & Hk). intros He Hpq Hf' Hothers.
  destruct (append_directory _ fs' w entries s cs e bs rs bs2 rs2 p q Hd He Hpq Hf' Hothers)
    as (bs2a & bs2b & rs2a & tail & -> & Hd' & Hq).
  pose proof (ho_chain _ _ _ _ _ _ _ (dir_history _ _ _ _ _ _ _ _ _ Hd)) as Hc.
  assert (Heff : forall bs3 k, fold_left (effect_on T k) (recovered_effects w entries s cs (bs ++ bs3)) None =
    fold_left (effect_on T k) (F ++ batch_effects bs3) None).
  { intros bs3 k. rewrite (recovered_effects_app w entries s cs e) by (done || lia).
    by rewrite !fold_left_app, Hk. }
  exists bs2a. split; [by apply prefix_app_r|]. split.
  - exists w, entries, s, cs, e, (bs ++ bs2a), (rs ++ rs2a), tail. split; [done|]. apply Heff.
  - intros Hq'. destruct (Hq Hq') as (-> & -> & ->). rewrite app_nil_r. split; [done|]. split; [done|]. apply Heff.
Qed.

Lemma active_log : active_contents m = log rs.
Proof. unfold active_contents, m. destruct Hst as (_ & -> & _). done. Qed.

(** One group through the worker. *)
Lemma worker_append_spec policy batches records m' res :
  check_sequences (Some (e + len bs)) batches = Ok tt -> 0 < e + len bs <= U64_MAX ->
  encode_batches batches = Ok records -> batches_ok batches ->
  match res with Ok _ => True | Err _ => rollback_safe m end ->
  worker_append policy records m = Some (m', res) ->
  (is_Some (m_handle m') /\ rotation_clean (m_files m')) /\
  match res with
  | Ok _ => exists rs2, directory (m_files m') w entries s cs e (bs ++ batches.*2) (rs ++ rs2) [] /\
      m_files m' !! binlog_path = Some (log (rs ++ rs2)) /\
      (policy = Always -> m_disk m' = log (rs ++ rs2)) /\
      forall k, fold_left (effect_on T k) (recovered_effects w entries s cs (bs ++ batches.*2)) None =
                fold_left (effect_on T k) (F ++ batch_effects batches.*2) None
  | Err f =>
    match disposition f with
    | Rejected => directory (m_files m') w entries s cs e bs rs [] /\ m_files m' !! binlog_path = Some (log rs)
    | Indeterminate => exists bs2a, bs2a `prefix_of` batches.*2 /\
        recoverable T (m_files m') (F ++ batch_effects bs2a)
    end
  end.
Proof.
  intros Hc Hn He Hok Hsafe Hrun. unfold worker_append in Hrun.
  destruct (encode_batches_spec _ _ _ Hn Hc He Hok) as (Hs & Hb & Hlog & _).
  pose proof Hst as (Hd & Hf & [Hh Hrot] & Hw & Ho & Hk).
  pose proof (append_handle _ _ _ _ _ _ Hh Hrun) as Hh'.
  pose proof (append_keeps_others _ _ _ _ _ _ Hsafe Hrun) as Hothers.
  split; [split; [done|]; unfold rotation_clean; by rewrite !Hothers by discriminate|].
  pose proof (append_binlog_exists _ _ _ _ _ _ ltac:(by rewrite Hf; eauto) Hrun) as [b Hb'].
  destruct (append_records_spec _ _ _ _ _ _ Hs Hb Hrun) as [Hout Hl].
  change (contents m') with (active_contents m') in *. unfold append_outcome in Hout.
  change (@contents ManagedBinlogFile _ managed_spec) with active_contents in Hout.
  change (@disk ManagedBinlogFile _ managed_spec) with m_disk in Hout.
  fold m in Hout. rewrite active_log in Hout.
  assert (Hact : forall x, active_contents m' = x -> m_files m' !! binlog_path = Some x).
  { intros x Hx. rewrite <- Hx. unfold active_contents. by rewrite Hb'. }
  destruct res as [[]|f].
  - destruct Hout as (Hcont & Hdisk & _). apply Hact in Hcont as Hact'.
    destruct (Hl I) as [Hlog' _]. specialize (Hlog Hlog').
    destruct (extended_directory (m_files m') _ _ (log records) [] Hlog ltac:(by rewrite app_nil_r) Hact' Hothers)
      as (bs2a & _ & _ & Hq). destruct (Hq eq_refl) as (-> & Hd' & Heff).
    exists records. rewrite log_app. split; [done|]. split; [done|]. split; [|done].
    intros Hp. by rewrite (Hdisk Hp).
  - destruct (disposition f).
    + destruct Hout as [Hcont _]. apply Hact in Hcont as Hact'.
      destruct (extended_directory (m_files m') [] [] [] [] ltac:(constructor) eq_refl
        ltac:(by rewrite app_nil_r) Hothers) as (bs2a & _ & _ & Hq).
      destruct (Hq eq_refl) as (_ & Hd' & _). by rewrite !app_nil_r in Hd'.
    + destruct Hout as ((written & [q Hq] & Hcont) & _). apply Hact in Hcont as Hact'.
      destruct (Hl eq_refl) as [Hlog' _]. specialize (Hlog Hlog').
      destruct (extended_directory (m_files m') _ _ written q Hlog Hq Hact' Hothers) as (bs2a & Hp & Hr & _).
      by exists bs2a.
Qed.

End Accept.

(** The runtime after its counters are updated still names the same files. *)
Definition same_catalog (r r' : CommitRuntime) : Prop :=
  rt_watermark r' = rt_watermark r /\ rt_physical r' = rt_physical r.

Lemma persisted_writes_same count threshold r :
  let r' := (record_persisted_writes count threshold r).1 in
  rt_binlog r' = rt_binlog r /\ rt_offset r' = rt_offset r /\ same_catalog r r'.
Proof.
  unfold record_persisted_writes, request_maintenance_if_needed.
  set (r1 := set_write_count _ r).
  assert (H1 : rt_binlog r1 = rt_binlog r /\ rt_offset r1 = rt_offset r /\ same_catalog r r1) by done.
  clearbody r1. unfold request_snapshot_if_needed. destruct (_ && _).
  - unfold request_rollover_if_needed. destruct (_ && _); exact H1.
  - unfold request_rollover_if_needed. destruct (_ && _); exact H1.
Qed.

Lemma set_binlog_id r : set_binlog (rt_binlog r) r = r.
Proof. by destruct r. Qed.

Lemma last_numbered (batches : list (Z * CommittedBatch)) n :
  0 < n <= U64_MAX -> check_sequences (Some n) batches = Ok tt -> batches <> [] ->
  match list.last batches with Some (s, _) => s | None => 0 end = n + len batches - 1.
Proof.
  intros Hn Hc Hne. destruct (list.last batches) as [[s b]|] eqn:E; [|by apply last_None in E].
  rewrite last_lookup in E. destruct (check_sequences_spec batches n Hn Hc _ _ _ E) as [-> _].
  unfold len. destruct batches; [done|]. simpl. lia.
Qed.

Lemma next_sequence_spec r n : next_sequence r = Ok n -> n = rt_offset r + 1 /\ n <= U64_MAX.
Proof.
  unfold next_sequence. destruct (checked_add (rt_offset r) 1) as [x|] eqn:E; [|done].
  intros [= <-]. by apply checked_add_Some in E as [-> ?].
Qed.

Section Group.
Context (T : Z) (r : CommitRuntime) (F : list CommittedEffect).
Context (w : Z) (entries : list (bytes * DataEntry)) (s : Z) (cs : list chunk) (e : Z).
Context (bs : list CommittedBatch) (rs : list (Z * bytes)).
Context (Hst : stored_as T r F w entries s cs e bs rs).

(** What the acceptance of a group leaves behind. *)
Definition accepted (group : list CommittedBatch) (r' : CommitRuntime)
    (res : result PersistenceError MaintenanceRequest) : Prop :=
  same_catalog r r' /\
  match res with
  | Ok _ => (exists rs2, stored_as T r' (F ++ batch_effects group) w entries s cs e (bs ++ group) (rs ++ rs2)) /\
            rt_offset r' = rt_offset r + len group
  | Err error =>
    rt_offset r' = rt_offset r /\
    if is_indeterminate error
    then exists part, part `prefix_of` group /\ recoverable T (m_files (rt_binlog r')) (F ++ batch_effects part)
    else stored_as T r' F w entries s cs e bs rs
  end.

Lemma accepted_unchanged group error : accepted group r (Err error).
Proof.
  split; [done|]. split; [done|]. destruct (is_indeterminate error); [|done].
  exists []. split; [apply prefix_nil|]. rewrite app_nil_r. apply (stored_recoverable T r).
  by exists w, entries, s, cs, e, bs, rs.
Qed.

(** The answer of the worker, delivered or lost. *)
Lemma append_records_accepted policy d batches records m' res :
  check_sequences (Some (e + len bs)) batches = Ok tt -> 0 < e + len bs <= U64_MAX ->
  encode_batches batches = Ok records -> batches_ok batches ->
  match res with Ok _ => True | Err _ => rollback_safe (rt_binlog r) end ->
  append_records policy d records (rt_binlog r) = Some (m', res) ->
  match res with
  | Ok _ => exists rs2, directory (m_files m') w entries s cs e (bs ++ batches.*2) (rs ++ rs2) [] /\
      m_files m' !! binlog_path = Some (log (rs ++ rs2)) /\
      (is_Some (m_handle m') /\ rotation_clean (m_files m')) /\
      (policy = Always -> m_disk m' = log (rs ++ rs2)) /\
      forall k, fold_left (effect_on T k) (recovered_effects w entries s cs (bs ++ batches.*2)) None =
                fold_left (effect_on T k) (F ++ batch_effects batches.*2) None
  | Err error =>
    if is_indeterminate error
    then exists part, part `prefix_of` batches.*2 /\ recoverable T (m_files m') (F ++ batch_effects part)
    else stored_as T (set_binlog m' r) F w entries s cs e bs rs
  end.
Proof.
  intros Ec Hpos Ee Hok Hsafe Hrun. pose proof Hst as (Hd & Hf & Hh & Hw & Ho & Hk).
  assert (Hnone : exists part, part `prefix_of` batches.*2 /\
    recoverable T (m_files (rt_binlog r)) (F ++ batch_effects part)).
  { exists []. split; [apply prefix_nil|]. rewrite app_nil_r. by exists w, entries, s, cs, e, bs, rs, []. }
  unfold append_records in Hrun. destruct (physical_bytes records 0) as [total|error].
  2: { injection Hrun as <- <-. rewrite set_binlog_id. by destruct (is_indeterminate error). }
  destruct d as [| |carried_out].
  - destruct (worker_append policy records (rt_binlog r)) as [[m1 ack]|] eqn:Ew; [|discriminate Hrun].
    cbn [mbind option_bind] in Hrun. injection Hrun as <- <-.
    destruct (worker_append_spec T r F w entries s cs e bs rs Hst policy batches records m1 ack
      Ec Hpos Ee Hok ltac:(by destruct ack) Ew) as [Hh' Hres].
    destruct ack as [[]|failure].
    + destruct Hres as (rs2 & Hd' & Hf' & Hdisk & Heff). by exists rs2.
    + unfold into_persistence_error.
      destruct (disposition failure); cbn [is_indeterminate indeterminate PersistenceError_new PersistenceError_indeterminate];
        [|exact Hres]. destruct Hres as [Hd' Hf']. done.
  - injection Hrun as <- <-. by rewrite set_binlog_id.
  - destruct carried_out; [|by injection Hrun as <- <-].
    destruct (worker_append policy records (rt_binlog r)) as [[m1 ack]|] eqn:Ew; [|discriminate Hrun].
    cbn in Hrun. injection Hrun as <- <-.
    destruct (worker_append_spec T r F w entries s cs e bs rs Hst policy batches records m1 ack
      Ec Hpos Ee Hok ltac:(by destruct ack) Ew) as [Hh' Hres]. cbn [is_indeterminate indeterminate PersistenceError_indeterminate].
    destruct ack as [[]|failure]; [|destruct (disposition failure)].
    + destruct Hres as (rs2 & Hd' & Hf' & _ & Heff). exists batches.*2. split; [done|].
      by exists w, entries, s, cs, e, (bs ++ batches.*2), (rs ++ rs2), [].
    + destruct Hres as [Hd' Hf']. exists []. split; [apply prefix_nil|]. rewrite app_nil_r.
      by exists w, entries, s, cs, e, bs, rs, [].
    + exact Hres.
Qed.

Lemma accept_batches_spec policy d batches threshold r' res :
  batches_ok batches -> match res with Ok _ => True | Err _ => rollback_safe (rt_binlog r) end ->
  accept_next_batches policy d batches threshold r = Some (r', res) ->
  accepted batches.*2 r' res /\
  (policy = Always -> match res with Ok _ => m_disk (rt_binlog r') = active_contents (rt_binlog r') | Err _ => True end).
Proof.
  intros Hok Hsafe Hrun. unfold accept_next_batches in Hrun.
  destruct batches as [|b0 batches0]; [injection Hrun as <- <-; split; [apply accepted_unchanged|done]|].
  set (batches := b0 :: batches0) in *. assert (Hne : batches <> []) by done.
  destruct (next_sequence r) as [n|error] eqn:En; [|injection Hrun as <- <-; split; [apply accepted_unchanged|done]].
  cbn [mbind result_bind] in Hrun.
  destruct (check_sequences (Some n) batches) as [[]|error] eqn:Ec;
    [|injection Hrun as <- <-; split; [apply accepted_unchanged|done]].
  apply next_sequence_spec in En as [Hn Hmax]. pose proof Hst as (Hd & Hf & Hh & Hw & Ho & Hk).
  assert (Hne' : n = e + len bs) by lia. rewrite Hne' in *. clear Hne' Hn.
  assert (Hpos : 0 < e + len bs <= U64_MAX) by (pose proof (dir_watermark _ _ _ _ _ _ _ _ _ Hd); lia).
  change (append_batches policy d batches (rt_binlog r)) with
    (match encode_batches batches with
     | Err e => Some (rt_binlog r, Err e)
     | Ok records => append_records policy d records (rt_binlog r)
     end) in Hrun. clearbody batches.
  destruct (encode_batches batches) as [records|error] eqn:Ee.
  2: { injection Hrun as <- <-. rewrite set_binlog_id. split; [apply accepted_unchanged|done]. }
  destruct (append_records policy d records (rt_binlog r)) as [[m' ack]|] eqn:Ea; [|discriminate Hrun].
  cbn [mbind option_bind] in Hrun.
  pose proof (append_records_accepted policy d batches records m' ack Ec Hpos Ee Hok) as Hres.
  destruct ack as [total|error]; [|injection Hrun as <- <-; split; [split; [done|]; split; [done|by apply Hres]|done]].
  specialize (Hres I Ea).
  destruct Hres as (rs2 & Hd' & Hf' & [Hh' [Hr1 Hr2]] & Hdisk & Heff).
  match type of Hrun with context [record_persisted_writes ?c ?t ?r0] =>
    pose proof (persisted_writes_same c t r0) as (Hb1 & Ho1 & Hw1);
    destruct (record_persisted_writes c t r0) as [r1 maintenance] end.
  injection Hrun as <- <-. cbn [fst] in *. simpl in Hb1, Ho1, Hw1.
  rewrite (last_numbered batches (e + len bs) Hpos Ec) in Ho1 by done.
  assert (Hlen : len batches.*2 = len batches) by (unfold len; by rewrite length_fmap).
  split; [split; [done|]; split; [|rewrite Ho1, Hlen; lia]|].
  - exists rs2. unfold stored_as. rewrite Hb1, Ho1, len_app, Hlen. unfold rotation_clean.
    split_and!; try done; pose proof (len_nonneg batches); lia.
  - intros Hp. rewrite Hb1, (Hdisk Hp). unfold active_contents. by rewrite Hf'.
Qed.

End Group.

(** ** The worker answers *)

(** The worker's append returns, whatever the operating system does. *)
Lemma worker_append_returns policy records m : worker_append policy records m <> None.
Proof.
  unfold worker_append, append_binlog_records, append_fuel. destruct records as [|rec records]; [done|].
  destruct (group_length (rec :: records) 0) as [n|f]; [|done].
  destruct (encode_group (rec :: records) []) as [tail|f]; [|done].
  unfold append_binlog_tail. pose proof (seek_end_law m) as L. simpl in L |- *.
  destruct (m_seek_end m) as [m1 [p|err]] eqn:E; [|done].
  destruct L as (Hc & _ & -> & Hcur).
  assert (Hnext : (length (m_next m1) <= length (m_next m))%nat) by (by eapply seek_next).
  pose proof (write_all_returns (fun m => length (m_next m)) (length tail + length (m_next m) + 1) m1 tail false
    managed_patience) as Hw. simpl in Hw.
  specialize (Hw ltac:(by rewrite Hcur, Hc) ltac:(lia)).
  destruct (write_all_tracking_modification _ m1 tail false) as [[[m2 modified] written]|]; [|done].
  cbn [mbind option_bind]. by destruct (match written with Ok _ => _ | Err _ => _ end).
Qed.

Lemma accept_returns policy d batches threshold r : accept_next_batches policy d batches threshold r <> None.
Proof.
  unfold accept_next_batches. destruct batches as [|b0 batches0]; [done|]. set (batches := b0 :: batches0).
  destruct (next_sequence r) as [n|error]; [|done]. cbn [mbind result_bind].
  destruct (check_sequences (Some n) batches); [|done].
  assert (Ha : append_batches policy d batches (rt_binlog r) <> None).
  { change (append_batches policy d batches (rt_binlog r)) with
      (match encode_batches batches with
       | Err e => Some (rt_binlog r, Err e)
       | Ok records => append_records policy d records (rt_binlog r)
       end).
    destruct (encode_batches batches) as [records|]; [|done]. unfold append_records.
    destruct (physical_bytes records 0); [|done].
    pose proof (worker_append_returns policy records (rt_binlog r)) as Hw.
    destruct d as [| |[]]; try done; destruct (worker_append policy records (rt_binlog r)) as [[m1 ack]|]; done. }
  destruct (append_batches policy d batches (rt_binlog r)) as [[m1 ack]|]; [|done]. done.
Qed.

(** Accepting a group on any stored history. *)
Lemma accept_stored T r F policy d batches threshold r' res :
  stored T r F -> batches_ok batches -> match res with Ok _ => True | Err _ => rollback_safe (rt_binlog r) end ->
  accept_next_batches policy d batches threshold r = Some (r', res) ->
  match res with
  | Ok _ => stored T r' (F ++ batch_effects batches.*2) /\ rt_offset r' = rt_offset r + len batches
  | Err error =>
    rt_offset r' = rt_offset r /\
    if is_indeterminate error
    then exists part, part `prefix_of` batches.*2 /\ recoverable T (m_files (rt_binlog r')) (F ++ batch_effects part)
    else stored T r' F
  end.
Proof.
  intros (w & entries & s & cs & e & bs & rs & Hst) Hok Hsafe Hrun.
  destruct (accept_batches_spec T r F w entries s cs e bs rs Hst policy d batches threshold r' res Hok Hsafe Hrun)
    as [(_ & Hres) _].
  destruct res as [m|error].
  - destruct Hres as [[rs2 Hst'] Ho]. split; [by exists w, entries, s, cs, e, (bs ++ batches.*2), (rs ++ rs2)|].
    rewrite Ho. unfold len. by rewrite length_fmap.
  - destruct Hres as [Ho Hres]. split; [done|]. destruct (is_indeterminate error); [done|].
    by exists w, entries, s, cs, e, bs, rs.
Qed.

(** ** Histories whose rejected append can be taken back *)

Definition steady (T : Z) (r : CommitRuntime) (F : list CommittedEffect) : Prop :=
  stored T r F /\ rollback_safe (rt_binlog r).

Lemma stored_as_safe T r F w entries s cs e bs rs :
  stored_as T r F w entries s cs e bs rs -> rollback_safe (rt_binlog r) <-> bs <> [] \/ cs = [].
Proof.
  intros (Hd & Hf & _). destruct Hd as [Hh _ _ _ _]. unfold rollback_safe, active_contents. rewrite Hf. split.
  - intros [Hne|Hno].
    + left. intros ->. pose proof (ho_active _ _ _ _ _ _ _ Hh) as Ha. inversion Ha; subst. by apply Hne.
    + right. destruct cs as [|c cs]; [done|]. exfalso.
      pose proof (ho_segments _ _ _ _ _ _ _ Hh c ltac:(by left)) as Hc.
      specialize (Hno (binlog_segment (c_end c)) ltac:(eauto)).
      destruct (chain_bounds _ _ _ c (ho_chain _ _ _ _ _ _ _ Hh) ltac:(by left)) as (_ & _ & Hr).
      by rewrite segment_parses in Hno.
  - intros [Hne|Hnil].
    + left. intros Hl. pose proof (log_not_empty _ _ _ (ho_active _ _ _ _ _ _ _ Hh) Hne) as H. by rewrite Hl in H.
    + subst cs. right. intros name Hn. destruct (ho_others _ _ _ _ _ _ _ Hh name Hn) as [?|(c & Hc & _)]; [done|].
      by apply not_elem_of_nil in Hc.
Qed.

Lemma accept_steady T r F policy d batches threshold r' res :
  steady T r F -> batches_ok batches -> accept_next_batches policy d batches threshold r = Some (r', res) ->
  match res with
  | Ok _ => steady T r' (F ++ batch_effects batches.*2) /\ rt_offset r' = rt_offset r + len batches
  | Err error =>
    rt_offset r' = rt_offset r /\
    if is_indeterminate error
    then exists part, part `prefix_of` batches.*2 /\ recoverable T (m_files (rt_binlog r')) (F ++ batch_effects part)
    else steady T r' F
  end.
Proof.
  intros [(w & entries & s & cs & e & bs & rs & Hst) Hsafe] Hok Hrun.
  destruct (accept_batches_spec T r F w entries s cs e bs rs Hst policy d batches threshold r' res Hok ltac:(by destruct res) Hrun)
    as [(_ & Hres) _]. pose proof (proj1 (stored_as_safe _ _ _ _ _ _ _ _ _ _ Hst) Hsafe) as Hs.
  destruct res as [m|error].
  - destruct Hres as [[rs2 Hst'] Ho]. split; [|rewrite Ho; unfold len; by rewrite length_fmap].
    split; [by exists w, entries, s, cs, e, (bs ++ batches.*2), (rs ++ rs2)|].
    apply (stored_as_safe _ _ _ _ _ _ _ _ _ _ Hst'). left. intros [_ Hnil]%app_eq_nil.
    by apply fmap_nil_inv in Hnil as ->.
  - destruct Hres as [Ho Hres]. split; [done|]. destruct (is_indeterminate error); [done|].
    split; [by exists w, entries, s, cs, e, bs, rs|]. by apply (stored_as_safe _ _ _ _ _ _ _ _ _ _ Hres).
Qed.

Lemma stored_offset T r F : stored T r F -> 0 <= rt_offset r.
Proof.
  intros (w & entries & s & cs & e & bs & rs & Hd & _ & _ & Hw & _).
  pose proof (dir_watermark _ _ _ _ _ _ _ _ _ Hd). lia.
Qed.

(** What is stored depends on the files and the offset only. *)
Lemma stored_moved T r r' F :
  rt_binlog r' = rt_binlog r -> rt_offset r' = rt_offset r -> stored T r F -> stored T r' F.
Proof.
  intros Hb Ho (w & entries & s & cs & e & bs & rs & Hst). exists w, entries, s, cs, e, bs, rs.
  unfold stored_as. by rewrite Hb, Ho.
Qed.

End Commit.
