(* ===== verification/MaintenanceSpec.v ===== *)
(** * MaintenanceSpec: maintenance keeps the directory recoverable

    Sealing a generation, installing a snapshot and removing the segments it
    covers: each step leaves a directory from which the same state is recovered. *)

From Stdlib Require Import ZArith Lia.
From Stdlib Require Import Strings.Byte.
From stdpp Require Import base gmap list strings numbers sorting.
From S2P Require Import Prelude Text Json JsonPath Value Shard Engine Store Persistence Model Codec CodecSpec BinlogFile BinlogIo AppendSpec Recovery ManagedBinlog SnapshotWriter ReplicaState Runtime Compaction HistorySpec ManagedSpec SealSpec EntryEq StoreSpec ModelSpec SnapshotSpec RecoverySpec InstallSpec CommitSpec.

Open Scope Z_scope.

Section Maintenance.
Context {CRC : Crc32} {GZ : Gzip} {JN : JsonNumber} {SJ : SerdeJson} {HO : HashOrder}.

(** ** Sealing *)

Lemma chain_batches_snoc cs c : chain_batches (cs ++ [c]) = chain_batches cs ++ c_batches c.
Proof. unfold chain_batches. rewrite map_app, concat_app. simpl. by rewrite app_nil_r. Qed.

Section Seal.
Context (T : Z) (r : CommitRuntime) (F : list CommittedEffect).
Context (w : Z) (entries : list (bytes * DataEntry)) (s : Z) (cs : list chunk) (e : Z).
Context (bs : list CommittedBatch) (rs : list (Z * bytes)).
Context (Hst : stored_as T r F w entries s cs e bs rs) (Hroom : len cs < MAX_BINLOG_SEGMENTS).

Let m := rt_binlog r.
Let c : chunk := mkChunk e bs rs.

Lemma segment_free : bs <> [] -> m_files m !! binlog_segment (e + len bs - 1) = None.
Proof.
  intros Hne. destruct Hst as (Hd & _). pose proof (dir_history _ _ _ _ _ _ _ _ _ Hd) as Hh. fold m in Hh.
  destruct (m_files m !! _) as [b|] eqn:E; [|done]. exfalso.
  pose proof (ho_active _ _ _ _ _ _ _ Hh) as He. pose proof (chunk_bounds c He Hne) as [B1 B2].
  unfold c_end, c in B1, B2. cbn [c_start c_batches] in *.
  destruct (ho_others _ _ _ _ _ _ _ Hh _ ltac:(by eexists)) as [Hp|(c' & Hin & Heq)].
  - rewrite segment_parses in Hp by lia. done.
  - destruct (chain_bounds _ _ _ c' (ho_chain _ _ _ _ _ _ _ Hh) Hin) as (_ & Hlt & B).
    apply binlog_segment_inj in Heq; lia.
Qed.

Lemma recovered_sealed :
  recovered_effects w entries s (cs ++ [c]) [] = recovered_effects w entries s cs bs.
Proof. unfold recovered_effects. by rewrite chain_batches_snoc, app_nil_r. Qed.

(** A directory that differs by the sealed generation. *)
Lemma sealed_directory fs' :
  bs <> [] ->
  (fs' = renamed (m_files m) e bs rs \/ fs' = succeeded (m_files m) e bs rs) ->
  directory fs' w entries s (cs ++ [c]) (e + len bs) [] [] [] /\ rotation_clean fs'.
Proof.
  intros Hne Hfs. pose proof Hst as (Hd & Hf & [Hh Hrot] & _). fold m in Hd, Hf, Hh, Hrot.
  pose proof (dir_history _ _ _ _ _ _ _ _ _ Hd) as Hhist. pose proof (segment_free Hne) as Hfree.
  assert (Hsame : forall name, parse_binlog_segment_end_sequence (Utf8.from_utf8 name) = Ok None ->
    name <> binlog_path -> fs' !! name = m_files m !! name).
  { intros name Hp Hn.
    assert (Hren : renamed (m_files m) e bs rs !! name = m_files m !! name).
    { rewrite renamed_lookup, decide_False, decide_False; [done|done|]. intros ->.
      pose proof (chunk_bounds c (ho_active _ _ _ _ _ _ _ Hhist) Hne) as [B1 B2].
      unfold c_end, c in B1, B2. cbn [c_start c_batches] in *. rewrite segment_parses in Hp by lia. done. }
    destruct Hfs as [->| ->]; [done|]. unfold succeeded. by rewrite lookup_insert_ne. }
  assert (Hclean : rotation_clean fs') by (unfold rotation_clean; by rewrite !Hsame).
  split; [|done]. constructor.
  - destruct Hfs as [->| ->]; [by apply renamed_history|by apply succeeded_history].
  - apply Hd.
  - apply Hd.
  - rewrite !Hsame by done. apply Hd.
  - intros _. exact Hclean.
Qed.

(** What a seal leaves behind. *)
Definition seal_result (m' : ManagedBinlogFile) (sealed : bool) : Prop :=
  exists cs' e' bs' rs', stored_as T (set_binlog m' r) F w entries s cs' e' bs' rs' /\
    chain_batches cs' ++ bs' = chain_batches cs ++ bs /\
    (sealed = true -> bs' = [] /\ rs' = []) /\
    len cs' <= len cs + (if sealed && negb (len (log rs) =? 0) then 1 else 0).

Lemma seal_spec m' res :
  m_seal_active m (rt_offset r) = (m', res) ->
  match res with
  | Ok n => seal_result m' true /\ n = len (log rs)
  | Err (RotationUnchanged _) => seal_result m' false
  | Err (RotationIndeterminate _) => recoverable T (m_files m') F
  end.
Proof.
  intros Hrun. pose proof Hst as (Hd & Hf & [Hh Hrot] & Hw & Ho & Hk). fold m in Hd, Hf, Hh, Hrot.
  destruct (decide (bs = [])) as [Hb|Hne].
  - (* nothing to seal *)
    assert (rs = []) as Hrs.
    { pose proof (ho_active _ _ _ _ _ _ _ (dir_history _ _ _ _ _ _ _ _ _ Hd)) as He. subst bs. by inversion He. }
    assert (Hsame : forall m1, m_files m1 = m_files m -> m_handle m1 = m_handle m -> forall b,
      seal_result m1 b).
    { intros m1 Hf1 Hh1 b. exists cs, e, bs, rs. unfold stored_as. cbn [rt_binlog set_binlog rt_offset].
      rewrite Hf1, Hh1. split_and!; first [done|apply Hrot|destruct (_ && _); lia]. }
    unfold m_seal_active in Hrun. destruct Hh as [p Hp]. rewrite Hp in Hrun.
    destruct (sys m) as [m1 [u|e1]] eqn:E1; apply sys_spec in E1 as (Hf1 & Hh1 & _);
      [|injection Hrun as <- <-; apply Hsame; congruence].
    assert (Ha : active_contents m1 = []).
    { unfold active_contents. by rewrite Hf1, Hf, Hrs. }
    rewrite Ha in Hrun. change (len [] =? 0) with true in Hrun. injection Hrun as <- <-.
    split; [apply Hsame; congruence|]. by rewrite Hrs.
  - rewrite Ho in Hrun.
    destruct (seal_outcome_spec (m_files m) s cs e bs rs (dir_history _ _ _ _ _ _ _ _ _ Hd) Hf Hne
      (segment_free Hne) m m' res eq_refl Hh Hrun) as [Hor Hres].
    assert (Hnew : (m_files m' = renamed (m_files m) e bs rs \/ m_files m' = succeeded (m_files m) e bs rs) ->
      recoverable T (m_files m') F).
    { intros H. destruct (sealed_directory _ Hne H) as [Hd' _].
      exists w, entries, s, (cs ++ [c]), (e + len bs), [], [], []. split; [done|]. intros k. by rewrite recovered_sealed. }
    destruct res as [n|[e1|e1]].
    + destruct Hres as (-> & Hfs & Hh'). split; [|done].
      destruct (sealed_directory _ Hne (or_intror Hfs)) as [Hd' Hrot'].
      exists (cs ++ [c]), (e + len bs), [], [].
      split; [|split; [by rewrite chain_batches_snoc, app_nil_r|split; [done|]]].
      2: { pose proof (ho_active _ _ _ _ _ _ _ (dir_history _ _ _ _ _ _ _ _ _ Hd)) as He.
        rewrite (proj2 (Z.eqb_neq _ _) (log_not_empty _ _ _ He Hne)), len_app. cbn [andb negb]. change (len [c]) with 1. lia. }
      unfold stored_as. cbn [rt_binlog set_binlog rt_offset]. change (len (@nil CommittedBatch)) with 0.
      split_and!; try first [done|lia|apply Hrot'|by rewrite Hfs; apply lookup_insert_eq|by rewrite Hh'; eauto].
      intros k. by rewrite recovered_sealed.
    + destruct Hres as [Hfs Hh']. exists cs, e, bs, rs. unfold stored_as. cbn [rt_binlog set_binlog rt_offset].
      rewrite Hfs. split_and!; first [done|apply Hrot|cbn [andb]; lia].
    + destruct Hor as [Hfs|Hor]; [|by apply Hnew].
      rewrite Hfs. exists w, entries, s, cs, e, bs, rs, []. done.
Qed.

(** An attempt that changed nothing left the active file as it was. *)
Lemma unchanged_active m' e0 :
  m_seal_active m (rt_offset r) = (m', Err (RotationUnchanged e0)) -> active_contents m' = active_contents m.
Proof.
  intros Hrun. pose proof Hst as (Hd & Hf & [Hh Hrot] & Hw & Ho & Hk). fold m in Hd, Hf, Hh, Hrot.
  apply active_files. destruct (decide (bs = [])) as [Hb|Hne].
  - assert (rs = []) as Hrs.
    { pose proof (ho_active _ _ _ _ _ _ _ (dir_history _ _ _ _ _ _ _ _ _ Hd)) as He. subst bs. by inversion He. }
    unfold m_seal_active in Hrun. destruct Hh as [p Hp]. rewrite Hp in Hrun.
    destruct (sys m) as [m1 [u|e1]] eqn:E1; apply sys_spec in E1 as (Hf1 & Hh1 & _); [|by injection Hrun as <- <-].
    assert (Ha : active_contents m1 = []) by (unfold active_contents; by rewrite Hf1, Hf, Hrs).
    rewrite Ha in Hrun. discriminate Hrun.
  - rewrite Ho in Hrun.
    destruct (seal_outcome_spec (m_files m) s cs e bs rs (dir_history _ _ _ _ _ _ _ _ _ Hd) Hf Hne
      (segment_free Hne) m m' _ eq_refl Hh Hrun) as [_ Hres]. apply Hres.
Qed.

End Seal.

(** ** Snapshots *)

Lemma current_snapshot_directory fs w entries s cs e bs rs tail :
  directory fs w entries s cs e bs rs tail <->
  history_on fs s cs e bs rs tail /\ s <= w + 1 /\ 0 <= w <= U64_MAX /\
  match current_snapshot fs with Some file => snapshot_of w entries file | None => w = 0 /\ entries = [] end /\
  (fs !! binlog_path = None -> rotation_clean fs).
Proof.
  unfold current_snapshot, rotation_clean. split.
  - intros [H1 H2 H3 H4 H5]. split_and!; try done; [lia|lia|]. by destruct (fs !! snapshot_path), (fs !! snapshot_backup_path).
  - intros (H1 & H2 & H3 & H4 & H5). constructor; try done.
    by destruct (fs !! snapshot_path), (fs !! snapshot_backup_path).
Qed.

(** The history does not depend on files that are neither the active file nor a
    segment. *)
Lemma history_unnamed (names : list bytes) fs fs' s cs e bs rs tail :
  (forall name, name ∈ names -> parse_binlog_segment_end_sequence (Utf8.from_utf8 name) = Ok None) ->
  binlog_path ∉ names -> (forall name, name ∉ names -> fs' !! name = fs !! name) ->
  history_on fs s cs e bs rs tail -> history_on fs' s cs e bs rs tail.
Proof.
  intros Hnames Hact Hk Hh.
  assert (Hseg : forall c, c ∈ cs -> fs' !! binlog_segment (c_end c) = fs !! binlog_segment (c_end c)).
  { intros c Hin. apply Hk. intros Hs.
    destruct (chain_bounds _ _ _ c (ho_chain _ _ _ _ _ _ _ Hh) Hin) as (_ & _ & B).
    pose proof (segment_parses _ B) as P. rewrite (Hnames _ Hs) in P. discriminate P. }
  constructor; try apply Hh.
  - rewrite Hk by done. apply Hh.
  - intros c Hin. rewrite Hseg by done. by apply Hh.
  - intros name Hs. destruct (decide (name ∈ names)) as [Hin|Hn]; [left; by apply Hnames|].
    rewrite Hk in Hs by done. by apply Hh.
Qed.

Lemma history_rest_kept fs fs' s cs e bs rs tail :
  rest_kept fs fs' -> history_on fs s cs e bs rs tail -> history_on fs' s cs e bs rs tail.
Proof.
  intros Hk. apply (history_unnamed snapshot_files); [|by_decision|done]. unfold snapshot_files.
  intros name Hin. repeat (apply elem_of_cons in Hin as [->|Hin]; [done|]). by apply not_elem_of_nil in Hin.
Qed.

(** What is stored depends on what the effects do only. *)
Lemma stored_as_effects T r F F' w entries s cs e bs rs :
  (forall k, fold_left (effect_on T k) F None = fold_left (effect_on T k) F' None) ->
  stored_as T r F w entries s cs e bs rs -> stored_as T r F' w entries s cs e bs rs.
Proof. intros HF (H1 & H2 & H3 & H4 & H5 & Hk). do 5 (split; [done|]). intros k. by rewrite Hk. Qed.

(** A snapshot at [w'] takes the place of the old one, and what is stored is the
    snapshot and the batches after it. *)
Lemma snapshot_written T r F w entries s cs e bs rs w' entries' m' res :
  stored_as T r F w entries s cs e bs rs -> w <= w' <= rt_offset r ->
  NoDup entries'.*1 -> Forall entry_ok entries' ->
  write_snapshot_file entries' w' (rt_binlog r) = (m', res) ->
  (stored_as T (set_binlog m' r) (snapshot_effects entries' ++ batch_effects (after w' s (chain_batches cs ++ bs)))
     w' entries' s cs e bs rs \/
   (stored_as T (set_binlog m' r) F w entries s cs e bs rs /\ res <> Ok tt)).
Proof.
  intros (Hd & Hf & [Hh Hrot] & Hw & Ho & Hk) Hw' Hnd Hok Hrun.
  apply write_snapshot_spec in Hrun as (Hkept & Hh' & _ & Hcur).
  apply current_snapshot_directory in Hd as (Hhist & Hj & Hr & Hs & _).
  assert (Hbin : m_files m' !! binlog_path = Some (log rs)) by (rewrite <- Hf; apply Hkept; by_decision).
  assert (Hrot' : rotation_clean (m_files m')).
  { unfold rotation_clean. rewrite !Hkept by by_decision. exact Hrot. }
  pose proof (history_rest_kept _ _ _ _ _ _ _ _ Hkept Hhist) as Hhist'.
  destruct Hcur as [[Hcur Hres]|(records & Hrec & Hcur)].
  - right. split; [|done]. unfold stored_as. cbn [rt_binlog set_binlog rt_offset]. rewrite Hh'.
    split_and!; try first [done|apply Hrot']. apply current_snapshot_directory. rewrite Hcur. done.
  - left. unfold stored_as. cbn [rt_binlog set_binlog rt_offset]. rewrite Hh'.
    assert (Hw64 : 0 <= w' <= U64_MAX).
    { split; [lia|]. pose proof (ho_active _ _ _ _ _ _ _ Hhist) as He.
      destruct bs as [|b0 bs0] eqn:Eb.
      - change (len (@nil CommittedBatch)) with 0 in Ho.
        destruct (decide (cs = [])) as [->|Hcs].
        + pose proof (ho_chain _ _ _ _ _ _ _ Hhist) as Hc. inversion Hc; subst. lia.
        + destruct (exists_last Hcs) as (cs0 & c0 & ->).
          pose proof (chain_bounds _ _ _ c0 (ho_chain _ _ _ _ _ _ _ Hhist) ltac:(apply elem_of_app; right; by left)) as (_ & Hlt & B).
          assert (c_end c0 + 1 = e); [|lia].
          pose proof (ho_chain _ _ _ _ _ _ _ Hhist) as Hc. clear - Hc. revert s Hc.
          induction cs0 as [|c1 cs0 IH]; intros s Hc; inversion Hc as [|c2 cs2 e2 He2 Hne2 Hc2]; subst.
          * inversion Hc2. done.
          * by eapply IH.
      - rewrite <- Eb in *. pose proof (chunk_bounds (mkChunk e bs rs) He ltac:(simpl; congruence)) as [B1 B2].
        unfold c_end in B2. simpl in B2. lia. }
    split_and!; try first [done|lia|apply Hrot'].
    + apply current_snapshot_directory. rewrite Hcur. split_and!; try first [done|lia].
      split; [done|]. split; [done|]. split; [done|]. by exists records.
Qed.

(** A snapshot at [w'] that stands for the state [F] had at that sequence takes
    the place of the old one. *)
Lemma snapshot_stored T r F w entries s cs e bs rs w' entries' m' res F1 :
  stored_as T r F w entries s cs e bs rs -> w <= w' <= rt_offset r ->
  NoDup entries'.*1 -> Forall entry_ok entries' ->
  (forall k, fold_left (effect_on T k) (snapshot_effects entries') None = fold_left (effect_on T k) F1 None) ->
  (forall k, fold_left (effect_on T k) (F1 ++ batch_effects (after w' s (chain_batches cs ++ bs))) None =
             fold_left (effect_on T k) F None) ->
  write_snapshot_file entries' w' (rt_binlog r) = (m', res) ->
  (stored_as T (set_binlog m' r) F w' entries' s cs e bs rs \/
   (stored_as T (set_binlog m' r) F w entries s cs e bs rs /\ res <> Ok tt)).
Proof.
  intros Hst Hw Hnd Hok H1 H2 Hrun.
  destruct (snapshot_written _ _ _ _ _ _ _ _ _ _ _ _ _ _ Hst Hw Hnd Hok Hrun) as [H|H]; [left|by right].
  eapply stored_as_effects; [|exact H]. intros k. by rewrite <- H2, !fold_left_app, H1.
Qed.

(** ** Removing covered segments *)

Lemma segment_names_complete names segments n name :
  segment_names names = Ok segments -> name ∈ names ->
  parse_binlog_segment_end_sequence (Utf8.from_utf8 name) = Ok (Some n) -> (n, name) ∈ segments.
Proof.
  revert segments. induction names as [|name0 names IH]; intros segments H Hin Hp; [by apply not_elem_of_nil in Hin|].
  cbn [segment_names] in H. destruct (parse_binlog_segment_end_sequence (Utf8.from_utf8 name0)) as [o|err] eqn:Ep; [|discriminate H].
  cbn [mbind result_bind] in H. destruct (segment_names names) as [rest|err]; [|discriminate H].
  cbn [mbind result_bind] in H. injection H as <-. apply elem_of_cons in Hin as [->|Hin].
  - rewrite Hp in Ep. injection Ep as <-. by left.
  - specialize (IH rest eq_refl Hin Hp). destruct o; [by right|done].
Qed.

Lemma segment_names_parse names segments name :
  segment_names names = Ok segments -> name ∈ names ->
  exists o, parse_binlog_segment_end_sequence (Utf8.from_utf8 name) = Ok o.
Proof.
  revert segments. induction names as [|name0 names IH]; intros segments H Hin; [by apply not_elem_of_nil in Hin|].
  cbn [segment_names] in H. destruct (parse_binlog_segment_end_sequence (Utf8.from_utf8 name0)) as [o|err] eqn:Ep; [|discriminate H].
  cbn [mbind result_bind] in H. destruct (segment_names names) as [rest|err]; [|discriminate H].
  apply elem_of_cons in Hin as [->|Hin]; [eauto|]. by eapply IH.
Qed.

Lemma listed_names fs name : name ∈ (hm_iter fs).*1 <-> is_Some ((fs : Files) !! name).
Proof.
  rewrite list_elem_of_fmap. setoid_rewrite hm_iter_perm. split.
  - intros ([n b] & -> & Hin). apply elem_of_map_to_list in Hin. eauto.
  - intros [b Hb]. exists (name, b). split; [done|]. by apply elem_of_map_to_list.
Qed.

(** The catalog can be listed only when every name can be read. *)
Lemma listed_parse m m' segments name :
  list_binlog_segments m = (m', Ok segments) -> is_Some (m_files m !! name) ->
  exists o, parse_binlog_segment_end_sequence (Utf8.from_utf8 name) = Ok o.
Proof.
  unfold list_binlog_segments. destruct (sys m) as [m1 [u|err]] eqn:E; apply sys_spec in E as (Hf & _); [|done].
  destruct (segment_names (hm_iter (m_files m1)).*1) as [l|err] eqn:Es; [|done]. intros _ Hn.
  eapply segment_names_parse; [exact Es|]. by rewrite listed_names, Hf.
Qed.

Lemma list_segments_complete m m' segments :
  list_binlog_segments m = (m', Ok segments) ->
  m_files m' = m_files m /\ m_handle m' = m_handle m /\
  forall n name, (n, name) ∈ segments <->
    is_Some (m_files m !! name) /\ parse_binlog_segment_end_sequence (Utf8.from_utf8 name) = Ok (Some n).
Proof.
  unfold list_binlog_segments. destruct (sys m) as [m1 [u|err]] eqn:E; apply sys_spec in E as (Hf & Hh & _); [|done].
  destruct (segment_names (hm_iter (m_files m1)).*1) as [l|err] eqn:Es; [|done]. intros [= <- <-].
  split; [done|]. split; [done|]. intros n name. rewrite <- Hf, <- listed_names. rewrite merge_sort_Permutation. split.
  - intros Hin. by eapply segment_names_spec.
  - intros [Hin Hp]. by eapply segment_names_complete.
Qed.

Lemma cleanup_failures clk v l acc m m' cl :
  cleanup_segments clk v l acc m = (m', Ok cl) -> failed_files acc <= failed_files cl.
Proof.
  revert acc m. induction l as [|[n name] l IH]; intros acc m H; cbn [cleanup_segments] in H.
  - injection H as <- <-. lia.
  - destruct (v <? n); [by eapply IH|]. destruct (inspect_binlog clk _) as [[insp|err]|]; try done.
    destruct (_ || _); [done|]. destruct (sys_remove m name) as [m1 [u|err]].
    + apply IH in H. exact H.
    + apply IH in H. cbn [failed_files] in H. lia.
Qed.

Lemma cleanup_segments_spec clk v l acc m m' cl :
  cleanup_segments clk v l acc m = (m', Ok cl) -> failed_files cl = failed_files acc ->
  m_handle m' = m_handle m /\
  (forall name, m_files m !! name = None -> m_files m' !! name = None) /\
  (forall n name, (n, name) ∈ l -> n <= v -> m_files m' !! name = None) /\
  (forall name, (forall n, (n, name) ∈ l -> v < n) -> m_files m' !! name = m_files m !! name).
Proof.
  revert acc m. induction l as [|[n name] l IH]; intros acc m H Hfail; cbn [cleanup_segments] in H.
  { injection H as <- <-. split_and!; try done. intros n name Hin. by apply not_elem_of_nil in Hin. }
  destruct (Z.ltb_spec v n) as [Hgt|Hle].
  - destruct (IH acc m H Hfail) as (Hh & H1 & H2 & H3). split_and!; try done.
    + intros n0 name0 Hin Hle0. apply elem_of_cons in Hin as [[= -> ->]|Hin]; [lia|by eapply H2].
    + intros name0 Hn. apply H3. intros n0 Hin. apply Hn. by right.
  - destruct (inspect_binlog clk _) as [[insp|err]|]; try done. destruct (_ || _); [done|].
    unfold sys_remove in H. destruct (sys m) as [m1 [u|err]] eqn:E; apply sys_spec in E as (Hf & Hhm & _).
    + destruct (IH _ _ H Hfail) as (Hh & H1 & H2 & H3). simpl in Hh, H1, H3. split_and!.
      * congruence.
      * intros name0 Hn. apply H1. apply lookup_delete_None. right. congruence.
      * intros n0 name0 Hin Hle0. apply elem_of_cons in Hin as [[= -> ->]|Hin]; [|by eapply H2].
        apply H1, lookup_delete_eq.
      * intros name0 Hn. rewrite H3 by (intros n0 Hin; apply Hn; by right).
        rewrite lookup_delete_ne; [by rewrite Hf|]. intros ->. specialize (Hn n ltac:(by left)). lia.
    + apply cleanup_failures in H. cbn [failed_files] in H. lia.
Qed.

Lemma cleanup_cleaned T r F w entries s cs e bs rs clk v m' cl :
  stored_as T r F w entries s cs e bs rs ->
  cleanup_binlog_segments_through clk v (rt_binlog r) = (m', Ok cl) -> failed_files cl = 0 ->
  cleaned cs v (m_files (rt_binlog r)) (m_files m') /\ m_handle m' = m_handle (rt_binlog r) /\
  exists segments, remaining_files cl = len segments /\
    forall n name, is_Some (m_files m' !! name) ->
      parse_binlog_segment_end_sequence (Utf8.from_utf8 name) = Ok (Some n) -> (n, name) ∈ segments.
Proof.
  intros (Hd & _) Hrun Hfail. pose proof (dir_history _ _ _ _ _ _ _ _ _ Hd) as Hh.
  unfold cleanup_binlog_segments_through in Hrun.
  destruct (list_binlog_segments (rt_binlog r)) as [m1 [segments|err]] eqn:El; [|done].
  apply list_segments_complete in El as (Hf1 & Hh1 & Hl).
  destruct (cleanup_segments clk v segments (mkCleanup 0 0 0 0) m1) as [m2 [cl2|err]] eqn:Ec; [|done].
  destruct (sys m2) as [m3 [u|err]] eqn:E3; apply sys_spec in E3 as (Hf3 & Hh3 & _); [|done].
  destruct (list_binlog_segments m3) as [m4 [segments4|err]] eqn:E4; [|done].
  apply list_segments_complete in E4 as (Hf4 & Hh4 & Hl4). injection Hrun as <- <-. cbn [failed_files] in Hfail.
  apply cleanup_segments_spec in Ec as (Hh2 & _ & Hrem & Hkeep); [|done].
  split; [|split; [congruence|]; exists segments4; split; [done|]; intros n name Hn Hp; apply Hl4; by rewrite <- Hf4].
  rewrite Hf4, Hf3. pose proof (ho_chain _ _ _ _ _ _ _ Hh) as Hc. split.
  - intros c Hin Hle. apply (Hrem (c_end c)); [|done]. apply Hl. split.
    + rewrite (ho_segments _ _ _ _ _ _ _ Hh c Hin). eauto.
    + apply segment_parses. apply (chain_bounds _ _ _ c Hc Hin).
  - intros name Hn. rewrite Hkeep, Hf1; [done|]. intros n Hin. apply Hl in Hin as [Hs Hp].
    destruct (ho_others _ _ _ _ _ _ _ Hh name Hs) as [Hnone|(c & Hin & ->)]; [rewrite Hp in Hnone; done|].
    rewrite segment_parses in Hp by apply (chain_bounds _ _ _ c Hc Hin). injection Hp as <-.
    destruct (Z.lt_ge_cases v (c_end c)) as [Hlt|Hge]; [done|]. by destruct (Hn c Hin Hge).
Qed.

Lemma stored_cleaned T r F w entries s cs e bs rs v m' :
  stored_as T r F w entries s cs e bs rs -> v <= w ->
  cleaned cs v (m_files (rt_binlog r)) (m_files m') -> is_Some (m_handle m') ->
  exists s' P, stored_as T (set_binlog m' r) F w entries s' (kept cs v) e bs rs /\
    chain_batches cs = P ++ chain_batches (kept cs v) /\ s' = s + len P.
Proof.
  intros (Hd & Hf & [Hh [Hr1 Hr2]] & Hw & Ho & Hk) Hv Hcl Hh'.
  destruct (directory_after w (m_files (rt_binlog r)) entries s cs e bs rs [] Hd v Hv (m_files (rt_binlog r)) (m_files m'))
    as (s' & P & Hd' & Heff & HP & Hs'); [done|by left|done|].
  assert (Hkeep : forall name, parse_binlog_segment_end_sequence (Utf8.from_utf8 name) = Ok None ->
    m_files m' !! name = m_files (rt_binlog r) !! name).
  { intros name Hp. apply Hcl. intros c Hin _. by apply (segment_name_other _ _ _ _ _ _ _ _ _ Hd). }
  assert (Hb : m_files m' !! binlog_backup_path = None) by (rewrite Hkeep; [exact Hr1|reflexivity]).
  assert (Ht : m_files m' !! binlog_temp_path = None) by (rewrite Hkeep; [exact Hr2|reflexivity]).
  rewrite (delete_id (m_files m')) in Hd' by done. rewrite delete_id in Hd' by done.
  exists s', P. split; [|done]. unfold stored_as. cbn [rt_binlog set_binlog rt_offset].
  split_and!; try done; [rewrite Hkeep; [exact Hf|reflexivity]|]. intros k. by rewrite Heff.
Qed.

End Maintenance.
