(* ===== verification/Durability.v ===== *)
(** * Durability: the runtime as a state machine

    The steps that commits, rollovers and compactions take beside each other,
    one step per phase of [Runtime] and [Compaction], and the invariant that
    every step keeps: the directory recovers exactly the batches that were
    acknowledged.  A stop (an outcome the runtime cannot know, after which it
    accepts nothing) keeps every acknowledged batch, and of the group in flight
    a prefix. *)

From Stdlib Require Import ZArith Lia.
From Stdlib Require Import Strings.Byte.
From stdpp Require Import base gmap list strings numbers sorting.
From S2P Require Import Prelude Text Json JsonPath Value Shard ShardSpec Engine EngineSpec EngineMulti EngineTrace StoreSnapshot Store Persistence Model Codec CodecSpec BinlogFile BinlogIo AppendSpec Recovery ManagedBinlog SnapshotWriter ReplicaState Runtime Compaction HistorySpec ManagedSpec SealSpec EntryEq StoreSpec ModelSpec SnapshotSpec RecoverySpec InstallSpec CommitSpec MaintenanceSpec.

Open Scope Z_scope.

Section Durability.
Context {CRC : Crc32} {GZ : Gzip} {JN : JsonNumber} {SJ : SerdeJson} {HO : HashOrder}.

(** ** One batch is a group of one *)

Lemma accept_one policy d sequence batch threshold r :
  accept_next_batch policy d sequence batch threshold r =
  accept_next_batches policy d [(sequence, batch)] threshold r.
Proof.
  unfold accept_next_batch, accept_next_batches. destruct (next_sequence r) as [expected|error]; [|done].
  cbn [mbind result_bind check_sequences]. destruct (negb (sequence =? expected)); [done|].
  assert (E : append_batch policy d sequence batch (rt_binlog r) =
              append_batches policy d [(sequence, batch)] (rt_binlog r)).
  { unfold append_batch, append_batches. cbn [encode_batches]. by destruct (encode_committed_batch batch). }
  rewrite E. destruct (append_batches policy d [(sequence, batch)] (rt_binlog r)) as [[m [n|error]]|]; done.
Qed.

(** ** A captured view holds the store *)

Lemma listed_effects (T : Z) (m : gmap bytes DataEntry) (entries : list (bytes * DataEntry)) :
  entries ≡ₚ map_to_list m ->
  NoDup entries.*1 /\
  forall k, fold_left (effect_on T k) (snapshot_effects entries) None = logical_cell T (m !! k).
Proof.
  intros Hp. assert (Hnd : NoDup entries.*1) by (rewrite Hp; apply NoDup_fst_map_to_list). split; [done|].
  assert (Hm : m = list_to_map entries).
  { rewrite <- (list_to_map_to_list m). apply list_to_map_proper; [apply NoDup_fst_map_to_list|done]. }
  subst m. clear Hp. intros k.
  enough (H : forall c, (forall en, (k, en) ∈ entries -> c = None) ->
    fold_left (effect_on T k) (snapshot_effects entries) c =
    if decide (k ∈ entries.*1) then logical_cell T ((list_to_map entries : gmap bytes DataEntry) !! k) else c).
  { rewrite H by done. destruct (decide _) as [|Hn]; [done|]. by rewrite not_elem_of_list_to_map_1. }
  induction entries as [|[key entry] entries IH]; intros c Hc; [done|].
  rewrite fmap_cons in *. cbn [fst] in *. apply list.NoDup_cons in Hnd as [Hkey Hnd].
  cbn [snapshot_effects map fold_left fst snd effect_on]. fold (snapshot_effects entries).
  destruct (decide (key = k)) as [->|Hne].
  - rewrite bool_decide_eq_true_2 by done. rewrite (decide_True _ _ (list_elem_of_here _ _ : k ∈ k :: _)).
    cbn [list_to_map foldr uncurry fst snd]. rewrite lookup_insert_eq, logical_cell_some.
    assert (Hsame : forall l c0, k ∉ l.*1 -> fold_left (effect_on T k) (snapshot_effects l) c0 = c0).
    { clear. induction l as [|[k0 e0] l IH]; intros c0 Hk; [done|]. rewrite fmap_cons in Hk. cbn [fst] in Hk.
      apply not_elem_of_cons in Hk as [H1 H2]. cbn [snapshot_effects map fold_left fst snd effect_on].
      rewrite bool_decide_eq_false_2 by done. by apply IH. }
    by rewrite Hsame.
  - rewrite bool_decide_eq_false_2 by done.
    rewrite IH by (try done; intros en Hin; eapply Hc; by right).
    cbn [list_to_map foldr uncurry fst snd]. rewrite lookup_insert_ne by done.
    destruct (decide (k ∈ entries.*1)) as [Hin|Hin].
    + by rewrite decide_True by (by right).
    + rewrite decide_False; [done|]. intros H. apply elem_of_cons in H as [->|H]; done.
Qed.

(** ** Starting *)

(** The active file is opened, and created when it is missing. *)
Definition open_binlog_file (fs : Files) : Files :=
  match fs !! binlog_path with Some _ => fs | None => <[binlog_path := []]> fs end.

(** The runtime of a server that recovered [state]; [next] are the outcomes of
    the system calls to come and [disk] the part of the active file that is
    known to be on the disk. *)
Definition start_runtime (fs : Files) (state : RecoveryState) (total_keys : Z) (disk : bytes) (next : list ManagedBinlog.outcome)
  : CommitRuntime :=
  set_compaction_entry_floor total_keys
    (restore_maintenance_state (replayed_records state) (active_binlog_bytes state)
       (unsnapshotted_segment_count state) (physical_segment_count state) (snapshot_watermark state)
       (CommitRuntime_new (mkManaged (open_binlog_file fs) (Some 0) disk next) (last_sequence state))).

(** ** The machine *)

(** Who holds the rotation gate. *)
Inductive rotation : Type :=
| RotationFree
| Rolling
| Compacting (seal_generation : bool).

(** How far the compaction that holds the compaction gate is. *)
Inductive snapshotting : Type :=
| SnapshotIdle
| Captured (cap : capture) (entries : list (bytes * DataEntry))
| Written (cap : capture).

(** A running server with the batches it acknowledged since it started, or the
    files of a stopped one with the group whose outcome it does not know. *)
Inductive system : Type :=
| Running (r : CommitRuntime) (acknowledged : list CommittedBatch) (rot : rotation) (snap : snapshotting)
| Stopped (files : Files) (acknowledged in_flight : list CommittedBatch).

Section Machine.
(** [F0]: the effects that made the state the server started with, at the
    sequence [o0]; [T]: a time after which nothing is read. *)
Context (T : Z) (o0 : Z) (F0 : list CommittedEffect) (policy : FsyncPolicy).

(** The store shows the effects [F]. *)
Definition shows (st : ShardedStore) (F : list CommittedEffect) : Prop :=
  forall k, cell_at T st k = fold_left (effect_on T k) F None.

Inductive step : system -> system -> Prop :=
| StepCommit d batches threshold r r' maintenance B rot snap :
    batches_ok batches ->
    accept_next_batches policy d batches threshold r = Some (r', Ok maintenance) ->
    step (Running r B rot snap) (Running r' (B ++ batches.*2) rot snap)
| StepReject d batches threshold r r' error B rot snap :
    batches_ok batches -> rollback_safe (rt_binlog r) ->
    accept_next_batches policy d batches threshold r = Some (r', Err error) ->
    step (Running r B rot snap)
         (if is_indeterminate error then Stopped (m_files (rt_binlog r')) B batches.*2
          else Running r' B rot snap)
| StepRolloverPrepare clk r r' res B snap :
    rollover_prepare clk r = Some (r', res) -> rt_cleanup_blocked r' = false ->
    step (Running r B RotationFree snap)
         (Running r' B (match res with Ok (RolloverReady _) => Rolling | _ => RotationFree end) snap)
| StepRolloverSeal d r r' res B snap :
    rollover_seal d r = Some (r', res) ->
    step (Running r B Rolling snap)
         (match res with
          | Err error => if is_indeterminate error then Stopped (m_files (rt_binlog r')) B []
                         else Running r' B RotationFree snap
          | Ok _ => Running r' B RotationFree snap
          end)
| StepCompactPrepare clk r r' res B :
    compact_prepare clk r = Some (r', res) -> rt_cleanup_blocked r' = false ->
    step (Running r B RotationFree SnapshotIdle)
         (Running r' B (match res with Ok seal => Compacting seal | Err _ => RotationFree end) SnapshotIdle)
| StepCaptureFailed d clk seal r r' st st' error B :
    compact_capture d clk seal r st = Some (r', st', Err error) ->
    step (Running r B (Compacting seal) SnapshotIdle)
         (if is_indeterminate error then Stopped (m_files (rt_binlog r')) B []
          else Running r' B RotationFree SnapshotIdle)
| StepCapture {R} d clk seal r r' st st' cap (ops : nat -> list (clock * EngineOp R)) e' entries B :
    compact_capture d clk seal r st = Some (r', st', Ok cap) ->
    shows st (F0 ++ batch_effects B) -> clk 0%nat <= T ->
    engine_wf (engine st) -> snapshot_active (engine st) = false ->
    (forall k en, dataset (engine st) !! k = Some en -> entry_ok (k, en)) ->
    ops_fit (dataset (engine st)) (schedule ops 0 64) ->
    into_entries (threads ops) (engine st') (cap_view cap) = Some (e', entries) ->
    step (Running r B (Compacting seal) SnapshotIdle) (Running r' B RotationFree (Captured cap entries))
| StepWrite r r' res B rot cap entries :
    compact_write (cap_watermark cap) entries r = (r', res) ->
    step (Running r B rot (Captured cap entries))
         (Running r' B rot (match res with Ok _ => Written cap | Err _ => SnapshotIdle end))
| StepFinish d upstream_replid count r r' res B rot cap :
    compact_finish d upstream_replid cap count r = (r', res) ->
    step (Running r B rot (Written cap)) (Running r' B rot SnapshotIdle)
| StepCleanup clk r B snap :
    rt_cleanup_blocked (compact_cleanup clk r) = false ->
    step (Running r B RotationFree snap) (Running (compact_cleanup clk r) B RotationFree snap).

(** ** The invariant *)

Definition durable (r : CommitRuntime) (B : list CommittedBatch) (w : Z) : Prop :=
  exists entries s cs e bs rs,
    stored_as T r (F0 ++ batch_effects B) w entries s cs e bs rs /\
    rt_offset r = o0 + len B /\
    (forall q, s - 1 <= q -> o0 <= q -> after q s (chain_batches cs ++ bs) = after q (o0 + 1) B) /\
    rt_watermark r <= w /\ len cs <= rt_physical r.

Definition rotation_ok (r : CommitRuntime) (rot : rotation) : Prop :=
  match rot with
  | Rolling | Compacting true => rt_physical r < MAX_BINLOG_SEGMENTS
  | _ => True
  end.

Definition snapshot_ok (r : CommitRuntime) (B : list CommittedBatch) (w : Z) (snap : snapshotting) : Prop :=
  match snap with
  | SnapshotIdle => True
  | Captured cap entries =>
    w <= cap_watermark cap <= rt_offset r /\ o0 <= cap_watermark cap /\
    NoDup entries.*1 /\ Forall entry_ok entries /\
    exists B1 B2, B = B1 ++ B2 /\ cap_watermark cap = o0 + len B1 /\
      forall k, fold_left (effect_on T k) (snapshot_effects entries) None =
                fold_left (effect_on T k) (F0 ++ batch_effects B1) None
  | Written cap => cap_watermark cap <= w
  end.

Definition system_ok (sys : system) : Prop :=
  match sys with
  | Running r B rot snap => exists w, durable r B w /\ rotation_ok r rot /\ snapshot_ok r B w snap
  | Stopped fs B group => exists part, part `prefix_of` group /\ recoverable T fs (F0 ++ batch_effects (B ++ part))
  end.

End Machine.

End Durability.

(** * Every step keeps the acknowledged batches recoverable *)

From S2P Require Import Prelude Text Json JsonPath Value Shard ShardSpec Engine EngineSpec EngineMulti EngineTrace StoreSnapshot Store Persistence Model Codec CodecSpec BinlogFile BinlogIo AppendSpec Recovery ManagedBinlog SnapshotWriter ReplicaState Runtime Compaction HistorySpec ManagedSpec SealSpec EntryEq StoreSpec ModelSpec SnapshotSpec RecoverySpec InstallSpec CommitSpec MaintenanceSpec.

Section Steps.
Context {CRC : Crc32} {GZ : Gzip} {JN : JsonNumber} {SJ : SerdeJson} {HO : HashOrder}.
Context (T : Z) (o0 : Z) (F0 : list CommittedEffect).

Notation durable := (durable T o0 F0).
Notation snapshot_ok := (snapshot_ok T o0 F0).

(** ** What does not touch the history *)

Lemma stored_files r r' F w entries s cs e bs rs :
  m_files (rt_binlog r') = m_files (rt_binlog r) -> is_Some (m_handle (rt_binlog r')) ->
  rt_offset r' = rt_offset r -> stored_as T r F w entries s cs e bs rs -> stored_as T r' F w entries s cs e bs rs.
Proof. unfold stored_as. intros -> Hh -> (Hd & Hf & [_ Hr] & Hw & Ho & Hk). done. Qed.

Lemma durable_files r r' B w :
  m_files (rt_binlog r') = m_files (rt_binlog r) -> m_handle (rt_binlog r') = m_handle (rt_binlog r) ->
  rt_offset r' = rt_offset r -> rt_watermark r' <= w -> rt_physical r <= rt_physical r' ->
  durable r B w -> durable r' B w.
Proof.
  intros Hf Hh Ho Hw Hp (entries & s & cs & e & bs & rs & Hst & Hoff & Hag & _ & Hlen).
  exists entries, s, cs, e, bs, rs. split_and!; [|congruence|done|done|lia].
  apply (stored_files r); [done| |done|done]. rewrite Hh. apply Hst.
Qed.

Lemma durable_recoverable r B w : durable r B w -> recoverable T (m_files (rt_binlog r)) (F0 ++ batch_effects B).
Proof. intros (entries & s & cs & e & bs & rs & Hst & _). apply (stored_recoverable T). by exists w, entries, s, cs, e, bs, rs. Qed.

(** The live segments and the active file after more commits. *)
Lemma snapshot_ok_mono r r' B B' w snap :
  snapshot_ok r B w snap -> rt_offset r <= rt_offset r' -> snapshot_ok r' (B ++ B') w snap.
Proof.
  destruct snap as [|cap entries|cap]; cbn; [done| |done].
  intros (Hw & Ho & Hnd & Hok & B1 & B2 & -> & Hc & Hk) Hle. split_and!; try done; try lia.
  exists B1, (B2 ++ B'). by rewrite (assoc_L (++)).
Qed.

Lemma snapshot_ok_same r r' B w snap : rt_offset r' = rt_offset r -> snapshot_ok r B w snap -> snapshot_ok r' B w snap.
Proof. intros Ho H. rewrite <- (app_nil_r B). apply (snapshot_ok_mono r); [done|lia]. Qed.

Lemma rotation_ok_same r r' rot : rt_physical r' = rt_physical r -> rotation_ok r rot -> rotation_ok r' rot.
Proof. intros Hp. by destruct rot as [| |[]]; cbn; rewrite ?Hp. Qed.

(** ** Commits *)

Lemma durable_commit policy d batches threshold r r' maintenance B w :
  batches_ok batches -> accept_next_batches policy d batches threshold r = Some (r', Ok maintenance) ->
  durable r B w ->
  durable r' (B ++ batches.*2) w /\ rt_offset r <= rt_offset r' /\ rt_physical r' = rt_physical r.
Proof.
  intros Hok Hrun (entries & s & cs & e & bs & rs & Hst & Hoff & Hag & Hw & Hlen).
  destruct (accept_batches_spec T r _ w entries s cs e bs rs Hst _ _ _ _ _ (Ok maintenance) Hok I Hrun)
    as [([Hw' Hp'] & (rs2 & Hst') & Hoff') _].
  pose proof (len_nonneg batches.*2). split; [|split; [lia|done]].
  exists entries, s, cs, e, (bs ++ batches.*2), (rs ++ rs2). rewrite <- (assoc_L (++)) in Hst'.
  rewrite <- batch_effects_app in Hst'. split_and!; [done|rewrite Hoff', len_app; lia| |congruence|congruence].
  intros q Hs Ho. pose proof Hst as (Hd & _ & _ & _ & Hend & _).
  pose proof (chain_length _ _ _ (ho_chain _ _ _ _ _ _ _ (dir_history _ _ _ _ _ _ _ _ _ Hd))) as Hc.
  rewrite (assoc_L (++)), (after_app q s (_ ++ bs)), (after_app q _ B), Hag by done. do 2 f_equal.
  rewrite len_app. lia.
Qed.

Lemma durable_reject policy d batches threshold r r' error B w :
  batches_ok batches -> rollback_safe (rt_binlog r) ->
  accept_next_batches policy d batches threshold r = Some (r', Err error) -> durable r B w ->
  if is_indeterminate error
  then exists part, part `prefix_of` batches.*2 /\
    recoverable T (m_files (rt_binlog r')) (F0 ++ batch_effects (B ++ part))
  else durable r' B w /\ rt_offset r' = rt_offset r /\ rt_physical r' = rt_physical r.
Proof.
  intros Hok Hsafe Hrun (entries & s & cs & e & bs & rs & Hst & Hoff & Hag & Hw & Hlen).
  destruct (accept_batches_spec T r _ w entries s cs e bs rs Hst _ _ _ _ _ (Err error) Hok Hsafe Hrun)
    as [([Hw' Hp'] & Ho' & Hres) _].
  destruct (is_indeterminate error).
  - destruct Hres as (part & Hpre & Hrec). exists part. split; [done|]. by rewrite batch_effects_app, (assoc_L (++)).
  - split; [|done]. exists entries, s, cs, e, bs, rs. split_and!; [done|congruence|done|congruence|congruence].
Qed.

(** ** Sealing *)

Lemma durable_seal d r m' res B w :
  durable r B w -> rt_physical r < MAX_BINLOG_SEGMENTS ->
  handle_seal_active d (rt_offset r) (rt_binlog r) = (m', res) ->
  match res with
  | Ok n => exists entries s cs e, stored_as T (set_binlog m' r) (F0 ++ batch_effects B) w entries s cs e [] [] /\
      (forall q, s - 1 <= q -> o0 <= q -> after q s (chain_batches cs) = after q (o0 + 1) B) /\
      len cs <= rt_physical r + (if n =? 0 then 0 else 1)
  | Err error =>
    if is_indeterminate error then recoverable T (m_files m') (F0 ++ batch_effects B)
    else durable (set_binlog m' r) B w
  end.
Proof.
  intros Hdur Hroom Hrun. pose proof Hdur as (entries & s & cs & e & bs & rs & Hst & Hoff & Hag & Hw & Hlen).
  assert (Hrec := durable_recoverable _ _ _ Hdur).
  unfold handle_seal_active, ask in Hrun. destruct d as [| |carried_out].
  2: by injection Hrun as <- <-.
  - unfold worker_seal_active in Hrun.
    destruct (m_seal_active (rt_binlog r) (rt_offset r)) as [m1 res1] eqn:E.
    pose proof (seal_spec T r _ w entries s cs e bs rs Hst ltac:(lia) _ _ E) as H.
    destruct res1 as [n|[e1|e1]]; injection Hrun as <- <-.
    + destruct H as [(cs' & e' & bs' & rs' & Hst' & Hb & Hnil & Hl) ->]. destruct (Hnil eq_refl) as [-> ->].
      exists entries, s, cs', e'. rewrite app_nil_r in Hb. split; [done|]. split; [by intros; rewrite Hb, Hag|].
      destruct (len (log rs) =? 0); cbn [andb negb] in Hl; lia.
    + destruct H as (cs' & e' & bs' & rs' & Hst' & Hb & _ & Hl). cbn [into_persistence_error disposition rejected is_indeterminate].
      exists entries, s, cs', e', bs', rs'. cbn [andb] in Hl. split_and!; [done|done|by intros; rewrite Hb, Hag|done|cbn; lia].
    + done.
  - injection Hrun as <- <-. cbn. destruct carried_out; [|done]. unfold worker_seal_active.
    destruct (m_seal_active (rt_binlog r) (rt_offset r)) as [m1 res1] eqn:E.
    pose proof (seal_spec T r _ w entries s cs e bs rs Hst ltac:(lia) _ _ E) as H.
    destruct res1 as [n|[e1|e1]]; cbn [fst]; [destruct H as [H _]| |done];
      destruct H as (cs' & e' & bs' & rs' & Hst' & _);
      apply (stored_recoverable T (set_binlog m1 r)); by exists w, entries, s, cs', e', bs', rs'.
Qed.

(** The runtime after a seal, with its counters. *)
Lemma durable_sealed r m' n r' B w :
  record_sealed_segment n (set_bytes (rt_accepted_bytes (set_binlog m' r)) 0 (set_binlog m' r)) = Some r' ->
  (exists entries s cs e, stored_as T (set_binlog m' r) (F0 ++ batch_effects B) w entries s cs e [] [] /\
      (forall q, s - 1 <= q -> o0 <= q -> after q s (chain_batches cs) = after q (o0 + 1) B) /\
      len cs <= rt_physical r + (if n =? 0 then 0 else 1)) ->
  rt_offset r = o0 + len B -> rt_watermark r <= w ->
  durable r' B w /\ rt_offset r' = rt_offset r /\ rt_binlog r' = m'.
Proof.
  intros Hr (entries & s & cs & e & Hst & Hag & Hlen) Hoff Hw. unfold record_sealed_segment in Hr.
  destruct (n =? 0); [|destruct (_ <? _); [|done]]; injection Hr as <-; (split; [|done]);
    exists entries, s, cs, e, [], []; rewrite app_nil_r; cbn; split_and!; try done; try lia;
    (apply (stored_files (set_binlog m' r)); [done|apply Hst|done|done]).
Qed.

(** ** The catalog *)

Lemma catalog_complete fs s cs e bs rs tail (segments : list (Z * bytes)) :
  history_on fs s cs e bs rs tail ->
  (forall n name, is_Some (fs !! name) ->
    parse_binlog_segment_end_sequence (Utf8.from_utf8 name) = Ok (Some n) -> (n, name) ∈ segments) ->
  len cs <= len segments.
Proof.
  intros Hh Hall. pose proof (ho_chain _ _ _ _ _ _ _ Hh) as Hc.
  set (named := fun c => (c_end c, binlog_segment (c_end c))).
  assert (Hsub : map named cs ⊆+ segments).
  { apply NoDup_submseteq.
    - apply NoDup_fmap_2_strong; [|by eapply chain_nodup]. intros c1 c2 H1 H2 [= Heq _].
      by eapply chain_distinct.
    - intros [n name] Hin. apply list_elem_of_fmap in Hin as (c & [= -> ->] & Hin). apply Hall.
      + rewrite (ho_segments _ _ _ _ _ _ _ Hh c Hin). eauto.
      + apply segment_parses. apply (chain_bounds _ _ _ c Hc Hin). }
  apply submseteq_length in Hsub. rewrite length_map in Hsub. unfold len. lia.
Qed.

(** A refresh that removes what it should leaves the same state. *)
Lemma stored_refresh clk r r' res F w entries s cs e bs rs :
  stored_as T r F w entries s cs e bs rs -> rt_watermark r <= w ->
  refresh_segment_catalog clk r = (r', res) -> rt_cleanup_blocked r' = false ->
  rt_offset r' = rt_offset r /\ rt_watermark r' = rt_watermark r /\
  exists s' P cs', stored_as T r' F w entries s' cs' e bs rs /\ chain_batches cs = P ++ chain_batches cs' /\ s' = s + len P /\
    (len cs <= rt_physical r -> len cs' <= rt_physical r').
Proof.
  intros Hst Hw Hrun Hblocked. unfold refresh_segment_catalog in Hrun.
  destruct (cleanup_binlog_segments_through clk (rt_watermark r) (rt_binlog r)) as [m' [cl|err]] eqn:E;
    injection Hrun as <- <-.
  2: { split; [done|]. split; [done|]. exists s, [], cs. change (len (@nil CommittedBatch)) with 0. split_and!; first [done|lia]. }
  cbn in Hblocked. apply Z.ltb_ge in Hblocked.
  assert (Hfail : failed_files cl = 0).
  { enough (0 <= failed_files cl) by lia. clear - E. unfold cleanup_binlog_segments_through in E.
    destruct (list_binlog_segments (rt_binlog r)) as [m1 [l|]]; [|done].
    destruct (cleanup_segments _ _ _ _ _) as [m2 [c2|]] eqn:Ec; [|done]. apply cleanup_failures in Ec.
    destruct (sys m2) as [m3 [u|]]; [|done]. destruct (list_binlog_segments m3) as [m4 [l4|]]; [|done].
    by injection E as _ <-. }
  destruct (cleanup_cleaned _ _ _ _ _ _ _ _ _ _ _ _ _ _ Hst E Hfail) as (Hcl & Hh & segments & Hrem & Hall).
  destruct (stored_cleaned _ _ _ _ _ _ _ _ _ _ _ _ Hst Hw Hcl) as (s' & P & Hst' & HP & Hs');
    [rewrite Hh; apply Hst|].
  split; [done|]. split; [done|]. exists s', P, (kept cs (rt_watermark r)). split_and!; try done.
  intros _. cbn. rewrite Hrem. destruct Hst' as (Hd' & _). eapply catalog_complete; [apply Hd'|done].
Qed.

Lemma durable_refresh clk r r' res B w :
  durable r B w -> refresh_segment_catalog clk r = (r', res) -> rt_cleanup_blocked r' = false ->
  durable r' B w /\ rt_offset r' = rt_offset r.
Proof.
  intros (entries & s & cs & e & bs & rs & Hst & Hoff & Hag & Hw & Hlen) Hrun Hblocked.
  destruct (stored_refresh _ _ _ _ _ _ _ _ _ _ _ _ Hst Hw Hrun Hblocked) as (Ho & Hmark & s' & P & cs' & Hst' & HP & Hs' & Hl).
  split; [|done]. exists entries, s', cs', e, bs, rs. split_and!; [done|congruence| |congruence|by apply Hl].
  intros q Hq Hq'. rewrite <- Hag by (pose proof (len_nonneg P); lia).
  rewrite HP, <- (assoc_L (++)), (after_app q s P), <- Hs'. unfold after at 2.
  rewrite drop_ge; [done|]. unfold len in *. lia.
Qed.

(** ** Flushing ahead *)

Lemma preflush_spec m m' res :
  preflush_active_generation m = (m', res) -> m_files m' = m_files m /\ m_handle m' = m_handle m.
Proof.
  unfold preflush_active_generation.
  destruct (sys m) as [m1 [u|e1]] eqn:E1; apply sys_spec in E1 as (Hf1 & Hh1 & _); [|intros [= <- <-]; done].
  destruct (m_files m1 !! binlog_path); [|intros [= <- <-]; done].
  destruct (sys m1) as [m2 [u2|e2]] eqn:E2; apply sys_spec in E2 as (Hf2 & Hh2 & _); [|intros [= <- <-]; split; congruence].
  destruct (0 <? _); [|intros [= <- <-]; split; congruence].
  destruct (sys m2) as [m3 [u3|e3]] eqn:E3; apply sys_spec in E3 as (Hf3 & Hh3 & _); intros [= <- <-]; cbn; split; congruence.
Qed.

Lemma durable_flushed r m B w :
  m_files m = m_files (rt_binlog r) -> m_handle m = m_handle (rt_binlog r) -> durable r B w ->
  durable (set_binlog m r) B w.
Proof. intros Hf Hh Hd. pose proof Hd as (? & ? & ? & ? & ? & ? & _ & _ & _ & Hw & _). by apply (durable_files r). Qed.

Lemma durable_budget limit r B w : durable r B w -> durable (set_budget limit r) B w.
Proof. intros Hd. pose proof Hd as (? & ? & ? & ? & ? & ? & _ & _ & _ & Hw & _). by apply (durable_files r). Qed.

Lemma durable_failed error r B w : durable r B w -> durable (seal_failed error r) B w.
Proof.
  intros Hd. unfold seal_failed. destruct (is_indeterminate error); [|done].
  pose proof Hd as (? & ? & ? & ? & ? & ? & _ & _ & _ & Hw & _). by apply (durable_files r).
Qed.

(** ** The phases *)

Lemma activate_spec r r' : activate_compaction_write_budget r = Some r' -> exists l, r' = set_budget l r.
Proof. unfold activate_compaction_write_budget. destruct (_ =? _); [|done]. intros [= <-]. eauto. Qed.

(** The catalog is refreshed, the budget taken and the generation flushed. *)
Lemma durable_rollover_prepare clk r r' res B w :
  durable r B w -> rollover_prepare clk r = Some (r', res) -> rt_cleanup_blocked r' = false ->
  durable r' B w /\ rt_offset r' = rt_offset r /\
  match res with Ok (RolloverReady _) => rt_physical r' < MAX_BINLOG_SEGMENTS | _ => True end.
Proof.
  intros Hd Hrun Hb. unfold rollover_prepare in Hrun.
  destruct (rt_active_bytes r =? 0); [by injection Hrun as <- <-|].
  destruct (refresh_segment_catalog clk r) as [r1 [cl|err]] eqn:Er.
  2: { injection Hrun as <- <-. by destruct (durable_refresh _ _ _ _ _ _ Hd Er Hb). }
  destruct (BINLOG_SEGMENT_ROLLOVER_LIMIT <=? rt_physical r1) eqn:Elim.
  { injection Hrun as <- <-. by destruct (durable_refresh _ _ _ _ _ _ Hd Er Hb). }
  destruct (activate_compaction_write_budget r1) as [r2|] eqn:Ea; [|discriminate Hrun]. cbn [mbind option_bind] in Hrun.
  apply activate_spec in Ea as [l ->].
  destruct (preflush_active_generation (rt_binlog (set_budget l r1))) as [m [n|err]] eqn:Ep;
    apply preflush_spec in Ep as [Hf Hh]; injection Hrun as <- <-;
    destruct (durable_refresh _ _ _ _ _ _ Hd Er Hb) as [Hd1 Ho1].
  - split; [by apply durable_flushed, durable_budget|]. split; [done|]. apply Z.leb_gt in Elim.
    change (rt_physical r1 < MAX_BINLOG_SEGMENTS). unfold BINLOG_SEGMENT_ROLLOVER_LIMIT in Elim. lia.
  - split; [by apply durable_budget, durable_flushed, durable_budget|done].
Qed.

Lemma durable_compact_prepare clk r r' res B w :
  durable r B w -> compact_prepare clk r = Some (r', res) -> rt_cleanup_blocked r' = false ->
  durable r' B w /\ rt_offset r' = rt_offset r /\
  match res with Ok true => rt_physical r' < MAX_BINLOG_SEGMENTS | _ => True end.
Proof.
  intros Hd Hrun Hb. unfold compact_prepare in Hrun.
  destruct (refresh_segment_catalog clk r) as [r1 [cl|err]] eqn:Er.
  2: { injection Hrun as <- <-. by destruct (durable_refresh _ _ _ _ _ _ Hd Er Hb). }
  destruct (rt_physical r1 <? MAX_BINLOG_SEGMENTS) eqn:Elim.
  2: { injection Hrun as <- <-. by destruct (durable_refresh _ _ _ _ _ _ Hd Er Hb). }
  destruct (activate_compaction_write_budget r1) as [r2|] eqn:Ea; [|discriminate Hrun]. cbn [mbind option_bind] in Hrun.
  apply activate_spec in Ea as [l ->].
  destruct (preflush_active_generation (rt_binlog (set_budget l r1))) as [m [n|err]] eqn:Ep;
    apply preflush_spec in Ep as [Hf Hh]; injection Hrun as <- <-;
    destruct (durable_refresh _ _ _ _ _ _ Hd Er Hb) as [Hd1 Ho1].
  - split; [by apply durable_flushed, durable_budget|]. split; [done|]. by apply Z.ltb_lt in Elim.
  - split; [by apply durable_budget, durable_flushed, durable_budget|done].
Qed.

Lemma durable_offset r B w : durable r B w -> rt_offset r = o0 + len B /\ rt_watermark r <= w /\ w <= rt_offset r.
Proof. intros (? & ? & ? & ? & ? & ? & Hst & Ho & _ & Hw & _). by destruct Hst as (_ & _ & _ & ? & _). Qed.

Lemma context_indeterminate error context :
  is_indeterminate (error_with_context error context) = is_indeterminate error.
Proof. unfold error_with_context. by destruct (is_indeterminate error). Qed.

Lemma durable_rollover_seal d r r' res B w :
  durable r B w -> rt_physical r < MAX_BINLOG_SEGMENTS -> rollover_seal d r = Some (r', res) ->
  match res with
  | Err error => if is_indeterminate error then recoverable T (m_files (rt_binlog r')) (F0 ++ batch_effects B)
                 else durable r' B w /\ rt_offset r' = rt_offset r
  | Ok _ => durable r' B w /\ rt_offset r' = rt_offset r
  end.
Proof.
  intros Hd Hroom Hrun. unfold rollover_seal in Hrun. destruct (durable_offset _ _ _ Hd) as (Ho & Hw & _).
  destruct (handle_seal_active d (rt_offset r) (rt_binlog r)) as [m' [n|error]] eqn:E;
    pose proof (durable_seal _ _ _ _ _ _ Hd Hroom E) as H.
  - destruct (record_sealed_segment n _) as [r1|] eqn:Er; [|discriminate Hrun]. cbn [mbind option_bind] in Hrun.
    injection Hrun as <- <-. destruct (durable_sealed r m' n r1 B w) as (Hd1 & Ho1 & _); [done..|].
    split; [by apply durable_budget|done].
  - injection Hrun as <- <-. rewrite context_indeterminate. destruct (is_indeterminate error) eqn:Ei; cbn match in H; rewrite Ei in H.
    + unfold seal_failed. rewrite context_indeterminate, Ei. exact H.
    + split; [by apply durable_budget, durable_failed|]. unfold seal_failed. by rewrite context_indeterminate, Ei.
Qed.

Lemma durable_capture_failed d clk seal r r' st st' error B w :
  durable r B w -> (seal = true -> rt_physical r < MAX_BINLOG_SEGMENTS) ->
  compact_capture d clk seal r st = Some (r', st', Err error) ->
  if is_indeterminate error then recoverable T (m_files (rt_binlog r')) (F0 ++ batch_effects B)
  else durable r' B w /\ rt_offset r' = rt_offset r.
Proof.
  intros Hd Hroom Hrun. unfold compact_capture in Hrun. destruct seal.
  - destruct (handle_seal_active d (rt_offset r) (rt_binlog r)) as [m' [n|error1]] eqn:E;
      pose proof (durable_seal _ _ _ _ _ _ Hd (Hroom eq_refl) E) as H.
    { destruct (record_sealed_segment _ _) as [r1|]; [|discriminate Hrun].
      destruct (engine_begin_snapshot clk (engine st)) as [[e1 v]|]; discriminate Hrun. }
    injection Hrun as <- <- <-. rewrite context_indeterminate. destruct (is_indeterminate error1) eqn:Ei; cbn match in H; rewrite Ei in H.
    + unfold seal_failed. rewrite context_indeterminate, Ei. exact H.
    + split; [by apply durable_budget, durable_failed|]. unfold seal_failed. by rewrite context_indeterminate, Ei.
  - cbn [mbind option_bind] in Hrun.
    destruct (engine_begin_snapshot clk (engine st)) as [[e1 v]|]; discriminate Hrun.
Qed.

Lemma set_binlog_same r : set_binlog (rt_binlog r) r = r.
Proof. by destruct r. Qed.

Lemma durable_capture d clk seal r r' st st' cap B w :
  durable r B w -> (seal = true -> rt_physical r < MAX_BINLOG_SEGMENTS) ->
  compact_capture d clk seal r st = Some (r', st', Ok cap) ->
  durable r' B w /\ rt_offset r' = rt_offset r /\ cap_watermark cap = rt_offset r /\
  engine_begin_snapshot clk (engine st) = Some (engine st', cap_view cap).
Proof.
  intros Hd Hroom Hrun. unfold compact_capture in Hrun. destruct (durable_offset _ _ _ Hd) as (Ho & Hw & _).
  destruct seal.
  - destruct (handle_seal_active d (rt_offset r) (rt_binlog r)) as [m' [n|error1]] eqn:E; [|discriminate Hrun].
    pose proof (durable_seal _ _ _ _ _ _ Hd (Hroom eq_refl) E) as H.
    destruct (record_sealed_segment _ _) as [r1|] eqn:Er; [|discriminate Hrun]. cbn [mbind option_bind] in Hrun.
    destruct (engine_begin_snapshot clk (engine st)) as [[e1 v]|]; [|discriminate Hrun].
    cbn [mbind option_bind] in Hrun. injection Hrun as <- <- <-.
    destruct (durable_sealed r m' n r1 B w) as (Hd1 & Ho1 & _); [done..|].
    split_and!; [by apply durable_budget|done|done|done].
  - cbn [mbind option_bind] in Hrun.
    destruct (engine_begin_snapshot clk (engine st)) as [[e1 v]|]; [|discriminate Hrun].
    cbn [mbind option_bind] in Hrun. injection Hrun as <- <- <-. by rewrite set_binlog_same.
Qed.

(** The captured entries stand for the batches acknowledged so far. *)
Lemma captured_ok {R} clk st st' cap (ops : nat -> list (clock * EngineOp R)) e' entries r B w :
  engine_begin_snapshot clk (engine st) = Some (engine st', cap_view cap) ->
  shows T st (F0 ++ batch_effects B) -> clk 0%nat <= T ->
  engine_wf (engine st) -> snapshot_active (engine st) = false ->
  (forall k en, dataset (engine st) !! k = Some en -> entry_ok (k, en)) ->
  ops_fit (dataset (engine st)) (schedule ops 0 64) ->
  into_entries (threads ops) (engine st') (cap_view cap) = Some (e', entries) ->
  w <= rt_offset r -> cap_watermark cap = rt_offset r -> rt_offset r = o0 + len B ->
  snapshot_ok r B w (Captured cap entries).
Proof.
  intros Hbegin Hshow Hclk Hwf Hact Hok Hfit Hinto Hw Hcap Ho.
  destruct (snapshot_copy_spec clk (engine st) ops Hwf Hact Hfit) as (e1 & v & e2 & l & H1 & H2 & Hp & _).
  rewrite Hbegin in H1. injection H1 as <- <-. rewrite Hinto in H2. injection H2 as <- <-.
  destruct (listed_effects T _ _ Hp) as [Hnd Hk]. cbn. pose proof (len_nonneg B). split_and!; [lia|lia|lia|done| |].
  - apply list.Forall_forall. intros [k en] Hin. rewrite Hp in Hin. apply elem_of_map_to_list in Hin.
    rewrite lookup_live_map in Hin. apply Hok. destruct (dataset (engine st) !! k) as [en'|]; [|done].
    unfold c_live in Hin. by destruct (expired_by _ en').
  - exists B, []. split; [by rewrite app_nil_r|]. split; [lia|]. intros k. rewrite Hk, lookup_live_map, logical_live by done. apply Hshow.
Qed.

Lemma durable_write r r' res B w cap entries :
  durable r B w -> snapshot_ok r B w (Captured cap entries) ->
  compact_write (cap_watermark cap) entries r = (r', res) ->
  exists w', durable r' B w' /\ rt_offset r' = rt_offset r /\ rt_physical r' = rt_physical r /\
    match res with Ok _ => cap_watermark cap <= w' | Err _ => True end.
Proof.
  intros (entries0 & s & cs & e & bs & rs & Hst & Hoff & Hag & Hw & Hlen)
    ((Hcap1 & Hcap2) & Hcap3 & Hnd & Hok & B1 & B2 & -> & Hcap & Hk) Hrun.
  unfold compact_write in Hrun.
  destruct (write_snapshot_file entries (cap_watermark cap) (rt_binlog r)) as [m' written] eqn:E.
  injection Hrun as <- <-. pose proof (dir_joined _ _ _ _ _ _ _ _ _ (proj1 Hst)) as Hj.
  destruct (snapshot_stored T r _ w entries0 s cs e bs rs (cap_watermark cap) entries m' written
    (F0 ++ batch_effects B1) Hst) as [Hst'|[Hst' Hne]]; [lia|done|done|done| |done| |].
  - intros k. rewrite Hag, Hcap by lia.
    assert (Ha : after (o0 + len B1) (o0 + 1) (B1 ++ B2) = B2).
    { rewrite after_app. unfold after. rewrite drop_ge by (unfold len; lia).
      by replace (Z.to_nat (o0 + len B1 + 1 - (o0 + 1 + len B1))) with 0%nat by (unfold len; lia). }
    by rewrite Ha, batch_effects_app, (assoc_L (++)).
  - exists (cap_watermark cap). split; [|split_and!; [done|done|by destruct written]].
    exists entries, s, cs, e, bs, rs. split_and!; [done|done|done|cbn; lia|done].
  - exists w. split; [|split_and!; [done|done|by destruct written as [[]|]]].
    exists entries0, s, cs, e, bs, rs. done.
Qed.

(** ** Finishing a compaction *)

Lemma checkpoint_spec d m m' res :
  handle_checkpoint d m = (m', res) -> m_files m' = m_files m /\ (is_Some (m_handle m) -> is_Some (m_handle m')).
Proof.
  assert (Hw : forall m, m_files (worker_checkpoint m).1 = m_files m /\
    (is_Some (m_handle m) -> is_Some (m_handle (worker_checkpoint m).1))).
  { clear. intros m. unfold worker_checkpoint, m_flush, m_seek_end, m_seek, on_handle. destruct (m_handle m) eqn:Eh; [|done].
    destruct (sys m) as [m1 [u|e1]] eqn:E1; apply sys_spec in E1 as (Hf1 & Hh1 & _); [|cbn; rewrite Hh1, Eh; done].
    rewrite Hh1, Eh. destruct (sys m1) as [m2 [u2|e2]] eqn:E2; apply sys_spec in E2 as (Hf2 & Hh2 & _); cbn;
      rewrite ?Hh2, ?Hh1, ?Eh; split; [congruence|eauto|congruence|eauto]. }
  unfold handle_checkpoint, ask. destruct d as [| |[]]; [|by intros [= <- <-]|intros [= <- <-]; apply Hw|by intros [= <- <-]].
  specialize (Hw m). destruct (worker_checkpoint m) as [m1 [n|f]]; by intros [= <- <-].
Qed.

Lemma stored_unnamed (names : list bytes) r r' F w entries s cs e bs rs :
  (forall name, name ∈ names -> parse_binlog_segment_end_sequence (Utf8.from_utf8 name) = Ok None) ->
  (forall name, name ∈ [binlog_path; binlog_backup_path; binlog_temp_path; snapshot_path; snapshot_backup_path] ->
    name ∉ names) ->
  (forall name, name ∉ names -> m_files (rt_binlog r') !! name = m_files (rt_binlog r) !! name) ->
  is_Some (m_handle (rt_binlog r')) -> rt_offset r' = rt_offset r ->
  stored_as T r F w entries s cs e bs rs -> stored_as T r' F w entries s cs e bs rs.
Proof.
  intros Hp Hother Hk Hh Ho (Hd & Hf & [_ [Hr1 Hr2]] & Hw & Hoff & Heff). unfold stored_as, rotation_clean.
  rewrite Ho, !Hk by (apply Hother; set_solver). split_and!; try done. constructor; try apply Hd.
  - eapply history_unnamed; [done|apply Hother; set_solver|done|apply Hd].
  - rewrite !Hk by (apply Hother; set_solver). apply Hd.
  - rewrite !Hk by (apply Hother; set_solver). apply Hd.
Qed.

(** Finishing leaves the directory as it is, whatever it ends with. *)
Lemma stored_finish d upstream cap count r r' res F w entries s cs e bs rs :
  stored_as T r F w entries s cs e bs rs -> compact_finish d upstream cap count r = (r', res) ->
  stored_as T r' F w entries s cs e bs rs /\ rt_offset r' = rt_offset r /\ rt_physical r' = rt_physical r /\
  (rt_watermark r' = rt_watermark r \/ rt_watermark r' = cap_watermark cap) /\ (forall n, res = Ok n -> n = cap_watermark cap).
Proof.
  intros Hst Hrun. unfold compact_finish in Hrun.
  destruct (handle_checkpoint d (rt_binlog r)) as [m1 res1] eqn:E1. apply checkpoint_spec in E1 as [Hf1 Hh1].
  specialize (Hh1 ltac:(apply Hst)).
  assert (Hst1 : stored_as T (set_binlog m1 r) F w entries s cs e bs rs) by (by apply (stored_files r)).
  destruct res1 as [n|error].
  2: { injection Hrun as <- <-. unfold seal_failed. by destruct (is_indeterminate _); split_and!; eauto. }
  match type of Hrun with context [let '(_, _) := ?x in _] => destruct x as [m2 res2] eqn:E2 end.
  assert (Hst2 : stored_as T (set_binlog m2 (set_binlog m1 r)) F w entries s cs e bs rs).
  { destruct (upstream =? 0); [by injection E2 as <- <-|]. unfold write_replica_identity in E2.
    apply write_state_spec in E2 as (Hk & Hh & _).
    apply (stored_unnamed [replica_state_path; replica_state_temp_path] (set_binlog m1 r)).
    - intros name Hin. repeat (apply elem_of_cons in Hin as [->|Hin]; [reflexivity|]). by apply not_elem_of_nil in Hin.
    - intros name Hin Hin2. repeat (apply elem_of_cons in Hin as [->|Hin]; [revert Hin2; by_decision|]).
      by apply not_elem_of_nil in Hin.
    - intros name Hn. apply Hk; intros ->; apply Hn; [by left|by right; left].
    - cbn. rewrite Hh. exact Hh1.
    - done.
    - done. }
  destruct res2 as [u|error]; injection Hrun as <- <-; [|by split_and!; eauto].
  split_and!; [|done|done|by right|by intros n' [= <-]].
  by apply (stored_files (set_binlog m2 (set_binlog m1 r))); [|apply Hst2| |].
Qed.

Lemma durable_finish d upstream cap count r r' res B w :
  durable r B w -> cap_watermark cap <= w -> compact_finish d upstream cap count r = (r', res) ->
  durable r' B w /\ rt_offset r' = rt_offset r /\ rt_physical r' = rt_physical r.
Proof.
  intros (entries & s & cs & e & bs & rs & Hst & Hoff & Hag & Hw & Hlen) Hcap Hrun.
  destruct (stored_finish _ _ _ _ _ _ _ _ _ _ _ _ _ _ _ Hst Hrun) as (Hst' & Ho & Hp & Hmark & _).
  split_and!; [|done|done]. exists entries, s, cs, e, bs, rs. split_and!; try done; try congruence.
  destruct Hmark as [-> | ->]; done.
Qed.

(** ** Every step *)

Theorem step_preserves policy sys sys' :
  step T F0 policy sys sys' -> system_ok T o0 F0 sys -> system_ok T o0 F0 sys'.
Proof.
  intros Hstep. destruct Hstep as
    [d batches threshold r r' maintenance B rot snap Hok Hrun
    |d batches threshold r r' error B rot snap Hok Hsafe Hrun
    |clk r r' res B snap Hrun Hb|d r r' res B snap Hrun|clk r r' res B Hrun Hb
    |d clk seal r r' st st' error B Hrun
    |R d clk seal r r' st st' cap ops e' entries B Hrun Hshow Hclk Hwf Hact Hent Hfit Hinto
    |r r' res B rot cap entries Hrun|d upstream count r r' res B rot cap Hrun|clk r B snap Hb];
    intros (w & Hd & Hrot & Hsnap).
  - destruct (durable_commit _ _ _ _ _ _ _ _ _ Hok Hrun Hd) as (Hd' & Ho & Hp). exists w.
    split; [done|]. split; [by apply (rotation_ok_same r)|by apply (snapshot_ok_mono r)].
  - pose proof (durable_reject _ _ _ _ _ _ _ _ _ Hok Hsafe Hrun Hd) as H.
    destruct (is_indeterminate error); [exact H|]. destruct H as (Hd' & Ho & Hp). exists w.
    split; [done|]. split; [by apply (rotation_ok_same r)|by apply (snapshot_ok_same r)].
  - destruct (durable_rollover_prepare _ _ _ _ _ _ Hd Hrun Hb) as (Hd' & Ho & Hp). exists w.
    split; [done|]. split; [|by apply (snapshot_ok_same r)]. by destruct res as [[]|].
  - pose proof (durable_rollover_seal _ _ _ _ _ _ Hd Hrot Hrun) as H.
    destruct res as [n|error]; [|destruct (is_indeterminate error)].
    + destruct H as [Hd' Ho]. exists w. split; [done|]. split; [done|by apply (snapshot_ok_same r)].
    + exists []. split; [done|]. by rewrite app_nil_r.
    + destruct H as [Hd' Ho]. exists w. split; [done|]. split; [done|by apply (snapshot_ok_same r)].
  - destruct (durable_compact_prepare _ _ _ _ _ _ Hd Hrun Hb) as (Hd' & Ho & Hp). exists w.
    split; [done|]. split; [|done]. by destruct res as [[]|].
  - assert (Hroom : seal = true -> rt_physical r < MAX_BINLOG_SEGMENTS) by (by intros ->).
    pose proof (durable_capture_failed _ _ _ _ _ _ _ _ _ _ Hd Hroom Hrun) as H. destruct (is_indeterminate error).
    + exists []. split; [done|]. by rewrite app_nil_r.
    + exists w. by destruct H.
  - assert (Hroom : seal = true -> rt_physical r < MAX_BINLOG_SEGMENTS) by (by intros ->).
    destruct (durable_capture _ _ _ _ _ _ _ _ _ _ Hd Hroom Hrun) as (Hd' & Ho & Hcap & Hbegin).
    destruct (durable_offset _ _ _ Hd') as (Hoff & _ & Hw). exists w. split; [done|]. split; [done|].
    eapply captured_ok; try done. congruence.
  - destruct (durable_write _ _ _ _ _ _ _ Hd Hsnap Hrun) as (w' & Hd' & Ho & Hp & Hres). exists w'.
    split; [done|]. split; [by apply (rotation_ok_same r)|]. by destruct res.
  - destruct (durable_finish _ _ _ _ _ _ _ _ _ Hd Hsnap Hrun) as (Hd' & Ho & Hp). exists w.
    split; [done|]. split; [by apply (rotation_ok_same r)|done].
  - unfold compact_cleanup in *. destruct (refresh_segment_catalog clk r) as [r1 res] eqn:E.
    destruct (durable_refresh _ _ _ _ _ _ Hd E Hb) as [Hd' Ho]. exists w. split; [done|].
    split; [done|by apply (snapshot_ok_same r)].
Qed.

Theorem steps_preserve policy sys sys' :
  rtc (step T F0 policy) sys sys' -> system_ok T o0 F0 sys -> system_ok T o0 F0 sys'.
Proof. induction 1 as [|sys1 sys2 sys3 H _ IH]; [done|]. intros Hok. by eapply IH, step_preserves. Qed.

End Steps.

(** ** From start to stop *)

Section Lifetime.
Context {CRC : Crc32} {GZ : Gzip} {JN : JsonNumber} {SJ : SerdeJson} {HO : HashOrder}.
Context (T : Z).

Lemma opened_history fs s cs e bs rs :
  history_on fs s cs e bs rs [] ->
  history_on (open_binlog_file fs) s cs e bs rs [] /\ open_binlog_file fs !! binlog_path = Some (log rs) /\
  forall name, name <> binlog_path -> open_binlog_file fs !! name = fs !! name.
Proof.
  intros Hh. destruct (ho_file _ _ _ _ _ _ _ Hh) as [Hf|(Hf & -> & _)]; unfold open_binlog_file; rewrite Hf.
  - rewrite app_nil_r in Hf. done.
  - pose proof (ho_active _ _ _ _ _ _ _ Hh) as He. assert (rs = []) as -> by (by inversion He).
    split; [|split; [apply lookup_insert_eq|intros; by apply lookup_insert_ne]].
    assert (Hother : forall name, name <> binlog_path -> <[binlog_path:=[]]> fs !! name = fs !! name)
      by (intros; by apply lookup_insert_ne).
    constructor; try apply Hh.
    + left. apply lookup_insert_eq.
    + intros c Hin. destruct (decide (binlog_segment (c_end c) = binlog_path)) as [Heq|Hne];
        [|rewrite Hother by done; by apply Hh].
      destruct (chain_bounds _ _ _ c (ho_chain _ _ _ _ _ _ _ Hh) Hin) as (_ & _ & Hb).
      pose proof (segment_parses _ Hb) as Hp. rewrite Heq in Hp. discriminate Hp.
    + intros name Hs. destruct (decide (name = binlog_path)) as [->|Hne]; [by left|].
      rewrite Hother in Hs by done. by apply Hh.
Qed.

(** A server that starts on a recovered directory, whose log reaches the
    snapshot, satisfies the invariant. *)
Lemma started_ok fs w entries s cs e bs rs n state keys disk next :
  directory fs w entries s cs e bs rs [] -> rotation_clean fs -> (cs = [] /\ bs = [] \/ w < e + len bs) ->
  state = mkRecovery (Z.max w (e + len bs - 1)) w n (len (log rs)) (len cs) (len cs) ->
  system_ok T (last_sequence state) (recovered_effects w entries s cs bs)
    (Running (start_runtime fs state keys disk next) [] RotationFree SnapshotIdle).
Proof.
  intros Hd [Hr1 Hr2] Hreach ->. pose proof (dir_history _ _ _ _ _ _ _ _ _ Hd) as Hh.
  pose proof (dir_joined _ _ _ _ _ _ _ _ _ Hd) as Hj. pose proof (dir_watermark _ _ _ _ _ _ _ _ _ Hd) as Hw.
  pose proof (chain_length _ _ _ (ho_chain _ _ _ _ _ _ _ Hh)) as Hc.
  exists w. split; [|done].
  assert (Hgoal : forall s1 e1, history_on fs s1 cs e1 bs rs [] -> s1 <= w + 1 -> w < e1 + len bs ->
    Z.max w (e + len bs - 1) = e1 + len bs - 1 ->
    recovered_effects w entries s1 cs bs = recovered_effects w entries s cs bs ->
    durable T (last_sequence (mkRecovery (Z.max w (e + len bs - 1)) w n (len (log rs)) (len cs) (len cs)))
      (recovered_effects w entries s cs bs)
      (start_runtime fs (mkRecovery (Z.max w (e + len bs - 1)) w n (len (log rs)) (len cs) (len cs)) keys disk next)
      [] w).
  { intros s1 e1 Hh1 Hs1 Hlt Hmax Heff. destruct (opened_history _ _ _ _ _ _ Hh1) as (Ho & Hf & Hk).
    pose proof (chain_length _ _ _ (ho_chain _ _ _ _ _ _ _ Hh1)) as Hc1.
    exists entries, s1, cs, e1, bs, rs. unfold stored_as, start_runtime, rotation_clean.
    cbn [rt_binlog rt_offset rt_watermark rt_physical set_compaction_entry_floor restore_maintenance_state set_catalog
      set_watermark set_segments set_bytes set_write_count CommitRuntime_new m_files m_handle last_sequence
      snapshot_watermark physical_segment_count].
    change (len (@nil CommittedBatch)) with 0.
    split_and!; try done; try lia; try (by rewrite !Hk by done).
    - constructor; try done; [|by rewrite Hf]. rewrite !Hk by done. apply Hd.
    - intros k. by rewrite Heff, app_nil_r.
    - intros q Hq Hq'. unfold after. rewrite !drop_ge; [done|simpl; lia|]. rewrite length_app. unfold len in *. lia. }
  destruct (decide (w < e + len bs)) as [Hlt|Hge]; [apply (Hgoal s e); try done; lia|].
  destruct Hreach as [[-> ->]|?]; [|lia]. change (len (@nil CommittedBatch)) with 0 in *.
  apply (Hgoal (w + 1) (w + 1)); try done; try (change (len (@nil CommittedBatch)) with 0; lia).
  - pose proof (ho_active _ _ _ _ _ _ _ Hh) as He. assert (rs = []) as -> by (by inversion He).
    constructor; try apply Hh; [lia|constructor|constructor].
  - unfold recovered_effects. f_equal. unfold after. simpl. by rewrite !drop_nil.
Qed.

End Lifetime.
