(* ===== verification/SyncSpec.v ===== *)
(** * SyncSpec: with the policy [Always] nothing acknowledged is only in memory

    The part of the active file that a power cut cannot take back is the whole
    file, at every point between two steps. *)

From Stdlib Require Import ZArith Lia.
From Stdlib Require Import Strings.Byte.
From stdpp Require Import base gmap list strings numbers sorting.
From S2P Require Import Prelude Text Json JsonPath Value Shard ShardSpec Engine EngineSpec EngineMulti EngineTrace StoreSnapshot Store Persistence Model Codec CodecSpec BinlogFile BinlogIo AppendSpec Recovery ManagedBinlog SnapshotWriter ReplicaState Runtime Compaction HistorySpec ManagedSpec SealSpec EntryEq StoreSpec ModelSpec SnapshotSpec RecoverySpec InstallSpec CommitSpec MaintenanceSpec Durability.

Open Scope Z_scope.

Section Sync.
Context {CRC : Crc32} {GZ : Gzip} {JN : JsonNumber} {SJ : SerdeJson} {HO : HashOrder}.

Definition synced (m : ManagedBinlogFile) : Prop := m_disk m = active_contents m.

Lemma synced_active m m' :
  m_files m' !! binlog_path = m_files m !! binlog_path -> m_disk m' = m_disk m -> synced m -> synced m'.
Proof. unfold synced, active_contents. by intros -> ->. Qed.

Lemma synced_files m m' : m_files m' = m_files m -> m_disk m' = m_disk m -> synced m -> synced m'.
Proof. intros Hf. apply synced_active. by rewrite Hf. Qed.

(** ** Appending *)

Lemma append_synced fuel m records m' r :
  append_binlog_records fuel m records Always = Some (m', r) -> synced m ->
  match r with Ok _ => True | Err f => disposition f = Rejected end -> synced m'.
Proof.
  unfold append_binlog_records. intros Hrun Hs Hr. destruct records; [by injection Hrun as <- <-|].
  destruct (group_length _ _); [|by injection Hrun as <- <-].
  destruct (encode_group _ _) as [tail|]; [|by injection Hrun as <- <-].
  apply append_tail_spec in Hrun. unfold append_outcome in Hrun.
  change (@contents ManagedBinlogFile _ managed_spec) with active_contents in Hrun.
  change (@disk ManagedBinlogFile _ managed_spec) with m_disk in Hrun. unfold synced in *.
  destruct r as [u|f]; [by apply Hrun|]. rewrite Hr in Hrun. destruct Hrun as [Hc [Hd|Hd]]; congruence.
Qed.

Lemma accept_synced d batches threshold r r' res :
  accept_next_batches Always d batches threshold r = Some (r', res) -> synced (rt_binlog r) ->
  match res with Ok _ => True | Err error => is_indeterminate error = false end -> synced (rt_binlog r').
Proof.
  unfold accept_next_batches. intros Hrun Hs Hr. destruct batches as [|b0 batches]; [by injection Hrun as <- <-|].
  destruct (_ ← next_sequence r; _) as [[]|error]; [|by injection Hrun as <- <-].
  destruct (append_batches Always d (b0 :: batches) (rt_binlog r)) as [[m appended]|] eqn:Ea; [|discriminate Hrun].
  cbn [mbind option_bind] in Hrun.
  assert (Hm : match appended with Ok _ => True | Err error => is_indeterminate error = false end -> synced m).
  { clear Hrun Hr. unfold append_batches in Ea. destruct (encode_batches _) as [records|error]; [|by injection Ea as <- <-].
    unfold append_records in Ea. destruct (physical_bytes records 0); [|by injection Ea as <- <-].
    destruct d as [| |[]]; [|by injection Ea as <- <-| |by injection Ea as <- <-].
    - destruct (worker_append Always records (rt_binlog r)) as [[m1 ack]|] eqn:Ew; [|discriminate Ea].
      cbn [mbind option_bind] in Ea. injection Ea as <- <-. unfold worker_append in Ew. intros H.
      apply (append_synced _ _ _ _ _ Ew Hs). destruct ack as [|f]; [done|].
      unfold into_persistence_error in H. by destruct (disposition f).
    - destruct (worker_append Always records (rt_binlog r)) as [[m1 ack]|]; [|discriminate Ea].
      cbn in Ea. by injection Ea as <- <-. }
  destruct appended as [n|error]; [|injection Hrun as <- <-; by apply Hm].
  match type of Hrun with context [record_persisted_writes ?c ?t ?r0] =>
    pose proof (persisted_writes_same c t r0) as [Hb _];
    destruct (record_persisted_writes c t r0) as [r1 maintenance] end.
  injection Hrun as <- <-. cbn in Hb. rewrite Hb. by apply Hm.
Qed.

(** ** Sealing *)

Lemma reopen_disk m m' r : reopen_active m = (m', r) -> m_disk m' = m_disk m.
Proof.
  unfold reopen_active. destruct (sys m) as [m1 [u|e]] eqn:E; apply sys_spec in E as (_ & _ & Hd); [|by intros [= <- <-]].
  destruct (m_files m1 !! binlog_path); [|by intros [= <- <-]].
  destruct (sys m1) as [m2 [u2|e2]] eqn:E2; apply sys_spec in E2 as (_ & _ & Hd2); intros [= <- <-]; cbn; congruence.
Qed.

Lemma restore_disk m segment e m' r : restore_segment_after_failed_seal m segment e = (m', r) ->
  m_disk m' = m_disk m /\ exists e', r = Err e'.
Proof.
  unfold restore_segment_after_failed_seal. destruct (is_some _); [intros [= <- <-]; eauto|].
  destruct (sys_rename m segment binlog_path) as [m1 [u|e1]] eqn:E1; apply sys_rename_spec in E1 as (_ & _ & Hd1);
    [|intros [= <- <-]; eauto].
  destruct (sys m1) as [m2 [u2|e2]] eqn:E2; apply sys_spec in E2 as (_ & _ & Hd2);
    [|intros [= <- <-]; split; [congruence|eauto]].
  destruct (reopen_active m2) as [m3 r3] eqn:E3. apply reopen_disk in E3. intros [= <- <-]. split; [congruence|eauto].
Qed.

(** What sealing leaves on the disk: the flushed file, or the empty new one. *)
Lemma rename_disk m segment n m' r :
  rename_active m segment n = (m', r) ->
  match r with Ok _ => m_disk m' = [] | Err (RotationUnchanged _) => m_disk m' = m_disk m | _ => True end.
Proof.
  unfold rename_active. destruct (sys_rename (with_handle m None) binlog_path segment) as [m1 [u|e1]] eqn:E1;
    apply sys_rename_spec in E1 as (_ & _ & Hd1); cbn in Hd1.
  - destruct (sys m1) as [m2 [u2|e2]] eqn:E2; apply sys_spec in E2 as (_ & _ & Hd2).
    2: { intros H. apply restore_disk in H as [Hd [e' ->]]. destruct e'; [congruence|done]. }
    unfold install_successor. destruct (sys m2) as [m3 [u3|e3]] eqn:E3; apply sys_spec in E3 as (_ & _ & Hd3).
    2: { intros H. apply restore_disk in H as [Hd [e' ->]]. destruct e'; [congruence|done]. }
    destruct (is_some _); [intros H; apply restore_disk in H as [Hd [e' ->]]; destruct e'; [congruence|done]|].
    destruct (sys (with_disk _ _)) as [m4 [u4|e4]] eqn:E4; apply sys_spec in E4 as (_ & _ & Hd4); [|by intros [= <- <-]].
    destruct (sys m4) as [m5 [u5|e5]] eqn:E5; apply sys_spec in E5 as (_ & _ & Hd5); [|by intros [= <- <-]].
    destruct (sys m5) as [m6 [u6|e6]] eqn:E6; apply sys_spec in E6 as (_ & _ & Hd6); [|by intros [= <- <-]].
    intros [= <- <-]. cbn in *. congruence.
  - destruct (reopen_active m1) as [m2 [u2|e2]] eqn:E2; apply reopen_disk in E2; intros [= <- <-]; [congruence|done].
Qed.

Lemma seal_disk m n m' r :
  m_seal_active m n = (m', r) -> synced m ->
  match r with
  | Ok _ => m_disk m' = []
  | Err (RotationUnchanged _) => m_disk m' = active_contents m
  | _ => True
  end.
Proof.
  unfold m_seal_active, synced. destruct (m_handle m) as [p|] eqn:Eh; [|by intros [= <- <-]]. intros Hrun Hs.
  destruct (sys m) as [m1 [u|e1]] eqn:E1; apply sys_spec in E1 as (Hf1 & Hh1 & Hd1);
    [|injection Hrun as <- <-; congruence].
  destruct (len (active_contents m1) =? 0) eqn:El.
  { injection Hrun as <- <-. cbn. rewrite Hd1, Hs, <- (active_files m m1 Hf1). apply Z.eqb_eq in El.
    unfold len in El. apply length_zero_iff_nil. lia. }
  destruct (n =? 0); [injection Hrun as <- <-; congruence|].
  destruct (is_some _); [injection Hrun as <- <-; congruence|].
  pose proof (m_flush_law m1) as L2. destruct (m_flush m1) as [m2 [u2|e2]]; [|by injection Hrun as <- <-].
  destruct L2 as [Hc2 Hd2].
  pose proof (m_sync_law m2) as L3. destruct (m_sync m2) as [m3 [u3|e3]]; [|by injection Hrun as <- <-].
  destruct L3 as [Hc3 Hd3]. apply rename_disk in Hrun. rewrite <- (active_files m m1 Hf1).
  destruct r as [k|[]]; [done|congruence|done].
Qed.

Lemma handle_seal_synced T o0 F0 d r m' res B w :
  durable T o0 F0 r B w -> rt_physical r < MAX_BINLOG_SEGMENTS -> synced (rt_binlog r) ->
  handle_seal_active d (rt_offset r) (rt_binlog r) = (m', res) ->
  match res with Ok _ => True | Err error => is_indeterminate error = false end -> synced m'.
Proof.
  intros (entries & s & cs & e & bs & rs & Hst & _ & _ & _ & Hlen) Hroom Hs Hrun.
  unfold handle_seal_active, ask in Hrun. destruct d as [| |c]; [|by injection Hrun as <- <-|by injection Hrun as <- <-].
  unfold worker_seal_active in Hrun. destruct (m_seal_active (rt_binlog r) (rt_offset r)) as [m1 r1] eqn:E.
  pose proof (seal_disk _ _ _ _ E Hs) as Hd.
  pose proof (seal_spec T r _ w entries s cs e bs rs Hst ltac:(lia) _ _ E) as H.
  destruct r1 as [n|[e1|e1]]; injection Hrun as <- <-; [| |done]; intros _; unfold synced; rewrite Hd.
  - destruct H as [(cs' & e' & bs' & rs' & (_ & Hf & _) & _ & Hnil & _) _]. destruct (Hnil eq_refl) as [-> ->].
    unfold active_contents. cbn [rt_binlog set_binlog] in Hf. by rewrite Hf.
  - by rewrite (unchanged_active T r _ _ _ _ _ _ _ _ Hst _ _ E).
Qed.

(** ** Maintenance *)

Lemma cleanup_segments_disk clk v l acc m m' r :
  (forall n name, (n, name) ∈ l -> name <> binlog_path) ->
  cleanup_segments clk v l acc m = (m', r) -> synced m -> synced m'.
Proof.
  revert acc m. induction l as [|[n name] l IH]; intros acc m Hn H Hs; cbn [cleanup_segments] in H;
    [by injection H as <- <-|].
  assert (Hn' : forall n name, (n, name) ∈ l -> name <> binlog_path) by (intros; eapply Hn; by right).
  destruct (v <? n); [by eapply IH|]. destruct (inspect_binlog clk _) as [[insp|err]|]; try (by injection H as <- <-).
  destruct (_ || _); [by injection H as <- <-|]. unfold sys_remove in H.
  destruct (sys m) as [m1 [u|err]] eqn:E; apply sys_spec in E as (Hf & _ & Hd).
  - apply IH in H; [done|done|]. apply (synced_active m); [|done|done]. cbn.
    rewrite lookup_delete_ne by (eapply Hn; by left). by rewrite Hf.
  - apply IH in H; [done|done|]. by apply (synced_files m).
Qed.

Lemma refresh_synced clk r r' res :
  refresh_segment_catalog clk r = (r', res) -> synced (rt_binlog r) -> synced (rt_binlog r').
Proof.
  unfold refresh_segment_catalog. intros Hrun Hs.
  enough (Hm : forall m' cl, cleanup_binlog_segments_through clk (rt_watermark r) (rt_binlog r) = (m', cl) -> synced m').
  { destruct (cleanup_binlog_segments_through clk (rt_watermark r) (rt_binlog r)) as [m' [cl|err]];
      injection Hrun as <- <-; cbn; by eapply Hm. }
  clear Hrun. intros m' cl. unfold cleanup_binlog_segments_through.
  destruct (list_binlog_segments (rt_binlog r)) as [m1 [l|e1]] eqn:E1;
    apply list_segments_spec' in E1 as (Hf1 & _ & Hd1 & Hl); [|intros [= <- <-]; by apply (synced_files (rt_binlog r))].
  destruct (cleanup_segments clk _ l _ m1) as [m2 r2] eqn:E2.
  assert (H2 : synced m2).
  { eapply cleanup_segments_disk; [|exact E2|by apply (synced_files (rt_binlog r))].
    intros n name Hin ->. by specialize (Hl n _ Hin). }
  destruct r2 as [c2|e2]; [|by intros [= <- <-]].
  destruct (sys m2) as [m3 [u3|e3]] eqn:E3; apply sys_spec in E3 as (Hf3 & _ & Hd3);
    [|intros [= <- <-]; by apply (synced_files m2)].
  destruct (list_binlog_segments m3) as [m4 [l4|e4]] eqn:E4; apply list_segments_spec' in E4 as (Hf4 & _ & Hd4 & _);
    intros [= <- <-]; apply (synced_files m2); congruence.
Qed.

Lemma preflush_synced m m' res : preflush_active_generation m = (m', res) -> synced m -> synced m'.
Proof.
  unfold preflush_active_generation. intros Hrun Hs.
  destruct (sys m) as [m1 [u|e1]] eqn:E1; apply sys_spec in E1 as (Hf1 & _ & Hd1);
    [|injection Hrun as <- <-; by apply (synced_files m)].
  destruct (m_files m1 !! binlog_path) as [b|] eqn:Eb; [|injection Hrun as <- <-; by apply (synced_files m)].
  destruct (sys m1) as [m2 [u2|e2]] eqn:E2; apply sys_spec in E2 as (Hf2 & _ & Hd2);
    [|injection Hrun as <- <-; apply (synced_files m); congruence].
  destruct (0 <? len b); [|injection Hrun as <- <-; apply (synced_files m); congruence].
  destruct (sys m2) as [m3 [u3|e3]] eqn:E3; apply sys_spec in E3 as (Hf3 & _ & Hd3); injection Hrun as <- <-;
    [|apply (synced_files m); congruence].
  unfold synced, active_contents. cbn [m_disk with_disk m_files]. by rewrite Hf3, Hf2, Eb.
Qed.

Lemma checkpoint_disk d m m' res : handle_checkpoint d m = (m', res) -> m_disk m' = m_disk m.
Proof.
  assert (Hw : forall m, m_disk (worker_checkpoint m).1 = m_disk m).
  { clear. intros m. unfold worker_checkpoint, m_flush, m_seek_end, m_seek, on_handle. destruct (m_handle m) eqn:Eh; [|done].
    destruct (sys m) as [m1 [u|e1]] eqn:E1; apply sys_spec in E1 as (Hf1 & Hh1 & Hd1); [|done].
    rewrite Hh1, Eh. destruct (sys m1) as [m2 [u2|e2]] eqn:E2; apply sys_spec in E2 as (_ & _ & Hd2); cbn; congruence. }
  unfold handle_checkpoint, ask. destruct d as [| |[]]; [|by intros [= <- <-]|intros [= <- <-]; apply Hw|by intros [= <- <-]].
  specialize (Hw m). destruct (worker_checkpoint m) as [m1 [n|f]]; by intros [= <- <-].
Qed.

Lemma failed_synced error r : rt_binlog (seal_failed error r) = rt_binlog r.
Proof. unfold seal_failed. by destruct (is_indeterminate error). Qed.

Lemma finish_synced d upstream cap count r r' res :
  compact_finish d upstream cap count r = (r', res) -> synced (rt_binlog r) -> synced (rt_binlog r').
Proof.
  unfold compact_finish. intros Hrun Hs. destruct (handle_checkpoint d (rt_binlog r)) as [m1 res1] eqn:E1.
  apply checkpoint_disk in E1 as Hd1. apply checkpoint_spec in E1 as [Hf1 _].
  assert (H1 : synced m1) by (by apply (synced_files (rt_binlog r))).
  destruct res1 as [n|error]; [|injection Hrun as <- <-; by rewrite failed_synced].
  match type of Hrun with context [let '(_, _) := ?x in _] => destruct x as [m2 res2] eqn:E2 end.
  assert (H2 : synced m2).
  { destruct (upstream =? 0); [by injection E2 as <- <-|]. unfold write_replica_identity in E2.
    apply write_state_spec in E2 as (Hk & _ & Hd2 & _). apply (synced_active m1); [by apply Hk|done|done]. }
  destruct res2; by injection Hrun as <- <-.
Qed.

(** ** Every step *)

Definition synced_system (sys : system) : Prop :=
  match sys with Running r _ _ _ => synced (rt_binlog r) | Stopped _ _ _ => True end.

Lemma rollover_prepare_synced clk r r' res :
  rollover_prepare clk r = Some (r', res) -> synced (rt_binlog r) -> synced (rt_binlog r').
Proof.
  unfold rollover_prepare. intros Hrun Hs. destruct (rt_active_bytes r =? 0); [by injection Hrun as <- <-|].
  destruct (refresh_segment_catalog clk r) as [r1 [cl|err]] eqn:Er; pose proof (refresh_synced _ _ _ _ Er Hs) as H1;
    [|by injection Hrun as <- <-]. destruct (_ <=? _); [by injection Hrun as <- <-|].
  destruct (activate_compaction_write_budget r1) as [r2|] eqn:Ea; [|discriminate Hrun]. cbn [mbind option_bind] in Hrun.
  apply activate_spec in Ea as [l ->].
  destruct (preflush_active_generation (rt_binlog (set_budget l r1))) as [m [n|err]] eqn:Ep;
    injection Hrun as <- <-; cbn; by eapply preflush_synced.
Qed.

Lemma compact_prepare_synced clk r r' res :
  compact_prepare clk r = Some (r', res) -> synced (rt_binlog r) -> synced (rt_binlog r').
Proof.
  unfold compact_prepare. intros Hrun Hs.
  destruct (refresh_segment_catalog clk r) as [r1 [cl|err]] eqn:Er; pose proof (refresh_synced _ _ _ _ Er Hs) as H1;
    [|by injection Hrun as <- <-]. destruct (_ <? _); [|by injection Hrun as <- <-].
  destruct (activate_compaction_write_budget r1) as [r2|] eqn:Ea; [|discriminate Hrun]. cbn [mbind option_bind] in Hrun.
  apply activate_spec in Ea as [l ->].
  destruct (preflush_active_generation (rt_binlog (set_budget l r1))) as [m [n|err]] eqn:Ep;
    injection Hrun as <- <-; cbn; by eapply preflush_synced.
Qed.

Lemma sealed_binlog n r r' : record_sealed_segment n r = Some r' -> rt_binlog r' = rt_binlog r.
Proof. unfold record_sealed_segment. destruct (n =? 0); [by intros [= <-]|]. destruct (_ <? _); [|done]. by intros [= <-]. Qed.

Lemma step_synced T o0 F0 sys sys' :
  step T F0 Always sys sys' -> system_ok T o0 F0 sys -> synced_system sys -> synced_system sys'.
Proof.
  intros Hstep. destruct Hstep as
    [d batches threshold r r' maintenance B rot snap Hok Hrun
    |d batches threshold r r' error B rot snap Hok Hsafe Hrun
    |clk r r' res B snap Hrun Hb|d r r' res B snap Hrun|clk r r' res B Hrun Hb
    |d clk seal r r' st st' error B Hrun
    |R d clk seal r r' st st' cap ops e' entries B Hrun Hshow Hclk Hwf Hact Hent Hfit Hinto
    |r r' res B rot cap entries Hrun|d upstream count r r' res B rot cap Hrun|clk r B snap Hb];
    intros (w & Hd & Hrot & Hsnap) Hs; cbn [synced_system] in Hs |- *.
  - by eapply accept_synced.
  - destruct (is_indeterminate error) eqn:Ei; [done|]. by eapply accept_synced.
  - by eapply rollover_prepare_synced.
  - unfold rollover_seal in Hrun. destruct (handle_seal_active d (rt_offset r) (rt_binlog r)) as [m' [n|error]] eqn:E;
      pose proof (handle_seal_synced _ _ _ _ _ _ _ _ _ Hd Hrot Hs E) as H.
    + destruct (record_sealed_segment n _) as [r1|] eqn:Er; [|discriminate Hrun]. cbn [mbind option_bind] in Hrun.
      injection Hrun as <- <-. cbn. apply sealed_binlog in Er. cbn in Er. rewrite Er. by apply H.
    + injection Hrun as <- <-. rewrite context_indeterminate. destruct (is_indeterminate error) eqn:Ei; [done|].
      cbn. rewrite failed_synced. by apply H.
  - by eapply compact_prepare_synced.
  - destruct (is_indeterminate error) eqn:Ei; [done|]. unfold compact_capture in Hrun. destruct seal.
    + destruct (handle_seal_active d (rt_offset r) (rt_binlog r)) as [m' [n|error1]] eqn:E;
        pose proof (handle_seal_synced _ _ _ _ _ _ _ _ _ Hd Hrot Hs E) as H.
      { destruct (record_sealed_segment _ _) as [r1|]; [|discriminate Hrun].
        destruct (engine_begin_snapshot clk (engine st)) as [[e1 v]|]; discriminate Hrun. }
      injection Hrun as <- <- <-. rewrite context_indeterminate in Ei. cbn. rewrite failed_synced. by apply H.
    + cbn [mbind option_bind] in Hrun.
      destruct (engine_begin_snapshot clk (engine st)) as [[e1 v]|]; discriminate Hrun.
  - unfold compact_capture in Hrun. destruct seal.
    + destruct (handle_seal_active d (rt_offset r) (rt_binlog r)) as [m' [n|error1]] eqn:E; [|discriminate Hrun].
      pose proof (handle_seal_synced _ _ _ _ _ _ _ _ _ Hd Hrot Hs E I) as H.
      destruct (record_sealed_segment _ _) as [r1|] eqn:Er; [|discriminate Hrun]. cbn [mbind option_bind] in Hrun.
      destruct (engine_begin_snapshot clk (engine st)) as [[e1 v]|]; [|discriminate Hrun].
      cbn [mbind option_bind] in Hrun. injection Hrun as <- <- <-. cbn. apply sealed_binlog in Er. cbn in Er. by rewrite Er.
    + cbn [mbind option_bind] in Hrun.
      destruct (engine_begin_snapshot clk (engine st)) as [[e1 v]|]; [|discriminate Hrun].
      cbn [mbind option_bind] in Hrun. by injection Hrun as <- <- <-.
  - unfold compact_write in Hrun.
    destruct (write_snapshot_file entries (cap_watermark cap) (rt_binlog r)) as [m' written] eqn:E.
    injection Hrun as <- <-. apply write_snapshot_spec in E as (Hk & _ & Hdisk & _). cbn.
    apply (synced_active (rt_binlog r)); [apply Hk; by_decision|done|done].
  - by eapply finish_synced.
  - unfold compact_cleanup. destruct (refresh_segment_catalog clk r) as [r1 res] eqn:E. by eapply refresh_synced.
Qed.

Lemma steps_synced T o0 F0 sys sys' :
  rtc (step T F0 Always) sys sys' -> system_ok T o0 F0 sys -> synced_system sys -> synced_system sys'.
Proof.
  induction 1 as [|sys1 sys2 sys3 H _ IH]; [done|]. intros Hok Hs.
  apply IH; [by eapply step_preserves|by eapply step_synced].
Qed.

End Sync.
