(* ===== verification/RuntimeSpec.v ===== *)
(** * RuntimeSpec: the counters and the flags of the runtime stay in their types *)

From Stdlib Require Import ZArith Lia.
From Stdlib Require Import Strings.Byte.
From stdpp Require Import base gmap list strings numbers sorting.
From S2P Require Import Prelude Text Json JsonPath Value Shard ShardSpec Engine EngineSpec EngineMulti EngineTrace StoreSnapshot Store Persistence Model Codec CodecSpec BinlogFile BinlogIo AppendSpec Recovery ManagedBinlog SnapshotWriter ReplicaState Runtime Compaction HistorySpec ManagedSpec SealSpec EntryEq StoreSpec ModelSpec SnapshotSpec RecoverySpec InstallSpec CommitSpec MaintenanceSpec Durability.

Open Scope Z_scope.

Definition u64 (n : Z) : Prop := 0 <= n <= U64_MAX.

(** The counters fit their atomics, the snapshot is not ahead of the log, and a
    runtime that began to fail-stop refuses writes and knows why. *)
Record runtime_typed (r : CommitRuntime) : Prop := {
  ty_writes : u64 (rt_write_count r);
  ty_accepted : u64 (rt_accepted_bytes r);
  ty_active : u64 (rt_active_bytes r);
  ty_budget : u64 (rt_budget_limit r);
  ty_segments : 0 <= rt_unsnapshotted r /\ 0 <= rt_physical r;
  ty_offset : 0 <= rt_watermark r <= rt_offset r /\ rt_offset r <= U64_MAX;
  ty_stopped : rt_fail_stop_started r = true ->
    rt_accepting_writes r = false /\ is_Some (rt_failure r) /\ is_Some (rt_fail_stop_reason r)
}.

Lemma sat_add_u64 a b : u64 a -> 0 <= b -> u64 (sat_add a b).
Proof. unfold u64, sat_add. change USIZE_MAX with U64_MAX. lia. Qed.

Lemma sat_sub_u64 a b : u64 a -> 0 <= b -> u64 (sat_sub a b).
Proof. unfold u64, sat_sub. lia. Qed.

(** Typed but for the counters of a commit. *)
Lemma typed_maintenance threshold r :
  runtime_typed r -> runtime_typed (request_maintenance_if_needed threshold r).1.
Proof.
  intros [H1 H2 H3 H4 H5 H6 H7]. unfold request_maintenance_if_needed, request_snapshot_if_needed.
  destruct (_ && _); unfold request_rollover_if_needed; destruct (_ && _); by constructor.
Qed.

Section Typed.
Context {CRC : Crc32} {GZ : Gzip} {JN : JsonNumber} {SJ : SerdeJson} {HO : HashOrder}.

Lemma framed_length_nonneg n l : 0 <= n -> framed_versioned_binlog_record_length n = Ok l -> 0 <= l.
Proof.
  intros Hn. unfold framed_versioned_binlog_record_length.
  destruct (versioned_binlog_record_length 1 n) as [k|e] eqn:E; [|done]. cbn [mbind result_bind].
  apply record_length_spec in E as (_ & -> & _); [|done]. unfold ok_or.
  destruct (checked_add _ _) as [x|] eqn:Ea; [|done]. intros [= <-]. apply checked_add_Some in Ea as [-> _].
  unfold BINLOG_RECORD_LENGTH_SIZE. lia.
Qed.

Lemma physical_bytes_nonneg records total n : 0 <= total -> physical_bytes records total = Ok n -> 0 <= n.
Proof.
  revert total. induction records as [|[s b] records IH]; intros total Ht H; cbn [physical_bytes] in H.
  { by injection H as <-. }
  destruct (framed_versioned_binlog_record_length (len b)) as [l|] eqn:El; [|discriminate H].
  cbn [mbind result_bind] in H. apply framed_length_nonneg in El; [|apply len_nonneg].
  unfold ok_or in H. destruct (checked_add total l) as [t|] eqn:Ea; [|discriminate H]. cbn [mbind result_bind] in H.
  apply checked_add_Some in Ea as [-> _]. eapply IH; [|exact H]. lia.
Qed.

Lemma append_bytes_nonneg policy d batches m m' n :
  append_batches policy d batches m = Some (m', Ok n) -> 0 <= n.
Proof.
  unfold append_batches. destruct batches as [|b0 batches]; [done|].
  destruct (encode_batches _) as [records|]; [|done]. unfold append_records.
  destruct (physical_bytes records 0) as [k|] eqn:Ek; [|done]. apply physical_bytes_nonneg in Ek; [|lia].
  destruct d as [| |[]]; [|done| |done].
  - destruct (worker_append policy records m) as [[m1 [u|f]]|]; [|done|done]. by intros [= _ <-].
  - by destruct (worker_append policy records m) as [[m1 r1]|].
Qed.

Lemma accept_typed policy d batches threshold r r' res :
  runtime_typed r -> accept_next_batches policy d batches threshold r = Some (r', res) -> runtime_typed r'.
Proof.
  intros Ht Hrun. unfold accept_next_batches in Hrun. destruct batches as [|b0 batches0]; [by injection Hrun as <- <-|].
  set (batches := b0 :: batches0) in *. assert (Hne : batches <> []) by done.
  destruct (next_sequence r) as [n|error] eqn:En; [|by injection Hrun as <- <-]. cbn [mbind result_bind] in Hrun.
  destruct (check_sequences (Some n) batches) as [[]|error] eqn:Ec; [|by injection Hrun as <- <-].
  destruct (append_batches policy d batches (rt_binlog r)) as [[m [k|error]]|] eqn:Ea; [| |discriminate Hrun].
  2: { injection Hrun as <- <-. by destruct Ht. }
  cbn [mbind option_bind] in Hrun. apply append_bytes_nonneg in Ea. clearbody batches.
  apply next_sequence_spec in En as [-> Hmax]. pose proof Ht as [H1 H2 H3 H4 H5 H6 H7].
  assert (Hlast : rt_offset r <= match list.last batches with Some (s, _) => s | None => 0 end <= U64_MAX).
  { rewrite (last_numbered batches (rt_offset r + 1)) by (done || lia).
    destruct (list.last batches) as [[s b]|] eqn:El; [|by apply last_None in El]. rewrite last_lookup in El.
    destruct (check_sequences_spec batches (rt_offset r + 1) ltac:(lia) Ec _ _ _ El) as [-> Hle].
    unfold len. destruct batches; [done|]. simpl in *. lia. }
  revert Hrun. set (r1 := set_offset _ _). intros Hrun. unfold record_persisted_writes in Hrun.
  match type of Hrun with context [request_maintenance_if_needed ?t ?x] =>
    pose proof (typed_maintenance t x) as Hm; destruct (request_maintenance_if_needed t x) as [r2 mr] end.
  injection Hrun as <- <-. apply Hm. constructor; cbn; try done.
  - apply wrap64_range.
  - by apply sat_add_u64.
  - by apply sat_add_u64.
  - lia.
Qed.

(** ** Maintenance *)

Lemma typed_binlog m r : runtime_typed r -> runtime_typed (set_binlog m r).
Proof. intros [H1 H2 H3 H4 H5 H6 H7]. by constructor. Qed.

Lemma typed_budget l r : u64 l -> runtime_typed r -> runtime_typed (set_budget l r).
Proof. intros Hl [H1 H2 H3 H4 H5 H6 H7]. by constructor. Qed.

Lemma typed_failed error r : runtime_typed r -> runtime_typed (seal_failed error r).
Proof.
  intros [H1 H2 H3 H4 H5 H6 H7]. unfold seal_failed. destruct (is_indeterminate error); [|by constructor].
  constructor; try done. intros _. cbn. unfold or_else.
  split; [done|]. destruct (rt_failure r), (rt_fail_stop_reason r); eauto.
Qed.

Lemma budget_open_u64 : u64 WRITE_BUDGET_OPEN.
Proof. unfold u64, WRITE_BUDGET_OPEN, U64_MAX. lia. Qed.

Lemma refresh_typed clk r r' res :
  runtime_typed r -> refresh_segment_catalog clk r = (r', res) -> runtime_typed r'.
Proof.
  intros [H1 H2 H3 H4 H5 H6 H7] Hrun. unfold refresh_segment_catalog in Hrun.
  destruct (cleanup_binlog_segments_through clk (rt_watermark r) (rt_binlog r)) as [m [cl|e]] eqn:E;
    injection Hrun as <- <-; [|by constructor].
  assert (Hrem : 0 <= remaining_files cl).
  { unfold cleanup_binlog_segments_through in E.
    destruct (list_binlog_segments (rt_binlog r)) as [m1 [l|]]; [|done].
    destruct (cleanup_segments _ _ _ _ _) as [m2 [c2|]]; [|done].
    destruct (sys m2) as [m3 [u|]]; [|done]. destruct (list_binlog_segments m3) as [m4 [l4|]]; [|done].
    injection E as _ <-. apply len_nonneg. }
  constructor; try done. cbn. by destruct H5.
Qed.

Lemma activate_typed r r' : runtime_typed r -> activate_compaction_write_budget r = Some r' -> runtime_typed r'.
Proof.
  intros Ht. unfold activate_compaction_write_budget. destruct (_ =? _); [|done]. intros [= <-].
  apply typed_budget; [|done]. destruct (checked_add _ _) as [l|] eqn:E.
  - apply checked_add_Some in E as [-> Hle]. pose proof (ty_accepted r Ht) as [Ha _]. split; [|done].
    unfold COMPACTION_PREFLUSH_WRITE_BUDGET_BYTES. lia.
  - unfold u64, WRITE_BUDGET_OPEN, U64_MAX. lia.
Qed.

Lemma rollover_prepare_typed clk r r' res :
  runtime_typed r -> rollover_prepare clk r = Some (r', res) -> runtime_typed r'.
Proof.
  intros Ht Hrun. unfold rollover_prepare in Hrun. destruct (rt_active_bytes r =? 0); [by injection Hrun as <- <-|].
  destruct (refresh_segment_catalog clk r) as [r1 [cl|err]] eqn:Er; apply refresh_typed in Er; try done;
    [|by injection Hrun as <- <-].
  destruct (_ <=? _); [by injection Hrun as <- <-|].
  destruct (activate_compaction_write_budget r1) as [r2|] eqn:Ea; [|discriminate Hrun].
  apply activate_typed in Ea; [|done]. cbn [mbind option_bind] in Hrun.
  destruct (preflush_active_generation (rt_binlog r2)) as [m [n|err]]; injection Hrun as <- <-;
    [by apply typed_binlog|apply typed_budget; [apply budget_open_u64|by apply typed_binlog]].
Qed.

Lemma compact_prepare_typed clk r r' res :
  runtime_typed r -> compact_prepare clk r = Some (r', res) -> runtime_typed r'.
Proof.
  intros Ht Hrun. unfold compact_prepare in Hrun.
  destruct (refresh_segment_catalog clk r) as [r1 [cl|err]] eqn:Er; apply refresh_typed in Er; try done;
    [|by injection Hrun as <- <-].
  destruct (_ <? _); [|by injection Hrun as <- <-].
  destruct (activate_compaction_write_budget r1) as [r2|] eqn:Ea; [|discriminate Hrun].
  apply activate_typed in Ea; [|done]. cbn [mbind option_bind] in Hrun.
  destruct (preflush_active_generation (rt_binlog r2)) as [m [n|err]]; injection Hrun as <- <-;
    [by apply typed_binlog|apply typed_budget; [apply budget_open_u64|by apply typed_binlog]].
Qed.

Lemma sealed_typed n m r r' :
  runtime_typed r -> record_sealed_segment n (set_bytes (rt_accepted_bytes (set_binlog m r)) 0 (set_binlog m r)) = Some r' ->
  runtime_typed r'.
Proof.
  intros [H1 H2 H3 H4 H5 H6 H7] H. unfold record_sealed_segment in H.
  assert (H0 : u64 0) by (unfold u64, U64_MAX; lia).
  destruct (n =? 0); [|destruct (_ <? _); [|done]]; injection H as <-; constructor; try done; cbn; lia.
Qed.

Lemma rollover_seal_typed d r r' res :
  runtime_typed r -> rollover_seal d r = Some (r', res) -> runtime_typed r'.
Proof.
  intros Ht Hrun. unfold rollover_seal in Hrun.
  destruct (handle_seal_active d (rt_offset r) (rt_binlog r)) as [m [n|error]].
  - destruct (record_sealed_segment n _) as [r1|] eqn:Er; [|discriminate Hrun]. apply sealed_typed in Er; [|done].
    injection Hrun as <- <-. apply typed_budget; [apply budget_open_u64|done].
  - injection Hrun as <- <-. apply typed_budget; [apply budget_open_u64|]. by apply typed_failed, typed_binlog.
Qed.

Lemma capture_typed d clk seal r r' st st' res :
  runtime_typed r -> compact_capture d clk seal r st = Some (r', st', res) -> runtime_typed r'.
Proof.
  intros Ht Hrun. unfold compact_capture in Hrun. destruct seal.
  - destruct (handle_seal_active d (rt_offset r) (rt_binlog r)) as [m [n|error]].
    + destruct (record_sealed_segment n _) as [r1|] eqn:Er; [|discriminate Hrun]. apply sealed_typed in Er; [|done].
      cbn [mbind option_bind] in Hrun. destruct (engine_begin_snapshot clk (engine st)) as [[e1 v]|]; [|discriminate Hrun].
      injection Hrun as <- _ _. apply typed_budget; [apply budget_open_u64|done].
    + injection Hrun as <- _ _. apply typed_budget; [apply budget_open_u64|]. by apply typed_failed, typed_binlog.
  - cbn [mbind option_bind] in Hrun. destruct (engine_begin_snapshot clk (engine st)) as [[e1 v]|]; [|discriminate Hrun].
    injection Hrun as <- _ _. by apply typed_binlog.
Qed.

(** What a compaction remembers. *)
Definition capture_ok (cap : capture) : Prop := 0 <= cap_watermark cap /\ 0 <= cap_writes cap /\ 0 <= cap_segments cap.

Lemma captured_typed d clk seal r r' st st' cap :
  runtime_typed r -> compact_capture d clk seal r st = Some (r', st', Ok cap) -> capture_ok cap.
Proof.
  intros Ht Hrun. pose proof (capture_typed _ _ _ _ _ _ _ _ Ht Hrun) as Ht'. unfold compact_capture in Hrun.
  pose proof (ty_offset _ Ht). destruct seal.
  - destruct (handle_seal_active d (rt_offset r) (rt_binlog r)) as [m [n|error]]; [|discriminate Hrun].
    destruct (record_sealed_segment n _) as [r1|] eqn:Er; [|discriminate Hrun]. cbn [mbind option_bind] in Hrun.
    destruct (engine_begin_snapshot clk (engine st)) as [[e1 v]|]; [|discriminate Hrun].
    injection Hrun as <- _ <-. destruct Ht' as [[H1 _] _ _ _ [H5 _] _ _]. cbn in *. unfold capture_ok. cbn. lia.
  - cbn [mbind option_bind] in Hrun. destruct (engine_begin_snapshot clk (engine st)) as [[e1 v]|]; [|discriminate Hrun].
    injection Hrun as <- _ <-. destruct Ht' as [[H1 _] _ _ _ [H5 _] _ _]. cbn in *. unfold capture_ok. cbn. lia.
Qed.

Lemma finish_typed d upstream cap count r r' res :
  runtime_typed r -> capture_ok cap -> cap_watermark cap <= rt_offset r ->
  compact_finish d upstream cap count r = (r', res) -> runtime_typed r'.
Proof.
  intros Ht (Hc1 & Hc2 & Hc3) Hcap Hrun. unfold compact_finish in Hrun.
  destruct (handle_checkpoint d (rt_binlog r)) as [m1 [n|error]].
  2: { injection Hrun as <- <-. by apply typed_failed, typed_binlog. }
  match type of Hrun with context [let '(_, _) := ?x in _] => destruct x as [m2 [u|error]] end; injection Hrun as <- <-.
  - destruct Ht as [H1 H2 H3 H4 H5 H6 H7]. constructor; try done; cbn.
    + by apply sat_sub_u64.
    + unfold sat_sub. lia.
    + lia.
  - by apply typed_binlog, typed_binlog.
Qed.

(** ** Every step *)

Definition typed_system (sys : system) : Prop :=
  match sys with
  | Running r _ _ snap =>
    runtime_typed r /\ match snap with SnapshotIdle => True | Captured cap _ | Written cap => capture_ok cap end
  | Stopped _ _ _ => True
  end.

Lemma step_typed T o0 F0 policy sys sys' :
  step T F0 policy sys sys' -> system_ok T o0 F0 sys -> typed_system sys -> typed_system sys'.
Proof.
  intros Hstep. destruct Hstep as
    [d batches threshold r r' maintenance B rot snap Hok Hrun
    |d batches threshold r r' error B rot snap Hok Hsafe Hrun
    |clk r r' res B snap Hrun Hb|d r r' res B snap Hrun|clk r r' res B Hrun Hb
    |d clk seal r r' st st' error B Hrun
    |R d clk seal r r' st st' cap ops e' entries B Hrun Hshow Hclk Hwf Hact Hent Hfit Hinto
    |r r' res B rot cap entries Hrun|d upstream count r r' res B rot cap Hrun|clk r B snap Hb];
    intros (w & Hd & Hrot & Hsnap) [Ht Hc].
  - split; [by eapply accept_typed|done].
  - destruct (is_indeterminate error); [done|]. split; [by eapply accept_typed|done].
  - split; [by eapply rollover_prepare_typed|done].
  - apply rollover_seal_typed in Hrun; [|done]. destruct res as [n|error]; [done|]. by destruct (is_indeterminate error).
  - split; [by eapply compact_prepare_typed|done].
  - apply capture_typed in Hrun; [|done]. by destruct (is_indeterminate error).
  - split; [by eapply capture_typed|by eapply captured_typed].
  - unfold compact_write in Hrun. destruct (write_snapshot_file entries (cap_watermark cap) (rt_binlog r)) as [m res1].
    injection Hrun as <- <-. split; [by apply typed_binlog|]. by destruct res1.
  - split; [|done]. destruct (durable_offset _ _ _ _ _ _ Hd) as (_ & _ & Hw). cbn in Hsnap.
    eapply finish_typed; [exact Ht|exact Hc| |exact Hrun]. lia.
  - split; [|done]. unfold compact_cleanup. destruct (refresh_segment_catalog clk r) as [r1 res] eqn:E.
    by eapply refresh_typed.
Qed.

Lemma steps_typed T o0 F0 policy sys sys' :
  rtc (step T F0 policy) sys sys' -> system_ok T o0 F0 sys -> typed_system sys -> typed_system sys'.
Proof.
  induction 1 as [|sys1 sys2 sys3 H _ IH]; [done|]. intros Hok Hs.
  apply IH; [by eapply step_preserves|by eapply step_typed].
Qed.

End Typed.
