(* ===== verification/Resp.v ===== *)
(** * Resp: the RESP protocol (src/resp.rs)

    Values and their encoding, the decoder that works on the bytes already
    buffered by a connection and the encoder of commands, with the limits they
    enforce.  The reader that waits for bytes is in [RespReader]. *)

From Stdlib Require Import ZArith Lia.
From Stdlib Require Import Strings.Byte.
From stdpp Require Import base list strings numbers.
From S2P Require Import Prelude Text.

Open Scope Z_scope.

Inductive RESPValue : Type :=
| SimpleString (s : bytes)
| RError (s : bytes)
| Integer (n : Z)
| BulkString (o : option bytes)
| Array (l : list RESPValue).

Definition MAX_RESP_HEADER_LINE_SIZE : Z := 64.

Record RESPReadLimits : Type := mkLimits {
  max_array_len : Z;
  max_bulk_len : Z;
  max_inline_len : Z;
  max_frame_len : Z
}.

Definition CLIENT_RESP_LIMITS : RESPReadLimits :=
  mkLimits 1024 (8 * 1024 * 1024) (64 * 1024) (16 * 1024 * 1024).

(** [std::io::ErrorKind], as far as the sources tell the kinds apart. *)
Inductive ErrorKind : Type := InvalidData | UnexpectedEof | TimedOut | OtherKind.

Record io_error : Type := mkIoError { kind : ErrorKind; message : bytes }.

Definition invalid_data (m : bytes) : io_error := mkIoError InvalidData m.

Definition crlf : bytes := [x0d; x0a].
Definition newline : byte := x0a.

(** [iter().position(|byte| *byte == b'\n')]. *)
Fixpoint position (b : byte) (l : bytes) : option Z :=
  match l with
  | [] => None
  | c :: l => if bool_decide (c = b) then Some 0 else Z.succ <$> position b l
  end.

Definition line_content (line : bytes) : result io_error bytes :=
  ok_or (strip_suffix crlf line) (invalid_data (bs "RESP line is missing its CRLF terminator")).

Definition parse_decimal (b : bytes) (field : bytes) : result io_error Z :=
  if bool_decide (b = []) || existsb (fun c => negb (is_ascii_digit c)) b
  then Err (invalid_data field)
  else
    fold_left (fun (acc : result io_error Z) c =>
      v ← acc;
      ok_or (v ← checked_mul v 10; checked_add v (digit_value c)) (invalid_data field)) b (Ok 0).

(** [split_ascii_whitespace]: maximal runs of other bytes. *)
Definition is_ascii_whitespace (b : byte) : bool :=
  bool_decide (b ∈ [x20; x09; x0a; x0c; x0d]).

Fixpoint split_ascii_whitespace_from (cur : bytes) (s : bytes) : list bytes :=
  match s with
  | [] => match cur with [] => [] | _ => [rev cur] end
  | c :: s =>
    if is_ascii_whitespace c
    then match cur with
         | [] => split_ascii_whitespace_from [] s
         | _ => rev cur :: split_ascii_whitespace_from [] s
         end
    else split_ascii_whitespace_from (c :: cur) s
  end.

Definition split_ascii_whitespace (s : bytes) : list bytes := split_ascii_whitespace_from [] s.

Definition err_line_limit : io_error := invalid_data (bs "RESP line exceeds the protocol limit").
Definition err_too_many : io_error := invalid_data (bs "RESP command has too many arguments").
Definition err_frame_overflow : io_error := invalid_data (bs "RESP frame length overflow").
Definition err_bulk_overflow : io_error := invalid_data (bs "RESP bulk string length overflow").
Definition err_bulk_limit : io_error :=
  invalid_data (bs "RESP bulk string exceeds the protocol limit").
Definition err_frame_limit : io_error :=
  invalid_data (bs "RESP frame exceeds the aggregate protocol limit").
Definition err_bulk_crlf : io_error :=
  invalid_data (bs "RESP bulk string is missing its CRLF terminator").
Definition err_arg_utf8 : io_error :=
  invalid_data (bs "RESP command argument is not valid UTF-8").

(** An inline command, from its line without the terminator. *)
Definition inline_command (limits : RESPReadLimits) (first_line : bytes)
  : result io_error (list bytes) :=
  inline ← ok_or (Utf8.from_utf8 first_line)
    (invalid_data (bs "RESP inline command is not valid UTF-8"));
  let parts := split_ascii_whitespace inline in
  if bool_decide (parts = []) then Err (invalid_data (bs "RESP inline command is empty"))
  else if max_array_len limits <? len parts then Err err_too_many
  else Ok parts.

(** The argument count of an array header line. *)
Definition array_header (limits : RESPReadLimits) (first_line : bytes) : result io_error Z :=
  digits ← ok_or (strip_prefix (bs "*") first_line)
    (invalid_data (bs "RESP array header is malformed"));
  argument_count ← parse_decimal digits (bs "RESP array length is invalid");
  if argument_count =? 0 then Err (invalid_data (bs "RESP command array must not be empty"))
  else if max_array_len limits <? argument_count then Err err_too_many
  else Ok argument_count.

(** The payload length of a bulk-string header line. *)
Definition bulk_header (limits : RESPReadLimits) (line : bytes) : result io_error Z :=
  digits ← ok_or (strip_prefix (bs "$") line)
    (invalid_data (bs "RESP command arguments must be bulk strings"));
  bulk_length ← parse_decimal digits (bs "RESP bulk string length is invalid");
  if max_bulk_len limits <? bulk_length then Err err_bulk_limit else Ok bulk_length.

Definition maximum_first_line_size (limits : RESPReadLimits) (first_byte : byte) : Z :=
  if bool_decide (first_byte = x2a)
  then Z.min MAX_RESP_HEADER_LINE_SIZE (max_frame_len limits)
  else Z.min (max_inline_len limits) (max_frame_len limits).

(** One round of the argument loop: the payload's bounds and the next cursor;
    [Ok None] when the buffer ends first. *)
Definition decode_argument (limits : RESPReadLimits) (input : bytes) (cursor : Z)
  : result io_error (option (Z * Z * Z)) :=
  let remaining := drop (Z.to_nat cursor) input in
  match position newline remaining with
  | None => if MAX_RESP_HEADER_LINE_SIZE <? len remaining then Err err_line_limit else Ok None
  | Some relative_newline =>
    let header_length := relative_newline + 1 in
    if MAX_RESP_HEADER_LINE_SIZE <? header_length then Err err_line_limit
    else
      header ← line_content (take (Z.to_nat header_length) remaining);
      bulk_length ← bulk_header limits header;
      payload_start ← ok_or (checked_add cursor header_length) err_frame_overflow;
      payload_end ← ok_or (checked_add payload_start bulk_length) err_bulk_overflow;
      frame_end ← ok_or (checked_add payload_end 2) err_bulk_overflow;
      if max_frame_len limits <? frame_end then Err err_frame_limit
      else if len input <? frame_end then Ok None
      else if negb (bytes_eqb (slice input payload_end frame_end) crlf) then Err err_bulk_crlf
      else
        match Utf8.from_utf8 (slice input payload_start payload_end) with
        | None => Err err_arg_utf8
        | Some _ => Ok (Some (payload_start, payload_end, frame_end))
        end
  end.

Fixpoint decode_arguments (limits : RESPReadLimits) (input : bytes) (n : nat) (cursor : Z)
    (ranges : list (Z * Z)) : result io_error (option (list (Z * Z) * Z)) :=
  match n with
  | O => Ok (Some (ranges, cursor))
  | S n =>
    r ← decode_argument limits input cursor;
    match r with
    | None => Ok None
    | Some (payload_start, payload_end, frame_end) =>
      decode_arguments limits input n frame_end (ranges ++ [(payload_start, payload_end)])
    end
  end.

Definition decode_buffered_command (input : bytes) (limits : RESPReadLimits)
  : result io_error (option (list bytes * Z)) :=
  match input with
  | [] => Ok None
  | first_byte :: _ =>
    let maximum := maximum_first_line_size limits first_byte in
    match position newline input with
    | None => if maximum <? len input then Err err_line_limit else Ok None
    | Some first_newline =>
      let first_line_end := first_newline + 1 in
      if maximum <? first_line_end then Err err_line_limit
      else
        first_line ← line_content (take (Z.to_nat first_line_end) input);
        if negb (bool_decide (first_byte = x2a)) then
          parts ← inline_command limits first_line; Ok (Some (parts, first_line_end))
        else
          argument_count ← array_header limits first_line;
          r ← decode_arguments limits input (Z.to_nat argument_count) first_line_end [];
          match r with
          | None => Ok None
          | Some (ranges, cursor) =>
            Ok (Some (map (fun se : Z * Z => slice input se.1 se.2) ranges, cursor))
          end
    end
  end.

(** ** Encoding commands *)

Definition decimal_length (n : Z) : Z := len (print_Z n).

Definition encoded_argument (a : bytes) : bytes :=
  bs "$" ++ print_Z (len a) ++ crlf ++ a ++ crlf.

Definition frame_length_step (limits : RESPReadLimits) (acc : result io_error Z) (argument : bytes)
  : result io_error Z :=
  n ← acc;
  if max_bulk_len limits <? len argument then Err err_bulk_limit
  else
    ok_or (n ← checked_add n 1; n ← checked_add n (decimal_length (len argument));
           n ← checked_add n 2; n ← checked_add n (len argument); checked_add n 2)
      err_frame_overflow.

(** The new contents of [output], which is left alone on an error. *)
Definition encode_command (arguments : list bytes) (output : bytes) (limits : RESPReadLimits)
  : result io_error bytes :=
  if bool_decide (arguments = []) then Err (invalid_data (bs "RESP command must not be empty"))
  else if max_array_len limits <? len arguments then Err err_too_many
  else
    start ← ok_or (n ← checked_add 1 (decimal_length (len arguments)); checked_add n 2)
      err_frame_overflow;
    frame_length ← fold_left (frame_length_step limits) arguments (Ok start);
    if max_frame_len limits <? frame_length then Err err_frame_limit
    else
      Ok (output ++ bs "*" ++ print_Z (len arguments) ++ crlf
            ++ concat (map encoded_argument arguments)).

(** ** Encoding values *)

Fixpoint encode_value (v : RESPValue) : bytes :=
  match v with
  | SimpleString s => bs "+" ++ s ++ crlf
  | RError s => bs "-" ++ s ++ crlf
  | Integer n => bs ":" ++ print_i64 n ++ crlf
  | BulkString None => bs "$-1" ++ crlf
  | BulkString (Some s) => bs "$" ++ print_Z (len s) ++ crlf ++ s ++ crlf
  | Array l => bs "*" ++ print_Z (len l) ++ crlf ++ concat (map encode_value l)
  end.

(** [encode_into] appends to the buffer. *)
Definition encode_into (v : RESPValue) (buf : bytes) : bytes := buf ++ encode_value v.

(** * The buffered decoder and the command encoder

    Decisions of the buffered decoder do not depend on bytes that arrive later,
    it never consumes more than it was given and enforces its limits, and it
    reads back every encoded command. *)

(** ** Positions and slices *)

Lemma position_range b l p : position b l = Some p -> 0 <= p < len l.
Proof.
  unfold len. revert p. induction l as [|c l IH]; intros p; simpl; [done|].
  case_bool_decide; [intros [= <-]; lia|]. intros (q & Hq & ->)%fmap_Some.
  specialize (IH q Hq). lia.
Qed.

Lemma position_app b l m p : position b l = Some p -> position b (l ++ m) = Some p.
Proof.
  revert p. induction l as [|c l IH]; intros p; simpl; [done|].
  case_bool_decide; [done|]. intros (q & Hq & ->)%fmap_Some. by rewrite (IH q Hq).
Qed.

Lemma position_app_none b l m :
  position b l = None -> position b (l ++ m) = (fun q => len l + q) <$> position b m.
Proof.
  unfold len. induction l as [|c l IH]; simpl.
  - intros _. destruct (position b m); [|done]. done.
  - case_bool_decide; [done|]. intros Hn%fmap_None. rewrite (IH Hn).
    destruct (position b m); [|done]. simpl. f_equal. lia.
Qed.

Lemma position_first b l m : b ∉ l -> position b (l ++ b :: m) = Some (len l).
Proof.
  unfold len. induction l as [|c l IH]; intros Hb; simpl.
  - by rewrite bool_decide_eq_true_2.
  - apply not_elem_of_cons in Hb as [Hc Hb]. rewrite bool_decide_eq_false_2 by done.
    rewrite IH by done. simpl. f_equal. lia.
Qed.

Lemma take_app_Z {A} (l m : list A) n : n <= len l -> take (Z.to_nat n) (l ++ m) = take (Z.to_nat n) l.
Proof. intros H. unfold len in H. apply take_app_le. lia. Qed.

Lemma len_take {A} (l : list A) n : 0 <= n <= len l -> len (take (Z.to_nat n) l) = n.
Proof. unfold len. intros H. rewrite length_take. lia. Qed.

Lemma drop_app_Z {A} (l m : list A) n :
  n <= len l -> drop (Z.to_nat n) (l ++ m) = drop (Z.to_nat n) l ++ m.
Proof. intros H. unfold len in H. apply drop_app_le. lia. Qed.

Lemma slice_app {A} (l m : list A) a b : 0 <= a <= b -> b <= len l -> slice (l ++ m) a b = slice l a b.
Proof.
  intros Hab Hb. unfold slice. rewrite drop_app_Z by lia. rewrite take_app_le; [done|].
  rewrite length_drop. unfold len in Hb. lia.
Qed.

Lemma parse_decimal_range b field n : parse_decimal b field = Ok n -> 0 <= n <= U64_MAX.
Proof.
  unfold parse_decimal. destruct (_ || _) eqn:E; [done|]. apply orb_false_iff in E as [_ E].
  assert (H : forall l acc, existsb (fun c => negb (is_ascii_digit c)) l = false ->
    match acc with Ok a => 0 <= a <= U64_MAX | Err _ => True end ->
    fold_left (fun (acc : result io_error Z) c =>
      v ← acc; ok_or (v ← checked_mul v 10; checked_add v (digit_value c)) (invalid_data field)) l acc = Ok n ->
    0 <= n <= U64_MAX).
  { induction l as [|c l IH]; intros acc Hl Ha; cbn [fold_left]; [by intros ->|].
    simpl in Hl. apply orb_false_iff in Hl as [Hc Hl]. apply negb_false_iff in Hc.
    apply IH; [done|]. destruct acc as [a|e]; [|done]. cbn.
    unfold checked_mul. destruct (a * 10 <=? U64_MAX); cbn; [|done].
    unfold checked_add. destruct (a * 10 + digit_value c <=? U64_MAX) eqn:E2; cbn; [|done].
    unfold is_ascii_digit, digit_value in *. prop_tests. lia. }
  apply (H b (Ok 0)); [done|]. unfold U64_MAX. lia.
Qed.

(** One step of a decoder in the error monad. *)
Ltac rstep := cbn [mbind result_bind ok_or].
Ltac rstep_in H := cbn [mbind result_bind ok_or] in H.

(** ** One argument *)

(** Bounds of a decoded argument. *)
Lemma decode_argument_bounds limits input cursor ps pe fe :
  0 <= cursor <= len input ->
  decode_argument limits input cursor = Ok (Some (ps, pe, fe)) ->
  cursor < ps <= pe /\ pe + 2 = fe /\ fe <= len input /\ fe <= max_frame_len limits /\
  pe - ps <= max_bulk_len limits /\ Utf8.valid (slice input ps pe) = true.
Proof.
  intros Hc. unfold decode_argument. destruct (position newline _) as [p|] eqn:Ep.
  2: { by destruct (_ <? _). }
  apply position_range in Ep. cbv zeta. destruct (MAX_RESP_HEADER_LINE_SIZE <? p + 1); [done|].
  destruct (line_content _) as [header|]; [|done]. rstep.
  unfold bulk_header. destruct (strip_prefix (bs "$") _) as [digits|]; [|done]. rstep.
  destruct (parse_decimal digits _) as [n|] eqn:En; [|done]. rstep. apply parse_decimal_range in En.
  destruct (max_bulk_len limits <? n) eqn:Eb; [done|]. rstep.
  unfold checked_add. destruct (cursor + (p + 1) <=? U64_MAX); [|done]. rstep.
  destruct (cursor + (p + 1) + n <=? U64_MAX); [|done]. rstep.
  destruct (cursor + (p + 1) + n + 2 <=? U64_MAX); [|done]. rstep.
  destruct (max_frame_len limits <? _) eqn:Ef; [done|]. destruct (len input <? _) eqn:El; [done|].
  destruct (negb _); [done|]. unfold Utf8.from_utf8.
  destruct (Utf8.valid _) eqn:Ev; [|done]. intros [= <- <- <-]. prop_tests.
  split; [lia|]. split; [lia|]. split; [lia|]. split; [lia|]. split; [lia|done].
Qed.

(** A decision about an argument does not depend on later bytes. *)
Lemma decode_argument_app limits input more cursor :
  0 <= cursor <= len input -> decode_argument limits input cursor <> Ok None ->
  decode_argument limits (input ++ more) cursor = decode_argument limits input cursor.
Proof.
  intros Hc. unfold decode_argument. rewrite drop_app_Z by lia.
  set (rem := drop (Z.to_nat cursor) input).
  destruct (position newline rem) as [p|] eqn:Ep.
  - rewrite (position_app _ _ more _ Ep). apply position_range in Ep. cbv zeta.
    rewrite take_app_Z by lia.
    destruct (MAX_RESP_HEADER_LINE_SIZE <? p + 1); [done|].
    destruct (line_content _) as [header|]; [|done]. rstep.
    destruct (bulk_header limits header) as [n|] eqn:En; [|done]. rstep.
    assert (Hn : 0 <= n).
    { unfold bulk_header in En. destruct (strip_prefix (bs "$") _) as [digits|]; [|done]. rstep_in En.
      destruct (parse_decimal digits _) as [n'|] eqn:En'; [|done]. apply parse_decimal_range in En'.
      rstep_in En. destruct (_ <? _); [done|]. injection En as <-. lia. }
    unfold checked_add. destruct (cursor + (p + 1) <=? U64_MAX); [|done]. rstep.
    destruct (cursor + (p + 1) + n <=? U64_MAX); [|done]. rstep.
    destruct (cursor + (p + 1) + n + 2 <=? U64_MAX); [|done]. rstep.
    destruct (max_frame_len limits <? _) eqn:Ef; [done|].
    destruct (len input <? _) eqn:El; [done|]. intros _. prop_tests.
    pose proof (len_nonneg more).
    replace (len (input ++ more) <? cursor + (p + 1) + n + 2) with false
      by (symmetry; apply Z.ltb_ge; rewrite len_app; lia).
    by rewrite !slice_app by lia.
  - rewrite (position_app_none _ _ _ Ep). destruct (MAX_RESP_HEADER_LINE_SIZE <? len rem) eqn:El; [|done].
    intros _. prop_tests. pose proof (len_nonneg more). destruct (position newline more) as [q|] eqn:Eq.
    + apply position_range in Eq. cbn [fmap option_fmap option_map].
      by rewrite (proj2 (Z.ltb_lt _ (len rem + q + 1))) by lia.
    + cbn [fmap option_fmap option_map].
      by rewrite (proj2 (Z.ltb_lt _ (len (rem ++ more)))) by (rewrite len_app; lia).
Qed.

Lemma decode_arguments_app limits input more n cursor ranges :
  0 <= cursor <= len input -> decode_arguments limits input n cursor ranges <> Ok None ->
  decode_arguments limits (input ++ more) n cursor ranges = decode_arguments limits input n cursor ranges.
Proof.
  revert cursor ranges. induction n as [|n IH]; intros cursor ranges Hc; cbn [decode_arguments]; [done|].
  intros Hd.
  assert (Hne : decode_argument limits input cursor <> Ok None).
  { intros E. apply Hd. by rewrite E. }
  rewrite (decode_argument_app limits input more cursor Hc Hne).
  destruct (decode_argument limits input cursor) as [[[[ps pe] fe]|]|e] eqn:E; [|done|done].
  apply decode_argument_bounds in E; [|done]. apply IH; [lia|exact Hd].
Qed.

(** ** Whole commands *)

(** A payload within the buffer, within the limits, and text. *)
Definition range_ok (limits : RESPReadLimits) (input : bytes) (se : Z * Z) : Prop :=
  0 <= se.1 <= se.2 /\ se.2 <= len input /\ se.2 - se.1 <= max_bulk_len limits /\
  Utf8.valid (slice input se.1 se.2) = true.

Lemma decode_arguments_bounds limits input n cursor ranges ranges' c :
  0 <= cursor <= len input -> Forall (range_ok limits input) ranges ->
  decode_arguments limits input n cursor ranges = Ok (Some (ranges', c)) ->
  cursor <= c <= len input /\ c <= Z.max cursor (max_frame_len limits) /\
  length ranges' = (length ranges + n)%nat /\ Forall (range_ok limits input) ranges'.
Proof.
  revert cursor ranges. induction n as [|n IH]; intros cursor ranges Hc Hr; cbn [decode_arguments].
  - intros [= <- <-]. split; [lia|]. split; [lia|]. split; [lia|done].
  - destruct (decode_argument limits input cursor) as [[[[ps pe] fe]|]|e] eqn:E; [|done|done].
    apply decode_argument_bounds in E as (H1 & H2 & H3 & H4 & H5 & H6); [|done]. rstep.
    intros H. apply IH in H as (I1 & I2 & I3 & I4); [|lia|].
    + split; [lia|]. split; [lia|]. split; [|done]. rewrite I3, length_app. simpl. lia.
    + apply list.Forall_app. split; [done|]. constructor; [|constructor].
      split; [cbn [fst snd]; lia|]. cbn [fst snd]. split; [lia|]. split; [lia|done].
Qed.

(** The body of the decoder for a buffer that starts with [b]. *)
Definition decode_from (b : byte) (input : bytes) (limits : RESPReadLimits)
  : result io_error (option (list bytes * Z)) :=
  match position newline input with
  | None => if maximum_first_line_size limits b <? len input then Err err_line_limit else Ok None
  | Some p =>
    if maximum_first_line_size limits b <? p + 1 then Err err_line_limit
    else
      first_line ← line_content (take (Z.to_nat (p + 1)) input);
      if negb (bool_decide (b = x2a)) then
        parts ← inline_command limits first_line; Ok (Some (parts, p + 1))
      else
        n ← array_header limits first_line;
        r ← decode_arguments limits input (Z.to_nat n) (p + 1) [];
        match r with
        | None => Ok None
        | Some (ranges, cursor) =>
          Ok (Some (map (fun se : Z * Z => slice input se.1 se.2) ranges, cursor))
        end
  end.

Lemma decode_buffered_cons b input limits :
  decode_buffered_command (b :: input) limits = decode_from b (b :: input) limits.
Proof. reflexivity. Qed.

Lemma decode_from_app b l more limits :
  decode_from b l limits <> Ok None -> decode_from b (l ++ more) limits = decode_from b l limits.
Proof.
  unfold decode_from. destruct (position newline l) as [p|] eqn:Ep.
  - rewrite (position_app _ _ more _ Ep). apply position_range in Ep.
    rewrite take_app_Z by lia. destruct (_ <? p + 1); [done|].
    destruct (line_content _) as [line|]; [|done]. rstep. destruct (negb _); [done|].
    destruct (array_header limits line) as [n|]; [|done]. rstep. intros Hd.
    assert (Hne : decode_arguments limits l (Z.to_nat n) (p + 1) [] <> Ok None).
    { intros E. apply Hd. by rewrite E. }
    rewrite (decode_arguments_app limits l more (Z.to_nat n) (p + 1) [] ltac:(lia) Hne).
    destruct (decode_arguments limits l (Z.to_nat n) (p + 1) []) as [[[ranges c]|]|e] eqn:E;
      [|done|done].
    apply decode_arguments_bounds in E as (_ & _ & _ & Hr); [|lia|constructor].
    rstep. do 3 f_equal. apply map_ext_in. intros [s e] Hin. cbn [fst snd].
    rewrite list.Forall_forall in Hr. apply list_elem_of_In, Hr in Hin as (H1 & H2 & _).
    by apply slice_app.
  - rewrite (position_app_none _ _ _ Ep).
    destruct (maximum_first_line_size limits b <? len l) eqn:El; [|done].
    intros _. prop_tests. pose proof (len_nonneg more). destruct (position newline more) as [q|] eqn:Eq.
    + apply position_range in Eq. cbn [fmap option_fmap option_map].
      by rewrite (proj2 (Z.ltb_lt _ (len l + q + 1))) by lia.
    + cbn [fmap option_fmap option_map].
      by rewrite (proj2 (Z.ltb_lt _ (len (l ++ more)))) by (rewrite len_app; lia).
Qed.

Lemma decode_buffered_app input more limits :
  decode_buffered_command input limits <> Ok None ->
  decode_buffered_command (input ++ more) limits = decode_buffered_command input limits.
Proof.
  destruct input as [|b input]; [done|]. change ((b :: input) ++ more) with (b :: (input ++ more)).
  rewrite !decode_buffered_cons. exact (decode_from_app b (b :: input) more limits).
Qed.

Lemma inline_words_bound cur s w :
  w ∈ split_ascii_whitespace_from cur s -> len w <= len cur + len s.
Proof.
  revert cur. induction s as [|c s IH]; intros cur; cbn [split_ascii_whitespace_from].
  - destruct cur; [by intros ?%not_elem_of_nil|]. intros ->%list_elem_of_singleton.
    unfold len. rewrite length_rev. simpl. lia.
  - unfold len in *. simpl length. destruct (is_ascii_whitespace c).
    + destruct cur as [|x cur].
      * intros H%IH. simpl in *. lia.
      * intros [->|H%IH]%elem_of_cons; [rewrite length_rev; simpl; lia|simpl in *; lia].
    + intros H%IH. simpl in *. lia.
Qed.

Lemma decode_buffered_bounds input limits args n :
  decode_buffered_command input limits = Ok (Some (args, n)) ->
  0 < n <= len input /\ n <= max_frame_len limits /\ 0 < len args <= max_array_len limits /\
  Forall (fun a => len a <= Z.max (max_bulk_len limits) (max_inline_len limits)) args.
Proof.
  destruct input as [|b input]; [done|]. rewrite decode_buffered_cons. unfold decode_from.
  set (l := b :: input). destruct (position newline l) as [p|] eqn:Ep; [|by destruct (_ <? _)].
  apply position_range in Ep. destruct (_ <? p + 1) eqn:Em; [done|]. prop_tests.
  unfold maximum_first_line_size in Em.
  destruct (line_content _) as [line|] eqn:El; [|done]. rstep.
  assert (Hline : len line <= p + 1).
  { unfold line_content in El. destruct (strip_suffix crlf _) as [x|] eqn:Es; [|done].
    injection El as <-. apply strip_suffix_Some in Es. apply (f_equal len) in Es.
    rewrite len_app in Es. unfold len in *. rewrite length_take in Es. simpl in Es. lia. }
  case_bool_decide as Hb; cbn [negb].
  - destruct (array_header limits line) as [k|] eqn:Ek; [|done]. rstep.
    destruct (decode_arguments _ _ _ _ _) as [[[ranges c]|]|e] eqn:E; [|done|done]. rstep.
    intros [= <- <-]. apply decode_arguments_bounds in E as (H1 & H2 & H3 & H4); [|lia|constructor].
    unfold array_header in Ek. destruct (ok_or _ _) as [digits|]; [|done]. rstep_in Ek.
    destruct (parse_decimal _ _) as [k'|] eqn:Ep'; [|done]. rstep_in Ek.
    destruct (k' =? 0) eqn:E0; [done|]. destruct (max_array_len limits <? k') eqn:E1; [done|].
    injection Ek as <-. apply parse_decimal_range in Ep'. prop_tests.
    split; [lia|]. split; [lia|]. split.
    + unfold len. rewrite length_map, H3. simpl. lia.
    + apply list.Forall_fmap. eapply list.Forall_impl; [exact H4|]. intros [s e] (I1 & I2 & I3 & _).
      cbn [fst snd compose] in *. unfold len, slice. simpl. rewrite length_take. lia.
  - unfold inline_command, Utf8.from_utf8. destruct (Utf8.valid line); [|done]. rstep.
    case_bool_decide as Hp; [done|]. destruct (_ <? len _) eqn:Ea; [done|]. rstep.
    intros [= <- <-]. prop_tests. split; [lia|]. split; [lia|]. split.
    + split; [|lia]. unfold len. destruct (split_ascii_whitespace line); [done|simpl; lia].
    + apply list.Forall_forall. intros w Hw. apply inline_words_bound in Hw.
      change (len []) with 0 in Hw. lia.
Qed.

(** ** Reading back an encoded command *)

Lemma parse_decimal_digits field s acc :
  Forall (fun b => is_ascii_digit b = true) s -> 0 <= acc -> digits_value acc s <= U64_MAX ->
  fold_left (fun (acc : result io_error Z) c =>
    v ← acc; ok_or (v ← checked_mul v 10; checked_add v (digit_value c)) (invalid_data field)) s (Ok acc)
  = Ok (digits_value acc s).
Proof.
  revert acc. induction s as [|c s IH]; intros acc Hs Ha Hv; [done|].
  inversion Hs as [|? ? Hc Hs']; subst. cbn [fold_left] in *.
  change (digits_value acc (c :: s)) with (digits_value (acc * 10 + digit_value c) s) in *.
  assert (Hd : 0 <= digit_value c) by (unfold is_ascii_digit, digit_value in *; prop_tests; lia).
  pose proof (digits_value_mono s (acc * 10 + digit_value c) Hs' ltac:(lia)).
  rewrite <- IH; [|done|lia|lia]. f_equal. rstep. unfold checked_mul, checked_add.
  rewrite (proj2 (Z.leb_le (acc * 10) U64_MAX)) by lia. cbn [mbind option_bind].
  by rewrite (proj2 (Z.leb_le (acc * 10 + digit_value c) U64_MAX)) by lia.
Qed.

Lemma parse_decimal_print field n : 0 <= n <= U64_MAX -> parse_decimal (print_Z n) field = Ok n.
Proof.
  intros Hn. destruct (print_Z_spec n) as (d & ds & -> & Hd & Hv); [lia|]. unfold parse_decimal.
  rewrite bool_decide_eq_false_2 by done. cbn [orb].
  replace (existsb _ (d :: ds)) with false.
  - rewrite parse_decimal_digits; [by rewrite Hv|done|lia|lia].
  - symmetry. clear Hv. induction Hd as [|c l Hc _ IH]; [done|]. simpl. by rewrite Hc, IH.
Qed.

Lemma print_Z_no_newline n : 0 <= n -> newline ∉ print_Z n.
Proof.
  intros Hn. destruct (print_Z_spec n Hn) as (d & ds & -> & Hd & _). intros Hin.
  rewrite list.Forall_forall in Hd. by apply Hd in Hin.
Qed.

(** A header line at the start of a buffer: its newline, its contents. *)
Lemma header_line (c : byte) n rest :
  0 <= n <= U64_MAX -> c <> newline ->
  let line := c :: print_Z n ++ crlf in
  position newline (line ++ rest) = Some (len line - 1) /\
  take (Z.to_nat (len line)) (line ++ rest) = line /\ 3 < len line <= 23 /\
  line_content line = Ok (c :: print_Z n).
Proof.
  intros Hn Hc line. split; [|split; [|split]].
  - subst line. replace (((c :: print_Z n ++ crlf) ++ rest)) with ((c :: print_Z n ++ [x0d]) ++ newline :: rest)
      by (cbn; by rewrite <- !(assoc_L (++))).
    rewrite position_first.
    + unfold len. f_equal. simpl. rewrite !length_app. simpl. lia.
    + rewrite elem_of_cons, elem_of_app, list_elem_of_singleton. intros [H|[H|H]]; [congruence| |done].
      by apply (print_Z_no_newline n) in H; [|lia].
  - unfold len. rewrite Nat2Z.id. apply take_app_length.
  - subst line. pose proof (print_Z_length n Hn) as Hlen.
    destruct (print_Z_spec n) as (d & ds & Hp & _); [lia|]. rewrite Hp in *.
    change (c :: (d :: ds) ++ crlf) with ([c] ++ (d :: ds) ++ crlf). rewrite !len_app.
    change (len crlf) with 2. change (len [c]) with 1. unfold len in *. cbn [length] in *. lia.
  - unfold line_content. subst line. change (c :: print_Z n ++ crlf) with ((c :: print_Z n) ++ crlf).
    by rewrite strip_suffix_app.
Qed.

Lemma len_encoded a : len (encoded_argument a) = len (x24 :: print_Z (len a) ++ crlf) + len a + 2.
Proof.
  unfold encoded_argument. change (bs "$") with [x24]. rewrite !len_app.
  change (x24 :: print_Z (len a) ++ crlf) with ([x24] ++ print_Z (len a) ++ crlf). rewrite !len_app.
  change (len crlf) with 2. lia.
Qed.

Lemma slice_middle {A} (l m r : list A) : slice (l ++ m ++ r) (len l) (len l + len m) = m.
Proof.
  unfold slice, len. replace (Z.of_nat (length l) + Z.of_nat (length m) - Z.of_nat (length l))
    with (Z.of_nat (length m)) by lia.
  rewrite !Nat2Z.id, drop_app_length. apply take_app_length.
Qed.

Lemma decode_encoded limits pre a rest :
  len a <= max_bulk_len limits -> Utf8.valid a = true ->
  len pre + len (encoded_argument a) <= max_frame_len limits ->
  len pre + len (encoded_argument a) <= U64_MAX ->
  exists ps, decode_argument limits (pre ++ encoded_argument a ++ rest) (len pre) =
      Ok (Some (ps, ps + len a, len pre + len (encoded_argument a))) /\
    slice (pre ++ encoded_argument a ++ rest) ps (ps + len a) = a.
Proof.
  intros Hb Hv Hf Hu. rewrite len_encoded in *. set (line := x24 :: print_Z (len a) ++ crlf) in *.
  pose proof (len_nonneg a) as Ha. pose proof (len_nonneg pre) as Hp. pose proof (len_nonneg line).
  assert (Hsplit : encoded_argument a ++ rest = line ++ a ++ crlf ++ rest).
  { unfold encoded_argument, line. change (bs "$") with [x24]. cbn [app]. by rewrite <- !(assoc_L (++)). }
  destruct (header_line x24 (len a) (a ++ crlf ++ rest)) as (H1 & H2 & H3 & H4); [lia|done|].
  fold line in H1, H2, H3, H4. rewrite Hsplit.
  exists (len pre + len line). split.
  2: { rewrite (assoc_L (++) pre line), <- len_app. apply slice_middle. }
  unfold decode_argument.
  replace (drop (Z.to_nat (len pre)) (pre ++ line ++ a ++ crlf ++ rest)) with (line ++ a ++ crlf ++ rest)
    by (unfold len; by rewrite Nat2Z.id, drop_app_length).
  rewrite H1. cbv zeta. replace (len line - 1 + 1) with (len line) by lia.
  rewrite (proj2 (Z.ltb_ge MAX_RESP_HEADER_LINE_SIZE (len line)))
    by (unfold MAX_RESP_HEADER_LINE_SIZE; lia).
  rewrite H2, H4. rstep. unfold bulk_header.
  change (strip_prefix (bs "$") (x24 :: print_Z (len a))) with (Some (print_Z (len a))). rstep.
  rewrite parse_decimal_print by lia. rstep. rewrite (proj2 (Z.ltb_ge _ (len a))) by lia. rstep.
  unfold checked_add. rewrite (proj2 (Z.leb_le (len pre + len line) U64_MAX)) by lia. rstep.
  rewrite (proj2 (Z.leb_le (len pre + len line + len a) U64_MAX)) by lia. rstep.
  rewrite (proj2 (Z.leb_le (len pre + len line + len a + 2) U64_MAX)) by lia. rstep.
  rewrite (proj2 (Z.ltb_ge _ (len pre + len line + len a + 2))) by lia.
  rewrite (proj2 (Z.ltb_ge (len (pre ++ line ++ a ++ crlf ++ rest)) _)).
  2: { rewrite !len_app. change (len crlf) with 2. pose proof (len_nonneg rest). lia. }
  assert (Hs1 : slice (pre ++ line ++ a ++ crlf ++ rest) (len pre + len line + len a)
    (len pre + len line + len a + 2) = crlf).
  { change 2 with (len crlf). rewrite <- !len_app, !(assoc_L (++)).
    rewrite <- (assoc_L (++) _ crlf rest), (len_app _ crlf). apply slice_middle. }
  assert (Hs2 : slice (pre ++ line ++ a ++ crlf ++ rest) (len pre + len line)
    (len pre + len line + len a) = a).
  { rewrite (assoc_L (++) pre line), <- len_app. apply slice_middle. }
  rewrite Hs1, Hs2, bytes_eqb_refl. cbn [negb]. unfold Utf8.from_utf8. rewrite Hv.
  do 3 f_equal. lia.
Qed.

Definition encoded (arguments : list bytes) : bytes := concat (map encoded_argument arguments).

Lemma decode_all_encoded limits arguments pre rest ranges :
  Forall (fun a => len a <= max_bulk_len limits /\ Utf8.valid a = true) arguments ->
  len pre + len (encoded arguments) <= max_frame_len limits ->
  len pre + len (encoded arguments) <= U64_MAX ->
  let input := pre ++ encoded arguments ++ rest in
  exists ranges', decode_arguments limits input (length arguments) (len pre) ranges =
      Ok (Some (ranges ++ ranges', len pre + len (encoded arguments))) /\
    map (fun se : Z * Z => slice input se.1 se.2) ranges' = arguments.
Proof.
  intros Ha. revert pre ranges. induction Ha as [|a l [Hb Hv] Hl IH]; intros pre ranges Hf Hu input.
  - exists []. cbn [length decode_arguments]. rewrite app_nil_r, Z.add_0_r. done.
  - change (encoded (a :: l)) with (encoded_argument a ++ encoded l) in *. rewrite len_app in *.
    pose proof (len_nonneg (encoded l)). pose proof (len_nonneg pre).
    destruct (decode_encoded limits pre a (encoded l ++ rest)) as (ps & E & Hs); [done|done|lia|lia|].
    assert (Hi : input = pre ++ encoded_argument a ++ encoded l ++ rest)
      by (subst input; by rewrite <- (assoc_L (++))).
    cbn [length decode_arguments]. rewrite Hi, E. rstep.
    destruct (IH (pre ++ encoded_argument a) (ranges ++ [(ps, ps + len a)])) as (rs & E2 & Hm);
      [rewrite len_app; lia|rewrite len_app; lia|].
    rewrite <- (assoc_L (++) pre) in E2, Hm. rewrite len_app in E2. rewrite E2.
    exists ((ps, ps + len a) :: rs). rewrite <- (assoc_L (++) ranges). split.
    + do 3 f_equal. lia.
    + cbn [map fst snd]. by rewrite Hs, Hm.
Qed.

Lemma frame_length_fold limits arguments start n :
  fold_left (frame_length_step limits) arguments (Ok start) = Ok n ->
  n = start + len (encoded arguments) /\ Forall (fun a => len a <= max_bulk_len limits) arguments /\
  (arguments <> [] -> n <= U64_MAX).
Proof.
  revert start. induction arguments as [|a l IH]; intros start; cbn [fold_left].
  - intros [= <-]. change (len (encoded [])) with 0. split; [lia|done].
  - destruct (frame_length_step limits (Ok start) a) as [m|e] eqn:E.
    2: { intros H. exfalso. clear -H. induction l; [done|]. by apply IHl. }
    intros H. apply IH in H as (H1 & H2 & H3). unfold frame_length_step in E. rstep_in E.
    destruct (max_bulk_len limits <? len a) eqn:Eb; [done|]. prop_tests.
    inv_binds. change (encoded (a :: l)) with (encoded_argument a ++ encoded l).
    rewrite len_app. assert (He : len (encoded_argument a) = 1 + decimal_length (len a) + 2 + len a + 2).
    { unfold encoded_argument, decimal_length. change (bs "$") with [x24]. rewrite !len_app.
      change (len crlf) with 2. change (len [x24]) with 1. lia. }
    split; [lia|]. split; [by constructor|]. intros _. destruct l as [|b l].
    + change (len (encoded [])) with 0 in H1. lia.
    + by apply H3.
Qed.

(** The frame of a command. *)
Definition command_frame (arguments : list bytes) : bytes :=
  bs "*" ++ print_Z (len arguments) ++ crlf ++ encoded arguments.

Lemma decode_frame limits arguments rest :
  0 < len arguments <= max_array_len limits -> len arguments <= U64_MAX ->
  Forall (fun a => len a <= max_bulk_len limits /\ Utf8.valid a = true) arguments ->
  len (command_frame arguments) <= max_frame_len limits -> len (command_frame arguments) <= U64_MAX ->
  decode_buffered_command (command_frame arguments ++ rest) limits = Ok (Some (arguments, len (command_frame arguments))).
Proof.
  intros Hpos Hmaxu Hargs Hm Hu. set (line := x2a :: print_Z (len arguments) ++ crlf).
  destruct (header_line x2a (len arguments) (encoded arguments ++ rest)) as (H1 & H2 & H3 & H4); [lia|done|].
  fold line in H1, H2, H3, H4.
  assert (Hframe : command_frame arguments = line ++ encoded arguments).
  { unfold command_frame, line. cbn. by rewrite <- (assoc_L (++)). }
  rewrite Hframe in *. rewrite <- (assoc_L (++)), len_app in *. change (line ++ encoded arguments ++ rest) with
    (x2a :: (print_Z (len arguments) ++ crlf) ++ encoded arguments ++ rest).
  rewrite decode_buffered_cons. change (x2a :: (print_Z (len arguments) ++ crlf) ++ encoded arguments ++ rest)
    with (line ++ encoded arguments ++ rest).
  unfold decode_from. rewrite H1. replace (len line - 1 + 1) with (len line) by lia.
  assert (Hmax : len line <= maximum_first_line_size limits x2a).
  { unfold maximum_first_line_size, MAX_RESP_HEADER_LINE_SIZE. rewrite bool_decide_eq_true_2 by done.
    pose proof (len_nonneg (encoded arguments)). lia. }
  rewrite (proj2 (Z.ltb_ge _ (len line)) Hmax), H2, H4. rstep.
  rewrite bool_decide_eq_true_2 by done. cbn [negb]. unfold array_header.
  change (strip_prefix (bs "*") (x2a :: print_Z (len arguments))) with (Some (print_Z (len arguments))).
  rstep. rewrite parse_decimal_print by lia. rstep.
  rewrite (proj2 (Z.eqb_neq (len arguments) 0)) by lia. rewrite (proj2 (Z.ltb_ge _ (len arguments))) by lia.
  rstep. replace (Z.to_nat (len arguments)) with (length arguments) by (unfold len; lia).
  destruct (decode_all_encoded limits arguments line rest []) as (rs & E & Hrs); [done|lia|lia|].
  rewrite E. rstep. cbn [app]. by rewrite Hrs.
Qed.

(** The buffered decoder reads back every command the encoder accepts,
    consumes exactly the frame, and leaves what follows it. *)
Theorem decode_encoded_command (arguments : list bytes) (limits : RESPReadLimits) (frame rest : bytes)
    (He : encode_command arguments [] limits = Ok frame)
    (Hv : Forall (fun a => Utf8.valid a = true) arguments) (Hn : len arguments <= U64_MAX) :
  decode_buffered_command (frame ++ rest) limits = Ok (Some (arguments, len frame)).
Proof.
  unfold encode_command in He. case_bool_decide as Hne; [done|].
  destruct (max_array_len limits <? len arguments) eqn:Ea; [done|].
  assert (Hpos : 0 < len arguments) by (unfold len; destruct arguments; [done|simpl; lia]).
  destruct (ok_or _ _) as [start|] eqn:Es; [|done]. rstep_in He.
  destruct (fold_left _ arguments (Ok start)) as [n|] eqn:Ef; [|done]. rstep_in He.
  apply frame_length_fold in Ef as (Hlen & Hb & Hu). specialize (Hu Hne).
  destruct (max_frame_len limits <? n) eqn:Em; [done|]. prop_tests.
  assert (Hframe : frame = command_frame arguments) by (by injection He as <-).
  assert (Hsize : len frame = n).
  { rewrite Hframe. unfold command_frame, decimal_length in *. rewrite !len_app. change (len crlf) with 2.
    change (len (bs "*")) with 1. inv_binds. lia. }
  rewrite Hframe in *. apply decode_frame; try lia. clear -Hb Hv. induction Hb; inversion Hv; constructor; auto.
Qed.

(** Once the buffered decoder has decided, for a command or an error, more
    bytes do not change the decision, so a pipeline is read frame by frame. *)
Theorem decode_decision_stable (input more : bytes) (limits : RESPReadLimits)
    (Hd : decode_buffered_command input limits <> Ok None) :
  decode_buffered_command (input ++ more) limits = decode_buffered_command input limits.
Proof. by apply decode_buffered_app. Qed.

(** A decoded command consumes a non-empty prefix of the buffer and
    respects every limit. *)
Theorem decode_respects_limits (input : bytes) (limits : RESPReadLimits) (args : list bytes) (n : Z)
    (Hd : decode_buffered_command input limits = Ok (Some (args, n))) :
  0 < n <= len input /\ n <= max_frame_len limits /\ 0 < len args <= max_array_len limits /\
  Forall (fun a => len a <= Z.max (max_bulk_len limits) (max_inline_len limits)) args.
Proof. by apply decode_buffered_bounds. Qed.

(** ** Instances *)

Definition get_frame : bytes :=
  bs "*2" ++ crlf ++ bs "$3" ++ crlf ++ bs "GET" ++ crlf ++ bs "$1" ++ crlf ++ bs "k" ++ crlf.

Lemma decode_encoded_command_witness :
  decode_buffered_command (get_frame ++ bs "PING") CLIENT_RESP_LIMITS =
  Ok (Some ([bs "GET"; bs "k"], len get_frame)).
Proof.
  apply (decode_encoded_command [bs "GET"; bs "k"] CLIENT_RESP_LIMITS get_frame (bs "PING")).
  - vm_compute. reflexivity.
  - repeat constructor.
  - vm_compute. discriminate.
Defined.

Lemma decode_decision_stable_witness :
  decode_buffered_command (get_frame ++ get_frame) CLIENT_RESP_LIMITS =
  decode_buffered_command get_frame CLIENT_RESP_LIMITS.
Proof. apply decode_decision_stable. vm_compute. discriminate. Defined.

Lemma decode_respects_limits_witness :
  0 < len get_frame <= len get_frame /\ len get_frame <= max_frame_len CLIENT_RESP_LIMITS /\
  0 < len [bs "GET"; bs "k"] <= max_array_len CLIENT_RESP_LIMITS /\
  Forall (fun a => len a <= Z.max (max_bulk_len CLIENT_RESP_LIMITS) (max_inline_len CLIENT_RESP_LIMITS))
    [bs "GET"; bs "k"].
Proof. apply (decode_respects_limits get_frame). vm_compute. reflexivity. Defined.
