(* ===== verification/RespReader.v ===== *)
(** * RespReader: reading commands from a connection (src/resp.rs)

    A connection delivers its bytes in chunks of any size, then ends, breaks or
    falls silent.  [fill_buf] and [consume] are the buffered reader's; a read
    that would wait for ever is [Blocked], and the time limits turn it into an
    error. *)

From Stdlib Require Import ZArith Lia.
From Stdlib Require Import Strings.Byte.
From stdpp Require Import base list strings numbers.
From S2P Require Import Prelude Text Resp.

Open Scope Z_scope.

(** ** Connections *)

(** What follows the last chunk. *)
Inductive ending : Type :=
| Closed
| Broken (e : io_error)
| Silent.

(** [buffered]: the bytes in the reader's buffer; [arriving]: the chunks the
    following reads return. *)
Record Reader : Type := mkReader {
  buffered : bytes;
  arriving : list bytes;
  ends : ending
}.

(** Why a read gives no value. *)
Inductive stop : Type :=
| Failed (e : io_error)
| Blocked
| OutOfFuel.

Fixpoint next_chunk (chunks : list bytes) : bytes * list bytes :=
  match chunks with
  | [] => ([], [])
  | [] :: rest => next_chunk rest
  | chunk :: rest => (chunk, rest)
  end.

(** The buffer, refilled when it is empty; empty at the end of the stream. *)
Definition fill_buf (r : Reader) : Reader * result stop bytes :=
  match buffered r with
  | [] =>
    let '(chunk, rest) := next_chunk (arriving r) in
    let r := mkReader chunk rest (ends r) in
    match chunk with
    | [] => (r, match ends r with
                | Closed => Ok []
                | Broken e => Err (Failed e)
                | Silent => Err Blocked
                end)
    | _ => (r, Ok chunk)
    end
  | available => (r, Ok available)
  end.

Definition consume (n : Z) (r : Reader) : Reader :=
  mkReader (drop (Z.to_nat n) (buffered r)) (arriving r) (ends r).

(** The bytes that are still to be read. *)
Definition stream (r : Reader) : bytes := buffered r ++ concat (arriving r).

(** ** Lines *)

Definition ends_with_newline (s : bytes) : bool := bool_decide (list.last s = Some newline).

Fixpoint read_line_loop (fuel : nat) (scratch : bytes) (maximum_size : Z) (r : Reader)
  : Reader * result stop bytes :=
  match fuel with
  | O => (r, Err OutOfFuel)
  | S fuel =>
    match fill_buf r with
    | (r, Err s) => (r, Err s)
    | (r, Ok []) => (r, Ok scratch)
    | (r, Ok available) =>
      let available_length := match position newline available with
                              | Some position => position + 1
                              | None => len available
                              end in
      match (limit ← checked_add maximum_size 1; checked_sub limit (len scratch)) with
      | None => (r, Err (Failed err_line_limit))
      | Some remaining =>
        let copied := Z.min available_length remaining in
        let scratch := scratch ++ take (Z.to_nat copied) available in
        let r := consume copied r in
        if maximum_size <? len scratch then (r, Err (Failed err_line_limit))
        else if (copied =? available_length) && ends_with_newline scratch then (r, Ok scratch)
        else read_line_loop fuel scratch maximum_size r
      end
    end
  end.

(** Every round takes a byte, so there are at most as many as there are bytes,
    and one more that finds the end. *)
Definition read_bounded_line (maximum_size : Z) (r : Reader) : Reader * result stop bytes :=
  read_line_loop (S (length (stream r))) [] maximum_size r.

(** ** [read_exact] *)

Definition err_early_eof : io_error := mkIoError UnexpectedEof (bs "early eof").

Fixpoint read_exact_loop (fuel : nat) (taken : bytes) (n : Z) (r : Reader) : Reader * result stop bytes :=
  match fuel with
  | O => (r, Err OutOfFuel)
  | S fuel =>
    if n =? 0 then (r, Ok taken)
    else
      match fill_buf r with
      | (r, Err s) => (r, Err s)
      | (r, Ok []) => (r, Err (Failed err_early_eof))
      | (r, Ok available) =>
        let copied := Z.min n (len available) in
        read_exact_loop fuel (taken ++ take (Z.to_nat copied) available) (n - copied) (consume copied r)
      end
  end.

Definition read_exact (n : Z) (r : Reader) : Reader * result stop bytes :=
  read_exact_loop (S (length (stream r))) [] n r.

(** ** Commands *)

Definition err_no_bulk_header : io_error :=
  mkIoError UnexpectedEof (bs "RESP command ended before a bulk string header").

(** A step of a reader: the rest runs when it gave a value. *)
Definition and_then {A B} (x : Reader * result stop A) (f : A -> Reader -> Reader * result stop B)
  : Reader * result stop B :=
  match x with
  | (r, Ok a) => f a r
  | (r, Err s) => (r, Err s)
  end.

(** A check that needs no more bytes. *)
Definition checked {A B} (x : result io_error A) (r : Reader) (f : A -> Reader * result stop B)
  : Reader * result stop B :=
  match x with
  | Ok a => f a
  | Err e => (r, Err (Failed e))
  end.

(** One argument: it and the length of the frame up to its end. *)
Definition read_argument (limits : RESPReadLimits) (frame_length : Z) (r : Reader)
  : Reader * result stop (bytes * Z) :=
  and_then (read_bounded_line MAX_RESP_HEADER_LINE_SIZE r) (fun line r =>
    let header_length := len line in
    if header_length =? 0 then (r, Err (Failed err_no_bulk_header))
    else
      checked (line_content line) r (fun header =>
      checked (bulk_header limits header) r (fun bulk_length =>
      checked (ok_or (checked_add bulk_length 2) err_bulk_overflow) r (fun encoded_bulk_length =>
      checked (ok_or (n ← checked_add frame_length header_length; checked_add n encoded_bulk_length)
                 err_frame_overflow) r (fun projected_frame_length =>
      if max_frame_len limits <? projected_frame_length then (r, Err (Failed err_frame_limit))
      else
        and_then (read_exact bulk_length r) (fun payload r =>
        and_then (read_exact 2 r) (fun terminator r =>
          if negb (bytes_eqb terminator crlf) then (r, Err (Failed err_bulk_crlf))
          else
            checked (ok_or (Utf8.from_utf8 payload) err_arg_utf8) r (fun argument =>
              (r, Ok (argument, projected_frame_length)))))))))).

Fixpoint read_arguments (limits : RESPReadLimits) (n : nat) (frame_length : Z) (command : list bytes) (r : Reader)
  : Reader * result stop (list bytes) :=
  match n with
  | O => (r, Ok command)
  | S n =>
    and_then (read_argument limits frame_length r) (fun '(argument, frame_length) r =>
      read_arguments limits n frame_length (command ++ [argument]) r)
  end.

(** [Ok None] at the end of the stream. *)
Definition read_command_with_limits (limits : RESPReadLimits) (r : Reader)
  : Reader * result stop (option (list bytes)) :=
  and_then (fill_buf r) (fun available r =>
    match available with
    | [] => (r, Ok None)
    | first_byte :: _ =>
      and_then (read_bounded_line (maximum_first_line_size limits first_byte) r) (fun line r =>
        if len line =? 0 then (r, Ok None)
        else
          checked (line_content line) r (fun first_line =>
          if negb (bool_decide (first_byte = x2a)) then
            checked (inline_command limits first_line) r (fun parts => (r, Ok (Some parts)))
          else
            checked (array_header limits first_line) r (fun argument_count =>
            and_then (read_arguments limits (Z.to_nat argument_count) (len line) [] r) (fun command r =>
              (r, Ok (Some command))))))
    end).

(** ** Time limits *)

Definition err_idle_timeout : io_error := mkIoError TimedOut (bs "RESP client idle timeout").
Definition err_frame_timeout : io_error := mkIoError TimedOut (bs "RESP frame assembly timeout").

(** The wait for the first byte is limited only when [idle_timeout] is given; a
    silent connection is silent for longer than any limit. *)
Definition read_command_with_timeouts (limits : RESPReadLimits) (idle_timeout : bool) (r : Reader)
  : Reader * result stop (option (list bytes)) :=
  match fill_buf r with
  | (r, Err Blocked) => (r, Err (if idle_timeout then Failed err_idle_timeout else Blocked))
  | (r, Err s) => (r, Err s)
  | (r, Ok []) => (r, Ok None)
  | (r, Ok _) =>
    match read_command_with_limits limits r with
    | (r, Err Blocked) => (r, Err (Failed err_frame_timeout))
    | other => other
    end
  end.

(** * The reader computes what the buffered decoder decides

    However a connection cuts its bytes into chunks, reading a command from it
    gives what the buffered decoder gives on all of them. *)

Lemma rest_after {A} (l m : list A) n : l = take n l ++ m -> m = drop n l.
Proof. intros H. apply (app_inv_head (take n l)). by rewrite <- H, take_drop. Qed.

(** ** The buffer *)

Lemma next_chunk_spec l : let '(c, rest) := next_chunk l in c ++ concat rest = concat l /\ (c = [] -> concat l = []).
Proof.
  induction l as [|c l IH]; simpl; [done|]. destruct c as [|b c]; [|done]. by destruct (next_chunk l).
Qed.

(** Why a connection that delivers nothing more gives no value. *)
Definition ended (e : ending) : stop :=
  match e with Closed => Failed err_early_eof | Broken e => Failed e | Silent => Blocked end.

Lemma fill_buf_spec r r' x :
  fill_buf r = (r', x) ->
  stream r' = stream r /\ ends r' = ends r /\
  match x with
  | Ok b => b = buffered r' /\ (b = [] -> stream r = [] /\ ends r = Closed)
  | Err s => stream r = [] /\ ends r <> Closed /\ s = ended (ends r)
  end.
Proof.
  unfold fill_buf, stream. destruct (buffered r) as [|b l] eqn:E; [|by intros [= <- <-]; rewrite E].
  pose proof (next_chunk_spec (arriving r)) as H. destruct (next_chunk (arriving r)) as [c rest]. destruct H as [H1 H2].
  destruct c as [|b c].
  - cbn. intros [= <- <-]. cbn. rewrite H2 in H1 |- * by done. cbn in H1. rewrite H1. by destruct (ends r).
  - intros [= <- <-]. cbn. by rewrite <- H1.
Qed.

Lemma stream_consume n r :
  0 <= n <= len (buffered r) -> stream (consume n r) = drop (Z.to_nat n) (stream r).
Proof. intros H. unfold stream, consume. cbn. by rewrite drop_app_Z by lia. Qed.

(** ** Lines *)

(** The line at the head of [s], when [e] follows it. *)
Definition line_of (maximum_size : Z) (s : bytes) (e : ending) : result stop bytes :=
  match position newline s with
  | Some p => if maximum_size <? p + 1 then Err (Failed err_line_limit) else Ok (take (Z.to_nat (p + 1)) s)
  | None => if maximum_size <? len s then Err (Failed err_line_limit)
            else match e with Closed => Ok s | _ => Err (ended e) end
  end.

Lemma position_none b l : position b l = None <-> b ∉ l.
Proof.
  induction l as [|c l IH]; simpl; [split; [intros _; apply not_elem_of_nil|done]|].
  rewrite not_elem_of_cons, <- IH. case_bool_decide; subst.
  - split; [done|by intros [? _]].
  - rewrite fmap_None. split; [by split|by intros [_ ?]].
Qed.

Lemma position_take b l p : position b l = Some p -> list.last (take (Z.to_nat (p + 1)) l) = Some b.
Proof.
  intros H. pose proof (position_range _ _ _ H) as Hr. replace (Z.to_nat (p + 1)) with (S (Z.to_nat p)) by lia.
  revert p H Hr. induction l as [|c l IH]; intros p; simpl; [done|]. case_bool_decide; subst.
  - intros [= <-] _. by rewrite take_0.
  - intros (q & Hq & ->)%fmap_Some _. pose proof (position_range _ _ _ Hq).
    replace (Z.to_nat (Z.succ q)) with (S (Z.to_nat q)) by lia. rewrite last_cons, (IH q Hq) by lia. done.
Qed.

Lemma read_line_loop_spec fuel scratch maximum_size r r' x :
  0 <= maximum_size < U64_MAX -> newline ∉ scratch -> len scratch <= maximum_size ->
  (length (stream r) < fuel)%nat -> read_line_loop fuel scratch maximum_size r = (r', x) ->
  ends r' = ends r /\ x = line_of maximum_size (scratch ++ stream r) (ends r) /\
  forall line, x = Ok line -> scratch ++ stream r = line ++ stream r'.
Proof.
  intros Hmax. revert scratch r. induction fuel as [|fuel IH]; intros scratch r Hn Hl Hf; [lia|].
  cbn [read_line_loop]. destruct (fill_buf r) as [r1 [available|s]] eqn:E; apply fill_buf_spec in E as (Hs & He & Hx).
  2: { destruct Hx as (Hnil & Hc & ->). intros [= <- <-]. split; [done|]. split; [|done].
       rewrite Hnil, app_nil_r. unfold line_of. rewrite (proj2 (position_none _ _) Hn).
       rewrite (proj2 (Z.ltb_ge _ _)) by lia. by destruct (ends r). }
  destruct Hx as [Hb Hnil]. pose proof (position_none newline scratch) as [_ Hpos]. specialize (Hpos Hn).
  destruct available as [|a av] eqn:Eav.
  { destruct (Hnil eq_refl) as [Hs0 Hc]. intros [= <- <-]. rewrite Hs0, Hs, Hs0, app_nil_r, Hc. split; [congruence|].
    split; [|intros line [= <-]; by rewrite app_nil_r]. unfold line_of. rewrite Hpos.
    by rewrite (proj2 (Z.ltb_ge _ _)) by lia. }
  rewrite <- Eav in *. clear Hnil. assert (Hav : 0 < len available) by (rewrite Eav, len_cons; pose proof (len_nonneg av); lia).
  clear a av Eav. unfold checked_add, checked_sub. rewrite (proj2 (Z.leb_le _ _)) by lia. cbn [mbind option_bind].
  rewrite (proj2 (Z.leb_le _ _)) by lia.
  assert (Hstream : stream r = available ++ concat (arriving r1)) by (rewrite <- Hs; unfold stream; by rewrite <- Hb).
  destruct (position newline available) as [p|] eqn:Ep.
  - pose proof (position_range _ _ _ Ep) as Hp.
    assert (Hline : position newline (scratch ++ stream r) = Some (len scratch + p)).
    { rewrite position_app_none, Hstream by done. by rewrite (position_app _ _ _ _ Ep). }
    unfold line_of. rewrite Hline. rewrite len_app, len_take by lia.
    destruct (Z.le_gt_cases (len scratch + p + 1) maximum_size) as [Hle|Hgt].
    + rewrite Z.min_l by lia. rewrite (proj2 (Z.ltb_ge _ _)) by lia. rewrite Z.eqb_refl.
      assert (Hlast : ends_with_newline (scratch ++ take (Z.to_nat (p + 1)) available) = true).
      { apply bool_decide_eq_true_2. by rewrite last_app, (position_take _ _ _ Ep). }
      rewrite Hlast. intros [= <- <-]. split; [done|]. rewrite (proj2 (Z.ltb_ge _ _)) by lia. split.
      * f_equal. replace (Z.to_nat (len scratch + p + 1)) with (length scratch + Z.to_nat (p + 1))%nat
          by (unfold len in *; lia). rewrite take_app_add. f_equal. by rewrite Hstream, take_app_Z by lia.
      * intros line [= <-]. rewrite stream_consume by (rewrite <- Hb; lia). rewrite Hs, Hstream, drop_app_Z by lia.
        rewrite <- (assoc_L (++) scratch), (assoc_L (++) (take _ _)), take_drop. done.
    + rewrite (proj2 (Z.ltb_lt _ _)) by lia. intros [= <- <-]. split; [done|].
      rewrite (proj2 (Z.ltb_lt _ _)) by lia. done.
  - rewrite len_app, len_take by lia. destruct (Z.le_gt_cases (len scratch + len available) maximum_size) as [Hle|Hgt].
    + rewrite !Z.min_l by lia. rewrite (proj2 (Z.ltb_ge _ _)) by lia.
      assert (Ht : take (Z.to_nat (len available)) available = available) by (apply take_ge; unfold len; lia).
      rewrite Ht. apply position_none in Ep.
      assert (Hn' : newline ∉ scratch ++ available) by (rewrite elem_of_app; tauto).
      assert (Hnl : ends_with_newline (scratch ++ available) = false).
      { apply bool_decide_eq_false_2. intros Hl'. apply Hn'. by apply last_Some_elem_of. }
      rewrite Hnl, andb_false_r. intros Hrun.
      assert (Hs' : stream (consume (len available) r1) = concat (arriving r1)).
      { rewrite stream_consume by (rewrite <- Hb; lia). rewrite Hs, Hstream. unfold len. by rewrite Nat2Z.id, drop_app_length. }
      apply IH in Hrun; [|done|rewrite len_app; lia|].
      * rewrite Hs' in Hrun. cbn [ends consume] in Hrun. rewrite He in Hrun. rewrite Hstream, (assoc_L (++)). done.
      * rewrite Hs'. rewrite Hstream, length_app in Hf. unfold len in Hav. lia.
    + rewrite (proj2 (Z.ltb_lt _ _)) by lia. intros [= <- <-]. split; [done|]. split; [|done].
      unfold line_of. rewrite position_app_none, Hstream by done. rewrite (position_app_none _ available) by done.
      destruct (position newline (concat (arriving r1))) as [q|] eqn:Eq; cbn [fmap option_fmap option_map].
      * apply position_range in Eq. by rewrite (proj2 (Z.ltb_lt _ _)) by lia.
      * rewrite !len_app. pose proof (len_nonneg (concat (arriving r1))). by rewrite (proj2 (Z.ltb_lt _ _)) by lia.
Qed.

Lemma read_bounded_line_spec maximum_size r r' x :
  0 <= maximum_size < U64_MAX -> read_bounded_line maximum_size r = (r', x) ->
  ends r' = ends r /\ x = line_of maximum_size (stream r) (ends r) /\
  forall line, x = Ok line -> stream r = line ++ stream r'.
Proof.
  intros Hm H. apply read_line_loop_spec in H; [done|done|apply not_elem_of_nil|change (len (@nil byte)) with 0; lia|lia].
Qed.

(** ** [read_exact] *)

Definition exactly (n : Z) (s : bytes) (e : ending) : result stop bytes :=
  if n <=? len s then Ok (take (Z.to_nat n) s) else Err (ended e).

Lemma read_exact_loop_spec fuel taken n r r' x :
  0 <= n -> (length (stream r) < fuel)%nat -> read_exact_loop fuel taken n r = (r', x) ->
  ends r' = ends r /\ x = (app taken) <$> exactly n (stream r) (ends r) /\
  forall payload, x = Ok payload -> stream r' = drop (Z.to_nat n) (stream r).
Proof.
  revert taken n r. induction fuel as [|fuel IH]; intros taken n r Hn Hf; [lia|]. cbn [read_exact_loop].
  destruct (Z.eqb_spec n 0) as [->|Hne].
  { intros [= <- <-]. unfold exactly. pose proof (len_nonneg (stream r)).
    rewrite (proj2 (Z.leb_le _ _)) by lia. split; [done|]. cbn. by rewrite app_nil_r. }
  destruct (fill_buf r) as [r1 [available|s]] eqn:E; apply fill_buf_spec in E as (Hs & He & Hx).
  2: { destruct Hx as (Hnil & Hc & ->). intros [= <- <-]. unfold exactly. rewrite Hnil. change (len (@nil byte)) with 0.
       rewrite (proj2 (Z.leb_gt _ _)) by lia. done. }
  destruct Hx as [Hb Hnil]. destruct available as [|a av] eqn:Eav.
  { destruct (Hnil eq_refl) as [Hs0 Hc]. intros [= <- <-]. unfold exactly. rewrite Hs0, Hc. change (len (@nil byte)) with 0.
    rewrite (proj2 (Z.leb_gt _ _)) by lia. split; [congruence|]. done. }
  rewrite <- Eav in *. clear Hnil. assert (Hav : 0 < len available) by (rewrite Eav, len_cons; pose proof (len_nonneg av); lia).
  clear a av Eav.
  assert (Hstream : stream r = available ++ concat (arriving r1)) by (rewrite <- Hs; unfold stream; by rewrite <- Hb).
  set (c := Z.min n (len available)). intros Hrun.
  assert (Hs' : stream (consume c r1) = drop (Z.to_nat c) (stream r)) by (rewrite stream_consume by (rewrite <- Hb; lia); by rewrite Hs).
  assert (Hlen : len (stream (consume c r1)) = len (stream r) - c).
  { rewrite Hs'. unfold len. rewrite length_drop. rewrite Hstream, length_app. unfold c, len in *. lia. }
  assert (Hc : 0 < c <= n) by lia. apply IH in Hrun; [|lia|unfold len in Hlen; lia]. destruct Hrun as (H1 & H2 & H3). cbn [ends consume] in H1, H2. rewrite He in H1, H2.
  split; [done|]. split.
  - rewrite H2. unfold exactly. rewrite Hlen. destruct (Z.leb_spec n (len (stream r))).
    + rewrite (proj2 (Z.leb_le (n - c) _)) by lia. cbn [fmap result_fmap]. f_equal. rewrite <- app_assoc. f_equal. rewrite Hs'.
      replace (Z.to_nat n) with (Z.to_nat c + Z.to_nat (n - c))%nat by lia.
      rewrite <- take_take_drop. f_equal. by rewrite Hstream, take_app_Z by lia.
    + by rewrite (proj2 (Z.leb_gt (n - c) _)) by lia.
  - intros payload Hp. rewrite (H3 payload Hp), Hs', drop_drop. f_equal. lia.
Qed.

Lemma read_exact_spec n r r' x :
  0 <= n -> read_exact n r = (r', x) ->
  ends r' = ends r /\ x = exactly n (stream r) (ends r) /\
  (forall payload, x = Ok payload -> stream r' = drop (Z.to_nat n) (stream r)).
Proof.
  intros Hn H. apply read_exact_loop_spec in H as (H1 & H2 & H3); [|done|lia]. split; [done|]. split; [|done].
  rewrite H2. by destruct (exactly n (stream r) (ends r)).
Qed.

(** ** Arguments *)

(** Limits that leave room for the arithmetic of [usize]. *)
Definition limits_fit (limits : RESPReadLimits) : Prop :=
  0 <= max_bulk_len limits < I64_MAX /\ 0 <= max_inline_len limits < U64_MAX /\ 0 <= max_frame_len limits.

(** The bytes end before the command does. *)
Definition cut_short (e : ending) (s : stop) : Prop :=
  match e with
  | Silent => s = Blocked
  | Broken e => s = Failed e
  | Closed => exists error, s = Failed error
  end.

Lemma cut_short_ended e : cut_short e (ended e).
Proof. destruct e; simpl; eauto. Qed.

Lemma no_crlf s : newline ∉ s -> line_content s = Err (invalid_data (bs "RESP line is missing its CRLF terminator")).
Proof.
  intros Hn. unfold line_content. destruct (strip_suffix crlf s) as [c|] eqn:E; [|done].
  apply strip_suffix_Some in E as ->. destruct Hn. apply elem_of_app. right. right. by left.
Qed.

Lemma bulk_header_range limits header n : bulk_header limits header = Ok n -> 0 <= n <= max_bulk_len limits.
Proof.
  unfold bulk_header. destruct (strip_prefix (bs "$") _) as [digits|]; [|done]. rstep.
  destruct (parse_decimal digits _) as [k|] eqn:E; [|done]. rstep. apply parse_decimal_range in E.
  destruct (Z.ltb_spec (max_bulk_len limits) k); [done|]. intros [= <-]. lia.
Qed.

(** What the decoder decided about the argument at [cursor] happens. *)
Definition argument_read (input : bytes) (e : ending) (d : result io_error (option (Z * Z * Z)))
    (out : Reader * result stop (bytes * Z)) : Prop :=
  ends out.1 = e /\
  match d with
  | Ok (Some (ps, pe, fe)) => out.2 = Ok (slice input ps pe, fe) /\ stream out.1 = drop (Z.to_nat fe) input
  | Ok None => exists s, out.2 = Err s /\ cut_short e s
  | Err error => out.2 = Err (Failed error)
  end.

Lemma read_payload_spec limits input cursor h n r :
  0 <= cursor -> 0 < h -> cursor + h <= len input -> 0 <= n -> cursor + h + n + 2 <= U64_MAX ->
  stream r = drop (Z.to_nat (cursor + h)) input ->
  argument_read input (ends r)
    (if max_frame_len limits <? cursor + h + n + 2 then Err err_frame_limit
     else if len input <? cursor + h + n + 2 then Ok None
     else if negb (bytes_eqb (slice input (cursor + h + n) (cursor + h + n + 2)) crlf) then Err err_bulk_crlf
     else match Utf8.from_utf8 (slice input (cursor + h) (cursor + h + n)) with
          | None => Err err_arg_utf8
          | Some _ => Ok (Some (cursor + h, cursor + h + n, cursor + h + n + 2))
          end)
    (if max_frame_len limits <? cursor + h + n + 2 then (r, Err (Failed err_frame_limit))
     else
       and_then (read_exact n r) (fun payload r =>
       and_then (read_exact 2 r) (fun terminator r =>
         if negb (bytes_eqb terminator crlf) then (r, Err (Failed err_bulk_crlf))
         else
           checked (ok_or (Utf8.from_utf8 payload) err_arg_utf8) r (fun argument =>
             (r, Ok (argument, cursor + h + n + 2)))))).
Proof.
  intros Hc Hh Hi Hn Hmax Hs. destruct (max_frame_len limits <? _); [done|].
  assert (Hlen : len (stream r) = len input - (cursor + h)) by (rewrite Hs; unfold len in *; rewrite length_drop; lia).
  destruct (read_exact n r) as [r1 x1] eqn:E1. apply read_exact_spec in E1 as (He1 & -> & H1); [|done].
  unfold exactly in *. rewrite Hlen in *. destruct (Z.leb_spec n (len input - (cursor + h))) as [Hle|Hgt].
  2: { rewrite (proj2 (Z.ltb_lt _ _)) by lia. cbn [and_then]. split; [done|]. eexists. split; [done|]. apply cut_short_ended. }
  specialize (H1 _ eq_refl). cbn [and_then]. destruct (read_exact 2 r1) as [r2 x2] eqn:E2.
  apply read_exact_spec in E2 as (He2 & -> & H2); [|lia]. unfold exactly in *.
  assert (Hs1 : stream r1 = drop (Z.to_nat (cursor + h + n)) input).
  { rewrite H1, Hs, drop_drop. f_equal. lia. }
  assert (Hlen1 : len (stream r1) = len input - (cursor + h + n)) by (rewrite Hs1; unfold len in *; rewrite length_drop; lia).
  rewrite Hlen1 in *. destruct (Z.leb_spec 2 (len input - (cursor + h + n))) as [Hle2|Hgt2].
  2: { rewrite (proj2 (Z.ltb_lt _ _)) by lia. cbn [and_then]. split; [cbn; congruence|]. eexists. split; [done|].
       rewrite He1. apply cut_short_ended. }
  rewrite (proj2 (Z.ltb_ge _ _)) by lia. specialize (H2 _ eq_refl). cbn [and_then].
  assert (Hterm : take (Z.to_nat 2) (stream r1) = slice input (cursor + h + n) (cursor + h + n + 2)).
  { unfold slice. rewrite Hs1. f_equal. lia. }
  assert (Hpay : take (Z.to_nat n) (stream r) = slice input (cursor + h) (cursor + h + n)).
  { unfold slice. rewrite Hs. f_equal. lia. }
  rewrite Hterm, Hpay. destruct (negb _); [split; [cbn; congruence|done]|].
  unfold Utf8.from_utf8. destruct (Utf8.valid _); cbn [ok_or checked]; (split; [cbn; congruence|]); [|done].
  split; [done|]. cbn [fst]. rewrite H2, Hs1, drop_drop. f_equal. lia.
Qed.

Lemma read_argument_spec limits input cursor r :
  limits_fit limits -> 0 <= cursor <= len input -> len input <= I64_MAX -> stream r = drop (Z.to_nat cursor) input ->
  argument_read input (ends r) (decode_argument limits input cursor) (read_argument limits cursor r).
Proof.
  intros (Hbulk & _ & _) Hc Hi Hs. unfold decode_argument, read_argument.
  destruct (read_bounded_line MAX_RESP_HEADER_LINE_SIZE r) as [r1 x] eqn:E.
  apply read_bounded_line_spec in E as (He & -> & Hl); [|unfold MAX_RESP_HEADER_LINE_SIZE, U64_MAX; lia].
  rewrite <- Hs. unfold line_of in *. assert (Hlen : len (stream r) = len input - cursor).
  { rewrite Hs. unfold len in *. rewrite length_drop. lia. }
  destruct (position newline (stream r)) as [p|] eqn:Ep.
  - pose proof (position_range _ _ _ Ep) as Hp. cbv zeta. destruct (MAX_RESP_HEADER_LINE_SIZE <? p + 1); [done|].
    specialize (Hl _ eq_refl). cbn [and_then]. rewrite len_take by lia. rewrite (proj2 (Z.eqb_neq _ _)) by lia.
    destruct (line_content _) as [header|error]; [|done]. rstep. cbn [checked].
    destruct (bulk_header limits header) as [n|error] eqn:En; [|done]. rstep. cbn [checked]. apply bulk_header_range in En.
    assert (Hu : I64_MAX + I64_MAX + 1 = U64_MAX) by reflexivity.
    unfold checked_add. rewrite !(proj2 (Z.leb_le _ U64_MAX)) by lia. rstep. cbn [checked mbind option_bind ok_or].
    rewrite !(proj2 (Z.leb_le _ U64_MAX)) by lia. rstep. cbn [checked].
    replace (cursor + (p + 1) + (n + 2)) with (cursor + (p + 1) + n + 2) by lia. rewrite <- He.
    rewrite (proj2 (Z.leb_le _ U64_MAX)) by lia. rstep.
    apply read_payload_spec; try lia.
    rewrite (rest_after _ _ _ Hl), Hs, drop_drop. f_equal. lia.
  - destruct (MAX_RESP_HEADER_LINE_SIZE <? len (stream r)); [done|].
    split; [by destruct (ends r) eqn:Ee; cbn in *; rewrite ?Ee in *; try (destruct (len (stream r) =? 0); [done|];
      rewrite no_crlf by (by apply position_none))|].
    destruct (ends r) eqn:Ee; cbn [and_then].
    + destruct (len (stream r) =? 0); [eexists; split; [done|]; by eexists|].
      rewrite no_crlf by (by apply position_none). eexists. split; [done|]. by eexists.
    + eexists. split; [done|]. done.
    + eexists. split; [done|]. done.
Qed.

(** ** Commands *)

Lemma read_arguments_spec limits input n cursor ranges command r :
  limits_fit limits -> 0 <= cursor <= len input -> len input <= I64_MAX -> stream r = drop (Z.to_nat cursor) input ->
  command = map (fun se : Z * Z => slice input se.1 se.2) ranges ->
  let out := read_arguments limits n cursor command r in
  ends out.1 = ends r /\
  match decode_arguments limits input n cursor ranges with
  | Ok (Some (ranges', c)) =>
    out.2 = Ok (map (fun se : Z * Z => slice input se.1 se.2) ranges') /\ stream out.1 = drop (Z.to_nat c) input
  | Ok None => exists s, out.2 = Err s /\ cut_short (ends r) s
  | Err error => out.2 = Err (Failed error)
  end.
Proof.
  intros Hfit. revert cursor ranges command r. induction n as [|n IH]; intros cursor ranges command r Hc Hi Hs ->;
    cbn [decode_arguments read_arguments]; [done|].
  pose proof (read_argument_spec limits input cursor r Hfit Hc Hi Hs) as [He Ha].
  destruct (read_argument limits cursor r) as [r1 x]. cbn [fst snd] in He, Ha.
  destruct (decode_argument limits input cursor) as [[[[ps pe] fe]|]|error] eqn:Ed; rstep.
  - destruct Ha as [-> Hs1]. cbn [and_then]. apply decode_argument_bounds in Ed; [|done].
    destruct (IH fe (ranges ++ [(ps, pe)]) (map (fun se : Z * Z => slice input se.1 se.2) ranges ++ [slice input ps pe]) r1)
      as [He' H]; [lia|done|done|by rewrite map_app|]. rewrite He in *. done.
  - destruct Ha as (s & -> & Hcut). cbn [and_then]. split; [done|]. by exists s.
  - by rewrite Ha.
Qed.

Lemma maximum_first_line_fit limits b :
  limits_fit limits -> 0 <= maximum_first_line_size limits b < U64_MAX.
Proof.
  intros (_ & H1 & H2). unfold maximum_first_line_size, MAX_RESP_HEADER_LINE_SIZE, U64_MAX in *.
  case_bool_decide; lia.
Qed.

(** The reader's answer, from the decoder's decision about the whole stream. *)
Definition command_read (limits : RESPReadLimits) (r : Reader) (out : Reader * result stop (option (list bytes))) : Prop :=
  ends out.1 = ends r /\
  match decode_buffered_command (stream r) limits with
  | Ok (Some (command, n)) => out.2 = Ok (Some command) /\ stream out.1 = drop (Z.to_nat n) (stream r)
  | Ok None =>
    (stream r = [] /\ ends r = Closed /\ out.2 = Ok None) \/
    (~ (stream r = [] /\ ends r = Closed) /\ exists s, out.2 = Err s /\ cut_short (ends r) s)
  | Err error => out.2 = Err (Failed error)
  end.

Lemma read_command_spec limits r :
  limits_fit limits -> len (stream r) <= I64_MAX -> command_read limits r (read_command_with_limits limits r).
Proof.
  intros Hfit Hlen. unfold read_command_with_limits, command_read.
  destruct (fill_buf r) as [r1 [available|s]] eqn:E; apply fill_buf_spec in E as (Hs & He & Hx); cbn [and_then].
  2: { destruct Hx as (Hnil & Hc & ->). rewrite Hnil. split; [done|]. cbn [decode_buffered_command].
       right. split; [by intros [_ ?]|]. eexists. split; [done|apply cut_short_ended]. }
  destruct Hx as [Hb Hnil]. destruct available as [|b av].
  { destruct (Hnil eq_refl) as [-> Hc]. split; [done|]. by left. }
  clear Hnil. assert (Hstream : stream r = b :: av ++ concat (arriving r1)).
  { rewrite <- Hs. unfold stream. by rewrite <- Hb. }
  rewrite <- Hs in *. rewrite <- He. clear Hs He r. rename r1 into r.
  destruct (read_bounded_line (maximum_first_line_size limits b) r) as [r1 x] eqn:E.
  apply read_bounded_line_spec in E as (He & -> & Hl); [|by apply maximum_first_line_fit]. unfold line_of in *.
  set (input := stream r) in *. unfold decode_buffered_command. destruct input as [|b' input'] eqn:Ei; [done|].
  assert (b' = b) as -> by congruence. rewrite <- Ei in *. assert (Hne : input <> []) by (by rewrite Ei).
  clearbody input. clear Ei input' Hstream Hb av. assert (Hcut : ~ (input = [] /\ ends r = Closed)) by (by intros [? _]).
  destruct (position newline input) as [p|] eqn:Ep.
  - pose proof (position_range _ _ _ Ep) as Hp. cbv zeta. destruct (maximum_first_line_size limits b <? p + 1); [done|].
    specialize (Hl _ eq_refl). cbn [and_then]. rewrite len_take by lia. rewrite (proj2 (Z.eqb_neq _ _)) by lia.
    pose proof (rest_after _ _ _ Hl) as Hs1.
    destruct (line_content _) as [first_line|error]; [|done]. rstep. cbn [checked].
    destruct (negb (bool_decide (b = x2a))).
    + by destruct (inline_command limits first_line) as [parts|error].
    + destruct (array_header limits first_line) as [n|error]; [|done]. rstep. cbn [checked].
      pose proof (read_arguments_spec limits input (Z.to_nat n) (p + 1) [] [] r1 Hfit ltac:(lia) Hlen Hs1 eq_refl)
        as [Ha Hr].
      destruct (read_arguments limits (Z.to_nat n) (p + 1) [] r1) as [r2 y]. cbn [fst snd] in Ha, Hr.
      destruct (decode_arguments limits input (Z.to_nat n) (p + 1) []) as [[[ranges c]|]|error]; rstep.
      * destruct Hr as [-> Hr]. cbn [and_then]. split; [cbn; congruence|done].
      * destruct Hr as (s & -> & Hr). cbn [and_then]. split; [cbn; congruence|]. right. split; [done|]. exists s. split; [done|congruence].
      * rewrite Hr. cbn [and_then]. split; [cbn; congruence|done].
  - destruct (maximum_first_line_size limits b <? len input); [done|]. destruct (ends r) eqn:Ee; cbn [and_then ended] in *.
    + assert (Hlp : len input <> 0) by (destruct input; [done|rewrite len_cons; pose proof (len_nonneg input); lia]).
      rewrite (proj2 (Z.eqb_neq _ _)) by done. rewrite no_crlf by (by apply position_none). split; [done|].
      right. split; [done|]. eexists. split; [done|]. by eexists.
    + split; [done|]. right. split; [done|]. by eexists.
    + split; [done|]. right. split; [done|]. by eexists.
Qed.

(** A read under time limits always returns: the command at the front of the
    stream when it is complete, and otherwise the end of the input or an error. *)
Lemma read_timed_spec limits r r' x :
  limits_fit limits -> len (stream r) <= I64_MAX -> read_command_with_timeouts limits true r = (r', x) ->
  ends r' = ends r /\
  match decode_buffered_command (stream r) limits with
  | Ok (Some (command, n)) => x = Ok (Some command) /\ stream r' = drop (Z.to_nat n) (stream r)
  | _ => x = Ok None \/ exists e, x = Err (Failed e)
  end.
Proof.
  unfold read_command_with_timeouts. intros Hfit Hlen. destruct (fill_buf r) as [r1 y] eqn:E.
  apply fill_buf_spec in E as (Hs & He & Hy). destruct y as [[|b av]|s]; intros Hrun.
  - injection Hrun as <- <-. destruct Hy as [_ Hnil]. destruct (Hnil eq_refl) as [-> _]. split; [done|by left].
  - pose proof (read_command_spec limits r1 Hfit ltac:(by rewrite Hs)) as [He' Hr]. rewrite Hs in Hr.
    destruct (read_command_with_limits limits r1) as [r2 z]. cbn [fst snd] in He', Hr.
    assert (r' = r2) as -> by (destruct z as [|[]]; congruence). split; [congruence|].
    destruct (decode_buffered_command (stream r) limits) as [[[command n]|]|error].
    + destruct Hr as [-> Hr]. by injection Hrun as <-.
    + destruct Hr as [(_ & _ & ->)|(_ & s & -> & Hc)]; [injection Hrun as <-; by left|]. right.
      destruct s as [e| |]; [injection Hrun as <-; by eexists..|].
      exfalso. clear -Hc. destruct (ends r1); simpl in Hc; [by destruct Hc|done|done].
    + subst z. injection Hrun as <-. right. by eexists.
  - destruct Hy as (Hnil & Hc & ->). rewrite Hnil. cbn [decode_buffered_command].
    destruct (ends r) eqn:Ee; cbn [ended] in Hrun; [done|injection Hrun as <- <-; split; [congruence|right; by eexists]..].
Qed.
