(* ===== verification/ReplicationWire.v ===== *)
(** * ReplicationWire: the records of the replication stream (src/main.rs)

    A committed batch or an entry of a full synchronization travels as a header
    frame and chunk frames of hexadecimal text; the handshake and the heartbeat
    are single lines.  What a writer sends is the list of its frames' bytes;
    every read has a time limit, so a read never waits for ever. *)

From Stdlib Require Import ZArith Lia.
From Stdlib Require Import Strings.Byte.
From stdpp Require Import base gmap list strings numbers.
From S2P Require Import Prelude Text Json JsonPath Value Shard Engine Store Persistence Model Codec Resp RespReader.

Open Scope Z_scope.

Definition REPLICATION_CHUNK_SIZE : Z := 256 * 1024.
Definition MAX_REPLICATION_FRAME_BULK_SIZE : Z := REPLICATION_CHUNK_SIZE * 2 + 64.

(** ** Hexadecimal text *)

Definition HEX : bytes := bs "0123456789abcdef".

Definition hex_digit (n : Z) : byte := nth (Z.to_nat n) HEX x00.

Definition hex_encode (b : bytes) : bytes :=
  flat_map (fun c => [hex_digit (Z.shiftr (byte_Z c) 4); hex_digit (Z.land (byte_Z c) 15)]) b.

Definition nibble (c : byte) : option Z :=
  let value := byte_Z c in
  if (48 <=? value) && (value <=? 57) then Some (value - 48)
  else if (97 <=? value) && (value <=? 102) then Some (value - 97 + 10)
  else if (65 <=? value) && (value <=? 70) then Some (value - 65 + 10)
  else None.

Definition err_hex : PersistenceError := PersistenceError_new (bs "Invalid hexadecimal payload").

(** The pairs of [chunks_exact(2)]. *)
Fixpoint hex_pairs (encoded : bytes) : result PersistenceError bytes :=
  match encoded with
  | a :: b :: rest =>
    high ← ok_or (nibble a) err_hex;
    low ← ok_or (nibble b) err_hex;
    decoded ← hex_pairs rest;
    Ok (Z_byte (Z.lor (Z.shiftl high 4) low) :: decoded)
  | _ => Ok []
  end.

Definition hex_decode (encoded : bytes) : result PersistenceError bytes :=
  if negb (len encoded mod 2 =? 0)
  then Err (PersistenceError_new (bs "Hex-encoded payload has an odd length"))
  else hex_pairs encoded.

(** ** Frames *)

Definition encode_replication_command (args : list bytes) : bytes :=
  bs "*" ++ print_Z (len args) ++ crlf
  ++ concat (map (fun arg => bs "$" ++ print_Z (len arg) ++ crlf ++ arg ++ crlf) args).

Record ChunkedReplicationRecord : Type := mkRecord {
  header : list bytes;
  chunk_command : bytes;
  payload : bytes
}.

(** [slice::chunks]: pieces of [n] bytes and a shorter last one; the fuel is the
    length. *)
Fixpoint chunks_from (fuel : nat) (n : nat) (l : bytes) : list bytes :=
  match fuel, l with
  | _, [] => []
  | O, _ => []
  | S fuel, _ => take n l :: chunks_from fuel n (drop n l)
  end.

Definition chunks (n : Z) (l : bytes) : list bytes := chunks_from (length l) (Z.to_nat n) l.

(** The writes of [write_chunked_replication_record], in order. *)
Definition write_chunked_replication_record (record : ChunkedReplicationRecord) : list bytes :=
  encode_replication_command (header record)
  :: map (fun chunk => encode_replication_command [chunk_command record; hex_encode chunk])
       (chunks REPLICATION_CHUNK_SIZE (payload record)).

Definition REPLICATION_LIMITS : RESPReadLimits :=
  mkLimits 4 MAX_REPLICATION_FRAME_BULK_SIZE 1024 (MAX_REPLICATION_FRAME_BULK_SIZE + 4096).

Definition read_replication_command_with_idle (r : Reader) : Reader * result stop (option (list bytes)) :=
  read_command_with_timeouts REPLICATION_LIMITS true r.
Definition read_replication_command (r : Reader) : Reader * result stop (option (list bytes)) :=
  read_replication_command_with_idle r.

(** ** Errors of the upstream connection *)

Definition upstream_failure_counts_as_unreachable (e : io_error) : bool :=
  match kind e with InvalidData => false | _ => true end.

Definition upstream_io_persistence_error (context : bytes) (e : io_error) : PersistenceError :=
  let m := context ++ bs ": " ++ message e in
  if upstream_failure_counts_as_unreachable e then PersistenceError_upstream_unavailable m
  else PersistenceError_new m.

(** A read under a time limit stops only with an error. *)
Definition upstream_stop (context : bytes) (s : stop) : PersistenceError :=
  match s with
  | Failed e => upstream_io_persistence_error context e
  | Blocked | OutOfFuel => PersistenceError_new context
  end.

Section Wire.
Context {JN : JsonNumber} {SJ : SerdeJson} {HO : HashOrder}.

(** ** Records *)

Definition APPLYEFFECT : bytes := bs "APPLYEFFECT".
Definition EFFECTCHUNK : bytes := bs "EFFECTCHUNK".
Definition FULLSYNCENTRY : bytes := bs "FULLSYNCENTRY".
Definition FULLSYNCCHUNK : bytes := bs "FULLSYNCCHUNK".

Definition err_zero_sequence : PersistenceError :=
  PersistenceError_new (bs "Replication effects require a non-zero sequence").

Definition encode_replication_effect (sequence : Z) (batch : CommittedBatch)
  : result PersistenceError ChunkedReplicationRecord :=
  if sequence =? 0 then Err err_zero_sequence
  else
    payload ← encode_committed_batch batch;
    if MAX_BINLOG_RECORD_SIZE <? len payload
    then Err (PersistenceError_new (bs "Replication effect exceeds the format limit"))
    else Ok (mkRecord [APPLYEFFECT; print_Z sequence; print_Z (len payload)] EFFECTCHUNK payload).

Definition decode_replication_effect (clk : clock) (sequence encoded : bytes)
  : result PersistenceError (Z * CommittedBatch) :=
  sequence ← ok_or (parse_u64 sequence) (PersistenceError_new (bs "Invalid replication effect sequence"));
  if sequence =? 0 then Err err_zero_sequence
  else batch ← decode_committed_batch clk encoded; Ok (sequence, batch).

Definition encode_full_sync_entry (key : bytes) (entry : DataEntry)
  : result PersistenceError ChunkedReplicationRecord :=
  payload ← encode_snapshot_entry key entry;
  Ok (mkRecord [FULLSYNCENTRY; print_Z (len payload)] FULLSYNCCHUNK payload).

(** ** Reading records *)

Definition err_length_limit : PersistenceError :=
  PersistenceError_new (bs "Replication record length exceeds the format limit").

(** Every chunk has a byte, so [expected_length] rounds and one more are
    enough; [None] stands for more. *)
Fixpoint read_chunks (fuel : nat) (expected_length : Z) (command : bytes) (collected : bytes) (r : Reader)
  : option (Reader * result PersistenceError bytes) :=
  match fuel with
  | O => None
  | S fuel =>
    if expected_length <=? len collected then Some (r, Ok collected)
    else
      match read_replication_command r with
      | (r, Ok None) =>
        Some (r, Err (PersistenceError_upstream_unavailable
                        (bs "Master disconnected during a chunked replication record")))
      | (r, Err s) => Some (r, Err (upstream_stop (bs "Unable to read a replication chunk") s))
      | (r, Ok (Some [name; text])) =>
        if negb (bytes_eqb name command)
        then Some (r, Err (PersistenceError_new (bs "Master sent an unexpected replication chunk frame")))
        else
          match hex_decode text with
          | Err error => Some (r, Err error)
          | Ok chunk =>
            if (len chunk =? 0) || (REPLICATION_CHUNK_SIZE <? len chunk)
            then Some (r, Err (PersistenceError_new (bs "Replication chunk length exceeds the protocol limit")))
            else
              match checked_add (len collected) (len chunk) with
              | None => Some (r, Err (PersistenceError_new (bs "Replication record length overflow")))
              | Some new_length =>
                if expected_length <? new_length
                then Some (r, Err (PersistenceError_new
                       (bs "Replication chunks exceed the declared record length")))
                else read_chunks fuel expected_length command (collected ++ chunk) r
              end
          end
      | (r, Ok (Some _)) =>
        Some (r, Err (PersistenceError_new (bs "Master sent an unexpected replication chunk frame")))
      end
  end.

Definition read_chunked_replication_payload (expected_length maximum_length : Z) (command : bytes) (r : Reader)
  : option (Reader * result PersistenceError bytes) :=
  if (expected_length =? 0) || (maximum_length <? expected_length) then Some (r, Err err_length_limit)
  else read_chunks (S (Z.to_nat expected_length)) expected_length command [] r.

Definition read_full_sync_entry (now : Z) (r : Reader)
  : option (Reader * result PersistenceError (bytes * DataEntry)) :=
  match read_replication_command r with
  | (r, Ok None) =>
    Some (r, Err (PersistenceError_upstream_unavailable (bs "Master disconnected during full synchronization")))
  | (r, Err s) => Some (r, Err (upstream_stop (bs "Unable to read full synchronization entry") s))
  | (r, Ok (Some [name; length])) =>
    if negb (bytes_eqb name FULLSYNCENTRY)
    then Some (r, Err (PersistenceError_new (bs "Master sent an unexpected full synchronization frame")))
    else
      match parse_usize length with
      | None => Some (r, Err (PersistenceError_new (bs "Invalid full synchronization entry length")))
      | Some expected_length =>
        '(r, received) ← read_chunked_replication_payload expected_length MAX_SNAPSHOT_RECORD_SIZE FULLSYNCCHUNK r;
        Some (r, payload ← received; decode_snapshot_entry now payload)
      end
  | (r, Ok (Some _)) =>
    Some (r, Err (PersistenceError_new (bs "Master sent an unexpected full synchronization frame")))
  end.

Definition read_replication_effect (clk : clock) (frame : list bytes) (r : Reader)
  : option (Reader * result PersistenceError (Z * CommittedBatch)) :=
  match frame with
  | [name; sequence; length] =>
    if negb (bytes_eqb name APPLYEFFECT)
    then Some (r, Err (PersistenceError_new (bs "Master sent an unexpected replication effect frame")))
    else
      match parse_usize length with
      | None => Some (r, Err (PersistenceError_new (bs "Invalid replication effect length")))
      | Some expected_length =>
        '(r, received) ← read_chunked_replication_payload expected_length MAX_BINLOG_RECORD_SIZE EFFECTCHUNK r;
        Some (r, payload ← received; decode_replication_effect clk sequence payload)
      end
  | _ => Some (r, Err (PersistenceError_new (bs "Master sent an unexpected replication effect frame")))
  end.

End Wire.

(** ** The handshake *)

Inductive ReplicaSyncHandshake : Type :=
| FullSync (replid sequence entry_count : Z)
| PartialSync (replid requested_sequence : Z).

Definition parse_replid (value : bytes) : result PersistenceError Z :=
  replid ← ok_or (parse_u64 value) (PersistenceError_new (bs "Invalid master replication ID"));
  if replid =? 0 then Err (PersistenceError_new (bs "Master replication ID must be non-zero")) else Ok replid.

Definition err_handshake : PersistenceError :=
  PersistenceError_new (bs "Unexpected or malformed replication handshake").

Definition parse_replica_sync_handshake (marker : list bytes) : result PersistenceError ReplicaSyncHandshake :=
  match marker with
  | [name; replid; sequence; entry_count] =>
    if negb (bytes_eqb name (bs "+FULLRESYNC3")) then Err err_handshake
    else
      replid ← parse_replid replid;
      sequence ← ok_or (parse_u64 sequence) (PersistenceError_new (bs "Invalid full synchronization sequence"));
      entry_count ← ok_or (parse_usize entry_count)
        (PersistenceError_new (bs "Invalid full synchronization entry count"));
      if MAX_KEYS <? entry_count
      then Err (PersistenceError_new (bs "Full synchronization entry count exceeds the configured key limit"))
      else Ok (FullSync replid sequence entry_count)
  | [name; replid; requested_sequence] =>
    if negb (bytes_eqb name (bs "+CONTINUE3")) then Err err_handshake
    else
      replid ← parse_replid replid;
      requested_sequence ← ok_or (parse_u64 requested_sequence)
        (PersistenceError_new (bs "Invalid partial synchronization sequence"));
      Ok (PartialSync replid requested_sequence)
  | _ => Err err_handshake
  end.

Definition parse_replica_sync_done (marker : list bytes) (expected_replid : Z) : result PersistenceError Z :=
  match marker with
  | [name; replid; sequence] =>
    if negb (bytes_eqb name (bs "+SYNCDONE3"))
    then Err (PersistenceError_new (bs "Missing or malformed synchronization completion marker"))
    else
      replid ← ok_or (parse_u64 replid) (PersistenceError_new (bs "Invalid completion replication ID"));
      if negb (replid =? expected_replid)
      then Err (PersistenceError_new
                  (bs "Synchronization completion replication ID does not match the handshake"))
      else ok_or (parse_u64 sequence) (PersistenceError_new (bs "Invalid synchronization completion sequence"))
  | _ => Err (PersistenceError_new (bs "Missing or malformed synchronization completion marker"))
  end.

Definition is_authentication_rejection (frame : list bytes) : bool :=
  match frame with
  | value :: _ => eq_ignore_ascii_case value (bs "-NOAUTH") || eq_ignore_ascii_case value (bs "-WRONGPASS")
  | [] => false
  end.

Definition parse_upstream_heartbeat (frame : list bytes) (installed_sequence : Z) : result PersistenceError bool :=
  match frame with
  | name :: rest =>
    if negb (bytes_eqb name (bs "REPLCONF")) then Ok false
    else
      match rest with
      | [verb; sequence] =>
        if negb (bytes_eqb verb (bs "PING"))
        then Err (PersistenceError_new (bs "Master sent a malformed replication heartbeat"))
        else
          heartbeat_sequence ← ok_or (parse_u64 sequence)
            (PersistenceError_new (bs "Master sent an invalid heartbeat sequence"));
          if negb (heartbeat_sequence =? installed_sequence)
          then Err (PersistenceError_new
                 (bs "Replication heartbeat sequence mismatch: installed " ++ print_Z installed_sequence
                  ++ bs ", received " ++ print_Z heartbeat_sequence))
          else Ok true
      | _ => Err (PersistenceError_new (bs "Master sent a malformed replication heartbeat"))
      end
  | [] => Ok false
  end.

(** The lines the master writes. *)
Definition full_sync_marker (replid sequence entry_count : Z) : bytes :=
  bs "+FULLRESYNC3 " ++ print_Z replid ++ bs " " ++ print_Z sequence ++ bs " " ++ print_Z entry_count ++ crlf.
Definition continue_marker (replid requested_offset : Z) : bytes :=
  bs "+CONTINUE3 " ++ print_Z replid ++ bs " " ++ print_Z requested_offset ++ crlf.
Definition sync_done_marker (replid last_sent_offset : Z) : bytes :=
  bs "+SYNCDONE3 " ++ print_Z replid ++ bs " " ++ print_Z last_sent_offset ++ crlf.
Definition heartbeat_frame (last_sent_offset : Z) : bytes := bs "REPLCONF PING " ++ print_Z last_sent_offset ++ crlf.

(** * What is sent is what is received

    A record written to a connection is read back as it was, however the
    connection cuts its bytes, and what follows the record is left. *)

From S2P Require Import EngineWhole CodecSpec.

(** ** Hexadecimal text *)

Lemma hex_encode_cons c b :
  hex_encode (c :: b) = hex_digit (Z.shiftr (byte_Z c) 4) :: hex_digit (Z.land (byte_Z c) 15) :: hex_encode b.
Proof. done. Qed.

Lemma hex_byte c :
  exists high low, nibble (hex_digit (Z.shiftr (byte_Z c) 4)) = Some high /\
    nibble (hex_digit (Z.land (byte_Z c) 15)) = Some low /\ Z_byte (Z.lor (Z.shiftl high 4) low) = c.
Proof. destruct c; eexists _, _; (split; [reflexivity|]); (split; [reflexivity|reflexivity]). Qed.

Lemma len_hex b : len (hex_encode b) = 2 * len b.
Proof. induction b as [|c b IH]; [done|]. rewrite hex_encode_cons, !len_cons, IH. lia. Qed.

Lemma hex_roundtrip b : hex_decode (hex_encode b) = Ok b.
Proof.
  unfold hex_decode. rewrite len_hex, Z.mul_comm, Z.mod_mul by lia. cbn [Z.eqb negb].
  induction b as [|c b IH]; [done|]. rewrite hex_encode_cons. cbn [hex_pairs].
  destruct (hex_byte c) as (high & low & -> & -> & Hc). rstep. rewrite IH. rstep. by rewrite Hc.
Qed.

Lemma hex_valid b : Utf8.valid (hex_encode b) = true.
Proof.
  induction b as [|c b IH]; [done|]. rewrite hex_encode_cons.
  change (Utf8.valid ([hex_digit (Z.shiftr (byte_Z c) 4); hex_digit (Z.land (byte_Z c) 15)] ++ hex_encode b) = true).
  apply Utf8.valid_app; [|done]. by destruct c.
Qed.

(** ** Chunks *)

Lemma chunks_from_spec fuel n l :
  (0 < n)%nat -> (length l <= fuel)%nat ->
  concat (chunks_from fuel n l) = l /\ Forall (fun c => 0 < len c <= Z.of_nat n) (chunks_from fuel n l).
Proof.
  intros Hn. revert l. induction fuel as [|fuel IH]; intros l Hl.
  { destruct l; [done|]. simpl in Hl. lia. }
  destruct l as [|b l]; [done|]. cbn [chunks_from concat]. set (l' := b :: l) in *.
  assert (Hpos : (0 < length l')%nat) by (simpl; lia).
  destruct (IH (drop n l')) as [H1 H2]; [rewrite length_drop; lia|]. rewrite H1, take_drop. split; [done|].
  constructor; [|done]. unfold len. rewrite length_take. lia.
Qed.

Lemma chunks_spec n l :
  0 < n -> concat (chunks n l) = l /\ Forall (fun c => 0 < len c <= n) (chunks n l).
Proof.
  intros Hn. destruct (chunks_from_spec (length l) (Z.to_nat n) l) as [H1 H2]; [lia|done|].
  split; [done|]. eapply list.Forall_impl; [exact H2|]. cbn. intros c Hc. lia.
Qed.

(** ** Frames *)

Lemma replication_limits_fit : limits_fit REPLICATION_LIMITS.
Proof. vm_compute. repeat split; discriminate. Qed.

(** A frame that the replication limits admit. *)
Definition frame_fits (args : list bytes) : Prop :=
  0 < len args <= 4 /\ Forall (fun a => len a <= MAX_REPLICATION_FRAME_BULK_SIZE /\ Utf8.valid a = true) args /\
  len (command_frame args) <= MAX_REPLICATION_FRAME_BULK_SIZE + 4096.

Lemma read_timed limits r :
  limits_fit limits -> len (stream r) <= I64_MAX ->
  match decode_buffered_command (stream r) limits with
  | Ok (Some (command, n)) =>
    exists r', read_command_with_timeouts limits true r = (r', Ok (Some command)) /\
      stream r' = drop (Z.to_nat n) (stream r) /\ ends r' = ends r
  | _ => True
  end.
Proof.
  intros Hfit Hlen. destruct (read_command_with_timeouts limits true r) as [r' x] eqn:E.
  apply read_timed_spec in E as [He H]; [|done|done]. destruct (decode_buffered_command _ _) as [[[]|]|]; [|done|done].
  destruct H as [-> Hs]. by exists r'.
Qed.

Lemma frame_read args rest r :
  frame_fits args -> stream r = encode_replication_command args ++ rest -> len (stream r) <= I64_MAX ->
  exists r', read_replication_command r = (r', Ok (Some args)) /\ stream r' = rest /\ ends r' = ends r.
Proof.
  intros (Ha & Hargs & Hsize) Hs Hlen. pose proof (read_timed REPLICATION_LIMITS r replication_limits_fit Hlen) as H.
  change (encode_replication_command args) with (command_frame args) in Hs.
  rewrite Hs, (decode_frame REPLICATION_LIMITS), <- Hs in H; [|exact Ha|unfold U64_MAX; lia|exact Hargs|exact Hsize|].
  2: { unfold MAX_REPLICATION_FRAME_BULK_SIZE, REPLICATION_CHUNK_SIZE, U64_MAX in *. lia. }
  destruct H as (r' & Hr & Hs' & He). exists r'. split; [done|]. split; [|done].
  rewrite Hs', Hs. unfold len. by rewrite Nat2Z.id, drop_app_length.
Qed.

Lemma encoded_argument_size a : len a <= U64_MAX -> len (encoded_argument a) <= 25 + len a.
Proof.
  intros Ha. unfold encoded_argument. rewrite !len_app. change (len crlf) with 2. change (len (bs "$")) with 1.
  pose proof (print_Z_length (len a) ltac:(pose proof (len_nonneg a); lia)). lia.
Qed.

Lemma encoded_size args total :
  Forall (fun a => len a <= MAX_REPLICATION_FRAME_BULK_SIZE) args -> zsum (map len args) <= total ->
  len (encoded args) <= 25 * len args + total.
Proof.
  intros H. revert total. induction H as [|a l Ha _ IH]; intros total Ht; unfold zsum in *; simpl in Ht.
  { change (len (encoded [])) with 0. change (len (@nil bytes)) with 0. lia. }
  change (encoded (a :: l)) with (encoded_argument a ++ encoded l). rewrite len_app, len_cons.
  pose proof (encoded_argument_size a) as Hs. specialize (IH (total - len a) ltac:(lia)).
  unfold MAX_REPLICATION_FRAME_BULK_SIZE, REPLICATION_CHUNK_SIZE, U64_MAX in *. lia.
Qed.

(** At most four arguments, all but the room of a chunk short. *)
Lemma small_frame_fits args :
  0 < len args <= 4 -> Forall (fun a => len a <= MAX_REPLICATION_FRAME_BULK_SIZE /\ Utf8.valid a = true) args ->
  zsum (map len args) <= MAX_REPLICATION_FRAME_BULK_SIZE + 3900 -> frame_fits args.
Proof.
  intros Ha Hargs Hsum. split; [done|]. split; [done|]. unfold command_frame. rewrite !len_app.
  change (len crlf) with 2. change (len (bs "*")) with 1.
  pose proof (print_Z_length (len args) ltac:(unfold U64_MAX; lia)).
  pose proof (encoded_size args _ ltac:(eapply list.Forall_impl; [exact Hargs|by intros ? []]) Hsum). lia.
Qed.

Lemma chunk_frame_fits name chunk :
  len name <= 16 -> Utf8.valid name = true -> len chunk <= REPLICATION_CHUNK_SIZE ->
  frame_fits [name; hex_encode chunk].
Proof.
  intros Hn Hv Hc. apply small_frame_fits; [vm_compute; split; congruence| |].
  - repeat constructor; rewrite ?len_hex; try done; try apply hex_valid;
      unfold MAX_REPLICATION_FRAME_BULK_SIZE, REPLICATION_CHUNK_SIZE in *; lia.
  - cbn [map zsum foldr]. rewrite len_hex. unfold MAX_REPLICATION_FRAME_BULK_SIZE, REPLICATION_CHUNK_SIZE in *. lia.
Qed.

(** ** Records *)

Definition chunk_frames (command : bytes) (l : list bytes) : bytes :=
  concat (map (fun chunk => encode_replication_command [command; hex_encode chunk]) l).

Lemma read_chunks_spec fuel expected command collected l rest r :
  Forall (fun c => 0 < len c <= REPLICATION_CHUNK_SIZE) l -> len command <= 16 -> Utf8.valid command = true ->
  expected = len collected + len (concat l) -> expected <= U64_MAX -> (length l < fuel)%nat ->
  stream r = chunk_frames command l ++ rest -> len (stream r) <= I64_MAX ->
  exists r', read_chunks fuel expected command collected r = Some (r', Ok (collected ++ concat l)) /\
    stream r' = rest /\ ends r' = ends r.
Proof.
  intros Hl Hc Hv. revert fuel collected r. induction Hl as [|c l [Hpos Hle] Hl IH];
    intros fuel collected r He Hu Hf Hs Hlen; (destruct fuel as [|fuel]; [simpl in Hf; lia|]); cbn [read_chunks].
  - change (concat []) with (@nil byte) in *. change (len (@nil byte)) with 0 in He.
    rewrite (proj2 (Z.leb_le _ _)) by lia. exists r. by rewrite app_nil_r.
  - cbn [concat] in He. rewrite len_app in He. pose proof (len_nonneg (concat l)).
    rewrite (proj2 (Z.leb_gt _ _)) by lia. cbn [chunk_frames map concat] in Hs. fold (chunk_frames command l) in Hs.
    rewrite <- app_assoc in Hs.
    destruct (frame_read [command; hex_encode c] (chunk_frames command l ++ rest) r) as (r1 & E & Hs1 & He1);
      [by apply chunk_frame_fits|done|done|].
    rewrite E, bytes_eqb_refl, hex_roundtrip. cbn [negb]. rewrite (proj2 (Z.eqb_neq _ _)) by lia.
    rewrite (proj2 (Z.ltb_ge _ _)) by lia. cbn [orb]. unfold checked_add. rewrite (proj2 (Z.leb_le _ _)) by lia.
    rewrite (proj2 (Z.ltb_ge _ _)) by lia.
    destruct (IH fuel (collected ++ c) r1) as (r' & E' & Hs' & He'); [rewrite len_app; lia|done|simpl in Hf; lia|done| |].
    { apply (f_equal len) in Hs. rewrite len_app in Hs. rewrite Hs1.
      pose proof (len_nonneg (encode_replication_command [command; hex_encode c])). lia. }
    exists r'. rewrite E'. cbn [concat]. rewrite <- app_assoc. split; [done|]. split; [done|congruence].
Qed.

(** The payload of a record, from a connection that delivers its chunk frames. *)
Lemma read_payload record maximum rest r :
  0 < len (payload record) <= maximum -> len (chunk_command record) <= 16 -> Utf8.valid (chunk_command record) = true ->
  stream r = concat (tail (write_chunked_replication_record record)) ++ rest -> len (stream r) <= I64_MAX ->
  maximum <= U64_MAX ->
  exists r', read_chunked_replication_payload (len (payload record)) maximum (chunk_command record) r =
      Some (r', Ok (payload record)) /\ stream r' = rest /\ ends r' = ends r.
Proof.
  intros Hp Hn Hv Hs Hlen Hmax. unfold read_chunked_replication_payload.
  rewrite (proj2 (Z.eqb_neq _ _)) by lia. rewrite (proj2 (Z.ltb_ge _ _)) by lia. cbn [orb].
  destruct (chunks_spec REPLICATION_CHUNK_SIZE (payload record) ltac:(done)) as [Hc Hl].
  set (l := chunks REPLICATION_CHUNK_SIZE (payload record)) in *.
  assert (Hcount : (length l <= length (concat l))%nat).
  { clearbody l. clear -Hl. induction Hl as [|c l [H _] _ IH]; [done|]. cbn [concat length]. rewrite length_app.
    unfold len in H. lia. }
  destruct (read_chunks_spec (S (Z.to_nat (len (payload record)))) (len (payload record)) (chunk_command record) [] l rest r)
    as (r' & E & H); try done.
  - by rewrite Hc.
  - lia.
  - rewrite Hc in Hcount. unfold len. lia.
  - exists r'. rewrite E, Hc. done.
Qed.

(** ** Lines of words *)

Definition word_ok (w : bytes) : Prop :=
  w <> [] /\ Forall (fun c => is_ascii_whitespace c = false) w /\ Utf8.valid w = true.

Fixpoint join_words (words : list bytes) : bytes :=
  match words with
  | [] => []
  | [w] => w
  | w :: rest => w ++ x20 :: join_words rest
  end.

Lemma split_word cur w rest :
  Forall (fun c => is_ascii_whitespace c = false) w ->
  split_ascii_whitespace_from cur (w ++ rest) = split_ascii_whitespace_from (rev w ++ cur) rest.
Proof.
  intros H. revert cur. induction H as [|c w Hc Hw IH]; intros cur; [done|]. cbn [app split_ascii_whitespace_from].
  rewrite Hc, IH. cbn [rev]. by rewrite <- app_assoc.
Qed.

Lemma split_words words : Forall word_ok words -> split_ascii_whitespace (join_words words) = words.
Proof.
  unfold split_ascii_whitespace. induction 1 as [|w words (Hne & Hw & _) Hws IH]; [done|].
  assert (Hrev : forall tl, match rev w ++ [] with [] => tl | _ => rev (rev w ++ []) :: tl end = w :: tl).
  { intros tl. rewrite app_nil_r. destruct (rev w) as [|c l] eqn:E; [|by rewrite <- E, rev_involutive].
    apply (f_equal (@rev byte)) in E. rewrite rev_involutive in E. done. }
  destruct words as [|w2 words].
  - cbn [join_words]. rewrite <- (app_nil_r w) at 1. rewrite split_word by done. cbn [split_ascii_whitespace_from]. apply Hrev.
  - change (join_words (w :: w2 :: words)) with (w ++ x20 :: join_words (w2 :: words)). rewrite split_word by done.
    cbn [split_ascii_whitespace_from]. change (is_ascii_whitespace x20) with true. cbn match. rewrite IH. apply Hrev.
Qed.

Lemma join_valid words : Forall word_ok words -> Utf8.valid (join_words words) = true.
Proof.
  induction 1 as [|w words (_ & _ & Hv) Hws IH]; [done|]. destruct words as [|w2 words]; [done|].
  change (Utf8.valid (w ++ [x20] ++ join_words (w2 :: words)) = true).
  apply Utf8.valid_app; [done|]. by apply Utf8.valid_app.
Qed.

Lemma join_no_newline words : Forall word_ok words -> newline ∉ join_words words.
Proof.
  assert (Hw : forall w, word_ok w -> newline ∉ w).
  { intros w (_ & Hf & _) Hin. rewrite list.Forall_forall in Hf. specialize (Hf _ Hin). discriminate Hf. }
  induction 1 as [|w words Hok Hws IH]; [apply not_elem_of_nil|]. destruct words as [|w2 words]; [by apply Hw|].
  change (join_words (w :: w2 :: words)) with (w ++ [x20] ++ join_words (w2 :: words)).
  rewrite !elem_of_app, list_elem_of_singleton. intros [H|[H|H]]; [by apply (Hw w)|done|done].
Qed.

(** A line of words is decoded and read as the words. *)
Lemma decode_words limits words rest c w0 words0 :
  words = (c :: w0) :: words0 -> c <> x2a -> Forall word_ok words -> len words <= max_array_len limits ->
  len (join_words words) + 2 <= Z.min (max_inline_len limits) (max_frame_len limits) ->
  decode_buffered_command (join_words words ++ crlf ++ rest) limits = Ok (Some (words, len (join_words words) + 2)).
Proof.
  intros Hwords Hc Hok Hn Hlen.
  assert (Hline : exists tl, join_words words = c :: tl).
  { subst words. destruct words0; [by exists w0|]. eexists. cbn [join_words app]. done. }
  destruct Hline as [tl Htl]. set (line := join_words words) in *.
  unfold decode_buffered_command. rewrite Htl. cbn [app]. rewrite <- Htl in *.
  change (c :: tl ++ crlf ++ rest) with ((c :: tl) ++ crlf ++ rest). rewrite <- Htl. clear Htl tl.
  replace (line ++ crlf ++ rest) with ((line ++ [x0d]) ++ newline :: rest) by (by rewrite <- app_assoc).
  rewrite position_first. 2: { rewrite elem_of_app, list_elem_of_singleton. intros [?|?]; [by apply (join_no_newline words)|done]. }
  unfold maximum_first_line_size. rewrite bool_decide_eq_false_2 by done. rewrite len_app. change (len [x0d]) with 1.
  rewrite (proj2 (Z.ltb_ge _ _)) by lia.
  assert (Ht : take (Z.to_nat (len line + 1 + 1)) ((line ++ [x0d]) ++ newline :: rest) = line ++ crlf).
  { replace (Z.to_nat (len line + 1 + 1)) with (length (line ++ crlf)) by (rewrite length_app; unfold len; simpl; lia).
    replace ((line ++ [x0d]) ++ newline :: rest) with ((line ++ crlf) ++ rest) by (by rewrite <- !app_assoc).
    apply take_app_length. }
  rewrite Ht. unfold line_content. rewrite strip_suffix_app. rstep. cbn [negb]. unfold inline_command.
  unfold Utf8.from_utf8. unfold line in *. rewrite (join_valid words) by done. rstep. rewrite split_words by done.
  rewrite bool_decide_eq_false_2 by (by subst words). rewrite (proj2 (Z.ltb_ge _ _)) by done. rstep.
  do 3 f_equal. lia.
Qed.

Lemma after_line (line rest : bytes) : drop (Z.to_nat (len line + 2)) (line ++ crlf ++ rest) = rest.
Proof.
  replace (Z.to_nat (len line + 2)) with (length (line ++ crlf)) by (rewrite length_app; unfold len; simpl; lia).
  rewrite app_assoc. apply drop_app_length.
Qed.

Lemma read_words words rest r c w0 words0 :
  words = (c :: w0) :: words0 -> c <> x2a -> Forall word_ok words -> len words <= 4 -> len (join_words words) <= 1000 ->
  stream r = join_words words ++ crlf ++ rest -> len (stream r) <= I64_MAX ->
  exists r', read_replication_command r = (r', Ok (Some words)) /\ stream r' = rest /\ ends r' = ends r.
Proof.
  intros Hwords Hc Hok Hn Hlen Hs Hmax. pose proof (read_timed REPLICATION_LIMITS r replication_limits_fit Hmax) as H.
  rewrite Hs, (decode_words _ _ _ _ _ _ Hwords Hc Hok), <- Hs in H; [|done|].
  - destruct H as (r' & Hr & Hs' & He). exists r'. split; [done|]. split; [|done]. by rewrite Hs', Hs, after_line.
  - change (Z.min (max_inline_len REPLICATION_LIMITS) (max_frame_len REPLICATION_LIMITS)) with 1024. lia.
Qed.

(** ** Numbers as words *)

Lemma print_Z_word n : 0 <= n -> word_ok (print_Z n).
Proof.
  intros Hn. destruct (print_Z_spec n Hn) as (d & ds & -> & Hd & _). split; [done|]. split; [|by apply valid_digits].
  eapply list.Forall_impl; [exact Hd|]. intros c. by destruct c.
Qed.

Lemma parse_u64_print n : 0 <= n <= U64_MAX -> parse_u64 (print_Z n) = Some n.
Proof. apply parse_print_unsigned. Qed.

(** ** Records through a connection *)

Section Records.
Context {JN : JsonNumber} {SJ : SerdeJson} {HO : HashOrder}.

(** A header of words and its payload. *)
Lemma read_record record maximum rest r :
  frame_fits (header record) -> 0 < len (payload record) <= maximum -> maximum <= U64_MAX ->
  len (chunk_command record) <= 16 -> Utf8.valid (chunk_command record) = true ->
  stream r = concat (write_chunked_replication_record record) ++ rest -> len (stream r) <= I64_MAX ->
  exists r1 r2, read_replication_command r = (r1, Ok (Some (header record))) /\
    read_chunked_replication_payload (len (payload record)) maximum (chunk_command record) r1 =
      Some (r2, Ok (payload record)) /\ stream r2 = rest /\ ends r2 = ends r /\ ends r1 = ends r.
Proof.
  intros Hh Hp Hmax Hn Hv Hs Hlen. cbn [write_chunked_replication_record concat] in Hs. rewrite <- app_assoc in Hs.
  destruct (frame_read (header record) _ r Hh Hs Hlen) as (r1 & E1 & Hs1 & He1).
  destruct (read_payload record maximum rest r1 Hp Hn Hv) as (r2 & E2 & Hs2 & He2); [done| |done|].
  { apply (f_equal len) in Hs. rewrite len_app in Hs. rewrite Hs1.
    pose proof (len_nonneg (encode_replication_command (header record))). lia. }
  exists r1, r2. split_and!; try done. congruence.
Qed.

Lemma header_fits name numbers :
  len name <= 16 -> Utf8.valid name = true -> len numbers <= 2 -> Forall (fun n => 0 <= n <= U64_MAX) numbers ->
  frame_fits (name :: map print_Z numbers).
Proof.
  intros Hn Hv Hl Hnum. pose proof (len_nonneg numbers). pose proof (len_nonneg name).
  assert (Hmap : len (map print_Z numbers) = len numbers) by (unfold len; by rewrite length_map).
  assert (Hsmall : Forall (fun a => len a <= 20 /\ Utf8.valid a = true) (map print_Z numbers)).
  { apply Forall_map. eapply list.Forall_impl; [exact Hnum|]. intros n Hn'. cbv beta in *.
    split; [by apply print_Z_length|by destruct (print_Z_word n ltac:(lia)) as (_ & _ & ?)]. }
  apply small_frame_fits.
  - rewrite len_cons. lia.
  - constructor; [split; [unfold MAX_REPLICATION_FRAME_BULK_SIZE, REPLICATION_CHUNK_SIZE; lia|done]|].
    eapply list.Forall_impl; [exact Hsmall|]. intros a [Ha Hva]. split; [|done].
    unfold MAX_REPLICATION_FRAME_BULK_SIZE, REPLICATION_CHUNK_SIZE. lia.
  - assert (Hsum : zsum (map len (map print_Z numbers)) <= 20 * len numbers).
    { rewrite <- Hmap. clear -Hsmall. induction Hsmall as [|a l [Ha _] _ IH]; [done|]. rewrite len_cons.
      unfold zsum in *. simpl. lia. }
    unfold zsum in *. simpl. unfold MAX_REPLICATION_FRAME_BULK_SIZE, REPLICATION_CHUNK_SIZE. lia.
Qed.

Lemma effect_received clk s batch record rest r :
  0 < s <= U64_MAX -> Forall effect_ok (effects batch) -> encode_replication_effect s batch = Ok record ->
  stream r = concat (write_chunked_replication_record record) ++ rest -> len (stream r) <= I64_MAX ->
  exists r1 r2, read_replication_command r = (r1, Ok (Some (header record))) /\
    head (header record) = Some APPLYEFFECT /\
    read_replication_effect clk (header record) r1 = Some (r2, Ok (s, batch)) /\ stream r2 = rest /\ ends r2 = ends r /\
    ends r1 = ends r.
Proof.
  intros Hseq Hok He Hs Hlen. unfold encode_replication_effect in He. rewrite (proj2 (Z.eqb_neq _ _)) in He by lia.
  destruct (encode_committed_batch batch) as [body|] eqn:Eb; [|done]. rstep_in He.
  destruct (MAX_BINLOG_RECORD_SIZE <? len body) eqn:El; [done|]. injection He as <-.
  destruct (batch_roundtrip clk batch body Hok Eb) as [Hdec Hl].
  assert (Hbody : 0 <= len body <= U64_MAX) by (unfold MAX_BINLOG_RECORD_SIZE, U64_MAX in *; lia).
  destruct (read_record (mkRecord [APPLYEFFECT; print_Z s; print_Z (len body)] EFFECTCHUNK body) MAX_BINLOG_RECORD_SIZE rest r)
    as (r1 & r2 & E1 & E2 & Hs2 & He2 & He1); try done.
  { apply (header_fits APPLYEFFECT [s; len body]); [done|done|done|]. repeat constructor; lia. }
  exists r1, r2. split; [exact E1|]. split; [done|]. split; [|done]. unfold read_replication_effect. cbn [header].
  rewrite bytes_eqb_refl. cbn [negb]. change parse_usize with (parse_unsigned USIZE_MAX).
  rewrite parse_print_unsigned by exact Hbody. cbn [payload chunk_command] in E2. rewrite E2. cbn [mbind option_bind].
  unfold decode_replication_effect. rstep. rewrite parse_u64_print by lia. rstep.
  rewrite (proj2 (Z.eqb_neq _ _)) by lia. rewrite Hdec. done.
Qed.

Lemma entry_received now key e record rest r :
  storable (value e) -> expiry_ok (expires_at e) -> encode_full_sync_entry key e = Ok record ->
  stream r = concat (write_chunked_replication_record record) ++ rest -> len (stream r) <= I64_MAX ->
  exists r', read_full_sync_entry now r = Some (r', Ok (key, mkEntry JN (value e) (expires_at e) now now)) /\
    stream r' = rest /\ ends r' = ends r.
Proof.
  intros Hv Hx He Hs Hlen. unfold encode_full_sync_entry in He.
  destruct (encode_snapshot_entry key e) as [body|] eqn:Eb; [|done]. rstep_in He. injection He as <-.
  destruct (entry_roundtrip now key e body Hv Hx Eb) as [Hdec Hl].
  assert (Hpos : 0 < len body) by (destruct body; [by vm_compute in Hdec|rewrite len_cons; pose proof (len_nonneg body); lia]).
  assert (Hbody : 0 <= len body <= U64_MAX) by (unfold MAX_SNAPSHOT_RECORD_SIZE, U64_MAX in *; lia).
  destruct (read_record (mkRecord [FULLSYNCENTRY; print_Z (len body)] FULLSYNCCHUNK body) MAX_SNAPSHOT_RECORD_SIZE rest r)
    as (r1 & r2 & E1 & E2 & Hs2 & He2 & _); try done.
  { apply (header_fits FULLSYNCENTRY [len body]); [done|done|done|]. repeat constructor; lia. }
  exists r2. split; [|done]. unfold read_full_sync_entry. rewrite E1. cbn [header]. rewrite bytes_eqb_refl. cbn [negb].
  change parse_usize with (parse_unsigned USIZE_MAX). rewrite parse_print_unsigned by exact Hbody.
  cbn [payload chunk_command] in E2. rewrite E2. cbn [mbind option_bind]. rstep. by rewrite Hdec.
Qed.

End Records.

(** ** Markers *)

Lemma numbers_words numbers : Forall (fun n => 0 <= n <= U64_MAX) numbers -> Forall word_ok (map print_Z numbers).
Proof.
  intros Hnum. apply Forall_map. eapply list.Forall_impl; [exact Hnum|]. intros n Hn'. cbv beta in *. apply print_Z_word. lia.
Qed.

Lemma marker_length (name : bytes) numbers :
  Forall (fun n => 0 <= n <= U64_MAX) numbers -> len (join_words (name :: map print_Z numbers)) <= len name + 21 * len numbers.
Proof.
  intros Hl. revert name. induction Hl as [|n l Hn Hl IH]; intros name; [cbn; change (len (@nil Z)) with 0; lia|].
  cbn [map]. change (join_words (name :: print_Z n :: map print_Z l)) with (name ++ [x20] ++ join_words (print_Z n :: map print_Z l)).
  rewrite !len_app, (len_cons n l). change (len [x20]) with 1. pose proof (print_Z_length n Hn).
  specialize (IH (print_Z n)). lia.
Qed.
