(* ===== verification/ReplicationStream.v ===== *)
(** * ReplicationStream: connections that are cut

    A replica reads what the master wrote, up to the byte where the connection
    was cut.  What it reads from the part that arrived is what it would have
    read from the whole; a frame that did not arrive as a whole is never
    mistaken for one. *)

From Stdlib Require Import ZArith Lia.
From Stdlib Require Import Strings.Byte.
From stdpp Require Import base gmap list strings numbers sorting.
From S2P Require Import Prelude Text Json JsonPath Value Persistence Model Codec CodecSpec SnapshotSpec Resp RespReader ReplicationWire.

Open Scope Z_scope.

(** [r] delivers a part of what [r'] delivers. *)
Definition cut (r r' : Reader) : Prop := stream r `prefix_of` stream r'.

(** Reading went from [r] to [r1]. *)
Definition read_on (r r1 : Reader) : Prop :=
  ends r1 = ends r /\ (length (stream r1) <= length (stream r))%nat.

#[global] Instance read_on_preorder : PreOrder read_on.
Proof. split; [by intros r|]. intros a b c [H1 H2] [H3 H4]. split; [congruence|lia]. Qed.

Lemma cut_len r r' : cut r r' -> len (stream r) <= len (stream r').
Proof. intros H%prefix_length. unfold len. lia. Qed.

Lemma read_on_len r r1 : read_on r r1 -> len (stream r1) <= len (stream r).
Proof. intros [_ H]. unfold len. lia. Qed.

(** ** Frames *)

Lemma read_gives r r1 f :
  len (stream r) <= I64_MAX -> read_replication_command r = (r1, Ok (Some f)) ->
  exists n, decode_buffered_command (stream r) REPLICATION_LIMITS = Ok (Some (f, n)) /\ 0 < n <= len (stream r) /\
    stream r1 = drop (Z.to_nat n) (stream r) /\ ends r1 = ends r.
Proof.
  intros Hlen Hr. apply read_timed_spec in Hr as [He H]; [|apply replication_limits_fit|done].
  destruct (decode_buffered_command (stream r) REPLICATION_LIMITS) as [[[c n]|]|error] eqn:Ed;
    [|by destruct H as [?|[??]]..].
  destruct H as [H Hs]. injection H as <-. exists n. split; [done|]. split; [apply (decode_buffered_bounds _ _ _ _ Ed)|done].
Qed.

Lemma read_moves r r1 f :
  len (stream r) <= I64_MAX -> read_replication_command r = (r1, Ok (Some f)) ->
  read_on r r1 /\ (length (stream r1) < length (stream r))%nat.
Proof.
  intros Hlen Hr. apply read_gives in Hr as (n & _ & Hn & Hs & He); [|done].
  assert (length (stream r1) < length (stream r))%nat by (rewrite Hs, length_drop; unfold len in *; lia).
  split; [split; [done|lia]|done].
Qed.

(** A frame that arrived as a whole is read as from the uncut connection. *)
Lemma read_cut r r' r1 f :
  len (stream r') <= I64_MAX -> cut r r' -> read_replication_command r = (r1, Ok (Some f)) ->
  exists r1', read_replication_command r' = (r1', Ok (Some f)) /\ cut r1 r1'.
Proof.
  intros Hlen Hc Hr. pose proof (cut_len _ _ Hc). apply read_gives in Hr as (n & Hd & Hn & Hs & _); [|lia].
  pose proof (read_timed REPLICATION_LIMITS r' replication_limits_fit Hlen) as H'. destruct Hc as [more Hm].
  rewrite Hm, decode_buffered_app, Hd, <- Hm in H' by (by rewrite Hd). destruct H' as (r1' & Hr' & Hs' & _).
  exists r1'. split; [done|]. exists more. rewrite Hs, Hs', Hm. rewrite drop_app_le; [done|]. unfold len in *. lia.
Qed.

(** ** Payloads *)

Lemma chunks_moves fuel expected command collected r r1 x :
  len (stream r) <= I64_MAX -> read_chunks fuel expected command collected r = Some (r1, Ok x) -> read_on r r1.
Proof.
  revert collected r. induction fuel as [|fuel IH]; intros collected r Hlen; [done|]. cbn [read_chunks].
  destruct (_ <=? _); [by intros [= <- _]|].
  destruct (read_replication_command r) as [r2 [[[|name [|text [|]]]|]|s]] eqn:E; try done.
  apply read_moves in E as [Hon _]; [|done].
  destruct (negb _); [done|]. destruct (hex_decode text) as [c|]; [|done]. destruct (_ || _); [done|].
  destruct (checked_add _ _) as [n|]; [|done]. destruct (_ <? _); [done|]. intros H.
  etrans; [exact Hon|]. eapply IH; [|exact H]. apply read_on_len in Hon. lia.
Qed.

Lemma chunks_cut fuel expected command collected r r' r1 x :
  len (stream r') <= I64_MAX -> cut r r' -> read_chunks fuel expected command collected r = Some (r1, Ok x) ->
  exists r1', read_chunks fuel expected command collected r' = Some (r1', Ok x) /\ cut r1 r1'.
Proof.
  revert collected r r'. induction fuel as [|fuel IH]; intros collected r r' Hlen Hc; [done|]. cbn [read_chunks].
  destruct (_ <=? _); [intros [= <- <-]; eauto|].
  destruct (read_replication_command r) as [r2 [[[|name [|text [|]]]|]|s]] eqn:E; try done.
  destruct (read_cut r r' r2 _ Hlen Hc E) as (r2' & E' & Hc2). rewrite E'. apply read_moves in E' as [Hon _]; [|done].
  destruct (negb _); [done|]. destruct (hex_decode text) as [c|]; [|done]. destruct (_ || _); [done|].
  destruct (checked_add _ _) as [n|]; [|done]. destruct (_ <? _); [done|]. apply IH; [|done].
  apply read_on_len in Hon. lia.
Qed.

Lemma chunks_return fuel expected command collected r :
  (Z.to_nat (expected - len collected) < fuel)%nat -> read_chunks fuel expected command collected r <> None.
Proof.
  revert collected r. induction fuel as [|fuel IH]; intros collected r Hf; [lia|]. cbn [read_chunks].
  destruct (Z.leb_spec expected (len collected)); [done|].
  destruct (read_replication_command r) as [r2 [[[|name [|text [|]]]|]|s]]; try done.
  destruct (negb _); [done|]. destruct (hex_decode text) as [c|]; [|done].
  destruct (Z.eqb_spec (len c) 0); [done|]. cbn [orb]. destruct (_ <? _); [done|].
  destruct (checked_add _ _) as [total|]; [|done]. destruct (_ <? _); [done|]. apply IH.
  rewrite len_app. pose proof (len_nonneg c). lia.
Qed.

Lemma payload_returns expected maximum command r : read_chunked_replication_payload expected maximum command r <> None.
Proof.
  unfold read_chunked_replication_payload. destruct (_ || _); [done|]. apply chunks_return.
  change (len (@nil byte)) with 0. rewrite Z.sub_0_r. lia.
Qed.

Lemma payload_cut expected maximum command r r' r1 x :
  len (stream r') <= I64_MAX -> cut r r' ->
  read_chunked_replication_payload expected maximum command r = Some (r1, Ok x) ->
  read_on r r1 /\
  exists r1', read_chunked_replication_payload expected maximum command r' = Some (r1', Ok x) /\ cut r1 r1'.
Proof.
  unfold read_chunked_replication_payload. destruct (_ || _); [done|]. intros Hlen Hc H. pose proof (cut_len _ _ Hc).
  split; [by eapply chunks_moves; [|exact H]; lia|]. by eapply chunks_cut.
Qed.

(** ** Records *)

Section Records.
Context {JN : JsonNumber} {SJ : SerdeJson} {HO : HashOrder}.

Lemma effect_returns clk frame r : read_replication_effect clk frame r <> None.
Proof.
  unfold read_replication_effect. destruct frame as [|name [|s [|l [|]]]]; try done. destruct (negb _); [done|].
  destruct (parse_usize l) as [n|]; [|done].
  pose proof (payload_returns n MAX_BINLOG_RECORD_SIZE EFFECTCHUNK r).
  by destruct (read_chunked_replication_payload _ _ _ r) as [[r1 x]|].
Qed.

Lemma effect_cut clk frame r r' r1 x :
  len (stream r') <= I64_MAX -> cut r r' -> read_replication_effect clk frame r = Some (r1, Ok x) ->
  read_on r r1 /\ exists r1', read_replication_effect clk frame r' = Some (r1', Ok x) /\ cut r1 r1'.
Proof.
  intros Hlen Hc. unfold read_replication_effect. destruct frame as [|name [|s [|l [|]]]]; try done.
  destruct (negb _); [done|]. destruct (parse_usize l) as [n|]; [|done].
  destruct (read_chunked_replication_payload n _ EFFECTCHUNK r) as [[r2 [b|]]|] eqn:E; try done.
  destruct (payload_cut _ _ _ _ _ _ _ Hlen Hc E) as (Hon & r2' & -> & Hc2).
  cbn [mbind option_bind]. rstep. intros [= <- ->]. eauto.
Qed.

Lemma full_entry_returns now r : read_full_sync_entry now r <> None.
Proof.
  unfold read_full_sync_entry. destruct (read_replication_command r) as [r2 [[[|name [|l [|]]]|]|s]]; try done.
  destruct (negb _); [done|]. destruct (parse_usize l) as [n|]; [|done].
  pose proof (payload_returns n MAX_SNAPSHOT_RECORD_SIZE FULLSYNCCHUNK r2).
  by destruct (read_chunked_replication_payload _ _ _ r2) as [[r1 x]|].
Qed.

Lemma full_entry_cut now r r' r1 x :
  len (stream r') <= I64_MAX -> cut r r' -> read_full_sync_entry now r = Some (r1, Ok x) ->
  read_on r r1 /\ exists r1', read_full_sync_entry now r' = Some (r1', Ok x) /\ cut r1 r1'.
Proof.
  intros Hlen Hc. unfold read_full_sync_entry. pose proof (cut_len _ _ Hc).
  destruct (read_replication_command r) as [r2 [[[|name [|l [|]]]|]|s]] eqn:E; try done.
  destruct (read_cut _ _ _ _ Hlen Hc E) as (r2' & E' & Hc2). rewrite E'.
  apply read_moves in E as [Hon _]; [|lia]. apply read_moves in E' as [Hon' _]; [|done]. apply read_on_len in Hon'.
  destruct (negb _); [done|]. destruct (parse_usize l) as [n|]; [|done].
  destruct (read_chunked_replication_payload n _ FULLSYNCCHUNK r2) as [[r3 [b|]]|] eqn:E; try done.
  destruct (payload_cut _ _ _ _ r2' _ _ ltac:(lia) Hc2 E) as (Hon3 & r3' & -> & Hc3).
  cbn [mbind option_bind]. rstep. intros [= <- ->]. split; [by etrans|]. eauto.
Qed.

(** ** What arrives *)

(** [got r rest r1]: the part of the stream before [rest] arrived, and [r1]
    delivers what arrived of [rest]. *)
Definition got (r : Reader) (whole rest : bytes) (r1 : Reader) : Prop :=
  stream r1 `prefix_of` rest /\ ends r1 = ends r /\ (length (stream r1) < length (stream r))%nat /\
  (stream r = whole -> stream r1 = rest).

(** An effect arrives as it was sent, or the read fails. *)
Lemma effect_arrives clk s batch record rest r :
  let whole := concat (write_chunked_replication_record record) ++ rest in
  0 < s <= U64_MAX -> Forall effect_ok (effects batch) -> encode_replication_effect s batch = Ok record ->
  stream r `prefix_of` whole -> len whole <= I64_MAX ->
  (exists r1, read_replication_command r = (r1, Ok (Some (header record))) /\ head (header record) = Some APPLYEFFECT /\
    ((exists r2, read_replication_effect clk (header record) r1 = Some (r2, Ok (s, batch)) /\ got r whole rest r2) \/
     (stream r <> whole /\ exists r2 error, read_replication_effect clk (header record) r1 = Some (r2, Err error)))) \/
  (stream r <> whole /\ exists r1 x, read_replication_command r = (r1, x) /\ forall f, x <> Ok (Some f)).
Proof.
  intros whole Hs Hok He Hp Hlen. set (r' := mkReader whole [] Closed).
  assert (Hw : stream r' = whole) by (unfold r', stream; cbn; by rewrite app_nil_r).
  assert (Hc : cut r r') by (unfold cut; by rewrite Hw).
  pose proof (cut_len _ _ Hc) as Hlr. rewrite Hw in Hlr.
  destruct (effect_received clk s batch record rest r' Hs Hok He Hw ltac:(by rewrite Hw))
    as (r1' & r2' & E1' & Hh & E2' & Hs2' & _ & _).
  assert (Hfull : stream r = whole -> exists r1 r2, read_replication_command r = (r1, Ok (Some (header record))) /\
    read_replication_effect clk (header record) r1 = Some (r2, Ok (s, batch)) /\ stream r2 = rest).
  { intros Hf. destruct (effect_received clk s batch record rest r Hs Hok He Hf ltac:(lia))
      as (r1 & r2 & E1 & _ & E2 & Hs2 & _ & _). eauto. }
  destruct (read_replication_command r) as [r1 x] eqn:E1.
  assert (Hx : (exists f, x = Ok (Some f)) \/ forall f, x <> Ok (Some f)) by (destruct x as [[f|]|]; eauto).
  destruct Hx as [[f ->]|Hx].
  2: { right. split; [|by eauto]. intros Hf. destruct (Hfull Hf) as (? & ? & [= <- ->] & _). by eapply Hx. }
  left. destruct (read_cut r r' r1 f ltac:(by rewrite Hw) Hc E1) as (r1'' & E1'' & Hc1).
  rewrite E1' in E1''. injection E1'' as <- <-. exists r1. split; [done|]. split; [done|].
  apply read_moves in E1 as [Hon1 Hlt]; [|lia]. apply read_moves in E1' as [Hon1' _]; [|by rewrite Hw].
  apply read_on_len in Hon1'. rewrite Hw in Hon1'.
  pose proof (effect_returns clk (header record) r1) as Hret.
  destruct (read_replication_effect clk (header record) r1) as [[r2 [y|error]]|] eqn:E2; [|..|done].
  2: { right. split; [|by eauto]. intros Hf. by destruct (Hfull Hf) as (? & ? & [= <-] & E & _); rewrite E2 in E. }
  left. destruct (effect_cut clk (header record) r1 r1' r2 y ltac:(lia) Hc1 E2) as (Hon2 & r2'' & E2'' & Hc2).
  rewrite E2' in E2''. injection E2'' as <- <-. exists r2. split; [done|]. unfold got. rewrite <- Hs2' at 1.
  destruct Hon1 as [He1 _]. destruct Hon2 as [He2 Hl2]. split_and!; [done|congruence|lia|].
  intros Hf. destruct (Hfull Hf) as (r1a & r2a & [= <-] & Ea & Hsa). rewrite E2 in Ea. by injection Ea as <-.
Qed.

(** So does an entry of a dump. *)
Lemma entry_arrives now key e record rest r :
  let whole := concat (write_chunked_replication_record record) ++ rest in
  storable (value e) -> expiry_ok (expires_at e) -> encode_full_sync_entry key e = Ok record ->
  stream r `prefix_of` whole -> len whole <= I64_MAX ->
  (exists r2, read_full_sync_entry now r = Some (r2, Ok (key, mkEntry JN (value e) (expires_at e) now now)) /\
     got r whole rest r2) \/
  (stream r <> whole /\ exists r2 error, read_full_sync_entry now r = Some (r2, Err error)).
Proof.
  intros whole Hv Hx He Hp Hlen. set (r' := mkReader whole [] Closed).
  assert (Hw : stream r' = whole) by (unfold r', stream; cbn; by rewrite app_nil_r).
  assert (Hc : cut r r') by (unfold cut; by rewrite Hw).
  pose proof (cut_len _ _ Hc) as Hlr. rewrite Hw in Hlr.
  destruct (entry_received now key e record rest r' Hv Hx He Hw ltac:(by rewrite Hw)) as (r2' & E2' & Hs2' & _).
  pose proof (full_entry_returns now r) as Hret.
  destruct (read_full_sync_entry now r) as [[r2 [y|error]]|] eqn:E2; [|..|done].
  2: { right. split; [|by eauto]. intros Hf.
       destruct (entry_received now key e record rest r Hv Hx He Hf ltac:(lia)) as (? & E & _). by rewrite E2 in E. }
  left. destruct (full_entry_cut now r r' r2 y ltac:(by rewrite Hw) Hc E2) as ([He2 Hl2] & r2'' & E2'' & Hc2).
  rewrite E2' in E2''. injection E2'' as <- <-. exists r2. split; [done|]. unfold got. rewrite <- Hs2' at 1.
  split_and!; [done|done| |].
  - unfold read_full_sync_entry in E2.
    destruct (read_replication_command r) as [r1 [[[|name [|l [|]]]|]|s]] eqn:E1; try done.
    apply read_moves in E1 as [_ Hlt]; [|lia].
    destruct (negb _); [done|]. destruct (parse_usize l) as [n|]; [|done].
    destruct (read_chunked_replication_payload n _ FULLSYNCCHUNK r1) as [[r3 [b|]]|] eqn:E; try done.
    assert (Hon : read_on r1 r3) by (eapply payload_cut; [|by exists []; rewrite app_nil_r|exact E]; unfold len in *; lia).
    cbn [mbind option_bind] in E2. rstep_in E2. injection E2 as <- _. destruct Hon. lia.
  - intros Hf. destruct (entry_received now key e record rest r Hv Hx He Hf ltac:(lia)) as (r2a & E & Hsa & _).
    rewrite E2 in E. by injection E as <-.
Qed.

End Records.

(** A line arrives as a whole, or the read fails. *)
Lemma words_arrive words rest r c w0 words0 :
  let whole := join_words words ++ crlf ++ rest in
  words = (c :: w0) :: words0 -> c <> x2a -> Forall word_ok words -> len words <= 4 -> len (join_words words) <= 1000 ->
  stream r `prefix_of` whole -> len whole <= I64_MAX ->
  (exists r1, read_replication_command r = (r1, Ok (Some words)) /\ got r whole rest r1) \/
  (stream r <> whole /\ exists r1 x, read_replication_command r = (r1, x) /\ forall f, x <> Ok (Some f)).
Proof.
  intros whole Hwords Hc0 Hok Hn Hl Hp Hlen. set (r' := mkReader whole [] Closed).
  assert (Hw : stream r' = whole) by (unfold r', stream; cbn; by rewrite app_nil_r).
  assert (Hc : cut r r') by (unfold cut; by rewrite Hw).
  pose proof (cut_len _ _ Hc) as Hlr. rewrite Hw in Hlr.
  destruct (read_words words rest r' c w0 words0 Hwords Hc0 Hok Hn Hl Hw ltac:(by rewrite Hw)) as (r1' & E1' & Hs1' & _).
  destruct (read_replication_command r) as [r1 x] eqn:E1.
  assert (Hx : (exists f, x = Ok (Some f)) \/ forall f, x <> Ok (Some f)) by (destruct x as [[f|]|]; eauto).
  destruct Hx as [[f ->]|Hx].
  2: { right. split; [|by eauto]. intros Hf.
       destruct (read_words words rest r c w0 words0 Hwords Hc0 Hok Hn Hl Hf ltac:(lia)) as (? & E & _).
       rewrite E1 in E. injection E as <- ->. by eapply Hx. }
  left. destruct (read_cut r r' r1 f ltac:(by rewrite Hw) Hc E1) as (r1'' & E1'' & Hc1).
  rewrite E1' in E1''. injection E1'' as <- <-. exists r1. split; [done|]. unfold got. rewrite <- Hs1' at 1.
  pose proof E1 as E1b. apply read_moves in E1 as [[He1 _] Hlt]; [|lia]. split_and!; [done|done|done|].
  intros Hf. destruct (read_words words rest r c w0 words0 Hwords Hc0 Hok Hn Hl Hf ltac:(lia)) as (r1a & E & Hsa & _).
  rewrite E1b in E. by injection E as <-.
Qed.

(** The name of a marker and its numbers. *)
Lemma marker_arrives (name : bytes) c w0 numbers rest r :
  let words := name :: map print_Z numbers in
  let whole := join_words words ++ crlf ++ rest in
  name = c :: w0 -> c <> x2a -> word_ok name -> len name <= 16 -> len numbers <= 3 ->
  Forall (fun n => 0 <= n <= U64_MAX) numbers -> stream r `prefix_of` whole -> len whole <= I64_MAX ->
  (exists r1, read_replication_command r = (r1, Ok (Some words)) /\ got r whole rest r1) \/
  (stream r <> whole /\ exists r1 x, read_replication_command r = (r1, x) /\ forall f, x <> Ok (Some f)).
Proof.
  intros words whole Hname Hc Hw Hl Hn Hnum Hs Hlen.
  apply (words_arrive words rest r c w0 (map print_Z numbers)); try done.
  - unfold words. by rewrite Hname.
  - constructor; [done|by apply numbers_words].
  - unfold words. rewrite len_cons. unfold len in *. rewrite length_map. lia.
  - pose proof (marker_length name numbers Hnum) as H. fold words in H. lia.
Qed.
