(* ===== verification/Execution.v ===== *)
(** * Execution: data commands (src/command.rs, src/execution.rs)

    [execute_command] maps the arguments of a command to store operations and
    a reply; [affected_keys] is the set of keys the server captures before it
    runs a mutation.  One definition per arm of the source's [match]. *)

From Stdlib Require Import ZArith Lia.
From Stdlib Require Import Strings.Byte.
From stdpp Require Import base gmap list strings numbers.
From S2P Require Import Prelude Text Json JsonPath Value Shard Engine Store Resp.

Open Scope Z_scope.

(** ** Classification (src/command.rs) *)

Definition write_commands : list bytes :=
  map bs ["SET"; "GETSET"; "SETNX"; "MSET"; "DEL"; "EXPIRE"; "EXPIREAT"; "LPUSH"; "RPUSH"; "LPOP";
          "RPOP"; "HSET"; "SADD"; "RENAME"; "INCR"; "INCRBY"; "DECRBY"; "APPEND"; "HDEL"; "SREM";
          "COPY"; "JSON.SET"; "JSON.DEL"; "JSON.NUMINCRBY"; "JSON.ARRAPPEND"]%string.

Definition is_write_command (command : bytes) : bool := bool_decide (command ∈ write_commands).

Definition replica_reads : list bytes :=
  map bs ["GET"; "MGET"; "LRANGE"; "LLEN"; "HGET"; "HGETALL"; "HKEYS"; "HVALS"; "SMEMBERS";
          "SISMEMBER"; "EXISTS"; "TYPE"; "TTL"; "KEYS"; "STRLEN"; "JSON.GET"; "JSON.TYPE";
          "JSON.ARRLEN"; "JSON.OBJKEYS"]%string.

Definition is_replica_routable_read (command : bytes) : bool := bool_decide (command ∈ replica_reads).

Lemma routable_not_write command : is_replica_routable_read command = true -> is_write_command command = false.
Proof.
  unfold is_replica_routable_read. rewrite bool_decide_eq_true. revert command. apply list.Forall_forall.
  unfold replica_reads. repeat (constructor; [reflexivity|]). constructor.
Qed.

Inductive MutationState : Type :=
| NotRequested
| NoChange
| Tentative
| Committed.

Record CommandOutcome : Type := mkOutcome {
  response : RESPValue;
  mutation : MutationState
}.

(** [args.get(i).map(String::as_str).unwrap_or("")]. *)
Definition arg_or_empty (args : list bytes) (i : nat) : bytes :=
  match args !! i with Some a => a | None => [] end.

(** ** Affected keys *)

Fixpoint mset_keys (args : list bytes) : list bytes :=
  match args with
  | k :: _ :: rest => k :: mset_keys rest
  | _ => []
  end.

(** [keys.retain(|key| unique.insert(key.clone()))]. *)
Fixpoint retain_unique (seen : gset bytes) (keys : list bytes) : list bytes :=
  match keys with
  | [] => []
  | k :: ks =>
    if bool_decide (k ∈ seen) then retain_unique seen ks
    else k :: retain_unique ({[k]} ∪ seen) ks
  end.

Definition opt_list {A} (o : option A) : list A := match o with Some a => [a] | None => [] end.

Definition affected_keys (args : list bytes) : list bytes :=
  let command := arg_or_empty args 0 in
  let keys :=
    if bytes_eqb command (bs "MSET") then mset_keys (drop 1 args)
    else if bytes_eqb command (bs "RENAME") || bytes_eqb command (bs "COPY") then
      opt_list (args !! 1%nat) ++ opt_list (args !! 2%nat)
    else if is_write_command command then opt_list (args !! 1%nat)
    else [] in
  retain_unique ∅ keys.

(** [length as i64] for a [usize]. *)
Definition usize_as_i64 (n : Z) : Z := if n <=? I64_MAX then n else n - (U64_MAX + 1).

Section Commands.
Context {JN : JsonNumber} {SJ : SerdeJson} {HO : HashOrder} {FT : FloatText}.

(** A reply and whether the store reported a mutation. *)
Abbreviation reply := (prog (RESPValue * bool)).

Definition fail (m : bytes) : RESPValue * bool := (RError m, false).
Definition ok_reply (changed : bool) : RESPValue * bool := (SimpleString (bs "OK"), changed).
Definition flag_reply (b changed : bool) : RESPValue * bool := (Integer (if b then 1 else 0), changed).
Definition bulk_list (l : list bytes) : RESPValue := Array (map (fun s => BulkString (Some s)) l).
Definition err_store (e : StoreError) : RESPValue * bool := fail (StoreError_message e).

(** ** SET *)

(** The option loop from one position on; [n] counts the clock readings. *)
Fixpoint set_options (clk : clock) (n : nat) (opts : list bytes) (expires : option Z)
    (condition : option bool) : option (option Z * option bool) :=
  match opts with
  | [] => Some (expires, condition)
  | o :: rest =>
    let w := to_uppercase o in
    if bytes_eqb w (bs "EX") then
      match rest with
      | v :: rest' =>
        match parse_u64 v with
        | Some secs =>
          if 0 <? secs
          then set_options clk (S n) rest' (Some (sat_add (clk n) secs)) condition
          else None
        | None => None
        end
      | [] => None
      end
    else if bytes_eqb w (bs "PX") then
      match rest with
      | v :: rest' =>
        match parse_u64 v with
        | Some millis =>
          if 0 <? millis
          then set_options clk (S n) rest'
                 (Some (sat_add (clk n) (sat_add millis 999 / 1000))) condition
          else None
        | None => None
        end
      | [] => None
      end
    else if bytes_eqb w (bs "EXAT") then
      match rest with
      | v :: rest' =>
        match parse_u64 v with
        | Some ts => set_options clk n rest' (Some ts) condition
        | None => None
        end
      | [] => None
      end
    else if bytes_eqb w (bs "NX") then set_options clk n rest expires (Some true)
    else if bytes_eqb w (bs "XX") then set_options clk n rest expires (Some false)
    else None
  end.

Definition cmd_set (clk : clock) (args : list bytes) (key arg : bytes) : reply :=
  match set_options clk 0 (drop 3 args) None None with
  | None => mret (fail (bs "ERR syntax error"))
  | Some (expires, condition) =>
    ok ← set_conditional_value (tick (length args) clk) key (Blob arg) expires condition;
    mret (if ok : bool then ok_reply true else (BulkString None, false))
  end.

(** ** Strings and numbers *)

Definition opt_bulk (o : option bytes) : RESPValue := BulkString o.

Definition cmd_get (clk : clock) (key : bytes) : reply :=
  r ← store_get clk key;
  mret (match r with Ok o => (opt_bulk o, false) | Err e => err_store e end).

Definition cmd_del (clk : clock) (key : bytes) : reply :=
  deleted ← store_delete clk key; mret (flag_reply deleted deleted).

Definition int_reply (r : result bytes Z) : RESPValue * bool :=
  match r with Ok v => (Integer v, true) | Err m => fail m end.

Definition cmd_incr (clk : clock) (key : bytes) : reply := r ← incr clk key; mret (int_reply r).

Definition cmd_incrby (clk : clock) (key arg : bytes) : reply :=
  match parse_i64 arg with
  | Some delta => r ← incrby clk key delta; mret (int_reply r)
  | None => mret (fail (bs "ERR value is not an integer"))
  end.

Definition cmd_decrby (clk : clock) (key arg : bytes) : reply :=
  match parse_i64 arg with
  | Some delta =>
    match checked_neg_i64 delta with
    | Some negated => r ← incrby clk key negated; mret (int_reply r)
    | None => mret (fail (bs "ERR increment or decrement would overflow"))
    end
  | None => mret (fail (bs "ERR value is not an integer"))
  end.

Definition len_reply (changed : bool) (r : result StoreError Z) : RESPValue * bool :=
  match r with Ok n => (Integer (usize_as_i64 n), changed) | Err e => err_store e end.

Definition cmd_append (clk : clock) (key arg : bytes) : reply :=
  r ← store_append clk key arg; mret (len_reply true r).

Definition cmd_strlen (clk : clock) (key : bytes) : reply :=
  r ← strlen clk key; mret (len_reply false r).

Definition cmd_getset (clk : clock) (key arg : bytes) : reply :=
  r ← getset clk key arg;
  mret (match r with Ok old => (BulkString old, true) | Err e => err_store e end).

Definition cmd_setnx (clk : clock) (key arg : bytes) : reply :=
  inserted ← setnx clk key arg; mret (flag_reply inserted inserted).

(** ** Lists *)

Definition cmd_lpush (clk : clock) (key arg : bytes) : reply :=
  r ← lpush clk key arg; mret (len_reply true r).

Definition cmd_rpush (clk : clock) (key arg : bytes) : reply :=
  r ← rpush clk key arg; mret (len_reply true r).

Definition pop_reply (r : result StoreError (option bytes)) : RESPValue * bool :=
  match r with
  | Ok (Some v) => (BulkString (Some v), true)
  | Ok None => (BulkString None, false)
  | Err e => err_store e
  end.

Definition cmd_lpop (clk : clock) (key : bytes) : reply := r ← lpop clk key; mret (pop_reply r).
Definition cmd_rpop (clk : clock) (key : bytes) : reply := r ← rpop clk key; mret (pop_reply r).

Definition parse_or (d : Z) (o : option bytes) : Z :=
  match o with
  | Some s => match parse_i64 s with Some n => n | None => d end
  | None => d
  end.

Definition list_reply (r : result StoreError (list bytes)) : RESPValue * bool :=
  match r with Ok l => (bulk_list l, false) | Err e => err_store e end.

Definition cmd_lrange (clk : clock) (args : list bytes) (key : bytes) : reply :=
  r ← lrange clk key (parse_or 0 (args !! 2%nat)) (parse_or (-1) (args !! 3%nat));
  mret (list_reply r).

Definition cmd_llen (clk : clock) (key : bytes) : reply :=
  r ← llen clk key; mret (len_reply false r).

(** ** Expiration and keys *)

Definition cmd_expireat (clk : clock) (key arg : bytes) : reply :=
  match parse_u64 arg with
  | Some t => updated ← expire_at clk key t; mret (flag_reply updated updated)
  | None => mret (fail (bs "ERR invalid timestamp"))
  end.

Definition cmd_expire (clk : clock) (args : list bytes) (key arg : bytes) : reply :=
  let condition := to_uppercase <$> args !! 3%nat in
  match parse_u64 arg with
  | Some s =>
    if match condition with
       | Some w => negb (bytes_eqb w (bs "NX")) && negb (bytes_eqb w (bs "XX"))
       | None => false
       end
    then mret (fail (bs "ERR syntax error"))
    else
      ok ← (match condition with
            | Some c => expire_conditional clk key s c
            | None => expire clk key s
            end);
      mret (flag_reply ok ok)
  | None => mret (fail (bs "ERR invalid expire time"))
  end.

Definition cmd_ttl (clk : clock) (key : bytes) : reply := t ← ttl clk key; mret (Integer t, false).

Definition cmd_exists (clk : clock) (key : bytes) : reply :=
  b ← store_exists clk key; mret (flag_reply b false).

Definition cmd_type (clk : clock) (key : bytes) : reply :=
  o ← value_type clk key;
  mret (match o with
        | Some t => (SimpleString t, false)
        | None => (SimpleString (bs "none"), false)
        end).

Definition cmd_rename (clk : clock) (key arg : bytes) : reply :=
  b ← store_rename clk key arg;
  mret (if b : bool then ok_reply true else fail (bs "ERR no such key")).

Definition cmd_copy (clk : clock) (key arg : bytes) : reply :=
  copied ← store_copy clk key arg; mret (flag_reply copied copied).

Definition cmd_keys (clk : clock) (key : bytes) : reply :=
  ks ← keys_matching clk key; mret (bulk_list ks, false).

Fixpoint mset_all (clk : clock) (pairs : list bytes) : prog unit :=
  match pairs with
  | k :: v :: rest => _ ← store_set clk k v; mset_all (tick 5 clk) rest
  | _ => mret tt
  end.

Definition cmd_mset (clk : clock) (args : list bytes) : reply :=
  if (len args <? 3) || negb ((len args - 1) mod 2 =? 0)
  then mret (fail (bs "ERR wrong number of arguments for 'mset'"))
  else _ ← mset_all clk (drop 1 args); mret (ok_reply true).

(** [collect::<Result<Vec<_>, _>>] stops at the first error. *)
Fixpoint mget_all (clk : clock) (keys : list bytes) : prog (result StoreError (list (option bytes))) :=
  match keys with
  | [] => mret (Ok [])
  | k :: ks =>
    r ← store_get clk k;
    match r with
    | Err e => mret (Err e)
    | Ok v => rs ← mget_all (tick 1 clk) ks; mret (cons v <$> rs)
    end
  end.

Definition cmd_mget (clk : clock) (args : list bytes) : reply :=
  r ← mget_all clk (drop 1 args);
  mret (match r with
        | Ok values => (Array (map BulkString values), false)
        | Err e => err_store e
        end).

(** ** Hashes and sets *)

Definition cmd_hset (clk : clock) (args : list bytes) (key arg : bytes) : reply :=
  let value := arg_or_empty args 3 in
  if len args <? 4 then mret (fail (bs "ERR wrong number of arguments for 'hset'"))
  else
    r ← hset clk key arg value;
    mret (match r with Ok is_new => flag_reply is_new true | Err e => err_store e end).

Definition cmd_hget (clk : clock) (key arg : bytes) : reply :=
  r ← hget clk key arg;
  mret (match r with Ok v => (BulkString v, false) | Err e => err_store e end).

Definition cmd_hgetall (clk : clock) (key : bytes) : reply :=
  r ← hgetall clk key;
  mret (match r with
        | Ok pairs =>
          (Array (concat (map (fun fv : bytes * bytes =>
                    [BulkString (Some fv.1); BulkString (Some fv.2)]) pairs)), false)
        | Err e => err_store e
        end).

Definition changed_reply (r : result StoreError bool) : RESPValue * bool :=
  match r with Ok b => flag_reply b b | Err e => err_store e end.

Definition cmd_hdel (clk : clock) (key arg : bytes) : reply :=
  r ← hdel clk key arg; mret (changed_reply r).

Definition cmd_hkeys (clk : clock) (key : bytes) : reply := r ← hkeys clk key; mret (list_reply r).
Definition cmd_hvals (clk : clock) (key : bytes) : reply := r ← hvals clk key; mret (list_reply r).

Definition cmd_sadd (clk : clock) (key arg : bytes) : reply :=
  r ← sadd clk key arg; mret (changed_reply r).

Definition cmd_smembers (clk : clock) (key : bytes) : reply :=
  r ← smembers clk key; mret (list_reply r).

Definition cmd_srem (clk : clock) (key arg : bytes) : reply :=
  r ← srem clk key arg; mret (changed_reply r).

Definition cmd_sismember (clk : clock) (key arg : bytes) : reply :=
  r ← sismember clk key arg;
  mret (match r with Ok b => flag_reply b false | Err e => err_store e end).

(** ** JSON *)

Definition cmd_json_set (clk : clock) (args : list bytes) (key : bytes) : reply :=
  let path := arg_or_empty args 2 in
  let raw_value := arg_or_empty args 3 in
  if (len args <? 4) || bytes_eqb path []
  then mret (fail (bs "ERR usage: JSON.SET key path json-value"))
  else
    match json_from_str raw_value with
    | Some parsed =>
      r ← json_set clk key path parsed;
      mret (match r with Ok _ => ok_reply true | Err e => fail e end)
    | None => mret (fail (bs "ERR value is not valid JSON"))
    end.

Definition path_or_root (args : list bytes) : bytes :=
  match args !! 2%nat with Some p => p | None => bs "$" end.

Definition cmd_json_get (clk : clock) (args : list bytes) (key : bytes) : reply :=
  r ← json_get clk key (path_or_root args);
  mret (match r with Ok o => (BulkString o, false) | Err e => fail e end).

Definition cmd_json_del (clk : clock) (args : list bytes) (key : bytes) : reply :=
  r ← json_del clk key (path_or_root args);
  mret (match r with Ok deleted => flag_reply deleted deleted | Err e => fail e end).

Definition cmd_json_type (clk : clock) (args : list bytes) (key : bytes) : reply :=
  r ← json_type clk key (path_or_root args);
  mret (match r with
        | Ok (Some t) => (SimpleString t, false)
        | Ok None => (BulkString None, false)
        | Err e => fail e
        end).

Definition cmd_json_numincrby (clk : clock) (args : list bytes) (key : bytes) : reply :=
  let path := arg_or_empty args 2 in
  match f64_parse (arg_or_empty args 3) with
  | Some delta =>
    r ← json_numincrby clk key path delta;
    mret (match r with
          | Ok new_val => (BulkString (Some (f64_display new_val)), true)
          | Err e => fail e
          end)
  | None => mret (fail (bs "ERR delta is not a valid number"))
  end.

Definition cmd_json_arrappend (clk : clock) (args : list bytes) (key : bytes) : reply :=
  let path := arg_or_empty args 2 in
  match json_from_str (arg_or_empty args 3) with
  | Some parsed =>
    r ← json_arrappend clk key path parsed;
    mret (match r with
          | Ok new_len => (Integer (usize_as_i64 new_len), true)
          | Err e => fail e
          end)
  | None => mret (fail (bs "ERR value is not valid JSON"))
  end.

Definition cmd_json_arrlen (clk : clock) (args : list bytes) (key : bytes) : reply :=
  r ← json_arrlen clk key (path_or_root args);
  mret (match r with
        | Ok (Some n) => (Integer (usize_as_i64 n), false)
        | Ok None => (BulkString None, false)
        | Err e => fail e
        end).

Definition cmd_json_objkeys (clk : clock) (args : list bytes) (key : bytes) : reply :=
  r ← json_objkeys clk key (path_or_root args);
  mret (match r with
        | Ok (Some ks) => (bulk_list ks, false)
        | Ok None => (Array [], false)
        | Err e => fail e
        end).

(** ** Dispatch *)

(** The arms of the source's [match]: a name, the least number of arguments its
    guard asks for, and the action. *)
Definition command_table (clk : clock) (args : list bytes) (key arg : bytes)
  : list (bytes * Z * reply) :=
  [ (bs "SET", 3, cmd_set clk args key arg);
    (bs "GET", 2, cmd_get clk key);
    (bs "DEL", 2, cmd_del clk key);
    (bs "INCR", 2, cmd_incr clk key);
    (bs "LPUSH", 3, cmd_lpush clk key arg);
    (bs "RPUSH", 3, cmd_rpush clk key arg);
    (bs "LPOP", 2, cmd_lpop clk key);
    (bs "RPOP", 2, cmd_rpop clk key);
    (bs "LRANGE", 2, cmd_lrange clk args key);
    (bs "EXPIREAT", 3, cmd_expireat clk key arg);
    (bs "TTL", 2, cmd_ttl clk key);
    (bs "EXISTS", 2, cmd_exists clk key);
    (bs "TYPE", 2, cmd_type clk key);
    (bs "JSON.SET", 0, cmd_json_set clk args key);
    (bs "JSON.GET", 2, cmd_json_get clk args key);
    (bs "JSON.DEL", 2, cmd_json_del clk args key);
    (bs "JSON.TYPE", 2, cmd_json_type clk args key);
    (bs "JSON.NUMINCRBY", 2, cmd_json_numincrby clk args key);
    (bs "JSON.ARRAPPEND", 2, cmd_json_arrappend clk args key);
    (bs "JSON.ARRLEN", 2, cmd_json_arrlen clk args key);
    (bs "JSON.OBJKEYS", 2, cmd_json_objkeys clk args key);
    (bs "SADD", 3, cmd_sadd clk key arg);
    (bs "SMEMBERS", 2, cmd_smembers clk key);
    (bs "SREM", 3, cmd_srem clk key arg);
    (bs "SISMEMBER", 3, cmd_sismember clk key arg);
    (bs "LLEN", 2, cmd_llen clk key);
    (bs "RENAME", 3, cmd_rename clk key arg);
    (bs "MSET", 0, cmd_mset clk args);
    (bs "MGET", 0, cmd_mget clk args);
    (bs "KEYS", 0, cmd_keys clk key);
    (bs "HSET", 3, cmd_hset clk args key arg);
    (bs "HGET", 3, cmd_hget clk key arg);
    (bs "HGETALL", 2, cmd_hgetall clk key);
    (bs "HDEL", 3, cmd_hdel clk key arg);
    (bs "INCRBY", 3, cmd_incrby clk key arg);
    (bs "DECRBY", 3, cmd_decrby clk key arg);
    (bs "APPEND", 3, cmd_append clk key arg);
    (bs "STRLEN", 2, cmd_strlen clk key);
    (bs "GETSET", 3, cmd_getset clk key arg);
    (bs "SETNX", 3, cmd_setnx clk key arg);
    (bs "HKEYS", 2, cmd_hkeys clk key);
    (bs "HVALS", 2, cmd_hvals clk key);
    (bs "COPY", 3, cmd_copy clk key arg);
    (bs "EXPIRE", 3, cmd_expire clk args key arg);
    (bs "PING", 0, mret (SimpleString (bs "PONG"), false)) ].

Definition unknown_command : RESPValue * bool := fail (bs "ERR unknown command or wrong syntax").

(** The first arm whose name and guard match. *)
Fixpoint select_arm (cmd : bytes) (n : Z) (arms : list (bytes * Z * reply)) : reply :=
  match arms with
  | [] => mret unknown_command
  | (name, least, action) :: arms =>
    if bytes_eqb cmd name && (least <=? n) then action else select_arm cmd n arms
  end.

Definition dispatch (clk : clock) (args : list bytes) : reply :=
  let cmd := arg_or_empty args 0 in
  let key := arg_or_empty args 1 in
  let arg := arg_or_empty args 2 in
  if bytes_eqb cmd (bs "REPLICAOF") && eq_ignore_ascii_case key (bs "no")
     && eq_ignore_ascii_case arg (bs "one")
  then mret (ok_reply false)
  else select_arm cmd (len args) (command_table clk args key arg).

Definition execute_command (clk : clock) (args : list bytes) : prog CommandOutcome :=
  '(response, reported_mutation) ← dispatch clk args;
  mret (mkOutcome response
    (if negb (is_write_command (arg_or_empty args 0)) then NotRequested
     else if reported_mutation : bool then Tentative else NoChange)).

End Commands.
