(* ===== verification/ExecutionSpec.v ===== *)
(** * ExecutionSpec: every command against the logical state

    Each command of the table runs to completion, keeps the store well formed,
    changes the logical state only at its affected keys, and leaves it alone
    when it reports no mutation. *)

From Stdlib Require Import ZArith Lia.
From Stdlib Require Import Strings.Byte.
From stdpp Require Import base gmap list strings numbers.
From S2P Require Import Prelude Text Json JsonPath Value Shard ShardSpec Engine EngineSpec EngineMulti EngineActs Store Model StoreSpec Resp Execution.

Open Scope Z_scope.

Section CommandSpecs.
Context {JN : JsonNumber} {SJ : SerdeJson} {HO : HashOrder} {FT : FloatText}.

(** serde_json's objects are ordered maps. *)
Context (parsed_wf : forall s v, json_from_str s = Some v -> wf_value v).

Context (T : Z).

Definition unchanged (r : RESPValue * bool) : Prop := r.2 = false.

(** ** Closures *)

Definition keeps_ok {R} (quiet : R -> Prop) (f : OnyxValue -> OnyxValue * R) : Prop :=
  forall v, value_ok v -> value_ok (f v).1 /\ (quiet (f v).2 -> (f v).1 = v).

Definition keeps_ok_action {R} (quiet : R -> Prop) (f : OnyxValue -> OnyxValue * EntryMutation R)
  : Prop :=
  forall v, value_ok v -> match (f v).2 with
    | Keep r => value_ok (f v).1 /\ (quiet r -> (f v).1 = v)
    | Delete r => ~ quiet r end.

Lemma checked_add_i64_range a b n : checked_add_i64 a b = Some n -> I64_MIN <= n <= I64_MAX.
Proof.
  unfold checked_add_i64, in_i64. destruct (_ && _) eqn:E; [|done]. intros [= <-].
  prop_tests. lia.
Qed.

Lemma incrby_keeps delta : keeps_ok is_err (incrby_value delta).
Proof.
  intros v Hv. unfold incrby_value.
  destruct (match v with Int n => _ | Blob b => _ | _ => _ end) as [n|e]; [|done].
  destruct (checked_add_i64 n delta) as [m|] eqn:E; [|done]. cbn [fst snd].
  split; [by eapply checked_add_i64_range|done].
Qed.

Lemma incrby_default delta :
  I64_MIN <= delta <= I64_MAX ->
  value_ok (incrby_value delta (Int 0)).1 /\ ~ is_err (incrby_value delta (Int 0)).2.
Proof.
  intros Hd. unfold incrby_value, checked_add_i64, in_i64. rewrite Z.add_0_l.
  destruct ((I64_MIN <=? delta) && (delta <=? I64_MAX)) eqn:E.
  - cbn. split; [exact Hd|tauto].
  - apply andb_false_iff in E. rewrite !Z.leb_gt in E. lia.
Qed.

Lemma append_keeps s : keeps_ok is_err (append_value s).
Proof. intros v Hv. by destruct v. Qed.

Lemma lpush_keeps item : keeps_ok is_err (lpush_value item).
Proof. intros v Hv. by destruct v. Qed.

Lemma rpush_keeps item : keeps_ok is_err (rpush_value item).
Proof.
  intros v Hv. destruct v; try done. simpl. split; [|done]. by destruct l.
Qed.

(** A pop reports an element or leaves the value alone. *)
Definition pop_quiet (r : result StoreError (option bytes)) : Prop := r <> Ok None -> is_err r.

Lemma lpop_keeps : keeps_ok_action pop_quiet lpop_value.
Proof.
  intros v Hv. destruct v as [| | |[|item rest]| | | |]; try done. unfold pop_quiet.
  destruct rest; simpl; [|split; [done|]]; intros Hq; exfalso; by apply Hq.
Qed.

Lemma rpop_keeps : keeps_ok_action pop_quiet rpop_value.
Proof.
  intros v Hv. destruct v as [| | |l| | | |]; try done. unfold pop_quiet, rpop_value.
  destruct (list.last l) as [item|]; [|done]. cbn [fst snd]. unfold pop_action.
  destruct (removelast l); simpl; [|split; [done|]]; intros Hq; exfalso; by apply Hq.
Qed.

Lemma hset_keeps field v : keeps_ok is_err (hset_value field v).
Proof. intros x Hx. destruct x; try done. simpl. split; [|done]. apply insert_non_empty. Qed.

Definition flag_quiet (r : result StoreError bool) : Prop := r = Ok false \/ is_err r.

Lemma hdel_keeps field : keeps_ok_action flag_quiet (hdel_value field).
Proof.
  intros v Hv. destruct v as [| | | |h| | |]; try done. simpl in Hv |- *. unfold flag_quiet.
  destruct (h !! field) as [x|] eqn:E; simpl.
  - case_bool_decide as Hd; [by intros [?|?]|]. split; [done|]. by intros [?|?].
  - rewrite delete_id by done. split; [done|done].
Qed.

Lemma sadd_keeps member : keeps_ok flag_quiet (sadd_value member).
Proof.
  intros v Hv. destruct v as [| | | | |s| |]; try done. simpl in Hv |- *. split; [set_solver|].
  unfold flag_quiet. case_bool_decide; simpl; [|by intros [?|?]].
  intros _. f_equal. set_solver.
Qed.

Lemma srem_keeps member : keeps_ok_action flag_quiet (srem_value member).
Proof.
  intros v Hv. destruct v as [| | | | |s| |]; try done. simpl in Hv |- *. unfold flag_quiet.
  case_bool_decide as Hin; simpl.
  - case_bool_decide as Hd; [by intros [?|?]|]. split; [done|]. by intros [?|?].
  - replace (s ∖ {[member]}) with s by set_solver. split; [done|done].
Qed.

Definition partial_quiet (r : option bool) : Prop := r <> Some true.

Lemma json_set_partial_keeps segs j : wf_value j -> keeps_ok partial_quiet (json_set_partial segs j).
Proof.
  intros Hj v Hv. destruct v as [| | | | | |root|]; try done. simpl in Hv |- *.
  pose proof (set_json_path_wf root segs j Hv Hj) as Hw.
  destruct (set_json_path root segs j) as [root' ok] eqn:E. cbn [fst snd] in *. split; [done|].
  unfold partial_quiet. destruct ok; [done|]. intros _. f_equal. by eapply set_json_path_fail.
Qed.

Lemma json_del_partial_keeps segs : keeps_ok partial_quiet (json_del_partial segs).
Proof.
  intros v Hv. destruct v as [| | | | | |root|]; try done. simpl in Hv |- *.
  pose proof (delete_json_path_wf root segs Hv) as Hw.
  destruct (delete_json_path root segs) as [root' ok] eqn:E. cbn [fst snd] in *. split; [done|].
  unfold partial_quiet. destruct ok; [done|]. intros _. f_equal. by eapply delete_json_path_fail.
Qed.

Definition update_quiet (r : option (result bytes Z)) : Prop :=
  match r with Some x => is_err x | None => True end.

Lemma json_numincrby_keeps segs delta : keeps_ok update_quiet (json_numincrby_value segs delta).
Proof.
  intros v Hv. destruct v as [| | | | | |root|]; try done. simpl in Hv |- *.
  pose proof (numincrby_json_path_wf root segs delta Hv) as Hw.
  pose proof (numincrby_json_path_fail root segs delta) as Hf.
  destruct (numincrby_json_path root segs delta) as [root' r]. cbn [fst snd] in *.
  split; [done|]. intros Hq. by rewrite (Hf Hq).
Qed.

Lemma json_arrappend_keeps segs j :
  wf_value j -> keeps_ok update_quiet (json_arrappend_value segs j).
Proof.
  intros Hj v Hv. destruct v as [| | | | | |root|]; try done. simpl in Hv |- *.
  pose proof (arrappend_json_path_wf root segs j Hv Hj) as Hw.
  pose proof (arrappend_json_path_fail root segs j) as Hf.
  destruct (arrappend_json_path root segs j) as [root' r]. cbn [fst snd] in *.
  split; [done|]. intros Hq. by rewrite (Hf Hq).
Qed.

(** ** Store operations *)

Context (clk : clock) (Hclk : clock_before clk T).

Lemma sp_read {R} c k (f : DataEntry -> R) :
  clock_before c T -> spec T ∅ (fun _ => True) (on_engine (fun e => engine_read c e k f)).
Proof. intros Hc. apply (spec_read_only T k _ _ (read_acts c k f)). by apply cs_read. Qed.

Lemma sp_read_map {R A} c k (f : DataEntry -> R) (g : option R -> A) :
  clock_before c T ->
  spec T ∅ (fun _ => True) (r ← on_engine (fun e => engine_read c e k f); mret (g r)).
Proof. intros Hc. eapply spec_map; [by apply sp_read|done|done]. Qed.

Lemma sp_store_get c k : clock_before c T -> spec T ∅ (fun _ => True) (store_get c k).
Proof. apply sp_read_map. Qed.

Lemma sp_upsert {R} k dflt (quiet : R -> Prop) (f : OnyxValue -> OnyxValue * R) :
  keeps_ok quiet f -> value_ok (f dflt).1 -> ~ quiet (f dflt).2 ->
  spec T {[k]} quiet (on_engine_expect (fun e => engine_update_or_insert clk e k dflt f)).
Proof.
  intros Hf H1 H2. apply (spec_on_engine_expect T k quiet _ _ (upsert_acts clk k dflt f)).
  - intros o. apply upsert_is_some.
  - by apply cs_upsert.
Qed.

Lemma sp_update_action {R} k (quiet : R -> Prop) (f : OnyxValue -> OnyxValue * EntryMutation R) :
  keeps_ok_action quiet f ->
  spec T {[k]} (fun r => match r with Some a => quiet a | None => True end)
    (on_engine (fun e => engine_update_if_exists_with_action clk e k f)).
Proof.
  intros Hf. apply (spec_on_engine T k _ _ _ (update_action_acts clk k f)).
  by apply cs_update_action.
Qed.

Lemma sp_update {R} k (quiet : R -> Prop) (f : OnyxValue -> OnyxValue * R) :
  keeps_ok quiet f ->
  spec T {[k]} (fun r => match r with Some a => quiet a | None => True end)
    (on_engine (fun e => engine_update_if_exists clk e k f)).
Proof.
  intros Hf. apply (spec_on_engine T k _ _ _ (update_acts clk k f)). by apply cs_update.
Qed.

Lemma sp_incrby k delta :
  I64_MIN <= delta <= I64_MAX -> spec T {[k]} is_err (incrby clk k delta).
Proof.
  intros Hd. destruct (incrby_default delta Hd). apply sp_upsert; [apply incrby_keeps|done|done].
Qed.

Lemma sp_expiry c k t req : clock_before c T ->
  spec T {[k]} (fun b => b = false) (on_engine (fun e => engine_set_expiry_conditional c e k t req)).
Proof.
  intros Hc. apply (spec_on_engine T k _ _ _ (set_expiry_conditional_acts c k t req)).
  by apply cs_set_expiry.
Qed.

Lemma sp_expire_at c k t : clock_before c T -> spec T {[k]} (fun b => b = false) (expire_at c k t).
Proof.
  intros Hc. apply (spec_on_engine T k _ _ _ (set_expiry_acts c k t)). by apply cs_set_expiry.
Qed.

(** Sweeping expired keys is not observable. *)
Lemma outcome_sweep {A : Type} (K : gset bytes) (quiet : A -> Prop) c st e' (a : A) :
  clock_before c T -> good_store st -> engine_ok e' ->
  dataset e' = m_sweep c (dataset (engine st)) ->
  outcome T K quiet st (with_engine st e') a.
Proof.
  intros Hc Hg Hok Hd.
  assert (Hl : forall k, logical_cell T (dataset e' !! k) =
                         logical_cell T (dataset (engine st) !! k)).
  { intros k. rewrite Hd, lookup_m_sweep. apply logical_live, Hc. }
  constructor; [|done|auto|].
  - constructor; [done|]. intros k. simpl. rewrite Hd, lookup_m_sweep. apply cell_ok_live, Hg.
  - intros _. by apply logical_ext.
Qed.

Lemma sp_all_keys : spec T ∅ (fun _ => True) (on_engine (fun e => engine_all_keys clk e)).
Proof.
  intros st Hg. pose proof (all_keys_acts clk (engine st) (gs_engine st Hg)) as (_ & Hd & Hok).
  unfold on_engine. destruct (engine_all_keys clk (engine st)) as [e' ks].
  eexists _, _. split; [done|]. by apply (outcome_sweep _ _ clk).
Qed.

Lemma sp_keys_matching p : spec T ∅ (fun _ => True) (keys_matching clk p).
Proof.
  unfold keys_matching. assert (H : spec T ∅ (fun _ => True) (store_all_keys clk)).
  { eapply spec_map; [apply sp_all_keys|done|done]. }
  destruct (_ || _); [done|]. eapply spec_map; [exact H|done|done].
Qed.

(** Two-key operations. *)
Lemma sp_two_keys (a b : bytes) (f : OnyxEngine -> OnyxEngine * bool) (g : gmap bytes DataEntry -> gmap bytes DataEntry * bool) :
  (forall e, engine_ok e -> leaves (f e) (g (dataset e)).1 (g (dataset e)).2) ->
  (forall m, values_ok m -> values_ok (g m).1) ->
  (forall (m : gmap bytes DataEntry) (k : bytes), k <> a -> k <> b -> (g m).1 !! k = m !! k) ->
  (forall m, (g m).2 = false -> forall k, logical_cell T ((g m).1 !! k) = logical_cell T (m !! k)) ->
  spec T {[a; b]} (fun r => r = false) (on_engine f).
Proof.
  intros Hf Hv Hfr Hq st Hg. destruct (Hf (engine st) (gs_engine st Hg)) as (Hr & Hd & Hok).
  unfold on_engine. destruct (f (engine st)) as [e' r]. cbn [fst snd] in *. subst r.
  eexists _, _. split; [done|]. constructor.
  - constructor; [done|]. simpl. rewrite Hd. apply Hv, Hg.
  - done.
  - intros k Hk. simpl. rewrite Hd, Hfr by set_solver. done.
  - intros Hfl. apply logical_ext. simpl. rewrite Hd. by apply Hq.
Qed.

Lemma live_is_cell t o en : c_live t o = Some en -> o = Some en.
Proof. destruct o as [x|]; simpl; [|done]. by destruct (expired_by t x). Qed.

Lemma sp_rename a b : spec T {[a; b]} (fun r => r = false) (store_rename clk a b).
Proof.
  apply (sp_two_keys a b _ (m_rename clk a b)).
  - intros e He. by apply rename_acts.
  - intros m Hm. unfold m_rename. destruct (c_live (clk 0%nat) (m !! a)) as [en|] eqn:E; cbn [fst].
    + apply (values_ok_set_cell b (Some en)); [by apply (values_ok_set_cell a None)|].
      apply live_is_cell in E. pose proof (Hm a) as Ha. by rewrite E in Ha.
    + by apply (values_ok_set_cell a None).
  - intros m k Ha Hb. unfold m_rename. destruct (c_live (clk 0%nat) (m !! a)); cbn [fst];
      by rewrite ?lookup_insert_ne, lookup_delete_ne.
  - intros m. unfold m_rename. destruct (c_live (clk 0%nat) (m !! a)) as [en|] eqn:E; [done|].
    cbn [fst]. intros _ k. destruct (decide (k = a)) as [->|Hne].
    + rewrite lookup_delete_eq. symmetry. apply (logical_not_live (clk 0%nat)); [apply Hclk|done].
    + by rewrite lookup_delete_ne.
Qed.

Lemma sp_copy a b : spec T {[a; b]} (fun r => r = false) (store_copy clk a b).
Proof.
  apply (sp_two_keys a b _ (m_copy clk a b)).
  - intros e He. by apply copy_acts.
  - intros m Hm. unfold m_copy. destruct (c_live (clk 0%nat) (m !! a)) as [en|] eqn:E; cbn [fst].
    + case_bool_decide; [done|]. apply (values_ok_set_cell b (Some _)); [done|].
      apply live_is_cell in E. pose proof (Hm a) as Ha. by rewrite E in Ha.
    + by apply (values_ok_set_cell a None).
  - intros m k Ha Hb. unfold m_copy. destruct (c_live (clk 0%nat) (m !! a)); cbn [fst].
    + case_bool_decide; [done|]. by rewrite lookup_insert_ne.
    + by rewrite lookup_delete_ne.
  - intros m. unfold m_copy. destruct (c_live (clk 0%nat) (m !! a)) as [en|] eqn:E; [done|].
    cbn [fst]. intros _ k. destruct (decide (k = a)) as [->|Hne].
    + rewrite lookup_delete_eq. symmetry. apply (logical_not_live (clk 0%nat)); [apply Hclk|done].
    + by rewrite lookup_delete_ne.
Qed.

(** ** Commands that write one key *)

Abbreviation writes k c := (spec T {[k]} unchanged c).
Abbreviation reads c := (spec T ∅ (fun _ => True) c).

(** The reply of an operation that wrote. *)
Lemma sp_reply {A} k (quiet : A -> Prop) (p : prog A) (g : A -> RESPValue * bool) :
  spec T {[k]} quiet p -> (forall a, (g a).2 = false -> quiet a) -> writes k (a ← p; mret (g a)).
Proof. intros Hp Hq. eapply spec_map; [exact Hp|done|exact Hq]. Qed.

Lemma sp_cmd_set args k v : writes k (cmd_set clk args k v).
Proof.
  unfold cmd_set. destruct (set_options clk 0 (drop 3 args) None None) as [[x c]|]; [|apply spec_ret].
  eapply sp_reply.
  - eapply spec_on_engine; [apply set_conditional_acts|].
    apply cs_set_conditional; [by apply clock_before_tick|done].
  - intros b. by destruct b.
Qed.

Lemma sp_cmd_del k : writes k (cmd_del clk k).
Proof.
  eapply sp_reply.
  - eapply spec_on_engine; [apply delete_acts|by apply cs_delete].
  - by intros b.
Qed.

Lemma sp_int_reply k delta :
  I64_MIN <= delta <= I64_MAX -> writes k (r ← incrby clk k delta; mret (int_reply r)).
Proof. intros Hd. eapply sp_reply; [by apply sp_incrby|]. by intros [v|e]. Qed.

Lemma sp_cmd_incr k : writes k (cmd_incr clk k).
Proof. apply sp_int_reply. unfold I64_MIN, I64_MAX. lia. Qed.

Lemma sp_cmd_incrby k a : writes k (cmd_incrby clk k a).
Proof.
  unfold cmd_incrby. destruct (parse_i64 a) as [d|] eqn:E; [|apply spec_ret].
  apply sp_int_reply. by eapply parse_i64_range.
Qed.

Lemma sp_cmd_decrby k a : writes k (cmd_decrby clk k a).
Proof.
  unfold cmd_decrby. destruct (parse_i64 a) as [d|] eqn:E; [|apply spec_ret].
  unfold checked_neg_i64, in_i64. destruct (_ && _) eqn:En; [|apply spec_ret].
  apply sp_int_reply. prop_tests. lia.
Qed.

Lemma sp_upsert_reply {R} k dflt (f : OnyxValue -> OnyxValue * result StoreError R)
    (g : result StoreError R -> RESPValue * bool) (quiet : result StoreError R -> Prop) :
  keeps_ok quiet f -> value_ok (f dflt).1 -> ~ quiet (f dflt).2 ->
  (forall r, (g r).2 = false -> quiet r) ->
  writes k (r ← on_engine_expect (fun e => engine_update_or_insert clk e k dflt f); mret (g r)).
Proof. intros Hf H1 H2 Hq. eapply sp_reply; [by apply sp_upsert|done]. Qed.

Lemma len_reply_quiet r : (len_reply true r).2 = false -> is_err r.
Proof. by destruct r. Qed.

Lemma sp_cmd_append k a : writes k (cmd_append clk k a).
Proof. apply (sp_upsert_reply _ _ _ _ is_err); [apply append_keeps|done|tauto|apply len_reply_quiet]. Qed.

Lemma sp_cmd_lpush k a : writes k (cmd_lpush clk k a).
Proof. apply (sp_upsert_reply _ _ _ _ is_err); [apply lpush_keeps|done|tauto|apply len_reply_quiet]. Qed.

Lemma sp_cmd_rpush k a : writes k (cmd_rpush clk k a).
Proof. apply (sp_upsert_reply _ _ _ _ is_err); [apply rpush_keeps|done|tauto|apply len_reply_quiet]. Qed.

Lemma sp_cmd_hset args k a : writes k (cmd_hset clk args k a).
Proof.
  unfold cmd_hset. destruct (len args <? 4); [apply spec_ret|].
  apply (sp_upsert_reply _ _ _ _ is_err); [apply hset_keeps|apply insert_non_empty|tauto|].
  by intros [b|e].
Qed.

Lemma changed_reply_quiet r : (changed_reply r).2 = false -> flag_quiet r.
Proof. unfold flag_quiet. destruct r as [[|]|]; simpl; auto; discriminate. Qed.

Lemma sp_cmd_sadd k a : writes k (cmd_sadd clk k a).
Proof.
  apply (sp_upsert_reply _ _ _ _ flag_quiet); [apply sadd_keeps|simpl; set_solver| |apply changed_reply_quiet].
  unfold flag_quiet. simpl. by intros [?|?].
Qed.

Lemma sp_cmd_getset k a : writes k (cmd_getset clk k a).
Proof.
  eapply (sp_reply k is_err).
  - apply (spec_on_engine_expect T k is_err _ _
      (upsert_entry_acts clk k (Blob []) (getset_entry a))); [intros o; apply upsert_is_some|].
    apply cs_upsert_entry; [done| |].
    + intros e He. unfold getset_entry. destruct (read_string e); done.
    + intros e He. unfold getset_entry, read_string. rewrite He. split; [done|tauto].
  - by intros [o|e].
Qed.

Lemma sp_cmd_setnx k a : writes k (cmd_setnx clk k a).
Proof.
  eapply sp_reply.
  - eapply spec_on_engine; [apply set_if_absent_acts|].
    apply cs_insert_if_absent; [by apply clock_before_tick|done].
  - by intros b.
Qed.

Lemma sp_action_reply {R} k (f : OnyxValue -> OnyxValue * EntryMutation R)
    (d : R) (g : R -> RESPValue * bool) (quiet : R -> Prop) :
  keeps_ok_action quiet f -> (forall r, (g r).2 = false -> quiet r) ->
  writes k (r ← (r ← on_engine (fun e => engine_update_if_exists_with_action clk e k f);
                 mret (unwrap_or d r)); mret (g r)).
Proof.
  intros Hf Hq. eapply (sp_reply k (fun r => (g r).2 = false)); [|done].
  eapply spec_map; [by apply (sp_update_action k quiet)|done|].
  intros [r|]; simpl; [|done]. apply Hq.
Qed.

Lemma pop_reply_quiet r : (pop_reply r).2 = false -> pop_quiet r.
Proof. unfold pop_quiet. destruct r as [[|]|]; simpl; [discriminate|congruence|tauto]. Qed.

Lemma sp_cmd_lpop k : writes k (cmd_lpop clk k).
Proof. apply (sp_action_reply k lpop_value _ _ pop_quiet); [apply lpop_keeps|apply pop_reply_quiet]. Qed.

Lemma sp_cmd_rpop k : writes k (cmd_rpop clk k).
Proof. apply (sp_action_reply k rpop_value _ _ pop_quiet); [apply rpop_keeps|apply pop_reply_quiet]. Qed.

Lemma sp_cmd_hdel k a : writes k (cmd_hdel clk k a).
Proof. apply (sp_action_reply k (hdel_value a) _ _ flag_quiet); [apply hdel_keeps|apply changed_reply_quiet]. Qed.

Lemma sp_cmd_srem k a : writes k (cmd_srem clk k a).
Proof. apply (sp_action_reply k (srem_value a) _ _ flag_quiet); [apply srem_keeps|apply changed_reply_quiet]. Qed.

Lemma sp_cmd_expireat k a : writes k (cmd_expireat clk k a).
Proof.
  unfold cmd_expireat. destruct (parse_u64 a); [|apply spec_ret].
  eapply sp_reply; [by apply sp_expire_at|by intros b].
Qed.

Lemma sp_cmd_expire args k a : writes k (cmd_expire clk args k a).
Proof.
  unfold cmd_expire. destruct (parse_u64 a) as [secs|]; [|apply spec_ret].
  destruct (to_uppercase <$> args !! 3%nat) as [w|].
  - destruct (negb _ && negb _); [apply spec_ret|].
    eapply (sp_reply k (fun b => b = false)); [|by intros b]. unfold expire_conditional.
    destruct (bytes_eqb w (bs "NX")); [apply sp_expiry; by apply clock_before_tick|].
    destruct (bytes_eqb w (bs "XX")); [apply sp_expiry; by apply clock_before_tick|].
    eapply spec_ret.
  - eapply (sp_reply k (fun b => b = false)); [|by intros b].
    apply sp_expire_at. by apply clock_before_tick.
Qed.

Lemma sp_cmd_json_set args k : writes k (cmd_json_set clk args k).
Proof.
  unfold cmd_json_set. destruct (_ || _); [apply spec_ret|].
  destruct (json_from_str _) as [j|] eqn:Ej; [|apply spec_ret].
  apply parsed_wf in Ej. eapply (sp_reply k is_err); [|by intros [u|e]].
  unfold json_set. destruct (parse_json_path _) as [[|seg segs]|]; [| |apply spec_ret].
  - apply (spec_on_engine_expect T k is_err _ _
      (upsert_presence_acts clk k (Json JNull) (json_set_root j))); [intros o; apply upsert_is_some|].
    apply cs_upsert_entry; [done| |].
    + intros e He. destruct (value e) eqn:Ev; simpl; rewrite ?Ev; try done;
        (split; [done|]; intros _; unfold PersistentEntry_from; simpl; by rewrite Ev).
    + intros e ->. split; [done|tauto].
  - eapply spec_map; [by apply (sp_update k partial_quiet), json_set_partial_keeps|done|].
    intros [[[|]|]|]; simpl; try done; intros _; unfold partial_quiet; congruence.
Qed.

Lemma sp_cmd_json_del args k : writes k (cmd_json_del clk args k).
Proof.
  eapply (sp_reply k (fun r => r = Ok false \/ is_err r)).
  - unfold json_del. destruct (parse_json_path _) as [[|seg segs]|]; [| |apply spec_ret].
    + eapply spec_map; [apply (sp_update_action k (fun r => r = Ok false \/ is_err r))|done|].
      * intros v Hv. destruct v; simpl; try (split; done). by intros [?|?].
      * by intros [r|].
    + eapply spec_map; [by apply (sp_update k partial_quiet), json_del_partial_keeps|done|].
      intros [[[|]|]|]; simpl; try done; unfold partial_quiet; [|congruence..]. by intros [?|?].
  - intros [[|]|]; simpl; auto. done.
Qed.

Lemma sp_json_update k (f : OnyxValue -> OnyxValue * option (result bytes Z))
    (g : result bytes Z -> RESPValue * bool) :
  keeps_ok update_quiet f -> (forall r, (g r).2 = false -> is_err r) ->
  writes k (r ← (r ← on_engine (fun e => engine_update_if_exists clk e k f);
                 mret (json_update_reply r)); mret (g r)).
Proof.
  intros Hf Hg. eapply (sp_reply k is_err); [|exact Hg].
  eapply spec_map; [by apply (sp_update k update_quiet)|done|].
  by intros [[[|]|]|].
Qed.

Lemma sp_cmd_json_numincrby args k : writes k (cmd_json_numincrby clk args k).
Proof.
  unfold cmd_json_numincrby. destruct (f64_parse _) as [d|]; [|apply spec_ret].
  unfold json_numincrby. destruct (parse_json_path _) as [segs|]; [|apply spec_ret].
  apply sp_json_update; [apply json_numincrby_keeps|by intros [?|?]].
Qed.

Lemma sp_cmd_json_arrappend args k : writes k (cmd_json_arrappend clk args k).
Proof.
  unfold cmd_json_arrappend. destruct (json_from_str _) as [j|] eqn:Ej; [|apply spec_ret].
  apply parsed_wf in Ej.
  unfold json_arrappend. destruct (parse_json_path _) as [segs|]; [|apply spec_ret].
  apply sp_json_update; [by apply json_arrappend_keeps|by intros [?|?]].
Qed.

(** ** Commands that write several keys *)

Lemma spec_seq {A B : Type} (K1 K2 : gset bytes) (quiet : A -> Prop) (p : prog A) (f : A -> prog B) :
  spec T K1 quiet p -> (forall a, spec T K2 (fun _ => False) (f a)) ->
  spec T (K1 ∪ K2) (fun _ => False) (p ≫= f).
Proof.
  intros Hp Hf st Hg. destruct (Hp st Hg) as (st1 & a & Heq & [G1 L1 F1 _]).
  destruct (Hf a st1 G1) as (st2 & b & Heq2 & [G2 L2 F2 _]).
  exists st2, b. split; [unfold mbind, prog_bind; by rewrite Heq|].
  constructor; [done| | |done].
  - destruct L1, L2. split; congruence.
  - intros k Hk. rewrite F2 by set_solver. apply F1. set_solver.
Qed.

Lemma sp_store_set c k v : clock_before c T -> spec T {[k]} (fun _ => False) (store_set c k v).
Proof.
  intros Hc. eapply spec_map; [|done|done].
  eapply spec_on_engine; [apply set_acts|by apply cs_set].
Qed.

Lemma sp_mset_all c pairs :
  clock_before c T -> spec T (list_to_set (mset_keys pairs)) (fun _ => False) (mset_all c pairs).
Proof.
  revert c. remember (length pairs) as n eqn:Hn. revert pairs Hn.
  induction (lt_wf n) as [n _ IH]. intros pairs -> c Hc.
  destruct pairs as [|k [|v rest]]; [apply spec_ret|apply spec_ret|].
  cbn [mset_all mset_keys list_to_set]. eapply spec_seq; [by apply sp_store_set|].
  intros _. eapply (IH (length rest)); [simpl; lia|done|by apply clock_before_tick].
Qed.

Lemma sp_cmd_mset args :
  spec T (list_to_set (mset_keys (drop 1 args))) unchanged (cmd_mset clk args).
Proof.
  unfold cmd_mset. destruct (_ || _); [apply spec_ret|].
  eapply spec_map; [by apply sp_mset_all|done|]. by intros a.
Qed.

Lemma sp_cmd_rename a b : spec T {[a; b]} unchanged (cmd_rename clk a b).
Proof. eapply spec_map; [apply sp_rename|done|]. intros r. by destruct r. Qed.

Lemma sp_cmd_copy a b : spec T {[a; b]} unchanged (cmd_copy clk a b).
Proof. eapply spec_map; [apply sp_copy|done|]. by intros r. Qed.

(** ** Commands that read *)

Lemma sp_read_reply {A} (p : prog A) (g : A -> RESPValue * bool) :
  reads p -> reads (a ← p; mret (g a)).
Proof. intros Hp. eapply spec_map; [exact Hp|done|done]. Qed.

Lemma sp_peek k : reads (on_engine (fun e => engine_peek clk e k)).
Proof. apply (spec_read_only T k _ _ (peek_acts clk k)). by apply cs_peek. Qed.

Lemma sp_mget_all c keys : clock_before c T -> reads (mget_all c keys).
Proof.
  revert c. induction keys as [|k ks IH]; intros c Hc; [apply spec_ret|].
  cbn [mget_all]. apply spec_bind; [by apply sp_store_get|]. intros [v|e]; [|apply spec_ret].
  eapply spec_map; [apply IH; by apply clock_before_tick|done|done].
Qed.

Lemma sp_json_read {A} k path (f : Value -> list JsonPathSegment -> option A) :
  reads (json_read clk k path f).
Proof.
  unfold json_read. destruct (parse_json_path path); [|apply spec_ret]. by apply sp_read_map.
Qed.

Lemma sp_hgetall k : reads (hgetall clk k).
Proof. by apply sp_read_map. Qed.

Ltac read_arm :=
  apply sp_read_reply;
  first [ by apply sp_read_map | by apply sp_read | apply sp_json_read
        | by apply sp_mget_all | apply sp_keys_matching
        | eapply spec_map; [first [by apply sp_read_map | apply sp_peek]|done|done] ].

Lemma sp_reads args k a :
  reads (cmd_get clk k) /\ reads (cmd_strlen clk k) /\ reads (cmd_lrange clk args k) /\
  reads (cmd_llen clk k) /\ reads (cmd_ttl clk k) /\ reads (cmd_exists clk k) /\
  reads (cmd_type clk k) /\ reads (cmd_keys clk k) /\ reads (cmd_mget clk args) /\
  reads (cmd_hget clk k a) /\ reads (cmd_hgetall clk k) /\ reads (cmd_hkeys clk k) /\
  reads (cmd_hvals clk k) /\ reads (cmd_smembers clk k) /\ reads (cmd_sismember clk k a) /\
  reads (cmd_json_get clk args k) /\ reads (cmd_json_type clk args k) /\
  reads (cmd_json_arrlen clk args k) /\ reads (cmd_json_objkeys clk args k).
Proof. repeat split; read_arm. Qed.

(** ** The table *)

(** What an arm must satisfy under its guard. *)
Definition arm_ok (K : gset bytes) (cmd : bytes) (n : Z)
    (arm : bytes * Z * prog (RESPValue * bool)) : Prop :=
  cmd = arm.1.1 -> arm.1.2 <= n ->
  spec T K (fun r => is_write_command cmd = true -> unchanged r) arm.2.

Lemma select_arm_spec (K : gset bytes) (cmd : bytes) n arms :
  Forall (arm_ok K cmd n) arms ->
  spec T K (fun r => is_write_command cmd = true -> unchanged r) (select_arm cmd n arms).
Proof.
  induction 1 as [|[[name least] action] arms Ha _ IH]; cbn [select_arm]; [apply spec_ret|].
  destruct (bytes_eqb_spec cmd name) as [Hc|Hc]; cbn [andb]; [|exact IH].
  destruct (least <=? n) eqn:E; [|exact IH]. prop_tests. by apply Ha.
Qed.

Lemma retain_unique_elem seen keys k :
  k ∈ retain_unique seen keys <-> k ∈ keys /\ k ∉ seen.
Proof.
  revert seen. induction keys as [|x keys IH]; intros seen; cbn [retain_unique]; [set_solver|].
  case_bool_decide as Hx; rewrite !elem_of_cons, ?IH, ?not_elem_of_union, ?not_elem_of_singleton;
    destruct (decide (k = x)) as [->|Hne]; tauto.
Qed.

Lemma arg_at args (i : nat) : Z.of_nat i < len args -> args !! i = Some (arg_or_empty args i).
Proof.
  intros H. unfold arg_or_empty. destruct (args !! i) eqn:E; [done|].
  apply lookup_ge_None in E. unfold len in H. lia.
Qed.

(** The key of a one-key write command is among the affected keys. *)
Lemma affected_one args :
  is_write_command (arg_or_empty args 0) = true ->
  bytes_eqb (arg_or_empty args 0) (bs "MSET") = false -> 2 <= len args ->
  arg_or_empty args 1 ∈ affected_keys args.
Proof.
  intros Hw Hm Hn. unfold affected_keys. rewrite Hm, Hw, retain_unique_elem.
  rewrite (arg_at args 1) by lia. split; [|apply not_elem_of_empty]. destruct (_ || _); apply elem_of_cons; by left.
Qed.

Lemma affected_two args :
  (arg_or_empty args 0 = bs "RENAME" \/ arg_or_empty args 0 = bs "COPY") -> 3 <= len args ->
  arg_or_empty args 1 ∈ affected_keys args /\ arg_or_empty args 2 ∈ affected_keys args.
Proof.
  intros Hc Hn. unfold affected_keys. rewrite !retain_unique_elem.
  rewrite (arg_at args 1), (arg_at args 2) by lia.
  assert (Hs : bytes_eqb (arg_or_empty args 0) (bs "MSET") = false /\
    bytes_eqb (arg_or_empty args 0) (bs "RENAME") || bytes_eqb (arg_or_empty args 0) (bs "COPY") = true).
  { destruct Hc as [-> | ->]; split; reflexivity. }
  destruct Hs as [-> ->]. cbn [opt_list app]. rewrite !elem_of_cons.
  repeat split; auto; apply not_elem_of_empty.
Qed.

Lemma affected_mset args :
  arg_or_empty args 0 = bs "MSET" ->
  list_to_set (mset_keys (drop 1 args)) ⊆ (list_to_set (affected_keys args) : gset bytes).
Proof.
  intros Hc k Hk. apply elem_of_list_to_set in Hk. apply elem_of_list_to_set.
  unfold affected_keys. rewrite Hc, retain_unique_elem, bytes_eqb_refl.
  split; [done|apply not_elem_of_empty].
Qed.

Lemma arm_write args cmd name least (c : prog (RESPValue * bool)) :
  cmd = arg_or_empty args 0 -> is_write_command name = true -> bytes_eqb name (bs "MSET") = false ->
  2 <= least -> writes (arg_or_empty args 1) c ->
  arm_ok (list_to_set (affected_keys args)) cmd (len args) (name, least, c).
Proof.
  intros Hcmd Hw Hm Hl Hc Hname Hn. cbn [fst snd] in *. rewrite Hname, Hw.
  eapply spec_weaken; [exact Hc| |auto]. apply singleton_subseteq_l, elem_of_list_to_set.
  apply affected_one; rewrite <- ?Hcmd, ?Hname; [done|done|lia].
Qed.

Lemma arm_read args cmd name least (c : prog (RESPValue * bool)) :
  reads c -> arm_ok (list_to_set (affected_keys args)) cmd (len args) (name, least, c).
Proof. intros Hc _ _. eapply spec_weaken; [exact Hc|set_solver|done]. Qed.

Ltac write_arm lem := apply arm_write; [done|reflexivity|reflexivity|lia|apply lem].

Lemma table_ok args cmd :
  cmd = arg_or_empty args 0 ->
  Forall (arm_ok (list_to_set (affected_keys args)) cmd (len args))
    (command_table clk args (arg_or_empty args 1) (arg_or_empty args 2)).
Proof.
  intros Hcmd. pose proof (sp_reads args (arg_or_empty args 1) (arg_or_empty args 2)) as Hr.
  destruct_and! Hr. unfold command_table.
  repeat (constructor;
    [first [ by apply arm_read | apply arm_read; apply spec_ret
           | write_arm sp_cmd_set | write_arm sp_cmd_del | write_arm sp_cmd_incr
           | write_arm sp_cmd_lpush | write_arm sp_cmd_rpush | write_arm sp_cmd_lpop
           | write_arm sp_cmd_rpop | write_arm sp_cmd_expireat | write_arm sp_cmd_json_del
           | write_arm sp_cmd_json_numincrby | write_arm sp_cmd_json_arrappend
           | write_arm sp_cmd_sadd | write_arm sp_cmd_srem | write_arm sp_cmd_hset
           | write_arm sp_cmd_hdel | write_arm sp_cmd_incrby | write_arm sp_cmd_decrby
           | write_arm sp_cmd_append | write_arm sp_cmd_getset | write_arm sp_cmd_setnx
           | write_arm sp_cmd_expire | idtac ]|]); [| | | |constructor].
  - (* JSON.SET checks its argument count itself *)
    intros Hname _. cbn [fst snd] in *. destruct (4 <=? len args) eqn:E; prop_tests.
    + eapply (arm_write args cmd (bs "JSON.SET") 2); [done|reflexivity|reflexivity|lia| |done|simpl; lia].
      apply sp_cmd_json_set.
    + unfold cmd_json_set. replace (len args <? 4) with true by (symmetry; apply Z.ltb_lt; lia).
      apply spec_ret.
  - (* RENAME *)
    intros Hname Hn. cbn [fst snd] in *. rewrite Hcmd in Hname.
    destruct (affected_two args (or_introl Hname) Hn) as [Ha1 Ha2].
    eapply spec_weaken; [apply sp_cmd_rename| |intros r Hq; apply Hq; by rewrite Hcmd, Hname].
    intros k. rewrite elem_of_union, !elem_of_singleton, elem_of_list_to_set. by intros [-> | ->].
  - (* MSET *)
    intros Hname _. cbn [fst snd] in *. rewrite Hcmd in Hname.
    eapply spec_weaken; [apply sp_cmd_mset|by apply affected_mset|].
    intros r Hq. apply Hq. by rewrite Hcmd, Hname.
  - (* COPY *)
    intros Hname Hn. cbn [fst snd] in *. rewrite Hcmd in Hname.
    destruct (affected_two args (or_intror Hname) Hn) as [Ha1 Ha2].
    eapply spec_weaken; [apply sp_cmd_copy| |intros r Hq; apply Hq; by rewrite Hcmd, Hname].
    intros k. rewrite elem_of_union, !elem_of_singleton, elem_of_list_to_set. by intros [-> | ->].
Qed.

Lemma dispatch_spec args :
  spec T (list_to_set (affected_keys args))
    (fun r => is_write_command (arg_or_empty args 0) = true -> unchanged r) (dispatch clk args).
Proof.
  unfold dispatch. destruct (_ && _ && _); [apply spec_ret|].
  by apply select_arm_spec, table_ok.
Qed.

(** The outcome says truthfully whether the logical state may have changed. *)
Lemma execute_spec args :
  spec T (list_to_set (affected_keys args)) (fun o => mutation o <> Tentative)
    (execute_command clk args).
Proof.
  intros st Hg. destruct (dispatch_spec args st Hg) as (st' & [r b] & Heq & [H1 H2 H3 H4]).
  unfold execute_command, mbind, prog_bind. rewrite Heq. eexists _, _. split; [done|].
  constructor; [done|done|done|]. cbn [mutation]. intros Hq. apply H4. intros Hw. unfold unchanged.
  rewrite Hw in Hq. by destruct b.
Qed.

End CommandSpecs.
