(* ===== verification/Admission.v ===== *)
(** * Admission: mutation attempts, admission control and rollback (src/store.rs)

    [begin_mutation] captures the entries a command may change, [store_admit]
    enforces the key and memory limits after the command has run, evicting if
    the policy allows it, and a rollback restores what was captured. *)

From Stdlib Require Import ZArith Lia.
From Stdlib Require Import Strings.Byte.
From stdpp Require Import base gmap list strings numbers.
From S2P Require Import Prelude Text Json JsonPath Value Shard Engine Store.

Open Scope Z_scope.

Inductive AdmissionError : Type := KeyLimit | Maxmemory.

Definition AdmissionError_message (e : AdmissionError) : bytes :=
  match e with
  | KeyLimit => bs "ERR database key limit reached"
  | Maxmemory =>
    bs "OOM command not allowed because the projected memory usage exceeds maxmemory"
  end.

Definition key_limit_requires_exact_count (physical_keys possible_new_keys : Z) : bool :=
  (0 <? possible_new_keys) && (MAX_KEYS <? sat_add physical_keys possible_new_keys).

Record MutationAttempt {JN : JsonNumber} : Type := mkAttempt {
  before_entries : gmap bytes (option DataEntry);
  memory_before : option Z;
  key_count_before : option Z;
  evicted_entries : list (bytes * DataEntry);
  active : bool
}.

Record MutationRollback {JN : JsonNumber} : Type := mkRollback {
  rb_before : gmap bytes (option DataEntry);
  rb_evicted : list (bytes * DataEntry)
}.

Section Attempts.
Context {JN : JsonNumber} {SJ : SerdeJson} {HO : HashOrder}.

(** [keys.iter().map(|key| (key, peek(key))).collect()]. *)
Fixpoint capture (clk : clock) (keys : list bytes) (acc : gmap bytes (option DataEntry))
  : prog (gmap bytes (option DataEntry)) :=
  match keys with
  | [] => mret acc
  | key :: rest =>
    o ← on_engine (fun e => engine_peek clk e key);
    capture (tick 1 clk) rest (<[key := o]> acc)
  end.

(** The [expect] on a missing memory baseline. *)
Definition panic {A} : prog A := fun _ => None.
Definition get_limit : prog Z := fun st => Some (st, maxmemory_bytes st).
Definition get_policy : prog EvictionPolicy := fun st => Some (st, maxmemory_policy st).
Definition physical_keys : prog Z := fun st => Some (st, physical_key_count (engine st)).

Definition begin_mutation (clk : clock) (keys : list bytes) : prog MutationAttempt :=
  before ← capture clk keys ∅;
  let possible_new_keys :=
    Z.of_nat (size (filter (fun kv : bytes * option DataEntry => kv.2 = None) before)) in
  physical ← physical_keys;
  count ← (if key_limit_requires_exact_count physical possible_new_keys
           then s ← store_stats (tick (length keys) clk); mret (Some (stats_total_keys s))
           else mret None);
  limit ← get_limit;
  memory ← (if 0 <? limit
            then m ← used_memory_bytes (tick (length keys + 64) clk); mret (Some m)
            else mret None);
  mret (mkAttempt JN before memory count [] true).

(** Reinstates a list of entries in order. *)
Fixpoint reapply (clk : clock) (entries : list (bytes * DataEntry)) : prog unit :=
  match entries with
  | [] => mret tt
  | (key, entry) :: rest =>
    _ ← on_engine (fun e => engine_apply_entry clk e key entry);
    reapply (tick 8 clk) rest
  end.

(** [store.engine.evict_to_fit] with the limits of the store; [nanos] are the
    sub-second readings of the random policies. *)
Definition store_evict_to_fit (clk : clock) (nanos : nat -> Z) (limit : Z)
    (policy : EvictionPolicy) (protected : gset bytes) : prog (list (bytes * DataEntry)) := fun st =>
  match evict_to_fit clk nanos (engine st) limit policy protected with
  | Some (e, evicted) => Some (with_engine st e, evicted)
  | None => None
  end.

(** The stages of an admission read the clock one after the other: a stage
    gets its own stream. *)
Definition store_admit (clks : nat -> clock) (nanos : nat -> Z) (protected_keys : list bytes)
    (a : MutationAttempt) : prog (MutationAttempt * result AdmissionError unit) :=
  over_keys ← (match key_count_before a with
               | Some before =>
                 s ← store_stats (clks 0%nat);
                 mret ((MAX_KEYS <? stats_total_keys s) && (before <? stats_total_keys s))
               | None => mret false
               end);
  if over_keys : bool then mret (a, Err KeyLimit)
  else
    limit ← get_limit;
    if limit =? 0 then mret (a, Ok tt)
    else
      memory_after ← used_memory_bytes (clks 1%nat);
      match memory_before a with
      | None => panic
      | Some memory_before =>
        if (memory_after <=? limit) || (memory_after <=? memory_before) then mret (a, Ok tt)
        else
          policy ← get_policy;
          if bool_decide (policy = NoEviction) then mret (a, Err Maxmemory)
          else
            evicted ← store_evict_to_fit (clks 2%nat) nanos limit policy
              (list_to_set protected_keys);
            used ← used_memory_bytes (clks 3%nat);
            if used <=? limit then
              mret (mkAttempt JN (before_entries a) (Some memory_before) (key_count_before a)
                      (evicted_entries a ++ evicted) (active a), Ok tt)
            else
              _ ← reapply (clks 4%nat) evicted;
              mret (a, Err Maxmemory)
      end.

(** The first loop of [restore_entries]. *)
Fixpoint restore_before (clk : clock) (l : list (bytes * option DataEntry)) : prog unit :=
  match l with
  | [] => mret tt
  | (key, previous) :: rest =>
    _ ← (match previous with
         | Some entry =>
           _ ← on_engine (fun e => engine_apply_entry clk e key entry); mret tt
         | None => _ ← on_engine (fun e => engine_delete clk e key); mret tt
         end);
    restore_before (tick 8 clk) rest
  end.

Definition restore_entries (clks : nat -> clock) (before : gmap bytes (option DataEntry))
    (evicted : list (bytes * DataEntry)) : prog unit :=
  _ ← restore_before (clks 0%nat) (hm_iter before);
  reapply (clks 1%nat)
    (filter (fun ke : bytes * DataEntry => before !! ke.1 = None) evicted).

Definition rollback_from_baseline (before : gmap bytes (option DataEntry)) : MutationRollback :=
  mkRollback JN before [].

Definition rollback_restore (clks : nat -> clock) (r : MutationRollback) : prog unit :=
  restore_entries clks (rb_before r) (rb_evicted r).

Definition attempt_rollback (clks : nat -> clock) (a : MutationAttempt) : prog unit :=
  restore_entries clks (before_entries a) (evicted_entries a).

Definition attempt_into_rollback (a : MutationAttempt) : MutationRollback :=
  mkRollback JN (before_entries a) (evicted_entries a).

(** Dropping an attempt that was neither committed nor rolled back. *)
Definition attempt_drop (clks : nat -> clock) (a : MutationAttempt) : prog unit :=
  if active a then attempt_rollback clks a else mret tt.

End Attempts.

(** * Admission and rollback against the logical state *)

From S2P Require Import ShardSpec EngineSpec EngineMulti EngineWhole EngineActs EngineEvict Model EntryEq StoreSpec ModelSpec.

Section Admission.
Context {JN : JsonNumber} {SJ : SerdeJson} {HO : HashOrder}.

(** ** Quiet stages *)

Lemma sweep_quiet T clk st e' :
  clock_before clk T -> engine_ok e' -> (engine_wf (engine st) -> engine_wf e') ->
  dataset e' = m_sweep clk (dataset (engine st)) -> quiet_run T st (with_engine st e').
Proof.
  intros Hclk Hok Hwf Hd. constructor; [done|done|done| |].
  - intros k. unfold cell_at. simpl. rewrite Hd, lookup_m_sweep. apply logical_live, Hclk.
  - intros Hv. simpl. rewrite Hd. apply (values_ok_sub _ _ (m_sweep_sub _ _) Hv).
Qed.

Lemma used_memory_quiet T clk st :
  clock_before clk T -> engine_ok (engine st) ->
  exists st' m, used_memory_bytes clk st = Some (st', m) /\ quiet_run T st st' /\
    (engine_wf (engine st) -> m = footprint (dataset (engine st'))).
Proof.
  intros Hclk Hok. pose proof (total_memory_acts clk (engine st) Hok) as (_ & Hd & Hok').
  pose proof (total_memory_spec clk (engine st)) as Hwf.
  unfold used_memory_bytes, on_engine.
  destruct (engine_total_memory_bytes clk (engine st)) as [e' m]. cbn [fst snd] in *.
  eexists _, _. split; [done|]. split.
  - apply (sweep_quiet T clk); [done|done| |done]. intros Hw. by destruct (Hwf Hw) as (_ & _ & ? & _).
  - intros Hw. destruct (Hwf Hw) as (Hm & Hd' & _). simpl in *. by rewrite Hd'.
Qed.

Lemma stats_quiet T clk st :
  clock_before clk T -> engine_ok (engine st) ->
  exists st' s, store_stats clk st = Some (st', s) /\ quiet_run T st st' /\
    (engine_wf (engine st) -> stats_total_keys s = Z.of_nat (size (dataset (engine st')))).
Proof.
  intros Hclk Hok. pose proof (stats_acts clk (engine st) Hok) as (_ & Hd & Hok').
  pose proof (stats_spec clk (engine st)) as Hwf.
  unfold store_stats, on_engine.
  destruct (engine_stats clk (engine st)) as [e' s]. cbn [fst snd] in *.
  eexists _, _. split; [done|]. split.
  - apply (sweep_quiet T clk); [done|done| |done]. intros Hw.
    by destruct (Hwf Hw) as ((_ & _ & ? & _) & _).
  - intros Hw. destruct (Hwf Hw) as ((_ & Hd' & _) & Hs & _). simpl in *. by rewrite Hs, Hd'.
Qed.

(** ** Beginning an attempt *)

Lemma capture_spec (T : Z) (clk : clock) (keys : list bytes) (acc : gmap bytes (option DataEntry))
    (st : ShardedStore) :
  clock_before clk T -> engine_ok (engine st) ->
  exists st' before, capture clk keys acc st = Some (st', before) /\ quiet_run T st st' /\
    (forall k, (k ∈ keys -> exists o, before !! k = Some o /\ logical_cell T o = cell_at T st k) /\
               (k ∉ keys -> before !! k = acc !! k)) /\
    (values_ok (dataset (engine st)) -> map_Forall (fun _ o => cell_ok o) acc ->
     map_Forall (fun _ o => cell_ok o) before).
Proof.
  revert clk acc st. induction keys as [|key rest IH]; intros clk acc st Hclk Hok; cbn [capture].
  - exists st, acc. split; [done|]. split; [by apply quiet_refl|]. split; [|done]. intros k.
    split; [by intros ?%not_elem_of_nil|done].
  - destruct (peek_quiet T clk key st Hclk Hok) as (st1 & o & H1 & Q1 & Ho & Hvo).
    unfold mbind, prog_bind. rewrite H1.
    destruct (IH (tick 1 clk) (<[key := o]> acc) st1) as (st2 & before & H2 & Q2 & Hb & Hv);
      [by apply clock_before_tick|apply Q1|].
    exists st2, before. split; [done|]. split; [by eapply quiet_trans|]. split.
    2: { intros Hok1 Hacc. apply Hv; [by apply Q1|]. apply map_Forall_insert_2; auto. }
    intros k.
    destruct (Hb k) as [Hin Hout]. split.
    + intros Hk. destruct (decide (k ∈ rest)) as [Hr|Hr].
      * destruct (Hin Hr) as (o' & -> & Ho'). exists o'. split; [done|].
        by rewrite Ho', (qr_cells _ _ _ Q1).
      * assert (k = key) as -> by (apply elem_of_cons in Hk; tauto).
        exists o. split; [|done]. by rewrite (Hout Hr), lookup_insert_eq.
    + intros Hk. rewrite not_elem_of_cons in Hk. rewrite Hout by tauto.
      apply lookup_insert_ne. intros ->. tauto.
Qed.

(** What the attempt captured of the state it began in. *)
Record captured (T : Z) (keys : list bytes) (st : ShardedStore) (a : MutationAttempt) : Prop := {
  cap_keys : forall k, k ∈ keys ->
    exists o, before_entries a !! k = Some o /\ logical_cell T o = cell_at T st k;
  cap_only : forall k, k ∉ keys -> before_entries a !! k = None;
  cap_memory : maxmemory_bytes st <> 0 -> is_Some (memory_before a);
  cap_values : values_ok (dataset (engine st)) -> map_Forall (fun _ o => cell_ok o) (before_entries a)
}.

Lemma begin_mutation_spec T clk keys st :
  clock_before clk T -> engine_ok (engine st) -> 0 <= maxmemory_bytes st ->
  exists st' a, begin_mutation clk keys st = Some (st', a) /\ quiet_run T st st' /\
    captured T keys st a /\ evicted_entries a = [] /\ active a = true.
Proof.
  intros Hclk Hok Hmm. unfold begin_mutation.
  destruct (capture_spec T clk keys ∅ st Hclk Hok) as (st1 & before & H1 & Q1 & Hb & Hv).
  rewrite (bind_run _ _ _ _ _ H1). rewrite (bind_run _ _ st1 st1 _ eq_refl).
  set (cond := key_limit_requires_exact_count _ _).
  assert (H2 : exists st2 c, (if cond
      then s ← store_stats (tick (length keys) clk); mret (Some (stats_total_keys s))
      else mret None : prog (option Z)) st1 = Some (st2, c) /\ quiet_run T st1 st2).
  { destruct cond.
    - destruct (stats_quiet T (tick (length keys) clk) st1) as (st2 & s & E2 & Q2 & _);
        [by apply clock_before_tick|apply Q1|].
      eexists _, _. rewrite (bind_run _ _ _ _ _ E2). done.
    - eexists _, _. split; [done|]. apply quiet_refl, Q1. }
  destruct H2 as (st2 & c & E2 & Q2). rewrite (bind_run _ _ _ _ _ E2).
  rewrite (bind_run _ _ st2 st2 _ eq_refl).
  assert (Q12 : quiet_run T st st2) by (by eapply quiet_trans).
  assert (HL : maxmemory_bytes st2 = maxmemory_bytes st) by apply (qr_limits _ _ _ Q12).
  assert (Hcap : forall m, (maxmemory_bytes st <> 0 -> is_Some m) ->
    captured T keys st (mkAttempt JN before m c [] true)).
  { intros m Hm. constructor; [|intros k Hk; simpl; rewrite (proj2 (Hb k)) by done; apply lookup_empty|done|].
    - intros k Hk. by apply Hb.
    - intros Hok0. by apply Hv, map_Forall_empty. }
  destruct (0 <? maxmemory_bytes st2) eqn:El; prop_tests.
  - destruct (used_memory_quiet T (tick (length keys + 64) clk) st2) as (st3 & m & E3 & Q3 & _);
      [by apply clock_before_tick|apply Q2|].
    eexists _, _. split; [unfold mbind, prog_bind; by rewrite E3|]. split; [by eapply quiet_trans|].
    split; [apply Hcap; eauto|]. done.
  - eexists _, _. split; [done|]. split; [done|]. split; [apply Hcap; lia|]. done.
Qed.

(** ** Restoring *)

Definition restore_effect (ko : bytes * option DataEntry) : CommittedEffect :=
  match ko.2 with Some e => Put ko.1 (PersistentEntry_from e) | None => DeleteKey ko.1 end.

Lemma apply_entry_run T clk key entry st :
  clock_before clk T -> engine_ok (engine st) ->
  exists st' o, on_engine (fun e => engine_apply_entry clk e key entry) st = Some (st', o) /\
    engine_ok (engine st') /\ same_limits st st' /\
    (forall k, cell_at T st' k = effect_on T k (cell_at T st k) (restore_effect (key, Some entry))) /\
    (value_ok (value entry) -> keeps_values st st').
Proof.
  intros Hclk Hok. pose proof (apply_entry_acts clk key entry (engine st) Hok) as (_ & Hd & Hok').
  unfold on_engine. destruct (engine_apply_entry _ _ _ _) as [e' r]. cbn [fst] in *.
  eexists _, _. split; [done|]. split; [done|]. split; [done|]. split.
  2: { intros He Hv. simpl. rewrite Hd. apply values_ok_set_cell; [done|]. unfold c_apply.
       by destruct (expired_by (clk 1%nat) entry). }
  intros k. unfold cell_at. simpl.
  rewrite Hd. case_bool_decide as Hk.
  - subst k. rewrite lookup_set_cell_eq, <- logical_cell_some. unfold c_apply.
    destruct (expired_by (clk 1%nat) entry) eqn:E; cbn [fst]; [|done].
    symmetry. apply (logical_not_live (clk 1%nat)); [apply Hclk|]. simpl. by rewrite E.
  - by rewrite lookup_set_cell_ne by done.
Qed.

Lemma delete_run T clk key st :
  engine_ok (engine st) ->
  exists st' b, on_engine (fun e => engine_delete clk e key) st = Some (st', b) /\
    engine_ok (engine st') /\ same_limits st st' /\
    (forall k, cell_at T st' k = effect_on T k (cell_at T st k) (restore_effect (key, None))) /\
    keeps_values st st'.
Proof.
  intros Hok. pose proof (delete_acts clk key (engine st) Hok) as (_ & Hd & Hok').
  unfold on_engine. destruct (engine_delete _ _ _) as [e' r]. cbn [fst] in *.
  eexists _, _. split; [done|]. split; [done|]. split; [done|]. split.
  2: { intros Hv. simpl. rewrite Hd. by apply values_ok_set_cell. }
  intros k. unfold cell_at. simpl.
  rewrite Hd. case_bool_decide as Hk.
  - subst k. by rewrite lookup_set_cell_eq.
  - by rewrite lookup_set_cell_ne by done.
Qed.

Lemma restore_before_run T clk l st :
  clock_before clk T -> engine_ok (engine st) ->
  exists st', restore_before clk l st = Some (st', tt) /\ engine_ok (engine st') /\
    same_limits st st' /\
    (forall k, cell_at T st' k = fold_left (effect_on T k) (map restore_effect l) (cell_at T st k)) /\
    (Forall (fun ko => cell_ok ko.2) l -> keeps_values st st').
Proof.
  revert clk st. induction l as [|[key o] l IH]; intros clk st Hclk Hok; cbn [restore_before map fold_left].
  - exists st. repeat (split; [done|]). by intros _ ?.
  - assert (H1 : exists st1, (match o with
        | Some entry => _ ← on_engine (fun e => engine_apply_entry clk e key entry); mret tt
        | None => _ ← on_engine (fun e => engine_delete clk e key); mret tt
        end) st = Some (st1, tt) /\ engine_ok (engine st1) /\ same_limits st st1 /\
      (forall k, cell_at T st1 k = effect_on T k (cell_at T st k) (restore_effect (key, o))) /\
      (cell_ok o -> keeps_values st st1)).
    { destruct o as [entry|]; unfold mbind, prog_bind.
      - destruct (apply_entry_run T clk key entry st Hclk Hok) as (st1 & r & -> & H). by exists st1.
      - destruct (delete_run T clk key st Hok) as (st1 & r & -> & H & ? & ? & ?). by exists st1. }
    destruct H1 as (st1 & H1 & Hok1 & [L1 L1'] & Hc1 & Hv1).
    destruct (IH (tick 8 clk) st1) as (st2 & H2 & Hok2 & [L2 L2'] & Hc2 & Hv2);
      [by apply clock_before_tick|done|].
    exists st2. unfold mbind at 1, prog_bind at 1. rewrite H1. split; [done|]. split; [done|].
    split; [split; congruence|]. split; [intros k; by rewrite Hc2, Hc1|].
    intros [Hko Hl]%list.Forall_cons Hv. by apply Hv2, Hv1.
Qed.

Lemma reapply_run T clk l st :
  clock_before clk T -> engine_ok (engine st) ->
  exists st', reapply clk l st = Some (st', tt) /\ engine_ok (engine st') /\ same_limits st st' /\
    (forall k, cell_at T st' k =
      fold_left (effect_on T k) (map (fun ke => restore_effect (ke.1, Some ke.2)) l) (cell_at T st k)) /\
    (Forall (fun ke => value_ok (value ke.2)) l -> keeps_values st st').
Proof.
  revert clk st. induction l as [|[key en] l IH]; intros clk st Hclk Hok; cbn [reapply map fold_left].
  - exists st. repeat (split; [done|]). by intros _ ?.
  - destruct (apply_entry_run T clk key en st Hclk Hok) as (st1 & r & H1 & Hok1 & [L1 L1'] & Hc1 & Hv1).
    destruct (IH (tick 8 clk) st1) as (st2 & H2 & Hok2 & [L2 L2'] & Hc2 & Hv2);
      [by apply clock_before_tick|done|].
    exists st2. unfold mbind, prog_bind. rewrite H1. split; [done|]. split; [done|].
    split; [split; congruence|]. split; [intros k; by rewrite Hc2, Hc1|].
    intros [Hko Hl]%list.Forall_cons Hv. by apply Hv2, Hv1.
Qed.

(** The last word on a key of a list of restorations. *)
Lemma fold_restore (T : Z) (l : list (bytes * option DataEntry)) (k : bytes)
    (c : option PersistentEntry) :
  NoDup l.*1 ->
  (k ∉ l.*1 -> fold_left (effect_on T k) (map restore_effect l) c = c) /\
  (forall o, (k, o) ∈ l -> fold_left (effect_on T k) (map restore_effect l) c = logical_cell T o).
Proof.
  assert (Hkey : forall eff (l : list (bytes * option DataEntry)), eff ∈ map restore_effect l ->
    match eff with Put key _ | DeleteKey key => key ∈ l.*1 end).
  { clear. intros eff l. rewrite list_elem_of_In. intros Hin. apply in_map_iff in Hin as ([key o] & <- & Hin).
    apply list_elem_of_In in Hin. destruct o; simpl; apply list_elem_of_fmap; by eexists (key, _). }
  intros Hnd. split.
  - intros Hk. apply fold_effects_other. intros eff Heff. apply Hkey in Heff. destruct eff; by intros ->.
  - revert c. induction l as [|[k0 o0] l IH]; intros c o Hin; [by apply not_elem_of_nil in Hin|].
    apply list.NoDup_cons in Hnd as [Hnin Hnd]. cbn [map fold_left].
    apply elem_of_cons in Hin as [[= -> ->]|Hin]; [|by apply IH].
    rewrite (fold_effects_other T k0 (map restore_effect l)).
    + destruct o0; simpl; rewrite bool_decide_eq_true_2 by done; [|done]. by rewrite logical_cell_some.
    + intros eff Heff. apply Hkey in Heff. destruct eff; by intros ->.
Qed.

Lemma restore_entries_spec (T : Z) (clks : nat -> clock) (before : gmap bytes (option DataEntry))
    (evicted : list (bytes * DataEntry)) (st : ShardedStore) :
  (forall i, clock_before (clks i) T) -> engine_ok (engine st) -> NoDup evicted.*1 ->
  exists st', restore_entries clks before evicted st = Some (st', tt) /\
    engine_ok (engine st') /\ same_limits st st' /\
    (map_Forall (fun _ o => cell_ok o) before -> Forall (fun ke => value_ok (value ke.2)) evicted ->
     keeps_values st st') /\
    forall k,
      (forall o, before !! k = Some o -> cell_at T st' k = logical_cell T o) /\
      (before !! k = None -> forall en, (k, en) ∈ evicted -> cell_at T st' k = logical_cell T (Some en)) /\
      (before !! k = None -> k ∉ evicted.*1 -> cell_at T st' k = cell_at T st k).
Proof.
  intros Hclk Hok Hnd. unfold restore_entries.
  destruct (restore_before_run T (clks 0%nat) (hm_iter before) st (Hclk 0%nat) Hok)
    as (st1 & H1 & Hok1 & [L1 L1'] & Hc1 & Hv1).
  set (l2 := filter (fun ke : bytes * DataEntry => before !! ke.1 = None) evicted).
  destruct (reapply_run T (clks 1%nat) l2 st1 (Hclk 1%nat) Hok1) as (st2 & H2 & Hok2 & [L2 L2'] & Hc2 & Hv2).
  exists st2. unfold mbind, prog_bind. rewrite H1. split; [done|]. split; [done|].
  split; [split; congruence|]. split.
  { intros Hb He Hv. apply Hv2;
    [apply list.Forall_forall; intros ke [_ Hin]%list_elem_of_filter; revert ke Hin; by apply list.Forall_forall|]. apply Hv1; [|done].
    apply list.Forall_forall. intros [k o] Hin. rewrite hm_iter_perm, elem_of_map_to_list in Hin.
    apply (Hb k o Hin). }
  intros k. rewrite Hc2, Hc1.
  set (l2' := (fun ke : bytes * DataEntry => (ke.1, Some ke.2)) <$> l2).
  replace (map (fun ke => restore_effect (ke.1, Some ke.2)) l2) with (map restore_effect l2')
    by (unfold l2'; by rewrite (map_map (fun ke : bytes * DataEntry => (ke.1, Some ke.2)))).
  assert (Hk2 : l2'.*1 = l2.*1).
  { unfold l2'. rewrite <- list_fmap_compose. done. }
  assert (Hnd2 : NoDup l2'.*1).
  { rewrite Hk2. apply (sublist_NoDup _ evicted.*1); [done|]. apply fmap_sublist, sublist_filter. }
  assert (Hin2 : forall k, k ∈ l2'.*1 -> before !! k = None /\ k ∈ evicted.*1).
  { intros k0. rewrite Hk2. intros ([k1 e1] & -> & Hin)%list_elem_of_fmap.
    apply list_elem_of_filter in Hin as [? Hin]. split; [done|]. apply list_elem_of_fmap. by exists (k1, e1). }
  destruct (fold_restore T (hm_iter before) k (cell_at T st k)) as [Ho1 Hi1].
  { apply hm_iter_NoDup. }
  destruct (fold_restore T l2' k (fold_left (effect_on T k) (map restore_effect (hm_iter before))
    (cell_at T st k)) Hnd2) as [Ho2 Hi2].
  assert (Hbefore : forall o, (k, o) ∈ hm_iter before <-> before !! k = Some o).
  { intros o. rewrite hm_iter_perm. apply elem_of_map_to_list. }
  assert (Hnb : before !! k = None -> k ∉ (hm_iter before).*1).
  { intros Hn ([k1 o1] & -> & Hin)%list_elem_of_fmap. apply Hbefore in Hin. simpl in *. congruence. }
  split; [|split].
  - intros o Ho. rewrite Ho2.
    + by apply Hi1, Hbefore.
    + intros Hin. apply Hin2 in Hin as [Hin _]. congruence.
  - intros Hn en Hen. apply Hi2. apply list_elem_of_fmap. exists (k, en). split; [done|].
    by apply list_elem_of_filter.
  - intros Hn Hne. rewrite Ho2; [by apply Ho1, Hnb|]. intros Hin. by apply Hin2 in Hin as [_ Hin].
Qed.

(** ** Admission *)

(** Entries removed by eviction, seen from the state before it. *)
Record evicted_from (T : Z) (protected : list bytes) (st st' : ShardedStore)
    (evicted : list (bytes * DataEntry)) : Prop := {
  ef_ok : engine_ok (engine st');
  ef_limits : same_limits st st';
  ef_once : NoDup evicted.*1;
  ef_gone : forall k, k ∈ evicted.*1 -> cell_at T st' k = None /\ k ∉ protected;
  ef_entry : forall k en, (k, en) ∈ evicted -> logical_cell T (Some en) = cell_at T st k;
  ef_rest : forall k, k ∉ evicted.*1 -> cell_at T st' k = cell_at T st k;
  ef_values : keeps_values st st';
  ef_evicted : values_ok (dataset (engine st)) -> Forall (fun ke => value_ok (value ke.2)) evicted
}.

Lemma quiet_evicted T protected st st' : quiet_run T st st' -> evicted_from T protected st st' [].
Proof.
  intros [Q1 _ Q2 Q3 Q4]. constructor; [done|done|constructor| | |done|done|constructor].
  - by intros k ?%not_elem_of_nil.
  - by intros k en ?%not_elem_of_nil.
Qed.

Lemma evicted_quiet_l T protected st1 st2 st3 ev :
  quiet_run T st1 st2 -> evicted_from T protected st2 st3 ev -> evicted_from T protected st1 st3 ev.
Proof.
  intros [_ _ [L1 L1'] C1 V1] [O [L2 L2'] N G E R V2 EV].
  constructor; [done|split; congruence|done|done| | | |].
  - intros k en Hin. by rewrite (E k en Hin).
  - intros k Hk. by rewrite R.
  - intros Hv. by apply V2, V1.
  - intros Hv. by apply EV, V1.
Qed.

Lemma evicted_quiet_r T protected st1 st2 st3 ev :
  evicted_from T protected st1 st2 ev -> quiet_run T st2 st3 -> evicted_from T protected st1 st3 ev.
Proof.
  intros [O [L1 L1'] N G E R V1 EV] [O2 _ [L2 L2'] C2 V2].
  constructor; [done|split; congruence|done| |done| | |done].
  - intros k Hk. rewrite C2. by apply G.
  - intros k Hk. rewrite C2. by apply R.
  - intros Hv. by apply V2, V1.
Qed.

Lemma evict_stage T clk nanos limit policy protected st :
  clock_before clk T -> engine_ok (engine st) ->
  exists st' evicted,
    store_evict_to_fit clk nanos limit policy (list_to_set protected) st = Some (st', evicted) /\
    evicted_from T protected st st' evicted /\ (engine_wf (engine st) -> engine_wf (engine st')).
Proof.
  intros Hclk Hok. unfold store_evict_to_fit.
  destruct (evict_to_fit_spec clk nanos (engine st) limit policy (list_to_set protected) Hok)
    as (e' & ev & -> & [Iok Iw Is Io Iv Ic] & _).
  exists (with_engine st e'), ev. split; [done|]. split; [|intros Hw; by apply Iw].
  constructor; [done|done|done| | | |intros Hv; by apply (values_ok_sub _ _ Is)|].
  - intros k ([k0 en] & -> & Hin)%list_elem_of_fmap. destruct (Iv _ _ Hin) as (_ & Hel & Hn).
    split; [unfold cell_at; simpl in *; by rewrite Hn|]. unfold eligible in Hel. prop_tests.
    by rewrite elem_of_list_to_set in H.
  - intros k en Hin. destruct (Iv _ _ Hin) as (Hd & _). unfold cell_at. by rewrite Hd.
  - intros k Hk. unfold cell_at. simpl. destruct (dataset (engine st) !! k) as [en|] eqn:Hd.
    + destruct (Ic k en Hd) as [H|[H|[i H]]].
      * by rewrite H.
      * exfalso. apply Hk. apply list_elem_of_fmap. by exists (k, en).
      * assert (Hx : logical_cell T (Some en) = None).
        { apply (logical_not_live (clk i)); [apply Hclk|]. simpl. by rewrite H. }
        destruct (dataset e' !! k) as [en'|] eqn:Hd'; [|by rewrite Hx].
        pose proof (lookup_weaken _ _ _ _ Hd' Is). congruence.
    + destruct (dataset e' !! k) as [en'|] eqn:Hd'; [|done].
      pose proof (lookup_weaken _ _ _ _ Hd' Is). congruence.
  - intros Hv. apply list.Forall_forall. intros [k en] Hin. destruct (Iv _ _ Hin) as (Hd & _).
    specialize (Hv k). by rewrite Hd in Hv.
Qed.

(** Reinstating the evicted entries undoes the eviction. *)
Lemma reapply_evicted T protected clk st st' ev :
  clock_before clk T -> evicted_from T protected st st' ev ->
  exists st'', reapply clk ev st' = Some (st'', tt) /\ engine_ok (engine st'') /\
    same_limits st st'' /\ keeps_values st st'' /\ forall k, cell_at T st'' k = cell_at T st k.
Proof.
  intros Hclk [O [L1 L1'] N G E R V EV].
  destruct (reapply_run T clk ev st' Hclk O) as (st'' & H & Hok & [L2 L2'] & Hc & Hv2).
  exists st''. split; [done|]. split; [done|]. split; [split; congruence|].
  split; [intros Hv; by apply Hv2; [apply EV|apply V]|]. intros k. rewrite Hc.
  set (l := (fun ke : bytes * DataEntry => (ke.1, Some ke.2)) <$> ev).
  replace (map (fun ke => restore_effect (ke.1, Some ke.2)) ev) with (map restore_effect l)
    by (unfold l; by rewrite (map_map (fun ke : bytes * DataEntry => (ke.1, Some ke.2)))).
  assert (Hk : l.*1 = ev.*1) by (unfold l; rewrite <- list_fmap_compose; done).
  destruct (fold_restore T l k (cell_at T st' k)) as [Ho Hi]; [by rewrite Hk|]. rewrite Hk in Ho.
  destruct (decide (k ∈ ev.*1)) as [Hin|Hin].
  - apply list_elem_of_fmap in Hin as ([k0 en] & -> & Hin). rewrite (Hi (Some en)).
    + by rewrite (E _ _ Hin).
    + apply list_elem_of_fmap. by exists (k0, en).
  - rewrite Ho by done. by apply R.
Qed.

(** An admission either keeps the state up to reported evictions, within the
    memory limit unless the command did not grow the dataset, or refuses and
    leaves the logical state as it was. *)
Lemma admit_spec T clks nanos protected a st :
  (forall i, clock_before (clks i) T) -> engine_ok (engine st) ->
  (maxmemory_bytes st <> 0 -> is_Some (memory_before a)) ->
  exists st' a' r, store_admit clks nanos protected a st = Some (st', (a', r)) /\
    before_entries a' = before_entries a /\
    match r with
    | Ok _ => exists ev, evicted_entries a' = evicted_entries a ++ ev /\
        evicted_from T protected st st' ev /\
        (engine_wf (engine st) -> maxmemory_bytes st = 0 \/ footprint (dataset (engine st')) <= maxmemory_bytes st \/
         exists m, memory_before a = Some m /\ footprint (dataset (engine st')) <= m)
    | Err _ => a' = a /\ engine_ok (engine st') /\ same_limits st st' /\ keeps_values st st' /\
        forall k, cell_at T st' k = cell_at T st k
    end.
Proof.
  intros Hclk Hok Hmem. unfold store_admit.
  assert (H1 : exists st1 b, (match key_count_before a with
      | Some before => s ← store_stats (clks 0%nat);
          mret ((MAX_KEYS <? stats_total_keys s) && (before <? stats_total_keys s))
      | None => mret false end : prog bool) st = Some (st1, b) /\ quiet_run T st st1).
  { destruct (key_count_before a).
    - destruct (stats_quiet T (clks 0%nat) st (Hclk 0%nat) Hok) as (st1 & s & E1 & Q1 & _).
      eexists _, _. rewrite (bind_run _ _ _ _ _ E1). done.
    - eexists _, _. split; [done|]. by apply quiet_refl. }
  destruct H1 as (st1 & b & E1 & Q1). rewrite (bind_run _ _ _ _ _ E1).
  pose proof (qr_limits _ _ _ Q1) as [HL HP].
  destruct b.
  { eexists _, _, _. split; [done|]. split; [done|]. split; [done|]. by destruct Q1. }
  rewrite (bind_run _ _ st1 st1 _ eq_refl), HL.
  destruct (maxmemory_bytes st =? 0) eqn:El; prop_tests.
  { eexists _, _, _. split; [done|]. split; [done|]. exists []. rewrite app_nil_r.
    split; [done|]. split; [by apply quiet_evicted|by left]. }
  destruct (used_memory_quiet T (clks 1%nat) st1 (Hclk 1%nat) (qr_ok _ _ _ Q1)) as (st2 & m & E2 & Q2 & Hm).
  rewrite (bind_run _ _ _ _ _ E2).
  destruct (Hmem El) as [mb Hmb]. rewrite Hmb.
  assert (Q12 : quiet_run T st st2) by (by eapply quiet_trans).
  pose proof (qr_limits _ _ _ Q12) as [HL2 HP2].
  destruct ((m <=? maxmemory_bytes st) || (m <=? mb)) eqn:Efit.
  { eexists _, _, _. split; [done|]. split; [done|]. exists []. rewrite app_nil_r. split; [done|].
    split; [by apply quiet_evicted|]. intros Hw. right. rewrite <- (Hm (qr_wf _ _ _ Q1 Hw)).
    apply orb_true_iff in Efit as [?|?]; prop_tests; [by left|right; by exists mb]. }
  rewrite (bind_run _ _ st2 st2 _ eq_refl), HP2. case_bool_decide as Hpol.
  { eexists _, _, _. split; [done|]. split; [done|]. split; [done|]. by destruct Q12. }
  destruct (evict_stage T (clks 2%nat) nanos (maxmemory_bytes st) (maxmemory_policy st) protected st2
    (Hclk 2%nat) (qr_ok _ _ _ Q12)) as (st3 & ev & E3 & Hev & Hw3).
  rewrite (bind_run _ _ _ _ _ E3).
  destruct (used_memory_quiet T (clks 3%nat) st3 (Hclk 3%nat) (ef_ok _ _ _ _ _ Hev)) as (st4 & u & E4 & Q4 & Hu).
  rewrite (bind_run _ _ _ _ _ E4).
  pose proof (evicted_quiet_l T protected st st2 st4 ev Q12
    (evicted_quiet_r T protected st2 st3 st4 ev Hev Q4)) as Hall.
  destruct (u <=? maxmemory_bytes st) eqn:Eu; prop_tests.
  - eexists _, _, _. split; [done|]. split; [done|]. exists ev. split; [done|]. split; [done|].
    intros Hw. right. left. rewrite <- Hu; [done|]. by apply Hw3, Q12.
  - destruct (reapply_evicted T protected (clks 4%nat) st st4 ev (Hclk 4%nat) Hall)
      as (st5 & E5 & Hok5 & HL5 & Hv5 & Hc5).
    rewrite (bind_run _ _ _ _ _ E5). eexists _, _, _. split; [done|]. split; [done|]. done.
Qed.

End Admission.
