(* ===== verification/Server.v ===== *)
(** * Server: the server's persistence state (src/main.rs)

    The commit runtime together with what the server keeps beside it: the
    backlog and the channel that feed replicas, the lifecycle of a replica's
    upstream connection and the flags of its role.  The operations are the ones
    that hold the commit boundary, so each is one uninterrupted step; a prepared
    mutation is finalized, a replicated effect is installed, a full
    synchronization replaces the store, a replica is promoted.  The task that
    runs a finalizer is not interrupted, and log messages are left out. *)

From Stdlib Require Import ZArith Lia.
From Stdlib Require Import Strings.Byte.
From stdpp Require Import base gmap list strings numbers sorting.
From S2P Require Import Prelude Text Json JsonPath Value Shard Engine Store Persistence Model Codec BinlogFile BinlogIo Recovery ManagedBinlog SnapshotWriter ReplicaState Runtime Compaction Admission.

Open Scope Z_scope.

Definition BACKLOG_CAPACITY : Z := 10000.
Definition COMPACTION_THRESHOLD : Z := 100000.

(** ** The lifecycle of the upstream connection *)

Inductive ReplicaLifecycleState : Type := LifecycleRunning | LifecycleStopped | LifecycleFailed.

Record ReplicaLifecycle : Type := mkLifecycle {
  stop_requested : bool;
  lifecycle_state : ReplicaLifecycleState
}.

Definition ReplicaLifecycle_new (initially_stopped : bool) : ReplicaLifecycle :=
  mkLifecycle false (if initially_stopped then LifecycleStopped else LifecycleRunning).

Definition mark_running (l : ReplicaLifecycle) : ReplicaLifecycle := mkLifecycle (stop_requested l) LifecycleRunning.
Definition mark_stopped (l : ReplicaLifecycle) : ReplicaLifecycle := mkLifecycle (stop_requested l) LifecycleStopped.
Definition mark_failed (l : ReplicaLifecycle) : ReplicaLifecycle := mkLifecycle (stop_requested l) LifecycleFailed.
Definition request_stop (l : ReplicaLifecycle) : ReplicaLifecycle := mkLifecycle true (lifecycle_state l).

(** The runner's guard: a runner that panicked has not shown that its tasks are
    quiet. *)
Definition run_guard_drop (panicking : bool) (l : ReplicaLifecycle) : ReplicaLifecycle :=
  if panicking then mark_failed l else mark_stopped l.

(** [observed]: the state the channel delivers to a waiter that found the runner
    running, [None] when the channel is closed. *)
Definition wait_stopped (observed : option ReplicaLifecycleState) (l : ReplicaLifecycle)
  : result PersistenceError unit :=
  let final := match lifecycle_state l with
               | LifecycleRunning => observed
               | state => Some state
               end in
  match final with
  | None => Err (PersistenceError_new (bs "Replica lifecycle state channel closed before shutdown completed"))
  | Some LifecycleStopped => Ok tt
  | Some LifecycleFailed =>
    Err (PersistenceError_new (bs "Replica lifecycle failed before upstream cleanup completed"))
  | Some LifecycleRunning => Err (PersistenceError_new (bs "Replica lifecycle did not reach a stopped state"))
  end.

(** ** The state *)

(** [replica_tx] is what was sent on the replication channel, oldest first. *)
Record Persistence {JN : JsonNumber} : Type := mkPersistence {
  commit_runtime : CommitRuntime;
  replica_tx : list (Z * CommittedBatch);
  backlog : list (Z * CommittedBatch);
  promote_to_master : bool;
  upstream_replid : Z;
  replication_ready : bool;
  replica_lifecycle : ReplicaLifecycle;
  is_replica : bool
}.

Section Server.
Context {CRC : Crc32} {GZ : Gzip} {JN : JsonNumber} {SJ : SerdeJson} {HO : HashOrder}.

Definition with_runtime (r : CommitRuntime) (p : Persistence) : Persistence :=
  mkPersistence JN r (replica_tx p) (backlog p) (promote_to_master p) (upstream_replid p) (replication_ready p)
    (replica_lifecycle p) (is_replica p).
Definition with_channels (sent kept : list (Z * CommittedBatch)) (p : Persistence) : Persistence :=
  mkPersistence JN (commit_runtime p) sent kept (promote_to_master p) (upstream_replid p) (replication_ready p)
    (replica_lifecycle p) (is_replica p).
Definition with_upstream (replid : Z) (ready : bool) (p : Persistence) : Persistence :=
  mkPersistence JN (commit_runtime p) (replica_tx p) (backlog p) (promote_to_master p) replid ready
    (replica_lifecycle p) (is_replica p).
Definition with_lifecycle (l : ReplicaLifecycle) (p : Persistence) : Persistence :=
  mkPersistence JN (commit_runtime p) (replica_tx p) (backlog p) (promote_to_master p) (upstream_replid p)
    (replication_ready p) l (is_replica p).
Definition with_role (promoted replica : bool) (p : Persistence) : Persistence :=
  mkPersistence JN (commit_runtime p) (replica_tx p) (backlog p) promoted (upstream_replid p) (replication_ready p)
    (replica_lifecycle p) replica.

Definition not_ready (p : Persistence) : Persistence := with_upstream (upstream_replid p) false p.

Definition accepting_writes (p : Persistence) : bool := rt_accepting_writes (commit_runtime p).
Definition is_fail_stopped (p : Persistence) : bool := rt_fail_stop_started (commit_runtime p).
Definition sequence (p : Persistence) : Z := rt_offset (commit_runtime p).

(** ** Failure *)

Definition mark_runtime_failed (message : bytes) (r : CommitRuntime) : CommitRuntime :=
  set_failure false (or_else (rt_failure r) message) (rt_fail_stop_started r) (rt_fail_stop_reason r) r.

Definition mark_persistence_failed (message : bytes) (p : Persistence) : Persistence :=
  not_ready (with_runtime (mark_runtime_failed message (commit_runtime p)) p).

Definition enter_persistence_fail_stop (message : bytes) (p : Persistence) : Persistence :=
  let p := with_lifecycle (request_stop (replica_lifecycle p)) (not_ready p) in
  with_runtime (enter_fail_stop_with_visibility_guard message (commit_runtime p)) p.

Definition persistence_unavailable_message (p : Persistence) : bytes :=
  match rt_failure (commit_runtime p) with
  | Some reason => bs "MISCONF persistence is unavailable: " ++ reason
  | None => bs "MISCONF persistence is unavailable"
  end.

Definition unavailable (p : Persistence) : PersistenceError :=
  PersistenceError_new (persistence_unavailable_message p).

(** ** Publishing *)

(** [while backlog.len() > BACKLOG_CAPACITY { backlog.pop_front(); }]. *)
Fixpoint trim_backlog (l : list (Z * CommittedBatch)) : list (Z * CommittedBatch) :=
  match l with
  | [] => []
  | _ :: rest => if BACKLOG_CAPACITY <? len l then trim_backlog rest else l
  end.

Definition push_backlog (l : list (Z * CommittedBatch)) (b : Z * CommittedBatch) : list (Z * CommittedBatch) :=
  trim_backlog (l ++ [b]).

Definition publish (batches : list (Z * CommittedBatch)) (p : Persistence) : Persistence :=
  with_channels (replica_tx p ++ batches) (fold_left push_backlog batches (backlog p)) p.

Definition persist_and_publish_master_batch (policy : FsyncPolicy) (d : delivery) (s : Z) (batch : CommittedBatch)
    (p : Persistence) : option (Persistence * result PersistenceError MaintenanceRequest) :=
  '(r, accepted) ← accept_next_batch policy d s batch COMPACTION_THRESHOLD (commit_runtime p);
  let p := with_runtime r p in
  Some (match accepted with
        | Err error => (p, Err error)
        | Ok maintenance =>
          (with_channels (replica_tx p ++ [(s, batch)]) (push_backlog (backlog p) (s, batch)) p, Ok maintenance)
        end).

Definition persist_and_publish_master_batches (policy : FsyncPolicy) (d : delivery)
    (batches : list (Z * CommittedBatch)) (p : Persistence)
  : option (Persistence * result PersistenceError MaintenanceRequest) :=
  '(r, accepted) ← accept_next_batches policy d batches COMPACTION_THRESHOLD (commit_runtime p);
  let p := with_runtime r p in
  Some (match accepted with
        | Err error => (p, Err error)
        | Ok maintenance => (publish batches p, Ok maintenance)
        end).

(** The background tasks that a maintenance request starts. *)
Inductive maintenance_task : Type := CompactionTask | RolloverTask.

Definition schedule_maintenance (maintenance : MaintenanceRequest) : list maintenance_task :=
  if is_empty_request maintenance then []
  else (if mr_snapshot maintenance then [CompactionTask] else [])
       ++ (if mr_rollover maintenance then [RolloverTask] else []).

(** What a task does to the runtime when it is over. *)
Definition finish_task (task : maintenance_task) (succeeded : bool) (p : Persistence)
  : Persistence * list maintenance_task :=
  let '(r, next) :=
    match task with
    | CompactionTask => finish_compaction_schedule_and_rearm COMPACTION_THRESHOLD succeeded (commit_runtime p)
    | RolloverTask => finish_rollover_schedule_and_rearm COMPACTION_THRESHOLD succeeded (commit_runtime p)
    end in
  (with_runtime r p, schedule_maintenance next).

(** ** Finalizing a prepared mutation *)

Definition failure_at (context : bytes) (s : Z) (error : PersistenceError) : bytes :=
  context ++ bs " at sequence " ++ print_Z s ++ bs ": " ++ pe_message error.

Definition finalize_master_commit (clks : nat -> clock) (policy : FsyncPolicy) (d : delivery) (s : Z)
    (batch : CommittedBatch) (rollback : MutationRollback) (failure_context : bytes) (p : Persistence)
  : prog (Persistence * result PersistenceError (list maintenance_task)) :=
  match persist_and_publish_master_batch policy d s batch p with
  | None => panic
  | Some (p, Ok maintenance) => mret (p, Ok (schedule_maintenance maintenance))
  | Some (p, Err error) =>
    if is_indeterminate error
    then mret (enter_persistence_fail_stop (failure_at failure_context s error) p, Err error)
    else
      _ ← rollback_restore clks rollback;
      mret (mark_persistence_failed (failure_at failure_context s error) p, Err error)
  end.

(** ** Replicated effects *)

Definition err_no_baseline : PersistenceError :=
  PersistenceError_new (bs "Replica has no installed durable synchronization baseline").

Definition err_replication_mismatch (expected received : Z) : PersistenceError :=
  PersistenceError_new (bs "Replication sequence mismatch: expected " ++ print_Z expected
                        ++ bs ", received " ++ print_Z received).

Definition persist_and_apply_replica_effect (clk : clock) (policy : FsyncPolicy) (d : delivery) (s : Z)
    (batch : CommittedBatch) (p : Persistence)
  : prog (Persistence * result PersistenceError (list maintenance_task)) :=
  if negb (accepting_writes p) then mret (p, Err (unavailable p))
  else if negb (replication_ready p) then mret (p, Err err_no_baseline)
  else
    match checked_add (sequence p) 1 with
    | None => mret (p, Err (PersistenceError_new (bs "Replica sequence is exhausted")))
    | Some expected =>
      if negb (s =? expected) then mret (p, Err (err_replication_mismatch expected s))
      else
        match accept_next_batch policy d s batch COMPACTION_THRESHOLD (commit_runtime p) with
        | None => panic
        | Some (r, Ok maintenance) =>
          _ ← apply_committed_batch clk batch;
          mret (with_runtime r p, Ok (schedule_maintenance maintenance))
        | Some (r, Err error) =>
          let p := with_runtime r p in
          mret (if is_indeterminate error
                then enter_persistence_fail_stop
                       (failure_at (bs "Replicated effect persistence is indeterminate") s error) p
                else mark_persistence_failed (failure_at (bs "Unable to persist replicated effect") s error) p,
                Err error)
        end
    end.

(** ** Full synchronization *)

Definition refuses_upstream (p : Persistence) : bool :=
  promote_to_master p || stop_requested (replica_lifecycle p).

Definition on_binlog {A} (f : ManagedBinlogFile -> ManagedBinlogFile * result PersistenceError A) (p : Persistence)
  : Persistence * result PersistenceError A :=
  let '(m, res) := f (rt_binlog (commit_runtime p)) in
  (with_runtime (set_binlog m (commit_runtime p)) p, res).

(** An operation on the binlog whose outcome must be known. *)
Definition binlog_or_fail_stop {A} (context : bytes)
    (f : ManagedBinlogFile -> ManagedBinlogFile * result PersistenceError A) (p : Persistence)
  : Persistence * result PersistenceError A :=
  match on_binlog f p with
  | (p, Ok a) => (p, Ok a)
  | (p, Err error) =>
    (if is_indeterminate error then enter_persistence_fail_stop (context ++ pe_message error) p else p, Err error)
  end.

Definition begin_full_sync_reception (p : Persistence) : Persistence * result PersistenceError unit :=
  if refuses_upstream p then
    (p, Err (PersistenceError_new (bs "Replica promotion started before full synchronization could begin")))
  else if negb (accepting_writes p) then (p, Err (unavailable p))
  else
    match on_binlog write_replica_installing p with
    | (p, Err error) =>
      (mark_persistence_failed
         (bs "Unable to invalidate the previous replica baseline before full synchronization: " ++ pe_message error) p,
       Err error)
    | (p, Ok _) => (with_upstream 0 false p, Ok tt)
    end.

(** An operation after which there is no way back. *)
Definition binlog_or_indeterminate (context : bytes)
    (f : ManagedBinlogFile -> ManagedBinlogFile * result PersistenceError unit) (p : Persistence)
  : Persistence * result PersistenceError unit :=
  match on_binlog f p with
  | (p, Ok _) => (p, Ok tt)
  | (p, Err error) =>
    let error := PersistenceError_indeterminate (context ++ pe_message error) in
    (enter_persistence_fail_stop (pe_message error) p, Err error)
  end.

(** The durable steps of an installation, up to the replacement of the store. *)
Definition install_baseline_files (flush_answer truncate_answer : delivery) (replid s : Z)
    (entries : list (bytes * DataEntry)) (p : Persistence) : Persistence * result PersistenceError unit :=
  match binlog_or_fail_stop (bs "Replica baseline flush is indeterminate: ") (handle_flush flush_answer) p with
  | (p, Err error) => (p, Err error)
  | (p, Ok _) =>
    match on_binlog write_replica_installing p with
    | (p, Err error) => (p, Err error)
    | (p, Ok _) =>
      match binlog_or_fail_stop (bs "Replica baseline rotation is indeterminate: ")
              (handle_truncate truncate_answer) p with
      | (p, Err error) => (p, Err error)
      | (p, Ok _) =>
        match binlog_or_indeterminate (bs "Replica baseline snapshot failed after binlog rotation: ")
                (write_snapshot_file entries s) p with
        | (p, Err error) => (p, Err error)
        | (p, Ok _) =>
          binlog_or_indeterminate (bs "Replica identity installation failed after baseline replacement: ")
            (write_replica_identity (mkIdentity replid s)) p
        end
      end
    end
  end.

(** [entries]: the raw entries of the staging store. *)
Definition install_full_sync (clk : clock) (flush_answer truncate_answer : delivery) (replid s : Z)
    (entries : list (bytes * DataEntry)) (p : Persistence)
  : prog (Persistence * result PersistenceError unit) :=
  if replid =? 0 then
    mret (p, Err (PersistenceError_new (bs "Full synchronization requires a non-zero replication ID")))
  else if refuses_upstream p then
    mret (p, Err (PersistenceError_new
           (bs "Replica promotion started before full synchronization could be installed")))
  else if negb (accepting_writes p) then mret (p, Err (unavailable p))
  else
    match install_baseline_files flush_answer truncate_answer replid s entries (not_ready p) with
    | (p, Err error) => mret (p, Err error)
    | (p, Ok _) => fun st =>
      e ← engine_replace_all clk (engine st) entries;
      Some (with_engine st e,
            (with_channels (replica_tx p) []
               (with_upstream replid true
                  (with_runtime (install_baseline s (len entries) (commit_runtime p)) p)), Ok tt))
    end.

(** ** Promotion *)

Definition err_not_promotable : PersistenceError :=
  PersistenceError_new (bs "Replica is not durably synchronized and cannot be promoted").

Definition commit_replica_promotion (flush_answer : delivery) (p : Persistence)
  : Persistence * result PersistenceError unit :=
  if negb (replication_ready p) then (p, Err err_not_promotable)
  else
    match binlog_or_fail_stop (bs "Replica promotion flush is indeterminate: ") (handle_flush flush_answer) p with
    | (p, Err error) => (p, Err error)
    | (p, Ok _) =>
      match on_binlog write_replica_detached p with
      | (p, Err error) => (p, Err error)
      | (p, Ok _) => (with_role true false (with_upstream 0 false p), Ok tt)
      end
    end.

(** [later]: the state once the upstream runner has answered the stop, with what
    it reported last. *)
Definition prepare_replica_promotion (flush_answer : delivery) (observed : option ReplicaLifecycleState)
    (later : Persistence -> Persistence) (p : Persistence) : Persistence * result PersistenceError unit :=
  if negb (replication_ready p) then (p, Err err_not_promotable)
  else
    let p := with_lifecycle (request_stop (replica_lifecycle p)) p in
    match wait_stopped observed (replica_lifecycle p) with
    | Err error => (later p, Err error)
    | Ok _ => commit_replica_promotion flush_answer (later p)
    end.

(** ** Periodic synchronization *)

Definition run_periodic_sync_once (d : delivery) (p : Persistence) : Persistence * result PersistenceError unit :=
  match on_binlog (handle_sync_data d) p with
  | (p, Ok _) => (p, Ok tt)
  | (p, Err error) =>
    let message := bs "Periodic binlog sync failed: " ++ pe_message error in
    (if is_indeterminate error then enter_persistence_fail_stop message p
     else mark_persistence_failed message p, Err error)
  end.

(** ** Resuming a replica *)

Definition replid_allows_partial (requested_replid current_replid : Z) : bool :=
  negb (requested_replid =? 0) && (requested_replid =? current_replid).

Definition partial_resync_possible (requested_offset : Z) (backlog_oldest : option Z) (current_repl_offset : Z)
  : bool :=
  if current_repl_offset <? requested_offset then false
  else if requested_offset =? current_repl_offset then true
  else
    match backlog_oldest with
    | Some oldest =>
      match checked_add requested_offset 1 with
      | Some next_offset => oldest <=? next_offset
      | None => false
      end
    | None => false
    end.

End Server.
