(* ===== verification/ServerSpec.v ===== *)
(** * ServerSpec: what the server's persistence operations keep

    The backlog holds the latest accepted batches, numbered up to the current
    sequence; a mutation or a replicated effect that is acknowledged is stored,
    one that is refused has not changed the store. *)

From Stdlib Require Import ZArith Lia.
From Stdlib Require Import Strings.Byte.
From stdpp Require Import base gmap list strings numbers sorting.
From S2P Require Import Prelude Text Json JsonPath Value Shard ShardSpec Engine EngineSpec Store Persistence Model Codec CodecSpec BinlogFile BinlogIo AppendSpec Recovery ManagedBinlog SnapshotWriter ReplicaState Runtime Compaction HistorySpec ManagedSpec SealSpec EntryEq StoreSpec ModelSpec SnapshotSpec RecoverySpec InstallSpec CommitSpec MaintenanceSpec Durability Admission Server.

Open Scope Z_scope.

(** ** Numbered lists *)

(** The sequences of [l] count up from [s]. *)
Definition consecutive {A} (s : Z) (l : list (Z * A)) : Prop :=
  forall i x, l !! i = Some x -> x.1 = s + Z.of_nat i.

Lemma consecutive_nil {A} s : consecutive s (@nil (Z * A)).
Proof. intros i x H. by rewrite lookup_nil in H. Qed.

Lemma consecutive_app {A} s (l m : list (Z * A)) :
  consecutive s (l ++ m) <-> consecutive s l /\ consecutive (s + len l) m.
Proof.
  unfold consecutive, len. split.
  - intros H. split; intros i x Hi.
    + apply H. by apply lookup_app_l_Some.
    + rewrite (H (length l + i)%nat x); [lia|]. rewrite lookup_app_r by lia. by rewrite Nat.add_comm, Nat.add_sub.
  - intros [Hl Hm] i x Hi. apply lookup_app_Some in Hi as [Hi|[Hle Hi]]; [by apply Hl|].
    rewrite (Hm _ _ Hi). lia.
Qed.

Lemma consecutive_cons {A} s x (l : list (Z * A)) : consecutive s (x :: l) <-> x.1 = s /\ consecutive (s + 1) l.
Proof.
  rewrite (consecutive_app s [x] l). change (len [x]) with 1. split; intros [H1 H2]; (split; [|done]).
  - rewrite (H1 0%nat x eq_refl). lia.
  - intros [|i] y Hi; [|done]. injection Hi as <-. lia.
Qed.

Lemma consecutive_drop {A} s n (l : list (Z * A)) :
  (n <= length l)%nat -> consecutive s l -> consecutive (s + Z.of_nat n) (drop n l).
Proof.
  intros Hn H. rewrite <- (take_drop n l) in H. apply consecutive_app in H as [_ H].
  unfold len in H. by rewrite length_take, Nat.min_l in H.
Qed.

(** What is numbered above [q]. *)
Lemma filter_above {A} s q (l : list (Z * A)) :
  consecutive s l -> s - 1 <= q ->
  filter (fun x => q < x.1) l = drop (Z.to_nat (q - s + 1)) l.
Proof.
  revert s. induction l as [|x l IH]; intros s H Hq; [by rewrite drop_nil|].
  apply consecutive_cons in H as [<- H]. rewrite filter_cons.
  destruct (decide (q < x.1)) as [Hlt|Hge].
  - replace (Z.to_nat (q - x.1 + 1)) with 0%nat by lia. rewrite drop_0. f_equal.
    clear IH Hq. revert x Hlt H. induction l as [|y l IH]; intros x Hlt H; [done|].
    apply consecutive_cons in H as [Hy H]. rewrite filter_cons, decide_True by lia. f_equal. apply (IH y); [lia|].
    by rewrite Hy.
  - rewrite (IH (x.1 + 1)) by (done || lia).
    replace (Z.to_nat (q - x.1 + 1)) with (S (Z.to_nat (q - (x.1 + 1) + 1))) by lia. done.
Qed.

Section ServerSpec.
Context {CRC : Crc32} {GZ : Gzip} {JN : JsonNumber} {SJ : SerdeJson} {HO : HashOrder}.

(** ** Acceptance and the sequence *)

Definition same_flags (r r' : CommitRuntime) : Prop :=
  rt_accepting_writes r' = rt_accepting_writes r /\ rt_failure r' = rt_failure r /\
  rt_fail_stop_started r' = rt_fail_stop_started r /\ rt_fail_stop_reason r' = rt_fail_stop_reason r.

Lemma maintenance_flags threshold r :
  let '(r', _) := request_maintenance_if_needed threshold r in same_flags r r' /\ rt_offset r' = rt_offset r.
Proof.
  unfold request_maintenance_if_needed, request_snapshot_if_needed.
  destruct (_ && _); unfold request_rollover_if_needed; destruct (_ && _); done.
Qed.

Lemma accept_moves policy d batches threshold r r' res :
  0 <= rt_offset r -> accept_next_batches policy d batches threshold r = Some (r', res) ->
  same_flags r r' /\
  match res with
  | Ok _ => batches <> [] /\ consecutive (rt_offset r + 1) batches /\
            rt_offset r' = rt_offset r + len batches /\ rt_offset r' <= U64_MAX
  | Err _ => rt_offset r' = rt_offset r
  end.
Proof.
  intros Hpos Hrun. unfold accept_next_batches in Hrun. destruct batches as [|b0 batches0]; [by injection Hrun as <- <-|].
  set (batches := b0 :: batches0) in *. assert (Hne : batches <> []) by done.
  destruct (next_sequence r) as [n|error] eqn:En; [|by injection Hrun as <- <-]. cbn [mbind result_bind] in Hrun.
  destruct (check_sequences (Some n) batches) as [[]|error] eqn:Ec; [|by injection Hrun as <- <-].
  destruct (append_batches policy d batches (rt_binlog r)) as [[m [k|error]]|]; [| |discriminate Hrun].
  2: { injection Hrun as <- <-. done. }
  cbn [mbind option_bind] in Hrun. clearbody batches. apply next_sequence_spec in En as [-> Hmax].
  rewrite (last_numbered batches (rt_offset r + 1)) in Hrun by (done || lia). unfold record_persisted_writes in Hrun.
  match type of Hrun with context [request_maintenance_if_needed ?t ?x] =>
    pose proof (maintenance_flags t x) as Hm; destruct (request_maintenance_if_needed t x) as [r2 mr] end.
  injection Hrun as <- <-. destruct Hm as [Hf Ho]. split; [done|]. rewrite Ho. cbn [rt_offset set_write_count set_offset].
  pose proof (check_sequences_spec batches (rt_offset r + 1) ltac:(lia) Ec) as Hnum.
  split; [done|]. split; [|split; [lia|]].
  - intros i [s b] Hi. by destruct (Hnum _ _ _ Hi).
  - destruct (list.last batches) as [[s b]|] eqn:El; [|by apply last_None in El]. rewrite last_lookup in El.
    destruct (Hnum _ _ _ El) as [Hs Hle]. unfold len. destruct batches; [done|]. simpl in *. lia.
Qed.

(** ** The backlog *)

Lemma trim_backlog_drop l : trim_backlog l = drop (Z.to_nat (len l - BACKLOG_CAPACITY)) l.
Proof.
  induction l as [|x l IH]; [by rewrite drop_nil|]. cbn [trim_backlog]. unfold len in *. simpl length.
  destruct (Z.ltb_spec BACKLOG_CAPACITY (Z.of_nat (S (length l)))).
  - rewrite IH. replace (Z.to_nat (Z.of_nat (S (length l)) - BACKLOG_CAPACITY))
      with (S (Z.to_nat (Z.of_nat (length l) - BACKLOG_CAPACITY))) by lia. done.
  - by replace (Z.to_nat _) with 0%nat by lia.
Qed.

Lemma push_all batches l :
  len l <= BACKLOG_CAPACITY ->
  fold_left push_backlog batches l = drop (Z.to_nat (len l + len batches - BACKLOG_CAPACITY)) (l ++ batches).
Proof.
  revert l. induction batches as [|b batches IH]; intros l Hl; cbn [fold_left].
  - rewrite app_nil_r. change (len (@nil (Z * CommittedBatch))) with 0. by replace (Z.to_nat _) with 0%nat by lia.
  - unfold push_backlog at 2. rewrite trim_backlog_drop. unfold len in *. rewrite length_app. cbn [length].
    replace (Z.to_nat (Z.of_nat (length l + 1) - BACKLOG_CAPACITY))
      with (length l + 1 - Z.to_nat BACKLOG_CAPACITY)%nat by (unfold BACKLOG_CAPACITY; lia).
    set (c := Z.to_nat BACKLOG_CAPACITY) in *. assert (Hc : BACKLOG_CAPACITY = Z.of_nat c) by (unfold c, BACKLOG_CAPACITY; lia).
    rewrite Hc in *. clearbody c. clear Hc. rewrite IH by (rewrite length_drop, length_app; cbn [length]; lia).
    replace (l ++ b :: batches) with ((l ++ [b]) ++ batches) by (by rewrite <- app_assoc).
    rewrite <- (drop_app_le (l ++ [b]) batches) by (rewrite length_app; cbn [length]; lia).
    rewrite drop_drop, length_drop, length_app. cbn [length]. f_equal. lia.
Qed.

Definition backlog_ok (p : Persistence) : Prop :=
  len (backlog p) <= BACKLOG_CAPACITY /\ consecutive (sequence p - len (backlog p) + 1) (backlog p).

Lemma publish_backlog batches (p : Persistence) r' :
  backlog_ok p -> consecutive (sequence p + 1) batches -> rt_offset r' = sequence p + len batches ->
  backlog_ok (publish batches (with_runtime r' p)) /\
  backlog (publish batches (with_runtime r' p)) =
    drop (Z.to_nat (len (backlog p ++ batches) - BACKLOG_CAPACITY)) (backlog p ++ batches).
Proof.
  intros [Hcap Hnum] Hb Ho. unfold backlog_ok, publish, sequence. cbn [backlog commit_runtime with_channels with_runtime].
  rewrite push_all by done. rewrite Ho. unfold len in *. rewrite length_app, Nat2Z.inj_add.
  set (n := Z.to_nat _). assert (Hn : (n <= length (backlog p ++ batches))%nat).
  { rewrite length_app. unfold n, BACKLOG_CAPACITY in *. lia. }
  split; [|done]. split.
  - rewrite length_drop, length_app in *. unfold n, BACKLOG_CAPACITY in *. lia.
  - rewrite length_drop, length_app in *.
    replace (sequence p + Z.of_nat (length batches) - Z.of_nat (length (backlog p) + length batches - n) + 1)
      with (sequence p - Z.of_nat (length (backlog p)) + 1 + Z.of_nat n) by lia.
    apply consecutive_drop; [rewrite length_app; lia|]. apply consecutive_app. split; [done|].
    unfold len. by replace (_ + _) with (sequence p + 1) by lia.
Qed.

(** ** Resuming a replica *)

(** A resumption is granted only when the backlog covers what is missing. *)
Lemma resync_covers (p : Persistence) q :
  backlog_ok p -> 0 <= q -> partial_resync_possible q (fst <$> head (backlog p)) (sequence p) = true ->
  sequence p - len (backlog p) <= q <= sequence p.
Proof.
  intros [_ Hnum] Hq Hp. unfold partial_resync_possible in Hp.
  destruct (Z.ltb_spec (sequence p) q) as [|Hle]; [done|]. destruct (Z.eqb_spec q (sequence p)) as [->|Hne].
  { unfold len. lia. }
  destruct (backlog p) as [|x l]; [done|]. cbn in Hp.
  destruct (checked_add q 1) as [next|] eqn:E; [|done]. apply checked_add_Some in E as [-> _].
  apply consecutive_cons in Hnum as [Hx _]. rewrite Hx in Hp. lia.
Qed.

Lemma resync_batches (p : Persistence) q :
  backlog_ok p -> sequence p - len (backlog p) <= q <= sequence p ->
  let missing := filter (fun x : Z * CommittedBatch => q < x.1) (backlog p) in
  consecutive (q + 1) missing /\ len missing = sequence p - q /\ missing `suffix_of` backlog p.
Proof.
  intros [_ Hnum] Hq. rewrite (filter_above _ _ _ Hnum) by lia.
  replace (Z.to_nat (q - (sequence p - len (backlog p) + 1) + 1))
    with (Z.to_nat (q - (sequence p - len (backlog p)))) by lia.
  set (n := Z.to_nat _). assert (Hn : (n <= length (backlog p))%nat) by (unfold n, len in *; lia). split; [|split].
  - replace (q + 1) with (sequence p - len (backlog p) + 1 + Z.of_nat n) by (unfold n; lia). by apply consecutive_drop.
  - unfold len in *. rewrite length_drop. unfold n in *. lia.
  - exists (take n (backlog p)). by rewrite take_drop.
Qed.

(** ** Committing *)

(** The store shows the effects [F], up to the equality of JSON numbers. *)
Definition matches (T : Z) (st : ShardedStore) (F : list CommittedEffect) : Prop :=
  forall k, same_entry (fold_left (effect_on T k) F None) (cell_at T st k).

Lemma steady_failed T message (p : Persistence) F :
  steady T (commit_runtime p) F -> steady T (commit_runtime (mark_persistence_failed message p)) F.
Proof. intros [H1 H2]. split; [by eapply stored_moved|done]. Qed.

(** Persisting and publishing a group. *)
Lemma persist_spec T F policy d batches (p p' : Persistence) res :
  steady T (commit_runtime p) F -> batches_ok batches ->
  persist_and_publish_master_batches policy d batches p = Some (p', res) ->
  match res with
  | Ok _ =>
    steady T (commit_runtime p') (F ++ batch_effects batches.*2) /\ sequence p' = sequence p + len batches /\
    replica_tx p' = replica_tx p ++ batches /\ (backlog_ok p -> backlog_ok p') /\
    accepting_writes p' = accepting_writes p
  | Err error =>
    sequence p' = sequence p /\ replica_tx p' = replica_tx p /\ backlog p' = backlog p /\
    if is_indeterminate error
    then exists part, part `prefix_of` batches.*2 /\
           recoverable T (m_files (rt_binlog (commit_runtime p'))) (F ++ batch_effects part)
    else steady T (commit_runtime p') F
  end.
Proof.
  intros Hst Hok Hrun. unfold persist_and_publish_master_batches in Hrun.
  destruct (accept_next_batches policy d batches COMPACTION_THRESHOLD (commit_runtime p)) as [[r' acc]|] eqn:Ea;
    [|discriminate Hrun]. cbn [mbind option_bind] in Hrun.
  pose proof (accept_moves _ _ _ _ _ _ _ (stored_offset _ _ _ (proj1 Hst)) Ea) as [Hflags Hmoves].
  destruct acc as [maintenance|error]; injection Hrun as <- <-.
  - destruct (accept_steady T _ F _ _ _ _ _ (Ok maintenance) Hst Hok Ea) as [Hst' Ho].
    destruct Hmoves as (Hne & Hcons & _ & _). split_and!; try done; [|apply Hflags].
    intros Hback. by apply publish_backlog.
  - by destruct (accept_steady T _ F _ _ _ _ _ (Err error) Hst Hok Ea) as [Ho Hst'].
Qed.

Lemma persist_returns policy d batches (p : Persistence) :
  exists p' res, persist_and_publish_master_batches policy d batches p = Some (p', res).
Proof.
  unfold persist_and_publish_master_batches.
  pose proof (accept_returns policy d batches COMPACTION_THRESHOLD (commit_runtime p)) as H.
  destruct (accept_next_batches _ _ _ _ _) as [[r' [m|e]]|]; [by eauto| |done]. cbn. eauto.
Qed.

End ServerSpec.
