(* ===== verification/ReplicaSpec.v ===== *)
(** * ReplicaSpec: replicated effects, full synchronization and promotion

    A replica applies an effect to its store exactly when the effect is stored.
    A full synchronization replaces the stored history by the baseline; from the
    moment the old history is touched until the new one is complete the replica
    state file says so, and such a replica is neither promoted nor started as a
    master. *)

From Stdlib Require Import ZArith Lia.
From Stdlib Require Import Strings.Byte.
From stdpp Require Import base gmap list strings numbers sorting.
From S2P Require Import Prelude Text Json JsonPath Value Shard ShardSpec Engine EngineSpec EngineMulti EngineActs EngineSnapshots EngineTrace StoreSnapshot Store Persistence Model Codec CodecSpec BinlogFile BinlogIo AppendSpec Recovery ManagedBinlog SnapshotWriter ReplicaState Runtime Compaction HistorySpec ManagedSpec SealSpec EntryEq StoreSpec ModelSpec SnapshotSpec RecoverySpec InstallSpec CommitSpec MaintenanceSpec Durability Admission Server ServerSpec.

Open Scope Z_scope.

Section ReplicaSpec.
Context {CRC : Crc32} {GZ : Gzip} {JN : JsonNumber} {SJ : SerdeJson} {HO : HashOrder}.

(** ** Messages to the worker *)

(** A relation that holds of every answered call holds of every delivery. *)
Lemma ask_keeps {A} (R : ManagedBinlogFile -> ManagedBinlogFile -> Prop) d unavailable lost
    (f : ManagedBinlogFile -> ManagedBinlogFile * result StorageFailure A) m m' r :
  R m m -> R m (f m).1 -> ask d unavailable lost f m = (m', r) -> R m m'.
Proof.
  intros Hrefl Hf. unfold ask. destruct d as [| |[]]; [|by intros [= <- <-]..].
  destruct (f m) as [m1 [a|e]]; by intros [= <- <-].
Qed.

Lemma ask_ok {A} d unavailable lost (f : ManagedBinlogFile -> ManagedBinlogFile * result StorageFailure A) m m' a :
  ask d unavailable lost f m = (m', Ok a) -> f m = (m', Ok a).
Proof. unfold ask. destruct d as [| |[]]; try done. by destruct (f m) as [m1 [b|e]]; intros [= <- <-]. Qed.

(** The files and the handle are as before. *)
Definition untouched (m m' : ManagedBinlogFile) : Prop :=
  m_files m' = m_files m /\ (is_Some (m_handle m) -> is_Some (m_handle m')).

Lemma worker_flush_untouched m : untouched m (worker_flush m).1.
Proof.
  unfold worker_flush, untouched, m_flush, m_sync, on_handle. destruct (m_handle m) eqn:Eh; [|done].
  destruct (sys m) as [m1 [u|e1]] eqn:E1; apply sys_spec in E1 as (Hf1 & Hh1 & _); [|cbn; by rewrite Hh1, Eh].
  rewrite Hh1, Eh. destruct (sys m1) as [m2 [u2|e2]] eqn:E2; apply sys_spec in E2 as (Hf2 & Hh2 & _); cbn;
    rewrite Hh2, Hh1, Eh, Hf2; done.
Qed.

Lemma flush_untouched d m m' r : handle_flush d m = (m', r) -> untouched m m'.
Proof. apply ask_keeps; [done|apply worker_flush_untouched]. Qed.

(** A flush that succeeds makes the active file durable. *)
Lemma flush_durable d m m' : handle_flush d m = (m', Ok tt) -> m_disk m' = active_contents m'.
Proof.
  intros H. apply ask_ok in H. revert H. unfold worker_flush, m_flush, m_sync, on_handle.
  destruct (m_handle m) eqn:Eh; [|done].
  destruct (sys m) as [m1 [u|e1]] eqn:E1; apply sys_spec in E1 as (Hf1 & Hh1 & _); [|done].
  rewrite Hh1, Eh. destruct (sys m1) as [m2 [u2|e2]] eqn:E2; apply sys_spec in E2 as (Hf2 & Hh2 & _); [|done].
  by intros [= <-].
Qed.

(** ** Truncation *)

(** Only the active file and segments may have changed. *)
Definition apart_from_log (m m' : ManagedBinlogFile) : Prop :=
  (forall name, name <> binlog_path -> parse_binlog_segment_end_sequence (Utf8.from_utf8 name) = Ok None ->
    m_files m' !! name = m_files m !! name) /\
  (is_Some (m_handle m) -> is_Some (m_handle m')).

Lemma apart_refl m : apart_from_log m m.
Proof. done. Qed.

Lemma apart_trans m1 m2 m3 : apart_from_log m1 m2 -> apart_from_log m2 m3 -> apart_from_log m1 m3.
Proof. intros [H1 H2] [H3 H4]. split; [intros; rewrite H3 by done; by apply H1|tauto]. Qed.

Lemma untouched_apart m m' : untouched m m' -> apart_from_log m m'.
Proof. intros [Hf Hh]. split; [by intros; rewrite Hf|done]. Qed.

Lemma remove_segments_spec m segments removed m' r :
  (forall n name, (n, name) ∈ segments ->
    parse_binlog_segment_end_sequence (Utf8.from_utf8 name) = Ok (Some n)) ->
  remove_segments m segments removed = (m', r) ->
  apart_from_log m m' /\ m_files m' !! binlog_path = m_files m !! binlog_path /\
  match r with
  | Ok _ => forall name, m_files m' !! name = if bool_decide (name ∈ segments.*2) then None else m_files m !! name
  | Err _ => True
  end.
Proof.
  revert m removed. induction segments as [|[n name] segments IH]; intros m removed Hs H; cbn [remove_segments] in H.
  - injection H as <- <-. split; [apply apart_refl|]. done.
  - unfold sys_remove in H. destruct (sys m) as [m1 [u|e]] eqn:E; apply sys_spec in E as (Hf & Hh & _).
    2: { injection H as <- <-. split; [split; [by rewrite Hf|by rewrite Hh]|]. by rewrite Hf. }
    assert (Hname := Hs n name (list_elem_of_here _ _)).
    apply IH in H as (Hap & Hb & Hd); [|intros; apply Hs; by right]. split; [|split].
    + eapply apart_trans; [|exact Hap]. split; [|by cbn; rewrite Hh].
      intros name' Hn Hp. cbn. rewrite lookup_delete_ne by (intros ->; congruence). by rewrite Hf.
    + rewrite Hb. cbn. rewrite lookup_delete_ne by (intros ->; discriminate Hname). by rewrite Hf.
    + destruct r as [b|e]; [|done]. intros name'. rewrite Hd, fmap_cons. cbn [snd m_files with_files].
      destruct (decide (name' ∈ segments.*2)) as [Hin|Hin].
      * rewrite !bool_decide_eq_true_2 by (done || by right). done.
      * rewrite bool_decide_eq_false_2 by done. destruct (decide (name' = name)) as [->|Hne].
        -- rewrite lookup_delete_eq, bool_decide_eq_true_2; [done|by left].
        -- rewrite lookup_delete_ne, Hf by done. rewrite bool_decide_eq_false_2; [done|].
           intros [->|?]%elem_of_cons; done.
Qed.

(** Removing every segment. *)
Lemma remove_all_spec m m' r :
  remove_all_binlog_segments m = (m', r) ->
  apart_from_log m m' /\ m_files m' !! binlog_path = m_files m !! binlog_path /\
  (r = Ok tt -> no_segments (m_files m')).
Proof.
  unfold remove_all_binlog_segments. destruct (list_binlog_segments m) as [m1 [segments|e]] eqn:El.
  2: { apply list_segments_spec' in El as (Hf & Hh & _). intros [= <- <-].
       split; [split; [by rewrite Hf|by rewrite Hh]|]. by rewrite Hf. }
  pose proof El as El'. apply list_segments_complete in El as (Hf & Hh & Hs).
  assert (Hbad : forall name, is_Some (m_files m !! name) -> exists o,
      parse_binlog_segment_end_sequence (Utf8.from_utf8 name) = Ok o) by (intros name; by eapply listed_parse).
  destruct (remove_segments m1 segments false) as [m2 r2] eqn:Er.
  apply remove_segments_spec in Er as (Hap & Hb & Hd); [|intros n name Hin; by apply Hs].
  assert (Hap1 : apart_from_log m m2).
  { eapply apart_trans; [|exact Hap]. split; [by rewrite Hf|by rewrite Hh]. }
  rewrite Hf in *. destruct r2 as [b|e]; [|by intros [= <- <-]].
  assert (Hno : no_segments (m_files m2)).
  { intros name Hn. rewrite Hd in Hn. case_bool_decide as Hin; [by destruct Hn|].
    destruct (Hbad _ Hn) as [[n|] Hp]; [|done]. destruct Hin. apply list_elem_of_fmap. exists (n, name).
    split; [done|]. by apply Hs. }
  destruct b; [|by intros [= <- <-]]. intros H. apply sys_spec in H as (Hf3 & Hh3 & _). rewrite Hf3.
  split; [|done]. eapply apart_trans; [exact Hap1|]. split; [by rewrite Hf3|by rewrite Hh3].
Qed.

Lemma truncate_zero_spec m m' r :
  m_truncate m 0 = (m', r) ->
  apart_from_log m m' /\
  (r = Ok tt -> m_files m' !! binlog_path = Some [] /\ no_segments (m_files m') /\ is_Some (m_handle m')).
Proof.
  unfold m_truncate. assert (Hset : apart_from_log m (set_len m 0).1 /\
      ((set_len m 0).2 = Ok tt -> m_files (set_len m 0).1 !! binlog_path = Some [] /\ is_Some (m_handle (set_len m 0).1))).
  { unfold set_len, on_handle. destruct (m_handle m) eqn:Eh; [|by split].
    destruct (next_outcome m) as [m1 o] eqn:E. apply next_outcome_spec in E as (Hf & Hh & _).
    assert (Hactive : forall b, apart_from_log m (with_active m1 b)).
    { intros b. split; [|by cbn; rewrite Hh]. intros name Hn _. cbn. by rewrite lookup_insert_ne, Hf. }
    assert (Hdone : m_files (with_active m1 (resized 0 (active_contents m1))) !! binlog_path = Some [] /\
        is_Some (m_handle (with_active m1 (resized 0 (active_contents m1))))).
    { cbn. rewrite lookup_insert_eq, Hh, Eh. split; [|done]. do 2 f_equal. unfold resized.
      pose proof (len_nonneg (active_contents m1)). replace (Z.to_nat (0 - _)) with 0%nat by lia. done. }
    destruct o as [|k|e []]; cbn [fst snd]; (split; [try apply Hactive|done]). split; [by rewrite Hf|by rewrite Hh]. }
  destruct (set_len m 0) as [m1 [[]|e]]; cbn [fst snd] in Hset; destruct Hset as [Ha1 Hc1]; [|by intros [= <- <-]].
  destruct (Hc1 eq_refl) as [Hb1 Hh1].
  destruct (m_seek_start m1 0) as [m2 [q|e]] eqn:E2.
  - assert (Hs2 : m_files m2 = m_files m1 /\ is_Some (m_handle m2)).
    { revert E2. unfold m_seek_start, m_seek, on_handle. destruct (m_handle m1); [|done].
      destruct (sys m1) as [m3 [u|e]] eqn:E3; apply sys_spec in E3 as (Hf3 & _ & _); [|done]. by intros [= <- <-]. }
    destruct Hs2 as [Hf2 Hh2]. cbn [Z.eqb].
    assert (Ha2 : apart_from_log m m2) by (eapply apart_trans; [exact Ha1|split; [by rewrite Hf2|done]]).
    destruct (remove_all_binlog_segments m2) as [m3 [[]|e]] eqn:E3; apply remove_all_spec in E3 as (Ha3 & Hb3 & Hn3);
      intros [= <- <-]; (split; [by eapply apart_trans|]); [|done].
    intros _. rewrite Hb3, Hf2. split; [done|]. split; [by apply Hn3|]. by apply Ha3.
  - revert E2. unfold m_seek_start, m_seek, on_handle. destruct (m_handle m1) eqn:Eh1; [|by intros [= <- <-] [= <- <-]].
    destruct (sys m1) as [m3 [u|e3]] eqn:E3; [done|]. apply sys_spec in E3 as (Hf3 & Hh3 & _).
    intros [= <- <-] [= <- <-]. split; [|done]. eapply apart_trans; [exact Ha1|].
    split; [by rewrite Hf3|by rewrite Hh3].
Qed.

Lemma handle_truncate_spec d m m' r :
  handle_truncate d m = (m', r) ->
  apart_from_log m m' /\
  (r = Ok tt -> m_files m' !! binlog_path = Some [] /\ no_segments (m_files m') /\ is_Some (m_handle m')).
Proof.
  assert (Hw : forall m1 r1, worker_truncate m = (m1, r1) -> apart_from_log m m1 /\
    (r1 = Ok tt -> m_files m1 !! binlog_path = Some [] /\ no_segments (m_files m1) /\ is_Some (m_handle m1))).
  { intros m1 r1. unfold worker_truncate. destruct (m_flush m) as [m2 r2] eqn:E2.
    assert (U2 : untouched m m2).
    { revert E2. unfold m_flush, on_handle. destruct (m_handle m) eqn:Eh; [|by intros [= <- <-]].
      intros E. apply sys_spec in E as (Hf & Hh & _). split; [done|by rewrite Hh]. }
    apply untouched_apart in U2. destruct r2 as [u|e]; [|by intros [= <- <-]].
    destruct (m_truncate m2 0) as [m3 [[]|[e|e]]] eqn:E3; apply truncate_zero_spec in E3 as [A3 H3];
      [|intros [= <- <-]; split; [by eapply apart_trans|done]..].
    destruct (H3 eq_refl) as (Hb & Hn & Hh). destruct (m_sync m3) as [m4 r4] eqn:E4. intros [= <- <-].
    assert (U4 : m_files m4 = m_files m3 /\ is_Some (m_handle m4)).
    { revert E4. unfold m_sync, on_handle. destruct (m_handle m3) eqn:Eh; [|by destruct Hh].
      destruct (sys m3) as [m5 [u5|e5]] eqn:E5; apply sys_spec in E5 as (Hf5 & Hh5 & _); intros [= <- <-];
        cbn; rewrite Hh5, Eh; done. }
    destruct U4 as [Hf4 Hh4]. rewrite Hf4. split; [|done]. eapply apart_trans; [exact U2|].
    eapply apart_trans; [exact A3|]. split; [by rewrite Hf4|done]. }
  intros H. split.
  - revert H. apply ask_keeps; [apply apart_refl|]. destruct (worker_truncate m) as [m1 r1]. by destruct (Hw _ _ eq_refl).
  - intros ->. apply ask_ok in H. by apply (Hw m' (Ok tt)).
Qed.

(** ** Operations on the binlog in the server's state *)

(** [p'] is [p] with the binlog [m'], and possibly stopped. *)
Definition carried (p p' : Persistence) (m' : ManagedBinlogFile) : Prop :=
  rt_binlog (commit_runtime p') = m' /\ sequence p' = sequence p /\
  (replication_ready p = false -> replication_ready p' = false) /\
  backlog p' = backlog p /\ replica_tx p' = replica_tx p /\ is_replica p' = is_replica p /\
  promote_to_master p' = promote_to_master p.

Lemma carried_trans p1 p2 p3 m m' : carried p1 p2 m -> carried p2 p3 m' -> carried p1 p3 m'.
Proof.
  intros (_ & A2 & A3 & A4 & A5 & A6 & A7) (B1 & B2 & B3 & B4 & B5 & B6 & B7).
  split_and!; [done|congruence|tauto|congruence..].
Qed.

Lemma on_binlog_spec {A} (f : ManagedBinlogFile -> ManagedBinlogFile * result PersistenceError A) p p' res :
  on_binlog f p = (p', res) ->
  exists m', f (rt_binlog (commit_runtime p)) = (m', res) /\ carried p p' m'.
Proof. unfold on_binlog. destruct (f _) as [m' r]. intros [= <- <-]. by exists m'. Qed.

Lemma binlog_or_fail_stop_spec {A} context
    (f : ManagedBinlogFile -> ManagedBinlogFile * result PersistenceError A) p p' res :
  binlog_or_fail_stop context f p = (p', res) ->
  exists m', f (rt_binlog (commit_runtime p)) = (m', res) /\ carried p p' m'.
Proof.
  unfold binlog_or_fail_stop. destruct (on_binlog f p) as [p1 r] eqn:E. apply on_binlog_spec in E as (m' & Hf & Hc).
  destruct r as [a|error]; intros [= <- <-]; exists m'; (split; [done|]); [done|].
  destruct (is_indeterminate error); [|done]. eapply carried_trans; [exact Hc|]. destruct Hc as [Hc _]. by split.
Qed.

Lemma binlog_or_indeterminate_spec context
    (f : ManagedBinlogFile -> ManagedBinlogFile * result PersistenceError unit) p p' res :
  binlog_or_indeterminate context f p = (p', res) ->
  exists m' r, f (rt_binlog (commit_runtime p)) = (m', r) /\ carried p p' m' /\ (res = Ok tt -> r = Ok tt) /\
    (r = Ok tt -> res = Ok tt).
Proof.
  unfold binlog_or_indeterminate. destruct (on_binlog f p) as [p1 r] eqn:E. apply on_binlog_spec in E as (m' & Hf & Hc).
  destruct r as [[]|error]; intros [= <- <-]; eexists m', _; (split; [done|]); (split; [|done]); [done|].
  eapply carried_trans; [exact Hc|]. destruct Hc as [Hc _]. by split.
Qed.

(** ** The durable steps of an installation *)

Definition state_file (m : ManagedBinlogFile) : option bytes := m_files m !! replica_state_path.

(** The files hold the baseline [entries] at [s] and nothing after it. *)
Definition baseline (s : Z) (entries : list (bytes * DataEntry)) (m : ManagedBinlogFile) : Prop :=
  directory (m_files m) s entries (s + 1) [] (s + 1) [] [] [] /\ m_files m !! binlog_path = Some [] /\
  is_Some (m_handle m) /\ rotation_clean (m_files m).

Lemma baseline_stored T s entries r :
  baseline s entries (rt_binlog r) -> rt_offset r = s -> stored T r (snapshot_effects entries).
Proof.
  intros (Hd & Hb & Hh & Hr) Ho. exists s, entries, (s + 1), [], (s + 1), [], []. unfold stored_as.
  change (len (@nil CommittedBatch)) with 0. split_and!; try done; try lia; try apply Hr.
  intros k. unfold recovered_effects, after. cbn [chain_batches map concat app]. rewrite drop_nil. by rewrite app_nil_r.
Qed.

(** A replica state that is written does not change what is stored. *)
Lemma stored_state T F state r r' res :
  stored T r F -> write_durable_replica_state state (rt_binlog r) = (rt_binlog r', res) ->
  rt_offset r' = rt_offset r -> stored T r' F.
Proof.
  intros (w & entries & s & cs & e & bs & rs & Hst) Hw Ho. exists w, entries, s, cs, e, bs, rs.
  apply write_state_spec in Hw as (Hk & Hh & _).
  eapply (stored_unnamed T [replica_state_path; replica_state_temp_path] r); [..|exact Hst].
  - intros name Hin. repeat (apply elem_of_cons in Hin as [->|Hin]; [done|]). by apply not_elem_of_nil in Hin.
  - intros name Hin. repeat (apply elem_of_cons in Hin as [->|Hin]; [by_decision|]). by apply not_elem_of_nil in Hin.
  - intros name Hin. apply Hk; intros ->; apply Hin; [by left|by right; left].
  - rewrite Hh. apply Hst.
  - done.
Qed.

Definition installing_file : bytes := render_state Installing.

(** What an installation that failed leaves: the old history, or files that say
    that no baseline is complete, or the complete baseline. *)
Definition interrupted (T : Z) (F : list CommittedEffect) (replid s : Z) (entries : list (bytes * DataEntry))
    (r : CommitRuntime) : Prop :=
  stored T r F \/ state_file (rt_binlog r) = Some installing_file \/
  (baseline s entries (rt_binlog r) /\ state_file (rt_binlog r) = Some (render_state (Ready (mkIdentity replid s)))).

(** The log is empty and no segment is left: the new snapshot is everything. *)
Lemma baseline_written s entries m m' r :
  0 <= s <= U64_MAX -> NoDup entries.*1 -> Forall entry_ok entries ->
  m_files m !! binlog_path = Some [] -> no_segments (m_files m) -> is_Some (m_handle m) -> rotation_clean (m_files m) ->
  write_snapshot_file entries s m = (m', r) ->
  state_file m' = state_file m /\ (r = Ok tt -> baseline s entries m').
Proof.
  intros Hs Hnd Hok Hb Hno Hh Hrot Hrun. apply write_snapshot_spec in Hrun as (Hk & Hh' & _ & Hcur).
  assert (Hb' : m_files m' !! binlog_path = Some []) by (rewrite <- Hb; apply Hk; by_decision).
  split; [apply Hk; by_decision|]. intros ->. destruct Hcur as [[_ Hn]|(records & Hrec & Hcur)]; [done|].
  split; [|rewrite Hh'; split_and!; try done; unfold rotation_clean; rewrite !Hk by by_decision; apply Hrot].
  apply current_snapshot_directory. rewrite Hcur. split; [|split; [lia|]; split; [lia|]; split; [|by rewrite Hb']].
  2: { split; [done|]. split; [done|]. split; [done|]. by exists records. }
  apply (history_rest_kept (m_files m)); [done|].
  constructor; [lia|constructor|constructor|by left|by left|by intros c ?%not_elem_of_nil| |done].
  intros name Hn. left. by apply Hno.
Qed.

(** Writing the identity completes the baseline or leaves it marked incomplete. *)
Lemma identity_written replid s entries m m' r :
  baseline s entries m -> write_replica_identity (mkIdentity replid s) m = (m', r) ->
  baseline s entries m' /\
  (state_file m' = state_file m /\ r <> Ok tt \/ state_file m' = Some (render_state (Ready (mkIdentity replid s)))).
Proof.
  intros (Hd & Hb & Hh & Hrot) Hrun. apply write_state_spec in Hrun as (Hk & Hh' & _ & Hor). split; [|done].
  assert (Hk' : forall name, name ∉ [replica_state_path; replica_state_temp_path] -> m_files m' !! name = m_files m !! name).
  { intros name Hin. apply Hk; intros ->; apply Hin; [by left|by right; left]. }
  unfold baseline, rotation_clean. rewrite Hh', !Hk' by by_decision. split_and!; try done; try apply Hrot.
  apply current_snapshot_directory. apply current_snapshot_directory in Hd as (H1 & H2 & H3 & H4 & H5).
  unfold current_snapshot, rotation_clean in *. rewrite !Hk' by by_decision. split_and!; try done; try lia.
  apply (history_unnamed [replica_state_path; replica_state_temp_path] (m_files m)); [|by_decision|done|done].
  intros name Hin. repeat (apply elem_of_cons in Hin as [->|Hin]; [done|]). by apply not_elem_of_nil in Hin.
Qed.

Lemma install_files_spec T F flush_answer truncate_answer replid s entries p p' res :
  stored T (commit_runtime p) F -> 0 <= s <= U64_MAX -> NoDup entries.*1 -> Forall entry_ok entries ->
  install_baseline_files flush_answer truncate_answer replid s entries p = (p', res) ->
  (exists m', carried p p' m') /\
  match res with
  | Ok _ => baseline s entries (rt_binlog (commit_runtime p')) /\
            state_file (rt_binlog (commit_runtime p')) = Some (render_state (Ready (mkIdentity replid s)))
  | Err _ => interrupted T F replid s entries (commit_runtime p')
  end.
Proof.
  intros Hst Hs Hnd Hok. unfold install_baseline_files.
  destruct (binlog_or_fail_stop _ (handle_flush flush_answer) p) as [p1 r1] eqn:E1.
  apply binlog_or_fail_stop_spec in E1 as (m1 & E1 & C1). apply flush_untouched in E1 as [Hf1 Hh1].
  assert (St1 : stored T (commit_runtime p1) F).
  { destruct Hst as (w & es & s0 & cs & e & bs & rs & Hst). exists w, es, s0, cs, e, bs, rs.
    destruct C1 as (<- & Ho & _). eapply (stored_files T (commit_runtime p)); [done|apply Hh1, Hst|done|done]. }
  destruct r1 as [u1|e1]; [|intros [= <- <-]; split; [by exists m1|by left]].
  destruct (on_binlog write_replica_installing p1) as [p2 r2] eqn:E2. apply on_binlog_spec in E2 as (m2 & E2 & C2).
  assert (C12 : carried p p2 m2) by (by eapply carried_trans).
  assert (St2 : stored T (commit_runtime p2) F).
  { destruct C2 as (Hb & Ho & _). eapply (stored_state T F Installing (commit_runtime p1)); [done| |done].
    rewrite Hb. exact E2. }
  destruct r2 as [u2|e2]; [|intros [= <- <-]; split; [by exists m2|by left]].
  apply write_state_spec in E2 as (_ & _ & _ & [[_ Hn]|I2]); [by destruct u2|].
  destruct (binlog_or_fail_stop _ (handle_truncate truncate_answer) p2) as [p3 r3] eqn:E3.
  apply binlog_or_fail_stop_spec in E3 as (m3 & E3 & C3). apply handle_truncate_spec in E3 as [[Hk3 _] H3].
  assert (C13 : carried p p3 m3) by (by eapply carried_trans).
  destruct C2 as [Hb2 _]. destruct C3 as [Hb3 _]. rewrite Hb2 in *.
  assert (I3 : state_file m3 = Some installing_file) by (unfold state_file; rewrite Hk3; [exact I2|done|done]).
  destruct r3 as [[]|e3]; [|intros [= <- <-]; split; [by exists m3|]; right; left; by rewrite Hb3].
  destruct (H3 eq_refl) as (B3 & N3 & L3).
  assert (R3 : rotation_clean (m_files m3)).
  { destruct St2 as (w & es & s0 & cs & e & bs & rs & (_ & _ & [_ [Ra Rb]] & _)). rewrite Hb2 in Ra, Rb.
    unfold rotation_clean. rewrite !Hk3 by done. done. }
  destruct (binlog_or_indeterminate _ (write_snapshot_file entries s) p3) as [p4 r4] eqn:E4.
  apply binlog_or_indeterminate_spec in E4 as (m4 & q4 & E4 & C4 & Q4 & _). rewrite Hb3 in E4.
  assert (C14 : carried p p4 m4) by (by eapply carried_trans). destruct C4 as [Hb4 _].
  destruct (baseline_written s entries m3 m4 q4 Hs Hnd Hok B3 N3 L3 R3 E4) as [I4 H4].
  destruct r4 as [[]|e4].
  2: { intros [= <- <-]. split; [by exists m4|]. right; left. by rewrite Hb4, I4. }
  specialize (H4 (Q4 eq_refl)). intros E5.
  apply binlog_or_indeterminate_spec in E5 as (m5 & q5 & E5 & C5 & Q5 & _). rewrite Hb4 in E5.
  assert (C15 : carried p p' m5) by (by eapply carried_trans). destruct C5 as [Hb5 _].
  apply (identity_written replid s entries) in E5 as [H5 I5]; [|done]. split; [by exists m5|]. rewrite Hb5.
  destruct res as [[]|e5]; [destruct I5 as [[_ ?]|I5]; [by specialize (Q5 eq_refl)|done]|].
  unfold interrupted. rewrite Hb5. destruct I5 as [[I5 _]|I5]; [right; left; congruence|by right; right].
Qed.

(** ** Replicated effects *)

(** What installing the effect [batch] as [s] leads to. *)
Definition effect_result (T : Z) (F : list CommittedEffect) (s : Z) (batch : CommittedBatch) (p : Persistence)
    (st st' : ShardedStore) (p' : Persistence) (res : result PersistenceError (list maintenance_task)) : Prop :=
  match res with
  | Ok _ =>
    s = sequence p + 1 /\ replication_ready p = true /\ accepting_writes p' = true /\ replication_ready p' = true /\
    sequence p' = s /\ steady T (commit_runtime p') (F ++ batch_effects [batch]) /\
    shows T st' (F ++ batch_effects [batch])
  | Err error =>
    st' = st /\ sequence p' = sequence p /\
    if is_indeterminate error
    then is_fail_stopped p' = true /\ accepting_writes p' = false /\
         exists part, part `prefix_of` [batch] /\
           recoverable T (m_files (rt_binlog (commit_runtime p'))) (F ++ batch_effects part)
    else steady T (commit_runtime p') F
  end.

Lemma replica_effect_spec T F clk policy d s batch p st :
  clock_before clk T -> engine_ok (engine st) -> steady T (commit_runtime p) F -> shows T st F ->
  Forall effect_ok (effects batch) ->
  exists st' p' res, persist_and_apply_replica_effect clk policy d s batch p st = Some (st', (p', res)) /\
    engine_ok (engine st') /\ effect_result T F s batch p st st' p' res.
Proof.
  intros Hclk Hok Hst Hshow Hfit. unfold persist_and_apply_replica_effect.
  assert (Hrefuse : forall error, is_indeterminate error = false -> exists st' p' res,
    (mret (p, Err error) : prog _) st = Some (st', (p', res)) /\ engine_ok (engine st') /\
    effect_result T F s batch p st st' p' res).
  { intros error Hi. eexists _, _, _. split; [done|]. split; [done|]. cbn [effect_result]. by rewrite Hi. }
  destruct (accepting_writes p) eqn:Ea; cbn [negb]; [|by apply Hrefuse].
  destruct (replication_ready p) eqn:Er; cbn [negb]; [|by apply Hrefuse].
  destruct (checked_add (sequence p) 1) as [expected|] eqn:Ec; [|by apply Hrefuse].
  apply checked_add_Some in Ec as [-> _]. destruct (Z.eqb_spec s (sequence p + 1)) as [->|]; cbn [negb]; [|by apply Hrefuse].
  rewrite accept_one. pose proof (accept_returns policy d [(sequence p + 1, batch)] COMPACTION_THRESHOLD (commit_runtime p)) as Hret.
  destruct (accept_next_batches _ _ _ _ _) as [[r' acc]|] eqn:Eacc; [|done].
  pose proof (accept_moves _ _ _ _ _ _ _ (stored_offset _ _ _ (proj1 Hst)) Eacc) as [[Hf1 _] Hmoves].
  assert (Hb : batches_ok [(sequence p + 1, batch)]) by (constructor; [done|constructor]).
  destruct acc as [maintenance|error].
  - destruct (accept_steady T _ F _ _ _ _ _ (Ok maintenance) Hst Hb Eacc) as [Hst' Ho].
    destruct (apply_effects_spec T clk (effects batch) st Hclk Hok) as (st' & E & Hok' & _ & Hc).
    rewrite (bind_run _ _ _ _ _ (E : apply_committed_batch clk batch st = _)). eexists _, _, _. split; [done|].
    split; [done|]. cbn [effect_result]. split_and!; try done; [by rewrite <- Ea|].
    intros k. rewrite Hc, Hshow, fold_left_app. cbn [batch_effects map concat]. by rewrite app_nil_r.
  - destruct (accept_steady T _ F _ _ _ _ _ (Err error) Hst Hb Eacc) as [Ho Hst'].
    eexists _, _, _. split; [done|]. split; [done|]. cbn [effect_result]. by destruct (is_indeterminate error).
Qed.

(** ** Promotion *)

Lemma promotion_spec T F flush_answer p p' res :
  stored T (commit_runtime p) F -> commit_replica_promotion flush_answer p = (p', res) ->
  stored T (commit_runtime p') F /\ sequence p' = sequence p /\
  match res with
  | Ok _ => replication_ready p = true /\ is_replica p' = false /\ promote_to_master p' = true /\
            replication_ready p' = false /\ upstream_replid p' = 0 /\
            state_file (rt_binlog (commit_runtime p')) = Some (render_state Detached) /\
            m_disk (rt_binlog (commit_runtime p')) = active_contents (rt_binlog (commit_runtime p'))
  | Err _ => is_replica p' = is_replica p /\ promote_to_master p' = promote_to_master p
  end.
Proof.
  intros Hst. unfold commit_replica_promotion. destruct (replication_ready p); cbn [negb]; [|by intros [= <- <-]].
  destruct (binlog_or_fail_stop _ (handle_flush flush_answer) p) as [p1 r1] eqn:E1.
  apply binlog_or_fail_stop_spec in E1 as (m1 & E1 & C1). pose proof E1 as D1. apply flush_untouched in E1 as [Hf1 Hh1].
  assert (St1 : stored T (commit_runtime p1) F).
  { destruct Hst as (w & es & s0 & cs & e & bs & rs & Hst). exists w, es, s0, cs, e, bs, rs.
    destruct C1 as (<- & Ho & _). eapply (stored_files T (commit_runtime p)); [done|apply Hh1, Hst|done|done]. }
  pose proof C1 as (Hb1 & Ho1 & _ & _ & _ & Hi1 & Hp1).
  destruct r1 as [[]|e1]; [|by intros [= <- <-]]. apply flush_durable in D1.
  destruct (on_binlog write_replica_detached p1) as [p2 r2] eqn:E2. apply on_binlog_spec in E2 as (m2 & E2 & C2).
  pose proof C2 as (Hb2 & Ho2 & _ & _ & _ & Hi2 & Hp2).
  assert (St2 : stored T (commit_runtime p2) F).
  { eapply (stored_state T F Detached (commit_runtime p1)); [done| |done]. rewrite Hb2. exact E2. }
  destruct r2 as [[]|e2]; intros [= <- <-].
  - apply write_state_spec in E2 as (Hk & _ & Hd & Hor). cbn. rewrite Hb2. split; [done|].
    split; [unfold sequence in *; cbn; congruence|]. split_and!; try done.
    + by destruct Hor as [[_ ?]|Hor].
    + rewrite Hd, Hb1, D1. unfold active_contents. by rewrite Hk, Hb1 by done.
  - split; [done|]. split; [congruence|]. split; congruence.
Qed.

End ReplicaSpec.
