(* ===== verification/Replication.v ===== *)
(** * Replication: the two ends of a replication connection (src/main.rs)

    The master answers SYNC3 with the part of its backlog that the replica lacks
    or with a dump of its store, then sends every batch it commits.  The replica
    reads that stream: it installs the dump or applies the batches, and keeps
    the sequence it has installed.  A stop that is requested while a connection
    is served ends it between two frames and is not modelled; acknowledgements
    carry monitoring data only and are in [Metrics]. *)

From Stdlib Require Import ZArith Lia.
From Stdlib Require Import Strings.Byte.
From stdpp Require Import base gmap list strings numbers sorting.
From S2P Require Import Prelude Text Json JsonPath Value Shard Engine Store Persistence Model Codec BinlogFile BinlogIo Recovery ManagedBinlog SnapshotWriter ReplicaState Runtime Compaction Resp RespReader ReplicationWire Admission Server.

Open Scope Z_scope.

(** ** The request *)

Inductive Sync3 : Type :=
| SyncRequest (replid offset : Z) (heartbeat : bool)
| SyncRefused (message : bytes).

Definition err_sync_numbers : bytes := bs "ERR SYNC3 requires numeric replication ID and sequence".

Definition sync_numbers (replid offset : bytes) (heartbeat : bool) : Sync3 :=
  match parse_u64 replid, parse_u64 offset with
  | Some replid, Some offset => SyncRequest replid offset heartbeat
  | _, _ => SyncRefused err_sync_numbers
  end.

Definition parse_sync3 (replica_mode : bool) (args : list bytes) : Sync3 :=
  if replica_mode then SyncRefused (bs "ERR chained replication is not supported")
  else
    match args with
    | [_; replid; offset] => sync_numbers replid offset false
    | [_; replid; offset; capability] =>
      if eq_ignore_ascii_case capability (bs "HEARTBEAT") then sync_numbers replid offset true
      else SyncRefused (bs "ERR usage: SYNC3 replid sequence [HEARTBEAT]")
    | _ => SyncRefused (bs "ERR usage: SYNC3 replid sequence [HEARTBEAT]")
    end.

Section Replication.
Context {CRC : Crc32} {GZ : Gzip} {JN : JsonNumber} {SJ : SerdeJson} {HO : HashOrder}.

(** ** The master *)

(** The missing part of the backlog, when the replica can resume. *)
Definition backlog_snapshot (replid requested_replid requested_offset : Z) (p : Persistence)
  : option (list (Z * CommittedBatch)) :=
  if replid_allows_partial requested_replid replid && (0 <? requested_offset) then
    if partial_resync_possible requested_offset (fst <$> head (backlog p)) (sequence p)
    then Some (filter (fun b => requested_offset < b.1) (backlog p))
    else None
  else None.

Fixpoint effect_records (batches : list (Z * CommittedBatch)) : result PersistenceError (list bytes) :=
  match batches with
  | [] => Ok []
  | (offset, batch) :: rest =>
    record ← encode_replication_effect offset batch;
    records ← effect_records rest;
    Ok (write_chunked_replication_record record ++ records)
  end.

Fixpoint entry_records (entries : list (bytes * DataEntry)) : result PersistenceError (list bytes) :=
  match entries with
  | [] => Ok []
  | (key, entry) :: rest =>
    record ← encode_full_sync_entry key entry;
    records ← entry_records rest;
    Ok (write_chunked_replication_record record ++ records)
  end.

Definition last_offset (start : Z) (batches : list (Z * CommittedBatch)) : Z :=
  match list.last batches with Some (offset, _) => offset | None => start end.

(** What is written before the live stream, and the last sequence it covers; an
    error closes the connection.  The backlog and the store are read under the
    write gate. *)
Definition serve_initial (clk : clock) (replid requested_replid requested_offset : Z) (p : Persistence)
  : prog (result PersistenceError (list bytes * Z)) :=
  match backlog_snapshot replid requested_replid requested_offset p with
  | Some missing =>
    let last_sent_offset := last_offset requested_offset missing in
    mret (records ← effect_records missing;
          Ok (continue_marker replid requested_offset :: records ++ [sync_done_marker replid last_sent_offset],
              last_sent_offset))
  | None =>
    let full_sync_offset := sequence p in
    snapshot_entries ← raw_entries clk;
    mret (records ← entry_records snapshot_entries;
          Ok (full_sync_marker replid full_sync_offset (len snapshot_entries)
              :: records ++ [sync_done_marker replid full_sync_offset], full_sync_offset))
  end.

(** One batch from the channel: what was covered before is skipped. *)
Definition serve_live (last_sent_offset : Z) (b : Z * CommittedBatch) : result PersistenceError (list bytes * Z) :=
  let '(offset, batch) := b in
  if offset <=? last_sent_offset then Ok ([], last_sent_offset)
  else
    record ← encode_replication_effect offset batch;
    Ok (write_chunked_replication_record record, offset).

(** What happens on a live connection: the heartbeat is due, or the channel
    delivers a batch. *)
Inductive live_event : Type :=
| Beat
| Published (b : Z * CommittedBatch).

Fixpoint serve_stream (heartbeat : bool) (last_sent_offset : Z) (events : list live_event)
  : result PersistenceError (list bytes * Z) :=
  match events with
  | [] => Ok ([], last_sent_offset)
  | event :: rest =>
    '(writes, last_sent_offset) ←
      match event with
      | Beat => Ok (if heartbeat then [heartbeat_frame last_sent_offset] else [], last_sent_offset)
      | Published b => serve_live last_sent_offset b
      end;
    '(more, last_sent_offset) ← serve_stream heartbeat last_sent_offset rest;
    Ok (writes ++ more, last_sent_offset)
  end.

(** ** The replica *)

(** An error, and whether it counts as an unreachable master. *)
Definition sync_failure : Type := (PersistenceError * bool)%type.

Definition failed {A} (m : bytes) (unreachable : bool) : result sync_failure A := Err (PersistenceError_new m, unreachable).

Definition stop_unreachable (s : stop) : bool :=
  match s with Failed e => upstream_failure_counts_as_unreachable e | _ => false end.

Definition stop_text (s : stop) : bytes := match s with Failed e => message e | _ => [] end.

(** The entries of a dump, into a staging store. *)
Fixpoint receive_entries (clk : nat -> clock) (n : nat) (seen : gset bytes) (staging : ShardedStore) (r : Reader)
  : option (Reader * result sync_failure ShardedStore) :=
  match n with
  | O => Some (r, Ok staging)
  | S n =>
    '(r, received) ← read_full_sync_entry (clk n 0%nat) r;
    match received with
    | Err error =>
      Some (r, failed (bs "Master sent an invalid full synchronization entry: " ++ pe_message error)
                 (upstream_unavailable error))
    | Ok (key, entry) =>
      if bool_decide (key ∈ seen)
      then Some (r, failed (bs "Master sent a duplicate key in the full synchronization snapshot") false)
      else
        '(staging, _) ← store_apply_entry (tick 1 (clk n)) key entry staging;
        receive_entries clk n (seen ∪ {[key]}) staging r
    end
  end.

(** The marker that ends a dump. *)
Definition receive_done (replid : Z) (r : Reader) : Reader * result sync_failure Z :=
  match read_replication_command_with_idle r with
  | (r, Ok (Some marker)) =>
    (r, match parse_replica_sync_done marker replid with Ok s => Ok s | Err error => Err (error, false) end)
  | (r, Ok None) => (r, failed (bs "Master disconnected before completing full synchronization") true)
  | (r, Err s) =>
    (r, failed (bs "Unable to read full synchronization completion: " ++ stop_text s) (stop_unreachable s))
  end.

(** The state of a replica: the server's and the identity it resumes with. *)
Record Replica : Type := mkReplica {
  re_server : Persistence;
  re_replid : Z;
  re_offset : Z
}.

Definition with_offset (s : Z) (p : Persistence) (re : Replica) : Replica := mkReplica p (re_replid re) s.

Definition receive_full (clk : nat -> clock) (flush_answer truncate_answer : delivery) (replid s entry_count : Z)
    (re : Replica) (r : Reader) : prog (Replica * Reader * result sync_failure (Z * Z)) := fun st =>
  '(r, received) ← receive_entries (fun i => clk (3 + i)%nat) (Z.to_nat entry_count) ∅ store_new r;
  match received with
  | Err failure => Some (st, (re, r, Err failure))
  | Ok staging =>
    match receive_done replid r with
    | (r, Err failure) => Some (st, (re, r, Err failure))
    | (r, Ok finished) =>
      if negb (finished =? s)
      then Some (st, (re, r, failed
             (bs "Full synchronization completion sequence does not match its snapshot boundary") false))
      else
        '(_, entries) ← raw_entries (clk 0%nat) staging;
        '(st, (p, installed)) ← install_full_sync (clk 1%nat) flush_answer truncate_answer replid s entries (re_server re) st;
        Some (st, match installed with
                  | Err error => (mkReplica p (re_replid re) (re_offset re), r, Err (error, false))
                  | Ok _ => (mkReplica p replid s, r, Ok (replid, s))
                  end)
    end
  end.

(** One effect whose header is [frame]: read, persisted and applied. *)
Definition receive_effect (clk : clock) (policy : FsyncPolicy) (d : delivery) (frame : list bytes) (re : Replica)
    (r : Reader) : prog (Replica * Reader * result sync_failure unit) := fun st =>
  '(r, received) ← read_replication_effect clk frame r;
  match received with
  | Err error => Some (st, (re, r, Err (error, upstream_unavailable error)))
  | Ok (s, batch) =>
    '(st, (p, installed)) ← persist_and_apply_replica_effect (tick (length (effects batch)) clk) policy d s batch (re_server re) st;
    Some (st, match installed with
              | Err error => (mkReplica p (re_replid re) (re_offset re), r, Err (error, false))
              | Ok _ => (with_offset s p re, r, Ok tt)
              end)
  end.

(** The batches of a partial synchronization; every frame takes a byte of the
    stream, so [fuel] of its length and one more is enough. *)
Fixpoint receive_partial (fuel : nat) (clk : nat -> clock) (policy : FsyncPolicy) (d : nat -> delivery) (replid : Z)
    (re : Replica) (r : Reader) : prog (Replica * Reader * result sync_failure (Z * Z)) := fun st =>
  match fuel with
  | O => None
  | S fuel =>
    match read_replication_command_with_idle r with
    | (r, Ok None) => Some (st, (re, r, failed (bs "Master disconnected during partial synchronization") true))
    | (r, Err s) =>
      Some (st, (re, r, failed (bs "Unable to read partial synchronization data: " ++ stop_text s) (stop_unreachable s)))
    | (r, Ok (Some frame)) =>
      if bool_decide (head frame = Some (bs "+SYNCDONE3")) then
        Some (st, (re, r,
          match parse_replica_sync_done frame replid with
          | Err error => Err (error, false)
          | Ok finished =>
            if negb (finished =? re_offset re)
            then failed (bs "Partial synchronization completion sequence does not match the installed sequence") false
            else Ok (replid, finished)
          end))
      else
        '(st, (re, r, received)) ← receive_effect (clk fuel) policy (d fuel) frame re r st;
        match received with
        | Err failure => Some (st, (re, r, Err failure))
        | Ok _ => receive_partial fuel clk policy d replid re r st
        end
    end
  end.

(** The live stream, until the connection ends: whether the master counts as
    unreachable. *)
Fixpoint receive_live (fuel : nat) (clk : nat -> clock) (policy : FsyncPolicy) (d : nat -> delivery) (re : Replica)
    (r : Reader) : prog (Replica * Reader * bool) := fun st =>
  match fuel with
  | O => None
  | S fuel =>
    match read_replication_command_with_idle r with
    | (r, Ok None) => Some (st, (re, r, true))
    | (r, Err s) => Some (st, (re, r, stop_unreachable s))
    | (r, Ok (Some [])) => receive_live fuel clk policy d re r st
    | (r, Ok (Some frame)) =>
      match parse_upstream_heartbeat frame (re_offset re) with
      | Err _ => Some (st, (re, r, false))
      | Ok true => receive_live fuel clk policy d re r st
      | Ok false =>
        '(st, (re, r, received)) ← receive_effect (clk fuel) policy (d fuel) frame re r st;
        match received with
        | Err failure => Some (st, (re, r, failure.2))
        | Ok _ => receive_live fuel clk policy d re r st
        end
      end
    end
  end.

(** ** One connection *)

(** The line that asks for synchronization. *)
Definition sync_command (re : Replica) : bytes :=
  bs "SYNC3 " ++ print_Z (re_replid re) ++ bs " " ++ print_Z (re_offset re) ++ bs " HEARTBEAT" ++ crlf.

Definition receive_handshake (r : Reader) : Reader * result sync_failure ReplicaSyncHandshake :=
  match read_replication_command_with_idle r with
  | (r, Ok (Some marker)) =>
    (r, if is_authentication_rejection marker
        then failed (bs "Master requires valid upstream replication credentials") false
        else match parse_replica_sync_handshake marker with Ok h => Ok h | Err error => Err (error, false) end)
  | (r, Ok None) => (r, failed (bs "Master disconnected before the replication handshake") true)
  | (r, Err s) => (r, failed (bs "Unable to read the replication handshake: " ++ stop_text s) (stop_unreachable s))
  end.

(** The outcomes of the binlog's messages while a connection is served. *)
Record answers : Type := mkAnswers {
  ans_flush : delivery;
  ans_truncate : delivery;
  ans_effect : nat -> delivery
}.

Definition frame_fuel (r : Reader) : nat := S (length (stream r)).

(** Whether the offered synchronization is taken up; a dump invalidates what the
    replica resumed with. *)
Definition accept_handshake (h : ReplicaSyncHandshake) (re : Replica) : Replica * result sync_failure unit :=
  match h with
  | PartialSync replid requested_sequence =>
    (re, if negb (replid =? re_replid re) || negb (requested_sequence =? re_offset re)
         then failed (bs "Master returned a partial synchronization boundary that does not match the request") false
         else Ok tt)
  | FullSync _ _ _ =>
    match begin_full_sync_reception (re_server re) with
    | (p, Err error) => (mkReplica p (re_replid re) (re_offset re), Err (error, false))
    | (p, Ok _) => (mkReplica p 0 0, Ok tt)
    end
  end.

Definition synchronize (clk : nat -> clock) (policy : FsyncPolicy) (ans : answers) (h : ReplicaSyncHandshake)
    (re : Replica) (r : Reader) : prog (Replica * Reader * result sync_failure (Z * Z)) :=
  match h with
  | PartialSync replid _ => receive_partial (frame_fuel r) clk policy (ans_effect ans) replid re r
  | FullSync replid s entry_count => receive_full clk (ans_flush ans) (ans_truncate ans) replid s entry_count re r
  end.

(** What became of a connection: whether authentication succeeded, whether a
    synchronization began, and whether the master counts as unreachable. *)
Record attempt : Type := mkTried {
  at_authenticated : bool;
  at_began : bool;
  at_unreachable : bool
}.

(** The connection after authentication, if any. *)
Definition serve_connection (clk : nat -> nat -> clock) (policy : FsyncPolicy) (ans : answers) (authenticated : bool)
    (re : Replica) (r : Reader) : prog (Replica * attempt) :=
  match receive_handshake r with
  | (_, Err failure) => mret (re, mkTried authenticated false failure.2)
  | (r, Ok h) =>
    match accept_handshake h re with
    | (re, Err failure) => mret (re, mkTried authenticated false failure.2)
    | (re, Ok _) =>
      '(re, r, synced) ← synchronize (clk 1%nat) policy ans h re r;
      match synced with
      | Err failure => mret (re, mkTried authenticated true failure.2)
      | Ok (replid, offset) =>
        '(re, _, unreachable) ← receive_live (frame_fuel r) (clk 0%nat) policy (ans_effect ans)
          (mkReplica (re_server re) replid offset) r;
        mret (re, mkTried authenticated true unreachable)
      end
    end
  end.

(** The answer to AUTH. *)
Definition receive_auth (r : Reader) : Reader * result sync_failure unit :=
  match read_replication_command_with_idle r with
  | (r, Ok (Some [reply])) =>
    (r, if eq_ignore_ascii_case reply (bs "+OK") then Ok tt
        else failed (bs "Upstream authentication was rejected") false)
  | (r, Ok (Some _)) => (r, failed (bs "Upstream authentication was rejected") false)
  | (r, Ok None) => (r, failed (bs "Master disconnected during upstream authentication") true)
  | (r, Err s) => (r, failed (bs "Unable to read the upstream authentication response") (stop_unreachable s))
  end.

Definition run_connection (clk : nat -> nat -> clock) (policy : FsyncPolicy) (ans : answers) (credentials : bool)
    (re : Replica) (r : Reader) : prog (Replica * attempt) :=
  if credentials then
    match receive_auth r with
    | (_, Err failure) => mret (re, mkTried false false failure.2)
    | (r, Ok _) => serve_connection clk policy ans true re r
    end
  else serve_connection clk policy ans false re r.

(** ** Reconnecting *)

Definition MIN_BACKOFF_SECS : Z := 1.
Definition MAX_BACKOFF_SECS : Z := 30.

(** Since when the master is unreachable: an attempt that began a
    synchronization, or was answered, starts over. *)
Definition note_attempt (now : Z) (a : attempt) (unreachable_since : option Z) : option Z :=
  let since := if at_began a then None else unreachable_since in
  if at_unreachable a then Some (match since with Some t => t | None => now end) else None.

Definition next_backoff (a : attempt) (backoff_secs : Z) : Z :=
  Z.min ((if at_authenticated a || at_began a then MIN_BACKOFF_SECS else backoff_secs) * 2) MAX_BACKOFF_SECS.

Definition maybe_auto_promote_replica (flush_answer : delivery) (now : Z) (unreachable_since : option Z)
    (auto_failover : bool) (failover_timeout : Z) (p : Persistence) : Persistence * bool :=
  if negb auto_failover || negb (match unreachable_since with Some since => failover_timeout <=? now - since | None => false end)
  then (p, false)
  else
    match commit_replica_promotion flush_answer p with
    | (p, Ok _) => (p, true)
    | (p, Err _) => (p, false)
    end.

(** ** The replica's task *)

(** What a round of the loop meets: the connection, if the master accepts it,
    the time at which it is over, the outcomes of the messages to the binlog,
    and whether another task asks for a stop meanwhile. *)
Record round : Type := mkRound {
  rd_link : option Reader;
  rd_now : Z;
  rd_clock : nat -> nat -> clock;
  rd_answers : answers;
  rd_promotion_flush : delivery;
  rd_stopped : bool
}.

Inductive replica_end : Type := ReplicaRunning | ReplicaStopped | ReplicaPromoted.

Record ReplicaRuntimeConfig : Type := mkReplicaConfig {
  rc_credentials : bool;
  rc_auto_failover : bool;
  rc_failover_timeout : Z
}.

Definition connect_failed : attempt := mkTried false false true.

Definition try_round (policy : FsyncPolicy) (config : ReplicaRuntimeConfig) (rd : round) (re : Replica)
  : prog (Replica * attempt) :=
  '(re, a) ← match rd_link rd with
             | None => mret (re, connect_failed)
             | Some r => run_connection (rd_clock rd) policy (rd_answers rd) (rc_credentials config) re r
             end;
  let p := re_server re in
  let p := if rd_stopped rd then with_lifecycle (request_stop (replica_lifecycle p)) p else p in
  mret (mkReplica p (re_replid re) (re_offset re), a).

Definition leave (p : Persistence) (re : Replica) : Replica :=
  mkReplica (with_lifecycle (run_guard_drop false (replica_lifecycle p)) p) (re_replid re) (re_offset re).

(** The loop over [rounds]; [tries] are the attempts so far, newest first, and
    every round that goes on sleeps for the backoff before the next. *)
Fixpoint run_rounds (policy : FsyncPolicy) (config : ReplicaRuntimeConfig) (rounds : list round) (backoff_secs : Z)
    (unreachable_since : option Z) (tries : list (Z * attempt)) (re : Replica)
  : prog (Replica * Z * list (Z * attempt) * replica_end) :=
  match rounds with
  | [] => mret (re, backoff_secs, tries, ReplicaRunning)
  | rd :: rounds =>
    if stop_requested (replica_lifecycle (re_server re))
    then mret (leave (re_server re) re, backoff_secs, tries, ReplicaStopped)
    else
      '(re, a) ← try_round policy config rd re;
      let tries := (rd_now rd, a) :: tries in
      let unreachable_since := note_attempt (rd_now rd) a unreachable_since in
      let stopping := stop_requested (replica_lifecycle (re_server re)) in
      if at_began a && stopping then mret (leave (re_server re) re, backoff_secs, tries, ReplicaStopped)
      else
        let '(p, promoted) := maybe_auto_promote_replica (rd_promotion_flush rd) (rd_now rd) unreachable_since
                                (rc_auto_failover config) (rc_failover_timeout config) (re_server re) in
        let re := mkReplica p (re_replid re) (re_offset re) in
        if promoted then mret (leave p re, backoff_secs, tries, ReplicaPromoted)
        else if stop_requested (replica_lifecycle p) then mret (leave p re, backoff_secs, tries, ReplicaStopped)
        else run_rounds policy config rounds (next_backoff a backoff_secs) unreachable_since tries re
  end.

Definition run_replica (policy : FsyncPolicy) (config : ReplicaRuntimeConfig) (rounds : list round)
    (initial_replid initial_offset : Z) (p : Persistence) : prog (Replica * Z * list (Z * attempt) * replica_end) :=
  run_rounds policy config rounds MIN_BACKOFF_SECS None []
    (mkReplica (with_lifecycle (mark_running (replica_lifecycle p)) p) initial_replid initial_offset).

End Replication.
