(* ===== verification/ReplicationSpec.v ===== *)
(** * ReplicationSpec: a replica that follows its master

    From any cut of the stream that the master writes, the replica installs a
    prefix of the batches the stream carries: what its store shows, what its
    files hold and the sequence it resumes with stay together, and a connection
    that delivered everything and ended without a local failure has installed
    everything. *)

From Stdlib Require Import ZArith Lia.
From Stdlib Require Import Strings.Byte.
From stdpp Require Import base gmap list strings numbers sorting.
From S2P Require Import Prelude Text Json JsonPath Value Shard ShardSpec Engine EngineSpec EngineMulti EngineActs EngineSnapshots EngineTrace StoreSnapshot Store Persistence Model Codec CodecSpec BinlogFile BinlogIo AppendSpec Recovery ManagedBinlog SnapshotWriter ReplicaState Runtime Compaction HistorySpec ManagedSpec SealSpec EntryEq StoreSpec ModelSpec SnapshotSpec RecoverySpec InstallSpec CommitSpec MaintenanceSpec Durability Resp RespReader ReplicationWire ReplicationStream Admission Server ServerSpec ReplicaSpec Replication.

Open Scope Z_scope.

Section ReplicationSpec.
Context {CRC : Crc32} {GZ : Gzip} {JN : JsonNumber} {SJ : SerdeJson} {HO : HashOrder}.

(** A batch that a record can carry. *)
Definition batch_fits (b : Z * CommittedBatch) : Prop := 0 < b.1 <= U64_MAX /\ Forall effect_ok (effects b.2).

(** The replica shows and holds exactly [G]. *)
Definition healthy (T : Z) (G : list CommittedEffect) (st : ShardedStore) (re : Replica) : Prop :=
  engine_ok (engine st) /\ shows T st G /\ sequence (re_server re) = re_offset re /\
  steady T (commit_runtime (re_server re)) G.

(** It shows [G] and holds [G], or it has stopped and its files hold [G] and
    possibly batches from the front of [next]. *)
Definition standing (T : Z) (G : list CommittedEffect) (next : list CommittedBatch) (st : ShardedStore) (re : Replica)
  : Prop :=
  engine_ok (engine st) /\ shows T st G /\ sequence (re_server re) = re_offset re /\
  (steady T (commit_runtime (re_server re)) G \/
   is_fail_stopped (re_server re) = true /\ accepting_writes (re_server re) = false /\
   exists part, part `prefix_of` next /\
     recoverable T (m_files (rt_binlog (commit_runtime (re_server re)))) (G ++ batch_effects part)).

Lemma healthy_standing T G next st re : healthy T G st re -> standing T G next st re.
Proof. intros (H1 & H2 & H3 & H4). split_and!; try done. by left. Qed.

(** ** One effect *)

Lemma receive_effect_spec T G clk policy d frame s batch next r r2 re st :
  read_replication_effect clk frame r = Some (r2, Ok (s, batch)) -> clock_before clk T ->
  Forall effect_ok (effects batch) -> healthy T G st re ->
  exists st' re' x, receive_effect clk policy d frame re r st = Some (st', (re', r2, x)) /\ re_replid re' = re_replid re /\
    match x with
    | Ok _ => s = re_offset re + 1 /\ re_offset re' = s /\ healthy T (G ++ batch_effects [batch]) st' re'
    | Err failure => failure.2 = false /\ re_offset re' = re_offset re /\ standing T G (batch :: next) st' re'
    end.
Proof.
  intros Hr Hclk Hfit (Hok & Hshow & Hseq & Hst). unfold receive_effect. rewrite Hr. cbn [mbind option_bind].
  destruct (replica_effect_spec T G (tick (length (effects batch)) clk) policy d s batch (re_server re) st
    (clock_before_tick _ _ _ Hclk) Hok Hst Hshow Hfit) as (st' & p' & res & E & Hok' & Hres).
  rewrite E. cbn [mbind option_bind]. destruct res as [tasks|error]; eexists _, _, _; (split; [done|]); (split; [done|]).
  - destruct Hres as (Hs & _ & _ & _ & Hs' & Hst' & Hshow'). rewrite <- Hseq. by split_and!.
  - destruct Hres as (-> & Hs' & Hi). split; [done|]. split; [done|]. split_and!; try done.
    { cbn. by rewrite Hs'. }
    destruct (is_indeterminate error); [|by left]. destruct Hi as (Hf & Ha & part & Hp & Hrec). right.
    split_and!; try done. exists part. split; [|done]. etrans; [exact Hp|]. by exists next.
Qed.

Lemma batch_effects_cons s b l : batch_effects ((s, b) :: l : list (Z * CommittedBatch)).*2 = batch_effects [b] ++ batch_effects l.*2.
Proof. by rewrite <- batch_effects_app. Qed.

(** ** The live stream *)

Definition published (events : list live_event) : list (Z * CommittedBatch) :=
  omap (fun e => match e with Published b => Some b | Beat => None end) events.

Definition unseen (last : Z) (l : list (Z * CommittedBatch)) : list (Z * CommittedBatch) :=
  filter (fun b => last < b.1) l.

Lemma unseen_all last c l : consecutive c l -> last < c -> unseen last l = l.
Proof.
  revert c. induction l as [|b l IH]; intros c H Hc; [done|]. apply consecutive_cons in H as [Hb H].
  unfold unseen. rewrite filter_cons_True by lia. f_equal. apply (IH (c + 1)); [done|lia].
Qed.

Lemma unseen_next last b l : consecutive (last + 1) ((last + 1, b) :: l) ->
  unseen last ((last + 1, b) :: l) = (last + 1, b) :: unseen (last + 1) l.
Proof.
  intros [_ H]%consecutive_cons. unfold unseen at 1. rewrite filter_cons_True by (cbn; lia). f_equal.
  fold (unseen last l). by rewrite (unseen_all last _ _ H), (unseen_all (last + 1) _ _ H) by lia.
Qed.

(** After the loop: a part of [sent] is installed. *)
Definition followed (T : Z) (G : list CommittedEffect) (start : Z) (sent : list (Z * CommittedBatch))
    (installed : list (Z * CommittedBatch)) (st : ShardedStore) (re : Replica) : Prop :=
  exists left, sent = installed ++ left /\ re_offset re = start + len installed /\
    standing T (G ++ batch_effects installed.*2) left.*2 st re.

Lemma followed_start T G sent st re : standing T G sent.*2 st re -> followed T G (re_offset re) sent [] st re.
Proof.
  intros H. exists sent. split; [done|]. change (len (@nil (Z * CommittedBatch))) with 0. split; [lia|].
  change (batch_effects ([] : list (Z * CommittedBatch)).*2) with (@nil CommittedEffect). by rewrite app_nil_r.
Qed.

Lemma followed_none T G sent st re : healthy T G st re -> followed T G (re_offset re) sent [] st re.
Proof. intros H. by apply followed_start, healthy_standing. Qed.

Lemma followed_cons T G start s b sent installed st re :
  followed T (G ++ batch_effects [b]) (start + 1) sent installed st re ->
  followed T G start ((s, b) :: sent) ((s, b) :: installed) st re.
Proof.
  intros (left & -> & Ho & H). exists left. split; [done|]. rewrite len_cons. split; [lia|].
  by rewrite batch_effects_cons, (assoc_L (++)).
Qed.

Lemma live_stops fuel clk policy d re r r1 x st :
  read_replication_command r = (r1, x) -> (forall f, x <> Ok (Some f)) ->
  exists u, receive_live (S fuel) clk policy d re r st = Some (st, (re, r1, u)).
Proof.
  intros E Hx. cbn [receive_live]. unfold read_replication_command in E. rewrite E.
  destruct x as [[f|]|s]; [by destruct (Hx f)|eauto|eauto].
Qed.

Lemma live_effect fuel clk policy d re r r1 frame st :
  read_replication_command r = (r1, Ok (Some frame)) -> head frame = Some APPLYEFFECT ->
  receive_live (S fuel) clk policy d re r st =
  ('(st, (re, r, received)) ← receive_effect (clk fuel) policy (d fuel) frame re r1 st;
   match received with
   | Err failure => Some (st, (re, r, failure.2))
   | Ok _ => receive_live fuel clk policy d re r st
   end).
Proof.
  intros E Hh. cbn [receive_live]. unfold read_replication_command in E. rewrite E.
  destruct frame as [|name rest]; [done|]. injection Hh as ->. reflexivity.
Qed.

Lemma nothing_read r r1 x : stream r = [] -> read_replication_command r = (r1, x) -> forall f, x <> Ok (Some f).
Proof.
  intros Hs E f ->. apply read_gives in E as (n & _ & Hn & _); [|by rewrite Hs].
  rewrite Hs in Hn. change (len (@nil byte)) with 0 in Hn. lia.
Qed.

(** The heartbeat is a line of three words. *)
Lemma heartbeat_words n : heartbeat_frame n = join_words [bs "REPLCONF"; bs "PING"; print_Z n] ++ crlf.
Proof. unfold heartbeat_frame. cbn [join_words]. rewrite <- !(assoc_L (++)). reflexivity. Qed.

Lemma heartbeat_arrives n rest r :
  0 <= n <= U64_MAX -> stream r `prefix_of` heartbeat_frame n ++ rest -> len (heartbeat_frame n ++ rest) <= I64_MAX ->
  (exists r1, read_replication_command r = (r1, Ok (Some [bs "REPLCONF"; bs "PING"; print_Z n])) /\
     got r (heartbeat_frame n ++ rest) rest r1) \/
  (stream r <> heartbeat_frame n ++ rest /\ exists r1 x, read_replication_command r = (r1, x) /\ forall f, x <> Ok (Some f)).
Proof.
  intros Hn. rewrite heartbeat_words, <- (assoc_L (++)). intros Hp Hlen.
  eapply (words_arrive [bs "REPLCONF"; bs "PING"; print_Z n]); try done.
  - constructor; [split; [done|split; [by repeat constructor|done]]|].
    constructor; [split; [done|split; [by repeat constructor|done]]|]. constructor; [apply print_Z_word; lia|constructor].
  - change (join_words [bs "REPLCONF"; bs "PING"; print_Z n]) with (bs "REPLCONF PING " ++ print_Z n).
    rewrite len_app. pose proof (print_Z_length n Hn). change (len (bs "REPLCONF PING ")) with 14. lia.
Qed.

(** [live re r st out]: the loop ended with [out] after installing a part of
    [sent], all of it when everything arrived and nothing failed here. *)
Definition lived (T : Z) (G : list CommittedEffect) (whole : bytes) (sent : list (Z * CommittedBatch)) (re : Replica)
    (r : Reader) (out : option (ShardedStore * (Replica * Reader * bool))) : Prop :=
  exists st' re' r' unreachable installed, out = Some (st', (re', r', unreachable)) /\ re_replid re' = re_replid re /\
    followed T G (re_offset re) sent installed st' re' /\
    (unreachable = true -> stream r = whole -> installed = sent).

Lemma lived_cut T G whole sent re r r1 x fuel clk policy d st :
  healthy T G st re -> read_replication_command r = (r1, x) -> (forall f, x <> Ok (Some f)) ->
  (stream r = whole -> sent = []) ->
  lived T G whole sent re r (receive_live (S fuel) clk policy d re r st).
Proof.
  intros Hh E Hx Hw. destruct (live_stops fuel clk policy d re r r1 x st E Hx) as [u Hu].
  exists st, re, r1, u, []. split; [done|]. split; [done|]. split; [by apply followed_none|]. intros _ Hf. by rewrite Hw.
Qed.

Lemma live_spec T clk policy d heartbeat events :
  (forall i, clock_before (clk i) T) -> Forall batch_fits (published events) ->
  forall last c G writes last' fuel re r st,
  serve_stream heartbeat last events = Ok (writes, last') -> 0 <= last <= U64_MAX ->
  consecutive c (published events) -> c <= last + 1 ->
  healthy T G st re -> re_offset re = last ->
  stream r `prefix_of` concat writes -> len (concat writes) <= I64_MAX -> (length (stream r) < fuel)%nat ->
  lived T G (concat writes) (unseen last (published events)) re r (receive_live fuel clk policy d re r st).
Proof.
  intros Hclk. induction events as [|event events IH]; intros Hfits last c G writes last' fuel re r st Hserve Hlast Hcons Hc Hh Hoff Hp Hlen Hfuel.
  - injection Hserve as <- <-. destruct fuel as [|fuel]; [lia|]. apply prefix_nil_inv in Hp.
    destruct (read_replication_command r) as [r1 x] eqn:E. eapply lived_cut; [done|exact E|by eapply nothing_read|done].
  - cbn [serve_stream] in Hserve. destruct event as [|[s b]].
    + cbn [mbind result_bind] in Hserve.
      destruct (serve_stream heartbeat last events) as [[more last1]|] eqn:Em; [|done]. injection Hserve as <- <-.
      change (published (Beat :: events)) with (published events) in *.
      destruct heartbeat; [|by eapply (IH Hfits last c G more last1)]. cbn [app concat] in Hp, Hlen |- *.
      destruct fuel as [|fuel]; [lia|].
      destruct (heartbeat_arrives last (concat more) r Hlast Hp Hlen) as [(r1 & E & Hp1 & He1 & Hl1 & Hw1)|(Hne & r1 & x & E & Hx)].
      2: { by eapply lived_cut. }
      cbn [receive_live]. unfold read_replication_command in E. rewrite E. unfold parse_upstream_heartbeat.
      rewrite !bytes_eqb_refl. cbn [negb]. rewrite parse_u64_print by done. rstep. rewrite Hoff, Z.eqb_refl. cbn [negb].
      destruct (IH Hfits last c G more last1 fuel re r1 st) as (st' & re' & r' & u & inst & Ho & Hid & Hf & Hall); try done.
      { rewrite len_app in Hlen. pose proof (len_nonneg (heartbeat_frame last)). lia. }
      { lia. }
      rewrite Hoff in *. exists st', re', r', u, inst. rewrite Hoff. split_and!; try done. intros Hu Hw. apply Hall; auto.
    + change (published (Published (s, b) :: events)) with ((s, b) :: published events) in *.
      apply list.Forall_cons in Hfits as [[Hs Hb] Hfits]. apply consecutive_cons in Hcons as [Hsc Hcons]. cbn [fst snd] in *. subst c.
      unfold serve_live in Hserve. destruct (Z.leb_spec s last) as [Hle|Hgt].
      * cbn [mbind result_bind] in Hserve. destruct (serve_stream heartbeat last events) as [[more last1]|] eqn:Em; [|done].
        injection Hserve as <- <-. unfold unseen. rewrite filter_cons_False by (cbn; lia).
        eapply (IH Hfits last (s + 1) G more last1); try done; lia.
      * assert (s = last + 1) as -> by lia.
        destruct (encode_replication_effect (last + 1) b) as [record|] eqn:Ee; [|done]. cbn [mbind result_bind] in Hserve.
        destruct (serve_stream heartbeat (last + 1) events) as [[more last1]|] eqn:Em; [|done].
        assert (writes = write_chunked_replication_record record ++ more) as -> by (by injection Hserve).
        rewrite concat_app in Hp, Hlen |- *. destruct fuel as [|fuel]; [lia|].
        assert (Hun : unseen last ((last + 1, b) :: published events) = (last + 1, b) :: unseen (last + 1) (published events)).
        { apply unseen_next. by apply consecutive_cons. }
        rewrite Hun.
        destruct (effect_arrives (clk fuel) (last + 1) b record (concat more) r Hs Hb Ee Hp Hlen)
          as [(r1 & E & Hhead & [(r2 & E2 & Hp2 & He2 & Hl2 & Hw2)|(Hne & r2 & error & E2)])|(Hne & r1 & x & E & Hx)].
        -- rewrite (live_effect _ _ _ _ _ _ _ _ _ E Hhead).
           destruct (receive_effect_spec T G (clk fuel) policy (d fuel) (header record) (last + 1) b
             (unseen (last + 1) (published events)).*2 r1 r2 re st E2 (Hclk fuel) Hb Hh) as (st1 & re1 & x & Er & Hid & Hx).
           rewrite Er. cbn [mbind option_bind]. destruct x as [u|failure].
           ++ destruct Hx as (Hs1 & Ho1 & Hh1).
              destruct (IH Hfits (last + 1) (last + 1 + 1) (G ++ batch_effects [b]) more last1 fuel re1 r2 st1)
                as (st' & re' & r' & u' & inst & Ho & Hid' & Hf & Hall); try done; try lia.
              { rewrite len_app in Hlen. pose proof (len_nonneg (concat (write_chunked_replication_record record))). lia. }
              exists st', re', r', u', ((last + 1, b) :: inst). split; [done|]. split; [congruence|].
              rewrite Ho1 in Hf. rewrite Hoff. split; [by apply followed_cons|]. intros Hu Hw. f_equal. auto.
           ++ destruct Hx as (Hf & Ho1 & Hst). exists st1, re1, r2, failure.2, []. split; [done|]. split; [done|].
              split; [|by rewrite Hf]. rewrite <- Ho1. by apply followed_start.
        -- rewrite (live_effect _ _ _ _ _ _ _ _ _ E Hhead). unfold receive_effect. rewrite E2. cbn [mbind option_bind].
           eexists st, re, r2, _, []. split; [done|]. split; [done|]. split; [by apply followed_none|]. by intros _ ?.
        -- by eapply lived_cut.
Qed.

(** ** A partial synchronization *)

Lemma done_words replid last :
  sync_done_marker replid last = join_words (bs "+SYNCDONE3" :: map print_Z [replid; last]) ++ crlf.
Proof.
  unfold sync_done_marker. cbn [join_words map]. repeat (rewrite <- app_assoc || rewrite <- app_comm_cons). reflexivity.
Qed.

Lemma done_arrives replid last rest r :
  let whole := sync_done_marker replid last ++ rest in
  0 < replid <= U64_MAX -> 0 <= last <= U64_MAX -> stream r `prefix_of` whole -> len whole <= I64_MAX ->
  (exists r1 frame, read_replication_command r = (r1, Ok (Some frame)) /\ head frame = Some (bs "+SYNCDONE3") /\
     parse_replica_sync_done frame replid = Ok last /\ got r whole rest r1) \/
  (stream r <> whole /\ exists r1 x, read_replication_command r = (r1, x) /\ forall f, x <> Ok (Some f)).
Proof.
  intros whole Hid Hl Hp Hlen. unfold whole in *. rewrite done_words, <- (assoc_L (++)) in *.
  destruct (marker_arrives (bs "+SYNCDONE3") x2b (bs "SYNCDONE3") [replid; last] rest r) as [(r1 & E & Hg)|H];
    try done; [|by repeat constructor; try lia| |by right].
  - split; [done|]. split; [by repeat constructor|done].
  - left. eexists r1, _. split; [exact E|]. split; [done|]. split; [|done]. unfold parse_replica_sync_done. cbn [map].
    rewrite bytes_eqb_refl. cbn [negb]. rewrite !parse_u64_print by lia. rstep. rewrite Z.eqb_refl. done.
Qed.

(** [sent] is what the synchronization carries and [rest] what follows it. *)
Definition synced (T : Z) (G : list CommittedEffect) (whole rest : bytes) (sent : list (Z * CommittedBatch))
    (replid : Z) (re : Replica) (r : Reader)
    (out : option (ShardedStore * (Replica * Reader * result sync_failure (Z * Z)))) : Prop :=
  exists st' re' r' x installed, out = Some (st', (re', r', x)) /\ re_replid re' = re_replid re /\
    followed T G (re_offset re) sent installed st' re' /\
    match x with
    | Ok (id, finished) =>
      id = replid /\ finished = re_offset re' /\ installed = sent /\ healthy T (G ++ batch_effects sent.*2) st' re' /\
      got r whole rest r'
    | Err failure => stream r = whole -> failure.2 = false
    end.

Lemma partial_stops T G whole rest sent replid fuel clk policy d re r r1 x st :
  healthy T G st re -> read_replication_command r = (r1, x) -> (forall f, x <> Ok (Some f)) -> stream r <> whole ->
  synced T G whole rest sent replid re r (receive_partial (S fuel) clk policy d replid re r st).
Proof.
  intros Hh E Hx Hw. cbn [receive_partial]. unfold read_replication_command in E. rewrite E.
  destruct x as [[f|]|s]; [by destruct (Hx f)| |]; eexists st, re, r1, _, [];
    (split; [done|]); (split; [done|]); (split; [by apply followed_none|]); intros Hf; by destruct Hw.
Qed.

Lemma partial_spec T clk policy d replid rest missing :
  (forall i, clock_before (clk i) T) -> 0 < replid <= U64_MAX -> Forall batch_fits missing ->
  forall records G fuel re r st,
  let whole := concat records ++ sync_done_marker replid (re_offset re + len missing) ++ rest in
  effect_records missing = Ok records -> consecutive (re_offset re + 1) missing -> 0 <= re_offset re <= U64_MAX ->
  re_offset re + len missing <= U64_MAX -> healthy T G st re ->
  stream r `prefix_of` whole -> len whole <= I64_MAX -> (length (stream r) < fuel)%nat ->
  synced T G whole rest missing replid re r (receive_partial fuel clk policy d replid re r st).
Proof.
  intros Hclk Hid. induction missing as [|[s b] missing IH]; intros Hfits records G fuel re r st whole Her Hcons Hoff Hmax Hh Hp Hlen Hfuel;
    (destruct fuel as [|fuel]; [lia|]).
  - injection Her as <-. change (len (@nil (Z * CommittedBatch))) with 0 in *. unfold whole in *. cbn [concat app] in *.
    rewrite Z.add_0_r in *.
    destruct (done_arrives replid (re_offset re) rest r Hid Hoff Hp Hlen)
      as [(r1 & frame & E & Hhead & Hparse & Hg)|(Hne & r1 & x & E & Hx)].
    2: { by eapply partial_stops. }
    cbn [receive_partial]. unfold read_replication_command in E. rewrite E, bool_decide_eq_true_2, Hparse by done.
    rewrite Z.eqb_refl. cbn [negb]. eexists st, re, r1, _, []. split; [done|]. split; [done|].
    split; [by apply followed_none|]. split_and!; try done; try apply Hg.
    change (batch_effects ([] : list (Z * CommittedBatch)).*2) with (@nil CommittedEffect). by rewrite app_nil_r.
  - apply list.Forall_cons in Hfits as [[Hs Hb] Hfits]. apply consecutive_cons in Hcons as [Hsc Hcons]. cbn [fst snd] in *. subst s.
    cbn [effect_records] in Her. destruct (encode_replication_effect (re_offset re + 1) b) as [record|] eqn:Ee; [|done].
    cbn [mbind result_bind] in Her. destruct (effect_records missing) as [more|] eqn:Em; [|done].
    assert (records = write_chunked_replication_record record ++ more) as -> by (by injection Her).
    rewrite len_cons in *. set (tail := concat more ++ sync_done_marker replid (re_offset re + 1 + len missing) ++ rest).
    assert (Hwhole : whole = concat (write_chunked_replication_record record) ++ tail).
    { unfold whole, tail. rewrite concat_app, <- (assoc_L (++)).
      match goal with |- _ ++ _ ++ sync_done_marker _ ?a ++ _ = _ ++ _ ++ sync_done_marker _ ?b ++ _ =>
        replace a with b by (rewrite ?len_cons; lia) end. done. }
    rewrite Hwhole in *. clear Hwhole whole.
    destruct (effect_arrives (clk fuel) (re_offset re + 1) b record tail r Hs Hb Ee Hp Hlen)
      as [(r1 & E & Hhead & [(r2 & E2 & Hp2 & He2 & Hl2 & Hw2)|(Hne & r2 & error & E2)])|(Hne & r1 & x & E & Hx)].
    3: { by eapply partial_stops. }
    + cbn [receive_partial]. unfold read_replication_command in E. rewrite E, Hhead, bool_decide_eq_false_2 by done.
      destruct (receive_effect_spec T G (clk fuel) policy (d fuel) (header record) (re_offset re + 1) b
        missing.*2 r1 r2 re st E2 (Hclk fuel) Hb Hh) as (st1 & re1 & x & Er & Hid1 & Hx).
      rewrite Er. cbn [mbind option_bind]. destruct x as [u|failure].
      * destruct Hx as (_ & Ho1 & Hh1).
        destruct (IH Hfits more (G ++ batch_effects [b]) fuel re1 r2 st1)
          as (st' & re' & r' & x & inst & Ho & Hid' & Hf & Hx); rewrite ?Ho1; try done; try lia.
        { unfold tail in *. rewrite len_app in Hlen. pose proof (len_nonneg (concat (write_chunked_replication_record record))). lia. }
        exists st', re', r', x, ((re_offset re + 1, b) :: inst). split; [done|]. split; [congruence|].
        rewrite Ho1 in Hf, Hx. split; [by apply followed_cons|]. destruct x as [[id fin]|failure].
        -- destruct Hx as (-> & -> & -> & Hh' & (G1 & G2 & G3 & G4)). split_and!; try done; try (by f_equal).
           ++ by rewrite batch_effects_cons, (assoc_L (++)).
           ++ unfold got. split_and!; [done|congruence|lia|auto].
        -- intros Hw. apply Hx. by apply Hw2.
      * destruct Hx as (Hf & Ho1 & Hst). eexists st1, re1, r2, _, []. split; [done|]. split; [done|].
        split; [rewrite <- Ho1; by apply followed_start|by intros _].
    + cbn [receive_partial]. unfold read_replication_command in E. rewrite E, Hhead, bool_decide_eq_false_2 by done.
      unfold receive_effect. rewrite E2. cbn [mbind option_bind].
      eexists st, re, r2, _, []. split; [done|]. split; [done|]. split; [by apply followed_none|]. intros Hf; by destruct Hne.
Qed.

End ReplicationSpec.

(** * A full synchronization copies the master

    The entries of the dump arrive in a staging store, its entries become the
    durable baseline and then the contents of the replica's store.  Everything
    before the installation leaves the replica's store alone. *)

From S2P Require Import EngineEvict.

Section FullSyncSpec.
Context {CRC : Crc32} {GZ : Gzip} {JN : JsonNumber} {SJ : SerdeJson} {HO : HashOrder}.

(** ** The entries of a store *)

Lemma raw_entries_spec T clk st :
  clock_before clk T -> engine_ok (engine st) ->
  exists st' out, raw_entries clk st = Some (st', out) /\ engine_ok (engine st') /\ NoDup out.*1 /\
    (forall k, fold_left (effect_on T k) (snapshot_effects out) None = cell_at T st k) /\
    (forall ke, ke ∈ out -> dataset (engine st) !! ke.1 = Some ke.2) /\ len out <= Z.of_nat (size (dataset (engine st))).
Proof.
  intros Hclk Hok. destruct (snapshot_all_acts clk (engine st) Hok) as [(_ & Hd & Hok') Hp].
  unfold raw_entries, on_engine. destruct (engine_snapshot_all clk (engine st)) as [e1 out]. cbn [fst snd] in *.
  destruct (listed_effects T _ _ Hp) as [Hnd Hc]. exists (with_engine st e1), out. split; [done|]. split; [done|].
  split; [done|]. split; [|split].
  - intros k. rewrite Hc, lookup_m_sweep. unfold cell_at. apply logical_live, Hclk.
  - intros [k e] Hin. rewrite Hp in Hin. apply elem_of_map_to_list in Hin. rewrite lookup_m_sweep in Hin. cbn [fst snd].
    unfold c_live in Hin. destruct (dataset (engine st) !! k) as [e0|]; [|done]. by destruct (expired_by _ e0).
  - unfold len. rewrite Hp, length_map_to_list. pose proof (map_subseteq_size _ _ (m_sweep_sub clk (dataset (engine st)))). lia.
Qed.

(** Entries that the snapshot format can hold. *)
Definition entries_fit (st : ShardedStore) : Prop := forall k e, dataset (engine st) !! k = Some e -> entry_ok (k, e).

Lemma entries_fit_new : entries_fit store_new.
Proof. intros k e. change (engine store_new) with engine_new. by rewrite dataset_engine_new, lookup_empty. Qed.

Lemma apply_entry_fits clk key entry st st' o :
  engine_ok (engine st) -> entry_ok (key, entry) -> entries_fit st ->
  store_apply_entry clk key entry st = Some (st', o) -> entries_fit st'.
Proof.
  intros Hok He Hf. unfold store_apply_entry, on_engine.
  pose proof (apply_entry_acts clk key entry (engine st) Hok) as (_ & Hd & _).
  destruct (engine_apply_entry _ _ _ _) as [e' r]. cbn [fst] in Hd. intros [= <- <-] k e. simpl. rewrite Hd.
  destruct (decide (k = key)) as [->|Hne]; [rewrite lookup_set_cell_eq|rewrite lookup_set_cell_ne by done; apply Hf].
  unfold c_apply. destruct (expired_by _ _); [done|]. by intros [= <-].
Qed.

(** ** Receiving the dump *)

(** What arrived of a stream up to [rest]. *)
Definition reached (r : Reader) (whole rest : bytes) (r1 : Reader) : Prop :=
  stream r1 `prefix_of` rest /\ ends r1 = ends r /\ (length (stream r1) <= length (stream r))%nat /\
  (stream r = whole -> stream r1 = rest).

Lemma entries_spec T clk rest entries :
  (forall i, clock_before (clk i) T) -> NoDup entries.*1 -> Forall entry_ok entries ->
  forall records seen staging r, 
  let whole := concat records ++ rest in
  entry_records entries = Ok records -> (forall k, k ∈ entries.*1 -> k ∉ seen) ->
  engine_ok (engine staging) -> entries_fit staging ->
  stream r `prefix_of` whole -> len whole <= I64_MAX ->
  exists r' x, receive_entries clk (length entries) seen staging r = Some (r', x) /\
    match x with
    | Ok staging' => reached r whole rest r' /\ engine_ok (engine staging') /\ entries_fit staging' /\
        forall k, cell_at T staging' k = fold_left (effect_on T k) (snapshot_effects entries) (cell_at T staging k)
    | Err _ => stream r <> whole
    end.
Proof.
  intros Hclk. induction entries as [|[key e] entries IH]; intros Hnd Hok records seen staging r whole Her Hseen Hen Hfit Hp Hlen.
  - injection Her as <-. eexists r, _. split; [done|]. by cbn.
  - rewrite fmap_cons in Hnd. apply list.NoDup_cons in Hnd as [Hk Hnd]. apply list.Forall_cons in Hok as [[Hv Hx] Hok].
    cbn [fst snd] in *. cbn [entry_records] in Her. destruct (encode_full_sync_entry key e) as [record|] eqn:Ee; [|done].
    cbn [mbind result_bind] in Her. destruct (entry_records entries) as [more|] eqn:Em; [|done].
    assert (records = write_chunked_replication_record record ++ more) as -> by (by injection Her).
    assert (Hwhole : whole = concat (write_chunked_replication_record record) ++ concat more ++ rest).
    { unfold whole. by rewrite concat_app, <- (assoc_L (++)). }
    rewrite Hwhole in *. clear Hwhole whole. cbn [length receive_entries]. set (now := clk (length entries) 0%nat).
    destruct (entry_arrives now key e record (concat more ++ rest) r Hv Hx Ee Hp Hlen)
      as [(r2 & E2 & Hp2 & He2 & Hl2 & Hw2)|(Hne & r2 & error & E2)]; rewrite E2; cbn [mbind option_bind].
    2: { eexists _, _. split; [done|]. done. }
    rewrite bool_decide_eq_false_2 by (apply Hseen; by left).
    set (entry := mkEntry JN (value e) (expires_at e) now now).
    destruct (apply_entry_run T (tick 1 (clk (length entries))) key entry staging) as (st1 & o & E1 & Hok1 & _ & Hc1 & _);
      [by apply clock_before_tick|done|]. fold (store_apply_entry (tick 1 (clk (length entries))) key entry) in E1.
    rewrite E1. cbn [mbind option_bind].
    assert (Hfit1 : entries_fit st1) by (eapply apply_entry_fits; [exact Hen| |exact Hfit|exact E1]; done).
    destruct (IH Hnd Hok more (seen ∪ {[key]}) st1 r2 eq_refl) as (r' & x & E & H); try done.
    { intros k Hin. rewrite elem_of_union, elem_of_singleton. intros [Hs| ->]; [|done]. eapply (Hseen k); [|done]. by right. }
    { rewrite len_app in Hlen. pose proof (len_nonneg (concat (write_chunked_replication_record record))). lia. }
    exists r', x. split; [done|]. destruct x as [staging'|failure].
    + destruct H as ((G1 & G2 & G3 & G4) & H2 & H3 & H4). split; [|split_and!; try done].
      * unfold reached. split_and!; [done|congruence|lia|auto].
      * intros k. rewrite H4, Hc1. done.
    + intros Hw. by apply H, Hw2.
Qed.

(** ** Installing it *)

Lemma steady_same T r F F' :
  (forall k, fold_left (effect_on T k) F None = fold_left (effect_on T k) F' None) -> steady T r F -> steady T r F'.
Proof.
  intros H [(w & entries & s & cs & e & bs & rs & Hst) Hsafe]. split; [|done]. exists w, entries, s, cs, e, bs, rs.
  destruct Hst as (H1 & H2 & H3 & H4 & H5 & H6). split_and!; try done; try apply H3. intros k. by rewrite H6.
Qed.

Lemma full_install_spec T F clk flush_answer truncate_answer replid s entries p st :
  engine_ok (engine st) -> snapshot_active (engine st) = false -> stored T (commit_runtime p) F ->
  0 <= s <= U64_MAX -> NoDup entries.*1 -> Forall entry_ok entries ->
  exists st' p' res, install_full_sync clk flush_answer truncate_answer replid s entries p st = Some (st', (p', res)) /\
    match res with
    | Ok _ => engine_ok (engine st') /\ (forall k, cell_at T st' k = logical_cell T ((list_to_map entries : gmap bytes DataEntry) !! k)) /\
        steady T (commit_runtime p') (snapshot_effects entries) /\ sequence p' = s /\
        replication_ready p' = true /\ upstream_replid p' = replid /\ backlog p' = [] /\
        state_file (rt_binlog (commit_runtime p')) = Some (render_state (Ready (mkIdentity replid s)))
    | Err _ => st' = st /\ sequence p' = sequence p /\
        (p' = p \/ replication_ready p' = false /\ interrupted T F replid s entries (commit_runtime p'))
    end.
Proof.
  intros Hok Ha Hst Hs Hnd Hents. unfold install_full_sync.
  destruct (replid =? 0); [eexists _, _, _; split; [done|]; split_and!; try done; by left|].
  destruct (refuses_upstream p); [eexists _, _, _; split; [done|]; split_and!; try done; by left|].
  destruct (negb (accepting_writes p)); [eexists _, _, _; split; [done|]; split_and!; try done; by left|].
  destruct (install_baseline_files flush_answer truncate_answer replid s entries (not_ready p)) as [p1 res] eqn:E.
  apply (install_files_spec T F) in E as [[m' Hc] Hres]; [|done..].
  destruct Hc as (Hb & Hseq & Hready & _). destruct res as [[]|error].
  - destruct Hres as [Hbase Hfile]. destruct (replace_all_acts clk (engine st) entries Hok Ha Hnd) as (e' & Hr & Hoke & Hde & _).
    rewrite Hr. cbn [mbind option_bind]. eexists _, _, _. split; [done|].
    assert (Hsteady : steady T (install_baseline s (len entries) (commit_runtime p1)) (snapshot_effects entries)).
    { assert (Hb0 : stored T (install_baseline s (len entries) (commit_runtime p1)) (snapshot_effects entries))
        by (by apply (baseline_stored T s entries)).
      split; [done|]. right. destruct Hbase as (Hd & _). destruct Hd as [Hh _ _ _ _]. intros name Hn.
      destruct (ho_others _ _ _ _ _ _ _ Hh name Hn) as [?|(c & Hc' & _)]; [done|]. by apply not_elem_of_nil in Hc'. }
    split_and!; try done. intros k. unfold cell_at. simpl. by rewrite Hde.
  - eexists _, _, _. split; [done|]. split; [done|]. split; [done|]. right. split; [by apply Hready|done].
Qed.

(** ** The whole synchronization *)

Lemma listed_fold T (entries : list (bytes * DataEntry)) k :
  NoDup entries.*1 ->
  logical_cell T ((list_to_map entries : gmap bytes DataEntry) !! k) =
  fold_left (effect_on T k) (snapshot_effects entries) None.
Proof.
  intros Hnd. symmetry. apply (listed_effects T (list_to_map entries) entries). by rewrite map_to_list_to_map.
Qed.

(** What a full synchronization of [entries] at [s] comes to. *)
Definition copied (T : Z) (F : list CommittedEffect) (whole rest : bytes) (replid s : Z)
    (entries : list (bytes * DataEntry)) (st : ShardedStore) (re : Replica) (r : Reader)
    (out : option (ShardedStore * (Replica * Reader * result sync_failure (Z * Z)))) : Prop :=
  exists st' re' r' x, out = Some (st', (re', r', x)) /\
    match x with
    | Ok (id, q) =>
      id = replid /\ q = s /\ re_replid re' = replid /\ re_offset re' = s /\
      healthy T (snapshot_effects entries) st' re' /\ reached r whole rest r'
    | Err failure =>
      (stream r = whole -> failure.2 = false) /\ st' = st /\ re_replid re' = re_replid re /\ re_offset re' = re_offset re /\
      (re_server re' = re_server re \/
       replication_ready (re_server re') = false /\
       exists staged, interrupted T F replid s staged (commit_runtime (re_server re')))
    end.

Lemma done_received replid s rest r :
  let whole := sync_done_marker replid s ++ rest in
  0 < replid <= U64_MAX -> 0 <= s <= U64_MAX -> stream r `prefix_of` whole -> len whole <= I64_MAX ->
  exists r1 x, receive_done replid r = (r1, x) /\
    match x with Ok q => q = s /\ got r whole rest r1 | Err _ => stream r <> whole end.
Proof.
  intros whole Hid Hs Hp Hlen. unfold receive_done. change read_replication_command_with_idle with read_replication_command.
  destruct (done_arrives replid s rest r Hid Hs Hp Hlen) as [(r1 & frame & -> & _ & -> & Hg)|(Hne & r1 & x & -> & Hx)];
    [by eexists _, _|]. destruct x as [[f|]|stop]; [by destruct (Hx f)|..]; eexists _, _; (split; [done|]); exact Hne.
Qed.

Lemma full_spec T F clk flush_answer truncate_answer replid s entries records rest re r st :
  let whole := concat records ++ sync_done_marker replid s ++ rest in
  (forall i, clock_before (clk i) T) -> engine_ok (engine st) -> snapshot_active (engine st) = false ->
  stored T (commit_runtime (re_server re)) F -> 0 < replid <= U64_MAX -> 0 <= s <= U64_MAX ->
  NoDup entries.*1 -> Forall entry_ok entries -> entry_records entries = Ok records ->
  stream r `prefix_of` whole -> len whole <= I64_MAX ->
  copied T F whole rest replid s entries st re r
    (receive_full clk flush_answer truncate_answer replid s (len entries) re r st).
Proof.
  intros whole Hclk Hok Ha Hst Hid Hs Hnd Hents Her Hp Hlen. unfold receive_full.
  replace (Z.to_nat (len entries)) with (length entries) by (unfold len; lia).
  destruct (entries_spec T (fun i => clk (3 + i)%nat) (sync_done_marker replid s ++ rest) entries (fun i => Hclk _) Hnd Hents
    records ∅ store_new r Her) as (r1 & x & -> & Hx); try done.
  { apply store_new_ok. }
  cbn [mbind option_bind]. destruct x as [staging|failure].
  2: { exists st, re, r1, (Err failure). split; [done|]. split; [by intros ?|]. split_and!; try done. by left. }
  destruct Hx as ((Hp1 & He1 & Hl1 & Hw1) & Hoks & Hfits & Hcells).
  destruct (done_received replid s rest r1 Hid Hs Hp1) as (r2 & y & -> & Hy).
  { unfold whole in Hlen. rewrite len_app in Hlen. pose proof (len_nonneg (concat records)). lia. }
  destruct y as [finished|failure].
  2: { exists st, re, r2, (Err failure). split; [done|]. split; [|split_and!; try done; by left].
       intros Hf. destruct Hy. by apply Hw1. }
  destruct Hy as (-> & Hp2 & He2 & Hl2 & Hw2). rewrite Z.eqb_refl. cbn [negb].
  destruct (raw_entries_spec T (clk 0%nat) staging (Hclk _) Hoks) as (st1 & staged & -> & _ & Hnds & Hfold & Hin & _).
  cbn [mbind option_bind].
  assert (Hstaged : Forall entry_ok staged).
  { apply list.Forall_forall. intros [k e] H. apply Hfits. exact (Hin _ H). }
  destruct (full_install_spec T F (clk 1%nat) flush_answer truncate_answer replid s staged (re_server re) st
    Hok Ha Hst Hs Hnds Hstaged) as (st' & p' & res & -> & Hres). cbn [mbind option_bind].
  destruct res as [[]|error].
  - destruct Hres as (Hok' & Hcell & Hsteady & Hseq & _). exists st', (mkReplica p' replid s), r2, (Ok (replid, s)).
    split; [done|]. assert (Hsame : forall k, fold_left (effect_on T k) (snapshot_effects staged) None =
      fold_left (effect_on T k) (snapshot_effects entries) None).
    { intros k. by rewrite Hfold, Hcells, cell_at_new. }
    split_and!; try done; [|unfold reached; split_and!; [done|congruence|lia|auto]].
    split_and!; try done; [|by eapply steady_same; [exact Hsame|]].
    intros k. by rewrite Hcell, listed_fold.
  - destruct Hres as (-> & _ & Hi). exists st, (mkReplica p' (re_replid re) (re_offset re)), r2, (Err (error, false)).
    split; [done|]. split_and!; try done. destruct Hi as [->|[Hr Hi]]; [by left|right]. split; [done|]. by exists staged.
Qed.

End FullSyncSpec.
