(* ===== verification/ConnectionSpec.v ===== *)
(** * ConnectionSpec: a connection keeps a replica on its master's history

    The master's history is a base state and the batches it committed since.
    Whatever the network cuts off and whatever fails on the replica, after a
    connection the replica's store is the master's state at the sequence the
    replica resumes with, or the store is as before and the replica knows that
    it has nothing to resume. *)

From Stdlib Require Import ZArith Lia.
From Stdlib Require Import Strings.Byte.
From stdpp Require Import base gmap list strings numbers sorting.
From S2P Require Import Prelude Text Json JsonPath Value Shard ShardSpec Engine EngineSpec EngineMulti EngineActs EngineEvict EngineSnapshots EngineTrace StoreSnapshot Store Persistence Model Codec CodecSpec BinlogFile BinlogIo AppendSpec Recovery ManagedBinlog SnapshotWriter ReplicaState Runtime Compaction HistorySpec ManagedSpec SealSpec EntryEq StoreSpec ModelSpec SnapshotSpec RecoverySpec InstallSpec CommitSpec MaintenanceSpec Durability Resp RespReader ReplicationWire ReplicationStream Admission Server ServerSpec ReplicaSpec Replication ReplicationSpec.

Open Scope Z_scope.

Section ConnectionSpec.
Context {CRC : Crc32} {GZ : Gzip} {JN : JsonNumber} {SJ : SerdeJson} {HO : HashOrder}.

(** ** Histories *)

(** A base state at a sequence, and the batches that follow. *)
Record history : Type := mkHistory {
  h_base : list CommittedEffect;
  h_start : Z;
  h_batches : list CommittedBatch
}.

Definition since (h : history) (q : Z) : list CommittedBatch := drop (Z.to_nat (q - h_start h)) (h_batches h).

Definition state_at (h : history) (q : Z) : list CommittedEffect :=
  h_base h ++ batch_effects (take (Z.to_nat (q - h_start h)) (h_batches h)).

(** The batch has its place in the history and fits a record. *)
Definition of_history (h : history) (b : Z * CommittedBatch) : Prop :=
  h_start h < b.1 /\ h_batches h !! Z.to_nat (b.1 - h_start h - 1) = Some b.2 /\ batch_fits b.

Lemma of_history_fits h l : Forall (of_history h) l -> Forall batch_fits l.
Proof. intros H. eapply list.Forall_impl; [exact H|]. by intros b (_ & _ & ?). Qed.

Lemma history_next h q b :
  h_start h <= q -> of_history h (q + 1, b) ->
  since h q = b :: since h (q + 1) /\ state_at h (q + 1) = state_at h q ++ batch_effects [b].
Proof.
  intros Hq (_ & Hb & _). cbn [fst snd] in Hb. replace (q + 1 - h_start h - 1) with (q - h_start h) in Hb by lia.
  unfold since, state_at. replace (Z.to_nat (q + 1 - h_start h)) with (S (Z.to_nat (q - h_start h))) by lia. split.
  - by apply drop_S.
  - rewrite (take_S_r _ _ _ Hb), batch_effects_app. by rewrite (assoc_L (++)).
Qed.

Lemma history_run h q l :
  h_start h <= q -> consecutive (q + 1) l -> Forall (of_history h) l ->
  since h q = l.*2 ++ since h (q + len l) /\ state_at h (q + len l) = state_at h q ++ batch_effects l.*2.
Proof.
  revert q. induction l as [|[s b] l IH]; intros q Hq Hc Hl.
  - change (len (@nil (Z * CommittedBatch))) with 0. rewrite Z.add_0_r.
    change (batch_effects ([] : list (Z * CommittedBatch)).*2) with (@nil CommittedEffect). by rewrite app_nil_r.
  - apply consecutive_cons in Hc as [Hs Hc]. cbn [fst] in Hs. subst s. apply list.Forall_cons in Hl as [Hb Hl].
    destruct (history_next h q b Hq Hb) as [H1 H2]. destruct (IH (q + 1) ltac:(lia) Hc Hl) as [H3 H4].
    rewrite len_cons, batch_effects_cons. replace (q + (1 + len l)) with (q + 1 + len l) by lia.
    replace (q + (len l + 1)) with (q + 1 + len l) by lia.
    split; [by rewrite H1, H3|]. rewrite H4, H2. by rewrite (assoc_L (++)).
Qed.

(** ** States up to the equality of JSON numbers *)

Lemma same_after T k l a b : same_entry a b -> same_entry (fold_left (effect_on T k) l a) (fold_left (effect_on T k) l b).
Proof.
  revert a b. induction l as [|e l IH]; intros a b H; [done|]. cbn [fold_left]. apply IH.
  destruct e as [k0 p|k0]; cbn [effect_on]; case_bool_decide; try done; by left.
Qed.

Lemma matches_after T st st' F G l :
  matches T st F -> shows T st G -> shows T st' (G ++ l) -> matches T st' (F ++ l).
Proof.
  intros Hm Hs Hs' k. rewrite Hs', !fold_left_app, <- Hs. by apply same_after.
Qed.

(** The replica is at a point of the history, in memory and on disk. *)
Definition at_history (T : Z) (h : history) (st : ShardedStore) (re : Replica) : Prop :=
  h_start h <= re_offset re /\ matches T st (state_at h (re_offset re)) /\
  exists G, standing T G (since h (re_offset re)) st re.

Lemma standing_more T G next more st re : standing T G next st re -> standing T G (next ++ more) st re.
Proof.
  intros (H1 & H2 & H3 & H4). split_and!; try done. destruct H4 as [?|(H5 & H6 & part & Hp & Hr)]; [by left|right].
  split_and!; try done. exists part. split; [|done]. etrans; [exact Hp|]. by exists more.
Qed.

Lemma followed_history T h G sent installed st re st' re' :
  healthy T G st re -> h_start h <= re_offset re -> matches T st (state_at h (re_offset re)) ->
  consecutive (re_offset re + 1) sent -> Forall (of_history h) sent ->
  followed T G (re_offset re) sent installed st' re' ->
  at_history T h st' re' /\ re_offset re' = re_offset re + len installed.
Proof.
  intros (_ & Hshow & _) Hq Hm Hc Hl (left & -> & Ho & Hst). split; [|done].
  apply consecutive_app in Hc as [Hc1 Hc2]. apply list.Forall_app in Hl as [Hl1 Hl2].
  destruct (history_run h (re_offset re) installed Hq Hc1 Hl1) as [_ Hstate].
  assert (Hq' : h_start h <= re_offset re') by (rewrite Ho; unfold len; lia).
  replace (re_offset re + 1 + len installed) with (re_offset re' + 1) in Hc2 by lia.
  destruct (history_run h (re_offset re') left Hq' Hc2 Hl2) as [Hsince _].
  split; [done|]. rewrite <- Ho in Hstate. rewrite Hstate. pose proof Hst as (_ & Hshow' & _).
  split; [by eapply matches_after|]. eexists. rewrite Hsince. by apply standing_more.
Qed.

(** ** What the live stream carries *)

Lemma unseen_spec last c l : consecutive c l -> c <= last + 1 -> consecutive (last + 1) (unseen last l).
Proof.
  revert c. induction l as [|[s b] l IH]; intros c Hc Hle; [apply consecutive_nil|].
  pose proof Hc as Hc'. apply consecutive_cons in Hc as [Hs Hc]. cbn [fst] in Hs. subst s.
  destruct (decide (c = last + 1)) as [->|Hne].
  - unfold unseen. rewrite filter_cons_True by (cbn; lia). fold (unseen last l).
    by rewrite (unseen_all last _ _ Hc) by lia.
  - unfold unseen. rewrite filter_cons_False by (cbn; lia). apply (IH (c + 1)); [done|lia].
Qed.

Lemma serve_stream_last heartbeat events last c writes last' :
  consecutive c (published events) -> c <= last + 1 -> serve_stream heartbeat last events = Ok (writes, last') ->
  last' = last + len (unseen last (published events)).
Proof.
  revert last c writes. induction events as [|[|[s b]] events IH]; intros last c writes Hc Hle; cbn [serve_stream].
  - intros [= _ <-]. change (len (unseen last (published []))) with 0. lia.
  - cbn [mbind result_bind]. destruct (serve_stream heartbeat last events) as [[more last1]|] eqn:E; [|done].
    intros [= _ <-]. by eapply IH.
  - change (published (Published (s, b) :: events)) with ((s, b) :: published events) in *.
    pose proof Hc as Hc'. apply consecutive_cons in Hc as [Hs Hc]. cbn [fst] in Hs. subst s. unfold serve_live.
    destruct (Z.leb_spec c last) as [Hle'|Hgt]; cbn [mbind result_bind].
    + destruct (serve_stream heartbeat last events) as [[more last1]|] eqn:E; [|done]. intros [= _ <-].
      unfold unseen. rewrite filter_cons_False by (cbn; lia). eapply (IH last (c + 1)); [done|lia|done].
    + assert (c = last + 1) as -> by lia. destruct (encode_replication_effect (last + 1) b); [|done].
      cbn [mbind result_bind]. destruct (serve_stream heartbeat (last + 1) events) as [[more last1]|] eqn:E; [|done].
      intros [= _ <-]. rewrite unseen_next by done. rewrite len_cons. eapply IH in E; [|done|lia]. lia.
Qed.

Lemma unseen_history h last l : Forall (of_history h) l -> Forall (of_history h) (unseen last l).
Proof.
  intros H. apply list.Forall_forall. intros b Hb. unfold unseen in Hb. apply list_elem_of_filter in Hb as [_ Hb].
  rewrite list.Forall_forall in H. by apply H.
Qed.

(** ** The master *)

(** A master with the history [h]. *)
Record serving (T : Z) (h : history) (replid : Z) (p : Persistence) (st : ShardedStore) : Prop := {
  sv_replid : 0 < replid <= U64_MAX;
  sv_engine : engine_ok (engine st);
  sv_entries : entries_fit st;
  sv_keys : Z.of_nat (size (dataset (engine st))) <= MAX_KEYS;
  sv_state : matches T st (state_at h (sequence p));
  sv_sequence : h_start h <= sequence p <= U64_MAX /\ 0 <= h_start h;
  sv_backlog : backlog_ok p;
  sv_history : Forall (of_history h) (backlog p)
}.

(** The replica holds some [G]; if it resumes with the master's identity, it is
    at a point of the history. *)
Record resuming (T : Z) (h : history) (replid : Z) (G : list CommittedEffect) (st : ShardedStore) (re : Replica) : Prop := {
  rs_healthy : healthy T G st re;
  rs_idle : snapshot_active (engine st) = false;
  rs_offset : 0 <= re_offset re <= U64_MAX;
  rs_state : re_replid re = replid ->
    h_start h <= re_offset re /\ matches T st (state_at h (re_offset re))
}.

(** The store is as before, and the replica resumes as before or does not count
    as synchronized. *)
Definition unchanged (st : ShardedStore) (re : Replica) (st' : ShardedStore) (re' : Replica) : Prop :=
  st' = st /\ (re' = re \/ replication_ready (re_server re') = false).

(** What a connection comes to, when the master's last batch was [last]. *)
Definition connected (T : Z) (h : history) (replid last : Z) (whole : bytes) (st : ShardedStore) (re : Replica)
    (r : Reader) (out : option (ShardedStore * (Replica * attempt))) : Prop :=
  exists st' re' a, out = Some (st', (re', a)) /\
    (re_replid re' = replid /\ re_offset re' <= last /\ at_history T h st' re' \/ unchanged st re st' re') /\
    (at_unreachable a = true -> stream r = whole -> re_replid re' = replid /\ re_offset re' = last).

(** ** The live phase *)

Lemma live_phase T h replid clk policy d last c events writes last' G whole authenticated re r r1 st0 re0 st :
  (forall i, clock_before (clk i) T) -> Forall (of_history h) (published events) -> consecutive c (published events) ->
  c <= last + 1 -> serve_stream true last events = Ok (writes, last') -> 0 <= last <= U64_MAX ->
  healthy T G st re -> re_offset re = last -> re_replid re = replid -> h_start h <= last ->
  matches T st (state_at h last) -> stream r1 `prefix_of` concat writes -> len (concat writes) <= I64_MAX ->
  (stream r = whole -> stream r1 = concat writes) ->
  connected T h replid last' whole st0 re0 r
    (('(re, _, unreachable) ← receive_live (frame_fuel r1) clk policy d re r1;
      (mret (re, mkTried authenticated true unreachable) : prog _)) st).
Proof.
  intros Hclk Hev Hc Hle Hserve Hlast Hh Hoff Hid Hq Hm Hp Hlen Hw. subst last.
  destruct (live_spec T clk policy d true events Hclk (of_history_fits _ _ Hev) _ c G writes last' (frame_fuel r1) re r1 st
    Hserve Hlast Hc Hle Hh eq_refl Hp Hlen) as (st' & re' & r' & u & inst & E & Hid' & Hf & Hall); [unfold frame_fuel; lia|].
  rewrite (bind_run _ _ _ _ _ E). eexists st', re', _. split; [done|].
  destruct (followed_history T h G _ inst st re st' re' Hh Hq Hm (unseen_spec _ c _ Hc Hle) (unseen_history h _ _ Hev) Hf)
    as [Hat Ho']. pose proof (serve_stream_last _ _ _ _ _ _ Hc Hle Hserve) as Hl'.
  destruct Hf as (left & Hsent & _). split.
  - left. split; [congruence|]. split; [|done]. rewrite Ho', Hl', Hsent, len_app. unfold len. lia.
  - cbn [at_unreachable]. intros Hu Hf. split; [congruence|]. rewrite Ho', Hl'. by rewrite (Hall Hu (Hw Hf)).
Qed.

(** ** The handshake *)

(** A handshake is understood or the connection was cut before its end. *)
Definition handshake_read (h : ReplicaSyncHandshake) (whole rest : bytes) (r : Reader) : Prop :=
  exists r1 x, receive_handshake r = (r1, x) /\
    match x with Ok h' => h' = h /\ got r whole rest r1 | Err _ => stream r <> whole end.

Lemma handshake_arrives (name : bytes) c w0 numbers h rest r :
  let whole := join_words (name :: map print_Z numbers) ++ crlf ++ rest in
  name = c :: w0 -> c <> x2a -> word_ok name -> len name <= 16 -> len numbers <= 3 ->
  Forall (fun n => 0 <= n <= U64_MAX) numbers -> stream r `prefix_of` whole -> len whole <= I64_MAX ->
  is_authentication_rejection (name :: map print_Z numbers) = false ->
  parse_replica_sync_handshake (name :: map print_Z numbers) = Ok h -> handshake_read h whole rest r.
Proof.
  intros whole Hn Hc Hw Hl Hnum Hf Hp Hlen Hauth Hparse. unfold handshake_read, receive_handshake.
  change read_replication_command_with_idle with read_replication_command.
  destruct (marker_arrives name c w0 numbers rest r Hn Hc Hw Hl Hnum Hf Hp Hlen) as [(r1 & -> & Hg)|(Hne & r1 & x & -> & Hx)].
  - eexists r1, _. split; [done|]. by rewrite Hauth, Hparse.
  - destruct x as [[f|]|stop]; [by destruct (Hx f)|..]; eexists _, _; (split; [done|]); exact Hne.
Qed.

Lemma parse_replid_print n : 0 < n <= U64_MAX -> parse_replid (print_Z n) = Ok n.
Proof.
  intros Hn. unfold parse_replid. rewrite parse_u64_print by lia. rstep. by rewrite (proj2 (Z.eqb_neq n 0)) by lia.
Qed.

Lemma continue_arrives replid offset rest r :
  let whole := continue_marker replid offset ++ rest in
  0 < replid <= U64_MAX -> 0 <= offset <= U64_MAX -> stream r `prefix_of` whole -> len whole <= I64_MAX ->
  handshake_read (PartialSync replid offset) whole rest r.
Proof.
  intros whole Hid Ho. unfold whole.
  replace (continue_marker replid offset ++ rest)
    with (join_words (bs "+CONTINUE3" :: map print_Z [replid; offset]) ++ crlf ++ rest).
  2: { unfold continue_marker. cbn [join_words map]. repeat (rewrite <- app_assoc || rewrite <- app_comm_cons). reflexivity. }
  intros Hp Hlen. eapply (handshake_arrives (bs "+CONTINUE3") x2b (bs "CONTINUE3") [replid; offset]); try done.
  - split; [done|]. split; [by repeat constructor|done].
  - repeat constructor; lia.
  - unfold parse_replica_sync_handshake. cbn [map]. rewrite bytes_eqb_refl. cbn [negb].
    rewrite parse_replid_print, parse_u64_print by lia. done.
Qed.

Lemma full_arrives replid s n rest r :
  let whole := full_sync_marker replid s n ++ rest in
  0 < replid <= U64_MAX -> 0 <= s <= U64_MAX -> 0 <= n <= MAX_KEYS -> stream r `prefix_of` whole -> len whole <= I64_MAX ->
  handshake_read (FullSync replid s n) whole rest r.
Proof.
  intros whole Hid Hs Hn. unfold whole. assert (Hmax : MAX_KEYS <= U64_MAX) by done.
  replace (full_sync_marker replid s n ++ rest)
    with (join_words (bs "+FULLRESYNC3" :: map print_Z [replid; s; n]) ++ crlf ++ rest).
  2: { unfold full_sync_marker. cbn [join_words map]. repeat (rewrite <- app_assoc || rewrite <- app_comm_cons). reflexivity. }
  intros Hp Hlen. eapply (handshake_arrives (bs "+FULLRESYNC3") x2b (bs "FULLRESYNC3") [replid; s; n]); try done.
  - split; [done|]. split; [by repeat constructor|done].
  - repeat constructor; lia.
  - unfold parse_replica_sync_handshake. cbn [map]. rewrite bytes_eqb_refl. cbn [negb].
    rewrite parse_replid_print by lia. rstep. rewrite !parse_u64_print by lia. rstep. by rewrite (proj2 (Z.ltb_ge _ _)) by lia.
Qed.

(** ** Resuming *)

(** The connection after a handshake that was understood. *)
Lemma serve_after clk policy ans authenticated re r r1 h st :
  receive_handshake r = (r1, Ok h) ->
  serve_connection clk policy ans authenticated re r st =
  match accept_handshake h re with
  | (re, Err failure) => (mret (re, mkTried authenticated false failure.2) : prog _) st
  | (re, Ok _) =>
    ('(re, r, synced) ← synchronize (clk 1%nat) policy ans h re r1;
     match synced with
     | Err failure => mret (re, mkTried authenticated true failure.2)
     | Ok (replid, offset) =>
       '(re, _, unreachable) ← receive_live (frame_fuel r) (clk 0%nat) policy (ans_effect ans)
         (mkReplica (re_server re) replid offset) r;
       mret (re, mkTried authenticated true unreachable)
     end) st
  end.
Proof. intros E. unfold serve_connection. rewrite E. by destruct (accept_handshake h re) as [? [[]|]]. Qed.

Lemma connected_cut T h replid last whole st re r clk policy ans authenticated r1 failure :
  receive_handshake r = (r1, Err failure) -> stream r <> whole ->
  connected T h replid last whole st re r (serve_connection clk policy ans authenticated re r st).
Proof.
  intros E Hne. unfold serve_connection. rewrite E. eexists st, re, _. split; [done|]. split; [|by intros _ ?].
  right. split; [done|by left].
Qed.

Lemma resumed T h replid clk policy ans authenticated p stM G re st missing records c events more last' r :
  let rest := concat more in
  let whole := continue_marker replid (re_offset re) ++ concat records
               ++ sync_done_marker replid (re_offset re + len missing) ++ rest in
  (forall i j, clock_before (clk i j) T) -> serving T h replid p stM -> resuming T h replid G st re ->
  re_replid re = replid -> effect_records missing = Ok records ->
  consecutive (re_offset re + 1) missing -> Forall (of_history h) missing -> re_offset re + len missing = sequence p ->
  Forall (of_history h) (published events) -> consecutive c (published events) -> c <= sequence p + 1 ->
  serve_stream true (sequence p) events = Ok (more, last') ->
  stream r `prefix_of` whole -> len whole <= I64_MAX ->
  connected T h replid last' whole st re r (serve_connection clk policy ans authenticated re r st).
Proof.
  intros rest whole Hclk Hsv [Hh Hidle Hoff Hstate] Hid Her Hcm Hhm Hend Hev Hce Hle Hserve Hp Hlen.
  destruct (Hstate Hid) as [Hq Hm]. pose proof (sv_replid _ _ _ _ _ Hsv) as Hr0.
  destruct (sv_sequence _ _ _ _ _ Hsv) as [Hseq _].
  destruct (continue_arrives replid (re_offset re) (concat records ++ sync_done_marker replid (re_offset re + len missing) ++ rest) r
    Hr0 Hoff Hp Hlen) as (r1 & x & E & Hx). destruct x as [h'|failure]; [|by eapply connected_cut].
  destruct Hx as (-> & Hp1 & He1 & Hl1 & Hw1). rewrite (serve_after _ _ _ _ _ _ _ _ _ E). cbn [accept_handshake].
  rewrite Hid, !Z.eqb_refl. cbn [negb orb synchronize]. pose proof Hlen as Hlen'. unfold whole in Hlen'. rewrite !len_app in Hlen'.
  pose proof (len_nonneg (continue_marker replid (re_offset re))). pose proof (len_nonneg (concat records)).
  pose proof (len_nonneg (sync_done_marker replid (re_offset re + len missing))).
  destruct (partial_spec T (clk 1%nat) policy (ans_effect ans) replid rest missing (Hclk 1%nat) Hr0 (of_history_fits _ _ Hhm)
    records G (frame_fuel r1) re r1 st Her Hcm Hoff ltac:(lia) Hh Hp1) as (st1 & re1 & r2 & x & inst & E1 & Hid1 & Hf1 & Hx).
  { rewrite !len_app. lia. }
  { unfold frame_fuel. lia. }
  rewrite (bind_run _ _ _ _ _ E1). pose proof (len_nonneg missing).
  destruct (followed_history T h G missing inst st re st1 re1 Hh Hq Hm Hcm Hhm Hf1) as [Hat Ho1].
  pose proof (serve_stream_last _ _ _ _ _ _ Hce Hle Hserve) as Hlast.
  pose proof (len_nonneg (unseen (sequence p) (published events))).
  destruct x as [[id fin]|failure].
  - destruct Hx as (-> & -> & -> & Hh1 & Hp2 & _ & Hl2 & Hw2).
    assert (Hre : mkReplica (re_server re1) replid (re_offset re1) = re1) by (destruct re1; cbn in *; by subst).
    rewrite Hre. destruct Hat as (Hq1 & Hm1 & _).
    eapply (live_phase T h replid (clk 0%nat) policy (ans_effect ans) (sequence p) c events more last'); try done; try lia.
    + by replace (sequence p) with (re_offset re1) by lia.
    + unfold rest in *. lia.
    + intros Hf. apply Hw2, Hw1, Hf.
  - eexists st1, re1, _. split; [done|]. destruct Hf1 as (left & Hsplit & _). split.
    + left. split; [congruence|]. split; [|done]. apply (f_equal len) in Hsplit. rewrite len_app in Hsplit.
      pose proof (len_nonneg left). lia.
    + cbn [at_unreachable]. intros Hu Hf. rewrite Hx in Hu; [done|]. by apply Hw1.
Qed.

(** ** Starting over *)

Lemma begin_reception_spec T F p p' res :
  stored T (commit_runtime p) F -> begin_full_sync_reception p = (p', res) ->
  match res with
  | Ok _ => stored T (commit_runtime p') F /\ replication_ready p' = false
  | Err _ => p' = p \/ replication_ready p' = false
  end.
Proof.
  intros Hst. unfold begin_full_sync_reception. destruct (refuses_upstream p); [intros [= <- <-]; by left|].
  destruct (negb (accepting_writes p)); [intros [= <- <-]; by left|].
  destruct (on_binlog write_replica_installing p) as [p1 r1] eqn:E. apply on_binlog_spec in E as (m' & E & Hc).
  destruct r1 as [u|error]; intros [= <- <-]; [|by right]. split; [|done]. destruct Hc as (Hb & Ho & _).
  eapply (stored_state T F Installing (commit_runtime p)); [done| |exact Ho]. cbn. rewrite Hb. exact E.
Qed.

Lemma copied_over T h replid clk policy ans authenticated p stM entries stM' clkM G re st records c events more last' r :
  let rest := concat more in
  let whole := full_sync_marker replid (sequence p) (len entries) ++ concat records
               ++ sync_done_marker replid (sequence p) ++ rest in
  (forall i j, clock_before (clk i j) T) -> clock_before clkM T -> serving T h replid p stM -> resuming T h replid G st re ->
  raw_entries clkM stM = Some (stM', entries) -> entry_records entries = Ok records ->
  Forall (of_history h) (published events) -> consecutive c (published events) -> c <= sequence p + 1 ->
  serve_stream true (sequence p) events = Ok (more, last') ->
  stream r `prefix_of` whole -> len whole <= I64_MAX ->
  connected T h replid last' whole st re r (serve_connection clk policy ans authenticated re r st).
Proof.
  intros rest whole Hclk HclkM Hsv [Hh Hidle Hoff _] Hraw Her Hev Hce Hle Hserve Hp Hlen.
  destruct Hsv as [Hr0 HokM Hfit Hsize HmM [Hseq Hstart] _ _].
  destruct (raw_entries_spec T clkM stM HclkM HokM) as (st0 & out & Hraw' & _ & Hnd & Hcells & Hin & Hcount).
  rewrite Hraw in Hraw'. injection Hraw' as <- <-. assert (Hkeys : len entries <= MAX_KEYS) by lia.
  destruct (full_arrives replid (sequence p) (len entries) (concat records ++ sync_done_marker replid (sequence p) ++ rest) r
    Hr0 ltac:(lia) (conj (len_nonneg _) Hkeys) Hp Hlen) as (r1 & x & E & Hx).
  destruct x as [h'|failure]; [|by eapply connected_cut].
  destruct Hx as (-> & Hp1 & He1 & Hl1 & Hw1). rewrite (serve_after _ _ _ _ _ _ _ _ _ E). cbn [accept_handshake].
  destruct Hh as (Hok & _ & _ & [Hst _]).
  destruct (begin_full_sync_reception (re_server re)) as [p1 res] eqn:Eb. apply (begin_reception_spec T G) in Eb; [|done].
  destruct res as [u|error].
  2: { eexists st, _, _. split; [done|]. split; [|done]. right. split; [done|]. destruct Eb as [->|Hr]; [left; by destruct re|by right]. }
  destruct Eb as [Hst1 Hr1]. cbn [synchronize].
  assert (Hents : Forall entry_ok entries) by (apply list.Forall_forall; intros [k e] H; apply Hfit; exact (Hin _ H)).
  assert (Hlen1 : len (concat records ++ sync_done_marker replid (sequence p) ++ rest) <= I64_MAX).
  { unfold whole in Hlen. rewrite len_app in Hlen. pose proof (len_nonneg (full_sync_marker replid (sequence p) (len entries))). lia. }
  destruct (full_spec T G (clk 1%nat) (ans_flush ans) (ans_truncate ans) replid (sequence p) entries records rest
    (mkReplica p1 0 0) r1 st (Hclk 1%nat) Hok Hidle Hst1 Hr0 ltac:(lia) Hnd Hents Her Hp1 Hlen1)
    as (st1 & re1 & r2 & x & E1 & Hx).
  rewrite (bind_run _ _ _ _ _ E1). destruct x as [[id q]|failure].
  - destruct Hx as (-> & -> & Hid1 & Ho1 & Hh1 & Hp2 & _ & _ & Hw2).
    assert (Hre : mkReplica (re_server re1) replid (sequence p) = re1) by (destruct re1; cbn in *; by subst).
    rewrite Hre. eapply (live_phase T h replid (clk 0%nat) policy (ans_effect ans) (sequence p) c events more last'); try done; try lia.
    + intros k. destruct Hh1 as (_ & Hshow & _). rewrite Hshow, Hcells. apply HmM.
    + rewrite !len_app in Hlen1. pose proof (len_nonneg (concat records)).
      pose proof (len_nonneg (sync_done_marker replid (sequence p))). unfold rest in *. lia.
    + intros Hf. apply Hw2, Hw1, Hf.
  - destruct Hx as (Hfail & -> & Hid1 & Ho1 & Hsrv). eexists st, re1, _. split; [done|]. split.
    + right. split; [done|]. right. by destruct Hsrv as [->|[? _]].
    + cbn [at_unreachable]. intros Hu Hf. rewrite Hfail in Hu; [done|]. by apply Hw1.
Qed.

(** ** The whole connection *)

Lemma last_offset_run start l : consecutive (start + 1) l -> last_offset start l = start + len l.
Proof.
  intros H. unfold last_offset. destruct l as [|b l _] using rev_ind; [change (len (@nil (Z * CommittedBatch))) with 0; cbn; lia|].
  rewrite last_snoc. destruct b as [s b]. apply consecutive_app in H as [_ H]. apply consecutive_cons in H as [H _].
  cbn [fst] in H. rewrite len_app. change (len [(s, b)]) with 1. lia.
Qed.

Lemma backlog_snapshot_spec h replid p re st G T stM missing :
  serving T h replid p stM -> resuming T h replid G st re ->
  backlog_snapshot replid (re_replid re) (re_offset re) p = Some missing ->
  re_replid re = replid /\ consecutive (re_offset re + 1) missing /\ re_offset re + len missing = sequence p /\
  Forall (of_history h) missing.
Proof.
  intros Hsv Hrs. unfold backlog_snapshot, replid_allows_partial.
  destruct (negb (re_replid re =? 0) && (re_replid re =? replid)) eqn:Ea; [|done]. cbn [andb].
  apply andb_true_iff in Ea as [_ Ea]. apply Z.eqb_eq in Ea. destruct (0 <? re_offset re); [|done].
  destruct (partial_resync_possible _ _ _) eqn:Ep; [|done]. intros [= <-]. split; [done|].
  pose proof (rs_offset _ _ _ _ _ _ Hrs) as Ho.
  pose proof (resync_covers p (re_offset re) (sv_backlog _ _ _ _ _ Hsv) ltac:(lia) Ep) as Hc.
  destruct (resync_batches p (re_offset re) (sv_backlog _ _ _ _ _ Hsv) Hc) as (H1 & H2 & _).
  split; [done|]. split; [lia|]. apply (unseen_history h (re_offset re)), (sv_history _ _ _ _ _ Hsv).
Qed.

Lemma connection_spec T h replid clkM p stM stM' writes last c events more last' G clk policy ans authenticated re st r :
  let whole := concat writes ++ concat more in
  (forall i j, clock_before (clk i j) T) -> clock_before clkM T -> serving T h replid p stM -> resuming T h replid G st re ->
  serve_initial clkM replid (re_replid re) (re_offset re) p stM = Some (stM', Ok (writes, last)) ->
  Forall (of_history h) (published events) -> consecutive c (published events) -> c <= last + 1 ->
  serve_stream true last events = Ok (more, last') ->
  stream r `prefix_of` whole -> len whole <= I64_MAX ->
  connected T h replid last' whole st re r (serve_connection clk policy ans authenticated re r st).
Proof.
  intros whole Hclk HclkM Hsv Hrs Hinit Hev Hce Hle Hserve Hp Hlen. unfold serve_initial in Hinit.
  destruct (backlog_snapshot replid (re_replid re) (re_offset re) p) as [missing|] eqn:Eb.
  - destruct (backlog_snapshot_spec h replid p re st G T stM missing Hsv Hrs Eb) as (Hid & Hcm & Hend & Hhm).
    rewrite last_offset_run in Hinit by done. destruct (effect_records missing) as [records|error] eqn:Er; [|done].
    injection Hinit as _ <- <-.
    assert (Hw : whole = continue_marker replid (re_offset re) ++ concat records
               ++ sync_done_marker replid (re_offset re + len missing) ++ concat more).
    { unfold whole. cbn [concat]. rewrite concat_app. cbn [concat]. by rewrite app_nil_r, <- !(assoc_L (++)). }
    rewrite Hw in *. rewrite Hend in Hserve, Hle. by eapply (resumed T h replid clk policy ans authenticated p stM G re st missing records c events more last').
  - destruct (raw_entries clkM stM) as [[st1 entries]|] eqn:Eraw; [|by unfold mbind, prog_bind in Hinit; rewrite Eraw in Hinit].
    rewrite (bind_run _ _ _ _ _ Eraw) in Hinit. destruct (entry_records entries) as [records|error] eqn:Er; [|done].
    injection Hinit as _ <- <-.
    assert (Hw : whole = full_sync_marker replid (sequence p) (len entries) ++ concat records
               ++ sync_done_marker replid (sequence p) ++ concat more).
    { unfold whole. cbn [concat]. rewrite concat_app. cbn [concat]. by rewrite app_nil_r, <- !(assoc_L (++)). }
    rewrite Hw in *. by eapply (copied_over T h replid clk policy ans authenticated p stM entries st1 clkM G re st records c events more last').
Qed.

End ConnectionSpec.
