(* ===== verification/ServerInfo.v ===== *)
(** * ServerInfo: commands as the server runs them (src/main.rs)

    The server answers INFO itself, from counters of the process, and hands every
    other command to the data commands of [Execution].  What a request reads of
    its environment (the clock, the random source of evictions, the counters)
    comes from a [world], a family of readings indexed by the position of the
    stage that takes them. *)

From Stdlib Require Import ZArith Lia.
From Stdlib Require Import Strings.Byte.
From stdpp Require Import base gmap list strings numbers.
From S2P Require Import Prelude Text Json JsonPath Value Shard Engine Store Resp Execution Admission.

Open Scope Z_scope.

(** The process-wide counters, as one reading found them. *)
Record ProcessCounters : Type := mkCounters {
  START_TIME : Z;
  IS_REPLICA : bool;
  ACTIVE_CONNECTIONS : Z;
  TOTAL_COMMANDS : Z;
  CACHE_HITS : Z;
  CACHE_MISSES : Z
}.

Record world : Type := mkWorld {
  w_clock : list nat -> clock;
  w_nanos : list nat -> nat -> Z;
  w_counters : list nat -> ProcessCounters
}.

(** The readings of the stage [n]. *)
Definition stage (w : world) (n : nat) : world :=
  mkWorld (fun p => w_clock w (n :: p)) (fun p => w_nanos w (n :: p)) (fun p => w_counters w (n :: p)).

Definition clock_of (w : world) (n : nat) : clock := w_clock w [n].
Definition clocks_of (w : world) (n : nat) : nat -> clock := fun i => w_clock w [n; i].

(** [format!("{:?}", policy)]. *)
Definition EvictionPolicy_debug (p : EvictionPolicy) : bytes :=
  match p with
  | NoEviction => bs "NoEviction"
  | AllKeysLru => bs "AllKeysLru"
  | VolatileLru => bs "VolatileLru"
  | AllKeysRandom => bs "AllKeysRandom"
  | VolatileRandom => bs "VolatileRandom"
  end.

Section Info.
Context {JN : JsonNumber} {SJ : SerdeJson} {HO : HashOrder} {FT : FloatText}.

(** The separator is the source's [\\n]: a backslash and the letter n. *)
Definition info_field (name : bytes) (v : bytes) : bytes := bs "\n" ++ name ++ bs ":" ++ v.

Definition info_response (w : world) : prog RESPValue :=
  let c := w_counters w [] in
  let uptime := sat_sub (clock_of w 0 0%nat) (START_TIME c) in
  s ← store_stats (clock_of w 1);
  used_memory ← used_memory_bytes (clock_of w 2);
  mm_limit ← get_limit;
  mm_policy ← get_policy;
  let hits := CACHE_HITS c in
  let misses := CACHE_MISSES c in
  mret (BulkString (Some (
    bs "role:" ++ (if IS_REPLICA c then bs "replica" else bs "master")
    ++ info_field (bs "uptime_seconds") (print_Z uptime)
    ++ info_field (bs "connected_keys") (print_Z (stats_total_keys s))
    ++ info_field (bs "max_keys") (print_Z MAX_KEYS)
    ++ info_field (bs "active_connections") (print_Z (ACTIVE_CONNECTIONS c))
    ++ info_field (bs "total_commands") (print_Z (TOTAL_COMMANDS c))
    ++ info_field (bs "cache_hits") (print_Z hits)
    ++ info_field (bs "cache_misses") (print_Z misses)
    ++ info_field (bs "hit_rate_percent")
         (if 0 <? hits + misses then f64_percent hits (hits + misses) else bs "0.0")
    ++ info_field (bs "used_memory_bytes") (print_Z used_memory)
    ++ info_field (bs "maxmemory_bytes") (print_Z mm_limit)
    ++ info_field (bs "maxmemory_policy") (EvictionPolicy_debug mm_policy)))).

(** [execute_command] of the server. *)
Definition server_execute_command (w : world) (args : list bytes) : prog CommandOutcome :=
  match args with
  | command :: _ =>
    if bytes_eqb command (bs "INFO")
    then r ← info_response (stage w 0); mret (mkOutcome r NotRequested)
    else execute_command (clock_of w 1) args
  | [] => execute_command (clock_of w 1) args
  end.

End Info.
