(* ===== verification/Obp.v ===== *)
(** * Obp: the binary protocol (src/protocol.rs)

    A frame is a fixed header of eleven bytes, the arguments and a payload, each
    with its length before it.  The encoder refuses a frame that exceeds the
    limits before it writes; the decoder works on the bytes a connection has
    buffered, checks the whole frame before it copies anything, and consumes the
    frame or nothing. *)

From Stdlib Require Import ZArith Lia.
From Stdlib Require Import Strings.Byte.
From stdpp Require Import base list strings numbers.
From S2P Require Import Prelude Text Json JsonPath Value Shard Engine Store Persistence Model Codec.

Open Scope Z_scope.

Definition OBP_MAGIC : byte := x4f.
Definition OBP_VERSION : byte := x01.
Definition MAX_OBP_ARGUMENTS : Z := 1024.
Definition MAX_OBP_ARGUMENT_SIZE : Z := 512 * 1024.
Definition MAX_OBP_PAYLOAD_SIZE : Z := 512 * 1024.
Definition MAX_OBP_FRAME_SIZE : Z := 1024 * 1024.
Definition OBP_FIXED_HEADER_SIZE : Z := 11.
Definition OBP_PAYLOAD_LENGTH_SIZE : Z := 4.

Inductive OBPProtocolError : Type :=
| InvalidMagic
| UnsupportedVersion (version : byte)
| TooManyArguments (count : Z)
| ArgumentTooLarge (length : Z)
| PayloadTooLarge (length : Z)
| FrameTooLarge
| LengthOverflow.

Definition OBPProtocolError_display (e : OBPProtocolError) : bytes :=
  match e with
  | InvalidMagic => bs "Invalid OBP magic byte"
  | UnsupportedVersion version => bs "Unsupported OBP version: " ++ print_Z (byte_Z version)
  | TooManyArguments count => bs "OBP argument count exceeds the protocol limit: " ++ print_Z count
  | ArgumentTooLarge length => bs "OBP argument exceeds the protocol limit: " ++ print_Z length
  | PayloadTooLarge length => bs "OBP payload exceeds the protocol limit: " ++ print_Z length
  | FrameTooLarge => bs "OBP frame exceeds the protocol limit"
  | LengthOverflow => bs "OBP frame length overflow"
  end.

Record OBPFrame : Type := mkFrame {
  cmd : byte;
  flags : Z;
  correlation_id : Z;
  args : list bytes;
  payload : option bytes
}.

(** [BufMut::put_u16]. *)
Definition put_u16 (buf : bytes) (v : Z) : bytes := buf ++ [Z_byte (Z.shiftr v 8); Z_byte v].

(** [length as u16] and [length as u32]. *)
Definition as_u16 (n : Z) : Z := n mod 2 ^ 16.
Definition as_u32 (n : Z) : Z := n mod 2 ^ 32.

(** ** Encoding *)

(** The size of the frame up to its arguments' end, with their checks. *)
Fixpoint measure_arguments (frame_size : Z) (l : list bytes) : result OBPProtocolError Z :=
  match l with
  | [] => Ok frame_size
  | argument :: rest =>
    if MAX_OBP_ARGUMENT_SIZE <? len argument then Err (ArgumentTooLarge (len argument))
    else
      frame_size ← ok_or (size ← checked_add frame_size 4; checked_add size (len argument)) LengthOverflow;
      measure_arguments frame_size rest
  end.

Definition put_argument (buf argument : bytes) : bytes :=
  write_u32_be buf (as_u32 (len argument)) ++ argument.

Definition payload_length (o : option bytes) : Z :=
  match o with Some p => len p | None => 0 end.

(** The buffer the frame is appended to is as it was when the result is an
    error. *)
Definition encode (f : OBPFrame) (buf : bytes) : bytes * result OBPProtocolError unit :=
  let checked :=
    if MAX_OBP_ARGUMENTS <? len (args f) then Err (TooManyArguments (len (args f)))
    else
      frame_size ← ok_or (checked_add OBP_FIXED_HEADER_SIZE OBP_PAYLOAD_LENGTH_SIZE) LengthOverflow;
      frame_size ← measure_arguments frame_size (args f);
      if MAX_OBP_PAYLOAD_SIZE <? payload_length (payload f)
      then Err (PayloadTooLarge (payload_length (payload f)))
      else
        frame_size ← ok_or (checked_add frame_size (payload_length (payload f))) LengthOverflow;
        if MAX_OBP_FRAME_SIZE <? frame_size then Err FrameTooLarge else Ok tt in
  match checked with
  | Err e => (buf, Err e)
  | Ok _ =>
    let buf := buf ++ [OBP_MAGIC; OBP_VERSION; cmd f] in
    let buf := write_u32_be (put_u16 buf (flags f)) (correlation_id f) in
    let buf := put_u16 buf (as_u16 (len (args f))) in
    let buf := fold_left put_argument (args f) buf in
    let buf := write_u32_be buf (as_u32 (payload_length (payload f))) in
    (match payload f with Some p => buf ++ p | None => buf end, Ok tt)
  end.

(** ** Decoding *)

(** [u32::from_be_bytes] of the four bytes at [offset]. *)
Definition length_at (buf : bytes) (offset : Z) : Z := from_be_bytes (slice buf offset (offset + 4)).

(** The first pass over the arguments: the offset after them, [Ok None] when the
    buffer ends before. *)
Fixpoint check_arguments (buf : bytes) (n : nat) (offset : Z) : result OBPProtocolError (option Z) :=
  match n with
  | O => Ok (Some offset)
  | S n =>
    length_end ← ok_or (checked_add offset 4) LengthOverflow;
    if len buf <? length_end then Ok None
    else
      let argument_length := length_at buf offset in
      if MAX_OBP_ARGUMENT_SIZE <? argument_length then Err (ArgumentTooLarge argument_length)
      else
        argument_end ← ok_or (checked_add length_end argument_length) LengthOverflow;
        if MAX_OBP_FRAME_SIZE <? argument_end then Err FrameTooLarge
        else if len buf <? argument_end then Ok None
        else check_arguments buf n argument_end
  end.

(** The second pass, over a frame that was checked. *)
Fixpoint copy_arguments (buf : bytes) (n : nat) (argument_offset : Z) : list bytes :=
  match n with
  | O => []
  | S n =>
    let length_end := argument_offset + 4 in
    let argument_end := length_end + length_at buf argument_offset in
    slice buf length_end argument_end :: copy_arguments buf n argument_end
  end.

(** The payload's bounds, once the arguments end at [offset]. *)
Definition check_payload (buf : bytes) (offset : Z) : result OBPProtocolError (option (Z * Z)) :=
  payload_length_end ← ok_or (checked_add offset OBP_PAYLOAD_LENGTH_SIZE) LengthOverflow;
  if len buf <? payload_length_end then Ok None
  else
    let payload_length := length_at buf offset in
    if MAX_OBP_PAYLOAD_SIZE <? payload_length then Err (PayloadTooLarge payload_length)
    else
      frame_end ← ok_or (checked_add payload_length_end payload_length) LengthOverflow;
      if MAX_OBP_FRAME_SIZE <? frame_end then Err FrameTooLarge
      else if len buf <? frame_end then Ok None
      else Ok (Some (payload_length_end, frame_end)).

(** The two passes over the rest of a frame with [n] arguments. *)
Definition decode_body (buf : bytes) (command : byte) (fl id : Z) (n : nat)
  : bytes * result OBPProtocolError (option OBPFrame) :=
  match check_arguments buf n OBP_FIXED_HEADER_SIZE with
  | Err e => (buf, Err e)
  | Ok None => (buf, Ok None)
  | Ok (Some offset) =>
    match check_payload buf offset with
    | Err e => (buf, Err e)
    | Ok None => (buf, Ok None)
    | Ok (Some (payload_start, frame_end)) =>
      let payload := if payload_start <? frame_end then Some (slice buf payload_start frame_end) else None in
      (drop (Z.to_nat frame_end) buf,
       Ok (Some (mkFrame command fl id (copy_arguments buf n OBP_FIXED_HEADER_SIZE) payload)))
    end
  end.

(** The buffer that is left and the result. *)
Definition decode (buf : bytes) : bytes * result OBPProtocolError (option OBPFrame) :=
  match buf with
  | magic :: rest =>
    if negb (bool_decide (magic = OBP_MAGIC)) then (buf, Err InvalidMagic)
    else
      match rest with
      | version :: _ =>
        if negb (bool_decide (version = OBP_VERSION)) then (buf, Err (UnsupportedVersion version))
        else
          match rest with
          | _ :: c :: f0 :: f1 :: i0 :: i1 :: i2 :: i3 :: n0 :: n1 :: _ =>
            let argument_count := from_be_bytes [n0; n1] in
            if MAX_OBP_ARGUMENTS <? argument_count then (buf, Err (TooManyArguments argument_count))
            else decode_body buf c (from_be_bytes [f0; f1]) (from_be_bytes [i0; i1; i2; i3])
                   (Z.to_nat argument_count)
          | _ => (buf, Ok None)
          end
      | [] => (buf, Ok None)
      end
  | [] => (buf, Ok None)
  end.

(** What a client can send: the widths of the header's fields. *)
Definition frame_wf (f : OBPFrame) : Prop :=
  0 <= flags f < 2 ^ 16 /\ 0 <= correlation_id f < 2 ^ 32.

(** What reads back: an empty payload is no payload. *)
Definition normal_payload (o : option bytes) : option bytes :=
  match o with Some [] => None | _ => o end.

Definition normal (f : OBPFrame) : OBPFrame :=
  mkFrame (cmd f) (flags f) (correlation_id f) (args f) (normal_payload (payload f)).

(** * The frames a buffer starts with

    The bytes of a frame, when they fit the limits, and that the encoder writes
    exactly them and the decoder accepts exactly them; what the decoder decides
    does not change when more bytes arrive. *)

From S2P Require Import CodecSpec Resp.

(** ** Integers on the wire *)

Definition be16 (v : Z) : bytes := put_u16 [] v.
Arguments be16 v : simpl never.

Lemma put_u16_app b v : put_u16 b v = b ++ be16 v.
Proof. reflexivity. Qed.

Lemma len_be16 v : len (be16 v) = 2.
Proof. reflexivity. Qed.

Lemma from_be16 v : 0 <= v < 2 ^ 16 -> from_be_bytes (be16 v) = v.
Proof.
  intros Hv. change (be16 v) with ([Z_byte (Z.shiftr v 8)] ++ [Z_byte (Z.shiftr v 0)]).
  rewrite be_next, Z.shiftr_0_r; [done..|]. by apply be_first.
Qed.

Lemma from_be_range b : 0 <= from_be_bytes b < 256 ^ len b.
Proof.
  induction b as [|x b IH] using rev_ind; [done|]. rewrite from_be_app, len_app, Z.pow_add_r by apply len_nonneg.
  pose proof (byte_Z_range x). change (256 ^ len [x]) with 256. lia.
Qed.

(** Splitting the last byte off again. *)
Lemma Z_byte_from_be b x : Z_byte (from_be_bytes (b ++ [x])) = x.
Proof.
  rewrite from_be_app. apply byte_Z_inj. rewrite byte_Z_of_Z, Z.add_comm, Z.mod_add by lia.
  apply Z.mod_small, byte_Z_range.
Qed.

Lemma shiftr_from_be b x : Z.shiftr (from_be_bytes (b ++ [x])) 8 = from_be_bytes b.
Proof.
  rewrite from_be_app, Z.shiftr_div_pow2 by lia. change (2 ^ 8) with 256.
  rewrite Z.add_comm, Z.div_add by lia. by rewrite Z.div_small by apply byte_Z_range.
Qed.

Lemma be16_from a b : be16 (from_be_bytes [a; b]) = [a; b].
Proof.
  unfold be16, put_u16. change [a; b] with ([a] ++ [b]). rewrite shiftr_from_be, Z_byte_from_be.
  change [a] with ([] ++ [a]). by rewrite Z_byte_from_be.
Qed.

Lemma be32_from b : len b = 4 -> be32 (from_be_bytes b) = b.
Proof.
  intros Hb. destruct b as [|b0 [|b1 [|b2 [|b3 [|x b]]]]]; unfold len in Hb; simpl in Hb; try lia.
  unfold be32, write_u32_be. change [b0; b1; b2; b3] with ((([b0] ++ [b1]) ++ [b2]) ++ [b3]).
  change 24 with (8 + (8 + 8)). rewrite <- !Z.shiftr_shiftr by lia. change 16 with (8 + 8).
  rewrite <- !Z.shiftr_shiftr by lia. rewrite !shiftr_from_be, !Z_byte_from_be. change [b0] with ([] ++ [b0]). by rewrite Z_byte_from_be.
Qed.

Lemma as_u32_id n : 0 <= n <= U32_MAX -> as_u32 n = n.
Proof. unfold as_u32, U32_MAX. intros H. apply Z.mod_small. lia. Qed.

Lemma as_u16_id n : 0 <= n <= U16_MAX -> as_u16 n = n.
Proof. unfold as_u16, U16_MAX. intros H. apply Z.mod_small. lia. Qed.

(** ** The bytes of a frame *)

Definition argument_bytes (a : bytes) : bytes := be32 (len a) ++ a.
Definition arguments_bytes (l : list bytes) : bytes := concat (map argument_bytes l).
Definition payload_text (o : option bytes) : bytes := match o with Some p => p | None => [] end.

Definition header_bytes (f : OBPFrame) : bytes :=
  [OBP_MAGIC; OBP_VERSION; cmd f] ++ be16 (flags f) ++ be32 (correlation_id f) ++ be16 (len (args f)).

Definition frame_bytes (f : OBPFrame) : bytes :=
  header_bytes f ++ arguments_bytes (args f) ++ be32 (len (payload_text (payload f))) ++ payload_text (payload f).

Record fits (f : OBPFrame) : Prop := {
  fit_count : len (args f) <= MAX_OBP_ARGUMENTS;
  fit_arguments : Forall (fun a => len a <= MAX_OBP_ARGUMENT_SIZE) (args f);
  fit_payload : len (payload_text (payload f)) <= MAX_OBP_PAYLOAD_SIZE;
  fit_frame : len (frame_bytes f) <= MAX_OBP_FRAME_SIZE
}.

Lemma len_header f : len (header_bytes f) = OBP_FIXED_HEADER_SIZE.
Proof. reflexivity. Qed.

Lemma len_frame_bytes f :
  len (frame_bytes f) = 15 + len (arguments_bytes (args f)) + len (payload_text (payload f)).
Proof.
  unfold frame_bytes. rewrite !len_app, len_header, len_be32. unfold OBP_FIXED_HEADER_SIZE. lia.
Qed.

Lemma arguments_bytes_cons a l : arguments_bytes (a :: l) = argument_bytes a ++ arguments_bytes l.
Proof. reflexivity. Qed.

Lemma len_argument_bytes a : len (argument_bytes a) = 4 + len a.
Proof. unfold argument_bytes. by rewrite len_app, len_be32. Qed.

Lemma payload_length_text o : payload_length o = len (payload_text o).
Proof. by destruct o. Qed.

(** ** Encoding *)

Lemma measure_spec l size :
  match measure_arguments size l with
  | Ok size' => Forall (fun a => len a <= MAX_OBP_ARGUMENT_SIZE) l /\ size' = size + len (arguments_bytes l)
  | Err _ => ~ (Forall (fun a => len a <= MAX_OBP_ARGUMENT_SIZE) l /\ size + len (arguments_bytes l) <= U64_MAX)
  end.
Proof.
  revert size. induction l as [|a l IH]; intros size; cbn [measure_arguments].
  { change (len (arguments_bytes [])) with 0. split; [constructor|lia]. }
  destruct (Z.ltb_spec MAX_OBP_ARGUMENT_SIZE (len a)) as [Hlt|Hle].
  { intros [H _]. apply list.Forall_cons in H as [H _]. lia. }
  rewrite arguments_bytes_cons, len_app, len_argument_bytes.
  pose proof (len_nonneg a). pose proof (len_nonneg (arguments_bytes l)).
  unfold checked_add. destruct (Z.leb_spec (size + 4) U64_MAX); cbn [mbind option_bind ok_or result_bind].
  2: { intros [_ ?]. lia. }
  destruct (Z.leb_spec (size + 4 + len a) U64_MAX); cbn [ok_or mbind result_bind]; [|intros [_ ?]; lia].
  specialize (IH (size + 4 + len a)). destruct (measure_arguments _ l) as [size'|e].
  - destruct IH as [Hl ->]. split; [by constructor|lia].
  - intros [[_ Hl]%list.Forall_cons Hs]. apply IH. split; [done|lia].
Qed.

Lemma fold_put_argument l buf :
  Forall (fun a => len a <= MAX_OBP_ARGUMENT_SIZE) l -> fold_left put_argument l buf = buf ++ arguments_bytes l.
Proof.
  intros H. revert buf. induction H as [|a l Ha _ IH]; intros buf; cbn [fold_left].
  - change (arguments_bytes []) with (@nil byte). by rewrite app_nil_r.
  - rewrite IH, arguments_bytes_cons. unfold put_argument, argument_bytes.
    pose proof (len_nonneg a). unfold MAX_OBP_ARGUMENT_SIZE in Ha.
    rewrite as_u32_id, write_u32_be_app by (unfold U32_MAX; lia). by rewrite <- !(assoc_L (++)).
Qed.

Lemma encode_checks f buf :
  encode f buf = (buf ++ frame_bytes f, Ok tt) /\ fits f \/ exists e, encode f buf = (buf, Err e) /\ ~ fits f.
Proof.
  unfold encode. pose proof (len_nonneg (args f)) as Hn.
  destruct (Z.ltb_spec MAX_OBP_ARGUMENTS (len (args f))) as [Hlt|Hcount].
  { right. eexists. split; [done|]. intros [H _ _ _]. lia. }
  change (checked_add OBP_FIXED_HEADER_SIZE OBP_PAYLOAD_LENGTH_SIZE) with (Some 15). cbn [ok_or mbind result_bind].
  pose proof (measure_spec (args f) 15) as Hm. pose proof (len_frame_bytes f) as Hlen.
  pose proof (len_nonneg (payload_text (payload f))) as Hp.
  assert (Hbig : MAX_OBP_FRAME_SIZE <= U64_MAX) by done.
  destruct (measure_arguments 15 (args f)) as [size|e]; cbn [mbind result_bind].
  2: { right. eexists. split; [done|]. intros [_ H _ H']. apply Hm. split; [done|lia]. }
  destruct Hm as [Hargs ->]. rewrite payload_length_text.
  destruct (Z.ltb_spec MAX_OBP_PAYLOAD_SIZE (len (payload_text (payload f)))) as [Hlt|Hpay].
  { right. eexists. split; [done|]. intros [_ _ H _]. lia. }
  unfold checked_add. rewrite <- Hlen. destruct (Z.leb_spec (len (frame_bytes f)) U64_MAX) as [Hu|Hu];
    cbn [ok_or mbind result_bind].
  2: { right. eexists. split; [done|]. intros [_ _ _ H]. lia. }
  destruct (Z.ltb_spec MAX_OBP_FRAME_SIZE (len (frame_bytes f))) as [Hlt|Hframe].
  { right. eexists. split; [done|]. intros [_ _ _ H]. lia. }
  left. split; [|by constructor]. f_equal. unfold MAX_OBP_ARGUMENTS, MAX_OBP_PAYLOAD_SIZE in *.
  rewrite fold_put_argument by done. rewrite !write_u32_be_app, !put_u16_app.
  rewrite as_u16_id by (unfold U16_MAX; lia). rewrite as_u32_id by (unfold U32_MAX; lia).
  unfold frame_bytes, header_bytes. destruct (payload f) as [p|]; cbn [payload_text];
    rewrite <- ?(assoc_L (++)), ?app_nil_r; reflexivity.
Qed.

Lemma encode_fits f buf : fits f -> encode f buf = (buf ++ frame_bytes f, Ok tt).
Proof. intros H. destruct (encode_checks f buf) as [[? _]|(e & _ & ?)]; done. Qed.

Lemma encode_Ok f buf buf' : encode f buf = (buf', Ok tt) -> fits f /\ buf' = buf ++ frame_bytes f.
Proof.
  intros E. destruct (encode_checks f buf) as [[E' H]|(e & E' & _)]; rewrite E' in E; [|done].
  by injection E as <-.
Qed.

(** ** Decoding *)

Lemma length_at_app buf more offset :
  0 <= offset -> offset + 4 <= len buf -> length_at (buf ++ more) offset = length_at buf offset.
Proof. intros H1 H2. unfold length_at. by rewrite slice_app by lia. Qed.

Lemma length_at_here pre v q : 0 <= v <= U32_MAX -> length_at (pre ++ be32 v ++ q) (len pre) = v.
Proof.
  intros Hv. unfold length_at. change 4 with (len (be32 v)). rewrite slice_app_middle. by apply from_be32.
Qed.

(** Four bytes read as a length are that length on the wire. *)
Lemma length_at_split pre q :
  4 <= len q -> exists v rest, length_at (pre ++ q) (len pre) = v /\ q = be32 v ++ rest /\ 0 <= v <= U32_MAX.
Proof.
  intros Hq. assert (H4 : len (take 4 q) = 4) by (change 4%nat with (Z.to_nat 4); apply len_take; lia).
  exists (from_be_bytes (take 4 q)), (drop 4 q). rewrite be32_from, take_drop by done. split; [|split; [done|]].
  - unfold length_at. rewrite <- (take_drop 4 q) at 1. rewrite <- H4 at 1. by rewrite slice_app_middle.
  - pose proof (from_be_range (take 4 q)) as H. rewrite H4 in H. unfold U32_MAX. change (256 ^ 4) with 4294967296 in H. lia.
Qed.

Lemma small_add a b : 0 <= a <= MAX_OBP_FRAME_SIZE + 4 -> 0 <= b <= U32_MAX -> checked_add a b = Some (a + b).
Proof.
  unfold checked_add, MAX_OBP_FRAME_SIZE, U32_MAX, U64_MAX. intros Ha Hb. by rewrite (proj2 (Z.leb_le _ _)) by lia.
Qed.

(** One argument, in both passes. *)
Lemma argument_step pre a q n :
  len a <= MAX_OBP_ARGUMENT_SIZE -> len (pre ++ argument_bytes a) <= MAX_OBP_FRAME_SIZE ->
  let buf := (pre ++ argument_bytes a) ++ q in
  check_arguments buf (S n) (len pre) = check_arguments buf n (len (pre ++ argument_bytes a)) /\
  copy_arguments buf (S n) (len pre) = a :: copy_arguments buf n (len (pre ++ argument_bytes a)).
Proof.
  intros Ha Hf buf. cbn [check_arguments copy_arguments].
  pose proof (len_nonneg a). pose proof (len_nonneg pre). pose proof (len_nonneg q).
  assert (Hat : length_at buf (len pre) = len a).
  { unfold buf, argument_bytes. rewrite <- !(assoc_L (++)). apply length_at_here.
    unfold MAX_OBP_ARGUMENT_SIZE, U32_MAX in *. lia. }
  assert (Hlen : len buf = len pre + 4 + len a + len q).
  { unfold buf. rewrite !len_app, len_argument_bytes. lia. }
  assert (Hcopy : slice buf (len pre + 4) (len pre + 4 + len a) = a).
  { unfold buf, argument_bytes. rewrite (assoc_L (++) pre), <- (assoc_L (++) _ a).
    replace (len pre + 4) with (len (pre ++ be32 (len a))) by (by rewrite len_app, len_be32). apply slice_app_middle. }
  rewrite len_app, len_argument_bytes, Z.add_assoc in *. rewrite Hat, Hcopy. split; [|done].
  unfold MAX_OBP_ARGUMENT_SIZE in Ha.
  rewrite small_add by (unfold U32_MAX; lia). cbn [ok_or mbind result_bind].
  rewrite !(proj2 (Z.ltb_ge _ _)) by (unfold MAX_OBP_ARGUMENT_SIZE; lia).
  rewrite small_add by (unfold U32_MAX; lia). cbn [ok_or mbind result_bind].
  by rewrite !(proj2 (Z.ltb_ge _ _)) by lia.
Qed.

Lemma check_arguments_run l pre q :
  Forall (fun a => len a <= MAX_OBP_ARGUMENT_SIZE) l -> len (pre ++ arguments_bytes l) <= MAX_OBP_FRAME_SIZE ->
  check_arguments (pre ++ arguments_bytes l ++ q) (length l) (len pre) = Ok (Some (len (pre ++ arguments_bytes l)))
  /\ copy_arguments (pre ++ arguments_bytes l ++ q) (length l) (len pre) = l.
Proof.
  intros H. revert pre. induction H as [|a l Ha _ IH]; intros pre Hf; cbn [length].
  { change (arguments_bytes []) with (@nil byte). by rewrite app_nil_r. }
  rewrite arguments_bytes_cons in *.
  replace (pre ++ (argument_bytes a ++ arguments_bytes l) ++ q)
    with ((pre ++ argument_bytes a) ++ arguments_bytes l ++ q) by (by rewrite <- !(assoc_L (++))).
  rewrite (assoc_L (++) pre) in *.
  destruct (argument_step pre a (arguments_bytes l ++ q) (length l) Ha) as [E1 E2].
  { rewrite len_app in Hf. pose proof (len_nonneg (arguments_bytes l)). lia. }
  destruct (IH (pre ++ argument_bytes a) Hf) as [E3 E4].
  by rewrite E1, E2, E3, E4.
Qed.

Lemma check_arguments_inv n pre q offset :
  0 <= len pre <= MAX_OBP_FRAME_SIZE -> check_arguments (pre ++ q) n (len pre) = Ok (Some offset) ->
  exists l rest, length l = n /\ q = arguments_bytes l ++ rest /\ offset = len (pre ++ arguments_bytes l) /\
    Forall (fun a => len a <= MAX_OBP_ARGUMENT_SIZE) l /\ offset <= MAX_OBP_FRAME_SIZE.
Proof.
  revert pre q. induction n as [|n IH]; intros pre q Hpre H.
  { injection H as <-. exists [], q. change (arguments_bytes []) with (@nil byte).
    rewrite app_nil_r. repeat split; [constructor|lia]. }
  cbn [check_arguments] in H. rewrite small_add in H by (unfold U32_MAX; lia). cbn [ok_or mbind result_bind] in H.
  rewrite len_app in H. destruct (Z.ltb_spec (len pre + len q) (len pre + 4)) as [?|Hq]; [done|].
  destruct (length_at_split pre q) as (v & rest & Hv & -> & Hr); [lia|]. rewrite Hv in H.
  destruct (Z.ltb_spec MAX_OBP_ARGUMENT_SIZE v) as [?|Ha]; [done|].
  rewrite small_add in H by lia. cbn [ok_or mbind result_bind] in H.
  destruct (Z.ltb_spec MAX_OBP_FRAME_SIZE (len pre + 4 + v)) as [?|Hf]; [done|].
  rewrite len_app, len_be32 in H. destruct (Z.ltb_spec (len pre + (4 + len rest)) (len pre + 4 + v)) as [?|Hl]; [done|].
  pose proof (len_take rest v ltac:(lia)) as Hlt. set (a := take (Z.to_nat v) rest) in *.
  assert (Hrest : be32 v ++ rest = argument_bytes a ++ drop (Z.to_nat v) rest).
  { unfold argument_bytes. rewrite Hlt, <- (assoc_L (++)). unfold a. by rewrite take_drop. }
  rewrite Hrest, (assoc_L (++) pre) in H.
  assert (Hoff : len pre + 4 + v = len (pre ++ argument_bytes a)) by (rewrite len_app, len_argument_bytes; lia).
  rewrite Hoff in H. destruct (IH (pre ++ argument_bytes a) _ ltac:(pose proof (len_nonneg (pre ++ argument_bytes a)); lia) H)
    as (l & r & H1 & H2 & H3 & H4 & H5).
  exists (a :: l), r. rewrite arguments_bytes_cons. split; [by simpl; f_equal|]. split; [by rewrite Hrest, H2, (assoc_L (++))|].
  split; [by rewrite (assoc_L (++) pre)|]. split; [|done]. constructor; [by rewrite Hlt|done].
Qed.

Lemma check_arguments_more n buf more offset :
  0 <= offset -> check_arguments buf n offset <> Ok None ->
  check_arguments (buf ++ more) n offset = check_arguments buf n offset.
Proof.
  revert offset. induction n as [|n IH]; intros offset Ho H; [done|]. cbn [check_arguments] in *.
  destruct (checked_add offset 4) as [e|] eqn:E1; [|done]. apply checked_add_Some in E1 as [-> _].
  cbn [ok_or mbind result_bind] in *. rewrite len_app. pose proof (len_nonneg more).
  destruct (Z.ltb_spec (len buf) (offset + 4)) as [?|Hb]; [done|].
  rewrite (proj2 (Z.ltb_ge _ _)), length_at_app by lia. destruct (_ <? length_at buf offset); [done|].
  assert (Hv : 0 <= length_at buf offset) by apply from_be_range.
  destruct (checked_add _ (length_at buf offset)) as [e|] eqn:E2; [|done]. apply checked_add_Some in E2 as [-> _].
  cbn [ok_or mbind result_bind] in *. destruct (MAX_OBP_FRAME_SIZE <? _); [done|].
  destruct (Z.ltb_spec (len buf) (offset + 4 + length_at buf offset)) as [?|Hc]; [done|].
  rewrite (proj2 (Z.ltb_ge _ _)) by lia. apply IH; [lia|done].
Qed.

Lemma check_payload_run pre p q :
  len p <= MAX_OBP_PAYLOAD_SIZE -> len pre + 4 + len p <= MAX_OBP_FRAME_SIZE ->
  check_payload (pre ++ be32 (len p) ++ p ++ q) (len pre) = Ok (Some (len pre + 4, len pre + 4 + len p)).
Proof.
  intros Hp Hf. unfold check_payload, OBP_PAYLOAD_LENGTH_SIZE.
  pose proof (len_nonneg p). pose proof (len_nonneg pre). pose proof (len_nonneg q).
  assert (Hs : len p <= U32_MAX) by (unfold MAX_OBP_PAYLOAD_SIZE, U32_MAX in *; lia).
  rewrite small_add by (unfold U32_MAX; lia). cbn [ok_or mbind result_bind]. rewrite length_at_here by done.
  rewrite !len_app, len_be32. rewrite !(proj2 (Z.ltb_ge _ _)) by lia.
  rewrite small_add by lia. cbn [ok_or mbind result_bind]. by rewrite !(proj2 (Z.ltb_ge _ _)) by lia.
Qed.

Lemma check_payload_inv pre q s e :
  len pre <= MAX_OBP_FRAME_SIZE -> check_payload (pre ++ q) (len pre) = Ok (Some (s, e)) ->
  exists p rest, q = be32 (len p) ++ p ++ rest /\ s = len pre + 4 /\ e = s + len p /\
    len p <= MAX_OBP_PAYLOAD_SIZE /\ e <= MAX_OBP_FRAME_SIZE.
Proof.
  unfold check_payload, OBP_PAYLOAD_LENGTH_SIZE. intros Hpre. pose proof (len_nonneg pre).
  rewrite small_add by (unfold U32_MAX; lia). cbn [ok_or mbind result_bind]. rewrite len_app.
  destruct (Z.ltb_spec (len pre + len q) (len pre + 4)) as [?|Hq]; [done|].
  destruct (length_at_split pre q) as (v & rest & Hv & -> & Hr); [lia|]. rewrite Hv.
  destruct (Z.ltb_spec MAX_OBP_PAYLOAD_SIZE v) as [?|Hp]; [done|].
  rewrite small_add by lia. cbn [ok_or mbind result_bind].
  destruct (Z.ltb_spec MAX_OBP_FRAME_SIZE (len pre + 4 + v)) as [?|Hf]; [done|].
  rewrite len_app, len_be32. destruct (Z.ltb_spec (len pre + (4 + len rest)) (len pre + 4 + v)) as [?|Hl]; [done|].
  intros [= <- <-]. pose proof (len_take rest v ltac:(lia)) as Hlt.
  exists (take (Z.to_nat v) rest), (drop (Z.to_nat v) rest). rewrite Hlt, take_drop. done.
Qed.

Lemma check_payload_more buf more offset :
  0 <= offset -> check_payload buf offset <> Ok None -> check_payload (buf ++ more) offset = check_payload buf offset.
Proof.
  intros Ho. unfold check_payload, OBP_PAYLOAD_LENGTH_SIZE. intros H.
  destruct (checked_add offset 4) as [e|] eqn:E1; [|done]. apply checked_add_Some in E1 as [-> _].
  cbn [ok_or mbind result_bind] in *. rewrite len_app. pose proof (len_nonneg more).
  destruct (Z.ltb_spec (len buf) (offset + 4)) as [?|Hb]; [done|].
  rewrite (proj2 (Z.ltb_ge _ _)), length_at_app by lia. destruct (_ <? length_at buf offset); [done|].
  destruct (checked_add _ (length_at buf offset)) as [e|] eqn:E2; [|done]. apply checked_add_Some in E2 as [-> _].
  cbn [ok_or mbind result_bind] in *. destruct (MAX_OBP_FRAME_SIZE <? _); [done|].
  destruct (Z.ltb_spec (len buf) (offset + 4 + length_at buf offset)) as [?|Hc]; [done|].
  by rewrite (proj2 (Z.ltb_ge _ _)) by lia.
Qed.

(** A checked offset lies in the buffer. *)
Lemma check_arguments_bound n buf offset stop :
  0 <= offset <= len buf -> check_arguments buf n offset = Ok (Some stop) -> offset <= stop <= len buf.
Proof.
  revert offset. induction n as [|n IH]; intros offset Ho; [intros [= <-]; lia|]. cbn [check_arguments].
  destruct (checked_add offset 4) as [e|] eqn:E1; [|done]. apply checked_add_Some in E1 as [-> _].
  cbn [ok_or mbind result_bind]. destruct (len buf <? _); [done|]. destruct (_ <? length_at buf offset); [done|].
  assert (Hv : 0 <= length_at buf offset) by apply from_be_range.
  destruct (checked_add _ (length_at buf offset)) as [e|] eqn:E2; [|done]. apply checked_add_Some in E2 as [-> _].
  cbn [ok_or mbind result_bind]. destruct (MAX_OBP_FRAME_SIZE <? _); [done|].
  destruct (Z.ltb_spec (len buf) (offset + 4 + length_at buf offset)) as [?|Hc]; [done|].
  intros H%IH; lia.
Qed.

Lemma copy_arguments_more n buf more offset stop :
  0 <= offset <= len buf -> check_arguments buf n offset = Ok (Some stop) ->
  copy_arguments (buf ++ more) n offset = copy_arguments buf n offset.
Proof.
  revert offset. induction n as [|n IH]; intros offset Ho; [done|]. cbn [check_arguments copy_arguments].
  destruct (checked_add offset 4) as [e|] eqn:E1; [|done]. apply checked_add_Some in E1 as [-> _].
  cbn [ok_or mbind result_bind]. destruct (Z.ltb_spec (len buf) (offset + 4)); [done|].
  destruct (_ <? length_at buf offset); [done|].
  assert (Hv : 0 <= length_at buf offset) by apply from_be_range.
  destruct (checked_add _ (length_at buf offset)) as [e|] eqn:E2; [|done]. apply checked_add_Some in E2 as [-> _].
  cbn [ok_or mbind result_bind]. destruct (MAX_OBP_FRAME_SIZE <? _); [done|].
  destruct (Z.ltb_spec (len buf) (offset + 4 + length_at buf offset)) as [?|Hc]; [done|].
  intros H2. rewrite length_at_app by lia. rewrite slice_app by lia. f_equal. apply IH; [lia|done].
Qed.

(** ** Whole frames *)

Lemma decode_body_run pre c fl id l p more :
  len pre = OBP_FIXED_HEADER_SIZE -> Forall (fun a => len a <= MAX_OBP_ARGUMENT_SIZE) l ->
  len p <= MAX_OBP_PAYLOAD_SIZE -> 15 + len (arguments_bytes l) + len p <= MAX_OBP_FRAME_SIZE ->
  decode_body ((pre ++ arguments_bytes l ++ be32 (len p) ++ p) ++ more) c fl id (length l) =
  (more, Ok (Some (mkFrame c fl id l (if 0 <? len p then Some p else None)))).
Proof.
  intros Hpre Hl Hp Hf. unfold decode_body. unfold OBP_FIXED_HEADER_SIZE in Hpre.
  pose proof (len_nonneg p). pose proof (len_nonneg (arguments_bytes l)).
  change OBP_FIXED_HEADER_SIZE with 11. rewrite <- Hpre.
  destruct (check_arguments_run l pre (be32 (len p) ++ p ++ more) Hl) as [E1 E2]; [rewrite len_app; lia|].
  set (buf := (pre ++ arguments_bytes l ++ be32 (len p) ++ p) ++ more).
  assert (Hb1 : buf = pre ++ arguments_bytes l ++ be32 (len p) ++ p ++ more) by (unfold buf; by rewrite <- !(assoc_L (++))).
  assert (Hb2 : buf = (pre ++ arguments_bytes l) ++ be32 (len p) ++ p ++ more) by (rewrite Hb1; by rewrite <- !(assoc_L (++))).
  rewrite Hb1 at 1. rewrite E1. rewrite Hb2 at 1. rewrite check_payload_run by (rewrite ?len_app; lia).
  rewrite <- Hb1 in E2. rewrite E2. f_equal.
  - unfold buf. rewrite drop_app_length'; [done|]. unfold len in *. rewrite !length_app in *.
    pose proof (len_be32 (len p)) as Hb. unfold len in Hb. lia.
  - replace (len (pre ++ arguments_bytes l) + 4 <? len (pre ++ arguments_bytes l) + 4 + len p) with (0 <? len p)
      by (apply eq_true_iff_eq; rewrite !Z.ltb_lt; lia).
    destruct (0 <? len p); [|done]. repeat f_equal. rewrite Hb2, (assoc_L (++) _ (be32 (len p))).
    replace (len (pre ++ arguments_bytes l) + 4) with (len ((pre ++ arguments_bytes l) ++ be32 (len p)))
      by (by rewrite (len_app _ (be32 _)), len_be32).
    apply slice_app_middle.
Qed.

Lemma decode_obp_frame f more : frame_wf f -> fits f -> decode (frame_bytes f ++ more) = (more, Ok (Some (normal f))).
Proof.
  intros [Hfl Hid] [H1 H2 H3 H4]. rewrite len_frame_bytes in H4.
  transitivity (decode_body (frame_bytes f ++ more) (cmd f) (from_be_bytes (be16 (flags f)))
    (from_be_bytes (be32 (correlation_id f))) (Z.to_nat (from_be_bytes (be16 (len (args f)))))).
  - unfold decode. change (frame_bytes f ++ more) with
      (OBP_MAGIC :: OBP_VERSION :: cmd f :: (be16 (flags f) ++ be32 (correlation_id f) ++ be16 (len (args f))
        ++ (arguments_bytes (args f) ++ be32 (len (payload_text (payload f))) ++ payload_text (payload f)) ++ more)).
    cbv beta iota. rewrite !bool_decide_eq_true_2 by done. cbn [negb]. unfold be16 at 1, put_u16 at 1, be32 at 1, write_u32_be at 1.
    unfold be16 at 1, put_u16 at 1. cbn [app].
    change (from_be_bytes [Z_byte (Z.shiftr (len (args f)) 8); Z_byte (len (args f))])
      with (from_be_bytes (be16 (len (args f)))).
    pose proof (len_nonneg (args f)). unfold MAX_OBP_ARGUMENTS in *.
    rewrite from_be16 by lia. by rewrite (proj2 (Z.ltb_ge _ _)) by lia.
  - pose proof (len_nonneg (args f)). unfold MAX_OBP_ARGUMENTS in *.
    rewrite !from_be16, from_be32 by (unfold U32_MAX; lia).
    replace (Z.to_nat (len (args f))) with (length (args f)) by (unfold len; lia).
    unfold frame_bytes. rewrite decode_body_run by (done || lia).
    unfold normal. repeat f_equal. destruct (payload f) as [[|x p]|]; [done| |done].
    cbn [payload_text normal_payload]. rewrite (proj2 (Z.ltb_lt _ _)); [done|]. rewrite len_cons. pose proof (len_nonneg p). lia.
Qed.

Lemma decode_body_inv pre q c fl id n rest f :
  len pre = OBP_FIXED_HEADER_SIZE -> decode_body (pre ++ q) c fl id n = (rest, Ok (Some f)) ->
  exists l p, f = mkFrame c fl id l (if 0 <? len p then Some p else None) /\ length l = n /\
    q = arguments_bytes l ++ be32 (len p) ++ p ++ rest /\
    Forall (fun a => len a <= MAX_OBP_ARGUMENT_SIZE) l /\ len p <= MAX_OBP_PAYLOAD_SIZE /\
    15 + len (arguments_bytes l) + len p <= MAX_OBP_FRAME_SIZE.
Proof.
  intros Hpre H. pose proof H as H'. unfold decode_body in H'.
  destruct (check_arguments _ n _) as [[offset|]|] eqn:E1; [|done|done].
  destruct (check_payload _ offset) as [[[s e]|]|] eqn:E2; [|done|done]. clear H'.
  change OBP_FIXED_HEADER_SIZE with 11 in *. rewrite <- Hpre in E1.
  apply check_arguments_inv in E1 as (l & q' & Hn & -> & -> & Hl & Hf); [|unfold MAX_OBP_FRAME_SIZE; lia].
  rewrite (assoc_L (++)) in E2. apply check_payload_inv in E2 as (p & q & -> & -> & -> & Hp & Hfe); [|done].
  rewrite len_app in *. subst n.
  replace (pre ++ arguments_bytes l ++ be32 (len p) ++ p ++ q)
    with ((pre ++ arguments_bytes l ++ be32 (len p) ++ p) ++ q) in H by (by rewrite <- !(assoc_L (++))).
  rewrite decode_body_run in H by (done || lia). injection H as -> <-.
  exists l, p. split_and!; try done. lia.
Qed.

Lemma decode_exact buf rest f :
  decode buf = (rest, Ok (Some f)) -> frame_wf f /\ fits f /\ normal f = f /\ buf = frame_bytes f ++ rest.
Proof.
  unfold decode. destruct buf as [|m [|v [|c [|f0 [|f1 [|i0 [|i1 [|i2 [|i3 [|n0 [|n1 q]]]]]]]]]]];
    try done; repeat (case_bool_decide; cbn [negb]; [|done]); try done. subst m v.
  destruct (Z.ltb_spec MAX_OBP_ARGUMENTS (from_be_bytes [n0; n1])) as [?|Hn]; [done|].
  intros H. apply (decode_body_inv [OBP_MAGIC; OBP_VERSION; c; f0; f1; i0; i1; i2; i3; n0; n1] q) in H
    as (l & p & -> & Hlen & -> & Hl & Hp & Hf); [|done].
  pose proof (from_be_range [n0; n1]) as Hr. pose proof (from_be_range [f0; f1]) as Hfl.
  pose proof (from_be_range [i0; i1; i2; i3]) as Hid.
  assert (Hcount : len l = from_be_bytes [n0; n1]) by (unfold len; lia).
  assert (Hpay : payload_text (if 0 <? len p then Some p else None) = p).
  { destruct p as [|x p]; [done|]. by rewrite (proj2 (Z.ltb_lt _ _)) by (rewrite len_cons; pose proof (len_nonneg p); lia). }
  set (f := mkFrame c _ _ l _). assert (Hb : frame_bytes f = [OBP_MAGIC; OBP_VERSION; c; f0; f1; i0; i1; i2; i3; n0; n1]
      ++ arguments_bytes l ++ be32 (len p) ++ p).
  { unfold frame_bytes, header_bytes, f. cbn [cmd flags correlation_id args payload].
    rewrite Hpay, Hcount, !be16_from, be32_from by done. reflexivity. }
  split; [split; cbn [flags correlation_id f]; done|]. split.
  { constructor; cbn [args payload f]; rewrite ?Hpay; [lia|done|done|]. rewrite len_frame_bytes. cbn [args payload f].
    rewrite Hpay. lia. }
  split.
  - unfold normal, f. cbn [cmd flags correlation_id args payload]. f_equal.
    destruct p as [|x p]; [done|]. by destruct (0 <? _).
  - rewrite Hb, <- !(assoc_L (++)). reflexivity.
Qed.

(** ** More bytes *)

Lemma decode_body_keeps buf c fl id n :
  match decode_body buf c fl id n with (_, Ok (Some _)) => True | (buf', _) => buf' = buf end.
Proof.
  unfold decode_body. destruct (check_arguments _ _ _) as [[?|]|]; [|done|done].
  by destruct (check_payload _ _) as [[[? ?]|]|].
Qed.

Lemma decode_keeps buf : match decode buf with (_, Ok (Some _)) => True | (buf', _) => buf' = buf end.
Proof.
  unfold decode. destruct buf as [|m [|v [|c [|f0 [|f1 [|i0 [|i1 [|i2 [|i3 [|n0 [|n1 q]]]]]]]]]]];
    try done; repeat (case_bool_decide; cbn [negb]; [|done]); try done.
  destruct (_ <? _); [done|apply decode_body_keeps].
Qed.

Lemma decode_body_more pre q more c fl id n buf' r :
  len pre = OBP_FIXED_HEADER_SIZE -> decode_body (pre ++ q) c fl id n = (buf', r) -> r <> Ok None ->
  decode_body ((pre ++ q) ++ more) c fl id n = (buf' ++ more, r).
Proof.
  intros Hpre. unfold decode_body.
  assert (Hr : 0 <= OBP_FIXED_HEADER_SIZE <= len (pre ++ q)).
  { rewrite len_app, Hpre. pose proof (len_nonneg q). unfold OBP_FIXED_HEADER_SIZE. lia. }
  destruct (check_arguments (pre ++ q) n _) as [[offset|]|e] eqn:E1.
  2: { intros [= <- <-]. done. }
  2: { intros [= <- <-] _. rewrite check_arguments_more by (rewrite ?E1; done). by rewrite E1. }
  rewrite check_arguments_more by (rewrite ?E1; done). rewrite E1.
  pose proof (check_arguments_bound _ _ _ _ Hr E1) as Ho.
  destruct (check_payload (pre ++ q) offset) as [[[s e]|]|e] eqn:E2.
  2: { intros [= <- <-]. done. }
  2: { intros [= <- <-] _. rewrite check_payload_more by (rewrite ?E2; done || lia). by rewrite E2. }
  rewrite check_payload_more by (rewrite ?E2; done || lia). rewrite E2. intros [= <- <-] _.
  rewrite <- (take_drop (Z.to_nat offset) (pre ++ q)) in E2. pose proof (len_take (pre ++ q) offset ltac:(lia)) as Hlt.
  assert (Hbounds : 0 <= s <= e /\ e <= len (pre ++ q)).
  { revert E2. rewrite take_drop. unfold check_payload, OBP_PAYLOAD_LENGTH_SIZE.
    destruct (checked_add offset 4) as [z|] eqn:A1; [|done]. apply checked_add_Some in A1 as [-> _].
    cbn [ok_or mbind result_bind]. destruct (Z.ltb_spec (len (pre ++ q)) (offset + 4)); [done|].
    destruct (_ <? length_at _ _); [done|]. pose proof (from_be_range (slice (pre ++ q) offset (offset + 4))) as Hv.
    fold (length_at (pre ++ q) offset) in Hv.
    destruct (checked_add _ (length_at _ _)) as [z|] eqn:A2; [|done]. apply checked_add_Some in A2 as [-> _].
    cbn [ok_or mbind result_bind]. destruct (_ <? _); [done|].
    destruct (Z.ltb_spec (len (pre ++ q)) (offset + 4 + length_at (pre ++ q) offset)); [done|]. intros [= <- <-]. lia. }
  f_equal.
  - rewrite drop_app_le; [done|]. unfold len in *. lia.
  - rewrite (copy_arguments_more _ _ _ _ offset Hr E1). repeat f_equal.
    destruct (s <? e); [|done]. by rewrite slice_app by lia.
Qed.

Lemma decode_more buf more buf' r :
  decode buf = (buf', r) -> r <> Ok None -> decode (buf ++ more) = (buf' ++ more, r).
Proof.
  unfold decode. destruct buf as [|m [|v [|c [|f0 [|f1 [|i0 [|i1 [|i2 [|i3 [|n0 [|n1 q]]]]]]]]]]]; cbn [app];
    repeat (case_bool_decide; cbn [negb]; [|by intros [= <- <-]]); try (by intros [= <- <-]).
  destruct (_ <? _); [by intros [= <- <-]|].
  apply (decode_body_more [m; v; c; f0; f1; i0; i1; i2; i3; n0; n1] q more). done.
Qed.

(** The decoder waits for the end of a frame and does not consume part of it. *)
Lemma decode_prefix f p s : frame_wf f -> fits f -> frame_bytes f = p ++ s -> s <> [] -> decode p = (p, Ok None).
Proof.
  intros Hwf Hfit Hs Hne. pose proof (decode_obp_frame f [] Hwf Hfit) as E. rewrite app_nil_r, Hs in E.
  destruct (decode p) as [b r] eqn:Ep. pose proof (decode_keeps p) as Hk. rewrite Ep in Hk.
  destruct r as [[g|]|e]; [|by subst b|].
  - pose proof (decode_more p s _ _ Ep ltac:(done)) as E'. rewrite E in E'. injection E' as Hb _.
    symmetry in Hb. apply app_eq_nil in Hb as [_ ?]. done.
  - pose proof (decode_more p s _ _ Ep ltac:(done)) as E'. rewrite E in E'. discriminate E'.
Qed.
