(* ===== verification/Coordinator.v ===== *)
(** * Coordinator: master commits (src/commit_coordinator.rs)

    A request is prepared by running it tentatively on the store and deriving
    its committed batch; a group of prepared requests gets consecutive sequence
    numbers and is persisted as a whole; if that is refused, the rollbacks run
    in reverse order.  The readings of each stage come from a [world]; what the
    binlog worker answers is a [delivery]. *)

From Stdlib Require Import ZArith Lia.
From Stdlib Require Import Strings.Byte.
From stdpp Require Import base gmap list strings numbers sorting.
From S2P Require Import Prelude Text Json JsonPath Value Shard Engine Store Persistence Model Codec BinlogIo Recovery Runtime Resp Execution Admission Server ServerInfo.

Open Scope Z_scope.

Definition COMMIT_QUEUE_MEMORY_BYTES : Z := 64 * 1024 * 1024.
Definition COMMIT_QUEUE_MEMORY_UNIT_BYTES : Z := 4 * 1024.
Definition MAX_COMMIT_GROUP_REQUESTS : Z := 64.
Definition MAX_COMMIT_GROUP_LOGICAL_MUTATIONS : Z := 256.
Definition MAX_COMMIT_GROUP_INPUT_BYTES : Z := 8 * 1024 * 1024.

Inductive ObpMutationResult {JN : JsonNumber} : Type :=
| ObpValue (v : OnyxValue)
| ObpError (m : bytes).

Inductive MasterCommitOperation : Type :=
| OpCommand (arguments : list bytes)
| OpCommandGroup (commands : list (list bytes))
| OpTransaction (commands : list (list bytes))
| OpObpSet (key v : bytes)
| OpObpDelete (key : bytes).

Definition arguments_size (arguments : list bytes) : Z :=
  fold_left (fun total argument => sat_add total (sat_add (len argument) 24)) arguments 64.

Definition estimated_bytes (op : MasterCommitOperation) : Z :=
  match op with
  | OpCommand arguments => arguments_size arguments
  | OpCommandGroup commands | OpTransaction commands =>
    fold_left (fun total command => sat_add total (arguments_size command)) commands 64
  | OpObpSet key v => sat_add (sat_add 64 (len key)) (len v)
  | OpObpDelete key => sat_add 64 (len key)
  end.

Definition logical_mutation_upper_bound (op : MasterCommitOperation) : Z :=
  match op with
  | OpCommandGroup commands => Z.max (len commands) 1
  | _ => 1
  end.

(** The checks of [submit] before a request enters the queue: the memory units
    it acquires, or the refusal. *)
Definition submit_units (op : MasterCommitOperation) : result PersistenceError Z :=
  if match op with
     | OpCommandGroup commands =>
       bool_decide (commands = []) || (MAX_COMMIT_GROUP_LOGICAL_MUTATIONS <? len commands)
     | _ => false
     end
  then Err (PersistenceError_new (bs "Commit command group exceeds the coordinator limit"))
  else
    let n := Z.max (estimated_bytes op) 1 in
    if COMMIT_QUEUE_MEMORY_BYTES <? n
    then Err (PersistenceError_new (bs "Commit request exceeds the coordinator memory budget"))
    else
      let units := (n + COMMIT_QUEUE_MEMORY_UNIT_BYTES - 1) / COMMIT_QUEUE_MEMORY_UNIT_BYTES in
      if units <=? U32_MAX then Ok units
      else Err (PersistenceError_new (bs "Commit request memory accounting overflow")).

Inductive MasterCommitResponse {JN : JsonNumber} : Type :=
| RespCommand (o : CommandOutcome)
| RespCommandGroup (l : list CommandOutcome)
| RespTransaction (v : RESPValue)
| RespObp (r : ObpMutationResult).

Definition mark_outcome (o : CommandOutcome) : CommandOutcome := mkOutcome (response o) Committed.

Definition mark_committed {JN : JsonNumber} (r : MasterCommitResponse) : MasterCommitResponse :=
  match r with
  | RespCommand o => RespCommand (mark_outcome o)
  | RespCommandGroup l =>
    RespCommandGroup (map (fun o => match mutation o with Tentative => mark_outcome o | _ => o end) l)
  | _ => r
  end.

Record PreparedCommandOperation {JN : JsonNumber} : Type := mkPreparedCommand {
  pc_outcome : CommandOutcome;
  pc_batch : option CommittedBatch;
  pc_rollback : option MutationRollback
}.

Record PreparedMasterCommit {JN : JsonNumber} : Type := mkPrepared {
  pr_response : MasterCommitResponse;
  pr_batches : list CommittedBatch;
  pr_rollbacks : list MutationRollback
}.

Section Preparation.
Context {CRC : Crc32} {JN : JsonNumber} {SJ : SerdeJson} {HO : HashOrder} {FT : FloatText}.

Definition without_mutation (r : MasterCommitResponse) : PreparedMasterCommit := mkPrepared JN r [] [].

Definition with_no_change (o : CommandOutcome) : CommandOutcome := mkOutcome (response o) NoChange.

Definition err_became_empty : PersistenceError :=
  PersistenceError_new (bs "Committed effect derivation became empty after admission").

Definition refused (e : AdmissionError) : CommandOutcome :=
  mkOutcome (RError (AdmissionError_message e)) NoChange.

Definition prepare_command_operation (w : world) (arguments : list bytes)
  : prog (result PersistenceError PreparedCommandOperation) :=
  let keys := affected_keys arguments in
  attempt ← begin_mutation (clock_of w 0) keys;
  outcome ← server_execute_command (stage w 1) arguments;
  first ← derive_committed_batch (clock_of w 2) keys (before_entries attempt) [];
  match first with
  | None => mret (Ok (mkPreparedCommand JN (with_no_change outcome) None None))
  | Some _ =>
    '(attempt, admitted) ← store_admit (clocks_of w 3) (w_nanos w [3%nat]) keys attempt;
    match admitted with
    | Err error =>
      _ ← attempt_rollback (clocks_of w 4) attempt;
      mret (Ok (mkPreparedCommand JN (refused error) None None))
    | Ok _ =>
      second ← derive_committed_batch (clock_of w 5) keys (before_entries attempt)
        (evicted_entries attempt);
      match second with
      | None =>
        _ ← attempt_rollback (clocks_of w 6) attempt;
        mret (Err err_became_empty)
      | Some batch =>
        mret (Ok (mkPreparedCommand JN outcome (Some batch) (Some (attempt_into_rollback attempt))))
      end
    end
  end.

Definition prepare_command (w : world) (arguments : list bytes)
  : prog (result PersistenceError PreparedMasterCommit) :=
  r ← prepare_command_operation w arguments;
  match r with
  | Err error => mret (Err error)
  | Ok prepared =>
    let response := RespCommand (pc_outcome prepared) in
    match pc_batch prepared with
    | None => mret (Ok (without_mutation response))
    | Some batch =>
      match pc_rollback prepared with
      | Some rollback => mret (Ok (mkPrepared JN response [batch] [rollback]))
      | None => panic
      end
    end
  end.

(** Rolls a list of rollbacks back, the last one first. *)
Fixpoint restore_reverse (w : world) (rollbacks : list MutationRollback) : prog unit :=
  match rollbacks with
  | [] => mret tt
  | r :: rest =>
    _ ← restore_reverse (stage w 1) rest;
    rollback_restore (clocks_of w 0) r
  end.

Fixpoint prepare_commands (w : world) (commands : list (list bytes))
    (outcomes : list CommandOutcome) (batches : list CommittedBatch)
    (rollbacks : list MutationRollback)
  : prog (result PersistenceError (list CommandOutcome * list CommittedBatch * list MutationRollback)) :=
  match commands with
  | [] => mret (Ok (outcomes, batches, rollbacks))
  | arguments :: rest =>
    r ← prepare_command_operation (stage w 0) arguments;
    match r with
    | Err error => _ ← restore_reverse (stage w 1) rollbacks; mret (Err error)
    | Ok prepared =>
      match pc_batch prepared, pc_rollback prepared with
      | Some batch, Some rollback =>
        prepare_commands (stage w 2) rest (outcomes ++ [pc_outcome prepared]) (batches ++ [batch])
          (rollbacks ++ [rollback])
      | Some _, None => panic
      | None, _ =>
        prepare_commands (stage w 2) rest (outcomes ++ [pc_outcome prepared]) batches rollbacks
      end
    end
  end.

Definition prepare_command_group (w : world) (commands : list (list bytes))
  : prog (result PersistenceError PreparedMasterCommit) :=
  r ← prepare_commands w commands [] [] [];
  mret (match r with
        | Err error => Err error
        | Ok (outcomes, batches, rollbacks) =>
          match batches with
          | [] => Ok (without_mutation (RespCommandGroup outcomes))
          | _ => Ok (mkPrepared JN (RespCommandGroup outcomes) batches rollbacks)
          end
        end).

(** ** Transactions *)

(** Records keys not seen before, with their entry before the transaction. *)
Fixpoint note_keys (entries : list (bytes * option DataEntry))
    (acc : gmap bytes (option DataEntry) * list bytes)
  : gmap bytes (option DataEntry) * list bytes :=
  match entries with
  | [] => acc
  | (key, previous) :: rest =>
    let '(baseline, changed) := acc in
    if bool_decide (key ∈ changed) then note_keys rest acc
    else note_keys rest (<[key := previous]> baseline, changed ++ [key])
  end.

Fixpoint transaction_commands (w : world) (commands : list (list bytes))
    (acc : gmap bytes (option DataEntry) * list bytes) (results : list RESPValue)
  : prog (gmap bytes (option DataEntry) * list bytes * list RESPValue) :=
  match commands with
  | [] => mret (acc.1, acc.2, results)
  | arguments :: rest =>
    if negb (is_write_command (arg_or_empty arguments 0)) then
      outcome ← server_execute_command (stage w 0) arguments;
      transaction_commands (stage w 9) rest acc (results ++ [response outcome])
    else
      let keys := affected_keys arguments in
      attempt ← begin_mutation (clock_of w 1) keys;
      let acc := note_keys
        (map (fun k => (k, match before_entries attempt !! k with Some o => o | None => None end)) keys)
        acc in
      outcome ← server_execute_command (stage w 2) arguments;
      ob ← derive_committed_batch (clock_of w 3) keys (before_entries attempt) [];
      match ob with
      | None => transaction_commands (stage w 9) rest acc (results ++ [response outcome])
      | Some _ =>
        '(attempt, admitted) ← store_admit (clocks_of w 4) (w_nanos w [4%nat]) keys attempt;
        match admitted with
        | Ok _ =>
          let acc := note_keys
            (map (fun ke : bytes * DataEntry => (ke.1, Some ke.2)) (evicted_entries attempt)) acc in
          transaction_commands (stage w 9) rest acc (results ++ [response outcome])
        | Err error =>
          _ ← attempt_rollback (clocks_of w 5) attempt;
          transaction_commands (stage w 9) rest acc
            (results ++ [RError (AdmissionError_message error)])
        end
      end
  end.

(** Byte-wise order of keys ([changed_keys.sort()]). *)
Definition key_le (a b : bytes) : Prop := OMap.cmp a b <> Gt.
#[global] Instance key_le_dec : RelDecision key_le.
Proof. intros a b. unfold key_le. destruct (OMap.cmp a b); [left|left|right]; congruence. Defined.

Definition prepare_transaction (w : world) (commands : list (list bytes))
  : prog PreparedMasterCommit :=
  '(baseline, changed, results) ← transaction_commands (stage w 0) commands (∅, []) [];
  let changed_keys := merge_sort key_le changed in
  let response := RespTransaction (Array results) in
  ob ← derive_committed_batch (clock_of w 1) changed_keys baseline [];
  mret (match ob with
        | None => without_mutation response
        | Some batch => mkPrepared JN response [batch] [rollback_from_baseline baseline]
        end).

(** ** OBP mutations *)

Definition obp_ok : MasterCommitResponse := RespObp (ObpValue (Blob (bs "OK"))).

Definition prepare_obp_set (w : world) (key v : bytes)
  : prog (result PersistenceError PreparedMasterCommit) :=
  attempt ← begin_mutation (clock_of w 0) [key];
  _ ← set_value (clock_of w 1) key (Blob v) None;
  first ← derive_committed_batch (clock_of w 2) [key] (before_entries attempt) [];
  match first with
  | None => mret (Ok (without_mutation obp_ok))
  | Some _ =>
    '(attempt, admitted) ← store_admit (clocks_of w 3) (w_nanos w [3%nat]) [key] attempt;
    match admitted with
    | Err error =>
      _ ← attempt_rollback (clocks_of w 4) attempt;
      mret (Ok (without_mutation (RespObp (ObpError (AdmissionError_message error)))))
    | Ok _ =>
      second ← derive_committed_batch (clock_of w 5) [key] (before_entries attempt)
        (evicted_entries attempt);
      match second with
      | None =>
        _ ← attempt_rollback (clocks_of w 6) attempt;
        mret (Err (PersistenceError_new (bs "OBP committed effect derivation failed after admission")))
      | Some batch => mret (Ok (mkPrepared JN obp_ok [batch] [attempt_into_rollback attempt]))
      end
    end
  end.

Definition prepare_obp_delete (w : world) (key : bytes) : prog PreparedMasterCommit :=
  attempt ← begin_mutation (clock_of w 0) [key];
  deleted ← delete_bytes (clock_of w 1) key;
  let response := RespObp (ObpValue (Int (if deleted : bool then 1 else 0))) in
  mret (if negb deleted then without_mutation response
        else mkPrepared JN response [mkBatch JN [DeleteKey key]] [attempt_into_rollback attempt]).

Definition prepare_request (w : world) (op : MasterCommitOperation)
  : prog (result PersistenceError PreparedMasterCommit) :=
  match op with
  | OpCommand arguments => prepare_command w arguments
  | OpCommandGroup commands => prepare_command_group w commands
  | OpTransaction commands => p ← prepare_transaction w commands; mret (Ok p)
  | OpObpSet key v => prepare_obp_set w key v
  | OpObpDelete key => p ← prepare_obp_delete w key; mret (Ok p)
  end.

(** ** Groups *)

Definition rollback_prepared (w : world) (prepared : list PreparedMasterCommit) : prog unit :=
  restore_reverse w (concat (map pr_rollbacks prepared)).

Inductive GroupResult {JN : JsonNumber} : Type :=
| GroupCompleted (responses : list MasterCommitResponse) (maintenance : list maintenance_task)
| GroupRejected (e : PersistenceError)
| GroupIndeterminate (e : PersistenceError).

Fixpoint prepare_all (w : world) (ops : list MasterCommitOperation)
    (prepared : list PreparedMasterCommit)
  : prog (result PersistenceError (list PreparedMasterCommit)) :=
  match ops with
  | [] => mret (Ok prepared)
  | op :: rest =>
    r ← prepare_request (stage w 0) op;
    match r with
    | Ok p => prepare_all (stage w 2) rest (prepared ++ [p])
    | Err e => _ ← rollback_prepared (stage w 1) prepared; mret (Err e)
    end
  end.

(** One sequence number per batch, consecutive; [None] when they run out. *)
Fixpoint assign_sequences (next : Z) (batches : list CommittedBatch)
  : option (list (Z * CommittedBatch)) :=
  match batches with
  | [] => Some []
  | b :: rest =>
    match checked_add next 1 with
    | None => None
    | Some s => cons (s, b) <$> assign_sequences s rest
    end
  end.

Definition complete (p : PreparedMasterCommit) : MasterCommitResponse :=
  match pr_batches p with [] => pr_response p | _ => mark_committed (pr_response p) end.

Definition err_exhausted : PersistenceError :=
  PersistenceError_new (bs "Persistence sequence is exhausted").

(** The sequences of a group, for the failure message. *)
Definition group_failure (context : bytes) (batches : list (Z * CommittedBatch)) (error : PersistenceError) : bytes :=
  let first_sequence := match batches with (s, _) :: _ => s | [] => 0 end in
  let last_sequence := match list.last batches with Some (s, _) => s | None => 0 end in
  context ++ bs " for sequences " ++ print_Z first_sequence ++ bs " through " ++ print_Z last_sequence
  ++ bs ": " ++ pe_message error.

(** One group: [seen] is the state before the boundary was acquired and [p] the
    one under it.  Every request is answered with its response, or every one
    with the error. *)
Definition process_commit_group (w : world) (policy : FsyncPolicy) (d : delivery) (seen p : Persistence)
    (ops : list MasterCommitOperation) : prog (Persistence * GroupResult) :=
  if is_fail_stopped seen || negb (accepting_writes seen) then mret (p, GroupRejected (unavailable seen))
  else if negb (accepting_writes p) then mret (p, GroupRejected (unavailable p))
  else
    r ← prepare_all (stage w 0) ops [];
    match r with
    | Err e => mret (mark_persistence_failed (pe_message e) p, GroupRejected e)
    | Ok prepared =>
      match assign_sequences (sequence p) (concat (map pr_batches prepared)) with
      | None =>
        _ ← rollback_prepared (stage w 1) prepared;
        mret (mark_persistence_failed (pe_message err_exhausted) p, GroupRejected err_exhausted)
      | Some [] => mret (p, GroupCompleted (map complete prepared) [])
      | Some batches =>
        match persist_and_publish_master_batches policy d batches p with
        | None => panic
        | Some (p, Ok maintenance) =>
          mret (p, GroupCompleted (map complete prepared) (schedule_maintenance maintenance))
        | Some (p, Err e) =>
          if is_indeterminate e
          then mret (enter_persistence_fail_stop
                       (group_failure (bs "Master commit group persistence is indeterminate") batches e) p,
                     GroupIndeterminate e)
          else
            _ ← rollback_prepared (stage w 1) prepared;
            mret (mark_persistence_failed
                    (group_failure (bs "Master commit group persistence failed") batches e) p,
                  GroupRejected e)
        end
      end
    end.

(** How the worker extends a group from the queue: the requests it takes and
    the one it defers. *)
Fixpoint gather (n mutations input : Z) (queue : list MasterCommitOperation)
  : list MasterCommitOperation * option MasterCommitOperation * list MasterCommitOperation :=
  match queue with
  | [] => ([], None, [])
  | op :: rest =>
    if n <? MAX_COMMIT_GROUP_REQUESTS then
      let projected_mutations := sat_add mutations (logical_mutation_upper_bound op) in
      let projected_bytes := sat_add input (estimated_bytes op) in
      if (MAX_COMMIT_GROUP_LOGICAL_MUTATIONS <? projected_mutations)
         || (MAX_COMMIT_GROUP_INPUT_BYTES <? projected_bytes)
      then ([], Some op, rest)
      else
        let '(taken, deferred, remaining) := gather (n + 1) projected_mutations projected_bytes rest in
        (op :: taken, deferred, remaining)
    else ([], None, queue)
  end.

Definition gather_group (first : MasterCommitOperation) (queue : list MasterCommitOperation)
  : list MasterCommitOperation * option MasterCommitOperation * list MasterCommitOperation :=
  let '(taken, deferred, remaining) :=
    gather 1 (logical_mutation_upper_bound first) (estimated_bytes first) queue in
  (first :: taken, deferred, remaining).

End Preparation.
