(* ===== verification/PubSub.v ===== *)
(** * PubSub: publish and subscribe (src/main.rs)

    One broadcast channel carries every message; a subscriber's connection keeps
    the channels it follows and forwards what it receives on them, and a shared
    table of subscribers per channel tells a publisher how many there are.  The
    operations are the pieces of a connection that run without a wait in between;
    [pubsub_step] interleaves the connections. *)

From Stdlib Require Import ZArith Lia.
From Stdlib Require Import Strings.Byte.
From stdpp Require Import base gmap list strings numbers.
From S2P Require Import Prelude Text Resp.

Open Scope Z_scope.

Definition PUBSUB_CAPACITY : nat := 4096.

(** [pubsub_tx] is everything that was sent, oldest first. *)
Record Hub : Type := mkHub {
  pubsub_tx : list (bytes * bytes);
  next_subscriber_id : Z;
  subscriptions : gmap bytes (gset Z)
}.

Definition hub_new : Hub := mkHub [] 0 ∅.

Definition followers (h : Hub) (channel : bytes) : gset Z :=
  match subscriptions h !! channel with Some s => s | None => ∅ end.

(** ** PUBLISH *)

Definition publish_message (channel message : bytes) (h : Hub) : Hub * RESPValue :=
  let receiver_count := Z.of_nat (size (followers h channel)) in
  (mkHub (pubsub_tx h ++ [(channel, message)]) (next_subscriber_id h) (subscriptions h), Integer receiver_count).

(** ** The table *)

(** [entry(channel).or_default().insert(sub_id)]. *)
Definition register (channel : bytes) (sub_id : Z) (h : Hub) : Hub :=
  mkHub (pubsub_tx h) (next_subscriber_id h) (<[channel := {[sub_id]} ∪ followers h channel]> (subscriptions h)).

(** [get_mut(channel)] and [remove(sub_id)]: the entry of the channel stays. *)
Definition unregister (channel : bytes) (sub_id : Z) (h : Hub) : Hub :=
  match subscriptions h !! channel with
  | Some s => mkHub (pubsub_tx h) (next_subscriber_id h) (<[channel := s ∖ {[sub_id]}]> (subscriptions h))
  | None => h
  end.

Definition take_id (h : Hub) : Hub * Z :=
  (mkHub (pubsub_tx h) (next_subscriber_id h + 1) (subscriptions h), next_subscriber_id h + 1).

Definition confirmation (kind channel : bytes) (count : nat) : RESPValue :=
  Array [BulkString (Some kind); BulkString (Some channel); Integer (Z.of_nat count)].

(** ** SUBSCRIBE *)

(** The confirmations of the first SUBSCRIBE; [write_succeeds] tells of each
    write whether it succeeds, and [false] is the early return. *)
Fixpoint subscribe_first (write_succeeds : nat -> bool) (n : nat) (sub_id : Z) (channels : list bytes)
    (mine : gset bytes) (h : Hub) : Hub * gset bytes * list RESPValue * bool :=
  match channels with
  | [] => (h, mine, [], true)
  | channel :: rest =>
    let mine := {[channel]} ∪ mine in
    let h := register channel sub_id h in
    if write_succeeds n then
      let '(h, mine', out, ok) := subscribe_first write_succeeds (S n) sub_id rest mine h in
      (h, mine', confirmation (bs "subscribe") channel (size mine) :: out, ok)
    else (h, mine, [], false)
  end.

(** A later SUBSCRIBE: a write that fails leaves the loop over the channels. *)
Fixpoint subscribe_more (write_succeeds : nat -> bool) (n : nat) (sub_id : Z) (channels : list bytes)
    (mine : gset bytes) (h : Hub) : Hub * gset bytes * list RESPValue :=
  match channels with
  | [] => (h, mine, [])
  | channel :: rest =>
    let h := if bool_decide (channel ∈ mine) then h else register channel sub_id h in
    let mine := {[channel]} ∪ mine in
    if write_succeeds n then
      let '(h, mine', out) := subscribe_more write_succeeds (S n) sub_id rest mine h in
      (h, mine', confirmation (bs "subscribe") channel (size mine) :: out)
    else (h, mine, [])
  end.

Fixpoint unsubscribe_channels (write_succeeds : nat -> bool) (n : nat) (sub_id : Z) (targets : list bytes)
    (mine : gset bytes) (h : Hub) : Hub * gset bytes * list RESPValue :=
  match targets with
  | [] => (h, mine, [])
  | channel :: rest =>
    let mine := mine ∖ {[channel]} in
    let h := unregister channel sub_id h in
    if write_succeeds n then
      let '(h, mine', out) := unsubscribe_channels write_succeeds (S n) sub_id rest mine h in
      (h, mine', confirmation (bs "unsubscribe") channel (size mine) :: out)
    else (h, mine, [])
  end.

(** UNSUBSCRIBE without channels leaves all of them, in the set's order. *)
Definition unsubscribe {HO : HashOrder} (write_succeeds : nat -> bool) (sub_id : Z) (channels : list bytes)
    (mine : gset bytes) (h : Hub) : Hub * gset bytes * list RESPValue :=
  unsubscribe_channels write_succeeds 0 sub_id (match channels with [] => hs_iter mine | _ => channels end) mine h.

(** The clean-up when the subscriber's loop is over. *)
Definition leave_channels {HO : HashOrder} (sub_id : Z) (mine : gset bytes) (h : Hub) : Hub :=
  fold_left (fun h channel => unregister channel sub_id h) (hs_iter mine) h.

(** ** Receiving *)

Definition message_text (channel payload : bytes) : RESPValue :=
  Array [BulkString (Some (bs "message")); BulkString (Some channel); BulkString (Some payload)].

(** What a receiver at position [cursor] gets: the next message, or the news that
    it fell behind by more than the channel holds, which moves it to the oldest
    message that is still there. *)
Inductive received : Type :=
| Message (channel payload : bytes)
| Lagged
| NotYet.

Definition receive (h : Hub) (cursor : nat) : received * nat :=
  let sent := length (pubsub_tx h) in
  if bool_decide (cursor + PUBSUB_CAPACITY < sent)%nat then (Lagged, (sent - PUBSUB_CAPACITY)%nat)
  else
    match pubsub_tx h !! cursor with
    | Some (channel, payload) => (Message channel payload, S cursor)
    | None => (NotYet, cursor)
    end.

(** ** Connections side by side *)

(** A subscriber: its channels and, once the receiver exists, the position of it;
    [sent_to] is what it was sent after the confirmations. *)
Record Subscriber : Type := mkSubscriber {
  my_channels : gset bytes;
  cursor : option nat;
  sent_to : list (bytes * bytes)
}.

Record pubsub : Type := mkPubsub {
  hub : Hub;
  live : gmap Z Subscriber
}.

Inductive pubsub_event : Type :=
| EPublish (channel message : bytes)
| ESubscribe (channels : list bytes) (write_succeeds : nat -> bool)
| EAttach (sub_id : Z)
| ESubscribeMore (sub_id : Z) (channels : list bytes) (write_succeeds : nat -> bool)
| EUnsubscribe (sub_id : Z) (channels : list bytes) (write_succeeds : nat -> bool)
| EReceive (sub_id : Z)
| EEnd (sub_id : Z).

Inductive pubsub_step {HO : HashOrder} : pubsub -> pubsub_event -> pubsub -> Prop :=
| step_publish s channel message :
    pubsub_step s (EPublish channel message) (mkPubsub (publish_message channel message (hub s)).1 (live s))
| step_subscribe s channels ws h id h' mine out :
    take_id (hub s) = (h, id) -> subscribe_first ws 0 id channels ∅ h = (h', mine, out, true) ->
    pubsub_step s (ESubscribe channels ws) (mkPubsub h' (<[id := mkSubscriber mine None []]> (live s)))
| step_subscribe_fails s channels ws h id h' mine out :
    take_id (hub s) = (h, id) -> subscribe_first ws 0 id channels ∅ h = (h', mine, out, false) ->
    pubsub_step s (ESubscribe channels ws) (mkPubsub h' (live s))
| step_attach s id mine sent :
    live s !! id = Some (mkSubscriber mine None sent) ->
    pubsub_step s (EAttach id)
      (mkPubsub (hub s) (<[id := mkSubscriber mine (Some (length (pubsub_tx (hub s)))) sent]> (live s)))
| step_subscribe_more s id mine c sent channels ws h' mine' out :
    live s !! id = Some (mkSubscriber mine (Some c) sent) ->
    subscribe_more ws 0 id channels mine (hub s) = (h', mine', out) ->
    pubsub_step s (ESubscribeMore id channels ws) (mkPubsub h' (<[id := mkSubscriber mine' (Some c) sent]> (live s)))
| step_unsubscribe s id mine c sent channels ws h' mine' out :
    live s !! id = Some (mkSubscriber mine (Some c) sent) ->
    unsubscribe ws id channels mine (hub s) = (h', mine', out) ->
    pubsub_step s (EUnsubscribe id channels ws) (mkPubsub h' (<[id := mkSubscriber mine' (Some c) sent]> (live s)))
| step_receive s id mine c sent r c' :
    live s !! id = Some (mkSubscriber mine (Some c) sent) ->
    receive (hub s) c = (r, c') ->
    pubsub_step s (EReceive id)
      (mkPubsub (hub s) (<[id := mkSubscriber mine (Some c')
        (match r with
         | Message channel payload => if bool_decide (channel ∈ mine) then sent ++ [(channel, payload)] else sent
         | _ => sent
         end)]> (live s)))
| step_end s id sub :
    live s !! id = Some sub ->
    pubsub_step s (EEnd id) (mkPubsub (leave_channels id (my_channels sub) (hub s)) (delete id (live s))).

Inductive pubsub_run {HO : HashOrder} : pubsub -> list pubsub_event -> pubsub -> Prop :=
| run_nil s : pubsub_run s [] s
| run_cons s e s1 l s2 : pubsub_step s e s1 -> pubsub_run s1 l s2 -> pubsub_run s (e :: l) s2.

(** * The table of subscribers and the order of delivery *)

Section PubSubSpec.
Context {HO : HashOrder}.

(** The table has [id] under exactly the channels [mine]. *)
Definition tracks (id : Z) (mine : gset bytes) (h : Hub) : Prop :=
  forall c, id ∈ followers h c <-> c ∈ mine.

(** An operation of the subscriber [id]: nothing but its own entries changes. *)
Record updates (id : Z) (mine mine' : gset bytes) (h h' : Hub) : Prop := {
  up_sent : pubsub_tx h' = pubsub_tx h;
  up_next : next_subscriber_id h' = next_subscriber_id h;
  up_others : forall i c, i <> id -> i ∈ followers h' c <-> i ∈ followers h c;
  up_tracks : tracks id mine h -> tracks id mine' h'
}.

Lemma updates_refl id mine h : updates id mine mine h h.
Proof. by constructor. Qed.

Lemma updates_trans id m1 m2 m3 h1 h2 h3 :
  updates id m1 m2 h1 h2 -> updates id m2 m3 h2 h3 -> updates id m1 m3 h1 h3.
Proof.
  intros [A1 A2 A3 A4] [B1 B2 B3 B4]. constructor; [congruence|congruence| |by auto].
  intros i c Hi. by rewrite B3, A3.
Qed.

Lemma followers_register h channel id c :
  followers (register channel id h) c = if bool_decide (channel = c) then {[id]} ∪ followers h c else followers h c.
Proof.
  unfold followers, register. cbn [subscriptions]. case_bool_decide as Hc.
  - subst c. by rewrite lookup_insert_eq.
  - by rewrite lookup_insert_ne.
Qed.

Lemma followers_unregister h channel id c :
  followers (unregister channel id h) c = if bool_decide (channel = c) then followers h c ∖ {[id]} else followers h c.
Proof.
  unfold unregister. destruct (subscriptions h !! channel) as [s|] eqn:E; case_bool_decide as Hc; unfold followers; cbn [subscriptions].
  - subst c. by rewrite lookup_insert_eq, E.
  - by rewrite lookup_insert_ne.
  - subst c. rewrite E. set_solver.
  - done.
Qed.

Lemma register_updates id mine channel h : updates id mine ({[channel]} ∪ mine) h (register channel id h).
Proof.
  constructor; [done|done| |].
  - intros i c Hi. rewrite followers_register. case_bool_decide; set_solver.
  - intros Ht c. rewrite followers_register. specialize (Ht c). case_bool_decide; set_solver.
Qed.

Lemma unregister_updates id mine channel h : updates id mine (mine ∖ {[channel]}) h (unregister channel id h).
Proof.
  constructor; [by unfold unregister; destruct (_ !! _)..| |].
  - intros i c Hi. rewrite followers_unregister. case_bool_decide; set_solver.
  - intros Ht c. rewrite followers_unregister. specialize (Ht c). case_bool_decide; set_solver.
Qed.

Lemma subscribe_first_updates ws n id channels mine h h' mine' out ok :
  subscribe_first ws n id channels mine h = (h', mine', out, ok) -> updates id mine mine' h h'.
Proof.
  revert n mine h out. induction channels as [|c rest IH]; intros n mine h out; cbn [subscribe_first].
  { intros [= <- <- _ _]. apply updates_refl. }
  pose proof (register_updates id mine c h) as H1. destruct (ws n).
  - destruct (subscribe_first ws (S n) id rest _ _) as [[[h2 m2] out2] ok2] eqn:E. intros [= <- <- _ <-].
    eapply updates_trans; [exact H1|by eapply IH].
  - by intros [= <- <- _ _].
Qed.

Lemma subscribe_more_updates ws n id channels mine h h' mine' out :
  subscribe_more ws n id channels mine h = (h', mine', out) -> updates id mine mine' h h'.
Proof.
  revert n mine h out. induction channels as [|c rest IH]; intros n mine h out; cbn [subscribe_more].
  { intros [= <- <- _]. apply updates_refl. }
  set (h1 := if bool_decide (c ∈ mine) then h else register c id h).
  assert (H1 : updates id mine ({[c]} ∪ mine) h h1).
  { unfold h1. case_bool_decide; [|apply register_updates].
    replace ({[c]} ∪ mine) with mine by set_solver. apply updates_refl. }
  destruct (ws n).
  - destruct (subscribe_more ws (S n) id rest _ h1) as [[h2 m2] out2] eqn:E. intros [= <- <- _].
    eapply updates_trans; [exact H1|by eapply IH].
  - by intros [= <- <- _].
Qed.

Lemma unsubscribe_updates ws n id channels mine h h' mine' out :
  unsubscribe_channels ws n id channels mine h = (h', mine', out) -> updates id mine mine' h h'.
Proof.
  revert n mine h out. induction channels as [|c rest IH]; intros n mine h out; cbn [unsubscribe_channels].
  { intros [= <- <- _]. apply updates_refl. }
  pose proof (unregister_updates id mine c h) as H1. destruct (ws n).
  - destruct (unsubscribe_channels ws (S n) id rest _ _) as [[h2 m2] out2] eqn:E. intros [= <- <- _].
    eapply updates_trans; [exact H1|by eapply IH].
  - by intros [= <- <- _].
Qed.

Lemma leave_updates id mine h : updates id mine ∅ h (leave_channels id mine h).
Proof.
  unfold leave_channels. assert (Hel : forall c, c ∈ hs_iter mine <-> c ∈ mine).
  { intros c. rewrite hs_iter_perm. apply elem_of_elements. }
  generalize dependent (hs_iter mine). intros l.
  assert (H : forall l m h, updates id m (m ∖ list_to_set l) h (fold_left (fun h c => unregister c id h) l h)).
  { clear. intros l. induction l as [|c l IH]; intros m h; cbn [fold_left list_to_set].
    - replace (m ∖ ∅) with m by set_solver. apply updates_refl.
    - replace (m ∖ ({[c]} ∪ list_to_set l)) with ((m ∖ {[c]}) ∖ list_to_set l) by set_solver.
      eapply updates_trans; [apply unregister_updates|apply IH]. }
  intros Hel. replace (∅ : gset bytes) with (mine ∖ list_to_set l) by set_solver. apply H.
Qed.

Lemma subscribe_first_succeeds ws n id channels mine h :
  (forall k, ws k = true) -> (subscribe_first ws n id channels mine h).2 = true.
Proof.
  intros Hws. revert n mine h. induction channels as [|c rest IH]; intros n mine h; cbn [subscribe_first]; [done|].
  rewrite Hws. specialize (IH (S n) ({[c]} ∪ mine) (register c id h)).
  by destruct (subscribe_first ws (S n) id rest _ _) as [[[? ?] ?] ?].
Qed.

(** ** The table is exact *)

Record exact (s : pubsub) : Prop := {
  ex_table : forall id c, id ∈ followers (hub s) c <-> exists sub, live s !! id = Some sub /\ c ∈ my_channels sub;
  ex_ids : forall id, is_Some (live s !! id) -> id <= next_subscriber_id (hub s)
}.

(** No SUBSCRIBE that starts a subscriber loses a confirmation. *)
Definition confirmed (e : pubsub_event) : Prop :=
  match e with ESubscribe _ ws => forall n, ws n = true | _ => True end.

(** A step of one subscriber. *)
Lemma exact_own s id sub h' sub' :
  exact s -> live s !! id = Some sub -> updates id (my_channels sub) (my_channels sub') (hub s) h' ->
  exact (mkPubsub h' (<[id := sub']> (live s))).
Proof.
  intros [H1 H2] Hl [_ Hn Ho Ht]. constructor; cbn [hub live].
  - intros i c. destruct (decide (i = id)) as [->|Hi].
    + rewrite lookup_insert_eq. assert (Htr : tracks id (my_channels sub) (hub s)).
      { intros c'. rewrite H1. split; [intros (? & E & ?); congruence|eauto]. }
      rewrite (Ht Htr c). split; [eauto|]. by intros (? & [= <-] & ?).
    + rewrite Ho, lookup_insert_ne by done. apply H1.
  - intros i Hi. rewrite Hn. apply H2. destruct (decide (i = id)) as [->|Hne]; [by rewrite Hl|by rewrite lookup_insert_ne in Hi].
Qed.

Lemma exact_step s e s' : exact s -> confirmed e -> pubsub_step s e s' -> exact s'.
Proof.
  intros Hex Hc H. destruct H as [s channel message|s channels ws h id h' mine out Et Es|s channels ws h id h' mine out Et Es
    |s id mine sent Hl|s id mine c sent channels ws h' mine' out Hl Es|s id mine c sent channels ws h' mine' out Hl Es
    |s id mine c sent r c' Hl Er|s id sub Hl].
  - destruct Hex as [H1 H2]. by constructor.
  - destruct Hex as [H1 H2]. injection Et as <- <-. apply subscribe_first_updates in Es as [_ Hn Ho Ht].
    cbn [next_subscriber_id] in Hn.
    assert (Hfresh : live s !! (next_subscriber_id (hub s) + 1) = None).
    { apply eq_None_not_Some. intros Hs. apply H2 in Hs. lia. }
    constructor; cbn [hub live].
    + intros i c. destruct (decide (i = next_subscriber_id (hub s) + 1)) as [->|Hi].
      * rewrite lookup_insert_eq. rewrite (Ht ltac:(intros c'; change (followers _ c') with (followers (hub s) c');
          rewrite H1, Hfresh; split; [by intros (? & ? & _)|set_solver]) c).
        split; [eauto|]. by intros (? & [= <-] & ?).
      * rewrite Ho, lookup_insert_ne by done. apply H1.
    + intros i Hi. rewrite Hn. destruct (decide (i = next_subscriber_id (hub s) + 1)) as [->|Hne]; [lia|].
      rewrite lookup_insert_ne in Hi by done. apply H2 in Hi. lia.
  - exfalso. pose proof (subscribe_first_succeeds ws 0 id channels ∅ h Hc) as Hok. by rewrite Es in Hok.
  - by eapply exact_own; [|exact Hl|apply updates_refl].
  - eapply exact_own; [done|exact Hl|by eapply subscribe_more_updates].
  - eapply exact_own; [done|exact Hl|by eapply unsubscribe_updates].
  - by eapply exact_own; [|exact Hl|apply updates_refl].
  - destruct Hex as [H1 H2]. destruct (leave_updates id (my_channels sub) (hub s)) as [_ Hn Ho Ht].
    constructor; cbn [hub live].
    + intros i c. destruct (decide (i = id)) as [->|Hi].
      * rewrite lookup_delete_eq. rewrite (Ht ltac:(intros c'; rewrite H1; split; [intros (? & E & ?); congruence|eauto]) c).
        split; [set_solver|by intros (? & ? & _)].
      * rewrite Ho, lookup_delete_ne by done. apply H1.
    + intros i Hi. rewrite Hn. apply H2. destruct (decide (i = id)) as [->|Hne];
        [by rewrite lookup_delete_eq in Hi; destruct Hi|by rewrite lookup_delete_ne in Hi].
Qed.

Lemma exact_run s l s' : exact s -> Forall confirmed l -> pubsub_run s l s' -> exact s'.
Proof.
  intros Hex Hl H. induction H as [s|s e s1 l s2 H1 _ IH]; [done|].
  apply list.Forall_cons in Hl as [Hc Hl]. apply IH; [by eapply exact_step|done].
Qed.

Lemma exact_new : exact (mkPubsub hub_new ∅).
Proof.
  constructor; cbn [hub live].
  - intros id c. split; [|by intros (sub & ? & _)]. unfold followers. cbn. rewrite lookup_empty. set_solver.
  - intros id [x Hx]. done.
Qed.

(** The subscribers of a channel. *)
Definition listeners (s : pubsub) (c : bytes) : gset Z :=
  dom (filter (fun p : Z * Subscriber => c ∈ my_channels p.2) (live s)).

Lemma exact_listeners s c : exact s -> followers (hub s) c = listeners s c.
Proof.
  intros [H _]. apply set_eq. intros id. rewrite H. unfold listeners. rewrite elem_of_dom. split.
  - intros (sub & E & Hc). exists sub. by apply map_lookup_filter_Some.
  - intros (sub & [E Hc]%map_lookup_filter_Some). eauto.
Qed.

(** ** A subscriber that was never confirmed *)

(** The table has [id], which no connection will ever remove. *)
Record abandoned (id : Z) (c : bytes) (s : pubsub) : Prop := {
  ab_listed : id ∈ followers (hub s) c;
  ab_dead : live s !! id = None;
  ab_old : id <= next_subscriber_id (hub s)
}.

Lemma abandoned_own id c i s h' mine mine' sub' :
  abandoned id c s -> is_Some (live s !! i) -> updates i mine mine' (hub s) h' ->
  abandoned id c (mkPubsub h' (<[i := sub']> (live s))).
Proof.
  intros [H1 H2 H3] Hi [_ Hn Ho _]. assert (Hne : id <> i) by (intros ->; rewrite H2 in Hi; by destruct Hi).
  constructor; cbn [hub live]; [by apply Ho|by rewrite lookup_insert_ne|lia].
Qed.

Lemma abandoned_step id c s e s' : abandoned id c s -> pubsub_step s e s' -> abandoned id c s'.
Proof.
  intros Hab H. destruct H as [s channel message|s channels ws h i h' mine out Et Es|s channels ws h i h' mine out Et Es
    |s i mine sent Hl|s i mine k sent channels ws h' mine' out Hl Es|s i mine k sent channels ws h' mine' out Hl Es
    |s i mine k sent r k' Hl Er|s i sub Hl].
  - destruct Hab as [H1 H2 H3]. by constructor.
  - destruct Hab as [H1 H2 H3]. injection Et as <- <-. apply subscribe_first_updates in Es as [_ Hn Ho _].
    cbn [next_subscriber_id] in Hn. assert (Hne : id <> next_subscriber_id (hub s) + 1) by lia.
    constructor; cbn [hub live]; [by apply Ho|by rewrite lookup_insert_ne|lia].
  - destruct Hab as [H1 H2 H3]. injection Et as <- <-. apply subscribe_first_updates in Es as [_ Hn Ho _].
    cbn [next_subscriber_id] in Hn. constructor; cbn [hub live]; [apply Ho; [lia|done]|done|lia].
  - eapply abandoned_own; [done|by rewrite Hl|apply (updates_refl _ ∅)].
  - eapply abandoned_own; [done|by rewrite Hl|by eapply subscribe_more_updates].
  - eapply abandoned_own; [done|by rewrite Hl|by eapply unsubscribe_updates].
  - eapply abandoned_own; [done|by rewrite Hl|apply (updates_refl _ ∅)].
  - destruct Hab as [H1 H2 H3]. destruct (leave_updates i (my_channels sub) (hub s)) as [_ Hn Ho _].
    assert (Hne : id <> i) by congruence.
    constructor; cbn [hub live]; [by apply Ho|by rewrite lookup_delete_ne|lia].
Qed.

Lemma abandoned_run id c s l s' : abandoned id c s -> pubsub_run s l s' -> abandoned id c s'.
Proof. intros Hab H. induction H; [done|]. apply IHpubsub_run. by eapply abandoned_step. Qed.

(** ** Delivery *)

(** Between two states of a subscriber: what it was sent in between, in order and
    without repetition, are messages from its position on. *)
Definition delivers (id : Z) (k : nat) (sent : list (bytes * bytes)) (s : pubsub) : Prop :=
  match live s !! id with
  | Some sub =>
    exists k' new, cursor sub = Some k' /\ (k <= k')%nat /\ sent_to sub = sent ++ new /\
      new `sublist_of` take (k' - k) (drop k (pubsub_tx (hub s)))
  | None => id <= next_subscriber_id (hub s)
  end.

Lemma prefix_is_sublist {A} (l m : list A) : l `prefix_of` m -> l `sublist_of` m.
Proof. intros [k ->]. by apply sublist_inserts_r. Qed.

Lemma take_more {A} (l m : list A) k k' :
  take (k' - k) (drop k l) `prefix_of` take (k' - k) (drop k (l ++ m)).
Proof.
  destruct (decide (k <= length l)%nat).
  - rewrite drop_app_le by done. rewrite take_app. apply prefix_app_r. done.
  - rewrite drop_ge by lia. rewrite take_nil. apply prefix_nil.
Qed.

Lemma receive_spec h k r k' :
  receive h k = (r, k') ->
  match r with
  | Message c m => pubsub_tx h !! k = Some (c, m) /\ k' = S k
  | Lagged => (k <= k')%nat
  | NotYet => k' = k
  end.
Proof.
  unfold receive. case_bool_decide as Hl; [intros [= <- <-]; lia|].
  destruct (pubsub_tx h !! k) as [[c m]|] eqn:E; by intros [= <- <-].
Qed.

Lemma delivers_step id k sent s e s' :
  id <= next_subscriber_id (hub s) -> delivers id k sent s -> pubsub_step s e s' ->
  delivers id k sent s' /\ id <= next_subscriber_id (hub s').
Proof.
  intros Hold Hd H. unfold delivers in *.
  destruct H as [s channel message|s channels ws h i h' mine out Et Es|s channels ws h i h' mine out Et Es
    |s i mine snt Hl|s i mine j snt channels ws h' mine' out Hl Es|s i mine j snt channels ws h' mine' out Hl Es
    |s i mine j snt r j' Hl Er|s i sub Hl]; cbn [hub live].
  - split; [|done]. destruct (live s !! id) as [sub|]; [|done]. destruct Hd as (k' & new & H1 & H2 & H3 & H4).
    exists k', new. split_and!; try done. cbn [publish_message fst pubsub_tx]. etrans; [exact H4|].
    apply prefix_is_sublist, take_more.
  - injection Et as <- <-. apply subscribe_first_updates in Es as [Hs Hn _ _]. cbn in Hn, Hs.
    rewrite lookup_insert_ne by lia. split; [|lia]. destruct (live s !! id); [by rewrite Hs|lia].
  - injection Et as <- <-. apply subscribe_first_updates in Es as [Hs Hn _ _]. cbn in Hn, Hs.
    split; [|lia]. destruct (live s !! id); [by rewrite Hs|lia].
  - split; [|done]. destruct (decide (i = id)) as [->|Hi]; [|by rewrite lookup_insert_ne].
    rewrite Hl in Hd. by destruct Hd as (k' & new & ? & _).
  - apply subscribe_more_updates in Es as [Hs Hn _ _]. rewrite Hn, Hs. split; [|done].
    destruct (decide (i = id)) as [->|Hi]; [|by rewrite lookup_insert_ne].
    rewrite Hl in Hd. by rewrite lookup_insert_eq.
  - apply unsubscribe_updates in Es as [Hs Hn _ _]. rewrite Hn, Hs. split; [|done].
    destruct (decide (i = id)) as [->|Hi]; [|by rewrite lookup_insert_ne].
    rewrite Hl in Hd. by rewrite lookup_insert_eq.
  - split; [|done]. destruct (decide (i = id)) as [->|Hi]; [|by rewrite lookup_insert_ne].
    rewrite Hl in Hd. rewrite lookup_insert_eq. destruct Hd as (k' & new & H1 & H2 & H3 & H4). injection H1 as ->.
    cbn [cursor sent_to] in *. apply receive_spec in Er. destruct r as [c m| |].
    + destruct Er as [Hk ->]. assert (Hlast : take (S k' - k) (drop k (pubsub_tx (hub s))) =
        take (k' - k) (drop k (pubsub_tx (hub s))) ++ [(c, m)]).
      { replace (S k' - k)%nat with (S (k' - k)) by lia. apply take_S_r. rewrite lookup_drop. by replace (k + (k' - k))%nat with k' by lia. }
      case_bool_decide.
      * exists (S k'), (new ++ [(c, m)]). split_and!; [done|lia|by rewrite H3, (assoc_L (++))|]. rewrite Hlast.
        by apply sublist_app.
      * exists (S k'), new. split_and!; [done|lia|done|]. rewrite Hlast. by apply sublist_inserts_r.
    + exists j', new. split_and!; [done|lia|done|]. etrans; [exact H4|]. apply prefix_is_sublist.
      exists (drop (k' - k) (take (j' - k) (drop k (pubsub_tx (hub s))))).
      rewrite <- (take_drop (k' - k) (take (j' - k) (drop k (pubsub_tx (hub s))))) at 1. f_equal.
      rewrite take_take. f_equal. lia.
    + subst j'. exists k', new. done.
  - destruct (leave_updates i (my_channels sub) (hub s)) as [Hs Hn _ _]. rewrite Hn, Hs. split; [|done].
    destruct (decide (i = id)) as [->|Hi]; [by rewrite lookup_delete_eq|by rewrite lookup_delete_ne].
Qed.

Lemma delivers_run id k sent s l s' :
  id <= next_subscriber_id (hub s) -> delivers id k sent s -> pubsub_run s l s' -> delivers id k sent s'.
Proof.
  intros Hold Hd H. induction H as [s|s e s1 l s2 H1 _ IH]; [done|].
  destruct (delivers_step _ _ _ _ _ _ Hold Hd H1) as [Hd' Hold']. by apply IH.
Qed.

(** A subscriber that follows the same channels and has not fallen behind was
    sent every message on them up to its position. *)
Definition delivers_all (id : Z) (k : nat) (mine : gset bytes) (sent : list (bytes * bytes)) (s : pubsub) : Prop :=
  match live s !! id with
  | Some sub =>
    my_channels sub = mine /\
    exists k', cursor sub = Some k' /\ (k <= k' <= length (pubsub_tx (hub s)))%nat /\
      sent_to sub = sent ++ filter (fun m : bytes * bytes => m.1 ∈ mine) (take (k' - k) (drop k (pubsub_tx (hub s))))
  | None => True
  end.

Definition same_channels (id : Z) (e : pubsub_event) : Prop :=
  match e with ESubscribeMore i _ _ | EUnsubscribe i _ _ => i <> id | _ => True end.

Lemma step_grows s e s' :
  pubsub_step s e s' -> (length (pubsub_tx (hub s)) <= length (pubsub_tx (hub s')))%nat.
Proof.
  destruct 1 as [s channel message|s channels ws h i h' mine out Et Es|s channels ws h i h' mine out Et Es
    |s i mine snt Hl|s i mine j snt channels ws h' mine' out Hl Es|s i mine j snt channels ws h' mine' out Hl Es
    |s i mine j snt r j' Hl Er|s i sub Hl]; cbn [hub]; try done.
  - cbn. rewrite length_app. lia.
  - injection Et as <- <-. apply subscribe_first_updates in Es as [Hs _ _ _]. by rewrite Hs.
  - injection Et as <- <-. apply subscribe_first_updates in Es as [Hs _ _ _]. by rewrite Hs.
  - apply subscribe_more_updates in Es as [Hs _ _ _]. by rewrite Hs.
  - apply unsubscribe_updates in Es as [Hs _ _ _]. by rewrite Hs.
  - destruct (leave_updates i (my_channels sub) (hub s)) as [Hs _ _ _]. by rewrite Hs.
Qed.

Lemma run_grows s l s' : pubsub_run s l s' -> (length (pubsub_tx (hub s)) <= length (pubsub_tx (hub s')))%nat.
Proof. induction 1 as [s|s e s1 l s2 H1 _ IH]; [done|]. apply step_grows in H1. lia. Qed.

Lemma delivers_all_step id k mine sent s e s' :
  id <= next_subscriber_id (hub s) -> delivers_all id k mine sent s -> same_channels id e ->
  (length (pubsub_tx (hub s)) <= k + PUBSUB_CAPACITY)%nat -> pubsub_step s e s' ->
  delivers_all id k mine sent s' /\ id <= next_subscriber_id (hub s').
Proof.
  intros Hold Hd He Hcap H. unfold delivers_all in *.
  destruct H as [s channel message|s channels ws h i h' mine' out Et Es|s channels ws h i h' mine' out Et Es
    |s i m snt Hl|s i m j snt channels ws h' mine' out Hl Es|s i m j snt channels ws h' mine' out Hl Es
    |s i m j snt r j' Hl Er|s i sub Hl]; cbn [hub live].
  - split; [|done]. destruct (live s !! id) as [sub|]; [|done]. destruct Hd as (H1 & k' & H2 & H3 & H4). split; [done|].
    exists k'. cbn [publish_message fst pubsub_tx]. rewrite length_app. split_and!; [done|lia|lia|].
    rewrite H4. f_equal. f_equal. rewrite drop_app_le by lia. rewrite take_app_le; [done|]. rewrite length_drop. lia.
  - injection Et as <- <-. apply subscribe_first_updates in Es as [Hs Hn _ _]. cbn in Hn, Hs.
    rewrite lookup_insert_ne, Hs by lia. split; [done|lia].
  - injection Et as <- <-. apply subscribe_first_updates in Es as [Hs Hn _ _]. cbn in Hn, Hs. rewrite Hs. split; [done|lia].
  - split; [|done]. destruct (decide (i = id)) as [->|Hi]; [|by rewrite lookup_insert_ne].
    rewrite Hl in Hd. by destruct Hd as (_ & k' & ? & _).
  - apply subscribe_more_updates in Es as [Hs Hn _ _]. rewrite Hn, Hs. split; [|done]. cbn in He. by rewrite lookup_insert_ne.
  - apply unsubscribe_updates in Es as [Hs Hn _ _]. rewrite Hn, Hs. split; [|done]. cbn in He. by rewrite lookup_insert_ne.
  - split; [|done]. destruct (decide (i = id)) as [->|Hi]; [|by rewrite lookup_insert_ne].
    rewrite Hl in Hd. rewrite lookup_insert_eq. cbn [my_channels cursor sent_to] in *. destruct Hd as (<- & k' & H2 & H3 & H4).
    injection H2 as ->. split; [done|]. unfold receive in Er. rewrite bool_decide_eq_false_2 in Er by lia.
    destruct (pubsub_tx (hub s) !! k') as [[c x]|] eqn:Ek; injection Er as <- <-.
    + exists (S k'). pose proof (lookup_lt_Some _ _ _ Ek). split_and!; [done|lia|lia|].
      assert (Hlast : take (S k' - k) (drop k (pubsub_tx (hub s))) = take (k' - k) (drop k (pubsub_tx (hub s))) ++ [(c, x)]).
      { replace (S k' - k)%nat with (S (k' - k)) by lia. apply take_S_r. rewrite lookup_drop. by replace (k + (k' - k))%nat with k' by lia. }
      rewrite Hlast, list.filter_app, list.filter_cons, list.filter_nil. rewrite H4. cbn [fst].
      case_bool_decide; case_decide; try done; by rewrite ?(assoc_L (++)), ?app_nil_r.
    + exists k'. done.
  - destruct (leave_updates i (my_channels sub) (hub s)) as [Hs Hn _ _]. rewrite Hn, Hs. split; [|done].
    destruct (decide (i = id)) as [->|Hi]; [by rewrite lookup_delete_eq|by rewrite lookup_delete_ne].
Qed.

Lemma delivers_all_run id k mine sent s l s' :
  id <= next_subscriber_id (hub s) -> delivers_all id k mine sent s -> Forall (same_channels id) l ->
  (length (pubsub_tx (hub s')) <= k + PUBSUB_CAPACITY)%nat -> pubsub_run s l s' -> delivers_all id k mine sent s'.
Proof.
  intros Hold Hd Hl Hcap H. induction H as [s|s e s1 l s2 H1 H2 IH]; [done|].
  apply list.Forall_cons in Hl as [He Hl]. pose proof (run_grows _ _ _ H2). pose proof (step_grows _ _ _ H1).
  destruct (delivers_all_step id k mine sent s e s1) as [Hd' Hold']; try done; [lia|]. by apply IH.
Qed.

End PubSubSpec.
