(* ===== verification/Config.v ===== *)
(** * Config: the server's options (src/config.rs)

    The command line, with the environment variables it takes precedence over,
    and what is checked before the server starts. *)

From Stdlib Require Import ZArith Lia.
From Stdlib Require Import Strings.Byte.
From stdpp Require Import base gmap list strings numbers.
From S2P Require Import Prelude Text Json JsonPath Value Shard BinlogIo.

Open Scope Z_scope.

Definition DEFAULT_PORT : Z := 6380.
Definition DEFAULT_FAILOVER_TIMEOUT_SECS : Z := 30.
Definition METRICS_PORT_OFFSET : Z := 1000.
Definition MAX_SERVER_PORT : Z := U16_MAX - METRICS_PORT_OFFSET.

(** [parse::<IpAddr>]. *)
Class IpText := { IpAddr : Type; parse_ip : bytes -> option IpAddr }.

Definition FsyncPolicy_parse (v : bytes) : option FsyncPolicy :=
  let w := to_ascii_lowercase v in
  if bytes_eqb w (bs "always") then Some Always
  else if bytes_eqb w (bs "everysec") then Some EverySec
  else if bytes_eqb w (bs "no") then Some NoSync
  else None.

Record UpstreamCredentials : Type := mkCredentials { username : bytes; password : bytes }.

Record ServerConfig {IP : IpText} : Type := mkConfig {
  master_addr : option bytes;
  upstream_credentials : option UpstreamCredentials;
  users : gmap bytes bytes;
  fsync_policy : FsyncPolicy;
  config_maxmemory_bytes : Z;
  config_maxmemory_policy : EvictionPolicy;
  auto_failover : bool;
  failover_timeout_secs : Z;
  bind_address : IpAddr;
  data_directory : bytes;
  port : Z;
  warnings : list bytes
}.

Inductive ConfigError : Type :=
| MissingOptionValue (option : bytes)
| UnknownOption (option : bytes)
| UpstreamUsernameWithoutPassword
| UpstreamCredentialsWithoutReplica
| InvalidBindAddress (v : bytes)
| EmptyDataDirectory
| InvalidPort (v : bytes).

Definition ConfigError_display (e : ConfigError) : bytes :=
  match e with
  | MissingOptionValue option => option ++ bs " requires a value"
  | UnknownOption option => bs "unknown option: " ++ option
  | UpstreamUsernameWithoutPassword =>
    bs "upstream replication username requires --masterauth or ONYXDB_MASTER_PASSWORD"
  | UpstreamCredentialsWithoutReplica => bs "upstream replication credentials require --replica-of"
  | InvalidBindAddress v => bs "invalid bind address '" ++ v ++ bs "'; expected an IPv4 or IPv6 address"
  | EmptyDataDirectory => bs "data directory must not be empty"
  | InvalidPort v =>
    bs "invalid server port '" ++ v ++ bs "'; expected a value between 1 and " ++ print_Z MAX_SERVER_PORT
  end.

Definition parse_memory_size (v : bytes) : option Z :=
  let v := to_ascii_lowercase (trim v) in
  let '(number, multiplier) :=
    match strip_suffix (bs "gb") v with
    | Some number => (number, 1024 * 1024 * 1024)
    | None =>
      match strip_suffix (bs "mb") v with
      | Some number => (number, 1024 * 1024)
      | None =>
        match strip_suffix (bs "kb") v with
        | Some number => (number, 1024)
        | None => match strip_suffix (bs "b") v with Some number => (number, 1) | None => (v, 1) end
        end
      end
    end in
  n ← parse_usize (trim number);
  checked_mul n multiplier.

(** ** The command line *)

(** The variables of the loop over the arguments. *)
Record options : Type := mkOptions {
  o_master_addr : option bytes;
  o_master_user : option bytes;
  o_master_password : option bytes;
  o_password : option bytes;
  o_appendfsync : option bytes;
  o_maxmemory : option bytes;
  o_maxmemory_policy : option bytes;
  o_users : gmap bytes bytes;
  o_warnings : list bytes;
  o_auto_failover : bool;
  o_failover_timeout : Z;
  o_bind : option bytes;
  o_data_dir : option bytes;
  o_port : bytes
}.

Definition no_options : options :=
  mkOptions None None None None None None None ∅ [] false DEFAULT_FAILOVER_TIMEOUT_SECS None None (print_Z DEFAULT_PORT).

(** [str::split_once(':')]. *)
Fixpoint split_once (sep : byte) (s : bytes) : option (bytes * bytes) :=
  match s with
  | [] => None
  | b :: r =>
    if bool_decide (b = sep) then Some ([], r)
    else (fun nr : bytes * bytes => (b :: nr.1, nr.2)) <$> split_once sep r
  end.

Definition add_user (v : bytes) (o : options) : options :=
  let with_users m l :=
    mkOptions (o_master_addr o) (o_master_user o) (o_master_password o) (o_password o) (o_appendfsync o) (o_maxmemory o)
      (o_maxmemory_policy o) m l (o_auto_failover o) (o_failover_timeout o) (o_bind o) (o_data_dir o) (o_port o) in
  match split_once x3a v with
  | Some (name, user_password) => with_users (<[name := user_password]> (o_users o)) (o_warnings o)
  | None => with_users (o_users o) (o_warnings o ++ [bs "Invalid format for --user; expected name:password"])
  end.

(** The effect of an option that takes a value; [None] for another option. *)
Definition apply_option (name v : bytes) (o : options) : option options :=
  let '(mkOptions ma mu mp pw fs mm mpol us ws af ft bi dd po) := o in
  if bytes_eqb name (bs "--replica-of") then Some (mkOptions (Some v) mu mp pw fs mm mpol us ws af ft bi dd po)
  else if bytes_eqb name (bs "--masteruser") then Some (mkOptions ma (Some v) mp pw fs mm mpol us ws af ft bi dd po)
  else if bytes_eqb name (bs "--masterauth") then Some (mkOptions ma mu (Some v) pw fs mm mpol us ws af ft bi dd po)
  else if bytes_eqb name (bs "--requirepass") then Some (mkOptions ma mu mp (Some v) fs mm mpol us ws af ft bi dd po)
  else if bytes_eqb name (bs "--appendfsync") then Some (mkOptions ma mu mp pw (Some v) mm mpol us ws af ft bi dd po)
  else if bytes_eqb name (bs "--maxmemory") then Some (mkOptions ma mu mp pw fs (Some v) mpol us ws af ft bi dd po)
  else if bytes_eqb name (bs "--maxmemory-policy") then Some (mkOptions ma mu mp pw fs mm (Some v) us ws af ft bi dd po)
  else if bytes_eqb name (bs "--user") then Some (add_user v o)
  else if bytes_eqb name (bs "--failover-timeout") then
    let ft := match parse_u64 v with Some n => n | None => DEFAULT_FAILOVER_TIMEOUT_SECS end in
    Some (mkOptions ma mu mp pw fs mm mpol us ws af ft bi dd po)
  else if bytes_eqb name (bs "--bind") then Some (mkOptions ma mu mp pw fs mm mpol us ws af ft (Some v) dd po)
  else if bytes_eqb name (bs "--data-dir") then Some (mkOptions ma mu mp pw fs mm mpol us ws af ft bi (Some v) po)
  else if bytes_eqb name (bs "--port") then Some (mkOptions ma mu mp pw fs mm mpol us ws af ft bi dd v)
  else None.

Definition set_auto_failover (o : options) : options :=
  mkOptions (o_master_addr o) (o_master_user o) (o_master_password o) (o_password o) (o_appendfsync o) (o_maxmemory o)
    (o_maxmemory_policy o) (o_users o) (o_warnings o) true (o_failover_timeout o) (o_bind o) (o_data_dir o) (o_port o).

(** The loop over the arguments after the program's name. *)
Fixpoint parse_options (args : list bytes) (o : options) : result ConfigError options :=
  match args with
  | [] => Ok o
  | name :: rest =>
    if bytes_eqb name (bs "--auto-failover") then parse_options rest (set_auto_failover o)
    else
      match rest with
      | v :: rest' =>
        match apply_option name v o with
        | Some o => parse_options rest' o
        | None => Err (UnknownOption name)
        end
      | [] =>
        match apply_option name [] o with
        | Some _ => Err (MissingOptionValue name)
        | None => Err (UnknownOption name)
        end
      end
  end.

Definition or_env (o : option bytes) (e : option bytes) : option bytes :=
  match o with Some v => Some v | None => e end.

(** A value that is parsed, with a warning and a default when it does not parse. *)
Definition parsed_or {A} (v : option bytes) (parse : bytes -> option A) (default : A) (warning : bytes -> bytes)
  : A * list bytes :=
  match v with
  | None => (default, [])
  | Some v => match parse v with Some a => (a, []) | None => (default, [warning v]) end
  end.

Section Config.
Context {IP : IpText}.

(** [get_env]: the environment variables. *)
Definition ServerConfig_parse (args : list bytes) (get_env : bytes -> option bytes) : result ConfigError ServerConfig :=
  o ← parse_options (drop 1 args) no_options;
  let password := or_env (o_password o) (get_env (bs "ONYXDB_PASSWORD")) in
  let master_user := or_env (o_master_user o) (get_env (bs "ONYXDB_MASTER_USER")) in
  let master_password := or_env (o_master_password o) (get_env (bs "ONYXDB_MASTER_PASSWORD")) in
  let bind_address := or_env (o_bind o) (get_env (bs "ONYXDB_BIND")) in
  let data_directory := or_env (o_data_dir o) (get_env (bs "ONYXDB_DATA_DIR")) in
  if bool_decide (is_Some master_user) && negb (bool_decide (is_Some master_password))
  then Err UpstreamUsernameWithoutPassword
  else if negb (bool_decide (is_Some (o_master_addr o)))
          && (bool_decide (is_Some master_user) || bool_decide (is_Some master_password))
  then Err UpstreamCredentialsWithoutReplica
  else
    let credentials := (fun pw => mkCredentials (match master_user with Some u => u | None => bs "default" end) pw)
                         <$> master_password in
    let users := match password with Some pw => <[bs "default" := pw]> (o_users o) | None => o_users o end in
    let '(fsync, w1) := parsed_or (o_appendfsync o) FsyncPolicy_parse EverySec (fun v =>
      bs "Invalid value for --appendfsync ('" ++ v ++ bs "'), using 'everysec' as default") in
    let '(maxmemory, w2) := parsed_or (o_maxmemory o) parse_memory_size 0 (fun v =>
      bs "Invalid value for --maxmemory ('" ++ v ++ bs "'); memory limiting is disabled") in
    let '(policy, w3) := parsed_or (o_maxmemory_policy o) EvictionPolicy_parse NoEviction (fun v =>
      bs "Invalid value for --maxmemory-policy ('" ++ v ++ bs "'); using 'noeviction'") in
    port ← ok_or (p ← parse_u16 (o_port o); if (1 <=? p) && (p <=? MAX_SERVER_PORT) then Some p else None)
      (InvalidPort (o_port o));
    let bind_text := match bind_address with Some a => a | None => bs "127.0.0.1" end in
    address ← ok_or (parse_ip bind_text) (InvalidBindAddress bind_text);
    let directory := match data_directory with Some d => d | None => bs "." end in
    if bool_decide (directory = []) then Err EmptyDataDirectory
    else Ok (mkConfig IP (o_master_addr o) credentials users fsync maxmemory policy (o_auto_failover o)
               (o_failover_timeout o) address directory port (o_warnings o ++ w1 ++ w2 ++ w3)).

End Config.

(** * What an accepted command line means *)

(** ** The settings of a command line *)

(** The arguments as pairs of an option and its value; the flag has none. *)
Fixpoint settings (args : list bytes) : list (bytes * bytes) :=
  match args with
  | [] => []
  | name :: rest =>
    if bytes_eqb name (bs "--auto-failover") then (name, []) :: settings rest
    else match rest with v :: rest => (name, v) :: settings rest | [] => [] end
  end.

(** The values given for an option, in order, and the one that counts. *)
Definition given (name : bytes) (l : list (bytes * bytes)) : list bytes :=
  (filter (fun s : bytes * bytes => s.1 = name) l).*2.
Definition last_given (name : bytes) (l : list (bytes * bytes)) : option bytes := list.last (given name l).

(** The first of two values that is there. *)
Definition or_else {A} (a b : option A) : option A := if a is Some v then Some v else b.
Local Infix "<||" := or_else (at level 50, left associativity).

Definition add_given (m : gmap bytes bytes) (v : bytes) : gmap bytes bytes :=
  match split_once x3a v with Some (name, pw) => <[name := pw]> m | None => m end.

Lemma given_cons name s l : given name (s :: l) = (if decide (s.1 = name) then [s.2] else []) ++ given name l.
Proof. unfold given. rewrite filter_cons. by case_decide. Qed.

Lemma last_given_cons name s l :
  last_given name (s :: l) = last_given name l <|| (if decide (s.1 = name) then Some s.2 else None).
Proof.
  unfold last_given. rewrite given_cons. case_decide; simpl; [|by destruct (list.last _)].
  by rewrite list.last_cons; destruct (list.last _).
Qed.

(** The options the loop has read from the settings [l], starting from [o]. *)
Definition kept (o : options) (l : list (bytes * bytes)) (f : options -> option bytes) (name : bytes) : option bytes :=
  last_given name l <|| f o.

Record reads (o : options) (l : list (bytes * bytes)) (o' : options) : Prop := {
  r_master_addr : o_master_addr o' = kept o l o_master_addr (bs "--replica-of");
  r_master_user : o_master_user o' = kept o l o_master_user (bs "--masteruser");
  r_master_password : o_master_password o' = kept o l o_master_password (bs "--masterauth");
  r_password : o_password o' = kept o l o_password (bs "--requirepass");
  r_appendfsync : o_appendfsync o' = kept o l o_appendfsync (bs "--appendfsync");
  r_maxmemory : o_maxmemory o' = kept o l o_maxmemory (bs "--maxmemory");
  r_policy : o_maxmemory_policy o' = kept o l o_maxmemory_policy (bs "--maxmemory-policy");
  r_bind : o_bind o' = kept o l o_bind (bs "--bind");
  r_data_dir : o_data_dir o' = kept o l o_data_dir (bs "--data-dir");
  r_port : Some (o_port o') = kept o l (fun o => Some (o_port o)) (bs "--port");
  r_users : o_users o' = fold_left add_given (given (bs "--user") l) (o_users o);
  r_failover : o_auto_failover o' = o_auto_failover o || bool_decide (given (bs "--auto-failover") l <> []);
  r_timeout : o_failover_timeout o' =
    match last_given (bs "--failover-timeout") l with
    | Some v => match parse_u64 v with Some n => n | None => DEFAULT_FAILOVER_TIMEOUT_SECS end
    | None => o_failover_timeout o
    end
}.

(** The options there are. *)
Definition option_names : list bytes :=
  [bs "--replica-of"; bs "--masteruser"; bs "--masterauth"; bs "--requirepass"; bs "--appendfsync"; bs "--maxmemory";
   bs "--maxmemory-policy"; bs "--user"; bs "--failover-timeout"; bs "--bind"; bs "--data-dir"; bs "--port"].

Lemma reads_nil o : reads o [] o.
Proof. constructor; try done. by rewrite orb_false_r. Qed.

Lemma reads_trans o l o1 s o2 : reads o [s] o1 -> reads o1 l o2 -> reads o (s :: l) o2.
Proof.
  intros H1 H2.
  assert (Hkept : forall f name, f o1 = kept o [s] f name -> kept o1 l f name = kept o (s :: l) f name).
  { intros f name Hf. unfold kept in *. rewrite Hf, last_given_cons, last_given_cons. by destruct (last_given name l). }
  destruct H1, H2. constructor; try (by rewrite <- Hkept).
  - rewrite r_users1, r_users0, !given_cons. change (given (bs "--user") []) with (@nil bytes). by rewrite app_nil_r, fold_left_app.
  - rewrite r_failover1, r_failover0, <- orb_assoc. f_equal. rewrite !given_cons.
    change (given (bs "--auto-failover") []) with (@nil bytes). by case_decide; destruct (given _ l).
  - rewrite r_timeout1, r_timeout0, last_given_cons, last_given_cons.
    change (last_given (bs "--failover-timeout") []) with (@None bytes).
    by destruct (last_given (bs "--failover-timeout") l); [|case_decide].
Qed.

Lemma apply_option_reads name v o o' : apply_option name v o = Some o' -> reads o [(name, v)] o'.
Proof.
  destruct o as [ma mu mp pw fs mm mpol us ws af ft bi dd po]. unfold apply_option.
  repeat match goal with
  | |- (if bytes_eqb name ?x then _ else _) = _ -> _ =>
    destruct (bytes_eqb_spec name x) as [->|_];
      [intros [= <-]; constructor; first [reflexivity|simpl; by rewrite orb_false_r|unfold add_user; simpl]|]
  end; [..|done].
  all: rewrite ?orb_false_r; unfold add_given; by destruct (split_once _ _) as [[??]|].
Qed.

Lemma set_auto_failover_reads o : reads o [(bs "--auto-failover", [])] (set_auto_failover o).
Proof. constructor; try reflexivity. simpl. by rewrite orb_true_r. Qed.

Lemma parse_options_reads args o o' :
  parse_options args o = Ok o' -> reads o (settings args) o'.
Proof.
  revert o. induction args as [args IH] using (induction_ltof1 _ (@length bytes)). unfold ltof in IH. intros o.
  destruct args as [|name rest]; simpl; [intros [= <-]; apply reads_nil|].
  destruct (bytes_eqb_spec name (bs "--auto-failover")) as [->|_].
  - intros E. eapply reads_trans; [apply set_auto_failover_reads|]. apply IH; [simpl; lia|done].
  - destruct rest as [|v rest]; [by destruct (apply_option name [] o)|].
    destruct (apply_option name v o) as [o1|] eqn:E1; [|done]. intros E.
    eapply reads_trans; [by apply apply_option_reads|]. apply IH; [simpl; lia|done].
Qed.

(** Every argument is the flag, or an option of the list with its value. *)
Fixpoint recognised (args : list bytes) : bool :=
  match args with
  | [] => true
  | name :: rest =>
    if bytes_eqb name (bs "--auto-failover") then recognised rest
    else match rest with v :: rest => bool_decide (name ∈ option_names) && recognised rest | [] => false end
  end.

Lemma apply_option_known name v o : is_Some (apply_option name v o) <-> name ∈ option_names.
Proof.
  destruct o as [ma mu mp pw fs mm mpol us ws af ft bi dd po]. unfold apply_option, option_names.
  rewrite !elem_of_cons, elem_of_nil.
  repeat match goal with
  | |- is_Some (if bytes_eqb name ?x then _ else _) <-> _ =>
    destruct (bytes_eqb_spec name x) as [->|]; [split; [intros _; tauto|eauto]|]
  end.
  split; [intros [? [=]]|intuition].
Qed.

Lemma parse_options_ok args o : (exists o', parse_options args o = Ok o') <-> recognised args = true.
Proof.
  revert o. induction args as [args IH] using (induction_ltof1 _ (@length bytes)). unfold ltof in IH. intros o.
  destruct args as [|name rest]; simpl; [by split; eauto|].
  destruct (bytes_eqb_spec name (bs "--auto-failover")) as [->|_]; [apply IH; simpl; lia|].
  destruct rest as [|v rest]; [split; [|done]; intros [? E]; by destruct (apply_option name [] o)|].
  rewrite andb_true_iff, bool_decide_eq_true, <- (apply_option_known name v o).
  destruct (apply_option name v o) as [o1|]; [|by split; [intros [? [=]]|intros [[? [=]] _]]].
  rewrite (IH rest ltac:(simpl; lia) o1). split; [eauto|by intros []].
Qed.

(** ** The configuration of a command line and an environment *)

Section ConfigSpec.
Context {IP : IpText}.

Variable l : list (bytes * bytes).
Variable env : bytes -> option bytes.

Definition master_user_text : option bytes := last_given (bs "--masteruser") l <|| env (bs "ONYXDB_MASTER_USER").
Definition master_password_text : option bytes :=
  last_given (bs "--masterauth") l <|| env (bs "ONYXDB_MASTER_PASSWORD").
Definition password_text : option bytes := last_given (bs "--requirepass") l <|| env (bs "ONYXDB_PASSWORD").
Definition port_text : bytes := default (bs "6380") (last_given (bs "--port") l).
Definition bind_text : bytes := default (bs "127.0.0.1") (last_given (bs "--bind") l <|| env (bs "ONYXDB_BIND")).
Definition directory_text : bytes :=
  default (bs ".") (last_given (bs "--data-dir") l <|| env (bs "ONYXDB_DATA_DIR")).

Definition read_or {A} (parse : bytes -> option A) (d : A) (v : option bytes) : A := default d (v ≫= parse).

(** What is refused: an upstream user without a password, upstream credentials
    without a master, a port the listeners cannot be derived from, a malformed
    address, an empty directory. *)
Record acceptable : Prop := {
  a_user : is_Some master_user_text -> is_Some master_password_text;
  a_replica : is_Some master_password_text -> is_Some (last_given (bs "--replica-of") l);
  a_port : exists p, parse_u16 port_text = Some p /\ 1 <= p <= MAX_SERVER_PORT;
  a_bind : is_Some (parse_ip bind_text);
  a_directory : directory_text <> []
}.

Record configured (c : ServerConfig) : Prop := {
  c_master : master_addr c = last_given (bs "--replica-of") l;
  c_credentials : upstream_credentials c = mkCredentials (default (bs "default") master_user_text) <$> master_password_text;
  c_users : users c =
    let m := fold_left add_given (given (bs "--user") l) ∅ in
    match password_text with Some pw => <[bs "default" := pw]> m | None => m end;
  c_fsync : fsync_policy c = read_or FsyncPolicy_parse EverySec (last_given (bs "--appendfsync") l);
  c_maxmemory : config_maxmemory_bytes c = read_or parse_memory_size 0 (last_given (bs "--maxmemory") l);
  c_policy : config_maxmemory_policy c = read_or EvictionPolicy_parse NoEviction (last_given (bs "--maxmemory-policy") l);
  c_failover : auto_failover c = bool_decide (given (bs "--auto-failover") l <> []);
  c_timeout : failover_timeout_secs c =
    read_or parse_u64 DEFAULT_FAILOVER_TIMEOUT_SECS (last_given (bs "--failover-timeout") l);
  c_bind : parse_ip bind_text = Some (bind_address c);
  c_directory : data_directory c = directory_text;
  c_port : parse_u16 port_text = Some (port c)
}.

End ConfigSpec.

(** Every number of the configuration fits its type, and so do the ports that
    the server derives from the configured one. *)
Record config_bounds {IP : IpText} (c : ServerConfig) : Prop := {
  b_port : 1 <= port c;
  b_derived : port c + METRICS_PORT_OFFSET <= U16_MAX;
  b_memory : 0 <= config_maxmemory_bytes c <= USIZE_MAX;
  b_timeout : 0 <= failover_timeout_secs c <= U64_MAX
}.

Lemma parsed_or_fst {A} v (parse : bytes -> option A) d w : (parsed_or v parse d w).1 = read_or parse d v.
Proof. unfold parsed_or, read_or. destruct v as [v|]; [|done]. simpl. by destruct (parse v). Qed.

Lemma parsed_or_value {A} v (parse : bytes -> option A) d w a ws : parsed_or v parse d w = (a, ws) -> a = read_or parse d v.
Proof. intros E. by rewrite <- (parsed_or_fst v parse d w), E. Qed.

Lemma read_or_range (parse : bytes -> option Z) d v (lo hi : Z) :
  lo <= d <= hi -> (forall s n, parse s = Some n -> lo <= n <= hi) -> lo <= read_or parse d v <= hi.
Proof.
  intros Hd Hp. unfold read_or. destruct v as [v|]; [|done]. simpl. destruct (parse v) as [n|] eqn:E; [|done].
  by apply (Hp v).
Qed.

Lemma parse_memory_size_range v n : parse_memory_size v = Some n -> 0 <= n <= USIZE_MAX.
Proof.
  unfold parse_memory_size. destruct (match strip_suffix _ _ with Some _ => _ | None => _ end) as [t m] eqn:Em.
  assert (0 < m). { repeat destruct (strip_suffix _ _); by simplify_eq. }
  destruct (parse_usize (trim t)) as [k|] eqn:Ek; simpl; [|done]. apply parse_unsigned_range in Ek; [|done].
  unfold checked_mul. destruct (Z.leb_spec (k * m) U64_MAX); [|done]. intros [= <-]. unfold USIZE_MAX in *. lia.
Qed.

Lemma kept_none l f name : f no_options = None -> kept no_options l f name = last_given name l.
Proof. unfold kept. intros ->. by destruct (last_given name l). Qed.

Lemma kept_port l o' : Some (o_port o') = kept no_options l (fun o => Some (o_port o)) (bs "--port") -> o_port o' = port_text l.
Proof. unfold kept, port_text. destruct (last_given _ l); simpl; by intros [= ->]. Qed.

(** The two checks of the upstream credentials. *)
Lemma upstream_rule (u pw m : option bytes) :
  bool_decide (is_Some u) && negb (bool_decide (is_Some pw)) = false ->
  negb (bool_decide (is_Some m)) && (bool_decide (is_Some u) || bool_decide (is_Some pw)) = false ->
  (is_Some u -> is_Some pw) /\ (is_Some pw -> is_Some m).
Proof. destruct u, pw, m; try discriminate; split; by eauto. Qed.

Section Parse.
Context {IP : IpText}.

(** The arguments that are accepted, and the configuration they give. *)
Lemma parse_config_spec args env :
  match ServerConfig_parse args env with
  | Ok c => recognised (drop 1 args) = true /\ acceptable (settings (drop 1 args)) env /\
      configured (settings (drop 1 args)) env c /\ config_bounds c
  | Err _ => recognised (drop 1 args) = true -> ~ acceptable (settings (drop 1 args)) env
  end.
Proof.
  unfold ServerConfig_parse. set (given_here := drop 1 args). generalize given_here. clear given_here args. intros args.
  destruct (parse_options args no_options) as [o|e] eqn:Eo; simpl; cycle 1.
  { intros Hr. apply (parse_options_ok _ no_options) in Hr as [? Hr]. congruence. }
  pose proof (proj1 (parse_options_ok _ _) (ex_intro _ _ Eo)) as Hr.
  apply parse_options_reads in Eo as [Hma Hmu Hmp Hpw Hfs Hmm Hpol Hbi Hdd Hpo Hus Haf Hft].
  set (l := settings args) in *. rewrite kept_none in Hma, Hmu, Hmp, Hpw, Hfs, Hmm, Hpol, Hbi, Hdd by done.
  apply kept_port in Hpo. change (o_users no_options) with (∅ : gmap bytes bytes) in Hus.
  change (o_auto_failover no_options) with false in Haf. change (o_failover_timeout no_options) with DEFAULT_FAILOVER_TIMEOUT_SECS in Hft.
  rewrite Hmu, Hmp, Hpw, Hbi, Hdd, Hma, Hpo. change or_env with (@or_else bytes). clear Hmu Hmp Hpw Hbi Hdd Hpo.
  fold (master_user_text l env) (master_password_text l env) (password_text l env).
  change (match last_given (bs "--bind") l <|| env (bs "ONYXDB_BIND") with Some a => a | None => bs "127.0.0.1" end)
    with (bind_text l env).
  change (match last_given (bs "--data-dir") l <|| env (bs "ONYXDB_DATA_DIR") with Some d => d | None => bs "." end)
    with (directory_text l env).
  destruct (bool_decide (is_Some (master_user_text l env)) && _) eqn:Ecred.
  { apply andb_true_iff in Ecred as [Hu Hp]. prop_tests. by intros _ [Huser _ _ _ _]; apply Hp, Huser. }
  destruct (negb _ && _) eqn:Erep.
  { apply andb_true_iff in Erep as [Hm Hup]. prop_tests. intros _ [Huser Hrep _ _ _]. apply Hm, Hrep.
    apply orb_true_iff in Hup as [Hup|Hup]; prop_tests; tauto. }
  apply upstream_rule in Erep as [Huser Hrep]; [|done]. clear Ecred.
  destruct (parsed_or (o_appendfsync o) _ _ _) as [fsync w1] eqn:E1. apply parsed_or_value in E1. rewrite Hfs in E1.
  destruct (parsed_or (o_maxmemory o) _ _ _) as [maxmemory w2] eqn:E2. apply parsed_or_value in E2. rewrite Hmm in E2.
  destruct (parsed_or (o_maxmemory_policy o) _ _ _) as [policy w3] eqn:E3. apply parsed_or_value in E3. rewrite Hpol in E3.
  assert (Hft' : o_failover_timeout o = read_or parse_u64 DEFAULT_FAILOVER_TIMEOUT_SECS (last_given (bs "--failover-timeout") l)).
  { rewrite Hft. unfold read_or. destruct (last_given (bs "--failover-timeout") l) as [v|]; [|done]. simpl. by destruct (parse_u64 v). }
  destruct (parse_u16 (port_text l)) as [p|] eqn:Ep; simpl; [|by intros _ [_ _ (q & Hq & _) _ _]; congruence].
  destruct ((1 <=? p) && (p <=? MAX_SERVER_PORT)) eqn:Eb; simpl; cycle 1.
  { intros _ [_ _ (q & Hq & Hbound) _ _]. assert (q = p) as -> by congruence.
    apply andb_false_iff in Eb as [Eb|Eb]; prop_tests; lia. }
  prop_tests.
  destruct (parse_ip (bind_text l env)) as [address|] eqn:Eip; simpl; [|by intros _ [_ _ _ [? Hip] _]; congruence].
  destruct (bool_decide (directory_text l env = [])) eqn:Edir; prop_tests; [by intros _ [_ _ _ _ Hd]|].
  split; [done|]. split; [by constructor; eauto|]. split.
  - constructor; simpl; try done. rewrite <- Hus. by destruct (password_text l env).
  - constructor; simpl; [done|unfold MAX_SERVER_PORT in *; lia|subst maxmemory; apply read_or_range|rewrite Hft'; apply read_or_range];
      try done; [apply parse_memory_size_range|by intros; apply (parse_unsigned_range U64_MAX s)].
Qed.

End Parse.
