(* ===== verification/Client.v ===== *)
(** * Client: the client library and the command-line client (src/client.rs, src/onyx-cli.rs)

    A client writes commands and reads responses, nested arrays included, with an
    explicit stack and limits on everything a response may contain.  The
    command-line client splits its input into arguments and chooses the server. *)

From Stdlib Require Import ZArith Lia.
From Stdlib Require Import Strings.Byte.
From stdpp Require Import base list strings numbers.
From S2P Require Import Prelude Text Resp RespReader Execution.

Open Scope Z_scope.

Definition MAX_RESPONSE_HEADER_SIZE : Z := 64 * 1024.
Definition MAX_PIPELINE_COMMANDS : Z := 4096.
Definition MAX_PIPELINE_BYTES : Z := 64 * 1024 * 1024.

Record RESPResponseLimits : Type := mkResponseLimits {
  max_depth : Z;
  max_response_array_len : Z;
  max_total_elements : Z;
  max_response_bulk_len : Z;
  max_response_frame_len : Z
}.

Definition DEFAULT_RESPONSE_LIMITS : RESPResponseLimits :=
  mkResponseLimits 64 1000000 1000000 (16 * 1024 * 1024) (64 * 1024 * 1024).

(** The response types, as the client sees them. *)
Inductive RESPResponse : Type :=
| RSimpleString (s : bytes)
| RErrorText (s : bytes)
| RInteger (n : Z)
| RBulkString (o : option bytes)
| RArray (o : option (list RESPResponse)).

Definition is_error_response (v : RESPResponse) : bool := match v with RErrorText _ => true | _ => false end.

(** [Display]. *)
Fixpoint response_text (v : RESPResponse) : bytes :=
  match v with
  | RSimpleString s | RBulkString (Some s) => Utf8.from_utf8_lossy s
  | RErrorText s => bs "(error) " ++ Utf8.from_utf8_lossy s
  | RInteger n => print_i64 n
  | RBulkString None | RArray None => bs "(nil)"
  | RArray (Some []) => bs "(empty array)"
  | RArray (Some (first :: rest)) =>
    bs "[" ++ response_text first ++ concat (map (fun v => bs ", " ++ response_text v) rest) ++ bs "]"
  end.

(** ** Numbers and lengths *)

Definition parse_signed_decimal (b : bytes) (field : bytes) : result io_error Z :=
  match Utf8.from_utf8 b with
  | None => Err (invalid_data field)
  | Some text =>
    if bool_decide (text = []) || bytes_eqb text (bs "-")
       || existsb (fun b => negb (is_ascii_digit b)) (default text (strip_prefix (bs "-") text))
    then Err (invalid_data field)
    else ok_or (parse_i64 text) (invalid_data field)
  end.

Definition length_step (n : option Z) (b : byte) : option Z :=
  n ← n; n ← checked_mul n 10; checked_add n (digit_value b).

Definition parse_response_length (b : bytes) (field : bytes) : result io_error (option Z) :=
  if bytes_eqb b (bs "-1") then Ok None
  else if bool_decide (b = []) || existsb (fun b => negb (is_ascii_digit b)) b then Err (invalid_data field)
  else Some <$> ok_or (fold_left length_step b (Some 0)) (invalid_data field).

Definition account_frame_bytes (consumed added limit : Z) : result io_error Z :=
  consumed ← ok_or (checked_add consumed added) (invalid_data (bs "RESP response frame length overflow"));
  if limit <? consumed then Err (invalid_data (bs "RESP response exceeds the protocol limit")) else Ok consumed.

(** ** Responses *)

Inductive ResponseToken : Type :=
| TokenValue (v : RESPResponse)
| TokenArray (n : Z).

Definition err_aggregate_ended : io_error :=
  mkIoError UnexpectedEof (bs "RESP response ended before the aggregate was complete").

(** The payload of a bulk string of known length. *)
Definition read_bulk_payload (length : Z) (r : Reader) : Reader * result stop bytes :=
  and_then (read_exact length r) (fun payload r =>
  and_then (read_exact 2 r) (fun terminator r =>
    if negb (bytes_eqb terminator crlf)
    then (r, Err (Failed (invalid_data (bs "RESP bulk response is missing its CRLF terminator"))))
    else (r, Ok payload))).

(** What the line of a response starts, by its first byte, with the number of
    bytes of the response up to its end. *)
Definition response_token (limits : RESPResponseLimits) (consumed : Z) (prefix : byte) (content : bytes) (r : Reader)
  : Reader * result stop (option (ResponseToken * Z)) :=
  if bool_decide (prefix = x2b) then (r, Ok (Some (TokenValue (RSimpleString content), consumed)))
  else if bool_decide (prefix = x2d) then (r, Ok (Some (TokenValue (RErrorText content), consumed)))
  else if bool_decide (prefix = x3a) then
    checked (parse_signed_decimal content (bs "RESP integer response is invalid")) r (fun n =>
      (r, Ok (Some (TokenValue (RInteger n), consumed))))
  else if bool_decide (prefix = x24) then
    checked (parse_response_length content (bs "RESP bulk response length is invalid")) r (fun length =>
      match length with
      | None => (r, Ok (Some (TokenValue (RBulkString None), consumed)))
      | Some length =>
        if max_response_bulk_len limits <? length
        then (r, Err (Failed (invalid_data (bs "RESP bulk response exceeds the protocol limit"))))
        else
          checked (account_frame_bytes consumed (sat_add length 2) (max_response_frame_len limits)) r (fun consumed =>
          and_then (read_bulk_payload length r) (fun payload r =>
            (r, Ok (Some (TokenValue (RBulkString (Some payload)), consumed)))))
      end)
  else if bool_decide (prefix = x2a) then
    checked (parse_response_length content (bs "RESP array response length is invalid")) r (fun length =>
      match length with
      | None => (r, Ok (Some (TokenValue (RArray None), consumed)))
      | Some length =>
        if max_response_array_len limits <? length
        then (r, Err (Failed (invalid_data (bs "RESP array response exceeds the protocol limit"))))
        else (r, Ok (Some (TokenArray length, consumed)))
      end)
  else (r, Err (Failed (invalid_data (bs "RESP response type is unsupported")))).

(** [None] at the end of the stream before the first byte of a response. *)
Definition read_response_token (limits : RESPResponseLimits) (consumed : Z) (root : bool) (r : Reader)
  : Reader * result stop (option (ResponseToken * Z)) :=
  and_then (read_bounded_line (Z.min MAX_RESPONSE_HEADER_SIZE (max_response_frame_len limits)) r) (fun scratch r =>
    if len scratch =? 0 then (r, if root then Ok None else Err (Failed err_aggregate_ended))
    else
      checked (account_frame_bytes consumed (len scratch) (max_response_frame_len limits)) r (fun consumed =>
      checked (line_content scratch) r (fun line =>
        match line with
        | [] => (r, Err (Failed (invalid_data (bs "RESP response header is empty"))))
        | prefix :: content => response_token limits consumed prefix content r
        end))).

(** [ArrayBuilder]: the expected length and the values so far; the innermost
    array is the head of the stack. *)
Definition ArrayBuilder : Type := Z * list RESPResponse.

(** The inner loop: a finished value goes into the innermost array, which may
    finish it.  The outer arrays, or the whole response. *)
Fixpoint place (v : RESPResponse) (stack : list ArrayBuilder) : RESPResponse + list ArrayBuilder :=
  match stack with
  | [] => inl v
  | (expected, values) :: outer =>
    let values := values ++ [v] in
    if len values <? expected then inr ((expected, values) :: outer)
    else place (RArray (Some values)) outer
  end.

Fixpoint read_response_loop (fuel : nat) (limits : RESPResponseLimits) (consumed total_elements : Z)
    (stack : list ArrayBuilder) (r : Reader) : Reader * result stop (option RESPResponse) :=
  match fuel with
  | O => (r, Err OutOfFuel)
  | S fuel =>
    let root := bool_decide (stack = []) && (consumed =? 0) in
    and_then (read_response_token limits consumed root r) (fun token r =>
      let finish v consumed :=
        match place v stack with
        | inl v => (r, Ok (Some v))
        | inr stack => read_response_loop fuel limits consumed total_elements stack r
        end in
      match token with
      | None => (r, Ok None)
      | Some (TokenValue v, consumed) => finish v consumed
      | Some (TokenArray expected, consumed) =>
        if expected =? 0 then finish (RArray (Some [])) consumed
        else if max_depth limits <=? len stack
        then (r, Err (Failed (invalid_data (bs "RESP response nesting exceeds the protocol limit"))))
        else
          checked (ok_or (checked_add total_elements expected) (invalid_data (bs "RESP response element count overflow"))) r
            (fun total_elements =>
            if max_total_elements limits <? total_elements
            then (r, Err (Failed (invalid_data (bs "RESP response element count exceeds the protocol limit"))))
            else read_response_loop fuel limits consumed total_elements ((expected, []) :: stack) r)
      end)
  end.

(** Every round takes a line, so there are at most as many as there are bytes. *)
Definition read_response (limits : RESPResponseLimits) (r : Reader) : Reader * result stop (option RESPResponse) :=
  read_response_loop (S (length (stream r))) limits 0 0 [] r.

(** ** Connections *)

(** [sent]: the bytes written to the server. *)
Record RespClient : Type := mkClient {
  client_reader : Reader;
  sent : bytes;
  response_limits : RESPResponseLimits
}.

Definition timed_out (m : string) : io_error := mkIoError TimedOut (bs m).

(** How a write ends: with all bytes written, or with an error or the time limit
    after some of them. *)
Inductive write_end : Type :=
| Wrote
| WriteFailed (n : nat) (e : io_error)
| WriteStalled (n : nat).

Definition write_within (w : write_end) (output : bytes) (c : RespClient) : RespClient * result io_error unit :=
  let sending b := mkClient (client_reader c) (sent c ++ b) (response_limits c) in
  match w with
  | Wrote => (sending output, Ok tt)
  | WriteFailed n e => (sending (take n output), Err e)
  | WriteStalled n => (sending (take n output), Err (timed_out "RESP write timed out"))
  end.

Definition client_read (c : RespClient) : RespClient * result stop RESPResponse :=
  let '(r, x) := read_response (response_limits c) (client_reader c) in
  (mkClient r (sent c) (response_limits c),
   match x with
   | Ok (Some v) => Ok v
   | Ok None => Err (Failed (mkIoError UnexpectedEof (bs "RESP connection closed")))
   | Err Blocked => Err (Failed (timed_out "RESP read timed out"))
   | Err s => Err s
   end).

Definition client_send (w : write_end) (arguments : list bytes) (c : RespClient)
  : RespClient * result stop RESPResponse :=
  match encode_command arguments [] CLIENT_RESP_LIMITS with
  | Err e => (c, Err (Failed e))
  | Ok output =>
    match write_within w output c with
    | (c, Err e) => (c, Err (Failed e))
    | (c, Ok _) => client_read c
    end
  end.

Fixpoint encode_pipeline (commands : list (list bytes)) (buffer : bytes) : result io_error bytes :=
  match commands with
  | [] => Ok buffer
  | command :: rest =>
    buffer ← encode_command command buffer CLIENT_RESP_LIMITS;
    if MAX_PIPELINE_BYTES <? len buffer then Err (invalid_data (bs "RESP pipeline exceeds the client buffer limit"))
    else encode_pipeline rest buffer
  end.

Definition write_pipeline (w : write_end) (commands : list (list bytes)) (c : RespClient)
  : RespClient * result io_error unit :=
  if bool_decide (commands = []) || (MAX_PIPELINE_COMMANDS <? len commands)
  then (c, Err (invalid_data (bs "RESP pipeline command count is invalid")))
  else
    match encode_pipeline commands [] with
    | Err e => (c, Err e)
    | Ok output => write_within w output c
    end.

(** ** The command line *)

Inductive Quote : Type := QuoteNone | QuoteSingle | QuoteDouble.

(** The variables of the loop; a character is its bytes. *)
Record splitting : Type := mkSplitting {
  sp_arguments : list bytes;
  sp_current : bytes;
  sp_quote : Quote;
  sp_escaped : bool;
  sp_active : bool
}.

Definition split_character (s : splitting) (character : bytes) : splitting :=
  let '(mkSplitting arguments current quote escaped active) := s in
  if escaped then mkSplitting arguments (current ++ character) quote false true
  else
    match quote with
    | QuoteSingle =>
      if bytes_eqb character [x27] then mkSplitting arguments current QuoteNone false true
      else mkSplitting arguments (current ++ character) QuoteSingle false true
    | QuoteDouble =>
      if bytes_eqb character [x22] then mkSplitting arguments current QuoteNone false active
      else if bytes_eqb character [x5c] then mkSplitting arguments current QuoteDouble true active
      else mkSplitting arguments (current ++ character) QuoteDouble false active
    | QuoteNone =>
      if bytes_eqb character [x27] then mkSplitting arguments current QuoteSingle false true
      else if bytes_eqb character [x22] then mkSplitting arguments current QuoteDouble false true
      else if bytes_eqb character [x5c] then mkSplitting arguments current QuoteNone true true
      else if is_whitespace character then
        if active then mkSplitting (arguments ++ [current]) [] QuoteNone false false else s
      else mkSplitting arguments (current ++ character) QuoteNone false true
    end.

Definition err_incomplete_escape : bytes := bs "command line ends with an incomplete escape".
Definition err_unclosed_quote : bytes := bs "command line contains an unclosed quote".

Definition parse_command_line (line : bytes) : result bytes (list bytes) :=
  let '(mkSplitting arguments current quote escaped active) :=
    fold_left split_character (Utf8.chars line) (mkSplitting [] [] QuoteNone false false) in
  if escaped then Err err_incomplete_escape
  else
    match quote with
    | QuoteNone => Ok (if active then arguments ++ [current] else arguments)
    | _ => Err err_unclosed_quote
    end.

(** ** The command-line client *)

Record CliConfig : Type := mkCliConfig {
  master_address : bytes;
  replica_addresses : list bytes
}.

(** [str::split]. *)
Fixpoint split_on (sep : byte) (s : bytes) : list bytes :=
  match s with
  | [] => [[]]
  | b :: rest =>
    if bool_decide (b = sep) then [] :: split_on sep rest
    else match split_on sep rest with first :: more => (b :: first) :: more | [] => [[b]] end
  end.

Definition replica_list (v : bytes) : list bytes :=
  filter (fun address => address <> []) (map trim (split_on x2c v)).

Fixpoint CliConfig_options (arguments : list bytes) (c : CliConfig) : result bytes CliConfig :=
  match arguments with
  | [] => Ok c
  | option :: rest =>
    if bytes_eqb option (bs "--port") then
      match rest with
      | [] => Err (bs "--port requires a value")
      | port :: rest =>
        match parse_u16 port with
        | None => Err (bs "invalid port: " ++ port)
        | Some _ => CliConfig_options rest (mkCliConfig (bs "127.0.0.1:" ++ port) (replica_addresses c))
        end
      end
    else if bytes_eqb option (bs "--master") then
      match rest with
      | [] => Err (bs "--master requires an address")
      | address :: rest => CliConfig_options rest (mkCliConfig address (replica_addresses c))
      end
    else if bytes_eqb option (bs "--replicas") then
      match rest with
      | [] => Err (bs "--replicas requires a comma-separated address list")
      | v :: rest => CliConfig_options rest (mkCliConfig (master_address c) (replica_list v))
      end
    else if bytes_eqb option (bs "--help") || bytes_eqb option (bs "-h") then Err []
    else Err (bs "unknown option: " ++ option)
  end.

Definition CliConfig_parse (arguments : list bytes) : result bytes CliConfig :=
  CliConfig_options (drop 1 arguments) (mkCliConfig (bs "127.0.0.1:6380") []).

(** [str::trim_end]. *)
Definition trim_end (s : bytes) : bytes := concat (rev (drop_while is_whitespace (rev (Utf8.chars s)))).

(** What a line of input leads to. *)
Inductive cli_action : Type :=
| CliSkip
| CliParseError (e : bytes)
| CliExit
| CliMaster (arguments : list bytes)
| CliReplica (index : nat) (arguments : list bytes).

(** A round of the loop, with [replicas] connections to replicas. *)
Definition cli_round (replicas : nat) (replica_index : Z) (input : bytes) : cli_action * Z :=
  match parse_command_line (trim_end input) with
  | Err e => (CliParseError e, replica_index)
  | Ok [] => (CliSkip, replica_index)
  | Ok (name :: rest) =>
    if bool_decide (rest = []) && eq_ignore_ascii_case name (bs "exit") then (CliExit, replica_index)
    else if is_replica_routable_read (to_uppercase name) && negb (bool_decide (replicas = 0%nat))
    then (CliReplica (Z.to_nat (replica_index mod Z.of_nat replicas)) (name :: rest), wrap64 (replica_index + 1))
    else (CliMaster (name :: rest), replica_index)
  end.

(** * What a client reads is what the server wrote *)

(** A response as the client sees it. *)
Fixpoint seen (v : RESPValue) : RESPResponse :=
  match v with
  | SimpleString s => RSimpleString s
  | RError s => RErrorText s
  | Integer n => RInteger n
  | BulkString o => RBulkString o
  | Array l => RArray (Some (map seen l))
  end.

(** The elements of the arrays in a response. *)
Fixpoint elements (v : RESPValue) : Z :=
  match v with
  | Array l => len l + foldr (fun v n => elements v + n) 0 l
  | _ => 0
  end.

Definition line_ok (s : bytes) : Prop := newline ∉ s /\ len s + 3 <= MAX_RESPONSE_HEADER_SIZE.

(** A response whose parts a client with these limits accepts, in [depth] arrays. *)
Fixpoint readable (limits : RESPResponseLimits) (depth : Z) (v : RESPValue) : Prop :=
  match v with
  | SimpleString s | RError s => line_ok s
  | Integer n => I64_MIN <= n <= I64_MAX
  | BulkString None => True
  | BulkString (Some s) => len s <= max_response_bulk_len limits
  | Array l =>
    len l <= max_response_array_len limits /\ (l <> [] -> depth < max_depth limits) /\
    (fix all l := match l with [] => True | v :: l => readable limits (depth + 1) v /\ all l end) l
  end.

Lemma readable_all limits depth l :
  (fix all l := match l with [] => True | v :: l => readable limits (depth + 1) v /\ all l end) l <->
  Forall (readable limits (depth + 1)) l.
Proof. induction l as [|v l IH]; [done|]. by rewrite list.Forall_cons, IH. Qed.

(** Induction over the nesting of a response. *)
Lemma response_induction (P : RESPValue -> Prop) :
  (forall v, (forall l, v <> Array l) -> P v) -> (forall l, Forall P l -> P (Array l)) -> forall v, P v.
Proof.
  intros Hleaf Harray. fix IH 1. intros v. destruct v as [s|s|n|o|l]; try (apply Hleaf; intros l; discriminate).
  apply Harray. revert l. fix IHl 1. intros l. destruct l as [|v l]; [constructor|constructor; [apply IH|apply IHl]].
Qed.

(** ** Lines and payloads *)

Lemma position_line s rest : newline ∉ s -> position newline (s ++ crlf ++ rest) = Some (len s + 1).
Proof.
  intros Hn. rewrite position_app_none by (by apply position_none). done.
Qed.

Lemma read_line_here maximum r line rest :
  newline ∉ line -> len line + 2 <= maximum < U64_MAX -> stream r = line ++ crlf ++ rest ->
  exists r', read_bounded_line maximum r = (r', Ok (line ++ crlf)) /\ stream r' = rest /\ ends r' = ends r.
Proof.
  intros Hn Hm Hs. pose proof (len_nonneg line). destruct (read_bounded_line maximum r) as [r' x] eqn:E.
  apply read_bounded_line_spec in E as (He & Hx & Hl); [|lia]. unfold line_of in Hx.
  rewrite Hs, position_line in Hx by done. rewrite (proj2 (Z.ltb_ge _ _)) in Hx by lia.
  assert (Ht : take (Z.to_nat (len line + 1 + 1)) (line ++ crlf ++ rest) = line ++ crlf).
  { rewrite (assoc_L (++)). apply take_app_length'. rewrite length_app. change (length crlf) with 2%nat. unfold len. lia. }
  rewrite Ht in Hx. subst x. exists r'. split; [done|]. split; [|done].
  specialize (Hl _ eq_refl). rewrite Hs, (assoc_L (++)) in Hl. by apply app_inv_head in Hl.
Qed.

Lemma read_exact_here r s rest :
  stream r = s ++ rest -> exists r', read_exact (len s) r = (r', Ok s) /\ stream r' = rest /\ ends r' = ends r.
Proof.
  intros Hs. destruct (read_exact (len s) r) as [r' x] eqn:E.
  apply read_exact_spec in E as (He & Hx & Hl); [|apply len_nonneg]. unfold exactly in Hx.
  rewrite Hs, len_app, (proj2 (Z.leb_le _ _)) in Hx by (pose proof (len_nonneg rest); lia).
  assert (Ht : take (Z.to_nat (len s)) (s ++ rest) = s) by (apply take_app_length'; unfold len; lia).
  rewrite Ht in Hx. subst x. exists r'. split; [done|]. split; [|done].
  rewrite (Hl _ eq_refl), Hs. apply drop_app_length'. unfold len. lia.
Qed.

Lemma read_payload_here r s rest :
  stream r = s ++ crlf ++ rest -> exists r', read_bulk_payload (len s) r = (r', Ok s) /\ stream r' = rest /\ ends r' = ends r.
Proof.
  intros Hs. destruct (read_exact_here r s (crlf ++ rest) Hs) as (r1 & E1 & Hs1 & He1).
  destruct (read_exact_here r1 crlf rest Hs1) as (r2 & E2 & Hs2 & He2).
  unfold read_bulk_payload. rewrite E1. cbn [and_then]. change (len crlf) with 2 in E2. rewrite E2. cbn [and_then].
  exists r2. split; [done|]. split; [done|congruence].
Qed.

Lemma line_content_crlf line : line_content (line ++ crlf) = Ok line.
Proof. unfold line_content. by rewrite strip_suffix_app. Qed.

(** ** Numbers *)

Lemma no_nondigit s : Forall (fun b => is_ascii_digit b = true) s -> existsb (fun b => negb (is_ascii_digit b)) s = false.
Proof. induction 1 as [|b s Hb _ IH]; [done|]. cbn [existsb]. by rewrite Hb, IH. Qed.

Lemma fold_length s acc :
  Forall (fun b => is_ascii_digit b = true) s -> 0 <= acc -> digits_value acc s <= U64_MAX ->
  fold_left length_step s (Some acc) = Some (digits_value acc s).
Proof.
  revert acc. induction s as [|b s IH]; intros acc Hs Ha Hm; [done|].
  apply list.Forall_cons in Hs as [Hb Hs]. cbn [fold_left digits_value] in *. unfold is_ascii_digit in Hb. prop_tests.
  assert (Hd : 0 <= digit_value b) by (unfold digit_value; lia).
  pose proof (digits_value_mono s (acc * 10 + digit_value b) Hs ltac:(lia)) as Hmono.
  unfold length_step at 2. cbn [mbind option_bind]. unfold checked_mul. unfold digits_value in *.
  rewrite (proj2 (Z.leb_le _ _)) by lia. cbn [mbind option_bind]. unfold checked_add.
  rewrite (proj2 (Z.leb_le _ _)) by lia. apply IH; [done|lia|done].
Qed.

Lemma parse_length_print n field : 0 <= n <= U64_MAX -> parse_response_length (print_Z n) field = Ok (Some n).
Proof.
  intros Hn. destruct (print_Z_spec n) as (d & ds & E & Hd & Hv); [lia|]. unfold parse_response_length.
  assert (Hm : bytes_eqb (print_Z n) (bs "-1") = false).
  { rewrite E. apply list.Forall_cons in Hd as [Hd _]. by destruct d. }
  rewrite Hm, E, bool_decide_eq_false_2 by done. cbn [orb]. rewrite no_nondigit by done.
  rewrite fold_length by (try done; lia). by rewrite Hv.
Qed.

Lemma signed_text n :
  I64_MIN <= n <= I64_MAX ->
  exists ds, Forall (fun b => is_ascii_digit b = true) ds /\ ds <> [] /\ len ds <= 20 /\
    (print_i64 n = ds \/ print_i64 n = x2d :: ds).
Proof.
  intros Hn. unfold print_i64, I64_MIN, I64_MAX in *. exists (print_Z (Z.abs n)).
  destruct (print_Z_spec (Z.abs n)) as (d & ds & E & Hd & _); [lia|]. rewrite E. split; [done|]. split; [done|].
  rewrite <- E. split; [apply print_Z_length; unfold U64_MAX; lia|].
  destruct (Z.ltb_spec n 0); [right; by rewrite Z.abs_neq by lia|left; by rewrite Z.abs_eq by lia].
Qed.

Lemma parse_signed_print n field : I64_MIN <= n <= I64_MAX -> parse_signed_decimal (print_i64 n) field = Ok n.
Proof.
  intros Hn. destruct (signed_text n Hn) as (ds & Hd & Hne & _ & Hor).
  assert (Hv : Utf8.valid (print_i64 n) = true).
  { destruct Hor as [->| ->]; [by apply valid_digits|]. change (x2d :: ds) with ([x2d] ++ ds).
    apply Utf8.valid_app; [done|by apply valid_digits]. }
  unfold parse_signed_decimal, Utf8.from_utf8. rewrite Hv. rewrite parse_print_i64 by done.
  destruct ds as [|d ds]; [done|]. apply list.Forall_cons in Hd as Hd'. destruct Hd' as [Hd0 _].
  destruct Hor as [->| ->]; cbn [bool_decide].
  - rewrite bool_decide_eq_false_2 by done.
    assert (Hm : bytes_eqb (d :: ds) (bs "-") = false) by (by destruct d).
    assert (Hp : strip_prefix (bs "-") (d :: ds) = None) by (by destruct d).
    rewrite Hm, Hp. cbn [orb default]. by rewrite no_nondigit.
  - change (strip_prefix (bs "-") (x2d :: d :: ds)) with (Some (d :: ds)). cbn [default from_option].
    rewrite bool_decide_eq_false_2 by done. change (bytes_eqb (x2d :: d :: ds) (bs "-")) with false. cbn [orb].
    by rewrite no_nondigit.
Qed.

(** ** One token *)

(** The line and payload of a response without its elements. *)
Definition head_bytes (v : RESPValue) : bytes :=
  match v with Array l => bs "*" ++ print_Z (len l) ++ crlf | v => encode_value v end.

Definition token_of (v : RESPValue) : ResponseToken :=
  match v with Array l => TokenArray (len l) | v => TokenValue (seen v) end.

Lemma account_ok consumed added limit :
  0 <= consumed -> 0 <= added -> consumed + added <= limit -> limit <= U64_MAX ->
  account_frame_bytes consumed added limit = Ok (consumed + added).
Proof.
  intros H1 H2 H3 H4. unfold account_frame_bytes, checked_add. rewrite (proj2 (Z.leb_le _ _)) by lia.
  cbn [ok_or mbind result_bind]. by rewrite (proj2 (Z.ltb_ge _ _)) by lia.
Qed.

Lemma read_token_line limits consumed root r p c rest :
  newline ∉ p :: c -> len c + 3 <= MAX_RESPONSE_HEADER_SIZE -> 0 <= consumed ->
  consumed + (len c + 3) <= max_response_frame_len limits -> max_response_frame_len limits <= U64_MAX ->
  stream r = (p :: c) ++ crlf ++ rest ->
  exists r', read_response_token limits consumed root r = response_token limits (consumed + (len c + 3)) p c r' /\
    stream r' = rest /\ ends r' = ends r.
Proof.
  intros Hn Hh Hc Hf Hu Hs. pose proof (len_nonneg c).
  assert (Hlen : len (p :: c) = len c + 1) by (rewrite len_cons; lia).
  destruct (read_line_here (Z.min MAX_RESPONSE_HEADER_SIZE (max_response_frame_len limits)) r (p :: c) rest) as (r' & E & Hs' & He);
    [done|unfold MAX_RESPONSE_HEADER_SIZE, U64_MAX in *; lia|done|].
  exists r'. split; [|done]. unfold read_response_token. rewrite E. cbn [and_then].
  assert (Hl : len ((p :: c) ++ crlf) = len c + 3) by (rewrite len_app, Hlen; change (len crlf) with 2; lia).
  rewrite Hl, (proj2 (Z.eqb_neq _ _)) by lia. rewrite account_ok by lia. cbn [checked]. by rewrite line_content_crlf.
Qed.

Lemma print_i64_line n : I64_MIN <= n <= I64_MAX -> newline ∉ print_i64 n /\ len (print_i64 n) <= 21.
Proof.
  intros Hn. destruct (signed_text n Hn) as (ds & Hd & _ & Hl & Hor).
  assert (Hnl : newline ∉ ds) by (intros Hin; rewrite list.Forall_forall in Hd; by apply Hd in Hin).
  destruct Hor as [->| ->]; [split; [done|lia]|]. rewrite len_cons. split; [|lia].
  apply not_elem_of_cons. by split.
Qed.

Lemma print_Z_line n : 0 <= n <= U64_MAX -> newline ∉ print_Z n /\ len (print_Z n) <= 20.
Proof. intros Hn. split; [apply print_Z_no_newline; lia|apply print_Z_length; lia]. Qed.

(** The line of a response and the bytes that follow it. *)
Definition head_line (v : RESPValue) : byte * bytes :=
  match v with
  | SimpleString s => (x2b, s)
  | RError s => (x2d, s)
  | Integer n => (x3a, print_i64 n)
  | BulkString None => (x24, bs "-1")
  | BulkString (Some s) => (x24, print_Z (len s))
  | Array l => (x2a, print_Z (len l))
  end.

Definition head_payload (v : RESPValue) : bytes := match v with BulkString (Some s) => s ++ crlf | _ => [] end.

Lemma head_bytes_split v : head_bytes v = ((head_line v).1 :: (head_line v).2) ++ crlf ++ head_payload v.
Proof. destruct v as [s|s|n|[s|]|l]; cbn; by rewrite ?app_nil_r. Qed.

Lemma head_line_ok limits depth v :
  readable limits depth v -> max_response_bulk_len limits <= U64_MAX -> max_response_array_len limits <= U64_MAX ->
  newline ∉ (head_line v).1 :: (head_line v).2 /\ len (head_line v).2 + 3 <= MAX_RESPONSE_HEADER_SIZE.
Proof.
  intros Hv Hb Ha. rewrite not_elem_of_cons. unfold MAX_RESPONSE_HEADER_SIZE.
  destruct v as [s|s|n|[s|]|l]; cbn [head_line fst snd readable] in *.
  - destruct Hv as [H1 H2]. done.
  - destruct Hv as [H1 H2]. done.
  - destruct (print_i64_line n Hv). split; [done|lia].
  - pose proof (len_nonneg s). destruct (print_Z_line (len s)); [lia|]. split; [done|lia].
  - split; [split; [done|]|done]. intros H. by repeat (apply elem_of_cons in H as [H|H]; [done|]); apply elem_of_nil in H.
  - pose proof (len_nonneg l). destruct Hv as [Hl _]. destruct (print_Z_line (len l)); [lia|]. split; [done|lia].
Qed.

Record limits_sane (limits : RESPResponseLimits) : Prop := {
  sane_bulk : max_response_bulk_len limits <= max_response_frame_len limits;
  sane_array : max_response_array_len limits <= U64_MAX;
  sane_total : max_total_elements limits <= U64_MAX;
  sane_frame : max_response_frame_len limits <= I64_MAX
}.

Lemma read_token_here limits depth consumed root r v rest :
  limits_sane limits -> readable limits depth v -> 0 <= consumed ->
  consumed + len (head_bytes v) <= max_response_frame_len limits -> stream r = head_bytes v ++ rest ->
  exists r', read_response_token limits consumed root r = (r', Ok (Some (token_of v, consumed + len (head_bytes v)))) /\
    stream r' = rest /\ ends r' = ends r.
Proof.
  intros [Sb Sa _ Sf] Hv Hc Hf Hs. assert (Hi : I64_MAX + I64_MAX + 1 = U64_MAX) by reflexivity.
  assert (Hpos : 2 <= I64_MAX) by done.
  destruct (head_line_ok limits depth v Hv) as [Hn Hh]; [lia|lia|].
  rewrite head_bytes_split in Hf, Hs |- *. rewrite !len_app, len_cons in Hf |- *. change (len crlf) with 2 in Hf |- *.
  rewrite <- !(assoc_L (++)) in Hs. pose proof (len_nonneg (head_payload v)).
  destruct (read_token_line limits consumed root r (head_line v).1 (head_line v).2 (head_payload v ++ rest))
    as (r1 & E & Hs1 & He1); [done|done|done|lia|lia|done|].
  rewrite E. replace (consumed + (1 + len (head_line v).2 + (2 + len (head_payload v))))
    with (consumed + (len (head_line v).2 + 3) + len (head_payload v)) by lia.
  set (consumed' := consumed + (len (head_line v).2 + 3)) in *.
  destruct v as [s|s|n|[s|]|l]; cbn [head_line head_payload fst snd token_of seen readable] in *; unfold response_token;
    cbn [bool_decide decide]; change (len (@nil byte)) with 0; rewrite ?Z.add_0_r.
  - by exists r1.
  - by exists r1.
  - repeat (rewrite bool_decide_eq_false_2 by done); rewrite bool_decide_eq_true_2 by done. rewrite parse_signed_print by done. cbn [checked]. by exists r1.
  - repeat (rewrite bool_decide_eq_false_2 by done); rewrite bool_decide_eq_true_2 by done. pose proof (len_nonneg s).
    rewrite parse_length_print by lia. cbn [checked].
    rewrite (proj2 (Z.ltb_ge _ _)) by lia. rewrite len_app. change (len crlf) with 2. rewrite sat_add_exact by (unfold USIZE_MAX; lia).
    rewrite len_app in Hf. change (len crlf) with 2 in Hf. rewrite account_ok by (unfold consumed'; pose proof (len_nonneg (print_Z (len s))); lia).
    cbn [checked]. rewrite <- (assoc_L (++)) in Hs1. destruct (read_payload_here r1 s rest Hs1) as (r2 & E2 & Hs2 & He2).
    rewrite E2. cbn [and_then]. exists r2. split; [done|]. split; [done|congruence].
  - cbn. by exists r1.
  - repeat (rewrite bool_decide_eq_false_2 by done); rewrite bool_decide_eq_true_2 by done. pose proof (len_nonneg l).
    destruct Hv as [Hl _]. rewrite parse_length_print by lia. cbn [checked].
    rewrite (proj2 (Z.ltb_ge _ _)) by lia. by exists r1.
Qed.

(** ** Whole responses *)

(** How reading goes on once the value [v] is complete. *)
Definition after_value (limits : RESPResponseLimits) (fuel : nat) (consumed total : Z) (v : RESPResponse)
    (stack : list ArrayBuilder) (r : Reader) : Reader * result stop (option RESPResponse) :=
  match place v stack with
  | inl v => (r, Ok (Some v))
  | inr stack => read_response_loop fuel limits consumed total stack r
  end.

(** Reading [b] from the connection, with more to come, completes [v]. *)
Definition completes (limits : RESPResponseLimits) (b : bytes) (n : Z) (before : list ArrayBuilder) (v : RESPResponse)
    (stack : list ArrayBuilder) : Prop :=
  forall consumed total r rest fuel,
    0 <= consumed -> consumed + len b <= max_response_frame_len limits ->
    0 <= total -> total + n <= max_total_elements limits ->
    stream r = b ++ rest -> (length (stream r) < fuel)%nat ->
    exists r' fuel', read_response_loop fuel limits consumed total before r =
        after_value limits fuel' (consumed + len b) (total + n) v stack r' /\
      stream r' = rest /\ ends r' = ends r /\ (length rest < fuel')%nat.

Lemma encode_value_length v : (1 <= length (encode_value v))%nat.
Proof. destruct v as [s|s|n|[s|]|l]; simpl; lia. Qed.

Lemma elements_nonneg v : 0 <= elements v.
Proof.
  induction v as [v Hleaf|l IH] using response_induction; [by destruct v as [| | | |l]; try done; destruct (Hleaf l)|].
  cbn [elements]. pose proof (len_nonneg l). enough (0 <= foldr (fun v n => elements v + n) 0 l) by lia.
  induction IH as [|v l Hv _ IH]; cbn [foldr]; [lia|]. pose proof (len_nonneg l). lia.
Qed.

Lemma elements_sum_nonneg l : 0 <= foldr (fun v n => elements v + n) 0 l.
Proof. induction l as [|v l IH]; cbn [foldr]; [lia|]. pose proof (elements_nonneg v). lia. Qed.

Lemma leaf_completes limits depth v stack :
  limits_sane limits -> readable limits depth v -> head_bytes v = encode_value v -> elements v = 0 ->
  (token_of v = TokenValue (seen v) \/ v = Array []) -> completes limits (encode_value v) (elements v) stack (seen v) stack.
Proof.
  intros Hsane Hv Hh H0 Ht consumed total r rest fuel Hc Hf Htot Hmax Hs Hfuel. destruct fuel as [|fuel]; [lia|].
  rewrite <- Hh in Hs, Hf. cbn [read_response_loop].
  destruct (read_token_here limits depth consumed (bool_decide (stack = []) && (consumed =? 0)) r v rest Hsane Hv Hc Hf Hs)
    as (r' & E & Hs' & He). rewrite E. cbn [and_then]. exists r', fuel. rewrite H0, Z.add_0_r, <- Hh.
  pose proof (encode_value_length v). rewrite Hs, Hh, length_app in Hfuel.
  split; [|split; [done|split; [done|lia]]]. by destruct Ht as [->| ->].
Qed.

Lemma elements_complete limits depth l :
  limits_sane limits ->
  Forall (fun v => forall stack, len stack = depth + 1 -> readable limits (depth + 1) v ->
    completes limits (encode_value v) (elements v) stack (seen v) stack) l ->
  Forall (readable limits (depth + 1)) l -> l <> [] ->
  forall values stack, len stack = depth ->
  completes limits (concat (map encode_value l)) (foldr (fun v n => elements v + n) 0 l)
    ((len values + len l, values) :: stack) (RArray (Some (values ++ map seen l))) stack.
Proof.
  intros Hsane IH. induction IH as [|v l Hv _ IHl]; intros Hall Hne values stack Hdepth; [done|].
  apply list.Forall_cons in Hall as [Hread Hall].
  intros consumed total r rest fuel Hc Hf Htot Hmax Hs Hfuel. cbn [map concat foldr] in *.
  pose proof (len_nonneg (concat (map encode_value l))) as Hn1. pose proof (elements_nonneg v) as Hn2.
  pose proof (elements_sum_nonneg l) as Hn3.
  pose proof (len_nonneg (encode_value v)) as Hn4. rewrite len_app in Hf. rewrite <- (assoc_L (++)) in Hs.
  assert (Hd : len ((len values + len (v :: l), values) :: stack) = depth + 1) by (unfold len in *; simpl; lia).
  destruct (Hv ((len values + len (v :: l), values) :: stack) Hd Hread consumed total r
    (concat (map encode_value l) ++ rest) fuel) as (r1 & f1 & E1 & Hs1 & He1 & Hf1); [lia|lia|lia|lia|done|done|].
  rewrite E1. unfold after_value at 1. cbn [place]. rewrite len_app. change (len [seen v]) with 1. rewrite len_cons.
  destruct l as [|v' l].
  - rewrite (proj2 (Z.ltb_ge _ _)) by (change (len (@nil RESPValue)) with 0; lia).
    exists r1, f1. cbn [map concat foldr] in *. change (len (@nil byte)) with 0. rewrite app_nil_r, !Z.add_0_r.
    unfold after_value. done.
  - rewrite (proj2 (Z.ltb_lt _ _)) by (rewrite len_cons; pose proof (len_nonneg l); lia).
    destruct (IHl Hall ltac:(done) (values ++ [seen v]) stack Hdepth (consumed + len (encode_value v)) (total + elements v) r1 rest f1)
      as (r2 & f2 & E2 & Hs2 & He2 & Hf2); [lia|lia|lia|lia|done|by rewrite Hs1|].
    exists r2, f2. split; [|split; [done|split; [congruence|done]]].
    rewrite len_app in E2. change (len [seen v]) with 1 in E2.
    replace (len values + (1 + len (v' :: l))) with (len values + 1 + len (v' :: l)) by lia. rewrite E2.
    rewrite len_app, <- (assoc_L (++)). f_equal; lia.
Qed.

Lemma response_completes limits v :
  limits_sane limits -> forall depth stack, len stack = depth -> readable limits depth v ->
  completes limits (encode_value v) (elements v) stack (seen v) stack.
Proof.
  intros Hsane. induction v as [v Hleaf|l IH] using response_induction; intros depth stack Hdepth Hv.
  { apply (leaf_completes limits depth); try done; destruct v as [| | | |l]; try done; try (by destruct (Hleaf l)); by left. }
  destruct l as [|v0 l]; [apply (leaf_completes limits depth); try done; by right|].
  set (l' := v0 :: l) in *. cbn [readable] in Hv. rewrite readable_all in Hv. destruct Hv as (Hlen & Hdeep & Hall).
  specialize (Hdeep ltac:(done)).
  intros consumed total r rest fuel Hc Hf Htot Hmax Hs Hfuel. destruct fuel as [|fuel]; [lia|].
  assert (Hhead : encode_value (Array l') = head_bytes (Array l') ++ concat (map encode_value l')).
  { cbn [encode_value head_bytes]. by rewrite <- !(assoc_L (++)). }
  rewrite Hhead in Hf, Hs |- *. rewrite len_app in Hf |- *. cbn [elements seen] in *.
  pose proof (len_nonneg (concat (map encode_value l'))). pose proof (len_nonneg (head_bytes (Array l'))).
  rewrite <- (assoc_L (++)) in Hs. cbn [read_response_loop].
  destruct (read_token_here limits depth consumed (bool_decide (stack = []) && (consumed =? 0)) r (Array l')
    (concat (map encode_value l') ++ rest)) as (r1 & E & Hs1 & He1); [done| |done|lia|done|].
  { cbn [readable]. rewrite readable_all. done. }
  rewrite E. cbn [and_then token_of].
  assert (Hpos : 0 < len l') by (unfold l'; rewrite len_cons; pose proof (len_nonneg l); lia).
  rewrite (proj2 (Z.eqb_neq _ _)) by lia. rewrite (proj2 (Z.leb_gt _ _)) by lia.
  pose proof (elements_sum_nonneg l') as Hsum. destruct Hsane as [Sb Sa St Sf].
  unfold checked_add. rewrite (proj2 (Z.leb_le _ _)) by lia. cbn [ok_or checked]. rewrite (proj2 (Z.ltb_ge _ _)) by lia.
  destruct (elements_complete limits depth l' ltac:(by constructor)
    ltac:(eapply list.Forall_impl; [exact IH|]; intros v Hv stk Hstk; by apply Hv) Hall ltac:(done) [] stack Hdepth
    (consumed + len (head_bytes (Array l'))) (total + len l') r1 rest fuel) as (r2 & f2 & E2 & Hs2 & He2 & Hf2);
    [lia|lia|lia|lia|done| |].
  { rewrite Hs, length_app in Hfuel. rewrite Hs1. assert (1 <= length (head_bytes (Array l')))%nat by (cbn; lia). lia. }
  change (len (@nil RESPResponse)) with 0 in E2. rewrite Z.add_0_l in E2. rewrite E2. exists r2, f2.
  split; [|split; [done|split; [congruence|done]]]. cbn [app]. f_equal; lia.
Qed.

(** ** Responses in a row *)

(** The client reads a response for each command it sent. *)
Fixpoint read_responses (n : nat) (limits : RESPResponseLimits) (r : Reader) : Reader * result stop (list RESPResponse) :=
  match n with
  | O => (r, Ok [])
  | S n =>
    and_then (read_response limits r) (fun v r =>
      match v with
      | None => (r, Err (Failed (mkIoError UnexpectedEof (bs "RESP connection closed"))))
      | Some v => and_then (read_responses n limits r) (fun l r => (r, Ok (v :: l)))
      end)
  end.

(** A response that a client accepts as a whole. *)
Record acceptable_response (limits : RESPResponseLimits) (v : RESPValue) : Prop := {
  ar_readable : readable limits 0 v;
  ar_frame : len (encode_value v) <= max_response_frame_len limits;
  ar_elements : elements v <= max_total_elements limits
}.

Lemma read_response_here limits v r rest :
  limits_sane limits -> acceptable_response limits v -> stream r = encode_value v ++ rest ->
  exists r', read_response limits r = (r', Ok (Some (seen v))) /\ stream r' = rest /\ ends r' = ends r.
Proof.
  intros Hsane [Hv Hf He] Hs.
  destruct (response_completes limits v Hsane 0 [] eq_refl Hv 0 0 r rest (S (length (stream r)))) as (r' & f & E & Hs' & He' & _);
    [lia|lia|lia|lia|done|lia|].
  by exists r'.
Qed.

Lemma read_responses_here limits vs r rest :
  limits_sane limits -> Forall (acceptable_response limits) vs -> stream r = concat (map encode_value vs) ++ rest ->
  exists r', read_responses (length vs) limits r = (r', Ok (map seen vs)) /\ stream r' = rest /\ ends r' = ends r.
Proof.
  intros Hsane Hall. revert r. induction Hall as [|v vs Hv _ IH]; intros r Hs; [by exists r|].
  cbn [map concat length read_responses] in *. rewrite <- (assoc_L (++)) in Hs.
  destruct (read_response_here limits v r _ Hsane Hv Hs) as (r1 & E1 & Hs1 & He1). rewrite E1. cbn [and_then].
  destruct (IH r1 Hs1) as (r2 & E2 & Hs2 & He2). rewrite E2. cbn [and_then]. exists r2. split_and!; [done|done|congruence].
Qed.

Lemma default_limits_sane : limits_sane DEFAULT_RESPONSE_LIMITS.
Proof. by constructor. Qed.

(** ** A response that is cut off *)

Definition reads_on {A} (more : bytes) (f : Reader -> Reader * result stop A) (r r2 : Reader) : Prop :=
  forall r1 a, f r = (r1, Ok a) -> exists r3, f r2 = (r3, Ok a) /\ stream r3 = stream r1 ++ more.

Lemma line_more maximum r r1 line r2 more :
  0 <= maximum < U64_MAX -> read_bounded_line maximum r = (r1, Ok line) -> newline ∈ line -> stream r2 = stream r ++ more ->
  exists r3, read_bounded_line maximum r2 = (r3, Ok line) /\ stream r3 = stream r1 ++ more.
Proof.
  intros Hm E Hn Hs. apply read_bounded_line_spec in E as (_ & Hx & Hl); [|done]. specialize (Hl _ eq_refl).
  destruct (read_bounded_line maximum r2) as [r3 x] eqn:E2. apply read_bounded_line_spec in E2 as (_ & Hx2 & Hl2); [|done].
  unfold line_of in Hx, Hx2. rewrite Hs in Hx2. destruct (position newline (stream r)) as [p|] eqn:Ep.
  - rewrite (position_app _ _ _ _ Ep) in Hx2. destruct (maximum <? p + 1); [done|].
    apply position_range in Ep. rewrite take_app_Z in Hx2 by lia. rewrite <- Hx in Hx2. subst x.
    exists r3. split; [done|]. specialize (Hl2 _ eq_refl). rewrite Hs, Hl, <- (assoc_L (++)) in Hl2. by apply app_inv_head in Hl2.
  - apply position_none in Ep. rewrite Hl in Ep. destruct Ep. apply elem_of_app. by left.
Qed.

Lemma exact_more n r r2 more : 0 <= n -> stream r2 = stream r ++ more -> reads_on more (read_exact n) r r2.
Proof.
  intros Hn Hs r1 s E. apply read_exact_spec in E as (_ & Hx & Hl); [|done]. specialize (Hl _ eq_refl).
  destruct (read_exact n r2) as [r3 x] eqn:E2. apply read_exact_spec in E2 as (_ & Hx2 & Hl2); [|done].
  unfold exactly in Hx, Hx2. destruct (Z.leb_spec n (len (stream r))) as [Hle|]; [|done].
  rewrite Hs, len_app in Hx2. pose proof (len_nonneg more). rewrite (proj2 (Z.leb_le _ _)) in Hx2 by lia.
  rewrite take_app_Z, <- Hx in Hx2 by lia. subst x. exists r3. split; [done|].
  rewrite (Hl2 _ eq_refl), Hl, Hs, drop_app_Z by lia. done.
Qed.

Lemma payload_more n r r2 more : 0 <= n -> stream r2 = stream r ++ more -> reads_on more (read_bulk_payload n) r r2.
Proof.
  intros Hn Hs r1 s. unfold read_bulk_payload. destruct (read_exact n r) as [ra [a|]] eqn:Ea; cbn [and_then]; [|done].
  destruct (exact_more n r r2 more Hn Hs ra a Ea) as (rb & -> & Hsb). cbn [and_then].
  destruct (read_exact 2 ra) as [rc [t|]] eqn:Et; cbn [and_then]; [|done].
  destruct (exact_more 2 ra rb more ltac:(lia) Hsb rc t Et) as (rd & -> & Hsd). cbn [and_then].
  destruct (negb _); [done|]. intros [= <- <-]. by exists rd.
Qed.

Lemma parse_length_range b field n : parse_response_length b field = Ok (Some n) -> 0 <= n.
Proof.
  unfold parse_response_length. destruct (bytes_eqb _ _); [done|]. destruct (_ || _) eqn:Ed; [done|].
  apply orb_false_iff in Ed as [_ Ed]. intros H.
  assert (Hf : forall s acc, 0 <= acc -> existsb (fun b => negb (is_ascii_digit b)) s = false ->
    match fold_left length_step s (Some acc) with Some n => 0 <= n | None => True end).
  { clear. assert (Hnone : forall s, fold_left length_step s None = None) by (intros s; by induction s).
    intros s. induction s as [|b s IH]; intros acc Ha Hd; [done|]. cbn [fold_left existsb] in *.
    apply orb_false_iff in Hd as [Hb Hd]. apply negb_false_iff in Hb. unfold is_ascii_digit in Hb. prop_tests.
    unfold length_step at 2. cbn [mbind option_bind]. unfold checked_mul, checked_add.
    destruct (_ <=? _); cbn [mbind option_bind]; [|by rewrite Hnone]. destruct (_ <=? _); [|by rewrite Hnone].
    apply IH; [unfold digit_value; lia|done]. }
  specialize (Hf b 0 ltac:(lia) Ed). destruct (fold_left length_step b (Some 0)); [|done]. by injection H as <-.
Qed.

Lemma token_body_more limits consumed p c r r2 more :
  stream r2 = stream r ++ more -> reads_on more (response_token limits consumed p c) r r2.
Proof.
  intros Hs r1 t. unfold response_token.
  repeat match goal with
  | |- (if bool_decide ?P then _ else _) = _ -> _ => destruct (bool_decide P)
  | |- checked (parse_signed_decimal ?a ?b) _ _ = _ -> _ => destruct (parse_signed_decimal a b); cbn [checked]
  | |- checked (parse_response_length ?a ?b) _ _ = _ -> _ => destruct (parse_response_length a b) as [[n|]|] eqn:En; cbn [checked]
  | |- (if ?b then _ else _) = _ -> _ => destruct b
  | |- (_, Ok _) = _ -> _ => intros [= <- <-]; by exists r2
  | |- (_, Err _) = _ -> _ => done
  end.
  destruct (account_frame_bytes _ _ _); cbn [checked]; [|done].
  destruct (read_bulk_payload n r) as [ra [payload|]] eqn:Ea; cbn [and_then]; [|done]. intros [= <- <-].
  destruct (payload_more n r r2 more (parse_length_range _ _ _ En) Hs ra payload Ea) as (r3 & -> & H3). by exists r3.
Qed.

Lemma token_more limits consumed root r r2 r1 t more :
  0 <= max_response_frame_len limits -> stream r2 = stream r ++ more ->
  read_response_token limits consumed root r = (r1, Ok (Some t)) ->
  exists r3, read_response_token limits consumed root r2 = (r3, Ok (Some t)) /\ stream r3 = stream r1 ++ more.
Proof.
  intros Hm Hs. unfold read_response_token. set (maximum := Z.min _ _).
  assert (Hmax : 0 <= maximum < U64_MAX) by (unfold maximum, MAX_RESPONSE_HEADER_SIZE, U64_MAX; lia).
  destruct (read_bounded_line maximum r) as [ra [line|]] eqn:Ea; cbn [and_then]; [|done].
  destruct (len line =? 0) eqn:El; [by destruct root|].
  destruct (account_frame_bytes _ _ _) as [consumed'|] eqn:Eacc; cbn [checked]; [|done].
  destruct (line_content line) as [content|] eqn:Ec; cbn [checked]; [|done].
  assert (Hn : newline ∈ line).
  { destruct (decide (newline ∈ line)) as [|Hno]; [done|]. by rewrite no_crlf in Ec. }
  destruct (line_more maximum r ra line r2 more Hmax Ea Hn Hs) as (rb & -> & Hsb). cbn [and_then].
  rewrite El, Eacc. cbn [checked]. rewrite Ec. cbn [checked].
  destruct content as [|p c]; [done|]. by apply (token_body_more limits consumed' p c ra rb more Hsb r1 (Some t)).
Qed.

Lemma loop_more limits more fuel consumed total stack r r2 r1 v :
  0 <= max_response_frame_len limits -> stream r2 = stream r ++ more ->
  read_response_loop fuel limits consumed total stack r = (r1, Ok (Some v)) ->
  forall fuel2, (fuel <= fuel2)%nat ->
  exists r3, read_response_loop fuel2 limits consumed total stack r2 = (r3, Ok (Some v)) /\ stream r3 = stream r1 ++ more.
Proof.
  intros Hm. revert consumed total stack r r2 r1. induction fuel as [|fuel IH]; intros consumed total stack r r2 r1 Hs; [done|].
  cbn [read_response_loop]. intros E fuel2 Hle. destruct fuel2 as [|fuel2]; [lia|]. cbn [read_response_loop].
  destruct (read_response_token limits consumed _ r) as [ra [[[t c]|]|]] eqn:Et; cbn [and_then] in E; [|done|done].
  destruct (token_more limits consumed _ r r2 ra (t, c) more Hm Hs Et) as (rb & -> & Hsb). cbn [and_then].
  assert (Hfinish : forall w, match place w stack with
      | inl w => (ra, Ok (Some w)) | inr stack => read_response_loop fuel limits c total stack ra end = (r1, Ok (Some v)) ->
    exists r3, match place w stack with
      | inl w => (rb, Ok (Some w)) | inr stack => read_response_loop fuel2 limits c total stack rb end = (r3, Ok (Some v)) /\
      stream r3 = stream r1 ++ more).
  { intros w. destruct (place w stack) as [w'|stack'].
    - intros [= <- <-]. by exists rb.
    - intros E'. eapply IH; [exact Hsb|exact E'|lia]. }
  destruct t as [w|expected]; [by apply Hfinish|]. destruct (expected =? 0); [by apply Hfinish|].
  destruct (max_depth limits <=? len stack); [done|].
  destruct (ok_or (checked_add total expected) _) as [total'|]; cbn [checked] in *; [|done].
  destruct (max_total_elements limits <? total'); [done|]. eapply IH; [exact Hsb|exact E|lia].
Qed.

(** From a part of a response no value is read. *)
Lemma cut_response limits v r part missing :
  limits_sane limits -> 0 <= max_response_frame_len limits -> acceptable_response limits v ->
  encode_value v = part ++ missing -> missing <> [] -> stream r = part ->
  forall w, (read_response limits r).2 <> Ok (Some w).
Proof.
  intros Hsane Hm Hv Henc Hne Hs w. destruct (read_response limits r) as [r1 x] eqn:E. cbn [snd]. intros ->.
  set (r2 := mkReader (part ++ missing) [] (ends r)).
  assert (Hs2 : stream r2 = stream r ++ missing) by (unfold r2, stream at 1; cbn; by rewrite app_nil_r, Hs).
  destruct (loop_more limits missing _ 0 0 [] r r2 r1 w Hm Hs2 E (S (length (stream r2)))) as (r3 & E3 & Hs3).
  { rewrite Hs2, length_app. lia. }
  destruct (read_response_here limits v r2 [] Hsane Hv) as (r4 & E4 & Hs4 & _).
  { rewrite Hs2, Hs, app_nil_r. done. }
  unfold read_response in E4. rewrite E3 in E4. injection E4 as -> _. rewrite Hs4 in Hs3.
  symmetry in Hs3. by apply app_eq_nil in Hs3 as [_ ?].
Qed.

(** ** Pipelines *)

(** The server reads commands from the connection one after the other. *)
Fixpoint read_commands (n : nat) (r : Reader) : Reader * result stop (list (list bytes)) :=
  match n with
  | O => (r, Ok [])
  | S n =>
    and_then (read_command_with_limits CLIENT_RESP_LIMITS r) (fun command r =>
      match command with
      | None => (r, Err (Failed err_early_eof))
      | Some command => and_then (read_commands n r) (fun l r => (r, Ok (command :: l)))
      end)
  end.

Lemma encode_command_append command buffer out :
  encode_command command buffer CLIENT_RESP_LIMITS = Ok out ->
  exists frame, encode_command command [] CLIENT_RESP_LIMITS = Ok frame /\ out = buffer ++ frame.
Proof.
  unfold encode_command. case_bool_decide; [done|]. destruct (_ <? _); [done|].
  destruct (ok_or _ _) as [start|]; [|done]. cbn [mbind result_bind].
  destruct (fold_left _ command (Ok start)) as [n|]; [|done]. cbn [mbind result_bind]. destruct (_ <? _); [done|].
  intros [= <-]. eexists. split; [done|]. done.
Qed.

(** The frames of a pipeline, one behind the other. *)
Lemma encode_pipeline_frames commands buffer out :
  encode_pipeline commands buffer = Ok out ->
  exists frames, Forall2 (fun c f => encode_command c [] CLIENT_RESP_LIMITS = Ok f) commands frames /\
    out = buffer ++ concat frames /\ (commands <> [] -> len out <= MAX_PIPELINE_BYTES).
Proof.
  revert buffer. induction commands as [|c rest IH]; intros buffer; cbn [encode_pipeline].
  { intros [= <-]. exists []. split; [constructor|]. split; [by rewrite app_nil_r|done]. }
  destruct (encode_command c buffer CLIENT_RESP_LIMITS) as [b|] eqn:E; [|done]. cbn [mbind result_bind].
  destruct (Z.ltb_spec MAX_PIPELINE_BYTES (len b)) as [|Hb]; [done|]. intros H.
  apply encode_command_append in E as (f & Ef & ->). destruct (IH _ H) as (frames & Hf & -> & Hlen).
  exists (f :: frames). split; [by constructor|]. split; [by rewrite <- (assoc_L (++))|]. intros _.
  destruct rest as [|c' rest]; [|by apply Hlen]. inversion Hf; subst. cbn. by rewrite app_nil_r.
Qed.

Lemma client_limits_fit : limits_fit CLIENT_RESP_LIMITS.
Proof. by repeat split. Qed.

Lemma encode_command_count command frame :
  encode_command command [] CLIENT_RESP_LIMITS = Ok frame -> len command <= U64_MAX.
Proof.
  unfold encode_command. case_bool_decide; [done|].
  destruct (Z.ltb_spec (max_array_len CLIENT_RESP_LIMITS) (len command)) as [|Hl]; [done|]. intros _.
  etrans; [exact Hl|done].
Qed.

Lemma read_commands_here commands frames r rest :
  Forall2 (fun c f => encode_command c [] CLIENT_RESP_LIMITS = Ok f) commands frames ->
  Forall (Forall (fun a => Utf8.valid a = true)) commands ->
  stream r = concat frames ++ rest -> len (stream r) <= I64_MAX ->
  exists r', read_commands (length commands) r = (r', Ok commands) /\ stream r' = rest /\ ends r' = ends r.
Proof.
  intros Hf. revert r. induction Hf as [|c f commands frames Hc _ IH]; intros r Hv Hs Hlen; [by exists r|].
  apply list.Forall_cons in Hv as [Hvc Hv]. cbn [length read_commands concat] in *. rewrite <- (assoc_L (++)) in Hs.
  pose proof (read_command_spec CLIENT_RESP_LIMITS r client_limits_fit Hlen) as [He Hr].
  rewrite Hs, (decode_encoded_command c CLIENT_RESP_LIMITS f _ Hc Hvc (encode_command_count c f Hc)) in Hr.
  destruct (read_command_with_limits CLIENT_RESP_LIMITS r) as [r1 x]. cbn [fst snd] in *. destruct Hr as [-> Hs1]. cbn [and_then].
  assert (Hd : drop (Z.to_nat (len f)) (f ++ concat frames ++ rest) = concat frames ++ rest).
  { apply drop_app_length'. unfold len. lia. }
  rewrite Hd in Hs1.
  destruct (IH r1 Hv Hs1) as (r2 & E2 & Hs2 & He2).
  { rewrite Hs1. rewrite Hs, len_app in Hlen. pose proof (len_nonneg f). lia. }
  rewrite E2. cbn [and_then]. exists r2. split_and!; [done|done|congruence].
Qed.

(** * Command lines *)

Definition escape_character (c : bytes) : list bytes :=
  if bytes_eqb c [x22] || bytes_eqb c [x5c] then [[x5c]; c] else [c].

(** An argument in double quotes, with quotes and backslashes escaped. *)
Definition quote_argument (a : bytes) : bytes :=
  [x22] ++ concat (concat (map escape_character (Utf8.chars a))) ++ [x22].

(** A line from which the arguments are read back. *)
Definition command_line (arguments : list bytes) : bytes :=
  match arguments with
  | [] => []
  | a :: rest => quote_argument a ++ concat (map (fun a => [x20] ++ quote_argument a) rest)
  end.

Lemma chars_valid s : Utf8.valid s = true -> Forall (fun c => Utf8.valid c = true /\ Utf8.chars c = [c]) (Utf8.chars s).
Proof.
  induction s as [|s Hs IH] using Utf8.chunk_ind; [constructor|]. intros Hv.
  rewrite Utf8.valid_step in Hv by done. apply andb_true_iff in Hv as [Hc Hv]. unfold Utf8.chars.
  rewrite Utf8.chunks_step by done. cbn [map snd]. constructor; [|by apply IH].
  pose proof (Utf8.valid_char s Hs Hc) as Hvc. split; [done|]. set (c := take (Utf8.next_chunk s).2 s) in *.
  pose proof (Utf8.next_chunk_bounds s Hs) as Hb.
  assert (Hn : Utf8.next_chunk c = Utf8.next_chunk s).
  { rewrite <- (Utf8.next_chunk_char s []) by done. by rewrite app_nil_r. }
  assert (Hl : length c = (Utf8.next_chunk s).2) by (unfold c; rewrite length_take; lia).
  assert (Hne : c <> []) by (intros Hx; rewrite Hx in Hl; simpl in Hl; lia).
  rewrite Utf8.chunks_step, Hn by done. cbn [map snd]. rewrite <- Hl, drop_all. cbn. by rewrite take_ge by lia.
Qed.

(** A string put together from characters. *)
Lemma chars_concat cs : Forall (fun c => Utf8.valid c = true /\ Utf8.chars c = [c]) cs ->
  Utf8.chars (concat cs) = cs /\ Utf8.valid (concat cs) = true.
Proof.
  induction 1 as [|c cs [Hv Hc] _ [IH1 IH2]]; [done|]. cbn [concat].
  rewrite chars_app, Hc, IH1 by done. split; [done|by apply Utf8.valid_app].
Qed.

Definition quoted_chars (a : bytes) : list bytes := [x22] :: concat (map escape_character (Utf8.chars a)) ++ [[x22]].

Lemma quote_argument_chars a : Utf8.valid a = true ->
  Utf8.chars (quote_argument a) = quoted_chars a /\ Utf8.valid (quote_argument a) = true.
Proof.
  intros Hv. replace (quote_argument a) with (concat (quoted_chars a)).
  2: { unfold quoted_chars, quote_argument. cbn [concat]. by rewrite concat_app. }
  apply chars_concat. unfold quoted_chars. constructor; [done|]. apply list.Forall_app. split; [|by repeat constructor].
  apply List.Forall_concat, List.Forall_map. eapply list.Forall_impl; [by apply chars_valid|]. intros c Hc. cbn.
  unfold escape_character. destruct (_ || _); [constructor; [done|]|]; constructor; try done; constructor.
Qed.

Lemma fold_escaped cs args current :
  fold_left split_character (concat (map escape_character cs)) (mkSplitting args current QuoteDouble false true) =
  mkSplitting args (current ++ concat cs) QuoteDouble false true.
Proof.
  revert current. induction cs as [|c cs IH]; intros current; cbn [map concat]; [by rewrite app_nil_r|].
  rewrite fold_left_app, (assoc_L (++)), <- IH. f_equal. unfold escape_character.
  destruct (bytes_eqb c [x22] || bytes_eqb c [x5c]) eqn:E; [done|].
  apply orb_false_iff in E as [E1 E2]. cbn [fold_left split_character]. by rewrite E1, E2.
Qed.

Lemma fold_quoted a args :
  fold_left split_character (quoted_chars a) (mkSplitting args [] QuoteNone false false) = mkSplitting args a QuoteNone false true.
Proof.
  unfold quoted_chars. cbn [fold_left]. rewrite fold_left_app.
  change (split_character (mkSplitting args [] QuoteNone false false) [x22]) with (mkSplitting args [] QuoteDouble false true).
  rewrite fold_escaped, Utf8.concat_chars. done.
Qed.

Lemma fold_arguments rest : Forall (fun a => Utf8.valid a = true) rest -> forall args a,
  exists args' last, args ++ a :: rest = args' ++ [last] /\
    fold_left split_character (Utf8.chars (concat (map (fun a => [x20] ++ quote_argument a) rest)))
      (mkSplitting args a QuoteNone false true) = mkSplitting args' last QuoteNone false true.
Proof.
  induction 1 as [|b rest Hb _ IH]; intros args a; [by exists args, a|].
  destruct (quote_argument_chars b Hb) as [Hq Hqv]. cbn [map concat]. rewrite <- (assoc_L (++)).
  rewrite chars_app by done. change (Utf8.chars [x20]) with [[x20]]. rewrite fold_left_app. cbn [fold_left].
  change (split_character (mkSplitting args a QuoteNone false true) [x20]) with (mkSplitting (args ++ [a]) [] QuoteNone false false).
  rewrite chars_app, fold_left_app, Hq, fold_quoted by done.
  destruct (IH (args ++ [a]) b) as (args' & last & Hl & E). exists args', last. split; [|exact E].
  by rewrite <- Hl, <- (assoc_L (++)).
Qed.

Lemma parse_command_line_quoted arguments :
  Forall (fun a => Utf8.valid a = true) arguments -> parse_command_line (command_line arguments) = Ok arguments.
Proof.
  intros Hv. destruct Hv as [|a rest Ha Hv]; [done|]. destruct (quote_argument_chars a Ha) as [Hq Hqv].
  unfold parse_command_line, command_line. rewrite chars_app, fold_left_app, Hq, fold_quoted by done.
  destruct (fold_arguments rest Hv [] a) as (args' & last & Hl & ->). by rewrite <- Hl.
Qed.

(** The command-line client. *)
Lemma cli_round_routes replicas index input :
  match (cli_round replicas index input).1 with
  | CliReplica i args =>
    (i < replicas)%nat /\ parse_command_line (trim_end input) = Ok args /\
    is_write_command (to_uppercase (arg_or_empty args 0)) = false
  | CliMaster args => parse_command_line (trim_end input) = Ok args /\ args <> []
  | CliExit => exists name, parse_command_line (trim_end input) = Ok [name]
  | CliSkip => parse_command_line (trim_end input) = Ok []
  | CliParseError e => parse_command_line (trim_end input) = Err e
  end.
Proof.
  unfold cli_round. destruct (parse_command_line (trim_end input)) as [[|name rest]|e]; [done| |done].
  destruct (bool_decide (rest = []) && eq_ignore_ascii_case name (bs "exit")) eqn:Ex.
  { apply andb_true_iff in Ex as [Hr _]. apply bool_decide_eq_true in Hr as ->. by exists name. }
  destruct (is_replica_routable_read (to_uppercase name) && _) eqn:Er; [|by split].
  apply andb_true_iff in Er as [Hread Hne]. prop_tests. cbn [fst]. split; [|split; [done|by apply routable_not_write]].
  pose proof (Z.mod_pos_bound index (Z.of_nat replicas) ltac:(lia)). lia.
Qed.
