(* ===== verification/CoordinatorSpec.v ===== *)
(** * CoordinatorSpec: a prepared request commits what it did or undoes it

    Seen at a time [T] that is not before any clock reading, the state is a
    function from keys to logical cells.  A prepared mutation comes with a batch
    that reproduces it and a rollback that undoes it; anything else leaves the
    cells as they were. *)

From Stdlib Require Import ZArith Lia.
From Stdlib Require Import Strings.Byte.
From stdpp Require Import base gmap list strings numbers sorting.
From S2P Require Import Prelude Text Json JsonPath Value Shard ShardSpec Engine EngineSpec EngineMulti EngineActs Store Persistence Model EntryEq StoreSpec ModelSpec Resp Execution ExecutionSpec Admission ServerInfo Coordinator.

Open Scope Z_scope.

Definition cells {JN : JsonNumber} : Type := bytes -> option PersistentEntry.

(** Every reading of the world is at most [T]. *)
Definition world_before (w : world) (T : Z) : Prop := forall p, clock_before (w_clock w p) T.

Lemma world_before_stage w n T : world_before w T -> world_before (stage w n) T.
Proof. intros H p. apply H. Qed.

Lemma world_before_clock w n T : world_before w T -> clock_before (clock_of w n) T.
Proof. intros H. apply H. Qed.

Lemma world_before_clocks w n T : world_before w T -> forall i, clock_before (clocks_of w n i) T.
Proof. intros H i. apply H. Qed.

#[export] Hint Resolve world_before_stage world_before_clock world_before_clocks : onyx.

Lemma retain_unique_spec seen keys :
  NoDup (retain_unique seen keys) /\ forall k, k ∈ retain_unique seen keys -> k ∉ seen.
Proof.
  revert seen. induction keys as [|k keys IH]; intros seen; cbn [retain_unique].
  - split; [constructor|by intros ? ?%not_elem_of_nil].
  - case_bool_decide as Hk; [apply IH|]. destruct (IH ({[k]} ∪ seen)) as [H1 H2]. split.
    + apply list.NoDup_cons. split; [|done]. intros Hin. apply (H2 _ Hin). set_solver.
    + intros k' [->|Hin]%elem_of_cons; [done|]. specialize (H2 _ Hin). set_solver.
Qed.

Lemma affected_keys_NoDup args : NoDup (affected_keys args).
Proof. apply retain_unique_spec. Qed.

Section Preparing.
Context {JN : JsonNumber} {SJ : SerdeJson} {HO : HashOrder} {FT : FloatText}.
Context (parsed_wf : forall s v, json_from_str s = Some v -> wf_value v).
Context (T : Z).

(** A store that is well formed, with the limits [lim]. *)
Record sound (lim : Z * EvictionPolicy) (st : ShardedStore) : Prop := {
  so_good : good_store st;
  so_memory : maxmemory_bytes st = lim.1;
  so_policy : maxmemory_policy st = lim.2
}.

Lemma sound_step lim st st' :
  sound lim st -> engine_ok (engine st') -> keeps_values st st' -> same_limits st st' -> sound lim st'.
Proof.
  intros [[_ Hv] H1 H2] Hok Hk [L1 L2]. constructor; [|congruence|congruence].
  constructor; [done|by apply Hk].
Qed.

Lemma sound_quiet lim st st' : sound lim st -> quiet_run T st st' -> sound lim st'.
Proof. intros Hs [Q1 _ Q2 _ Q4]. by eapply sound_step. Qed.

(** What an attempt knows of the change from [pre] to [post]. *)
Record covers (keys : list bytes) (pre post : cells) (before : gmap bytes (option DataEntry))
    (evicted : list (bytes * DataEntry)) : Prop := {
  co_before : forall k, k ∈ keys -> exists o, before !! k = Some o /\ logical_cell T o = pre k;
  co_only : forall k, k ∉ keys -> before !! k = None;
  co_once : NoDup evicted.*1;
  co_evicted : forall k en, (k, en) ∈ evicted -> k ∉ keys /\ logical_cell T (Some en) = pre k;
  co_frame : forall k, k ∉ keys -> k ∉ evicted.*1 -> post k = pre k;
  co_gone : forall k, k ∈ evicted.*1 -> post k = None;
  co_values : map_Forall (fun _ o => cell_ok o) before;
  co_victims : Forall (fun ke => value_ok (value ke.2)) evicted
}.

Lemma covers_post keys pre post post' before evicted :
  covers keys pre post before evicted -> (forall k, post' k = post k) ->
  covers keys pre post' before evicted.
Proof.
  intros [C1 C2 C3 C4 C5 C6 C7 C8] H. constructor; try done.
  - intros k Hk He. by rewrite H, C5.
  - intros k Hk. by rewrite H, C6.
Qed.

(** The batch, applied to cells [pre], gives cells that agree with [post]. *)
Definition replays (batch : CommittedBatch) (pre post : cells) : Prop :=
  forall k, same_entry (fold_left (effect_on T k) (effects batch) (pre k)) (post k).

(** The rollback takes any store with cells [post] back to cells [pre], also
    up to a relation coarser than equality. *)
Definition undoes (rb : MutationRollback) (pre post : cells) : Prop :=
  forall (R : relation (option PersistentEntry)) lim clks st, Reflexive R ->
  (forall i, clock_before (clks i) T) -> sound lim st -> (forall k, R (cell_at T st k) (post k)) ->
  exists st', rollback_restore clks rb st = Some (st', tt) /\ sound lim st' /\
    forall k, R (cell_at T st' k) (pre k).

(** ** Stages *)

Lemma begin_stage lim clk keys st :
  clock_before clk T -> sound lim st -> 0 <= lim.1 ->
  exists st' a, begin_mutation clk keys st = Some (st', a) /\ sound lim st' /\
    covers keys (cell_at T st) (cell_at T st') (before_entries a) [] /\ evicted_entries a = [] /\
    (lim.1 <> 0 -> is_Some (memory_before a)) /\ (forall k, cell_at T st' k = cell_at T st k).
Proof.
  intros Hclk Hs Hl. destruct Hs as [[Hok Hv] Hm Hp] eqn:E. clear E.
  destruct (begin_mutation_spec T clk keys st) as (st' & a & H & Q & [C1 C2 C3 C4] & He & _);
    [done|done|lia|].
  exists st', a. split; [done|]. split; [by eapply sound_quiet|]. split; [|split; [done|split; [by rewrite <- Hm|apply Q]]].
  constructor; [done|done|constructor|by intros k en ?%not_elem_of_nil| |by intros k ?%not_elem_of_nil
    |by apply C4|constructor].
  intros k _ _. apply (qr_cells _ _ _ Q).
Qed.

Lemma run_stage {A} lim keys (quiet : A -> Prop) (p : prog A) pre before st :
  spec T (list_to_set keys) quiet p -> sound lim st -> covers keys pre (cell_at T st) before [] ->
  exists st' a, p st = Some (st', a) /\ sound lim st' /\ covers keys pre (cell_at T st') before [].
Proof.
  intros Hp [Hg Hm Hpol] [C1 C2 C3 C4 C5 C6 C7 C8].
  destruct (Hp st Hg) as (st' & a & H & [Hg' [L1 L2] Hf _]).
  exists st', a. split; [done|]. split; [constructor; [done|congruence|congruence]|].
  constructor; try done; [|by intros k ?%not_elem_of_nil].
  intros k Hk He. rewrite <- (C5 k Hk He). unfold cell_at. apply Hf. by rewrite elem_of_list_to_set.
Qed.

Lemma derive_stage lim clk keys pre before evicted st :
  clock_before clk T -> NoDup keys -> sound lim st -> covers keys pre (cell_at T st) before evicted ->
  exists st' ob, derive_committed_batch clk keys before evicted st = Some (st', ob) /\
    quiet_run T st st' /\ sound lim st' /\ covers keys pre (cell_at T st') before evicted /\
    match ob with
    | Some batch => replays batch pre (cell_at T st')
    | None => forall k, same_entry (pre k) (cell_at T st' k)
    end.
Proof.
  intros Hclk Hnd Hs Hc.
  destruct (derive_spec T clk keys before evicted st Hclk (gs_engine _ (so_good _ _ Hs)))
    as (st' & seen & ob & H & Hk & Q & Hseen & Heff).
  exists st', ob. split; [done|]. split; [done|]. split; [by eapply sound_quiet|].
  split; [eapply covers_post; [exact Hc|apply Q]|].
  assert (Hr : forall k, same_entry (fold_left (effect_on T k)
      (match ob with Some b => effects b | None => [] end) (pre k)) (cell_at T st' k)).
  { intros k. rewrite Heff, (qr_cells _ _ _ Q).
    apply (replay_cells T keys before evicted seen pre (cell_at T st) k); auto.
    - apply Hc.
    - apply Hc.
    - intros k0 _. apply Hc. }
  destruct ob as [batch|]; [done|]. exact Hr.
Qed.

Lemma admit_stage lim clks nanos keys pre a st :
  (forall i, clock_before (clks i) T) -> sound lim st ->
  (lim.1 <> 0 -> is_Some (memory_before a)) ->
  evicted_entries a = [] -> covers keys pre (cell_at T st) (before_entries a) [] ->
  exists st' a' r, store_admit clks nanos keys a st = Some (st', (a', r)) /\ sound lim st' /\
    covers keys pre (cell_at T st') (before_entries a') (evicted_entries a') /\
    match r with
    | Ok _ => engine_wf (engine st) -> lim.1 = 0 \/ footprint (dataset (engine st')) <= lim.1 \/
        exists m, memory_before a = Some m /\ footprint (dataset (engine st')) <= m
    | Err _ => True
    end.
Proof.
  intros Hclk Hs Hmem He Hc. pose proof Hs as [[Hok Hv] Hm Hp].
  destruct (admit_spec T clks nanos keys a st) as (st' & a' & r & H & Hb & Hr);
    [done|done|by rewrite Hm|].
  exists st', a', r. split; [done|]. rewrite Hb. destruct r as [u|e].
  - destruct Hr as (ev & Hev & [F1 F2 F3 F4 F5 F6 F7 F8] & Hfit). rewrite He in Hev. simpl in Hev.
    rewrite Hev. split; [by eapply sound_step|]. split; [|by rewrite <- Hm].
    destruct Hc as [C1 C2 _ _ C5 _ C7 _]. constructor; [done|done|done| | |by apply F4|done|by apply F8].
    + intros k en Hin. assert (Hk : k ∈ ev.*1) by (apply list_elem_of_fmap; by exists (k, en)).
      destruct (F4 k Hk) as [_ Hkeys]. split; [done|]. rewrite (F5 k en Hin).
      apply C5; [done|apply not_elem_of_nil].
    + intros k Hk Hne. rewrite (F6 k Hne). apply C5; [done|apply not_elem_of_nil].
  - destruct Hr as (-> & E1 & E2 & E3 & E4). rewrite He. split; [by eapply sound_step|].
    split; [|done]. by eapply covers_post.
Qed.

(** Restoring what an attempt captured undoes the change it covers. *)
Lemma restore_stage (R : relation (option PersistentEntry)) lim clks keys pre post before evicted st :
  Reflexive R -> (forall i, clock_before (clks i) T) -> sound lim st ->
  (forall k, R (cell_at T st k) (post k)) ->
  covers keys pre post before evicted ->
  exists st', restore_entries clks before evicted st = Some (st', tt) /\ sound lim st' /\
    forall k, R (cell_at T st' k) (pre k).
Proof.
  intros HR Hclk Hs Hpost [C1 C2 C3 C4 C5 C6 C7 C8].
  destruct (restore_entries_spec T clks before evicted st Hclk (gs_engine _ (so_good _ _ Hs)) C3)
    as (st' & H & Hok & HL & Hv & Hk).
  exists st'. split; [done|]. split; [apply (sound_step lim st); auto|].
  intros k. destruct (Hk k) as (K1 & K2 & K3).
  destruct (decide (k ∈ keys)) as [Hin|Hin].
  - destruct (C1 k Hin) as (o & Ho & <-). by rewrite (K1 o Ho).
  - specialize (C2 k Hin). destruct (decide (k ∈ evicted.*1)) as [Hev|Hev].
    + apply list_elem_of_fmap in Hev as ([k' en] & -> & Hke). cbn [fst] in *.
      rewrite (K2 C2 en Hke), (proj2 (C4 _ _ Hke)). done.
    + rewrite (K3 C2 Hev), <- (C5 k Hin Hev). apply Hpost.
Qed.

Lemma covers_undoes keys pre post before evicted :
  covers keys pre post before evicted -> undoes (mkRollback JN before evicted) pre post.
Proof. intros Hc R lim clks st HR Hclk Hs Hpost. by eapply restore_stage. Qed.

(** ** One command *)

(** ** Commands of the server *)

Lemma quiet_outcome {A} (quiet : A -> Prop) K st st' (a : A) :
  good_store st -> quiet_run T st st' -> StoreSpec.outcome T K quiet st st' a.
Proof.
  intros [Hok Hv] [Q1 _ Q3 Q4 Q5]. constructor; [constructor; [done|by apply Q5]|done| |].
  - intros k _. apply Q4.
  - intros _. apply logical_ext. intros k. apply Q4.
Qed.

Lemma info_quiet w st :
  world_before w T -> good_store st ->
  exists st' r, info_response w st = Some (st', r) /\ quiet_run T st st'.
Proof.
  intros Hw [Hok Hv]. unfold info_response.
  destruct (stats_quiet T (clock_of w 1) st) as (st1 & s & E1 & Q1 & _); [auto with onyx|done|].
  rewrite (bind_run _ _ _ _ _ E1).
  destruct (used_memory_quiet T (clock_of w 2) st1) as (st2 & m & E2 & Q2 & _); [auto with onyx|apply Q1|].
  rewrite (bind_run _ _ _ _ _ E2). eexists _, _. split; [done|]. by eapply quiet_trans.
Qed.

Lemma server_execute_spec w args :
  world_before w T ->
  spec T (list_to_set (affected_keys args)) (fun o => mutation o <> Tentative) (server_execute_command w args).
Proof.
  intros Hw. destruct args as [|c args]; cbn [server_execute_command].
  { apply execute_spec; auto with onyx. }
  destruct (bytes_eqb c (bs "INFO")); [|apply execute_spec; auto with onyx].
  intros st Hg. destruct (info_quiet (stage w 0) st) as (st' & r & E & Q); [auto with onyx|done|].
  rewrite (bind_run _ _ _ _ _ E). eexists _, _. split; [done|]. by apply quiet_outcome.
Qed.

Lemma read_command_cells lim w args st :
  world_before w T -> sound lim st -> is_write_command (arg_or_empty args 0) = false ->
  exists st' o, server_execute_command w args st = Some (st', o) /\ sound lim st' /\
    forall k, cell_at T st' k = cell_at T st k.
Proof.
  intros Hw [Hg Hm Hp] Hr.
  destruct (server_execute_spec w args Hw st Hg) as (st' & o & E & [G [L1 L2] F Q]).
  exists st', o. split; [done|]. split; [constructor; [done|congruence|congruence]|].
  intros k. unfold cell_at. rewrite <- !lookup_logical. f_equal. apply Q.
  assert (Hdata : forall clk, execute_command clk args st = Some (st', o) -> mutation o <> Tentative).
  { intros clk. unfold execute_command, mbind, prog_bind.
    destruct (dispatch clk args st) as [[st1 [r b]]|]; [|done]. intros [= <- <-]. cbn [mutation]. by rewrite Hr. }
  destruct args as [|c args]; cbn [server_execute_command] in E; [by eapply Hdata|].
  destruct (bytes_eqb c (bs "INFO")); [|by eapply Hdata].
  unfold mbind, prog_bind in E. destruct (info_response _ st) as [[st1 r]|]; [|done]. by injection E as _ <-.
Qed.

(** The state [st'] after preparing from cells [pre]: a batch that reproduces
    the change with a rollback that undoes it, or no change. *)
Definition prepared_from (pre : cells) (st' : ShardedStore) (ob : option CommittedBatch)
    (orb : option MutationRollback) : Prop :=
  match ob, orb with
  | Some batch, Some rb => replays batch pre (cell_at T st') /\ undoes rb pre (cell_at T st')
  | None, None => forall k, same_entry (pre k) (cell_at T st' k)
  | _, _ => False
  end.

Lemma prepare_command_operation_spec lim w args st :
  world_before w T -> sound lim st -> 0 <= lim.1 ->
  exists st' r, prepare_command_operation w args st = Some (st', r) /\ sound lim st' /\
    match r with
    | Ok p => prepared_from (cell_at T st) st' (pc_batch p) (pc_rollback p) /\
        (pc_batch p = None -> mutation (pc_outcome p) = NoChange)
    | Err e => e = err_became_empty /\ forall k, cell_at T st' k = cell_at T st k
    end.
Proof.
  intros Hw Hs Hl. unfold prepare_command_operation.
  destruct (begin_stage lim (clock_of w 0) (affected_keys args) st) as (st1 & a & E1 & S1 & C1 & He & Hm & _);
    [auto with onyx|done|done|].
  rewrite (bind_run _ _ _ _ _ E1).
  destruct (run_stage lim (affected_keys args) _ (server_execute_command (stage w 1) args)
    (cell_at T st) (before_entries a) st1
    (server_execute_spec (stage w 1) args (world_before_stage w 1 T Hw)) S1 C1)
    as (st2 & o & E2 & S2 & C2).
  rewrite (bind_run _ _ _ _ _ E2).
  destruct (derive_stage lim (clock_of w 2) _ _ _ [] st2 (world_before_clock w 2 T Hw)
    (affected_keys_NoDup args) S2 C2) as (st3 & ob & E3 & _ & S3 & C3 & Hob).
  rewrite (bind_run _ _ _ _ _ E3). destruct ob as [b0|].
  2: { eexists _, _. split; [done|]. split; [done|]. done. }
  destruct (admit_stage lim (clocks_of w 3) (w_nanos w [3%nat]) _ _ a st3
    (world_before_clocks w 3 T Hw) S3 Hm He C3) as (st4 & a' & r & E4 & S4 & C4 & _).
  rewrite (bind_run _ _ _ _ _ E4).
  assert (Hundo : forall n st5, sound lim st5 -> (forall k, cell_at T st5 k = cell_at T st4 k) ->
    exists st6, attempt_rollback (clocks_of w n) a' st5 = Some (st6, tt) /\ sound lim st6 /\
      forall k, cell_at T st6 k = cell_at T st k).
  { intros n st5 S5 Hc. by eapply (restore_stage eq); [apply _|auto with onyx|done|done|]. }
  destruct r as [u|err].
  - destruct (derive_stage lim (clock_of w 5) _ _ _ _ st4 (world_before_clock w 5 T Hw)
      (affected_keys_NoDup args) S4 C4) as (st5 & ob & E5 & Q5 & S5 & C5 & Hob5).
    rewrite (bind_run _ _ _ _ _ E5). destruct ob as [b|].
    + eexists _, _. split; [done|]. split; [done|]. split; [|done]. split; [done|].
      by eapply covers_undoes.
    + destruct (Hundo 6%nat st5 S5 (qr_cells _ _ _ Q5)) as (st6 & E6 & S6 & H6).
      rewrite (bind_run _ _ _ _ _ E6). eexists _, _. split; [done|]. split; done.
  - destruct (Hundo 4%nat st4 S4 (fun _ => eq_refl)) as (st5 & E5 & S5 & H5).
    rewrite (bind_run _ _ _ _ _ E5). eexists _, _. split; [done|]. split; [done|]. split; [|done].
    intros k. left. by rewrite H5.
Qed.

End Preparing.
