(* ===== verification/CoordinatorGroups.v ===== *)
(** * CoordinatorGroups: command groups, transactions and commit groups

    A sequence of prepared mutations is [settled]: its batches, applied in
    order, reproduce the state it reached, and its rollbacks, run in reverse
    order, lead back to the state it started from. *)

From Stdlib Require Import ZArith Lia.
From Stdlib Require Import Strings.Byte.
From stdpp Require Import base gmap list strings numbers sorting.
From S2P Require Import Prelude Text Json JsonPath Value Shard ShardSpec Engine EngineSpec EngineMulti EngineActs Store Persistence Model Codec CodecSpec BinlogFile BinlogIo Recovery ManagedBinlog Runtime HistorySpec ManagedSpec EntryEq StoreSpec ModelSpec SnapshotSpec RecoverySpec InstallSpec CommitSpec Resp Execution ExecutionSpec Admission Server ServerSpec ServerInfo Coordinator CoordinatorSpec.

Open Scope Z_scope.

Section Groups.
Context {JN : JsonNumber} {SJ : SerdeJson} {HO : HashOrder} {FT : FloatText}.
Context (parsed_wf : forall s v, json_from_str s = Some v -> wf_value v).
Context (number_per : per number_eqb).
Context (T : Z).

Definition agree (c c' : cells) : Prop := forall k, same_entry (c k) (c' k).

#[local] Instance agree_equivalence : Equivalence agree.
Proof.
  pose proof (same_entry_equivalence number_per) as [Hr Hs Ht]. constructor.
  - intros c k. apply Hr.
  - intros c c' H k. apply Hs, H.
  - intros c1 c2 c3 H1 H2 k. eapply Ht; [apply H1|apply H2].
Qed.

Lemma fold_effects_same l k c c' :
  same_entry c c' ->
  same_entry (fold_left (effect_on T k) l c) (fold_left (effect_on T k) l c').
Proof.
  revert c c'. induction l as [|eff l IH]; intros c c' H; cbn [fold_left]; [done|].
  apply IH. destruct eff as [key p|key]; simpl; case_bool_decide; try done; by left.
Qed.

(** The rollback takes a store that agrees with [post] to one that agrees with [pre]. *)
Definition reverts (rb : MutationRollback) (pre post : cells) : Prop :=
  forall lim clks st, (forall i, clock_before (clks i) T) -> sound lim st ->
  agree (cell_at T st) post ->
  exists st', rollback_restore clks rb st = Some (st', tt) /\ sound lim st' /\
    agree (cell_at T st') pre.

Lemma undoes_reverts rb pre post : undoes T rb pre post -> reverts rb pre post.
Proof.
  intros H lim clks st Hclk Hs Ha. apply H; [|done|done|done].
  intros c. by left.
Qed.

Inductive settled : cells -> cells -> list CommittedBatch -> list MutationRollback -> Prop :=
| settled_nil pre post : agree pre post -> settled pre post [] []
| settled_cons pre mid post b rb bs rbs :
    replays T b pre mid -> reverts rb pre mid -> settled mid post bs rbs ->
    settled pre post (b :: bs) (rb :: rbs).

Lemma settled_pre pre pre' post bs rbs :
  agree pre' pre -> settled pre post bs rbs -> settled pre' post bs rbs.
Proof.
  intros Ha Hset. revert Ha. destruct Hset as [p q Hpq|p mid q b rb bs' rbs' Hr Hu Hs]; intros Ha.
  - apply settled_nil. by etrans.
  - eapply (settled_cons pre' mid); [| |done].
    + intros k. pose proof (same_entry_equivalence number_per) as [_ _ Ht].
      eapply Ht; [|apply Hr]. apply fold_effects_same, Ha.
    + intros lim clks st Hclk Hso Hag. destruct (Hu lim clks st Hclk Hso Hag) as (st' & H1 & H2 & H3).
      exists st'. split; [done|]. split; [done|]. etrans; [exact H3|by symmetry].
Qed.

Lemma settled_app pre mid post bs rbs bs' rbs' :
  settled pre mid bs rbs -> settled mid post bs' rbs' -> settled pre post (bs ++ bs') (rbs ++ rbs').
Proof.
  induction 1 as [p q Ha|p m q b rb bs rbs Hr Hu Hs IH]; intros H2; simpl.
  - by eapply settled_pre.
  - eapply settled_cons; [done|done|by apply IH].
Qed.

Lemma settled_one pre post st' ob orb :
  (forall k, cell_at T st' k = post k) -> prepared_from T pre st' ob orb ->
  match ob, orb with
  | Some b, Some rb => settled pre post [b] [rb]
  | None, None => settled pre post [] []
  | _, _ => False
  end.
Proof.
  intros Hp H. assert (Hagree : agree (cell_at T st') post) by (intros k; left; apply Hp).
  destruct ob as [b|], orb as [rb|]; try done; simpl in H.
  - destruct H as [H1 H2]. eapply settled_cons; [exact H1|by apply undoes_reverts|by apply settled_nil].
  - apply settled_nil. intros k. rewrite <- Hp. apply H.
Qed.

(** Applied in order, the batches reproduce the final state. *)
Lemma settled_replay pre post bs rbs :
  settled pre post bs rbs ->
  forall k, same_entry (fold_left (effect_on T k) (concat (map effects bs)) (pre k)) (post k).
Proof.
  induction 1 as [p q Ha|p m q b rb bs rbs Hr Hu Hs IH]; intros k; simpl; [apply Ha|].
  pose proof (same_entry_equivalence number_per) as [_ _ Ht].
  rewrite fold_left_app. eapply Ht; [|apply IH]. apply fold_effects_same, Hr.
Qed.

(** Run in reverse order, the rollbacks restore the first state. *)
Lemma settled_restore pre post bs rbs lim w st :
  settled pre post bs rbs -> world_before w T -> sound lim st -> agree (cell_at T st) post ->
  exists st', restore_reverse w rbs st = Some (st', tt) /\ sound lim st' /\
    agree (cell_at T st') pre.
Proof.
  intros Hset. revert w st. induction Hset as [p q Ha|p m q b rb bs rbs Hr Hu Hs IH];
    intros w st Hw Hso Hag; cbn [restore_reverse].
  - exists st. split; [done|]. split; [done|]. etrans; [exact Hag|by symmetry].
  - destruct (IH (stage w 1) st) as (st1 & E1 & S1 & A1); [auto with onyx|done|done|].
    rewrite (bind_run _ _ _ _ _ E1). apply Hu; [auto with onyx|done|done].
Qed.

Lemma settled_lengths pre post bs rbs : settled pre post bs rbs -> length bs = length rbs.
Proof. induction 1; simpl; congruence. Qed.

(** ** Command groups *)

Lemma prepare_commands_spec lim w commands pre outcomes batches rollbacks st :
  world_before w T -> sound lim st -> 0 <= lim.1 ->
  settled pre (cell_at T st) batches rollbacks ->
  exists st' r, prepare_commands w commands outcomes batches rollbacks st = Some (st', r) /\
    sound lim st' /\
    match r with
    | Ok (outcomes', batches', rollbacks') =>
      settled pre (cell_at T st') batches' rollbacks' /\
      length outcomes' = (length outcomes + length commands)%nat
    | Err _ => agree pre (cell_at T st')
    end.
Proof.
  intros Hw Hs Hl. revert w outcomes batches rollbacks st Hw Hs.
  induction commands as [|args rest IH]; intros w outcomes batches rollbacks st Hw Hs Hset;
    cbn [prepare_commands].
  - eexists _, _. split; [done|]. split; [done|]. simpl. split; [done|lia].
  - destruct (prepare_command_operation_spec parsed_wf T lim (stage w 0) args st)
      as (st1 & r & E1 & S1 & Hr); [auto with onyx|done|done|].
    rewrite (bind_run _ _ _ _ _ E1). destruct r as [p|e].
    + destruct Hr as [Hp _]. apply (settled_one _ (cell_at T st1)) in Hp; [|done].
      assert (Hlen : forall a, length (outcomes ++ [a]) = S (length outcomes))
        by (intros; rewrite length_app; simpl; lia).
      destruct (pc_batch p) as [b|], (pc_rollback p) as [rb|]; try done.
      * destruct (IH (stage w 2) (outcomes ++ [pc_outcome p]) (batches ++ [b]) (rollbacks ++ [rb]) st1)
          as (st2 & r2 & E2 & S2 & H2); [auto with onyx|done|by eapply settled_app|].
        eexists _, _. split; [done|]. split; [done|]. destruct r2 as [[[o b'] r']|]; [|done].
        destruct H2 as [H2 H3]. split; [done|]. rewrite H3, Hlen. simpl. lia.
      * destruct (IH (stage w 2) (outcomes ++ [pc_outcome p]) batches rollbacks st1)
          as (st2 & r2 & E2 & S2 & H2); [auto with onyx|done| |].
        { pose proof (settled_app _ _ _ _ _ _ _ Hset Hp) as H. by rewrite !app_nil_r in H. }
        eexists _, _. split; [done|]. split; [done|]. destruct r2 as [[[o b'] r']|]; [|done].
        destruct H2 as [H2 H3]. split; [done|]. rewrite H3, Hlen. simpl. lia.
    + destruct Hr as [_ Hc].
      destruct (settled_restore _ _ _ _ lim (stage w 1) st1 Hset) as (st2 & E2 & S2 & A2);
        [auto with onyx|done|intros k; left; apply Hc|].
      rewrite (bind_run _ _ _ _ _ E2). eexists _, _. split; [done|]. split; [done|]. by symmetry.
Qed.

(** The kind of response a request gets, with one result per command. *)
Definition suits (op : MasterCommitOperation) (r : MasterCommitResponse) : Prop :=
  match op, r with
  | OpCommand _, RespCommand _ => True
  | OpCommandGroup commands, RespCommandGroup outcomes => length outcomes = length commands
  | OpTransaction commands, RespTransaction v =>
    exists results, v = Array results /\ length results = length commands
  | OpObpSet _ _, RespObp _ | OpObpDelete _, RespObp _ => True
  | _, _ => False
  end.

Lemma suits_complete op p : suits op (pr_response p) -> suits op (complete p).
Proof.
  intros H. unfold complete. destruct (pr_batches p); [done|].
  destruct op, (pr_response p); cbn [suits mark_committed] in *; try done. by rewrite length_map.
Qed.

(** What preparing a request achieved. *)
Definition request_outcome (op : MasterCommitOperation) (pre : cells) (st' : ShardedStore)
    (r : result PersistenceError PreparedMasterCommit) : Prop :=
  match r with
  | Ok p => settled pre (cell_at T st') (pr_batches p) (pr_rollbacks p) /\ suits op (pr_response p)
  | Err _ => agree pre (cell_at T st')
  end.

Lemma prepare_command_group_spec lim w commands st :
  world_before w T -> sound lim st -> 0 <= lim.1 ->
  exists st' r, prepare_command_group w commands st = Some (st', r) /\ sound lim st' /\
    request_outcome (OpCommandGroup commands) (cell_at T st) st' r.
Proof.
  intros Hw Hs Hl. unfold prepare_command_group.
  destruct (prepare_commands_spec lim w commands (cell_at T st) [] [] [] st) as (st' & r & E & S & H);
    [done|done|done|by apply settled_nil|].
  rewrite (bind_run _ _ _ _ _ E). eexists _, _. split; [done|]. split; [done|].
  destruct r as [[[o b] rb]|e]; [|done]. destruct H as [H Ho].
  destruct b as [|b bs]; [|done]. pose proof (settled_lengths _ _ _ _ H) as Hlen.
  by destruct rb.
Qed.

Lemma prepare_command_spec lim w args st :
  world_before w T -> sound lim st -> 0 <= lim.1 ->
  exists st' r, prepare_command w args st = Some (st', r) /\ sound lim st' /\
    request_outcome (OpCommand args) (cell_at T st) st' r.
Proof.
  intros Hw Hs Hl. unfold prepare_command.
  destruct (prepare_command_operation_spec parsed_wf T lim w args st Hw Hs Hl)
    as (st' & r & E & S & H).
  rewrite (bind_run _ _ _ _ _ E). destruct r as [p|e].
  - destruct H as [H _]. apply (settled_one _ (cell_at T st')) in H; [|done].
    destruct (pc_batch p) as [b|], (pc_rollback p) as [rb|]; try done;
      eexists _, _; (split; [done|]); done.
  - eexists _, _. split; [done|]. split; [done|]. simpl. intros k. left. symmetry. apply H.
Qed.

(** ** OBP mutations *)

Lemma set_value_spec clk key v x :
  clock_before clk T -> value_ok v -> spec T (list_to_set [key]) (fun _ => False) (set_value clk key v x).
Proof.
  intros Hclk Hv. eapply spec_weaken.
  - unfold set_value. eapply (spec_on_engine T key); [apply set_acts|by apply cs_set].
  - set_solver.
  - done.
Qed.

Lemma prepare_obp_set_spec lim w key v st :
  world_before w T -> sound lim st -> 0 <= lim.1 ->
  exists st' r, prepare_obp_set w key v st = Some (st', r) /\ sound lim st' /\
    request_outcome (OpObpSet key v) (cell_at T st) st' r.
Proof.
  intros Hw Hs Hl. unfold prepare_obp_set.
  destruct (begin_stage T lim (clock_of w 0) [key] st) as (st1 & a & E1 & S1 & C1 & He & Hm & Hq);
    [auto with onyx|done|done|].
  rewrite (bind_run _ _ _ _ _ E1).
  destruct (run_stage T lim [key] _ (set_value (clock_of w 1) key (Blob v) None)
    (cell_at T st) (before_entries a) st1
    (set_value_spec (clock_of w 1) key (Blob v) None (world_before_clock w 1 T Hw) I) S1 C1)
    as (st2 & o & E2 & S2 & C2).
  rewrite (bind_run _ _ _ _ _ E2).
  destruct (derive_stage T lim (clock_of w 2) _ _ _ [] st2 (world_before_clock w 2 T Hw)
    (NoDup_singleton key) S2 C2) as (st3 & ob & E3 & _ & S3 & C3 & Hob).
  rewrite (bind_run _ _ _ _ _ E3). destruct ob as [b0|].
  2: { eexists _, _. split; [done|]. split; [done|]. split; [by apply settled_nil|done]. }
  destruct (admit_stage T lim (clocks_of w 3) (w_nanos w [3%nat]) _ _ a st3
    (world_before_clocks w 3 T Hw) S3 Hm He C3) as (st4 & a' & r & E4 & S4 & C4 & _).
  rewrite (bind_run _ _ _ _ _ E4).
  assert (Hundo : forall n st5, sound lim st5 -> (forall k, cell_at T st5 k = cell_at T st4 k) ->
    exists st6, attempt_rollback (clocks_of w n) a' st5 = Some (st6, tt) /\ sound lim st6 /\
      agree (cell_at T st) (cell_at T st6)).
  { intros n st5 S5 Hc.
    destruct (restore_stage T eq lim (clocks_of w n) _ _ _ _ _ st5 _ (world_before_clocks w n T Hw) S5 Hc C4)
      as (st6 & E & S & H). exists st6. split; [done|]. split; [done|]. intros k. by left. }
  destruct r as [u|err].
  - destruct (derive_stage T lim (clock_of w 5) _ _ _ _ st4 (world_before_clock w 5 T Hw)
      (NoDup_singleton key) S4 C4) as (st5 & ob & E5 & Q5 & S5 & C5 & Hob5).
    rewrite (bind_run _ _ _ _ _ E5). destruct ob as [b|].
    + eexists _, _. split; [done|]. split; [done|]. split; [|done].
      eapply settled_cons; [exact Hob5|by eapply undoes_reverts, covers_undoes|by apply settled_nil].
    + destruct (Hundo 6%nat st5 S5 (qr_cells _ _ _ Q5)) as (st6 & E6 & S6 & H6).
      rewrite (bind_run _ _ _ _ _ E6). eexists _, _. split; [done|]. split; done.
  - destruct (Hundo 4%nat st4 S4 (fun _ => eq_refl)) as (st5 & E5 & S5 & H5).
    rewrite (bind_run _ _ _ _ _ E5). eexists _, _. split; [done|]. split; [done|]. split; [by apply settled_nil|done].
Qed.

Lemma delete_bytes_spec lim clk key st :
  clock_before clk T -> sound lim st ->
  exists st' b, delete_bytes clk key st = Some (st', b) /\ sound lim st' /\
    (forall k, cell_at T st' k = if bool_decide (key = k) then None else cell_at T st k) /\
    (b = false -> cell_at T st key = None).
Proof.
  intros Hclk Hs. pose proof (delete_acts clk key (engine st) (gs_engine _ (so_good _ _ Hs))) as (Hr & Hd & _).
  destruct (delete_run T clk key st (gs_engine _ (so_good _ _ Hs))) as (st' & b & E & Hok & HL & Hc & Hv).
  exists st', b. split; [done|]. split; [by eapply sound_step|]. split; [exact Hc|]. intros ->.
  unfold on_engine in E. destruct (engine_delete clk (engine st) key) as [e' r]. cbn [fst snd] in *.
  injection E as <- ->. unfold c_delete in Hr. cbn [snd] in Hr.
  destruct (c_live (clk 0%nat) (dataset (engine st) !! key)) eqn:El; [done|].
  unfold cell_at. apply (logical_not_live (clk 0%nat)); [apply Hclk|done].
Qed.

Lemma prepare_obp_delete_spec lim w key st :
  world_before w T -> sound lim st -> 0 <= lim.1 ->
  exists st' p, prepare_obp_delete w key st = Some (st', p) /\ sound lim st' /\
    settled (cell_at T st) (cell_at T st') (pr_batches p) (pr_rollbacks p) /\ suits (OpObpDelete key) (pr_response p).
Proof.
  intros Hw Hs Hl. unfold prepare_obp_delete.
  destruct (begin_stage T lim (clock_of w 0) [key] st) as (st1 & a & E1 & S1 & C1 & He & Hm & Hq);
    [auto with onyx|done|done|].
  rewrite (bind_run _ _ _ _ _ E1).
  destruct (delete_bytes_spec lim (clock_of w 1) key st1) as (st2 & b & E2 & S2 & Hc & Hb);
    [auto with onyx|done|].
  rewrite (bind_run _ _ _ _ _ E2). eexists _, _. split; [done|]. split; [done|]. split; [|by destruct b].
  destruct C1 as [K1 K2 K3 K4 K5 K6 K7 K8].
  assert (H12 : forall k, key <> k -> cell_at T st2 k = cell_at T st k).
  { intros k Hne. rewrite Hc, bool_decide_eq_false_2 by done. apply K5; set_solver. }
  assert (Hkey : cell_at T st2 key = None) by (rewrite Hc; by rewrite bool_decide_eq_true_2).
  destruct b; cbn [negb].
  - eapply (settled_cons _ (cell_at T st2)); [| |by apply settled_nil].
    + intros k. left. simpl. case_bool_decide as Hk; [by subst|]. by rewrite H12.
    + apply undoes_reverts. unfold attempt_into_rollback. rewrite He.
      apply (covers_undoes T [key]). constructor; try done; [|by intros k ?%not_elem_of_nil].
      intros k Hk _. apply H12. set_solver.
  - apply settled_nil. intros k. left. destruct (decide (key = k)) as [<-|Hne]; [|by rewrite H12].
    rewrite Hkey, <- Hq. by apply Hb.
Qed.

(** ** Transactions *)

(** The baseline of a transaction knows the first state of every key that may
    have changed. *)
Record baseline_ok (pre post : cells) (acc : gmap bytes (option DataEntry) * list bytes) : Prop := {
  bo_covers : covers T acc.2 pre post acc.1 [];
  bo_unique : NoDup acc.2
}.

(** The next state may differ at noted keys. *)
Lemma baseline_step pre post post' acc :
  baseline_ok pre post acc -> (forall k, k ∉ acc.2 -> post' k = post k) -> baseline_ok pre post' acc.
Proof.
  intros [[C1 C2 C3 C4 C5 C6 C7 C8] Hn] H. constructor; [|done].
  constructor; try done; [|by intros k ?%not_elem_of_nil].
  intros k Hk He. rewrite (H k Hk). by apply C5.
Qed.

Lemma note_keys_spec pre post (entries : list (bytes * option DataEntry)) acc :
  baseline_ok pre post acc ->
  (forall k o, (k, o) ∈ entries -> k ∉ acc.2 -> logical_cell T o = pre k /\ cell_ok o) ->
  baseline_ok pre post (note_keys entries acc) /\
  (forall k, k ∈ (note_keys entries acc).2 <-> k ∈ acc.2 \/ k ∈ entries.*1).
Proof.
  revert acc. induction entries as [|[key o] rest IH]; intros [baseline changed] Hb He;
    cbn [note_keys].
  - split; [done|]. intros k. split; [by left|]. intros [?|?%not_elem_of_nil]; done.
  - case_bool_decide as Hk.
    + destruct (IH _ Hb) as [H1 H2].
      { intros k o' Hin. apply He. by apply elem_of_cons; right. }
      split; [done|]. intros k. rewrite H2, fmap_cons, elem_of_cons. cbn [snd fst].
      split; [tauto|]. intros [?|[->|?]]; [by left|by left|by right].
    + destruct (He key o) as [Ho Hok]; [by apply elem_of_cons; left|done|].
      destruct (IH (<[key:=o]> baseline, changed ++ [key])) as [H1 H2].
      * destruct Hb as [[C1 C2 C3 C4 C5 C6 C7 C8] Hn]. cbn [fst snd] in *. constructor; cbn [fst snd].
        -- constructor; try done.
           ++ intros k Hin. destruct (decide (k = key)) as [->|Hne].
              ** exists o. by rewrite lookup_insert_eq.
              ** rewrite lookup_insert_ne by done. apply C1. set_solver.
           ++ intros k Hin. rewrite lookup_insert_ne by set_solver. apply C2. set_solver.
           ++ by intros k en ?%not_elem_of_nil.
           ++ intros k Hin He'. apply C5; [set_solver|done].
           ++ by apply map_Forall_insert_2.
        -- apply list.NoDup_app. split; [done|]. split; [set_solver|apply NoDup_singleton].
      * intros k o' Hin Hnk. cbn [snd] in Hnk. apply He; [by apply elem_of_cons; right|set_solver].
      * split; [done|]. intros k. rewrite H2. cbn [snd fst].
        rewrite fmap_cons, elem_of_cons, elem_of_app, list_elem_of_singleton. cbn [fst]. tauto.
Qed.

(** The state before a command, and the entries it evicts, enter the baseline. *)
Lemma note_before pre mid post acc keys before evicted :
  baseline_ok pre mid acc -> covers T keys mid post before evicted ->
  let acc' := note_keys (map (fun key => (key, match before !! key with Some o => o | None => None end)) keys) acc in
  baseline_ok pre mid acc' /\ forall k, k ∉ acc'.2 -> k ∉ keys.
Proof.
  intros Hb C1. cbv zeta. set (noted := map _ keys).
  assert (Hnoted : noted.*1 = keys).
  { unfold noted. change (map ?f ?l) with (f <$> l). rewrite <- list_fmap_compose. apply list_fmap_id. }
  destruct (note_keys_spec pre mid noted acc Hb) as [B1 K1].
  - intros k o Hin Hk. unfold noted in Hin. apply list_elem_of_fmap in Hin as (k' & [= -> ->] & Hin).
    destruct (co_before _ _ _ _ _ _ C1 k' Hin) as (o' & Ho & Hlo). rewrite Ho. split.
    + rewrite Hlo. destruct Hb as [Hc _]. apply (co_frame _ _ _ _ _ _ Hc); [done|apply not_elem_of_nil].
    + apply (co_values _ _ _ _ _ _ C1 k' o' Ho).
  - split; [done|]. intros k Hk Hin. apply Hk, K1. right. by rewrite Hnoted.
Qed.

Lemma note_evicted pre mid post acc keys before evicted :
  baseline_ok pre mid acc -> covers T keys mid post before evicted ->
  let acc' := note_keys (map (fun ke : bytes * DataEntry => (ke.1, Some ke.2)) evicted) acc in
  baseline_ok pre mid acc' /\ forall k, k ∉ acc'.2 -> k ∉ acc.2 /\ k ∉ evicted.*1.
Proof.
  intros B1 C4. cbv zeta. set (victims := map _ evicted).
  assert (Hvic : victims.*1 = evicted.*1).
  { unfold victims. change (map ?f ?l) with (f <$> l). by rewrite <- list_fmap_compose. }
  destruct (note_keys_spec pre mid victims acc B1) as [B2 K2].
  - intros k x Hin Hk. unfold victims in Hin.
    apply list_elem_of_fmap in Hin as ([k' en] & [= -> ->] & Hin). cbn [fst snd] in *.
    destruct (co_evicted _ _ _ _ _ _ C4 k' en Hin) as [_ Hlog]. split.
    + rewrite Hlog. destruct B1 as [Hc _]. apply (co_frame _ _ _ _ _ _ Hc); [done|apply not_elem_of_nil].
    + pose proof (co_victims _ _ _ _ _ _ C4) as Hv. rewrite list.Forall_forall in Hv. apply (Hv _ Hin).
  - split; [done|]. intros k Hk. split; intros H; apply Hk, K2; [by left|]. right. by rewrite Hvic.
Qed.

Lemma transaction_commands_spec lim w commands pre acc results st :
  world_before w T -> sound lim st -> 0 <= lim.1 -> baseline_ok pre (cell_at T st) acc ->
  exists st' acc' results', transaction_commands w commands acc results st =
      Some (st', (acc'.1, acc'.2, results')) /\ sound lim st' /\
    baseline_ok pre (cell_at T st') acc' /\
    length results' = (length results + length commands)%nat.
Proof.
  intros Hw Hs Hl. revert w acc results st Hw Hs.
  induction commands as [|args rest IH]; intros w acc results st Hw Hs Hb; cbn [transaction_commands].
  { exists st, acc, results. split; [done|]. split; [done|]. split; [done|]. simpl. lia. }
  assert (Hnext : forall st1 acc1 x, sound lim st1 -> baseline_ok pre (cell_at T st1) acc1 ->
    exists st' acc' results', transaction_commands (stage w 9) rest acc1 (results ++ [x]) st1 =
      Some (st', (acc'.1, acc'.2, results')) /\ sound lim st' /\
    baseline_ok pre (cell_at T st') acc' /\
    length results' = (length results + length (args :: rest))%nat).
  { intros st1 acc1 x S1 B1. destruct (IH (stage w 9) acc1 (results ++ [x]) st1)
      as (st' & acc' & res & E & S & B & L); [auto with onyx|done|done|].
    exists st', acc', res. split; [done|]. split; [done|]. split; [done|].
    rewrite L, length_app. simpl. lia. }
  destruct (is_write_command (arg_or_empty args 0)) eqn:Ew; cbn [negb].
  2: { destruct (read_command_cells parsed_wf T lim (stage w 0) args st) as (st1 & o & E1 & S1 & H1);
         [auto with onyx|done|done|].
       rewrite (bind_run _ _ _ _ _ E1). apply Hnext; [done|]. apply (baseline_step _ _ _ _ Hb). auto. }
  destruct (begin_stage T lim (clock_of w 1) (affected_keys args) st) as (st1 & a & E1 & S1 & C1 & He & Hm & Hq);
    [auto with onyx|done|done|].
  rewrite (bind_run _ _ _ _ _ E1). cbv zeta.
  destruct (note_before _ _ _ _ _ _ _ Hb C1) as [B1 Hin1].
  set (acc1 := note_keys _ acc) in *.
  destruct (run_stage T lim (affected_keys args) _ (server_execute_command (stage w 2) args)
    (cell_at T st) (before_entries a) st1
    (server_execute_spec parsed_wf T (stage w 2) args (world_before_stage w 2 T Hw)) S1 C1)
    as (st2 & o & E2 & S2 & C2).
  rewrite (bind_run _ _ _ _ _ E2).
  destruct (derive_stage T lim (clock_of w 3) _ _ _ [] st2 (world_before_clock w 3 T Hw)
    (affected_keys_NoDup args) S2 C2) as (st3 & ob & E3 & _ & S3 & C3 & Hob).
  rewrite (bind_run _ _ _ _ _ E3). destruct ob as [b0|].
  2: { apply Hnext; [done|]. apply (baseline_step _ _ _ _ B1). intros k Hk.
       apply (co_frame _ _ _ _ _ _ C3); [by apply Hin1|apply not_elem_of_nil]. }
  destruct (admit_stage T lim (clocks_of w 4) (w_nanos w [4%nat]) _ _ a st3
    (world_before_clocks w 4 T Hw) S3 Hm He C3) as (st4 & a' & r & E4 & S4 & C4 & _).
  rewrite (bind_run _ _ _ _ _ E4). destruct r as [u|err].
  - destruct (note_evicted _ _ _ _ _ _ _ B1 C4) as [B2 Hin2].
    apply Hnext; [done|]. apply (baseline_step _ _ _ _ B2). intros k Hk. destruct (Hin2 k Hk) as [Hk1 Hk2].
    apply (co_frame _ _ _ _ _ _ C4); [by apply Hin1|done].
  - destruct (restore_stage T eq lim (clocks_of w 5) _ _ _ _ _ st4 _ (world_before_clocks w 5 T Hw) S4
      (fun _ => eq_refl) C4) as (st5 & E5 & S5 & H5).
    rewrite (bind_run _ _ _ _ _ E5). apply Hnext; [done|].
    apply (baseline_step _ _ _ _ B1). intros k _. apply H5.
Qed.

Lemma prepare_transaction_spec lim w commands st :
  world_before w T -> sound lim st -> 0 <= lim.1 ->
  exists st' p, prepare_transaction w commands st = Some (st', p) /\ sound lim st' /\
    settled (cell_at T st) (cell_at T st') (pr_batches p) (pr_rollbacks p) /\
    suits (OpTransaction commands) (pr_response p).
Proof.
  intros Hw Hs Hl. unfold prepare_transaction.
  destruct (transaction_commands_spec lim (stage w 0) commands (cell_at T st) (∅, []) [] st)
    as (st1 & [baseline changed] & results & E1 & S1 & [Hc Hn] & Hlen); [auto with onyx|done|done| |].
  { constructor; [|constructor]. constructor; cbn [fst snd]; [..|done|constructor].
    - by intros k ?%not_elem_of_nil.
    - intros k _. apply lookup_empty.
    - constructor.
    - by intros k en ?%not_elem_of_nil.
    - done.
    - by intros k ?%not_elem_of_nil. }
  rewrite (bind_run _ _ _ _ _ E1). cbn [fst snd] in *.
  assert (Hperm : merge_sort key_le changed ≡ₚ changed) by apply merge_sort_Permutation.
  assert (Hn' : NoDup (merge_sort key_le changed)) by (by rewrite Hperm).
  assert (Hc' : covers T (merge_sort key_le changed) (cell_at T st) (cell_at T st1) baseline []).
  { destruct Hc as [C1 C2 C3 C4 C5 C6 C7 C8]. constructor; try done.
    - intros k. rewrite Hperm. apply C1.
    - intros k. rewrite Hperm. apply C2.
    - by intros k en ?%not_elem_of_nil.
    - intros k. rewrite Hperm. apply C5. }
  destruct (derive_stage T lim (clock_of w 1) _ _ _ [] st1 (world_before_clock w 1 T Hw)
    Hn' S1 Hc') as (st2 & ob & E2 & _ & S2 & C2 & Hob).
  rewrite (bind_run _ _ _ _ _ E2). eexists _, _. split; [done|]. split; [done|].
  destruct ob as [b|]; cbn [pr_batches pr_rollbacks pr_response without_mutation].
  - split; [|simpl; eauto]. eapply settled_cons; [exact Hob| |by apply settled_nil].
    by eapply undoes_reverts, covers_undoes.
  - split; [by apply settled_nil|simpl; eauto].
Qed.

(** ** Commit groups *)

Lemma prepare_request_spec lim w op st :
  world_before w T -> sound lim st -> 0 <= lim.1 ->
  exists st' r, prepare_request w op st = Some (st', r) /\ sound lim st' /\
    request_outcome op (cell_at T st) st' r.
Proof.
  intros Hw Hs Hl. destruct op as [args|commands|commands|key v|key]; cbn [prepare_request].
  - by apply prepare_command_spec.
  - by apply prepare_command_group_spec.
  - destruct (prepare_transaction_spec lim w commands st Hw Hs Hl) as (st' & p & E & S & H).
    rewrite (bind_run _ _ _ _ _ E). by eexists _, _.
  - by apply prepare_obp_set_spec.
  - destruct (prepare_obp_delete_spec lim w key st Hw Hs Hl) as (st' & p & E & S & H).
    rewrite (bind_run _ _ _ _ _ E). by eexists _, _.
Qed.

(** All the batches and all the rollbacks of a list of prepared requests. *)
Definition all_batches (l : list PreparedMasterCommit) : list CommittedBatch := concat (map pr_batches l).
Definition all_rollbacks (l : list PreparedMasterCommit) : list MutationRollback :=
  concat (map pr_rollbacks l).

Lemma rollback_prepared_spec lim w pre prepared st :
  world_before w T -> sound lim st ->
  settled pre (cell_at T st) (all_batches prepared) (all_rollbacks prepared) ->
  exists st', rollback_prepared w prepared st = Some (st', tt) /\ sound lim st' /\
    agree pre (cell_at T st').
Proof.
  intros Hw Hs Hset.
  destruct (settled_restore _ _ _ _ lim w st Hset Hw Hs) as (st' & E & S & H); [done|].
  exists st'. split; [done|]. split; [done|]. by symmetry.
Qed.

Lemma prepare_all_spec lim w ops pre prepared st :
  world_before w T -> sound lim st -> 0 <= lim.1 ->
  settled pre (cell_at T st) (all_batches prepared) (all_rollbacks prepared) ->
  exists st' r, prepare_all w ops prepared st = Some (st', r) /\ sound lim st' /\
    match r with
    | Ok prepared' =>
        (exists new, prepared' = prepared ++ new /\ Forall2 (fun op p => suits op (pr_response p)) ops new) /\
        settled pre (cell_at T st') (all_batches prepared') (all_rollbacks prepared')
    | Err _ => agree pre (cell_at T st')
    end.
Proof.
  intros Hw Hs Hl. revert w prepared st Hw Hs.
  induction ops as [|op rest IH]; intros w prepared st Hw Hs Hset; cbn [prepare_all].
  - eexists _, _. split; [done|]. split; [done|]. simpl. split; [|done]. exists []. by rewrite app_nil_r.
  - destruct (prepare_request_spec lim (stage w 0) op st) as (st1 & r & E1 & S1 & H1);
      [auto with onyx|done|done|].
    rewrite (bind_run _ _ _ _ _ E1). destruct r as [p|e]; simpl in H1.
    + destruct H1 as [H1 Hans]. destruct (IH (stage w 2) (prepared ++ [p]) st1) as (st2 & r2 & E2 & S2 & H2);
        [auto with onyx|done| |].
      { unfold all_batches, all_rollbacks in *. rewrite !map_app, !concat_app. simpl.
        rewrite !app_nil_r. by eapply settled_app. }
      eexists _, _. split; [done|]. split; [done|]. destruct r2; [|done].
      destruct H2 as [(new & -> & Hnew) H2]. split; [|done]. exists (p :: new). rewrite <- (assoc_L (++)).
      split; [done|by constructor].
    + destruct (rollback_prepared_spec lim (stage w 1) pre prepared st1) as (st2 & E2 & S2 & H2);
        [auto with onyx|done| |].
      { pose proof (settled_app _ _ _ _ _ _ _ Hset (settled_nil _ _ H1)) as H.
        by rewrite !app_nil_r in H. }
      rewrite (bind_run _ _ _ _ _ E2). by eexists _, _.
Qed.

Lemma assign_sequences_spec next batches :
  match assign_sequences next batches with
  | Some l => l.*2 = batches /\ consecutive (next + 1) l
  | None => U64_MAX < next + len batches
  end.
Proof.
  revert next. induction batches as [|b batches IH]; intros next; cbn [assign_sequences].
  - split; [done|apply consecutive_nil].
  - unfold checked_add. rewrite len_cons. pose proof (len_nonneg batches).
    destruct (Z.leb_spec (next + 1) U64_MAX) as [Hle|Hgt]; [|lia].
    specialize (IH (next + 1)). destruct (assign_sequences (next + 1) batches) as [l|];
      cbn [fmap option_fmap option_map]; [|lia]. destruct IH as [H1 H2].
    split; [rewrite fmap_cons; by rewrite H1|]. by apply consecutive_cons.
Qed.

(** ** The whole group *)

Context {CRC : Crc32} {GZ : Gzip}.

Definition batches_fit (l : list PreparedMasterCommit) : Prop :=
  Forall (fun b => Forall effect_ok (effects b)) (all_batches l).

Lemma matches_agree F st st' : matches T st F -> agree (cell_at T st) (cell_at T st') -> matches T st' F.
Proof.
  pose proof (same_entry_equivalence number_per) as [_ _ Ht]. intros H Ha k. eapply Ht; [apply H|apply Ha].
Qed.

Lemma matches_settled F st st' bs rbs :
  matches T st F -> settled (cell_at T st) (cell_at T st') bs rbs -> matches T st' (F ++ batch_effects bs).
Proof.
  pose proof (same_entry_equivalence number_per) as [_ _ Ht]. intros H Hset k. rewrite fold_left_app.
  eapply Ht; [|by eapply settled_replay]. apply fold_effects_same, H.
Qed.

Lemma suits_all ops prepared :
  Forall2 (fun op p => suits op (pr_response p)) ops prepared -> Forall2 suits ops (map complete prepared).
Proof. induction 1; constructor; [by apply suits_complete|done]. Qed.

(** What a group leaves behind, from a history [F] that is stored and shown. *)
Definition group_result (F : list CommittedEffect) (ops : list MasterCommitOperation) (seen p : Persistence) (st' : ShardedStore)
    (p' : Persistence) (res : GroupResult) : Prop :=
  match res with
  | GroupCompleted responses _ =>
    Forall2 suits ops responses /\
    exists batches, consecutive (sequence p + 1) batches /\ sequence p' = sequence p + len batches /\
      replica_tx p' = replica_tx p ++ batches /\ (backlog_ok p -> backlog_ok p') /\
      accepting_writes p' = accepting_writes p /\
      steady T (commit_runtime p') (F ++ batch_effects batches.*2) /\
      matches T st' (F ++ batch_effects batches.*2)
  | GroupRejected _ =>
    sequence p' = sequence p /\ replica_tx p' = replica_tx p /\ backlog p' = backlog p /\
    steady T (commit_runtime p') F /\ matches T st' F /\
    (accepting_writes p' = false \/ accepting_writes seen = false \/ is_fail_stopped seen = true)
  | GroupIndeterminate _ =>
    accepting_writes p' = false /\ is_fail_stopped p' = true /\ sequence p' = sequence p /\
    exists batches part, part `prefix_of` batches /\
      recoverable T (m_files (rt_binlog (commit_runtime p'))) (F ++ batch_effects part) /\
      matches T st' (F ++ batch_effects batches)
  end.

(** The branch that persists. *)
Lemma group_persisted lim w policy d seen (p : Persistence) F st st1 prepared batches ops :
  world_before w T -> sound lim st1 -> matches T st F ->
  settled (cell_at T st) (cell_at T st1) (all_batches prepared) (all_rollbacks prepared) ->
  steady T (commit_runtime p) F -> batches_fit prepared ->
  batches.*2 = all_batches prepared -> consecutive (sequence p + 1) batches ->
  Forall2 (fun op p => suits op (pr_response p)) ops prepared ->
  exists st' p' res,
    match persist_and_publish_master_batches policy d batches p with
    | None => panic
    | Some (p, Ok maintenance) =>
      mret (p, GroupCompleted (map complete prepared) (schedule_maintenance maintenance))
    | Some (p, Err e) =>
      if is_indeterminate e
      then mret (enter_persistence_fail_stop
                   (group_failure (bs "Master commit group persistence is indeterminate") batches e) p,
                 GroupIndeterminate e)
      else
        _ ← rollback_prepared w prepared;
        mret (mark_persistence_failed
                (group_failure (bs "Master commit group persistence failed") batches e) p,
              GroupRejected e)
    end st1 = Some (st', (p', res)) /\ sound lim st' /\ group_result F ops seen p st' p' res.
Proof.
  intros Hw Hs Hm Hset Hst Hfit Hb Hcons Hn. assert (Hok : batches_ok batches) by (unfold batches_ok; by rewrite Hb).
  pose proof (matches_settled F st st1 _ _ Hm Hset) as Hm1.
  destruct (persist_returns policy d batches p) as (p1 & res & Ep). rewrite Ep.
  pose proof (persist_spec T F _ _ _ _ _ res Hst Hok Ep) as Hp. destruct res as [maintenance|error].
  - destruct Hp as (H1 & H2 & H3 & H4 & H5). eexists _, _, _. split; [done|]. split; [done|]. cbn [group_result].
    split; [by apply suits_all|]. exists batches. rewrite Hb in *. done.
  - destruct Hp as (H1 & H2 & H3 & H4). destruct (is_indeterminate error).
    + destruct H4 as (part & Hpre & Hrec). eexists _, _, _. split; [done|]. split; [done|].
      split; [done|]. split; [done|]. split; [done|]. exists batches.*2, part. rewrite Hb in *. done.
    + destruct (rollback_prepared_spec lim w _ prepared st1 Hw Hs Hset) as (st2 & E2 & S2 & A2).
      rewrite (bind_run _ _ _ _ _ E2). eexists _, _, _. split; [done|]. split; [done|].
      split_and!; try done; [by eapply matches_agree|by left].
Qed.

Lemma process_group_spec lim w policy d seen (p : Persistence) ops st F :
  world_before w T -> sound lim st -> 0 <= lim.1 -> steady T (commit_runtime p) F -> matches T st F ->
  (forall st1 prepared, prepare_all (stage w 0) ops [] st = Some (st1, Ok prepared) -> batches_fit prepared) ->
  exists st' p' res,
    process_commit_group w policy d seen p ops st = Some (st', (p', res)) /\ sound lim st' /\
    group_result F ops seen p st' p' res.
Proof.
  intros Hw Hs Hl Hstored Hshown Hfit.
  unfold process_commit_group.
  assert (Hrefused : forall error, (accepting_writes p = false \/ accepting_writes seen = false \/
      is_fail_stopped seen = true) ->
    exists st' p' res, (mret (p, GroupRejected error) : prog _) st = Some (st', (p', res)) /\ sound lim st' /\
      group_result F ops seen p st' p' res) by (intros error H; by eexists _, _, _).
  destruct (is_fail_stopped seen || negb (accepting_writes seen)) eqn:Eu.
  { apply Hrefused. apply orb_true_iff in Eu as [->| ->%negb_true_iff]; tauto. }
  destruct (accepting_writes p) eqn:Ea; cbn [negb]; [|apply Hrefused; by left].
  destruct (prepare_all_spec lim (stage w 0) ops (cell_at T st) [] st)
    as (st1 & r & E1 & S1 & H1); [auto with onyx|done|done|apply settled_nil; intros k; by left|].
  rewrite (bind_run _ _ _ _ _ E1). destruct r as [prepared|e].
  2: { eexists _, _, _. split; [done|]. split; [done|]. split_and!; try done; [by eapply matches_agree|by left]. }
  specialize (Hfit _ _ E1). destruct H1 as [(new & Heq & Hlen) Hset]. cbn [app] in Heq. subst new.
  pose proof (assign_sequences_spec (sequence p) (all_batches prepared)) as Hseq.
  fold (all_batches prepared). destruct (assign_sequences _ _) as [l|].
  2: { destruct (rollback_prepared_spec lim (stage w 1) (cell_at T st) prepared st1)
         as (st2 & E2 & S2 & A2); [auto with onyx|done|done|].
       rewrite (bind_run _ _ _ _ _ E2). eexists _, _, _. split; [done|]. split; [done|].
       split_and!; try done; [by eapply matches_agree|by left]. }
  destruct Hseq as [Hb Hcons]. destruct l as [|x l].
  - eexists _, _, _. split; [done|]. split; [done|]. split; [by apply suits_all|]. exists [].
    pose proof (matches_settled F st st1 _ _ Hshown Hset) as Hm. rewrite <- Hb in Hm.
    change (len (@nil (Z * CommittedBatch))) with 0. rewrite Z.add_0_r, !app_nil_r in *. done.
  - by eapply (group_persisted lim (stage w 1)); try done; auto with onyx.
Qed.

End Groups.
