(* ===== verification/Routes.v ===== *)
(** * Routes: how a client's command reaches the store (src/main.rs)

    A read runs on the store.  A write goes to the commit coordinator when one
    was started, which prepares and persists it in a group with what else is
    queued; without a coordinator the connection's task takes the commit boundary
    and does the same for its single mutation.  What the request meets (whether
    the coordinator runs, the requests before and after it in its group, the
    readings of the environment, the binlog worker's answer) is a [surrounding]. *)

From Stdlib Require Import ZArith Lia.
From Stdlib Require Import Strings.Byte.
From stdpp Require Import base gmap list strings numbers sorting.
From S2P Require Import Prelude Text Json JsonPath Value Shard Engine Store Persistence Model Codec BinlogIo Recovery Runtime Resp Execution Admission Server ServerInfo Coordinator.

Open Scope Z_scope.

Record surrounding {JN : JsonNumber} : Type := mkSurrounding {
  coordinated : bool;
  queue_closed : bool;
  seen_before : Persistence;
  queued_before : list MasterCommitOperation;
  queued_after : list MasterCommitOperation;
  readings : world;
  fsync : FsyncPolicy;
  worker : delivery
}.

(** The server's state, the background tasks that were started, and a result. *)
Definition served {JN : JsonNumber} (A : Type) : Type := Persistence * list maintenance_task * A.

Section Routes.
Context {CRC : Crc32} {GZ : Gzip} {JN : JsonNumber} {SJ : SerdeJson} {HO : HashOrder} {FT : FloatText}.

(** ** The coordinator's clients *)

Definition err_queue_closed : PersistenceError :=
  PersistenceError_new (bs "Master commit coordinator is unavailable").
Definition err_outcome_dropped : PersistenceError :=
  PersistenceError_indeterminate (bs "Master commit coordinator dropped the outcome").

(** What the group sends to the request at position [n]. *)
Definition answer (n : nat) (r : GroupResult)
  : list maintenance_task * result PersistenceError MasterCommitResponse :=
  match r with
  | GroupCompleted responses tasks => (tasks, ok_or (responses !! n) err_outcome_dropped)
  | GroupRejected e | GroupIndeterminate e => ([], Err e)
  end.

Definition submit (s : surrounding) (op : MasterCommitOperation) (p : Persistence)
  : prog (served (result PersistenceError MasterCommitResponse)) :=
  match submit_units op with
  | Err e => mret (p, [], Err e)
  | Ok _ =>
    if queue_closed s then mret (p, [], Err err_queue_closed)
    else
      '(p, r) ← process_commit_group (readings s) (fsync s) (worker s) (seen_before s) p
        (queued_before s ++ op :: queued_after s);
      let '(tasks, response) := answer (length (queued_before s)) r in
      mret (p, tasks, response)
  end.

Definition err_mismatched (kind : bytes) : PersistenceError :=
  PersistenceError_indeterminate (bs "Master commit coordinator returned a mismatched " ++ kind ++ bs " outcome").

(** Submits an operation and takes the response of its kind. *)
Definition submit_as {A} (s : surrounding) (op : MasterCommitOperation) (kind : bytes)
    (select : MasterCommitResponse -> option A) (p : Persistence) : prog (served (result PersistenceError A)) :=
  '(p, tasks, r) ← submit s op p;
  mret (p, tasks, r ← r; ok_or (select r) (err_mismatched kind)).

Definition coordinator_command (s : surrounding) (arguments : list bytes)
  : Persistence -> prog (served (result PersistenceError CommandOutcome)) :=
  submit_as s (OpCommand arguments) (bs "command") (fun r => match r with RespCommand o => Some o | _ => None end).

Definition coordinator_commands (s : surrounding) (commands : list (list bytes))
  : Persistence -> prog (served (result PersistenceError (list CommandOutcome))) :=
  submit_as s (OpCommandGroup commands) (bs "command group")
    (fun r => match r with RespCommandGroup l => Some l | _ => None end).

Definition coordinator_transaction (s : surrounding) (commands : list (list bytes))
  : Persistence -> prog (served (result PersistenceError RESPValue)) :=
  submit_as s (OpTransaction commands) (bs "transaction")
    (fun r => match r with RespTransaction v => Some v | _ => None end).

Definition select_obp (r : MasterCommitResponse) : option ObpMutationResult :=
  match r with RespObp o => Some o | _ => None end.

Definition coordinator_obp_set (s : surrounding) (key v : bytes)
  : Persistence -> prog (served (result PersistenceError ObpMutationResult)) :=
  submit_as s (OpObpSet key v) (bs "OBP") select_obp.

Definition coordinator_obp_delete (s : surrounding) (key : bytes)
  : Persistence -> prog (served (result PersistenceError ObpMutationResult)) :=
  submit_as s (OpObpDelete key) (bs "OBP") select_obp.

(** ** Replies to failures *)

Definition misconf (context : bytes) (e : PersistenceError) : bytes :=
  bs "MISCONF " ++ context ++ bs " persistence failed: " ++ pe_message e.

(** A message that already carries its code is passed on. *)
Definition misconf_once (context : bytes) (e : PersistenceError) : bytes :=
  if starts_with (pe_message e) (bs "MISCONF ") then pe_message e else misconf context e.

Definition failed_outcome (m : bytes) : CommandOutcome := mkOutcome (RError m) NoChange.

Definition message_exhausted : bytes := bs "MISCONF persistence sequence is exhausted".

(** ** Without a coordinator *)

(** The mutation runs as in [prepare_command_operation] and is finalized under
    the boundary the connection holds. *)
Definition direct_command (w : world) (policy : FsyncPolicy) (d : delivery) (arguments : list bytes) (p : Persistence)
  : prog (served CommandOutcome) :=
  if negb (accepting_writes p) then mret (p, [], failed_outcome (persistence_unavailable_message p))
  else if sequence p =? U64_MAX
  then mret (mark_persistence_failed (pe_message err_exhausted) p, [], failed_outcome message_exhausted)
  else
    r ← prepare_command_operation (stage w 0) arguments;
    match r with
    | Err e =>
      mret (mark_persistence_failed (pe_message e) p, [],
            failed_outcome (bs "MISCONF committed effect derivation failed after admission"))
    | Ok prepared =>
      match pc_batch prepared, pc_rollback prepared with
      | None, _ => mret (p, [], pc_outcome prepared)
      | Some batch, Some rollback =>
        '(p, r) ← finalize_master_commit (clocks_of w 1) policy d (sequence p + 1) batch rollback
          (bs "Mutation persistence failed") p;
        mret (match r with
              | Ok tasks => (p, tasks, mark_outcome (pc_outcome prepared))
              | Err e => (p, [], failed_outcome (misconf (bs "mutation") e))
              end)
      | Some _, None => panic
      end
    end.

Definition execute_ordered_command (s : surrounding) (arguments : list bytes) (p : Persistence)
  : prog (served CommandOutcome) :=
  if negb (is_write_command (arg_or_empty arguments 0))
  then o ← server_execute_command (stage (readings s) 2) arguments; mret (p, [], o)
  else if coordinated s then
    '(p, tasks, r) ← coordinator_command s arguments p;
    mret (p, tasks, match r with Ok o => o | Err e => failed_outcome (misconf_once (bs "mutation") e) end)
  else direct_command (readings s) (fsync s) (worker s) arguments p.

(** Each command of a run has its own readings. *)
Definition at_stage (n : nat) (s : surrounding) : surrounding :=
  mkSurrounding JN (coordinated s) (queue_closed s) (seen_before s) (queued_before s) (queued_after s)
    (stage (readings s) n) (fsync s) (worker s).

Fixpoint run_ordered (s : surrounding) (commands : list (list bytes)) (p : Persistence)
  : prog (served (list CommandOutcome)) :=
  match commands with
  | [] => mret (p, [], [])
  | arguments :: rest =>
    '(p, tasks, o) ← execute_ordered_command (at_stage 0 s) arguments p;
    '(p, more, outcomes) ← run_ordered (at_stage 1 s) rest p;
    mret (p, tasks ++ more, o :: outcomes)
  end.

Definition execute_ordered_commands (s : surrounding) (commands : list (list bytes)) (p : Persistence)
  : prog (served (list CommandOutcome)) :=
  if coordinated s then
    '(p, tasks, r) ← coordinator_commands s commands p;
    mret (p, tasks, match r with
                    | Ok outcomes => outcomes
                    | Err e => map (fun _ => failed_outcome (misconf_once (bs "mutation") e)) commands
                    end)
  else run_ordered s commands p.

(** ** Transactions *)

Fixpoint read_all (w : world) (refuse_writes : bool) (commands : list (list bytes)) : prog (list RESPValue) :=
  match commands with
  | [] => mret []
  | arguments :: rest =>
    r ← (if refuse_writes && is_write_command (arg_or_empty arguments 0)
         then mret (RError (bs "READONLY this instance is a read-only replica"))
         else o ← server_execute_command (stage w 0) arguments; mret (response o));
    l ← read_all (stage w 1) refuse_writes rest;
    mret (r :: l)
  end.

Definition direct_transaction (w : world) (policy : FsyncPolicy) (d : delivery) (commands : list (list bytes))
    (p : Persistence) : prog (served RESPValue) :=
  if negb (accepting_writes p) then mret (p, [], RError (persistence_unavailable_message p))
  else if sequence p =? U64_MAX
  then mret (mark_persistence_failed (pe_message err_exhausted) p, [], RError message_exhausted)
  else
    '(baseline, changed, results) ← transaction_commands (stage (stage w 0) 0) commands (∅, []) [];
    batch ← derive_committed_batch (clock_of (stage w 0) 1) (merge_sort key_le changed) baseline [];
    match batch with
    | None => mret (p, [], Array results)
    | Some batch =>
      '(p, r) ← finalize_master_commit (clocks_of w 1) policy d (sequence p + 1) batch (rollback_from_baseline baseline)
        (bs "Transaction persistence failed") p;
      mret (match r with
            | Ok tasks => (p, tasks, Array results)
            | Err e => (p, [], RError (misconf (bs "transaction") e))
            end)
    end.

Definition execute_transaction (s : surrounding) (commands : list (list bytes)) (replica_mode : bool) (p : Persistence)
  : prog (served RESPValue) :=
  let contains_writes := existsb (fun args => match args with c :: _ => is_write_command c | [] => false end) commands in
  if negb contains_writes then l ← read_all (stage (readings s) 2) false commands; mret (p, [], Array l)
  else if replica_mode then l ← read_all (stage (readings s) 2) true commands; mret (p, [], Array l)
  else if coordinated s then
    '(p, tasks, r) ← coordinator_transaction s commands p;
    mret (p, tasks, match r with Ok v => v | Err e => RError (misconf_once (bs "transaction") e) end)
  else direct_transaction (readings s) (fsync s) (worker s) commands p.

(** ** OBP mutations without a coordinator *)

Definition message_unavailable : bytes := bs "MISCONF persistence is unavailable".

Definition finalize_obp (clks : nat -> clock) (policy : FsyncPolicy) (d : delivery) (batch : CommittedBatch)
    (rollback : MutationRollback) (v : OnyxValue) (p : Persistence) : prog (served ObpMutationResult) :=
  '(p, r) ← finalize_master_commit clks policy d (sequence p + 1) batch rollback
    (bs "OBP mutation persistence failed") p;
  mret (match r with
        | Ok tasks => (p, tasks, ObpValue v)
        | Err e => (p, [], ObpError (misconf (bs "mutation") e))
        end).

(** [None] of the second derivation is the source's [expect]. *)
Definition direct_obp_set (w : world) (policy : FsyncPolicy) (d : delivery) (key v : bytes) (p : Persistence)
  : prog (served ObpMutationResult) :=
  if negb (accepting_writes p) then mret (p, [], ObpError message_unavailable)
  else if sequence p =? U64_MAX
  then mret (mark_persistence_failed (pe_message err_exhausted) p, [], ObpError message_exhausted)
  else
    attempt ← begin_mutation (clock_of (stage w 0) 0) [key];
    _ ← set_value (clock_of (stage w 0) 1) key (Blob v) None;
    first ← derive_committed_batch (clock_of (stage w 0) 2) [key] (before_entries attempt) [];
    match first with
    | None => mret (p, [], ObpValue (Blob (bs "OK")))
    | Some _ =>
      '(attempt, admitted) ← store_admit (clocks_of (stage w 0) 3) (w_nanos (stage w 0) [3%nat]) [key] attempt;
      match admitted with
      | Err error =>
        _ ← attempt_rollback (clocks_of (stage w 0) 4) attempt;
        mret (p, [], ObpError (AdmissionError_message error))
      | Ok _ =>
        second ← derive_committed_batch (clock_of (stage w 0) 5) [key] (before_entries attempt) (evicted_entries attempt);
        match second with
        | None => panic
        | Some batch =>
          finalize_obp (clocks_of w 1) policy d batch (attempt_into_rollback attempt) (Blob (bs "OK")) p
        end
      end
    end.

(** An attempt that ends without a deletion is dropped, not committed. *)
Definition direct_obp_delete (w : world) (policy : FsyncPolicy) (d : delivery) (key : bytes) (p : Persistence)
  : prog (served ObpMutationResult) :=
  if negb (accepting_writes p) then mret (p, [], ObpError message_unavailable)
  else if sequence p =? U64_MAX
  then mret (mark_persistence_failed (pe_message err_exhausted) p, [], ObpError message_exhausted)
  else
    attempt ← begin_mutation (clock_of (stage w 0) 0) [key];
    deleted ← delete_bytes (clock_of (stage w 0) 1) key;
    if deleted : bool
    then finalize_obp (clocks_of w 1) policy d (mkBatch JN [DeleteKey key]) (attempt_into_rollback attempt) (Int 1) p
    else _ ← attempt_drop (clocks_of w 2) attempt; mret (p, [], ObpValue (Int 0)).

End Routes.

(** * Every route keeps the store and its history together

    From a store that shows the effects [F] stored in the files, a request ends
    with the store showing what the files then hold, the new batches numbered on
    from the last and sent to the replicas; or with a node that has fail-stopped.
    No route panics. *)

From S2P Require Import ShardSpec EngineSpec EngineMulti EngineActs CodecSpec BinlogFile ManagedBinlog HistorySpec ManagedSpec EntryEq StoreSpec ModelSpec SnapshotSpec RecoverySpec InstallSpec CommitSpec Durability ExecutionSpec ServerSpec CoordinatorSpec CoordinatorGroups.

Section RoutesSpec.
Context {CRC : Crc32} {GZ : Gzip} {JN : JsonNumber} {SJ : SerdeJson} {HO : HashOrder} {FT : FloatText}.
Context (parsed_wf : forall s v, json_from_str s = Some v -> wf_value v).
Context (number_per : per number_eqb).
Context (T : Z).

#[local] Instance agree_cells_equivalence : Equivalence agree := agree_equivalence number_per.

(** The history grew by [batches]. *)
Record grown (F : list CommittedEffect) (p : Persistence) (batches : list (Z * CommittedBatch))
    (st' : ShardedStore) (p' : Persistence) : Prop := {
  gr_numbers : consecutive (sequence p + 1) batches;
  gr_sequence : sequence p' = sequence p + len batches;
  gr_sent : replica_tx p' = replica_tx p ++ batches;
  gr_backlog : backlog_ok p -> backlog_ok p';
  gr_stored : steady T (commit_runtime p') (F ++ batch_effects batches.*2);
  gr_shown : matches T st' (F ++ batch_effects batches.*2)
}.

(** The outcome of a write is unknown and the node has stopped. *)
Definition halted (F : list CommittedEffect) (st' : ShardedStore) (p' : Persistence) : Prop :=
  accepting_writes p' = false /\ is_fail_stopped p' = true /\
  exists batches part, part `prefix_of` batches /\
    recoverable T (m_files (rt_binlog (commit_runtime p'))) (F ++ batch_effects part) /\
    matches T st' (F ++ batch_effects batches).

Definition moved (F : list CommittedEffect) (p : Persistence) (st' : ShardedStore) (p' : Persistence) : Prop :=
  (exists batches, grown F p batches st' p') \/ halted F st' p'.

(** Nothing that a client or the files can tell apart has changed. *)
Record undisturbed (lim : Z * EvictionPolicy) (st : ShardedStore) (p : Persistence) (st' : ShardedStore)
    (p' : Persistence) : Prop := {
  un_server : p' = p;
  un_sound : sound lim st';
  un_cells : forall k, cell_at T st' k = cell_at T st k
}.

Lemma undisturbed_refl lim st p : sound lim st -> undisturbed lim st p st p.
Proof. by constructor. Qed.

Lemma undisturbed_trans lim st1 p1 st2 p2 st3 p3 :
  undisturbed lim st1 p1 st2 p2 -> undisturbed lim st2 p2 st3 p3 -> undisturbed lim st1 p1 st3 p3.
Proof. intros [-> _ H1] [-> H2 H3]. constructor; [done|done|]. intros k. by rewrite H3. Qed.

(** ** No growth *)

Lemma grown_nothing F p st' p' :
  sequence p' = sequence p -> replica_tx p' = replica_tx p -> backlog p' = backlog p ->
  steady T (commit_runtime p') F -> matches T st' F -> grown F p [] st' p'.
Proof.
  intros H1 H2 H3 H4 H5.
  constructor; change (batch_effects (@nil (Z * CommittedBatch)).*2) with (@nil CommittedEffect);
    rewrite ?app_nil_r; try done.
  - rewrite H1. change (len (@nil (Z * CommittedBatch))) with 0. lia.
  - intros Hb. unfold backlog_ok. by rewrite H1, H3.
Qed.

Lemma matches_cells F st st' : (forall k, cell_at T st' k = cell_at T st k) -> matches T st F -> matches T st' F.
Proof. intros Hc H k. rewrite Hc. apply H. Qed.

Lemma undisturbed_grown F lim st p st' p' :
  steady T (commit_runtime p) F -> matches T st F -> undisturbed lim st p st' p' -> grown F p [] st' p'.
Proof. intros H1 H2 [-> _ Hc]. apply grown_nothing; try done. by eapply matches_cells. Qed.

Lemma refused_grown F message p st :
  steady T (commit_runtime p) F -> matches T st F -> grown F p [] st (mark_persistence_failed message p).
Proof. intros H1 H2. by apply grown_nothing. Qed.

Lemma grown_moved F p batches st' p' : grown F p batches st' p' -> moved F p st' p'.
Proof. intros H. left. eauto. Qed.

(** ** Finalizing one batch *)

Lemma persist_one policy d s batch (p : Persistence) :
  persist_and_publish_master_batch policy d s batch p = persist_and_publish_master_batches policy d [(s, batch)] p.
Proof.
  unfold persist_and_publish_master_batch, persist_and_publish_master_batches, publish. by rewrite accept_one.
Qed.

Lemma finalize_spec lim clks policy d batch rollback context (p : Persistence) F st st1 :
  (forall i, clock_before (clks i) T) -> sound lim st1 -> matches T st F ->
  settled T (cell_at T st) (cell_at T st1) [batch] [rollback] -> steady T (commit_runtime p) F ->
  Forall effect_ok (effects batch) ->
  exists st' p' r,
    finalize_master_commit clks policy d (sequence p + 1) batch rollback context p st1 = Some (st', (p', r)) /\
    sound lim st' /\
    match r with
    | Ok _ => grown F p [(sequence p + 1, batch)] st' p'
    | Err _ => moved F p st' p'
    end.
Proof.
  intros Hclk Hs Hm Hset Hst Hfit. unfold finalize_master_commit. rewrite persist_one.
  set (batches := [(sequence p + 1, batch)]).
  assert (Hok : batches_ok batches) by (unfold batches_ok; by constructor).
  pose proof (matches_settled number_per T F st st1 _ _ Hm Hset) as Hm1.
  destruct (persist_returns policy d batches p) as (p1 & res & Ep). rewrite Ep.
  pose proof (persist_spec T F _ _ _ _ _ res Hst Hok Ep) as Hp. destruct res as [maintenance|error].
  - destruct Hp as (H1 & H2 & H3 & H4 & H5). eexists _, _, _. split; [done|]. split; [done|].
    constructor; try done. apply consecutive_cons. split; [done|apply consecutive_nil].
  - destruct Hp as (H1 & H2 & H3 & H4). destruct (is_indeterminate error).
    + destruct H4 as (part & Hpre & Hrec). eexists _, _, _. split; [done|]. split; [done|]. right.
      split; [done|]. split; [done|]. by exists batches.*2, part.
    + inversion Hset as [|pre mid post b rb bs' rbs' Hrep Hrev Hrest]; subst. inversion Hrest; subst.
      destruct (Hrev lim clks st1 Hclk Hs) as (st2 & E2 & S2 & A2); [by symmetry|].
      rewrite (bind_run _ _ _ _ _ E2). eexists _, _, _. split; [done|]. split; [done|]. left. exists [].
      apply grown_nothing; try done. eapply (matches_agree number_per T F st); [done|by symmetry].
Qed.

(** ** Requests to the coordinator *)

(** The effects a request prepares can be written to the log. *)
Definition commits_fit (s : surrounding) (op : MasterCommitOperation) (st : ShardedStore) : Prop :=
  if coordinated s
  then forall st1 prepared,
    prepare_all (stage (readings s) 0) (queued_before s ++ op :: queued_after s) [] st = Some (st1, Ok prepared) ->
    batches_fit prepared
  else forall st1 prepared,
    prepare_request (stage (readings s) 0) op st = Some (st1, Ok prepared) -> batches_fit [prepared].

Lemma submit_spec lim s op (p : Persistence) F st :
  coordinated s = true -> world_before (readings s) T -> sound lim st -> 0 <= lim.1 ->
  steady T (commit_runtime p) F -> matches T st F -> commits_fit s op st ->
  exists st' p' tasks r, submit s op p st = Some (st', (p', tasks, r)) /\ sound lim st' /\
    match r with
    | Ok response => suits op response /\ exists batches, grown F p batches st' p'
    | Err _ => moved F p st' p'
    end.
Proof.
  intros Hc Hw Hs Hl Hst Hm Hfit. unfold commits_fit in Hfit. rewrite Hc in Hfit.
  assert (Hsame : moved F p st p) by (left; exists []; by apply grown_nothing). unfold submit.
  destruct (submit_units op); [|by eexists _, _, _, _]. destruct (queue_closed s); [by eexists _, _, _, _|].
  destruct (process_group_spec parsed_wf number_per T lim (readings s) (fsync s) (worker s) (seen_before s) p _ st F
    Hw Hs Hl Hst Hm Hfit) as (st' & p' & res & E & S & H).
  rewrite (bind_run _ _ _ _ _ E). destruct res as [responses tasks|e|e]; cbn [answer group_result] in *.
  - destruct H as (Hans & batches & H1 & H2 & H3 & H4 & _ & H6 & H7).
    apply Forall2_app_inv_l in Hans as (before & after & Hb & Ha & ->).
    apply Forall2_cons_inv_l in Ha as (r & after' & Hr & _ & ->).
    rewrite (Forall2_length _ _ _ Hb), list_lookup_middle by done. cbn [ok_or].
    eexists _, _, _, _. split; [done|]. split; [done|]. split; [done|]. by exists batches.
  - destruct H as (H1 & H2 & H3 & H4 & H5 & _). eexists _, _, _, _. split; [done|]. split; [done|].
    left. exists []. by apply grown_nothing.
  - destruct H as (H1 & H2 & _ & batches & part & H3). eexists _, _, _, _. split; [done|]. split; [done|].
    right. split; [done|]. split; [done|]. by exists batches, part.
Qed.

Lemma submit_as_spec {A} lim s op kind (select : MasterCommitResponse -> option A) (p : Persistence) F st :
  coordinated s = true -> world_before (readings s) T -> sound lim st -> 0 <= lim.1 ->
  steady T (commit_runtime p) F -> matches T st F -> commits_fit s op st ->
  (forall r, suits op r -> is_Some (select r)) ->
  exists st' p' tasks r, submit_as s op kind select p st = Some (st', (p', tasks, r)) /\ sound lim st' /\
    match r with
    | Ok a => (exists response, suits op response /\ select response = Some a) /\
        exists batches, grown F p batches st' p'
    | Err _ => moved F p st' p'
    end.
Proof.
  intros Hc Hw Hs Hl Hst Hm Hfit Hsel. unfold submit_as.
  destruct (submit_spec lim s op p F st Hc Hw Hs Hl Hst Hm Hfit) as (st' & p' & tasks & r & E & S & H).
  rewrite (bind_run _ _ _ _ _ E). eexists _, _, _, _. split; [done|]. split; [done|]. destruct r as [response|e]; [|done].
  destruct H as [Ha Hg]. cbn [mbind result_bind]. destruct (Hsel _ Ha) as [a Ea]. rewrite Ea. cbn [ok_or]. eauto.
Qed.

(** ** Writes *)

(** The result of a write: the state moved and [ok] holds of the answer. *)
Definition written {A} (lim : Z * EvictionPolicy) (F : list CommittedEffect) (p : Persistence) (st : ShardedStore)
    (m : prog (served A)) (ok : A -> Prop) : Prop :=
  exists st' p' tasks a, m st = Some (st', (p', tasks, a)) /\ sound lim st' /\ moved F p st' p' /\ ok a.

Lemma settled_single pre post ob orb st' :
  (forall k, cell_at T st' k = post k) -> prepared_from T pre st' ob orb -> forall b rb, ob = Some b -> orb = Some rb ->
  settled T pre post [b] [rb].
Proof. intros Hp H b rb -> ->. apply (settled_one T pre post st' (Some b) (Some rb) Hp H). Qed.

Lemma direct_command_spec lim w policy d args (p : Persistence) F st :
  world_before w T -> sound lim st -> 0 <= lim.1 -> steady T (commit_runtime p) F -> matches T st F ->
  (forall st1 prepared, prepare_request (stage w 0) (OpCommand args) st = Some (st1, Ok prepared) ->
     batches_fit [prepared]) ->
  written lim F p st (direct_command w policy d args p) (fun _ => True).
Proof.
  intros Hw Hs Hl Hst Hm Hfit. unfold direct_command, written.
  destruct (accepting_writes p); cbn [negb].
  2: { eexists _, _, _, _. split; [done|]. split; [done|]. split; [|done]. left. exists []. by apply grown_nothing. }
  destruct (sequence p =? U64_MAX).
  { eexists _, _, _, _. split; [done|]. split; [done|]. split; [|done]. left. exists []. by apply refused_grown. }
  destruct (prepare_command_operation_spec parsed_wf T lim (stage w 0) args st) as (st1 & r & E & S & H);
    [auto with onyx|done|done|].
  cbn [prepare_request] in Hfit. unfold prepare_command in Hfit.
  assert (E' : forall A (f : _ -> prog A), (prepare_command_operation (stage w 0) args ≫= f) st = f r st1)
    by (intros; by apply bind_run).
  rewrite !E' in *. destruct r as [prepared|e].
  2: { destruct H as [-> Hc]. eexists _, _, _, _. split; [done|]. split; [done|]. split; [|done]. left. exists [].
       apply refused_grown; [done|]. by eapply matches_cells. }
  destruct H as [Hp _]. destruct (pc_batch prepared) as [batch|] eqn:Eb, (pc_rollback prepared) as [rb|] eqn:Er; try done.
  - assert (Hset : settled T (cell_at T st) (cell_at T st1) [batch] [rb]) by (by eapply settled_single).
    destruct (finalize_spec lim (clocks_of w 1) policy d batch rb (bs "Mutation persistence failed") p F st st1)
      as (st2 & p2 & r & E2 & S2 & H2); [auto with onyx|done|done|done|done| |].
    { specialize (Hfit _ _ eq_refl). unfold batches_fit, all_batches in Hfit. cbn in Hfit.
      by apply list.Forall_cons in Hfit as [? _]. }
    rewrite (bind_run _ _ _ _ _ E2). destruct r as [tasks|e]; eexists _, _, _, _; (split; [done|]); (split; [done|]);
      (split; [|done]); [by eapply grown_moved|done].
  - eexists _, _, _, _. split; [done|]. split; [done|]. split; [|done]. left. exists [].
    apply grown_nothing; try done. by eapply (matches_agree number_per T F st).
Qed.

(** A prepared request carries one batch with its rollback, or none. *)
Definition single (prepared : PreparedMasterCommit) : option (CommittedBatch * MutationRollback) :=
  match pr_batches prepared, pr_rollbacks prepared with [b], [rb] => Some (b, rb) | _, _ => None end.

Definition at_most_one (prepared : PreparedMasterCommit) : Prop :=
  is_Some (single prepared) \/ pr_batches prepared = [] /\ pr_rollbacks prepared = [].

Definition finish {A} (accepted : A) (failed : PersistenceError -> A)
    (r : result PersistenceError (list maintenance_task)) : list maintenance_task * A :=
  match r with Ok tasks => (tasks, accepted) | Err e => ([], failed e) end.

(** Finalizing what was prepared, or answering at once. *)
Lemma single_spec {A} lim clks policy d context (p : Persistence) F st st1 prepared
    (accepted quick : A) (failed : PersistenceError -> A) :
  (forall i, clock_before (clks i) T) -> sound lim st1 -> matches T st F ->
  settled T (cell_at T st) (cell_at T st1) (pr_batches prepared) (pr_rollbacks prepared) ->
  steady T (commit_runtime p) F -> batches_fit [prepared] -> at_most_one prepared ->
  written lim F p st1 (match single prepared with
                       | Some (batch, rollback) =>
                         '(p, r) ← finalize_master_commit clks policy d (sequence p + 1) batch rollback context p;
                         mret (p, (finish accepted failed r).1, (finish accepted failed r).2)
                       | None => mret (p, [], quick)
                       end) (fun _ => True).
Proof.
  intros Hclk Hs Hm Hset Hst Hfit [[[b rb] Hone]|[Hb Hr]]; unfold written.
  - rewrite Hone. unfold single in Hone.
    destruct (pr_batches prepared) as [|b0 [|b1 l]] eqn:Eb; try done.
    destruct (pr_rollbacks prepared) as [|r0 [|r1 l]]; try done. injection Hone as -> ->.
    destruct (finalize_spec lim clks policy d b rb context p F st st1) as (st2 & p2 & r & E2 & S2 & H2); try done.
    { unfold batches_fit, all_batches in Hfit. cbn [map concat] in Hfit. rewrite Eb in Hfit.
      by apply list.Forall_cons in Hfit as [? _]. }
    rewrite (bind_run _ _ _ _ _ E2). eexists _, _, _, _. split; [done|]. split; [done|]. split; [|done].
    destruct r; [by eapply grown_moved|done].
  - unfold single. rewrite Hb in *. rewrite Hr in Hset. eexists _, _, _, _. split; [done|]. split; [done|]. split; [|done].
    left. exists []. apply grown_nothing; try done. inversion Hset; subst. by eapply (matches_agree number_per T F st).
Qed.

(** The checks before a direct write. *)
Lemma direct_checks {A} lim (p : Persistence) F st message (unavailable exhausted : A) (m : prog (served A)) ok :
  sound lim st -> steady T (commit_runtime p) F -> matches T st F -> ok unavailable -> ok exhausted ->
  (accepting_writes p = true -> sequence p <> U64_MAX -> written lim F p st m ok) ->
  written lim F p st
    (if negb (accepting_writes p) then mret (p, [], unavailable)
     else if sequence p =? U64_MAX then mret (mark_persistence_failed message p, [], exhausted) else m) ok.
Proof.
  intros Hs Hst Hm H1 H2 Hok. unfold written in *. destruct (accepting_writes p) eqn:Ea; cbn [negb].
  2: { eexists _, _, _, _. split; [done|]. split; [done|]. split; [|done]. left. exists []. by apply grown_nothing. }
  destruct (Z.eqb_spec (sequence p) U64_MAX) as [He|He]; [|by apply Hok].
  eexists _, _, _, _. split; [done|]. split; [done|]. split; [|done]. left. exists []. by apply refused_grown.
Qed.

Lemma direct_transaction_eq w policy d commands (p : Persistence) st :
  accepting_writes p = true -> sequence p <> U64_MAX ->
  direct_transaction w policy d commands p st =
  (prepared ← prepare_transaction (stage w 0) commands;
   let v := match pr_response prepared with RespTransaction v => v | _ => Array [] end in
   match single prepared with
   | Some (batch, rollback) =>
     '(p, r) ← finalize_master_commit (clocks_of w 1) policy d (sequence p + 1) batch rollback
       (bs "Transaction persistence failed") p;
     let failed e := RError (misconf (bs "transaction") e) in
     mret (p, (finish v failed r).1, (finish v failed r).2)
   | None => mret (p, [], v)
   end) st.
Proof.
  intros Ha Hseq. unfold direct_transaction, prepare_transaction. rewrite Ha, (proj2 (Z.eqb_neq _ _) Hseq). cbn [negb].
  unfold mbind, prog_bind. destruct (transaction_commands _ _ _ _ st) as [[st1 [[baseline changed] results]]|]; [|done].
  destruct (derive_committed_batch _ _ _ _ st1) as [[st2 [batch|]]|]; [|done|done].
  cbn. destruct (finalize_master_commit _ _ _ _ _ _ _ _ st2) as [[st3 [p3 [tasks|e]]]|]; done.
Qed.

Lemma direct_transaction_spec lim w policy d commands (p : Persistence) F st :
  world_before w T -> sound lim st -> 0 <= lim.1 -> steady T (commit_runtime p) F -> matches T st F ->
  (forall st1 prepared, prepare_request (stage w 0) (OpTransaction commands) st = Some (st1, Ok prepared) ->
     batches_fit [prepared]) ->
  written lim F p st (direct_transaction w policy d commands p) (fun _ => True).
Proof.
  intros Hw Hs Hl Hst Hm Hfit.
  destruct (decide (accepting_writes p = true /\ sequence p <> U64_MAX)) as [[Ha Hseq]|Hno].
  - unfold written. rewrite direct_transaction_eq by done.
    destruct (prepare_transaction_spec parsed_wf number_per T lim (stage w 0) commands st) as (st1 & prepared & E & S & H & _);
      [auto with onyx|done|done|].
    rewrite (bind_run _ _ _ _ _ E). cbn [prepare_request] in Hfit. rewrite (bind_run _ _ _ _ _ E) in Hfit.
    eapply single_spec; try done; [auto with onyx|by eapply Hfit|].
    unfold prepare_transaction in E. unfold mbind, prog_bind in E.
    destruct (transaction_commands _ _ _ _ st) as [[sta [[baseline changed] results]]|]; [|done].
    destruct (derive_committed_batch _ _ _ _ sta) as [[stb [batch|]]|]; [| |done]; injection E as <- <-; [left|right]; by eexists.
  - apply direct_checks; try done. tauto.
Qed.

(** ** OBP writes *)

Lemma derive_nonempty clk keys before evicted st st' b :
  derive_committed_batch clk keys before evicted st = Some (st', Some b) -> effects b <> [].
Proof.
  unfold derive_committed_batch. destruct (eviction_effects ∅ evicted) as [ev deleted]. unfold mbind, prog_bind.
  destruct (key_effects clk keys before deleted st) as [[st1 l]|]; [|done].
  destruct (ev ++ l) eqn:El; [done|]. by intros [= _ <-].
Qed.

(** Deriving the batch of one key that holds a value which does not expire. *)
Lemma derive_key clk key before evicted pe st :
  clock_before clk T -> engine_ok (engine st) -> cell_at T st key = Some pe ->
  exists st' ob, derive_committed_batch clk [key] before evicted st = Some (st', ob) /\ quiet_run T st st' /\
    (opt_entry_eqb (previous_of before key) (Some pe) = false -> ob <> None) /\
    (evicted = [] -> ob <> None -> opt_entry_eqb (previous_of before key) (Some pe) = false).
Proof.
  intros Hclk Hok Hpe. destruct (derive_spec T clk [key] before evicted st Hclk Hok)
    as (st' & seen & ob & E & Hk & Q & Hseen & Heff).
  exists st', ob. split; [done|]. split; [done|].
  destruct seen as [|[k o] [|x seen]]; try done. injection Hk as ->.
  assert (Ho : PersistentEntry_from <$> o = Some pe).
  { specialize (Hseen key o ltac:(by left)). rewrite Hpe in Hseen. unfold logical_cell in Hseen.
    destruct o as [e|]; [|done]. unfold c_live in Hseen. by destruct (_ : bool). }
  unfold emitted in Heff. cbn [map concat fst snd] in Heff. rewrite Ho, app_nil_r in Heff. unfold key_effect in Heff. split.
  - intros Hne ->. rewrite Hne in Heff. cbn [andb] in Heff. symmetry in Heff. by apply app_eq_nil in Heff as [_ ?].
  - intros -> Hob. destruct (opt_entry_eqb _ _); [|done]. exfalso. apply Hob. destruct ob as [b|]; [|done].
    change (list_to_set ([] : list (bytes * DataEntry)).*1) with (∅ : gset bytes) in Heff.
    rewrite bool_decide_eq_false_2 in Heff by set_solver. cbn in Heff.
    by apply derive_nonempty in E.
Qed.

Lemma set_blob_cell lim clk key v st :
  clock_before clk T -> sound lim st ->
  exists st' o, set_value clk key (Blob v) None st = Some (st', o) /\ engine_ok (engine st') /\
    same_limits st st' /\ cell_at T st' key = Some (mkPersistent JN (Blob v) None).
Proof.
  intros Hclk Hs. pose proof (set_acts clk key (Blob v) None (engine st) (gs_engine _ (so_good _ _ Hs))) as (_ & Hd & Hok).
  unfold set_value, on_engine. destruct (engine_set clk (engine st) key (Blob v) None) as [e' r]. cbn [fst snd] in *.
  eexists _, _. split; [done|]. split; [done|]. split; [done|].
  unfold cell_at. cbn [engine with_engine]. rewrite Hd, lookup_set_cell_eq. done.
Qed.

(** The second derivation of a set finds the same difference as the first. *)
Lemma prepare_obp_set_ok lim w key v st st' e :
  world_before w T -> sound lim st -> 0 <= lim.1 -> prepare_obp_set w key v st <> Some (st', Err e).
Proof.
  intros Hw Hs Hl. unfold prepare_obp_set.
  destruct (begin_stage T lim (clock_of w 0) [key] st) as (st1 & a & E1 & S1 & C1 & He & Hm & Hq);
    [auto with onyx|done|done|].
  rewrite (bind_run _ _ _ _ _ E1).
  destruct (set_blob_cell lim (clock_of w 1) key v st1) as (st2 & o & E2 & Hok2 & HL2 & Hc2); [auto with onyx|done|].
  rewrite (bind_run _ _ _ _ _ E2).
  destruct (derive_key (clock_of w 2) key (before_entries a) [] _ st2 ltac:(auto with onyx) Hok2 Hc2)
    as (st3 & ob & E3 & Q3 & _ & Hdiff).
  rewrite (bind_run _ _ _ _ _ E3). destruct ob as [b0|]; [|done].
  destruct (admit_spec T (clocks_of w 3) (w_nanos w [3%nat]) [key] a st3) as (st4 & a' & r & E4 & Hb & Hr);
    [auto with onyx|apply Q3| |].
  { destruct (qr_limits _ _ _ Q3) as [Hl1 _], HL2 as [Hl2 _]. rewrite Hl1, Hl2, (so_memory _ _ S1). done. }
  rewrite (bind_run _ _ _ _ _ E4). destruct r as [u|err].
  - destruct Hr as (ev & _ & [F1 _ _ F4 _ F6 _ _] & _).
    assert (Hc4 : cell_at T st4 key = Some (mkPersistent JN (Blob v) None)).
    { rewrite F6, (qr_cells _ _ _ Q3); [done|]. intros Hin. apply F4 in Hin as [_ Hin]. apply Hin. by left. }
    destruct (derive_key (clock_of w 5) key (before_entries a') (evicted_entries a') _ st4 ltac:(auto with onyx) F1 Hc4)
      as (st5 & ob & E5 & _ & Hsome & _).
    rewrite (bind_run _ _ _ _ _ E5). rewrite Hb in Hsome. destruct ob as [b|]; [done|].
    exfalso. by apply Hsome; [apply Hdiff|].
  - unfold mbind, prog_bind. by destruct (attempt_rollback _ a' st4) as [[? ?]|].
Qed.

Lemma direct_obp_set_eq w policy d key v (p : Persistence) st :
  accepting_writes p = true -> sequence p <> U64_MAX ->
  direct_obp_set w policy d key v p st =
  (r ← prepare_obp_set (stage w 0) key v;
   match r with
   | Err _ => panic
   | Ok prepared =>
     match single prepared with
     | Some (batch, rollback) =>
       '(p, r) ← finalize_master_commit (clocks_of w 1) policy d (sequence p + 1) batch rollback
         (bs "OBP mutation persistence failed") p;
       let failed e := ObpError (misconf (bs "mutation") e) in
       mret (p, (finish (ObpValue (Blob (bs "OK"))) failed r).1, (finish (ObpValue (Blob (bs "OK"))) failed r).2)
     | None => mret (p, [], match pr_response prepared with RespObp o => o | _ => ObpError [] end)
     end
   end) st.
Proof.
  intros Ha Hseq. unfold direct_obp_set, prepare_obp_set. rewrite Ha, (proj2 (Z.eqb_neq _ _) Hseq). cbn [negb].
  unfold mbind, prog_bind. destruct (begin_mutation _ _ st) as [[st1 a]|]; [|done].
  destruct (set_value _ _ _ _ st1) as [[st2 o]|]; [|done].
  destruct (derive_committed_batch _ _ _ _ st2) as [[st3 [b0|]]|]; [|done|done].
  destruct (store_admit _ _ _ _ st3) as [[st4 [a' [u|err]]]|]; [| |done].
  - destruct (derive_committed_batch _ _ _ _ st4) as [[st5 [b|]]|]; [| |done].
    + cbn. unfold finalize_obp, mbind, prog_bind. destruct (finalize_master_commit _ _ _ _ _ _ _ _ st5) as [[st6 [p6 [tasks|e]]]|]; done.
    + by destruct (attempt_rollback _ _ st5) as [[? ?]|].
  - by destruct (attempt_rollback _ _ st4) as [[? ?]|].
Qed.

Lemma direct_obp_set_spec lim w policy d key v (p : Persistence) F st :
  world_before w T -> sound lim st -> 0 <= lim.1 -> steady T (commit_runtime p) F -> matches T st F ->
  (forall st1 prepared, prepare_request (stage w 0) (OpObpSet key v) st = Some (st1, Ok prepared) ->
     batches_fit [prepared]) ->
  written lim F p st (direct_obp_set w policy d key v p) (fun _ => True).
Proof.
  intros Hw Hs Hl Hst Hm Hfit.
  destruct (decide (accepting_writes p = true /\ sequence p <> U64_MAX)) as [[Ha Hseq]|Hno].
  2: { apply direct_checks; try done. tauto. }
  unfold written. rewrite direct_obp_set_eq by done.
  destruct (prepare_obp_set_spec parsed_wf number_per T lim (stage w 0) key v st) as (st1 & r & E & S & H); [auto with onyx|done|done|].
  rewrite (bind_run _ _ _ _ _ E). destruct r as [prepared|e].
  2: { exfalso. by eapply (prepare_obp_set_ok lim (stage w 0)) in E; [|auto with onyx..]. }
  destruct H as [H _]. eapply single_spec; try done; [auto with onyx|by eapply Hfit|].
  clear -E. unfold prepare_obp_set, mbind, prog_bind in E. destruct (begin_mutation _ _ st) as [[sta a]|]; [|done].
  destruct (set_value _ _ _ _ sta) as [[stb o]|]; [|done].
  destruct (derive_committed_batch _ _ _ _ stb) as [[stc [b0|]]|]; [|injection E as _ <-; by right|done].
  destruct (store_admit _ _ _ _ stc) as [[std [a' [u|err]]]|]; [| |done].
  - destruct (derive_committed_batch _ _ _ _ std) as [[ste [b|]]|]; [| |done].
    + injection E as _ <-. left. by eexists.
    + by destruct (attempt_rollback _ _ ste) as [[? ?]|].
  - destruct (attempt_rollback _ _ std) as [[? ?]|]; [|done]. injection E as _ <-. by right.
Qed.

Lemma direct_obp_delete_spec lim w policy d key (p : Persistence) F st :
  world_before w T -> sound lim st -> 0 <= lim.1 -> steady T (commit_runtime p) F -> matches T st F ->
  written lim F p st (direct_obp_delete w policy d key p) (fun _ => True).
Proof.
  intros Hw Hs Hl Hst Hm. apply direct_checks; try done. intros Ha Hseq. unfold written.
  destruct (begin_mutation_spec T (clock_of (stage w 0) 0) [key] st) as (st0 & a0 & E0 & _ & _ & _ & Hact);
    [auto with onyx|apply (so_good _ _ Hs)|by rewrite (so_memory _ _ Hs)|].
  destruct (begin_stage T lim (clock_of (stage w 0) 0) [key] st) as (st1 & a & E1 & S1 & C1 & He & Hmem & Hq);
    [auto with onyx|done|done|].
  rewrite E1 in E0. injection E0 as _ <-. rewrite (bind_run _ _ _ _ _ E1).
  destruct (delete_bytes_spec T lim (clock_of (stage w 0) 1) key st1) as (st2 & b & E2 & S2 & Hc & Hb);
    [auto with onyx|done|].
  rewrite (bind_run _ _ _ _ _ E2).
  assert (C2 : covers T [key] (cell_at T st) (cell_at T st2) (before_entries a) []).
  { destruct C1 as [K1 K2 K3 K4 K5 K6 K7 K8]. constructor; try done; [|by intros k ?%not_elem_of_nil].
    intros k Hk _. rewrite Hc, bool_decide_eq_false_2 by set_solver. apply K5; set_solver. }
  destruct b.
  - assert (Hset : settled T (cell_at T st) (cell_at T st2) [mkBatch JN [DeleteKey key]] [attempt_into_rollback a]).
    { eapply (settled_cons T _ (cell_at T st2)); [| |by apply settled_nil].
      - intros k. left. simpl. rewrite Hc. case_bool_decide as Hk; [done|]. by rewrite Hq.
      - apply undoes_reverts. unfold attempt_into_rollback. rewrite He. by apply (covers_undoes T [key]). }
    destruct (finalize_spec lim (clocks_of w 1) policy d (mkBatch JN [DeleteKey key]) (attempt_into_rollback a) (bs "OBP mutation persistence failed") p F st st2)
      as (st3 & p3 & r & E3 & S3 & H3); [auto with onyx|done|done|exact Hset|done|by repeat constructor|].
    unfold finalize_obp. rewrite (bind_run _ _ _ _ _ E3).
    destruct r as [tasks|e]; eexists _, _, _, _; (split; [done|]); (split; [done|]); (split; [|done]);
      [by eapply grown_moved|done].
  - unfold attempt_drop, attempt_rollback. rewrite Hact, He.
    destruct (restore_stage T eq lim (clocks_of w 2) [key] (cell_at T st) (cell_at T st2) (before_entries a) [] st2)
      as (st3 & E3 & S3 & H3); [apply _|auto with onyx|done|done|done|].
    rewrite (bind_run _ _ _ _ _ E3). eexists _, _, _, _. split; [done|]. split; [done|]. split; [|done].
    left. exists []. apply grown_nothing; try done. by eapply matches_cells.
Qed.

(** ** Reads *)

Lemma read_all_spec lim w refuse commands (p : Persistence) st :
  world_before w T -> sound lim st ->
  (refuse = false -> Forall (fun args => is_write_command (arg_or_empty args 0) = false) commands) ->
  exists st' l, read_all w refuse commands st = Some (st', l) /\ length l = length commands /\
    undisturbed lim st p st' p.
Proof.
  intros Hw Hs Hr. revert w st Hw Hs. induction commands as [|args rest IH]; intros w st Hw Hs; cbn [read_all].
  { eexists _, _. split; [done|]. split; [done|]. by apply undisturbed_refl. }
  assert (H1 : exists st1 r, (if refuse && is_write_command (arg_or_empty args 0)
      then mret (RError (bs "READONLY this instance is a read-only replica"))
      else o ← server_execute_command (stage w 0) args; mret (response o)) st = Some (st1, r) /\
      undisturbed lim st p st1 p).
  { destruct (refuse && is_write_command (arg_or_empty args 0)) eqn:Er.
    - eexists _, _. split; [done|by apply undisturbed_refl].
    - destruct (read_command_cells parsed_wf T lim (stage w 0) args st) as (st1 & o & E & S & Hc); [auto with onyx|done| |].
      { destruct refuse; [done|]. specialize (Hr eq_refl). by apply list.Forall_cons in Hr as [? _]. }
      rewrite (bind_run _ _ _ _ _ E). eexists _, _. split; [done|]. by constructor. }
  destruct H1 as (st1 & r & E1 & U1). rewrite (bind_run _ _ _ _ _ E1).
  destruct (IH ltac:(intros He; specialize (Hr He); by apply list.Forall_cons in Hr as [_ ?]) (stage w 1) st1)
    as (st2 & l & E2 & Hlen & U2); [auto with onyx|apply U1|].
  rewrite (bind_run _ _ _ _ _ E2). eexists _, _. split; [done|]. split; [by simpl; f_equal|]. by eapply undisturbed_trans.
Qed.

(** ** Commands *)

Lemma undisturbed_written {A} lim F (p : Persistence) st (m : prog (served A)) (ok : A -> Prop) :
  steady T (commit_runtime p) F -> matches T st F ->
  (exists st' p' tasks a, m st = Some (st', (p', tasks, a)) /\ undisturbed lim st p st' p' /\ ok a) ->
  written lim F p st m ok.
Proof.
  intros Hst Hm (st' & p' & tasks & a & E & U & Hok). exists st', p', tasks, a. split; [done|]. split; [apply U|].
  split; [|done]. left. exists []. by eapply undisturbed_grown.
Qed.

Lemma ordered_read lim s args (p : Persistence) st :
  world_before (readings s) T -> sound lim st -> is_write_command (arg_or_empty args 0) = false ->
  exists st' p' tasks o, execute_ordered_command s args p st = Some (st', (p', tasks, o)) /\ undisturbed lim st p st' p'.
Proof.
  intros Hw Hs Hr. unfold execute_ordered_command. rewrite Hr. cbn [negb].
  destruct (read_command_cells parsed_wf T lim (stage (readings s) 2) args st) as (st1 & o & E & S & Hc);
    [auto with onyx|done|done|].
  rewrite (bind_run _ _ _ _ _ E). eexists _, _, _, _. split; [done|]. by constructor.
Qed.

Lemma ordered_command_spec lim s args (p : Persistence) F st :
  world_before (readings s) T -> sound lim st -> 0 <= lim.1 -> steady T (commit_runtime p) F -> matches T st F ->
  commits_fit s (OpCommand args) st ->
  written lim F p st (execute_ordered_command s args p) (fun _ => True).
Proof.
  intros Hw Hs Hl Hst Hm Hfit. destruct (is_write_command (arg_or_empty args 0)) eqn:Er.
  2: { apply undisturbed_written; try done. destruct (ordered_read lim s args p st) as (st' & p' & t & o & E & U); try done.
       by exists st', p', t, o. }
  unfold execute_ordered_command. rewrite Er. cbn [negb]. destruct (coordinated s) eqn:Ec.
  - destruct (submit_as_spec lim s (OpCommand args) (bs "command")
      (fun r => match r with RespCommand o => Some o | _ => None end) p F st) as (st' & p' & tasks & r & E & S & H); try done.
    { intros r Hans. by destruct r. }
    unfold written, coordinator_command. rewrite (bind_run _ _ _ _ _ E). eexists _, _, _, _. split; [done|]. split; [done|].
    split; [|done]. destruct r as [o|e]; [|done]. destruct H as [_ [batches Hg]]. by eapply grown_moved.
  - unfold commits_fit in Hfit. rewrite Ec in Hfit. by apply direct_command_spec.
Qed.

(** ** Runs of commands *)

Lemma grown_trans F (p : Persistence) b1 st1 p1 b2 st2 p2 :
  grown F p b1 st1 p1 -> grown (F ++ batch_effects b1.*2) p1 b2 st2 p2 -> grown F p (b1 ++ b2) st2 p2.
Proof.
  intros [A1 A2 A3 A4 A5 A6] [B1 B2 B3 B4 B5 B6].
  assert (Heff : F ++ batch_effects (b1 ++ b2).*2 = (F ++ batch_effects b1.*2) ++ batch_effects b2.*2).
  { unfold batch_effects. by rewrite fmap_app, map_app, concat_app, (assoc_L (++)). }
  constructor; rewrite ?Heff; try done; [|rewrite len_app; lia|by rewrite B3, A3, (assoc_L (++))|by auto].
  apply consecutive_app. split; [done|]. by replace (sequence p + 1 + len b1) with (sequence p1 + 1) by lia.
Qed.

Lemma grown_halted F (p : Persistence) b1 st1 p1 st2 p2 :
  grown F p b1 st1 p1 -> halted (F ++ batch_effects b1.*2) st2 p2 -> halted F st2 p2.
Proof.
  intros H1 (H2 & H3 & batches & part & H4 & H5 & H6). split; [done|]. split; [done|].
  exists (b1.*2 ++ batches), (b1.*2 ++ part). split; [by apply prefix_app|].
  unfold batch_effects in *. rewrite !map_app, !concat_app, !(assoc_L (++)). done.
Qed.

(** The effects of a run can be written, in every state the run comes to. *)
Fixpoint run_fits (s : surrounding) (commands : list (list bytes)) (p : Persistence) (st : ShardedStore) : Prop :=
  match commands with
  | [] => True
  | args :: rest =>
    commits_fit (at_stage 0 s) (OpCommand args) st /\
    forall st' p' tasks o, execute_ordered_command (at_stage 0 s) args p st = Some (st', (p', tasks, o)) ->
      run_fits (at_stage 1 s) rest p' st'
  end.

(** A node that does not accept writes answers them without touching anything. *)
Lemma run_refused lim s commands (p : Persistence) st :
  coordinated s = false -> accepting_writes p = false -> world_before (readings s) T -> sound lim st ->
  exists st' tasks l, run_ordered s commands p st = Some (st', (p, tasks, l)) /\ length l = length commands /\
    undisturbed lim st p st' p.
Proof.
  intros Hc Ha Hw Hs. revert s st Hc Hw Hs. induction commands as [|args rest IH]; intros s st Hc Hw Hs; cbn [run_ordered].
  { eexists _, _, _. split; [done|]. split; [done|]. by apply undisturbed_refl. }
  assert (H1 : exists st1 tasks o, execute_ordered_command (at_stage 0 s) args p st = Some (st1, (p, tasks, o)) /\
    undisturbed lim st p st1 p).
  { destruct (is_write_command (arg_or_empty args 0)) eqn:Er.
    - unfold execute_ordered_command, direct_command. cbn [at_stage coordinated]. rewrite Er, Hc, Ha. cbn [negb].
      eexists _, _, _. split; [done|]. by apply undisturbed_refl.
    - destruct (ordered_read lim (at_stage 0 s) args p st) as (st1 & p1 & tasks & o & E & U);
        [apply (world_before_stage _ _ _ Hw)|done|done|]. pose proof (un_server _ _ _ _ _ U) as ->. eauto. }
  destruct H1 as (st1 & tasks & o & E1 & U1). rewrite (bind_run _ _ _ _ _ E1).
  destruct (IH (at_stage 1 s) st1) as (st2 & more & l & E2 & Hlen & U2); [done|apply (world_before_stage _ _ _ Hw)|apply U1|].
  rewrite (bind_run _ _ _ _ _ E2). eexists _, _, _. split; [done|]. split; [by simpl; f_equal|]. by eapply undisturbed_trans.
Qed.

Lemma run_ordered_spec lim s commands (p : Persistence) F st :
  coordinated s = false -> world_before (readings s) T -> sound lim st -> 0 <= lim.1 ->
  steady T (commit_runtime p) F -> matches T st F -> run_fits s commands p st ->
  written lim F p st (run_ordered s commands p) (fun l => length l = length commands).
Proof.
  intros Hc Hw Hs Hl. revert s p F st Hc Hw Hs.
  induction commands as [|args rest IH]; intros s p F st Hc Hw Hs Hst Hm Hfit; cbn [run_ordered].
  { apply undisturbed_written; try done. eexists _, _, _, _. split; [done|]. split; [by apply undisturbed_refl|done]. }
  destruct Hfit as [Hfit Hrest].
  destruct (ordered_command_spec lim (at_stage 0 s) args p F st) as (st1 & p1 & tasks & o & E1 & S1 & H1 & _);
    [apply (world_before_stage _ _ _ Hw)|done|done|done|done|done|].
  unfold written. rewrite (bind_run _ _ _ _ _ E1). specialize (Hrest _ _ _ _ E1).
  pose proof (world_before_stage _ 1 _ Hw) as Hw1. destruct H1 as [[b1 G1]|H1].
  - destruct (IH (at_stage 1 s) p1 (F ++ batch_effects b1.*2) st1) as (st2 & p2 & more & l & E2 & S2 & H2 & Hlen); try done;
      [apply G1|apply G1|].
    rewrite (bind_run _ _ _ _ _ E2). eexists _, _, _, _. split; [done|]. split; [done|]. split; [|by simpl; f_equal].
    destruct H2 as [[b2 G2]|H2]; [left; exists (b1 ++ b2); by eapply grown_trans|right; by eapply grown_halted].
  - destruct H1 as (Ha & Hf & batches & part & Hpre & Hrec & Hshow).
    destruct (run_refused lim (at_stage 1 s) rest p1 st1) as (st2 & more & l & E2 & Hlen & U2); try done.
    rewrite (bind_run _ _ _ _ _ E2). eexists _, _, _, _. split; [done|]. split; [apply U2|]. split; [|by simpl; f_equal].
    right. split; [done|]. split; [done|]. exists batches, part. split; [done|]. split; [done|].
    eapply matches_cells; [apply U2|done].
Qed.

Definition commands_fit (s : surrounding) (commands : list (list bytes)) (p : Persistence) (st : ShardedStore) : Prop :=
  if coordinated s then commits_fit s (OpCommandGroup commands) st else run_fits s commands p st.

(** Every command of a run is answered. *)
Lemma ordered_commands_spec lim s commands (p : Persistence) F st :
  world_before (readings s) T -> sound lim st -> 0 <= lim.1 -> steady T (commit_runtime p) F -> matches T st F ->
  commands_fit s commands p st ->
  written lim F p st (execute_ordered_commands s commands p) (fun l => length l = length commands).
Proof.
  intros Hw Hs Hl Hst Hm Hfit. unfold execute_ordered_commands, commands_fit in *. destruct (coordinated s) eqn:Ec.
  2: { by apply run_ordered_spec. }
  destruct (submit_as_spec lim s (OpCommandGroup commands) (bs "command group")
    (fun r => match r with RespCommandGroup l => Some l | _ => None end) p F st) as (st' & p' & tasks & r & E & S & H); try done.
  { intros r Hans. by destruct r. }
  unfold written, coordinator_commands. rewrite (bind_run _ _ _ _ _ E). eexists _, _, _, _. split; [done|]. split; [done|].
  destruct r as [l|e]; [|split; [done|by rewrite length_map]].
  destruct H as [(resp & Hans & Hsel) [batches Hg]]. split; [by eapply grown_moved|].
  destruct resp; try done. by injection Hsel as <-.
Qed.

(** ** Transactions *)

Lemma first_or_empty (args : list bytes) :
  match args with c :: _ => is_write_command c | [] => false end = is_write_command (arg_or_empty args 0).
Proof. by destruct args. Qed.

Lemma no_writes commands :
  existsb (fun args => match args with c :: _ => is_write_command c | [] => false end) commands = false <->
  Forall (fun args => is_write_command (arg_or_empty args 0) = false) commands.
Proof.
  induction commands as [|args rest IH]; cbn [existsb]; [done|].
  rewrite orb_false_iff, IH, list.Forall_cons, first_or_empty. done.
Qed.

Lemma transaction_reads lim s commands replica (p : Persistence) st :
  world_before (readings s) T -> sound lim st ->
  replica = true \/ Forall (fun args => is_write_command (arg_or_empty args 0) = false) commands ->
  exists st' p' tasks l, execute_transaction s commands replica p st = Some (st', (p', tasks, Array l)) /\
    length l = length commands /\ undisturbed lim st p st' p'.
Proof.
  intros Hw Hs Hor. unfold execute_transaction.
  destruct (existsb _ commands) eqn:Ex; cbn [negb].
  - assert (replica = true) as ->.
    { destruct Hor as [|Hall%no_writes]; [done|]. by rewrite Hall in Ex. }
    destruct (read_all_spec lim (stage (readings s) 2) true commands p st) as (st' & l & E & Hlen & U);
      [auto with onyx|done|done|].
    rewrite (bind_run _ _ _ _ _ E). eexists _, _, _, _. split; [done|]. split; done.
  - destruct (read_all_spec lim (stage (readings s) 2) false commands p st) as (st' & l & E & Hlen & U);
      [auto with onyx|done|intros _; by apply no_writes|].
    rewrite (bind_run _ _ _ _ _ E). eexists _, _, _, _. split; [done|]. split; done.
Qed.

Lemma transaction_spec lim s commands replica (p : Persistence) F st :
  world_before (readings s) T -> sound lim st -> 0 <= lim.1 -> steady T (commit_runtime p) F -> matches T st F ->
  commits_fit s (OpTransaction commands) st ->
  written lim F p st (execute_transaction s commands replica p) (fun _ => True).
Proof.
  intros Hw Hs Hl Hst Hm Hfit.
  destruct (existsb (fun args => match args with c :: _ => is_write_command c | [] => false end) commands && negb replica)
    eqn:Ex.
  - apply andb_true_iff in Ex as [Ex ->%negb_true_iff]. unfold execute_transaction. rewrite Ex. cbn [negb].
    unfold commits_fit in Hfit. destruct (coordinated s) eqn:Ec; [|by apply direct_transaction_spec].
    destruct (submit_as_spec lim s (OpTransaction commands) (bs "transaction")
      (fun r => match r with RespTransaction v => Some v | _ => None end) p F st) as (st' & p' & tasks & r & E & S & H); try done.
    { unfold commits_fit. by rewrite Ec. }
    { intros r Hans. by destruct r. }
    unfold written, coordinator_transaction. rewrite (bind_run _ _ _ _ _ E). eexists _, _, _, _. split; [done|]. split; [done|].
    split; [|done]. destruct r as [v|e]; [|done]. destruct H as [_ [batches Hg]]. by eapply grown_moved.
  - apply undisturbed_written; try done.
    assert (Hor : replica = true \/ Forall (fun args => is_write_command (arg_or_empty args 0) = false) commands).
    { apply andb_false_iff in Ex as [Ex|Ex%negb_false_iff]; [right; by apply no_writes|by left]. }
    destruct (transaction_reads lim s commands replica p st Hw Hs Hor) as (st' & p' & t & l & E & _ & U).
    by exists st', p', t, (Array l).
Qed.

End RoutesSpec.
