(* ===== verification/ObpServer.v ===== *)
(** * ObpServer: connections of the binary protocol (src/main.rs)

    Authentication, the commands of the protocol and the loop of a connection:
    it reads what the peer sent into a buffer, answers every frame the buffer
    holds and closes on malformed input, on a timeout and on a response that does
    not fit a frame.  Times are milliseconds; what arrives when, and whether a
    write succeeds, is given from outside. *)

From Stdlib Require Import ZArith Lia.
From Stdlib Require Import Strings.Byte.
From stdpp Require Import base gmap list strings numbers sorting.
From S2P Require Import Prelude Text Json JsonPath Value Shard Engine Store Persistence Model Codec BinlogIo Recovery Runtime Resp Execution Admission Server ServerInfo Obp Coordinator Routes.

Open Scope Z_scope.

(** ** Authentication *)

(** The configured users, by name. *)
Definition auth_required (users : gmap bytes bytes) : bool := negb (bool_decide (users = ∅)).

Definition check_credentials (users : gmap bytes bytes) (username password : bytes) : bool :=
  match users !! username with Some p => bytes_eqb p password | None => false end.

(** [format!("{:?}", value)]: the debug text of a value, which quotes the bytes
    and the JSON document with the packages that hold them. *)
Class DebugText {JN : JsonNumber} := { debug_value : OnyxValue -> bytes }.

Section ObpServer.
Context {CRC : Crc32} {GZ : Gzip} {JN : JsonNumber} {SJ : SerdeJson} {HO : HashOrder} {FT : FloatText} {DT : DebugText}.

(** ** Commands *)

Definition obp_reply (frame : OBPFrame) (text : bytes) : OBPFrame :=
  mkFrame x00 0 (correlation_id frame) [] (Some text).

Definition obp_credentials (l : list bytes) : option (bytes * bytes) :=
  match l with
  | user :: password :: _ =>
    match Utf8.from_utf8 user, Utf8.from_utf8 password with
    | Some u, Some p => Some (u, p)
    | _, _ => None
    end
  | [password] => (fun p => (bs "default", p)) <$> Utf8.from_utf8 password
  | [] => None
  end.

Definition obp_authenticate (users : gmap bytes bytes) (l : list bytes) : bool :=
  auth_required users &&
  match obp_credentials l with Some (u, p) => check_credentials users u p | None => false end.

(** The text of a mutation's answer. *)
Definition obp_result (r : result PersistenceError ObpMutationResult) : bytes :=
  match r with
  | Ok (ObpValue v) => debug_value v
  | Ok (ObpError m) => m
  | Err e => misconf_once (bs "mutation") e
  end.

Definition obp_write (coordinator : prog (served (result PersistenceError ObpMutationResult)))
    (direct : prog (served ObpMutationResult)) (s : surrounding) : prog (served bytes) :=
  if coordinated s
  then '(p, tasks, r) ← coordinator; mret (p, tasks, obp_result r)
  else '(p, tasks, r) ← direct; mret (p, tasks, obp_result (Ok r)).

(** A command of an authenticated connection. *)
Definition obp_command (s : surrounding) (frame : OBPFrame) (replica_mode : bool) (p : Persistence)
  : prog (served bytes) :=
  let command := byte_Z (cmd frame) in
  if replica_mode && ((command =? 2) || (command =? 3))
  then mret (p, [], bs "READONLY this instance is a read-only replica")
  else if command =? 1 then
    match args frame with
    | key :: _ =>
      e ← get_entry (clock_of (readings s) 2) key;
      mret (p, [], debug_value (match e with Some e => value e | None => Blob [] end))
    | [] => mret (p, [], debug_value (Blob []))
    end
  else if command =? 2 then
    match args frame with
    | key :: v :: _ =>
      obp_write (coordinator_obp_set s key v p) (direct_obp_set (readings s) (fsync s) (worker s) key v p) s
    | _ => mret (p, [], debug_value (Blob (bs "ERR")))
    end
  else if command =? 3 then
    match args frame with
    | key :: _ =>
      obp_write (coordinator_obp_delete s key p) (direct_obp_delete (readings s) (fsync s) (worker s) key p) s
    | [] => mret (p, [], debug_value (Int 0))
    end
  else if command =? 240 then mret (p, [], debug_value (Blob (bs "PONG")))
  else mret (p, [], debug_value (Blob (bs "ERR unknown command"))).

(** The response and whether the connection is authenticated afterwards. *)
Definition execute_obp_command (s : surrounding) (users : gmap bytes bytes) (frame : OBPFrame) (authenticated : bool)
    (replica_mode : bool) (p : Persistence) : prog (served (OBPFrame * bool)) :=
  if byte_Z (cmd frame) =? 16 then
    let ok := obp_authenticate users (args frame) in
    mret (p, [], (obp_reply frame (if ok then bs "OK" else bs "WRONGPASS"), ok || authenticated))
  else if negb authenticated then
    mret (p, [], (obp_reply frame (bs "NOAUTH authentication required"), authenticated))
  else
    '(p, tasks, text) ← obp_command s frame replica_mode p;
    mret (p, tasks, (obp_reply frame text, authenticated)).

(** ** Connections *)

Definition OBP_IDLE_TIMEOUT : Z := 60 * 1000.
Definition OBP_FRAME_TIMEOUT : Z := 30 * 1000.
Definition READ_BUFFER_SIZE : Z := 8192.

(** [served_count] numbers the frames of the connection; [output] is what the
    peer was sent and [pending] what is written and not flushed.  (A writer whose
    buffer is full passes bytes on before the flush; they count as sent with it.) *)
Record obp_connection : Type := mkObpConnection {
  buffer : bytes;
  authenticated : bool;
  frame_started_at : option Z;
  served_count : nat;
  pending : bytes;
  output : bytes
}.

Definition obp_open (users : gmap bytes bytes) : obp_connection :=
  mkObpConnection [] (negb (auth_required users)) None 0 [] [].

(** Whether the loop goes on, is left through the final flush, or returns at
    once with what is not flushed lost. *)
Inductive loop_end : Type := GoesOn | Leaves | Returns.

Definition flushed (c : obp_connection) : obp_connection :=
  mkObpConnection (buffer c) (authenticated c) (frame_started_at c) (served_count c) [] (output c ++ pending c).

(** What the peer and the network do: the surrounding of each frame and whether
    the write of each response succeeds. *)
Record obp_environment : Type := mkObpEnvironment {
  frame_surrounding : nat -> surrounding;
  write_succeeds : nat -> bool
}.

(** The loop over the frames of the buffer.  Every frame has at least fifteen
    bytes, so the buffer's length is fuel enough. *)
Fixpoint serve_frames (fuel : nat) (env : obp_environment) (users : gmap bytes bytes) (c : obp_connection)
    (p : Persistence) : prog (served (obp_connection * loop_end)) :=
  match fuel with
  | O => mret (p, [], (c, GoesOn))
  | S fuel =>
    match decode (buffer c) with
    | (_, Err _) => mret (p, [], (c, Leaves))
    | (_, Ok None) => mret (p, [], (c, GoesOn))
    | (rest, Ok (Some frame)) =>
      let n := served_count c in
      '(p, tasks, (response, auth)) ←
        execute_obp_command (frame_surrounding env n) users frame (authenticated c) (is_replica p) p;
      let served text := mkObpConnection rest auth (frame_started_at c) (S n) (pending c ++ text) (output c) in
      match encode response [] with
      | (_, Err _) => mret (p, tasks, (served [], Returns))
      | (out, Ok _) =>
        if write_succeeds env n
        then
          '(p, more, r) ← serve_frames fuel env users (served out) p;
          mret (p, tasks ++ more, r)
        else mret (p, tasks, (served [], Returns))
      end
    end
  end.

Inductive read_event : Type :=
| Received (data : bytes)
| PeerClosed
| ReadFailed
| NothingArrived.

(** One round of the connection's loop: when it starts to wait, what happens and
    when, when the commands have run, and whether the flush succeeds. *)
Record obp_round : Type := mkObpRound {
  wait_from : Z;
  arrived : Z;
  event : read_event;
  executed : Z;
  flush_succeeds : bool
}.

Definition obp_read_timeout (idle_timeout frame_timeout : Z) (c : obp_connection) (now : Z) : Z :=
  match frame_started_at c with
  | None => idle_timeout
  | Some started_at => sat_sub frame_timeout (now - started_at)
  end.

(** [frame_started_at] after the frames of the buffer were answered. *)
Definition next_start (wrote_response : bool) (now : Z) (c : obp_connection) : option Z :=
  if bool_decide (buffer c = []) then None
  else if wrote_response then Some now
  else frame_started_at c.

Definition with_read (data : bytes) (started : option Z) (c : obp_connection) : obp_connection :=
  mkObpConnection (buffer c ++ data) (authenticated c) started (served_count c) (pending c) (output c).

Definition obp_step (idle_timeout frame_timeout : Z) (env : obp_environment) (users : gmap bytes bytes) (r : obp_round)
    (c : obp_connection) (p : Persistence) : prog (served (obp_connection * loop_end)) :=
  let read_timeout := obp_read_timeout idle_timeout frame_timeout c (wait_from r) in
  if read_timeout =? 0 then mret (p, [], (c, Leaves))
  else if read_timeout <=? arrived r - wait_from r then mret (p, [], (c, Leaves))
  else
    match event r with
    | Received ((_ :: _) as data) =>
      let started := match frame_started_at c with Some t => Some t | None => Some (arrived r) end in
      if MAX_OBP_FRAME_SIZE + READ_BUFFER_SIZE <? sat_add (len (buffer c)) (len data)
      then mret (p, [], (with_read [] started c, Leaves))
      else
        let c := with_read data started c in
        '(p, tasks, (c', e)) ← serve_frames (S (length (buffer c))) env users c p;
        match e with
        | GoesOn =>
          let wrote_response := bool_decide (served_count c' <> served_count c) in
          let c' := mkObpConnection (buffer c') (authenticated c') (next_start wrote_response (executed r) c')
                      (served_count c') (pending c') (output c') in
          mret (p, tasks, if negb wrote_response then (c', GoesOn)
                          else if flush_succeeds r then (flushed c', GoesOn) else (c', Returns))
        | _ => mret (p, tasks, (c', e))
        end
    | Received [] | PeerClosed | ReadFailed | NothingArrived => mret (p, [], (c, Leaves))
    end.

(** A connection over the rounds until it ends. *)
Fixpoint handle_obp_client (idle_timeout frame_timeout : Z) (env : obp_environment) (users : gmap bytes bytes)
    (rounds : list obp_round) (c : obp_connection) (p : Persistence) : prog (served (obp_connection * loop_end)) :=
  match rounds with
  | [] => mret (p, [], (c, GoesOn))
  | r :: rest =>
    '(p, tasks, (c, e)) ← obp_step idle_timeout frame_timeout env users r c p;
    match e with
    | GoesOn =>
      '(p, more, result) ← handle_obp_client idle_timeout frame_timeout env users rest c p;
      mret (p, tasks ++ more, result)
    | Leaves => mret (p, tasks, (if flush_succeeds r then flushed c else c, Leaves))
    | Returns => mret (p, tasks, (c, Returns))
    end
  end.

End ObpServer.

(** * What a binary connection may do and what it answers *)

From S2P Require Import ShardSpec EngineSpec EngineMulti EngineActs CodecSpec ManagedBinlog HistorySpec ManagedSpec EntryEq StoreSpec ModelSpec CommitSpec ExecutionSpec ServerSpec Obp CoordinatorSpec CoordinatorGroups.

Section ObpServerSpec.
Context {CRC : Crc32} {GZ : Gzip} {JN : JsonNumber} {SJ : SerdeJson} {HO : HashOrder} {FT : FloatText} {DT : DebugText}.
Context (parsed_wf : forall s v, json_from_str s = Some v -> wf_value v).
Context (number_per : per number_eqb).
Context (T : Z).

(** The mutation a frame asks for. *)
Definition obp_operation (frame : OBPFrame) : option MasterCommitOperation :=
  if byte_Z (cmd frame) =? 2
  then match args frame with key :: v :: _ => Some (OpObpSet key v) | _ => None end
  else if byte_Z (cmd frame) =? 3
  then match args frame with key :: _ => Some (OpObpDelete key) | [] => None end
  else None.

Definition obp_fits (s : surrounding) (frame : OBPFrame) (st : ShardedStore) : Prop :=
  forall op, obp_operation frame = Some op -> commits_fit s op st.

Lemma get_entry_quiet lim clk key (p : Persistence) st :
  clock_before clk T -> sound lim st ->
  exists st' o, get_entry clk key st = Some (st', o) /\ undisturbed T lim st p st' p.
Proof.
  intros Hclk Hs.
  assert (Hspec : spec T ∅ (fun _ => True) (get_entry clk key)).
  { unfold get_entry. apply (spec_read_only T key _ _ (get_acts clk key)). by apply cs_get. }
  destruct (Hspec st (so_good _ _ Hs)) as (st' & o & E & [G [L1 L2] _ Q]). exists st', o. split; [done|].
  destruct Hs as [_ Hm Hp]. constructor; [done|constructor; [done|congruence|congruence]|].
  intros k. unfold cell_at. rewrite <- !lookup_logical. by rewrite Q.
Qed.

(** ** One frame *)

(** Commands that change nothing: reads, unknown ones, and writes to a replica. *)
Lemma obp_command_quiet lim s frame replica (p : Persistence) st :
  world_before (readings s) T -> sound lim st -> replica = true \/ obp_operation frame = None ->
  exists st' p' tasks text, obp_command s frame replica p st = Some (st', (p', tasks, text)) /\
    undisturbed T lim st p st' p'.
Proof.
  intros Hw Hs Hor.
  assert (Hret : forall text, exists st' p' tasks t, (mret (p, [], text) : prog (served bytes)) st =
    Some (st', (p', tasks, t)) /\ undisturbed T lim st p st' p').
  { intros text. eexists _, _, _, _. split; [done|by apply undisturbed_refl]. }
  unfold obp_command, obp_operation in *.
  destruct (replica && ((byte_Z (cmd frame) =? 2) || (byte_Z (cmd frame) =? 3))) eqn:Er; [apply Hret|].
  destruct (Z.eqb_spec (byte_Z (cmd frame)) 1) as [E1|_].
  { destruct (args frame) as [|key l]; [apply Hret|].
    destruct (get_entry_quiet lim (clock_of (readings s) 2) key p st) as (st' & o & E & U); [auto with onyx|done|].
    rewrite (bind_run _ _ _ _ _ E). eexists _, _, _, _. split; [done|exact U]. }
  assert (Hnone : (byte_Z (cmd frame) =? 2) || (byte_Z (cmd frame) =? 3) = true -> replica = false).
  { intros H. rewrite H in Er. by destruct replica. }
  destruct (byte_Z (cmd frame) =? 2) eqn:E2.
  { destruct Hor as [->|Hor]; [by specialize (Hnone eq_refl)|].
    destruct (args frame) as [|key [|v l]]; [apply Hret|apply Hret|done]. }
  destruct (byte_Z (cmd frame) =? 3) eqn:E3.
  { destruct Hor as [->|Hor]; [by specialize (Hnone eq_refl)|]. destruct (args frame) as [|key l]; [apply Hret|done]. }
  destruct (_ =? 240); apply Hret.
Qed.

Lemma obp_write_spec lim s (p : Persistence) F st coordinator direct :
  (coordinated s = true -> exists st' p' tasks r, coordinator st = Some (st', (p', tasks, r)) /\ sound lim st' /\
     moved T F p st' p') ->
  (coordinated s = false -> written T lim F p st direct (fun _ => True)) ->
  written T lim F p st (obp_write coordinator direct s) (fun _ => True).
Proof.
  intros Hc Hd. unfold obp_write. destruct (coordinated s).
  - destruct (Hc eq_refl) as (st' & p' & tasks & r & E & S & H). unfold written. rewrite (bind_run _ _ _ _ _ E).
    by eexists _, _, _, _.
  - destruct (Hd eq_refl) as (st' & p' & tasks & r & E & S & H & _). unfold written. rewrite (bind_run _ _ _ _ _ E).
    by eexists _, _, _, _.
Qed.

Lemma submit_obp lim s op (p : Persistence) F st :
  coordinated s = true -> world_before (readings s) T -> sound lim st -> 0 <= lim.1 ->
  steady T (commit_runtime p) F -> matches T st F -> commits_fit s op st ->
  (forall r, suits op r -> is_Some (select_obp r)) ->
  exists st' p' tasks r, submit_as s op (bs "OBP") select_obp p st = Some (st', (p', tasks, r)) /\ sound lim st' /\
    moved T F p st' p'.
Proof.
  intros Hc Hw Hs Hl Hst Hm Hfit Hsel.
  destruct (submit_as_spec parsed_wf number_per T lim s op (bs "OBP") select_obp p F st) as (st' & p' & tasks & r & E & S & H);
    try done.
  exists st', p', tasks, r. split; [done|]. split; [done|]. destruct r as [o|e]; [|done].
  destruct H as [_ [batches Hg]]. by eapply grown_moved.
Qed.

Lemma obp_command_spec lim s frame replica (p : Persistence) F st :
  world_before (readings s) T -> sound lim st -> 0 <= lim.1 -> steady T (commit_runtime p) F -> matches T st F ->
  obp_fits s frame st -> written T lim F p st (obp_command s frame replica p) (fun _ => True).
Proof.
  intros Hw Hs Hl Hst Hm Hfit.
  destruct (decide (replica = true \/ obp_operation frame = None)) as [Hq|Hno].
  { apply (undisturbed_written T lim); try done. destruct (obp_command_quiet lim s frame replica p st) as (st' & p' & t & x & E & U);
      try done. by exists st', p', t, x. }
  unfold obp_fits, obp_operation in *. destruct replica; [tauto|]. unfold obp_command. cbn [andb].
  destruct (Z.eqb_spec (byte_Z (cmd frame)) 1) as [E1|_]; [rewrite E1 in Hno; cbn in Hno; tauto|].
  destruct (byte_Z (cmd frame) =? 2); [|destruct (byte_Z (cmd frame) =? 3); [|tauto]].
  - destruct (args frame) as [|key [|v l]]; [tauto|tauto|]. specialize (Hfit _ eq_refl). apply obp_write_spec; intros Ec.
    + apply (submit_obp lim); try done. by intros [].
    + unfold commits_fit in Hfit. rewrite Ec in Hfit. by apply direct_obp_set_spec.
  - destruct (args frame) as [|key l]; [tauto|]. specialize (Hfit _ eq_refl). apply obp_write_spec; intros Ec.
    + apply (submit_obp lim); try done. by intros [].
    + by apply direct_obp_delete_spec.
Qed.

(** Authenticating and refusing touch nothing. *)
Lemma obp_unauthenticated s users frame auth replica (p : Persistence) st :
  auth = false \/ byte_Z (cmd frame) = 16 ->
  exists text auth', execute_obp_command s users frame auth replica p st =
      Some (st, (p, [], (obp_reply frame text, auth'))) /\
    (auth' = true <-> auth = true \/ byte_Z (cmd frame) = 16 /\ obp_authenticate users (args frame) = true).
Proof.
  intros Hor. unfold execute_obp_command. destruct (Z.eqb_spec (byte_Z (cmd frame)) 16) as [E|E].
  - eexists _, _. split; [done|]. rewrite orb_true_iff. tauto.
  - destruct Hor as [->|?]; [|done]. eexists _, _. split; [done|]. split; [done|]. by intros [?|[? _]].
Qed.

Lemma execute_obp_spec lim s users frame auth replica (p : Persistence) F st :
  world_before (readings s) T -> sound lim st -> 0 <= lim.1 -> steady T (commit_runtime p) F -> matches T st F ->
  obp_fits s frame st ->
  exists st' p' tasks text auth',
    execute_obp_command s users frame auth replica p st = Some (st', (p', tasks, (obp_reply frame text, auth'))) /\
    sound lim st' /\ moved T F p st' p' /\
    (auth = false \/ replica = true \/ obp_operation frame = None -> undisturbed T lim st p st' p') /\
    (auth' = true <-> auth = true \/ byte_Z (cmd frame) = 16 /\ obp_authenticate users (args frame) = true).
Proof.
  intros Hw Hs Hl Hst Hm Hfit.
  destruct (decide (auth = false \/ byte_Z (cmd frame) = 16)) as [Hor|Hno].
  - destruct (obp_unauthenticated s users frame auth replica p st Hor) as (text & auth' & E & Hauth).
    exists st, p, [], text, auth'. split; [done|]. split; [done|]. split; [|split; [intros _; by apply undisturbed_refl|done]].
    left. exists []. by apply grown_nothing.
  - destruct auth; [|tauto]. unfold execute_obp_command. rewrite (proj2 (Z.eqb_neq _ _)) by tauto. cbn [negb].
    destruct (decide (replica = true \/ obp_operation frame = None)) as [Hq|Hw'].
    + destruct (obp_command_quiet lim s frame replica p st) as (st' & p' & t & x & E & U); try done.
      rewrite (bind_run _ _ _ _ _ E). eexists _, _, _, _, _. split; [done|]. split; [apply U|].
      split; [left; exists []; by eapply undisturbed_grown|]. split; [done|tauto].
    + destruct (obp_command_spec lim s frame replica p F st) as (st' & p' & t & x & E & S & H & _); try done.
      rewrite (bind_run _ _ _ _ _ E). eexists _, _, _, _, _. split; [done|]. split; [done|]. split; [done|].
      split; [intros [?|?]; [done|tauto]|tauto].
Qed.

End ObpServerSpec.

(** ** Streams of frames

    The reference: the frames of a frame_stream answered one after the other.  A
    response that does not fit a frame ends the connection. *)

Section Streams.
Context {CRC : Crc32} {GZ : Gzip} {JN : JsonNumber} {SJ : SerdeJson} {HO : HashOrder} {FT : FloatText} {DT : DebugText}.
Context (env : obp_environment) (users : gmap bytes bytes).
Context (Hwrites : forall n, write_succeeds env n = true).

Fixpoint answer_frames (n : nat) (auth : bool) (frames : list OBPFrame) (p : Persistence)
  : prog (served (nat * bool * bytes * loop_end)) :=
  match frames with
  | [] => mret (p, [], (n, auth, [], GoesOn))
  | frame :: rest =>
    '(p, tasks, (response, auth)) ← execute_obp_command (frame_surrounding env n) users frame auth (is_replica p) p;
    match encode response [] with
    | (_, Err _) => mret (p, tasks, (S n, auth, [], Returns))
    | (out, Ok _) =>
      '(p, more, (n, auth, text, e)) ← answer_frames (S n) auth rest p;
      mret (p, tasks ++ more, (n, auth, out ++ text, e))
    end
  end.

Lemma answer_frames_app gs hs n auth (p : Persistence) st :
  answer_frames n auth (gs ++ hs) p st =
  ('(p, tasks, (n, auth, text, e)) ← answer_frames n auth gs p;
   match e with
   | GoesOn =>
     '(p, more, (n, auth, text', e)) ← answer_frames n auth hs p;
     mret (p, tasks ++ more, (n, auth, text ++ text', e))
   | _ => mret (p, tasks, (n, auth, text, e))
   end) st.
Proof.
  revert n auth p st. induction gs as [|f gs IH]; intros n auth p st; cbn [app answer_frames].
  - unfold mbind, prog_bind, mret, prog_ret. by destruct (answer_frames n auth hs p st) as [[st' [[p' tasks] [[[n' a'] text] e]]]|].
  - unfold mbind, prog_bind in *. destruct (execute_obp_command _ _ _ _ _ _ st) as [[st1 [[p1 tasks] [response a1]]]|]; [|done].
    destruct (encode response []) as [out [u|e]]; [|done]. rewrite IH.
    destruct (answer_frames (S n) a1 gs p1 st1) as [[st2 [[p2 more] [[[n2 a2] text] [| |]]]]|]; cbn; try done.
    destruct (answer_frames n2 a2 hs p2 st2) as [[st3 [[p3 more'] [[[n3 a3] text'] e]]]|]; cbn; [|done].
    by rewrite !(assoc_L (++)).
Qed.

Definition frame_stream (frames : list OBPFrame) : bytes := concat (map frame_bytes frames).

Definition sendable (f : OBPFrame) : Prop := frame_wf f /\ fits f /\ normal f = f.

(** Where the bytes received so far cut the stream. *)
Lemma split_frames frames b rest :
  Forall sendable frames -> b ++ rest = frame_stream frames ->
  exists gs hs tail, frames = gs ++ hs /\ b = frame_stream gs ++ tail /\ tail ++ rest = frame_stream hs /\
    decode tail = (tail, Ok None) /\ len tail <= MAX_OBP_FRAME_SIZE.
Proof.
  intros H. revert b. induction H as [|f fs (Hwf & Hfit & Hn) Hfs IH]; intros b Hb.
  { apply app_eq_nil in Hb as [-> ->]. exists [], [], []. repeat split. done. }
  change (frame_stream (f :: fs)) with (frame_bytes f ++ frame_stream fs) in Hb.
  assert (Hcons : forall gs, frame_stream (f :: gs) = frame_bytes f ++ frame_stream gs) by done.
  apply app_eq_inv in Hb as [(k & -> & Hs)|(k & Hk & Hs)].
  - destruct (IH k (eq_sym Hs)) as (gs & hs & tail & -> & -> & H3 & H4 & H5).
    exists (f :: gs), hs, tail. split; [done|]. split; [|done]. by rewrite Hcons, <- (assoc_L (++)).
  - destruct k as [|x k].
    + rewrite app_nil_r in Hk. cbn [app] in Hs. subst b rest.
      destruct (IH [] eq_refl) as (gs & hs & tail & -> & H2 & H3 & H4 & H5).
      exists (f :: gs), hs, tail. split; [done|]. split; [|done]. by rewrite Hcons, <- (assoc_L (++)), <- H2, app_nil_r.
    + exists [], (f :: fs), b. split; [done|]. split; [done|].
      split; [by rewrite Hcons, Hk, Hs, (assoc_L (++))|]. split; [by eapply decode_prefix|].
      pose proof (fit_frame _ Hfit) as Hl. rewrite Hk, len_app in Hl. pose proof (len_nonneg (x :: k)). lia.
Qed.

(** The frames of the buffer are answered as the reference answers them. *)
Lemma serve_run fuel gs tail c (p : Persistence) st :
  Forall sendable gs -> buffer c = frame_stream gs ++ tail -> decode tail = (tail, Ok None) -> (length gs < fuel)%nat ->
  match answer_frames (served_count c) (authenticated c) gs p st with
  | None => serve_frames fuel env users c p st = None
  | Some (st', (p', tasks, (n, auth, text, e))) =>
    exists c', serve_frames fuel env users c p st = Some (st', (p', tasks, (c', e))) /\
      served_count c' = n /\ authenticated c' = auth /\ pending c' = pending c ++ text /\ output c' = output c /\
      frame_started_at c' = frame_started_at c /\ e <> Leaves /\ (e = GoesOn -> buffer c' = tail) /\
      (served_count c <= n)%nat /\ (e = GoesOn -> n = (served_count c + length gs)%nat)
  end.
Proof.
  intros H. revert fuel c p st. induction H as [|f gs (Hwf & Hfit & Hn) Hgs IH]; intros fuel c p st Hb Ht Hf;
    (destruct fuel as [|fuel]; [simpl in Hf; lia|]); cbn [serve_frames answer_frames].
  { cbn in Hb. rewrite Hb, Ht. exists c. cbn. rewrite app_nil_r, Nat.add_0_r. split_and!; done. }
  rewrite Hb. change (frame_stream (f :: gs)) with (frame_bytes f ++ frame_stream gs). rewrite <- (assoc_L (++)), decode_obp_frame, Hn by done.
  unfold mbind, prog_bind. destruct (execute_obp_command _ _ _ _ _ _ st) as [[st1 [[p1 tasks] [response a1]]]|]; [|done].
  destruct (encode response []) as [out [u|e]].
  2: { eexists. split; [done|]. cbn. split_and!; try done. lia. }
  rewrite Hwrites. specialize (IH fuel (mkObpConnection (frame_stream gs ++ tail) a1 (frame_started_at c) (S (served_count c))
    (pending c ++ out) (output c)) p1 st1 eq_refl Ht ltac:(simpl in Hf; lia)). cbn [served_count authenticated] in IH.
  destruct (answer_frames (S (served_count c)) a1 gs p1 st1) as [[st2 [[p2 more] [[[n2 a2] text] e]]]|].
  - destruct IH as (c' & E & H1 & H2 & H3 & H4 & H5 & H6 & H7 & H8 & H9). rewrite E. eexists. split; [done|].
    split_and!; try done; [by rewrite H3, (assoc_L (++))|lia|]. intros He. rewrite (H9 He). simpl. lia.
  - by rewrite IH.
Qed.

(** A round in which the peer's bytes arrive in time and the flush succeeds. *)
Definition in_window (t d : Z) (z : Z) : Prop := t <= z <= t + d.

Record prompt (t d : Z) (chunk : bytes) (r : obp_round) : Prop := {
  pt_event : event r = Received chunk;
  pt_chunk : 0 < len chunk <= READ_BUFFER_SIZE;
  pt_wait : in_window t d (wait_from r);
  pt_arrived : in_window t d (arrived r);
  pt_executed : in_window t d (executed r);
  pt_flush : flush_succeeds r = true
}.

Lemma timely idle frame t d chunk r c :
  d < idle -> d < frame -> prompt t d chunk r -> (forall z, frame_started_at c = Some z -> in_window t d z) ->
  (obp_read_timeout idle frame c (wait_from r) =? 0) = false /\
  (obp_read_timeout idle frame c (wait_from r) <=? arrived r - wait_from r) = false.
Proof.
  intros Hi Hf [_ _ H1 H2 _ _] Hs. unfold in_window, obp_read_timeout, sat_sub in *.
  destruct (frame_started_at c) as [z|]; [specialize (Hs z eq_refl)|]; split; [apply Z.eqb_neq|apply Z.leb_gt| |];
    try apply Z.eqb_neq; try apply Z.leb_gt; lia.
Qed.

Lemma len_frames_ge gs : (length gs <= length (frame_stream gs))%nat.
Proof.
  induction gs as [|f gs IH]; [done|]. change (frame_stream (f :: gs)) with (frame_bytes f ++ frame_stream gs).
  rewrite length_app. pose proof (len_frame_bytes f) as H. pose proof (len_nonneg (arguments_bytes (args f))).
  pose proof (len_nonneg (payload_text (payload f))). unfold len in H at 1. simpl. lia.
Qed.

(** A round that receives the rest of [gs] and [tail]. *)
Lemma step_run idle frame t d chunk r gs tail c (p : Persistence) st :
  d < idle -> d < frame -> prompt t d chunk r -> (forall z, frame_started_at c = Some z -> in_window t d z) ->
  Forall sendable gs -> buffer c ++ chunk = frame_stream gs ++ tail -> decode tail = (tail, Ok None) ->
  len (buffer c) <= MAX_OBP_FRAME_SIZE -> pending c = [] ->
  match answer_frames (served_count c) (authenticated c) gs p st with
  | None => obp_step idle frame env users r c p st = None
  | Some (st', (p', tasks, (n, auth, text, e))) =>
    exists c', obp_step idle frame env users r c p st = Some (st', (p', tasks, (c', e))) /\ e <> Leaves /\
      served_count c' = n /\ authenticated c' = auth /\
      (e = GoesOn -> output c' = output c ++ text /\ buffer c' = tail /\ pending c' = [] /\
                     forall z, frame_started_at c' = Some z -> in_window t d z) /\
      (e = Returns -> output c' = output c)
  end.
Proof.
  intros Hi Hf Hp Hstart Hgs Hb Ht Hlen Hpend. destruct (timely idle frame t d chunk r c Hi Hf Hp Hstart) as [Hz Hle].
  destruct Hp as [He Hc _ Harr Hex Hfl]. unfold obp_step. rewrite Hz, Hle, He.
  destruct chunk as [|x chunk]; [change (len (@nil byte)) with 0 in Hc; lia|]. set (data := x :: chunk) in *.
  replace (MAX_OBP_FRAME_SIZE + READ_BUFFER_SIZE <? sat_add (len (buffer c)) (len data)) with false
    by (symmetry; apply Z.ltb_ge; unfold sat_add; lia).
  set (started := match frame_started_at c with Some z => Some z | None => Some (arrived r) end).
  assert (Hstarted : forall z, started = Some z -> in_window t d z).
  { unfold started. intros z. destruct (frame_started_at c) as [z0|]; intros [= <-]; [by apply Hstart|done]. }
  set (c1 := with_read data started c). assert (Hb1 : buffer c1 = frame_stream gs ++ tail) by done.
  pose proof (serve_run (S (length (buffer c1))) gs tail c1 p st Hgs Hb1 Ht) as H.
  specialize (H ltac:(rewrite Hb1, length_app; pose proof (len_frames_ge gs); lia)).
  change (served_count c1) with (served_count c) in H. change (authenticated c1) with (authenticated c) in H.
  unfold mbind, prog_bind.
  destruct (answer_frames (served_count c) (authenticated c) gs p st) as [[st1 [[p1 tasks] [[[n a] text] e]]]|] eqn:Ea.
  2: { by rewrite H. }
  destruct H as (c' & E & H1 & H2 & H3 & H4 & H5 & H6 & H7 & H8 & H9). rewrite E.
  change (pending c1) with (pending c) in H3. rewrite Hpend in H3. cbn [app] in H3.
  change (output c1) with (output c) in H4. change (frame_started_at c1) with started in H5. destruct e; [|done|].
  - specialize (H7 eq_refl). specialize (H9 eq_refl). change (served_count c1) with (served_count c).
    rewrite H1. destruct (decide (n = served_count c)) as [Hn|Hn].
    + rewrite bool_decide_eq_false_2 by (by intros ?). cbn [negb]. eexists. split; [done|]. cbn.
      assert (gs = []) as -> by (destruct gs; [done|simpl in H9; lia]). cbn [answer_frames] in Ea. injection Ea as _ _ _ _ _ Htext.
      subst text. rewrite H3, H4, app_nil_r. split_and!; try done. intros _. split_and!; try done.
      unfold next_start. intros z. case_bool_decide; [done|]. rewrite H5. apply Hstarted.
    + rewrite bool_decide_eq_true_2 by done. cbn [negb]. rewrite Hfl. eexists. split; [done|]. cbn. rewrite H3, H4.
      split_and!; try done. intros _. split_and!; try done. unfold next_start. intros z. case_bool_decide; [done|].
      by intros [= <-].
  - eexists. split; [done|]. by split_and!.
Qed.

Lemma connection_run idle frame t d frames chunks rounds c (p : Persistence) st :
  d < idle -> d < frame -> Forall sendable frames -> Forall2 (prompt t d) chunks rounds ->
  buffer c ++ concat chunks = frame_stream frames -> decode (buffer c) = (buffer c, Ok None) ->
  len (buffer c) <= MAX_OBP_FRAME_SIZE -> pending c = [] -> (forall z, frame_started_at c = Some z -> in_window t d z) ->
  match answer_frames (served_count c) (authenticated c) frames p st with
  | None => handle_obp_client idle frame env users rounds c p st = None
  | Some (st', (p', tasks, (n, auth, text, e))) =>
    exists c', handle_obp_client idle frame env users rounds c p st = Some (st', (p', tasks, (c', e))) /\ e <> Leaves /\
      served_count c' = n /\ authenticated c' = auth /\ output c' `prefix_of` output c ++ text /\
      (e = GoesOn -> output c' = output c ++ text /\ buffer c' = [])
  end.
Proof.
  intros Hi Hf Hfs Hr. revert frames Hfs c p st. induction Hr as [|chunk r chunks rounds Hp _ IH];
    intros frames Hfs c p st Hb Hnone Hlen Hpend Hstart; cbn [handle_obp_client].
  { cbn [concat] in Hb. rewrite app_nil_r in Hb. destruct Hfs as [|f fs (Hwf & Hfit & Hn) Hfs].
    - cbn [answer_frames]. eexists. split; [done|]. rewrite app_nil_r. by split_and!.
    - change (frame_stream (f :: fs)) with (frame_bytes f ++ frame_stream fs) in Hb. rewrite Hb, decode_obp_frame in Hnone by done. done. }
  cbn [concat] in Hb. rewrite (assoc_L (++)) in Hb.
  destruct (split_frames frames (buffer c ++ chunk) (concat chunks) Hfs Hb) as (gs & hs & tail & -> & Hb1 & Hb2 & Ht & Hl).
  apply list.Forall_app in Hfs as [Hgs Hhs]. rewrite answer_frames_app.
  pose proof (step_run idle frame t d chunk r gs tail c p st Hi Hf Hp Hstart Hgs Hb1 Ht Hlen Hpend) as H.
  unfold mbind, prog_bind.
  destruct (answer_frames (served_count c) (authenticated c) gs p st) as [[st1 [[p1 tasks] [[[n a] text] e]]]|].
  2: { by rewrite H. }
  destruct H as (c1 & E1 & He & H1 & H2 & H3 & H4). rewrite E1. destruct e; [|done|].
  - destruct (H3 eq_refl) as (Ho & Hbuf & Hp1 & Hs1).
    specialize (IH hs Hhs c1 p1 st1 ltac:(by rewrite Hbuf) ltac:(by rewrite Hbuf) ltac:(by rewrite Hbuf) Hp1 Hs1).
    rewrite H1, H2 in IH.
    destruct (answer_frames n a hs p1 st1) as [[st2 [[p2 more] [[[n2 a2] text2] e2]]]|]; [|by rewrite IH].
    destruct IH as (c2 & E2 & He2 & J1 & J2 & J3 & J4). rewrite E2. eexists. split; [done|].
    rewrite Ho, <- (assoc_L (++)) in J3, J4. split_and!; done.
  - eexists. split; [done|]. split_and!; try done. rewrite (H4 eq_refl). by apply prefix_app_r.
Qed.

End Streams.
