(* ===== verification/Session.v ===== *)
(** * Session: connections of RESP clients (src/main.rs)

    A connection reads a command, authenticates, queues and runs transactions,
    and hands every other command to its route; write commands that are already
    buffered behind a write are run with it as one group.  A subscription and the
    replication of a replica take the connection over.  The process-wide counters
    of commands and of cache hits are left out; so is the compaction that SAVE
    waits for, whose steps are those of [Durability]. *)

From Stdlib Require Import ZArith Lia.
From Stdlib Require Import Strings.Byte.
From stdpp Require Import base gmap list strings numbers sorting.
From S2P Require Import Prelude Text Json JsonPath Value Shard Engine Store Persistence Model Codec BinlogIo Recovery Runtime Resp RespReader Execution Admission Server ServerInfo Obp Coordinator PubSub Routes ObpServer.

Open Scope Z_scope.

Definition MAX_TRANSACTION_COMMANDS : Z := 1024.
Definition MAX_TRANSACTION_BYTES : Z := 16 * 1024 * 1024.
Definition MAX_PIPELINED_COMMIT_COMMANDS : nat := 64.

(** ** The transaction queue *)

Record TransactionQueue : Type := mkQueue {
  queued : list (list bytes);
  encoded_bytes : Z;
  queue_failed : bool
}.

Definition queue_new : TransactionQueue := mkQueue [] 0 false.

Definition command_bytes (command : list bytes) : option Z :=
  fold_left (fun total argument => t ← total; checked_add t (sat_add (len argument) 16)) command (Some 16).

Definition err_queue_bytes : bytes := bs "ERR transaction queue byte limit exceeded".

Definition enqueue (command : list bytes) (q : TransactionQueue) : TransactionQueue * result bytes unit :=
  let failing := mkQueue (queued q) (encoded_bytes q) true in
  if queue_failed q then (q, Err (bs "ERR transaction queue is already invalid"))
  else if MAX_TRANSACTION_COMMANDS <=? len (queued q)
  then (failing, Err (bs "ERR transaction queue command limit exceeded"))
  else
    match (n ← command_bytes command; checked_add (encoded_bytes q) n) with
    | None => (failing, Err err_queue_bytes)
    | Some projected_bytes =>
      if MAX_TRANSACTION_BYTES <? projected_bytes then (failing, Err err_queue_bytes)
      else (mkQueue (queued q ++ [command]) projected_bytes false, Ok tt)
    end.

(** ** Connections *)

Record session : Type := mkSession {
  s_reader : Reader;
  s_authenticated : bool;
  s_transaction : option TransactionQueue;
  buffered_protocol_error : option bytes
}.

Definition session_open (users : gmap bytes bytes) (r : Reader) : session :=
  mkSession r (negb (auth_required users)) None None.

Definition with_reader (r : Reader) (c : session) : session :=
  mkSession r (s_authenticated c) (s_transaction c) (buffered_protocol_error c).
Definition with_auth (b : bool) (c : session) : session :=
  mkSession (s_reader c) b (s_transaction c) (buffered_protocol_error c).
Definition with_transaction (t : option TransactionQueue) (c : session) : session :=
  mkSession (s_reader c) (s_authenticated c) t (buffered_protocol_error c).
Definition with_protocol_error (e : option bytes) (c : session) : session :=
  mkSession (s_reader c) (s_authenticated c) (s_transaction c) e.

(** What the connection does after a command. *)
Inductive after : Type :=
| ServesOn
| HangsUp
| Subscribing (channels : list bytes)
| Replicating (arguments : list bytes)
| Saving.

(** The result of a turn: the responses that were written and whether they were
    flushed. *)
Record turn : Type := mkTurn {
  t_session : session;
  t_responses : list RESPValue;
  t_flush : bool;
  t_after : after
}.

Definition ERR (m : string) : RESPValue := RError (bs m).

(** A response that is flushed at once. *)
Definition say (c : session) (v : RESPValue) : turn := mkTurn c [v] true ServesOn.
Definition say_last (c : session) (v : RESPValue) : turn := mkTurn c [v] true HangsUp.

(** [AUTH password] and [AUTH username password]. *)
Definition auth_arguments (args : list bytes) : bytes * bytes :=
  match args with
  | _ :: username :: password :: _ => (username, password)
  | _ => (bs "default", arg_or_empty args 1)
  end.

Definition authenticate (users : gmap bytes bytes) (c : session) (args : list bytes) : turn :=
  let '(username, provided_password) := auth_arguments args in
  if negb (auth_required users) then say c (ERR "ERR no password configured on this server")
  else if check_credentials users username provided_password
  then say (with_auth true c) (SimpleString (bs "OK"))
  else say c (ERR "WRONGPASS invalid username or password").

(** ** INFO *)

Record ReplicaStatus : Type := mkStatus {
  addr : bytes;
  last_ack_offset : Z;
  last_ack_time : Z
}.

Definition newline_field (name : string) (v : bytes) : bytes := [x0a] ++ bs name ++ bs ":" ++ v.

Fixpoint info_replicas (clk : clock) (repl_offset : Z) (i : Z) (statuses : list ReplicaStatus) : bytes :=
  match statuses with
  | [] => []
  | status :: rest =>
    [x0a] ++ bs "slave" ++ print_Z i ++ bs ":addr=" ++ addr status ++ bs ",offset=" ++ print_Z (last_ack_offset status)
    ++ bs ",lag=" ++ print_Z (sat_sub repl_offset (last_ack_offset status))
    ++ bs ",last_ack_secs_ago=" ++ print_Z (sat_sub (clk 0%nat) (last_ack_time status))
    ++ info_replicas (tick 1 clk) repl_offset (i + 1) rest
  end.

(** The replication part, appended to the text of INFO. *)
Definition info_replication (clk : clock) (repl_offset : Z) (statuses : list ReplicaStatus) : bytes :=
  let max_lag := fold_right Z.max 0 (map (fun s => sat_sub repl_offset (last_ack_offset s)) statuses) in
  newline_field "master_repl_offset" (print_Z repl_offset)
  ++ newline_field "connected_replicas" (print_Z (len statuses))
  ++ newline_field "max_replica_lag" (print_Z max_lag)
  ++ info_replicas clk repl_offset 0 statuses.

(** ** Pipelining *)

(** The write commands that are complete in the buffer, up to [n] of them: what is
    left, the commands, whether a complete command that is no write or an error
    follows, and the error. *)
Fixpoint gather_pipeline (n : nat) (r : Reader) : Reader * list (list bytes) * bool * option bytes :=
  match n with
  | O => (r, [], false, None)
  | S n =>
    match decode_buffered_command (buffered r) CLIENT_RESP_LIMITS with
    | Ok (Some (name :: rest, consumed)) =>
      let name := to_uppercase name in
      if negb (is_write_command name) then (r, [], true, None)
      else
        let '(r, commands, barrier, error) := gather_pipeline n (consume consumed r) in
        (r, (name :: rest) :: commands, barrier, error)
    | Ok (Some ([], _)) | Ok None => (r, [], false, None)
    | Err error => (r, [], true, Some (message error))
    end
  end.

(** What a command meets besides its surrounding. *)
Record session_environment {JN : JsonNumber} : Type := mkSessionEnvironment {
  command_surrounding : surrounding;
  replica_status : list ReplicaStatus;
  info_clock : clock;
  promotion_flush : delivery;
  promotion_observed : option ReplicaLifecycleState;
  promotion_later : Persistence -> Persistence;
  peer_reads : bool
}.

Section Session.
Context {CRC : Crc32} {GZ : Gzip} {JN : JsonNumber} {SJ : SerdeJson} {HO : HashOrder} {FT : FloatText}.

Definition readonly : RESPValue := ERR "READONLY this instance is a read-only replica".

Definition is_replicaof_no_one (args : list bytes) : bool :=
  eq_ignore_ascii_case (arg_or_empty args 0) (bs "REPLICAOF")
  && match args !! 1%nat with Some s => eq_ignore_ascii_case s (bs "no") | None => false end
  && match args !! 2%nat with Some s => eq_ignore_ascii_case s (bs "one") | None => false end.

(** A write command of a master, with the writes that are buffered behind it. *)
Definition pipelined_writes (e : session_environment) (c : session) (args : list bytes) (p : Persistence)
  : prog (served turn) :=
  let '(r, more, barrier, error) := gather_pipeline (MAX_PIPELINED_COMMIT_COMMANDS - 1) (s_reader c) in
  '(p, tasks, outcomes) ← execute_ordered_commands (command_surrounding e) (args :: more) p;
  mret (p, tasks, mkTurn (with_protocol_error error (with_reader r c)) (map response outcomes) (negb barrier)
                    (if peer_reads e then ServesOn else HangsUp)).

(** The other commands; their response is flushed when nothing is buffered. *)
Definition plain_command (e : session_environment) (c : session) (args : list bytes) (p : Persistence)
  : prog (served turn) :=
  let name := arg_or_empty args 0 in
  let answer v := mkTurn c [v] (bool_decide (buffered (s_reader c) = [])) ServesOn in
  if bytes_eqb name (bs "SAVE") then mret (p, [], mkTurn c [] false Saving)
  else if is_replica p && is_write_command name then mret (p, [], answer readonly)
  else if is_replica p && is_replicaof_no_one args then
    let '(p, r) := prepare_replica_promotion (promotion_flush e) (promotion_observed e) (promotion_later e) p in
    mret (p, [], answer (match r with
                         | Ok _ => SimpleString (bs "OK")
                         | Err error => RError (bs "MISCONF promotion failed: " ++ pe_message error)
                         end))
  else
    '(p, tasks, o) ← execute_ordered_command (command_surrounding e) args p;
    mret (p, tasks, answer (match response o with
      | BulkString (Some text) =>
        if eq_ignore_ascii_case name (bs "INFO")
        then BulkString (Some (text ++ info_replication (info_clock e) (sequence p) (replica_status e)))
        else response o
      | v => v
      end)).

(** The answer to SAVE once the compaction is over. *)
Definition save_response (r : result PersistenceError Z) : RESPValue :=
  match r with
  | Ok _ => SimpleString (bs "OK")
  | Err error => RError (bs "ERR snapshot failed: " ++ pe_message error)
  end.

(** The commands of a transaction and of the connection itself, then the rest. *)
Definition client_command (e : session_environment) (users : gmap bytes bytes) (h : Hub) (c : session) (args : list bytes)
    (p : Persistence) : prog (served (Hub * turn)) :=
  let name := arg_or_empty args 0 in
  let here t := mret (p, [], (h, t)) in
  if eq_ignore_ascii_case name (bs "AUTH") then here (authenticate users c args)
  else if negb (s_authenticated c) then here (say c (ERR "NOAUTH authentication required. Use AUTH password"))
  else if eq_ignore_ascii_case name (bs "MULTI") then
    here (match s_transaction c with
          | Some _ => say c (ERR "ERR MULTI calls cannot be nested")
          | None => say (with_transaction (Some queue_new) c) (SimpleString (bs "OK"))
          end)
  else if eq_ignore_ascii_case name (bs "DISCARD") then
    here (match s_transaction c with
          | Some _ => say (with_transaction None c) (SimpleString (bs "OK"))
          | None => say c (ERR "ERR DISCARD without an active transaction (use MULTI first)")
          end)
  else if eq_ignore_ascii_case name (bs "EXEC") then
    match s_transaction c with
    | None => here (say c (ERR "ERR EXEC without an active transaction (use MULTI first)"))
    | Some q =>
      let c := with_transaction None c in
      if queue_failed q
      then here (say c (ERR "EXECABORT transaction discarded because its queue limit was exceeded"))
      else
        '(p, tasks, v) ← execute_transaction (command_surrounding e) (queued q) (is_replica p) p;
        mret (p, tasks, (h, say c v))
    end
  else
    match s_transaction c with
    | Some q =>
      let '(q, r) := enqueue args q in
      here (say (with_transaction (Some q) c)
              (match r with Ok _ => SimpleString (bs "QUEUED") | Err m => RError m end))
    | None =>
      if bytes_eqb name (bs "PUBLISH") then
        let '(h, v) := publish_message (arg_or_empty args 1) (arg_or_empty args 2) h in
        mret (p, [], (h, say c v))
      else if bytes_eqb name (bs "SUBSCRIBE") then here (mkTurn c [] false (Subscribing (drop 1 args)))
      else if bytes_eqb name (bs "SYNC") then
        here (say_last c (ERR "ERR replication protocol version 3 is required; use SYNC3"))
      else if bytes_eqb name (bs "SYNC3") then here (mkTurn c [] false (Replicating args))
      else if negb (is_replica p) && is_write_command name then
        '(p, tasks, t) ← pipelined_writes e c args p; mret (p, tasks, (h, t))
      else '(p, tasks, t) ← plain_command e c args p; mret (p, tasks, (h, t))
    end.

Definition protocol_error (m : bytes) : RESPValue := RError (bs "ERR Protocol error: " ++ m).

(** One turn of [handle_client]'s loop. *)
Definition client_turn (e : session_environment) (users : gmap bytes bytes) (h : Hub) (c : session) (p : Persistence)
  : prog (served (Hub * turn)) :=
  let here t := mret (p, [], (h, t)) in
  match buffered_protocol_error c with
  | Some m => here (say_last (with_protocol_error None c) (protocol_error m))
  | None =>
    match read_command_with_timeouts CLIENT_RESP_LIMITS true (s_reader c) with
    | (r, Ok (Some (name :: rest))) => client_command e users h (with_reader r c) (to_uppercase name :: rest) p
    | (r, Ok (Some [])) => here (mkTurn (with_reader r c) [] false ServesOn)
    | (r, Ok None) => here (mkTurn (with_reader r c) [] true HangsUp)
    | (r, Err (Failed error)) =>
      match kind error with
      | InvalidData | UnexpectedEof | TimedOut => here (say_last (with_reader r c) (protocol_error (message error)))
      | OtherKind => here (mkTurn (with_reader r c) [] true HangsUp)
      end
    | (r, Err _) => here (mkTurn (with_reader r c) [] true HangsUp)
    end
  end.

(** The loop of [handle_client], with what each of its turns meets: the responses
    of the connection and why the loop is over, [ServesOn] when no turn is left. *)
Fixpoint handle_client (es : list session_environment) (users : gmap bytes bytes) (h : Hub) (c : session) (p : Persistence)
  : prog (served (Hub * session * list RESPValue * after)) :=
  match es with
  | [] => mret (p, [], (h, c, [], ServesOn))
  | e :: es =>
    '(p, tasks, (h, t)) ← client_turn e users h c p;
    match t_after t with
    | ServesOn =>
      '(p, more, (h, c, out, a)) ← handle_client es users h (t_session t) p;
      mret (p, tasks ++ more, (h, c, t_responses t ++ out, a))
    | a => mret (p, tasks, (h, t_session t, t_responses t, a))
    end
  end.

End Session.

(** * What a RESP connection may do

    The transaction queue stays within its limits; before authentication a
    connection changes nothing and is told so; every turn answers and leaves the
    store in agreement with the stored history. *)

From S2P Require Import ShardSpec EngineSpec EngineMulti EngineActs CodecSpec ManagedBinlog HistorySpec ManagedSpec EntryEq StoreSpec ModelSpec CommitSpec ExecutionSpec ServerSpec CoordinatorSpec CoordinatorGroups.

(** ** The queue *)

(** The bytes a queued command is charged. *)
Definition charge (command : list bytes) : Z := 16 + foldr (fun a n => len a + 16 + n) 0 command.

Record queue_ok (q : TransactionQueue) : Prop := {
  qo_count : len (queued q) <= MAX_TRANSACTION_COMMANDS;
  qo_bytes : encoded_bytes q <= MAX_TRANSACTION_BYTES;
  qo_charge : encoded_bytes q = foldr (fun c n => charge c + n) 0 (queued q)
}.

Lemma fold_charge_None l :
  fold_left (fun total (a : bytes) => t ← total; checked_add t (sat_add (len a) 16)) l (@None Z) = None.
Proof. by induction l. Qed.

Lemma fold_charge l acc n :
  0 < acc -> fold_left (fun total (a : bytes) => t ← total; checked_add t (sat_add (len a) 16)) l (Some acc) = Some n ->
  n = acc + foldr (fun a n => len a + 16 + n) 0 l.
Proof.
  revert acc. induction l as [|a l IH]; intros acc Hacc Hf; cbn [fold_left foldr] in *; [injection Hf as <-; lia|].
  cbn [mbind option_bind] in Hf.
  destruct (checked_add acc (sat_add (len a) 16)) as [z|] eqn:E; [|by rewrite fold_charge_None in Hf].
  apply checked_add_Some in E as [-> Hz]. unfold sat_add, USIZE_MAX in *. pose proof (len_nonneg a).
  apply IH in Hf; lia.
Qed.

Lemma command_bytes_charge command n : command_bytes command = Some n -> n = charge command.
Proof. by apply fold_charge. Qed.

Lemma foldr_snoc_charge l c :
  foldr (fun c n => charge c + n) 0 (l ++ [c]) = foldr (fun c n => charge c + n) 0 l + charge c.
Proof. induction l as [|x l IH]; cbn [app foldr]; lia. Qed.

Lemma queue_new_ok : queue_ok queue_new.
Proof. by constructor. Qed.

Lemma enqueue_ok command q q' r :
  queue_ok q -> enqueue command q = (q', r) ->
  queue_ok q' /\
  match r with
  | Ok _ => queue_failed q = false /\ queue_failed q' = false /\ queued q' = queued q ++ [command]
  | Err _ => queue_failed q' = true /\ queued q' = queued q
  end.
Proof.
  intros [H1 H2 H3]. unfold enqueue. destruct (queue_failed q) eqn:Ef; [by intros [= <- <-]|].
  destruct (Z.leb_spec MAX_TRANSACTION_COMMANDS (len (queued q))) as [Hle|Hlt]; [by intros [= <- <-]|].
  destruct (command_bytes command) as [n|] eqn:En; cbn [mbind option_bind]; [|by intros [= <- <-]].
  apply command_bytes_charge in En. destruct (checked_add (encoded_bytes q) n) as [z|] eqn:Ez; [|by intros [= <- <-]].
  apply checked_add_Some in Ez as [-> _].
  destruct (Z.ltb_spec MAX_TRANSACTION_BYTES (encoded_bytes q + n)) as [Hl|Hb]; [by intros [= <- <-]|].
  intros [= <- <-]. split; [|done]. constructor; cbn [queued encoded_bytes]; [|done|].
  - rewrite len_app. change (len [command]) with 1. unfold MAX_TRANSACTION_COMMANDS in *. lia.
  - rewrite foldr_snoc_charge. lia.
Qed.

(** The commands that a queue takes. *)
Definition total_charge (l : list (list bytes)) : Z := foldr (fun c n => charge c + n) 0 l.
Definition within (l : list (list bytes)) : Prop :=
  len l <= MAX_TRANSACTION_COMMANDS /\ total_charge l <= MAX_TRANSACTION_BYTES.

#[global] Instance within_decision l : Decision (within l).
Proof. unfold within. apply _. Defined.

Lemma charge_pos c : 0 < charge c.
Proof.
  unfold charge. enough (0 <= foldr (fun (a : bytes) n => len a + 16 + n) 0 c) by lia.
  induction c as [|a c IH]; cbn [foldr]; [lia|]. pose proof (len_nonneg a). lia.
Qed.

Lemma total_charge_app l l' : total_charge (l ++ l') = total_charge l + total_charge l'.
Proof. unfold total_charge. induction l as [|c l IH]; cbn [app foldr]; lia. Qed.

Lemma total_charge_nonneg l : 0 <= total_charge l.
Proof. unfold total_charge. induction l as [|c l IH]; cbn [foldr]; [lia|]. pose proof (charge_pos c). lia. Qed.

Lemma within_app l l' : within (l ++ l') -> within l.
Proof.
  unfold within. rewrite len_app, total_charge_app. pose proof (total_charge_nonneg l'). pose proof (len_nonneg l'). lia.
Qed.

Lemma fold_charge_overflow l acc :
  0 < acc -> fold_left (fun total (a : bytes) => t ← total; checked_add t (sat_add (len a) 16)) l (Some acc) = None ->
  U64_MAX < acc + foldr (fun a n => len a + 16 + n) 0 l.
Proof.
  revert acc. induction l as [|a l IH]; intros acc Hacc Hf; cbn [fold_left foldr] in *; [done|].
  pose proof (len_nonneg a). assert (Hrest : 0 <= foldr (fun (a : bytes) n => len a + 16 + n) 0 l).
  { clear. induction l as [|a l IH]; cbn [foldr]; [lia|]. pose proof (len_nonneg a). lia. }
  cbn [mbind option_bind] in Hf. unfold checked_add in Hf.
  destruct (Z.leb_spec (acc + sat_add (len a) 16) U64_MAX) as [Hle|Hgt]; unfold sat_add, USIZE_MAX in *; [|lia].
  apply IH in Hf; lia.
Qed.

Lemma enqueue_within command q q' r :
  queue_ok q -> queue_failed q = false -> enqueue command q = (q', r) ->
  queue_failed q' = false <-> within (queued q ++ [command]).
Proof.
  intros [H1 H2 H3] Hf E. fold (total_charge (queued q)) in H3. unfold within.
  rewrite len_app, total_charge_app. change (len [command]) with 1.
  change (total_charge [command]) with (charge command + 0).
  assert (Hbig : MAX_TRANSACTION_BYTES <= U64_MAX) by done. pose proof (total_charge_nonneg (queued q)) as Hnn.
  revert E. unfold enqueue. rewrite Hf.
  destruct (Z.leb_spec MAX_TRANSACTION_COMMANDS (len (queued q))) as [Hle|Hlt]; [intros [= <- <-]; split; [done|lia]|].
  destruct (command_bytes command) as [n|] eqn:En; cbn [mbind option_bind].
  2: { intros [= <- <-]. apply fold_charge_overflow in En; [|done]. split; [done|]. intros [_ ?]. unfold charge in *. lia. }
  apply command_bytes_charge in En as ->. unfold checked_add.
  destruct (Z.leb_spec (encoded_bytes q + charge command) U64_MAX); [|intros [= <- <-]; split; [done|lia]].
  destruct (Z.ltb_spec MAX_TRANSACTION_BYTES (encoded_bytes q + charge command)); intros [= <- <-]; split; try done; lia.
Qed.

(** ** Pipelining *)

Lemma gather_pipeline_writes n r r' commands barrier error :
  gather_pipeline n r = (r', commands, barrier, error) ->
  (length commands <= n)%nat /\ Forall (fun args => is_write_command (arg_or_empty args 0) = true) commands.
Proof.
  revert r r' commands barrier error. induction n as [|n IH]; intros r r' commands barrier error; cbn [gather_pipeline]; [by intros [= _ <- _ _]|].
  destruct (decode_buffered_command (buffered r) CLIENT_RESP_LIMITS) as [[[[|name rest] consumed]|]|e];
    [intros [= _ <- _ _]; split; [simpl; lia|done]|..|intros [= _ <- _ _]; split; [simpl; lia|done]
    |intros [= _ <- _ _]; split; [simpl; lia|done]].
  destruct (is_write_command (to_uppercase name)) eqn:Ew; cbn [negb]; [|intros [= _ <- _ _]; split; [simpl; lia|done]].
  destruct (gather_pipeline n (consume consumed r)) as [[[r2 l] b2] e2] eqn:E. intros [= _ <- _ _].
  apply IH in E as [H1 H2]. split; [simpl; lia|]. by constructor.
Qed.

(** ** Before authentication *)

Definition is_error (v : RESPValue) : Prop := match v with RError _ => True | _ => False end.

(** The credentials a command presents. *)
Definition presents (users : gmap bytes bytes) (args : list bytes) : Prop :=
  eq_ignore_ascii_case (arg_or_empty args 0) (bs "AUTH") = true /\ auth_required users = true /\
  check_credentials users (auth_arguments args).1 (auth_arguments args).2 = true.

Section SessionSpec.
Context {CRC : Crc32} {GZ : Gzip} {JN : JsonNumber} {SJ : SerdeJson} {HO : HashOrder} {FT : FloatText}.

(** What a connection that is not authenticated gets from a turn. *)
Record shut_out (users : gmap bytes bytes) (c : session) (t : turn) : Prop := {
  so_after : t_after t = ServesOn \/ t_after t = HangsUp;
  so_errors : s_authenticated (t_session t) = false -> Forall is_error (t_responses t);
  so_transaction : s_transaction (t_session t) = s_transaction c;
  so_presented : s_authenticated (t_session t) = true -> exists r name rest,
    read_command_with_timeouts CLIENT_RESP_LIMITS true (s_reader c) = (r, Ok (Some (name :: rest))) /\
    presents users (to_uppercase name :: rest)
}.

Lemma authenticate_spec users c args :
  s_authenticated c = false ->
  let t := authenticate users c args in
  t_after t = ServesOn /\ s_transaction (t_session t) = s_transaction c /\
  (s_authenticated (t_session t) = false -> Forall is_error (t_responses t)) /\
  (s_authenticated (t_session t) = true -> auth_required users = true /\
     check_credentials users (auth_arguments args).1 (auth_arguments args).2 = true).
Proof.
  intros Hc. unfold authenticate. destruct (auth_arguments args) as [u pw]. cbn [fst snd].
  destruct (auth_required users); cbn [negb]; [destruct (check_credentials users u pw)|];
    cbn; rewrite ?Hc; split_and!; try done; by repeat constructor.
Qed.

Lemma turn_shut_out e users h c (p : Persistence) st :
  s_authenticated c = false ->
  exists t, client_turn e users h c p st = Some (st, (p, [], (h, t))) /\ shut_out users c t.
Proof.
  intros Hc. unfold client_turn. destruct (buffered_protocol_error c) as [m|].
  { eexists. split; [done|]. constructor; cbn; [by right|by repeat constructor|done|by rewrite Hc]. }
  destruct (read_command_with_timeouts CLIENT_RESP_LIMITS true (s_reader c)) as [r x] eqn:E.
  destruct x as [[[|name rest]|]|[error| |]].
  - eexists. split; [done|]. constructor; cbn; [by left|by repeat constructor|done|by rewrite Hc].
  - unfold client_command. destruct (eq_ignore_ascii_case _ (bs "AUTH")) eqn:Ea.
    + eexists. split; [done|]. pose proof (authenticate_spec users (with_reader r c) (to_uppercase name :: rest) Hc) as H.
      cbv zeta in H. destruct H as (H1 & H2 & H3 & H4).
      constructor; [by left|done|done|]. intros Ht. exists r, name, rest. split; [done|]. by split; [|apply H4].
    + change (s_authenticated (with_reader r c)) with (s_authenticated c). rewrite Hc. cbn [negb].
      eexists. split; [done|]. constructor; cbn; [by left|by repeat constructor|done|by rewrite Hc].
  - eexists. split; [done|]. constructor; cbn; [by right|by repeat constructor|done|by rewrite Hc].
  - destruct (kind error); (eexists; split; [done|]; constructor; cbn; [by right|by repeat constructor|done|by rewrite Hc]).
  - eexists. split; [done|]. constructor; cbn; [by right|by repeat constructor|done|by rewrite Hc].
  - eexists. split; [done|]. constructor; cbn; [by right|by repeat constructor|done|by rewrite Hc].
Qed.

(** A connection without credentials: everything is as it was, and all it gets
    are errors, until the turn that presents credentials. *)
Definition presented (users : gmap bytes bytes) (c : session) : Prop :=
  exists r name rest, read_command_with_timeouts CLIENT_RESP_LIMITS true (s_reader c) = (r, Ok (Some (name :: rest))) /\
    presents users (to_uppercase name :: rest).

Lemma client_shut_out es users h c (p : Persistence) st :
  s_authenticated c = false ->
  exists k c' out a,
    handle_client (take k es) users h c p st = Some (st, (p, [], (h, c', out, a))) /\
    s_authenticated c' = false /\ Forall is_error out /\
    (handle_client es users h c p st = Some (st, (p, [], (h, c', out, a))) /\ (a = ServesOn \/ a = HangsUp)
     \/ a = ServesOn /\ (k < length es)%nat /\ presented users c').
Proof.
  revert c. induction es as [|e es IH]; intros c Hc.
  { exists 0%nat, c, [], ServesOn. split_and!; try done. left. split; [done|by left]. }
  destruct (turn_shut_out e users h c p st Hc) as (t & E & [Ha He Ht Hp]).
  destruct (s_authenticated (t_session t)) eqn:Es.
  { exists 0%nat, c, [], ServesOn. split_and!; try done. right. split_and!; [done|simpl; lia|]. exact (Hp eq_refl). }
  destruct Ha as [Ha|Ha].
  - destruct (IH (t_session t) Es) as (k & c' & out & a & Ek & Hc' & Ho & Hor). exists (S k), c', (t_responses t ++ out), a.
    cbn [take handle_client]. rewrite !(bind_run _ _ _ _ _ E), Ha, !(bind_run _ _ _ _ _ Ek). split_and!; try done.
    + apply list.Forall_app. split; [by apply He|done].
    + destruct Hor as [[Eall Ha']|(Ha' & Hk & Hpr)]; [left|right; split_and!; [done|simpl; lia|done]].
      by rewrite (bind_run _ _ _ _ _ Eall).
  - exists 1%nat, (t_session t), (t_responses t), HangsUp. cbn [take handle_client].
    rewrite !(bind_run _ _ _ _ _ E), Ha. split_and!; try done; [by apply He|]. left. split; [done|by right].
Qed.

(** ** Transactions *)

(** Commands that act on the transaction instead of being queued. *)
Definition controls (args : list bytes) : bool :=
  existsb (fun name => eq_ignore_ascii_case (arg_or_empty args 0) (bs name)) ["AUTH"; "MULTI"; "DISCARD"; "EXEC"]%string.

(** Commands of one connection, one after the other. *)
Fixpoint send_all (users : gmap bytes bytes) (h : Hub) (c : session) (commands : list (session_environment * list bytes))
    (p : Persistence) : prog (served (Hub * session * list RESPValue)) :=
  match commands with
  | [] => mret (p, [], (h, c, []))
  | (e, args) :: rest =>
    '(p, tasks, (h, t)) ← client_command e users h c args p;
    '(p, more, (h, c, out)) ← send_all users h (t_session t) rest p;
    mret (p, tasks ++ more, (h, c, t_responses t ++ out))
  end.

Lemma client_enqueues e users h c args q (p : Persistence) st :
  s_authenticated c = true -> s_transaction c = Some q -> controls args = false ->
  client_command e users h c args p st =
  Some (st, (p, [], (h, say (with_transaction (Some (enqueue args q).1) c)
    (match (enqueue args q).2 with Ok _ => SimpleString (bs "QUEUED") | Err m => RError m end)))).
Proof.
  intros Ha Hq Hc. unfold controls in Hc. cbn [existsb] in Hc.
  apply orb_false_iff in Hc as [H1 Hc]. apply orb_false_iff in Hc as [H2 Hc]. apply orb_false_iff in Hc as [H3 Hc].
  apply orb_false_iff in Hc as [H4 _].
  unfold client_command. rewrite H1, Ha, H2, H3, H4, Hq. cbn [negb]. by destruct (enqueue args q).
Qed.

Lemma send_queued users h c commands q (p : Persistence) st :
  s_authenticated c = true -> s_transaction c = Some q -> queue_ok q ->
  Forall (fun x : session_environment * list bytes => controls x.2 = false) commands ->
  exists q' out, send_all users h c commands p st = Some (st, (p, [], (h, with_transaction (Some q') c, out))) /\
    length out = length commands /\ queue_ok q' /\
    (queue_failed q = true -> queue_failed q' = true) /\
    (queue_failed q = false ->
     if decide (within (queued q ++ commands.*2))
     then queue_failed q' = false /\ queued q' = queued q ++ commands.*2 /\ Forall (fun v => v = SimpleString (bs "QUEUED")) out
     else queue_failed q' = true).
Proof.
  revert c q. induction commands as [|[e args] rest IH]; intros c q Ha Hq Hok Hall.
  { exists q, []. cbn [send_all fmap list_fmap]. rewrite app_nil_r. destruct c as [r a t pe]. cbn in Ha, Hq. subst.
    split_and!; try done. intros Hf. rewrite decide_True; [done|]. by destruct Hok as [H1 H2 H3]; split; [|unfold total_charge; rewrite <- H3]. }
  apply list.Forall_cons in Hall as [Hc Hall]. cbn [fst snd] in Hc. cbn [send_all fmap list_fmap snd].
  rewrite (bind_run _ _ _ _ _ (client_enqueues e users h c args q p st Ha Hq Hc)).
  destruct (enqueue args q) as [q1 r] eqn:E. cbn [fst snd say t_session t_responses].
  pose proof (enqueue_ok args q q1 r Hok E) as [Hok1 Hr].
  destruct (IH (with_transaction (Some q1) c) q1 Ha eq_refl Hok1 Hall) as (q' & out & Es & Hlen & Hok' & Hk & Hw).
  rewrite (bind_run _ _ _ _ _ Es). eexists q', _. split; [done|]. split; [cbn; by f_equal|]. split; [done|].
  destruct (queue_failed q) eqn:Ef.
  { split; [|done]. intros _. apply Hk. destruct r; [by destruct Hr|by destruct Hr]. }
  split; [done|]. intros _. pose proof (enqueue_within args q q1 r Hok Ef E) as Hwi.
  destruct r as [u|m]; destruct Hr as [Hr1 Hr2].
  - destruct Hr2 as [Hr2 Hr3]. specialize (Hw Hr2). rewrite Hr3, <- (assoc_L (++)) in Hw.
    change (args :: rest.*2) with ([args] ++ rest.*2). case_decide; [|done]. destruct Hw as (G1 & G2 & G3).
    split_and!; [done|done|by constructor].
  - rewrite decide_False; [by apply Hk|]. rewrite (cons_middle args). rewrite (assoc_L (++)). intros Hbad%within_app.
    apply Hwi in Hbad. congruence.
Qed.

(** ** Turns *)

Context (parsed_wf : forall s v, json_from_str s = Some v -> wf_value v).
Context (number_per : per number_eqb).
Context (T : Z).

(** The effects of a command can be written to the log, on the route it takes. *)
Record session_fits (e : session_environment) (c : session) (args : list bytes) (p : Persistence) (st : ShardedStore)
  : Prop := {
  sf_exec : forall q, s_transaction c = Some q -> commits_fit (command_surrounding e) (OpTransaction (queued q)) st;
  sf_pipeline : forall r more b err, gather_pipeline (MAX_PIPELINED_COMMIT_COMMANDS - 1) (s_reader c) = (r, more, b, err) ->
    commands_fit (command_surrounding e) (args :: more) p st;
  sf_command : commits_fit (command_surrounding e) (OpCommand args) st
}.

(** A turn of a connection: the store follows the history, and nothing changes
    for a client that is not authenticated or on a replica. *)
Definition turned {A} (lim : Z * EvictionPolicy) (F : list CommittedEffect) (p : Persistence) (st : ShardedStore)
    (m : prog (served A)) (quiet : Prop) (ok : A -> Prop) : Prop :=
  exists st' p' tasks a, m st = Some (st', (p', tasks, a)) /\ sound lim st' /\ moved T F p st' p' /\
    (quiet -> undisturbed T lim st p st' p') /\ ok a.

Lemma turned_still {A} lim F (p : Persistence) st (a : A) quiet (ok : A -> Prop) :
  sound lim st -> steady T (commit_runtime p) F -> matches T st F -> ok a ->
  turned lim F p st (mret (p, [], a)) quiet ok.
Proof.
  intros Hs Hst Hm Hok. eexists _, _, _, _. split; [done|]. split; [done|]. split; [|split; [|done]].
  - left. exists []. by apply grown_nothing.
  - intros _. by apply undisturbed_refl.
Qed.

Lemma turned_written {A B} lim F (p : Persistence) st (m : prog (served A)) (f : Persistence -> A -> B) (quiet : Prop)
    (ok : A -> Prop) (ok' : B -> Prop) :
  written T lim F p st m ok -> ~ quiet -> (forall p a, ok a -> ok' (f p a)) ->
  turned lim F p st ('(p, tasks, a) ← m; mret (p, tasks, f p a)) quiet ok'.
Proof.
  intros (st' & p' & tasks & a & E & S & H & Hok) Hq Hf. unfold turned. rewrite (bind_run _ _ _ _ _ E).
  eexists _, _, _, _. split; [done|]. split; [done|]. split; [done|]. split; [by intros ?|by apply Hf].
Qed.

Lemma turned_quiet {A B} lim F (p : Persistence) st (m : prog (served A)) (f : Persistence -> A -> B) (quiet : Prop)
    (ok : A -> Prop) (ok' : B -> Prop) :
  steady T (commit_runtime p) F -> matches T st F ->
  (exists st' p' tasks a, m st = Some (st', (p', tasks, a)) /\ undisturbed T lim st p st' p' /\ ok a) ->
  (forall p a, ok a -> ok' (f p a)) ->
  turned lim F p st ('(p, tasks, a) ← m; mret (p, tasks, f p a)) quiet ok'.
Proof.
  intros Hst Hm (st' & p' & tasks & a & E & U & Hok) Hf. unfold turned. rewrite (bind_run _ _ _ _ _ E).
  eexists _, _, _, _. split; [done|]. split; [apply U|]. split; [left; exists []; by eapply undisturbed_grown|].
  split; [done|by apply Hf].
Qed.

Lemma turned_map {A B} lim F (p : Persistence) st (m : prog (served A)) (f : A -> B) (quiet : Prop) (ok : A -> Prop)
    (ok' : B -> Prop) :
  turned lim F p st m quiet ok -> (forall a, ok a -> ok' (f a)) ->
  turned lim F p st ('(p, tasks, a) ← m; mret (p, tasks, f a)) quiet ok'.
Proof.
  intros (st' & p' & tasks & a & E & S & H & U & Hok) Hf. unfold turned. rewrite (bind_run _ _ _ _ _ E).
  eexists _, _, _, _. split; [done|]. split; [done|]. split; [done|]. split; [done|by apply Hf].
Qed.

(** ** Commands *)

Definition session_ok (c : session) : Prop := forall q, s_transaction c = Some q -> queue_ok q.

(** The command is answered, unless another part of the server takes the
    connection over, and the queue is within its limits. *)
Definition answered (t : turn) : Prop :=
  session_ok (t_session t) /\ (t_after t = ServesOn \/ t_after t = HangsUp -> t_responses t <> []).

Lemma say_answered c v : session_ok c -> answered (say c v).
Proof. by split. Qed.

Lemma authenticate_answered users c args : session_ok c -> answered (authenticate users c args).
Proof.
  intros Hc. unfold authenticate. destruct (auth_arguments args) as [u pw].
  destruct (negb (auth_required users)); [by apply say_answered|].
  destruct (check_credentials users u pw); by apply say_answered.
Qed.

Lemma pipelined_spec lim e c args (p : Persistence) F st :
  world_before (readings (command_surrounding e)) T -> sound lim st -> 0 <= lim.1 -> steady T (commit_runtime p) F ->
  matches T st F -> session_fits e c args p st -> session_ok c ->
  turned lim F p st (pipelined_writes e c args p) False answered.
Proof.
  intros Hw Hs Hl Hst Hm Hfit Hc. unfold pipelined_writes.
  destruct (gather_pipeline _ (s_reader c)) as [[[r more] barrier] error] eqn:Eg.
  apply (turned_written lim F p st (execute_ordered_commands (command_surrounding e) (args :: more) p)
    (fun _ outcomes => mkTurn (with_protocol_error error (with_reader r c)) (map response outcomes) (negb barrier)
                         (if peer_reads e then ServesOn else HangsUp)) False
    (fun l => length l = length (args :: more))).
  - apply (ordered_commands_spec parsed_wf number_per); try done. by eapply sf_pipeline.
  - by intros [].
  - intros _ l Hlen. split; [exact Hc|]. intros _. cbn. by destruct l.
Qed.

Lemma plain_spec lim e c args (p : Persistence) F st :
  world_before (readings (command_surrounding e)) T -> sound lim st -> 0 <= lim.1 -> steady T (commit_runtime p) F ->
  matches T st F -> session_fits e c args p st -> session_ok c ->
  is_replica p && is_replicaof_no_one args = false -> (is_replica p = false -> is_write_command (arg_or_empty args 0) = false) ->
  turned lim F p st (plain_command e c args p) True answered.
Proof.
  intros Hw Hs Hl Hst Hm Hfit Hc Hpromo Hread. unfold plain_command.
  destruct (bytes_eqb (arg_or_empty args 0) (bs "SAVE")).
  { apply turned_still; try done. split; [exact Hc|]. cbn. by intros [?|?]. }
  destruct (is_replica p && is_write_command (arg_or_empty args 0)) eqn:Erw; [by apply turned_still|].
  rewrite Hpromo.
  assert (Hr : is_write_command (arg_or_empty args 0) = false).
  { destruct (is_replica p); [done|by apply Hread]. }
  eapply (turned_quiet lim F p st _ (fun p o => mkTurn c _ _ ServesOn) True (fun _ => True)); [done|done| |].
  - destruct (ordered_read parsed_wf T lim (command_surrounding e) args p st) as (st' & p' & tasks & o & E & U); try done.
    by exists st', p', tasks, o.
  - intros ? o _. by split.
Qed.

(** The commands of a transaction. *)
Lemma exec_spec lim e (h : Hub) c args q (p : Persistence) F st :
  world_before (readings (command_surrounding e)) T -> sound lim st -> 0 <= lim.1 -> steady T (commit_runtime p) F ->
  matches T st F -> session_fits e c args p st -> session_ok c -> s_transaction c = Some q ->
  turned lim F p st
    ('(p, tasks, v) ← execute_transaction (command_surrounding e) (queued q) (is_replica p) p;
     mret (p, tasks, (h, say (with_transaction None c) v))) (is_replica p = true) (fun ht : Hub * turn => answered ht.2).
Proof.
  intros Hw Hs Hl Hst Hm Hfit Hc Hq.
  assert (Hans : forall v, answered (say (with_transaction None c) v)) by (intros v; apply say_answered; intros q'; done).
  destruct (is_replica p) eqn:Er.
  - apply (turned_quiet lim F p st (execute_transaction (command_surrounding e) (queued q) true p)
      (fun _ v => (h, say (with_transaction None c) v)) (true = true) (fun _ => True)); [done|done| |by intros].
    destruct (transaction_reads parsed_wf T lim (command_surrounding e) (queued q) true p st Hw Hs (or_introl eq_refl))
      as (st' & p' & tasks & l & E & _ & U). by exists st', p', tasks, (Array l).
  - apply (turned_written lim F p st (execute_transaction (command_surrounding e) (queued q) false p)
      (fun _ v => (h, say (with_transaction None c) v)) (false = true) (fun _ => True)); [|done|by intros].
    apply (transaction_spec parsed_wf number_per); try done. by eapply sf_exec.
Qed.

Lemma client_command_spec lim e users h c args (p : Persistence) F st :
  world_before (readings (command_surrounding e)) T -> sound lim st -> 0 <= lim.1 -> steady T (commit_runtime p) F ->
  matches T st F -> session_fits e c args p st -> session_ok c -> is_replica p && is_replicaof_no_one args = false ->
  turned lim F p st (client_command e users h c args p) (s_authenticated c = false \/ is_replica p = true)
    (fun ht : Hub * turn => answered ht.2).
Proof.
  intros Hw Hs Hl Hst Hm Hfit Hc Hpromo.
  assert (Hhere : forall t (h' : Hub), answered t ->
    turned lim F p st (mret (p, [], (h', t))) (s_authenticated c = false \/ is_replica p = true) (fun ht : Hub * turn => answered ht.2)).
  { intros t h' Ht. by apply turned_still. }
  unfold client_command. destruct (eq_ignore_ascii_case _ (bs "AUTH")).
  { apply Hhere. by apply authenticate_answered. }
  destruct (s_authenticated c) eqn:Ea; cbn [negb]; [|by apply Hhere].
  destruct (eq_ignore_ascii_case _ (bs "MULTI")).
  { apply Hhere. destruct (s_transaction c); [done|]. apply say_answered. intros q [= <-]. apply queue_new_ok. }
  destruct (eq_ignore_ascii_case _ (bs "DISCARD")).
  { apply Hhere. destruct (s_transaction c); [|done]. apply say_answered. by intros q. }
  destruct (eq_ignore_ascii_case _ (bs "EXEC")).
  { destruct (s_transaction c) as [q|] eqn:Eq; [|by apply Hhere].
    destruct (queue_failed q); [apply Hhere, say_answered; by intros q'|].
    destruct (exec_spec lim e h c args q p F st) as (st' & p' & t & a & E & S & H & U & Ha); try done.
    exists st', p', t, a. split; [done|]. split; [done|]. split; [done|]. split; [|done]. intros [?|?]; [done|by apply U]. }
  destruct (s_transaction c) as [q|] eqn:Eq.
  { destruct (enqueue args q) as [q' r] eqn:Een. apply Hhere, say_answered. intros q2 [= <-].
    by destruct (enqueue_ok args q q' r (Hc q Eq) Een). }
  destruct (bytes_eqb _ (bs "PUBLISH")); [by apply Hhere|].
  destruct (bytes_eqb _ (bs "SUBSCRIBE")); [apply Hhere; split; [done|by intros [?|?]]|].
  destruct (bytes_eqb _ (bs "SYNC")); [by apply Hhere|].
  destruct (bytes_eqb _ (bs "SYNC3")); [apply Hhere; split; [done|by intros [?|?]]|].
  destruct (negb (is_replica p) && is_write_command (arg_or_empty args 0)) eqn:Em.
  - apply andb_true_iff in Em as [Er%negb_true_iff _].
    destruct (pipelined_spec lim e c args p F st) as (st' & p' & t & a & E & S & H & _ & Ha); try done.
    unfold turned. rewrite (bind_run _ _ _ _ _ E). eexists _, _, _, _. split; [done|]. split; [done|]. split; [done|].
    split; [intros [?|?]; congruence|done].
  - destruct (plain_spec lim e c args p F st) as (st' & p' & t & a & E & S & H & U & Ha); try done.
    { intros Hr. by rewrite Hr in Em. }
    unfold turned. rewrite (bind_run _ _ _ _ _ E). eexists _, _, _, _. split; [done|]. split; [done|]. split; [done|].
    split; [intros _; by apply U|done].
Qed.

End SessionSpec.
