(* ===== verification/Demo.v ===== *)
(** * Demo: concrete instances and states to evaluate theorems on *)

From Stdlib Require Import ZArith Lia.
From Stdlib Require Import Strings.Byte.
From stdpp Require Import base gmap list strings numbers.
From S2P Require Import Prelude Text Json JsonPath Value Shard Engine EngineSpec EngineActs Store Persistence Model EntryEq StoreSpec Resp Execution Admission ServerInfo Coordinator CoordinatorSpec.

Open Scope Z_scope.

#[export] Existing Instance demo_numbers.
#[export] Existing Instance demo_json.
#[export] Existing Instance demo_floats.
#[export] Existing Instance canonical_order.

Lemma demo_parsed_wf (s : bytes) (v : Value) : json_from_str s = Some v -> wf_value v.
Proof.
  cbn [json_from_str demo_json]. unfold demo_from_str.
  repeat (destruct (bytes_eqb s _); [intros [= <-]; constructor|]).
  destruct (parse_i64 s); [|done]. intros [= <-]. constructor.
Qed.

(** A clock that stands still at 100. *)
Definition still : clock := fun _ => 100.
Definition still_world : world := mkWorld (fun _ => still) (fun _ _ => 0) (fun _ => mkCounters 0 false 0 0 0 0).

Lemma still_before : clock_before still 100.
Proof. intros n. unfold still. lia. Qed.

Lemma still_world_before : world_before still_world 100.
Proof. intros p. apply still_before. Qed.

Lemma store_new_good (limit : Z) (policy : EvictionPolicy) :
  good_store (store_with_maxmemory limit policy).
Proof.
  constructor; [apply engine_wf_ok, engine_new_wf|]. intros k.
  change (dataset (engine (store_with_maxmemory limit policy))) with (dataset engine_new).
  by rewrite dataset_engine_new, lookup_empty.
Qed.

Lemma store_new_sound (limit : Z) (policy : EvictionPolicy) :
  sound (limit, policy) (store_with_maxmemory limit policy).
Proof. constructor; [apply store_new_good|done|done]. Qed.

(** * Concrete checksums, files and runtimes to run persistence on *)

From stdpp Require Import base gmap list strings numbers sorting.
From S2P Require Import Codec CodecSpec BinlogFile BinlogIo AppendSpec Recovery ManagedBinlog SnapshotWriter ReplicaState Runtime Compaction HistorySpec ManagedSpec SealSpec ModelSpec SnapshotSpec RecoverySpec InstallSpec CommitSpec MaintenanceSpec Durability SyncSpec RuntimeSpec Server ServerSpec.

(** CRC-32 with the reflected polynomial 0xEDB88320, bit by bit. *)
Fixpoint crc_bits (n : nat) (c : Z) : Z :=
  match n with
  | O => c
  | S n => crc_bits n (if Z.odd c then Z.lxor (Z.shiftr c 1) 0xEDB88320 else Z.shiftr c 1)
  end.

Definition crc_step (c : Z) (b : byte) : Z := crc_bits 8 (Z.lxor c (byte_Z b)).

Definition demo_crc32 (b : bytes) : Z := Z.land (Z.lxor (fold_left crc_step b U32_MAX) U32_MAX) (Z.ones 32).

#[export] Instance demo_crc : Crc32.
Proof.
  refine {| crc32 := demo_crc32 |}. intros b. unfold demo_crc32. rewrite Z.land_ones by lia.
  change U32_MAX with (2 ^ 32 - 1).
  match goal with |- 0 <= ?x mod _ <= _ => pose proof (Z.mod_pos_bound x (2 ^ 32) ltac:(lia)) end. lia.
Defined.

(** The check value of the algorithm. *)
Example crc_check : crc32 (bs "123456789") = 0xCBF43926.
Proof. vm_compute. reflexivity. Qed.

(** A compressor that stores its input. *)
#[export] Instance demo_gzip : Gzip := {| gzip b := b; gunzip b := (b, None); gunzip_gzip b := eq_refl |}.

(** ** Three batches *)

Definition put (k v : bytes) : CommittedBatch := mkBatch demo_numbers [Put k (mkPersistent demo_numbers (Blob v) None)].
Definition batch1 : CommittedBatch := put (bs "a") (bs "1").
Definition batch2 : CommittedBatch := put (bs "b") (bs "2").
Definition batch3 : CommittedBatch := put (bs "a") (bs "3").

Definition payload (b : CommittedBatch) : bytes :=
  match encode_committed_batch b with Ok p => p | Err _ => [] end.

Definition log1 : list (Z * bytes) := [(1, payload batch1)].
Definition log2 : list (Z * bytes) := [(2, payload batch2)].
Definition log3 : list (Z * bytes) := [(3, payload batch3)].

Definition io_failure : io_error := mkIoError false (bs "No space left on device (os error 28)").

(** One sealed generation with the first batch and an empty active file. *)
Definition sealed_files : Files := {[ binlog_path := []; binlog_segment 1 := log log1 ]}.
Definition sealed_runtime (next : list ManagedBinlog.outcome) : CommitRuntime :=
  set_segments 1 1 (CommitRuntime_new (mkManaged sealed_files (Some 0) [] next) 1).

Lemma encoded b : In b [batch1; batch2; batch3] ->
  encode_committed_batch b = Ok (payload b) /\ Forall effect_ok (effects b) /\ 20 + len (payload b) <= MAX_BINLOG_RECORD_SIZE.
Proof.
  intros H. repeat (destruct H as [<-|H]); [..|done];
    (split; [vm_compute; reflexivity|]; split; [repeat constructor|vm_compute; discriminate]).
Qed.

Lemma encodes_one n b : In b [batch1; batch2; batch3] -> 0 < n <= U64_MAX -> encodes n [b] [(n, payload b)].
Proof.
  intros Hb Hn. destruct (encoded b Hb) as (He & Hok & Hl). by constructor; [| | | |constructor].
Qed.

(** A snapshot of the first two batches, their sealed generations, the third
    batch in the active file and a fourth record cut short. *)
Definition demo_entry (v : bytes) : DataEntry := mkEntry demo_numbers (Blob v) None 100 100.
Definition entries2 : list (bytes * DataEntry) := [(bs "a", demo_entry (bs "1")); (bs "b", demo_entry (bs "2"))].
Definition snapshot2 : bytes :=
  match snapshot_records entries2 with Ok records => gzip (snapshot_header 2 ++ records) | Err _ => [] end.
Definition tail4 : bytes := take 9 (frame (4, payload batch1)).

Definition covered_files (active : bytes) : Files :=
  {[ binlog_path := active; binlog_segment 1 := log log1; binlog_segment 2 := log log2; snapshot_path := snapshot2 ]}.
Definition chunks2 : list chunk := [mkChunk 1 [batch1] log1; mkChunk 2 [batch2] log2].

Lemma covered_lookup active name b :
  covered_files active !! name = Some b ->
  name = binlog_path /\ b = active \/ name = binlog_segment 1 /\ b = log log1 \/
  name = binlog_segment 2 /\ b = log log2 \/ name = snapshot_path /\ b = snapshot2.
Proof.
  unfold covered_files. intros H. repeat (apply lookup_insert_Some in H as [[<- <-]|[_ H]]; [tauto|]).
  apply lookup_singleton_Some in H as [<- <-]. tauto.
Qed.

Lemma snapshot2_of : snapshot_of 2 entries2 snapshot2.
Proof.
  split; [unfold U64_MAX; lia|]. split; [|split].
  - by_decision.
  - repeat constructor.
  - destruct (snapshot_records entries2) as [records|e] eqn:E; [|vm_compute in E; discriminate E].
    exists records. split; [done|]. unfold snapshot2. by rewrite E.
Qed.

Lemma covered_directory :
  directory (covered_files (log log3 ++ tail4)) 2 entries2 1 chunks2 3 [batch3] log3 tail4.
Proof.
  constructor; [| |unfold U64_MAX; lia|apply snapshot2_of|done]; [|lia].
  constructor.
  - lia.
  - apply (chain_cons (mkChunk 1 [batch1] log1)); [apply encodes_one; [by left|unfold U64_MAX; cbn; lia]|done|].
    apply (chain_cons (mkChunk 2 [batch2] log2)); [apply encodes_one; [by right; left|unfold U64_MAX; cbn; lia]|done|].
    constructor.
  - apply encodes_one; [by right; right; left|unfold U64_MAX; lia].
  - right. exists (4, payload batch1). split; [vm_compute; repeat split; discriminate|].
    exists (drop 9 (frame (4, payload batch1))). split; [vm_compute; discriminate|]. symmetry. apply take_drop.
  - left. reflexivity.
  - intros c Hin. repeat (apply elem_of_cons in Hin as [->|Hin]; [reflexivity|]). by apply not_elem_of_nil in Hin.
  - intros name [b Hb]. apply covered_lookup in Hb as [[-> _]|[[-> _]|[[-> _]|[-> _]]]].
    + left. reflexivity.
    + right. exists (mkChunk 1 [batch1] log1). split; [by left|reflexivity].
    + right. exists (mkChunk 2 [batch2] log2). split; [by right; left|reflexivity].
    + left. reflexivity.
  - vm_compute. discriminate.
Qed.

Lemma active_only_directory : directory {[ binlog_path := [] ]} 0 [] 1 [] 1 [] [] [].
Proof.
  constructor; [| |unfold U64_MAX; lia|done|done]; [|lia].
  constructor; [lia|constructor|constructor|by left|by left|intros c Hin; by apply not_elem_of_nil in Hin| |done].
  intros name [b Hb]. apply lookup_singleton_Some in Hb as [<- _]. by left.
Qed.

Lemma sealed_stored next : stored_as 100 (sealed_runtime next) (batch_effects [batch1]) 0 [] 1 [mkChunk 1 [batch1] log1] 2 [] [].
Proof.
  unfold stored_as. split_and!; try done; try (cbn; lia).
  constructor; [| |unfold U64_MAX; lia|done|done]; [|lia]. constructor.
  - lia.
  - apply (chain_cons (mkChunk 1 [batch1] log1)); [apply encodes_one; [by left|unfold U64_MAX; cbn; lia]|done|constructor].
  - constructor.
  - by left.
  - by left.
  - intros c Hin. repeat (apply elem_of_cons in Hin as [->|Hin]; [reflexivity|]). by apply not_elem_of_nil in Hin.
  - intros name [b Hb]. cbn in Hb. unfold sealed_files in Hb.
    apply lookup_insert_Some in Hb as [[<- <-]|[_ Hb]]; [by left|]. apply lookup_singleton_Some in Hb as [<- _].
    right. exists (mkChunk 1 [batch1] log1). split; [by left|reflexivity].
  - vm_compute. discriminate.
Qed.

Lemma demo_batches_ok n b : In b [batch1; batch2; batch3] -> batches_ok [(n, b)].
Proof. intros H. constructor; [|constructor]. apply (encoded b H). Qed.

(** The first batch in the active file, and nothing else. *)
Definition active_runtime (next : list ManagedBinlog.outcome) : CommitRuntime :=
  set_bytes 0 BINLOG_GENERATION_ADMISSION_LIMIT_BYTES
    (CommitRuntime_new (mkManaged {[ binlog_path := log log1 ]} (Some 0) (log log1) next) 1).

Lemma active_stored next : stored_as 100 (active_runtime next) (batch_effects [batch1]) 0 [] 1 [] 1 [batch1] log1.
Proof.
  unfold stored_as. split_and!; try done; try (cbn; lia).
  constructor; [| |unfold U64_MAX; lia|done|done]; [|lia]. constructor.
  - lia.
  - constructor.
  - apply encodes_one; [by left|unfold U64_MAX; lia].
  - by left.
  - left. cbn [rt_binlog active_runtime]. by rewrite app_nil_r.
  - intros c Hin. by apply not_elem_of_nil in Hin.
  - intros name [b Hb]. cbn in Hb. apply lookup_singleton_Some in Hb as [<- _]. by left.
  - vm_compute. discriminate.
Qed.

Lemma active_system_ok next :
  system_ok 100 1 (batch_effects [batch1]) (Running (active_runtime next) [] RotationFree SnapshotIdle).
Proof.
  exists 0. split; [|done]. exists [], 1, [], 1, [batch1], log1. split_and!; try done.
  - exact (active_stored next).
  - intros q H1 H2. unfold after. rewrite !drop_ge; [done|cbn; lia|cbn; lia].
Qed.

Lemma active_typed next : typed_system (Running (active_runtime next) [] RotationFree SnapshotIdle).
Proof.
  split; [|done]. constructor; cbn; unfold u64, U64_MAX, WRITE_BUDGET_OPEN; try lia; try done.
Qed.

(** ** A server that has committed nothing *)

Definition fresh_runtime (next : list ManagedBinlog.outcome) : CommitRuntime :=
  CommitRuntime_new (mkManaged {[ binlog_path := [] ]} (Some 0) [] next) 0.

Definition fresh_server (next : list ManagedBinlog.outcome) : Persistence :=
  mkPersistence demo_numbers (fresh_runtime next) [] [] false 0 false (ReplicaLifecycle_new true) false.

Lemma fresh_stored next : stored 100 (fresh_runtime next) [].
Proof.
  exists 0, [], 1, [], 1, [], []. unfold stored_as. split_and!; try done; try (cbn; lia).
  apply active_only_directory.
Qed.

Lemma fresh_safe next : rollback_safe (rt_binlog (fresh_runtime next)).
Proof.
  right. intros name [b Hb]. cbn in Hb. by apply lookup_singleton_Some in Hb as [<- _].
Qed.

Lemma fresh_matches : matches 100 store_new [].
Proof. intros k. left. symmetry. apply cell_at_new. Qed.

(** Batches of plain strings and deletions fit the record format. *)
Definition blob_batch (b : CommittedBatch) : bool :=
  forallb (fun e => match e with
                    | Put _ (mkPersistent _ (Blob _) None) => true
                    | Put _ _ => false
                    | DeleteKey _ => true
                    end) (effects b).

Lemma blob_batches_fit l : forallb blob_batch l = true -> Forall (fun b => Forall effect_ok (effects b)) l.
Proof.
  intros H. apply list.Forall_forall. intros b Hb. rewrite forallb_forall in H.
  specialize (H b (proj1 (list_elem_of_In _ _) Hb)). apply list.Forall_forall. intros e He.
  unfold blob_batch in H. rewrite forallb_forall in H. specialize (H e (proj1 (list_elem_of_In _ _) He)).
  by destruct e as [k [[] []]|k].
Qed.
