(* ===== verification/EngineTheorems.v ===== *)
(** * EngineTheorems: what the storage engine guarantees

    The properties of src/engine.rs, each with an instance on a concrete
    engine. *)

From Stdlib Require Import ZArith Lia.
From Stdlib Require Import Strings.Byte.
From stdpp Require Import base gmap list strings numbers.
From S2P Require Import Prelude Text Json Value Shard ShardSpec Engine EngineSpec EngineMulti EngineWhole EngineActs EngineEvict EngineSnapshots EngineTrace StoreSnapshot Store Admission Demo.

Open Scope Z_scope.

Section Claims.
Context {JN : JsonNumber} {SJ : SerdeJson} {HO : HashOrder}.

(** C2: the 64-shard engine is one map with expirations.  Every sequence of
    operations from the fresh engine gives the results that the same sequence
    gives on a single map, and leaves exactly that map stored, with every key in
    the shard of its hash and the key and byte counters exact. *)
Theorem engine_refines_one_map {R : Type} (ops : list (clock * EngineOp R))
    (Hfit : ops_fit ∅ ops) :
  let out := run_ops engine_new ops in
  out.2 = (spec_ops ∅ ops).2 /\ dataset out.1 = (spec_ops ∅ ops).1 /\ engine_wf out.1.
Proof.
  destruct (run_ops_refines ops engine_new engine_new_wf) as (Hx & Hd & Hw & _).
  - by rewrite dataset_engine_new.
  - rewrite dataset_engine_new in *. done.
Qed.

(** C14: a snapshot is isolated from concurrent writers.  Whatever other
    threads do while a captured view is copied shard by shard, the copy is
    exactly the set of entries that were live when the view was captured, no
    assertion fails, every concurrent operation takes effect on the live
    dataset, and the copy-on-write epoch is closed. *)
Theorem snapshot_isolated {R : Type} (clk : clock) (e : OnyxEngine)
    (ops : nat -> list (clock * EngineOp R))
    (Hw : engine_wf e) (Ha : snapshot_active e = false)
    (Hfit : ops_fit (dataset e) (schedule ops 0 64)) :
  exists e1 v e2 entries,
    engine_begin_snapshot clk e = Some (e1, v) /\
    into_entries (threads ops) e1 v = Some (e2, entries) /\
    entries ≡ₚ map_to_list (live_map (clk 0%nat) (dataset e)) /\
    dataset e2 = (spec_ops (dataset e) (schedule ops 0 64)).1 /\
    engine_wf e2 /\ snapshot_active e2 = false.
Proof. by apply snapshot_copy_spec. Qed.

(** C23: eviction terminates, and with exact counters it ends with the dataset
    within its budget or with no entry left that the policy may remove.  Every
    entry it reports was unprotected (and volatile, for the volatile policies)
    and is gone; under the policies by access time it was accessed no later than
    any removable entry that stays.  Every other entry it removed had expired. *)
Theorem evict_to_fit_correct (clk : clock) (nanos : nat -> Z) (e : OnyxEngine) (maxmemory : Z)
    (policy : EvictionPolicy) (protected : gset bytes) (Hw : engine_wf e) :
  exists e' evicted,
    evict_to_fit clk nanos e maxmemory policy protected = Some (e', evicted) /\ engine_wf e' /\
    (policy = NoEviction \/ maxmemory = 0 \/ footprint (dataset e') <= maxmemory \/
     forall k en, dataset e' !! k = Some en -> ~ evictable policy protected k en) /\
    NoDup evicted.*1 /\
    (forall k en, (k, en) ∈ evicted -> dataset e !! k = Some en /\ dataset e' !! k = None /\
       evictable policy protected k en) /\
    (policy = AllKeysLru \/ policy = VolatileLru -> forall k en k' en', (k, en) ∈ evicted ->
       dataset e' !! k' = Some en' -> evictable policy protected k' en' ->
       last_accessed en <= last_accessed en') /\
    forall k, k ∉ evicted.*1 -> dataset e' !! k = dataset e !! k \/
      dataset e' !! k = None /\ exists en i, dataset e !! k = Some en /\ expired_by (clk i) en = true.
Proof.
  destruct (evict_to_fit_spec clk nanos e maxmemory policy protected (engine_wf_ok e Hw))
    as (e' & ev & E & [Iok Iw Is Io Iv Ic Il] & Hg).
  exists e', ev. split; [done|]. split; [by apply Iw|]. split; [|split; [done|]].
  { destruct (Hg Hw) as [?|[?|[?|Hnone]]]; [tauto..|]. do 3 right. intros k en Hk He.
    apply eligible_evictable in He. rewrite (Hnone k en Hk) in He. done. }
  split; [intros k en Hin; destruct (Iv k en Hin) as (? & ?%eligible_evictable & ?); done|].
  split.
  { intros Hp k en k' en' Hin Hk' He%eligible_evictable.
    apply (Il ltac:(by destruct Hp as [->| ->]) k en k' en'); done. }
  intros k Hk. destruct (dataset e !! k) as [en|] eqn:Hd.
  - destruct (dataset e' !! k) as [en'|] eqn:Hd'.
    + left. rewrite <- Hd. symmetry. by eapply lookup_weaken.
    + destruct (Ic k en Hd) as [H|[H|[i H]]]; [congruence| |right; split; [done|]; by exists en, i].
      exfalso. apply Hk. apply list_elem_of_fmap. by exists (k, en).
  - left. by eapply lookup_weaken_None.
Qed.

(** Replacing the dataset installs exactly the given entries. *)
Theorem replace_all_installs (clk : clock) (e : OnyxEngine) (entries : list (bytes * DataEntry))
    (Hw : engine_wf e) (Ha : snapshot_active e = false) (Hnd : NoDup entries.*1)
    (Hfit : footprint (list_to_map entries) <= USIZE_MAX) :
  exists e', engine_replace_all clk e entries = Some e' /\ engine_wf e' /\
    dataset e' = list_to_map entries /\ snapshot_active e' = false.
Proof. by apply replace_all_spec. Qed.

(** A batched read answers every key in request order, each as a single
    read of that key at some moment of the call would. *)
Theorem mget_in_request_order (clk : clock) (e : OnyxEngine) (keys : list bytes)
    (Hw : engine_wf e) (Hmono : monotone clk) :
  let out := engine_mget clk e keys in
  engine_wf out.1 /\ length out.2 = length keys /\
  forall i k r, keys !! i = Some k -> out.2 !! i = Some r ->
    exists j, r = read_at (clk j) (dataset e !! k).
Proof.
  destruct (mget_spec clk e keys Hw Hmono) as (H1 & _ & _ & H2 & H3).
  split; [done|]. split; [done|]. exact H3.
Qed.

(** The listings name every live key once and nothing else, and the
    statistics and the memory total are the exact counts of what is stored. *)
Theorem listings_and_counters_exact (clk : clock) (e : OnyxEngine) (Hw : engine_wf e) :
  (engine_all_keys clk e).2 ≡ₚ (map_to_list (m_sweep clk (dataset e))).*1 /\
  (engine_snapshot_all clk e).2 ≡ₚ map_to_list (m_sweep clk (dataset e)) /\
  stats_total_keys (engine_stats clk e).2 = Z.of_nat (size (m_sweep clk (dataset e))) /\
  (engine_total_memory_bytes clk e).2 = footprint (m_sweep clk (dataset e)) /\
  (engine_gc_expired clk e).2 =
    Z.of_nat (size (dataset e)) - Z.of_nat (size (m_sweep clk (dataset e))) /\
  physical_key_count e = Z.of_nat (size (dataset e)).
Proof.
  destruct (all_keys_spec clk e Hw) as [_ H1]. destruct (snapshot_all_spec clk e Hw) as [_ H2].
  destruct (stats_spec clk e Hw) as (_ & H3 & _). destruct (total_memory_spec clk e Hw) as (H4 & _).
  destruct (gc_expired_spec clk e Hw) as (H5 & _).
  split; [done|]. split; [done|]. split; [done|]. split; [done|]. split; [done|]. apply Hw.
Qed.

(** A rename moves the live entry, whatever shards the two keys are in,
    and touches no other key; without a live source it only reports failure. *)
Theorem rename_moves (clk : clock) (e : OnyxEngine) (from to : bytes) (Hok : engine_ok e) :
  let out := engine_rename clk e from to in
  match c_live (clk 0%nat) (dataset e !! from) with
  | Some en => out.2 = true /\ dataset out.1 = <[to := en]> (delete from (dataset e))
  | None => out.2 = false /\ dataset out.1 = delete from (dataset e)
  end.
Proof.
  destruct (rename_acts clk e from to Hok) as (Hx & Hd & _). unfold m_rename in *.
  by destruct (c_live (clk 0%nat) (dataset e !! from)).
Qed.

(** A copy leaves the source in place and gives the target its value and
    expiration; a copy of a key onto itself changes nothing. *)
Theorem copy_duplicates (clk : clock) (e : OnyxEngine) (from to : bytes) (Hok : engine_ok e) :
  let out := engine_copy clk e from to in
  match c_live (clk 0%nat) (dataset e !! from) with
  | Some en => out.2 = true /\
      dataset out.1 =
        if bool_decide (from = to) then dataset e
        else <[to := mkEntry JN (value en) (expires_at en) (clk 0%nat) (clk 0%nat)]> (dataset e)
  | None => out.2 = false /\ dataset out.1 = delete from (dataset e)
  end.
Proof.
  destruct (copy_acts clk e from to Hok) as (Hx & Hd & _). unfold m_copy in *.
  by destruct (c_live (clk 0%nat) (dataset e !! from)).
Qed.

End Claims.

(** ** Instances *)

Definition two_sets : list (clock * EngineOp unit) :=
  [(still, OpSet (bs "a") (Int 1) None); (still, OpSet (bs "b") (Blob (bs "x")) (Some 200))].

Lemma engine_refines_one_map_witness :
  dataset (run_ops engine_new two_sets).1 = (spec_ops ∅ two_sets).1.
Proof.
  apply (engine_refines_one_map two_sets). vm_compute. repeat split; discriminate.
Defined.

(** An engine that holds [a] forever and [b] until 200. *)
Definition pair_engine : OnyxEngine :=
  (engine_set still (engine_set still engine_new (bs "a") (Int 7) None).1 (bs "b") (Int 8) (Some 200)).1.

Definition pair_map : gmap bytes DataEntry :=
  {[ bs "a" := mkEntry demo_numbers (Int 7) None 100 100;
     bs "b" := mkEntry demo_numbers (Int 8) (Some 200) 100 100 ]}.

Lemma pair_engine_spec :
  engine_wf pair_engine /\ dataset pair_engine = pair_map /\ snapshot_active pair_engine = false.
Proof.
  destruct (set_refines still (bs "a") (Int 7) None engine_new engine_new_wf) as (_ & D1 & W1 & A1 & _).
  { rewrite dataset_engine_new. vm_compute. discriminate. }
  destruct (set_refines still (bs "b") (Int 8) (Some 200) _ W1) as (_ & D2 & W2 & A2 & _).
  { rewrite D1, dataset_engine_new. vm_compute. discriminate. }
  fold pair_engine in D2, W2, A2. rewrite D1, dataset_engine_new in D2.
  split; [done|]. rewrite A2, A1. split; [|done]. rewrite D2. reflexivity.
Qed.

Lemma snapshot_isolated_witness :
  exists e1 v e2 entries,
    engine_begin_snapshot still pair_engine = Some (e1, v) /\
    into_entries (threads (fun j => if (j =? 3)%nat then two_sets else [])) e1 v = Some (e2, entries) /\
    entries ≡ₚ map_to_list pair_map.
Proof.
  destruct pair_engine_spec as (Hw & Hd & Ha).
  destruct (snapshot_isolated still pair_engine (fun j => if (j =? 3)%nat then two_sets else [])
    Hw Ha) as (e1 & v & e2 & entries & E1 & E2 & H & _).
  - rewrite Hd. vm_compute. repeat split; discriminate.
  - exists e1, v, e2, entries. split; [exact E1|]. split; [exact E2|]. rewrite Hd in H. exact H.
Defined.

Lemma evict_to_fit_correct_witness :
  exists e' evicted,
    evict_to_fit still (fun _ => 0) pair_engine 10 VolatileLru {[ bs "a" ]} = Some (e', evicted) /\
    dataset e' !! bs "b" = None.
Proof.
  destruct pair_engine_spec as (Hw & Hd & Ha).
  destruct (evict_to_fit_correct still (fun _ => 0) pair_engine 10 VolatileLru {[ bs "a" ]} Hw)
    as (e' & ev & E & Hw' & Hend & _ & Hgone & _ & Hkeep).
  exists e', ev. split; [exact E|]. rewrite Hd in *.
  destruct (dataset e' !! bs "b") as [en|] eqn:Hb; [exfalso|reflexivity].
  assert (Hout : bs "b" ∉ ev.*1).
  { intros ([k en'] & Hk & Hin)%list_elem_of_fmap. apply Hgone in Hin as (_ & Hin & _). simpl in Hk. congruence. }
  apply Hkeep in Hout as [Hout|[Hout _]]; [|congruence]. rewrite Hb in Hout.
  change (Some en = Some (mkEntry demo_numbers (Int 8) (Some 200) 100 100)) in Hout.
  apply (inj Some) in Hout. subst en.
  destruct Hend as [?|[?|[Hf|Hn]]]; [discriminate|discriminate| |].
  - pose proof (cost_le_footprint (bs "b") (dataset e')) as [_ Hc]. rewrite Hb in Hc.
    assert (10 < 10); [|lia]. eapply Z.lt_le_trans; [|exact (Z.le_trans _ _ _ Hc Hf)]. reflexivity.
  - apply (Hn _ _ Hb). split; [intros Hm%elem_of_singleton; discriminate Hm|]. intros _. by exists 200.
Defined.

Lemma replace_all_installs_witness :
  exists e', engine_replace_all still engine_new [(bs "k", mkEntry demo_numbers (Int 7) None 1 1)] = Some e' /\
    engine_wf e'.
Proof.
  destruct (replace_all_installs still engine_new [(bs "k", mkEntry demo_numbers (Int 7) None 1 1)]
    engine_new_wf eq_refl) as (e' & E & Hw & _).
  - apply NoDup_singleton.
  - vm_compute. discriminate.
  - exists e'. split; [exact E|exact Hw].
Defined.

Lemma mget_in_request_order_witness :
  length (engine_mget still pair_engine [bs "a"; bs "c"; bs "a"]).2 = 3%nat.
Proof.
  apply (mget_in_request_order still pair_engine [bs "a"; bs "c"; bs "a"] (proj1 pair_engine_spec)).
  intros i j _. unfold still. lia.
Defined.

Lemma listings_and_counters_exact_witness : physical_key_count pair_engine = 2.
Proof.
  destruct pair_engine_spec as (Hw & Hd & _).
  pose proof (listings_and_counters_exact still pair_engine Hw) as (_ & _ & _ & _ & _ & H).
  rewrite Hd in H. exact H.
Defined.

Lemma rename_moves_witness : (engine_rename still pair_engine (bs "a") (bs "c")).2 = true.
Proof.
  destruct pair_engine_spec as (Hw & Hd & _).
  pose proof (rename_moves still pair_engine (bs "a") (bs "c") (engine_wf_ok _ Hw)) as H.
  cbv zeta in H. rewrite Hd in H. exact (proj1 H).
Defined.

Lemma copy_duplicates_witness : (engine_copy still pair_engine (bs "b") (bs "a")).2 = true.
Proof.
  destruct pair_engine_spec as (Hw & Hd & _).
  pose proof (copy_duplicates still pair_engine (bs "b") (bs "a") (engine_wf_ok _ Hw)) as H.
  cbv zeta in H. rewrite Hd in H. exact (proj1 H).
Defined.
