(* ===== verification/CommandTheorems.v ===== *)
(** * CommandTheorems: what the data commands guarantee

    The properties of src/execution.rs, src/command.rs and the typed
    operations of src/store.rs, each with an instance on a concrete store. *)

From Stdlib Require Import ZArith Lia.
From Stdlib Require Import Strings.Byte.
From stdpp Require Import base gmap list strings numbers.
From S2P Require Import Prelude Text Json JsonPath Value Shard ShardSpec Engine EngineSpec EngineMulti EngineActs Store TypedSpec Model EntryEq StoreSpec ModelSpec Resp Execution ExecutionSpec Admission Coordinator CoordinatorSpec Demo.

Open Scope Z_scope.

Section Claims.
Context {JN : JsonNumber} {SJ : SerdeJson} {HO : HashOrder} {FT : FloatText}.

(** C15: every command with every argument list runs to completion without a
    panic, keeps the store well formed (no empty collections, integers in
    range, ordered JSON objects), keeps its limits, changes the logical state
    only at its affected keys, and reports a tentative mutation whenever it
    changed anything. *)
Theorem execute_command_sound (T : Z) (clk : clock) (args : list bytes) (st : ShardedStore)
    (parsed_wf : forall s v, json_from_str s = Some v -> wf_value v)
    (Hclk : clock_before clk T) (Hg : good_store st) :
  exists st' o, execute_command clk args st = Some (st', o) /\ good_store st' /\ same_limits st st' /\
    (forall k, k ∉ affected_keys args -> cell_at T st' k = cell_at T st k) /\
    (mutation o <> Tentative -> forall k, cell_at T st' k = cell_at T st k) /\
    NoDup (affected_keys args).
Proof.
  destruct (execute_spec parsed_wf T clk Hclk args st Hg) as (st' & o & E & [G L F Q]).
  exists st', o. split; [done|]. split; [done|]. split; [done|]. split; [|split].
  - intros k Hk. apply F. by rewrite elem_of_list_to_set.
  - intros Hm k. unfold cell_at. rewrite <- !lookup_logical. by rewrite Q.
  - apply affected_keys_NoDup.
Qed.

(** A command that a replica may serve is not a write command, and a
    command that is not a write command leaves every logical cell as it was and
    requests no mutation. *)
Theorem replica_reads_do_not_write (T : Z) (clk : clock) (args : list bytes) (st : ShardedStore)
    (parsed_wf : forall s v, json_from_str s = Some v -> wf_value v)
    (Hclk : clock_before clk T) (Hg : good_store st)
    (Hr : is_replica_routable_read (arg_or_empty args 0) = true) :
  is_write_command (arg_or_empty args 0) = false /\
  exists st' o, execute_command clk args st = Some (st', o) /\ mutation o = NotRequested /\
    forall k, cell_at T st' k = cell_at T st k.
Proof.
  pose proof (routable_not_write _ Hr) as Hw. split; [done|].
  destruct (execute_spec parsed_wf T clk Hclk args st Hg) as (st' & o & E & [_ _ _ Q]).
  exists st', o. split; [done|].
  assert (Hm : mutation o = NotRequested).
  { unfold execute_command, mbind, prog_bind in E.
    destruct (dispatch clk args st) as [[st1 [r b]]|]; [|done]. injection E as <- <-.
    cbn [mutation]. by rewrite Hw. }
  split; [done|]. intros k. unfold cell_at. rewrite <- !lookup_logical. rewrite Q; [done|congruence].
Qed.

(** A key that only list commands touch is a deque: any sequence of
    pushes, pops, ranges and lengths answers as the deque does, and the key is
    absent exactly when the deque is empty. *)
Theorem lists_are_deques (k : bytes) (ops : list (clock * ListOp)) (st : ShardedStore)
    (l : list bytes) (Hp : persists st k (list_cell l)) :
  exists st', run_all run_list_op k ops st = Some (st', (step_all spec_list_op l ops).2) /\
    persists st' k (list_cell (step_all spec_list_op l ops).1).
Proof. apply run_all_refines; [|done]. intros. by apply list_op_run. Qed.

(** A key that only hash commands touch is a finite map. *)
Theorem hashes_are_maps (k : bytes) (ops : list (clock * HashOp)) (st : ShardedStore)
    (h : gmap bytes bytes) (Hp : persists st k (hash_cell h)) :
  exists st', run_all run_hash_op k ops st = Some (st', (step_all spec_hash_op h ops).2) /\
    persists st' k (hash_cell (step_all spec_hash_op h ops).1).
Proof. apply run_all_refines; [|done]. intros. by apply hash_op_run. Qed.

(** A key that only set commands touch is a finite set. *)
Theorem sets_are_sets (k : bytes) (ops : list (clock * SetOp)) (st : ShardedStore)
    (s : gset bytes) (Hp : persists st k (set_cell_of s)) :
  exists st', run_all run_set_op k ops st = Some (st', (step_all spec_set_op s ops).2) /\
    persists st' k (set_cell_of (step_all spec_set_op s ops).1).
Proof. apply run_all_refines; [|done]. intros. by apply set_op_run. Qed.

(** LRANGE returns the elements between its normalised bounds, both
    included, whatever the bounds are. *)
Theorem lrange_slice_correct {A : Type} (l : list A) (start stop : Z) (i : nat) :
  lrange_slice l start stop !! i =
  if norm_index (len l) start + Z.of_nat i <=? norm_index (len l) stop
  then l !! Z.to_nat (norm_index (len l) start + Z.of_nat i) else None.
Proof. apply lrange_slice_lookup. Qed.

(** INCRBY adds to a stored integer and reports the sum when it fits 64
    bits, and otherwise reports an overflow and keeps the stored integer. *)
Theorem incrby_adds_or_overflows (clk : clock) (k : bytes) (n delta : Z) (st : ShardedStore)
    (Hp : persists st k (Some (Int n))) :
  exists st', incrby clk k delta st =
      Some (st', if in_i64 (n + delta) then Ok (n + delta) else Err err_overflow) /\
    persists st' k (Some (Int (if in_i64 (n + delta) then n + delta else n))).
Proof.
  destruct (upsert_run clk k (Int 0) (incrby_value delta) st _ Hp) as (st' & E & H).
  exists st'. unfold incrby. rewrite E. unfold incrby_value, checked_add_i64 in *.
  destruct (in_i64 (n + delta)); done.
Qed.

(** SET then GET returns the value, for every key and every text, on any
    store and whatever was stored before. *)
Theorem set_then_get (clk clk' : clock) (k v : bytes) (st : ShardedStore)
    (Hok : engine_ok (engine st)) (Hv : Utf8.valid v = true) :
  exists st' st'',
    execute_command clk [bs "SET"; k; v] st =
      Some (st', mkOutcome (SimpleString (bs "OK")) Tentative) /\
    execute_command clk' [bs "GET"; k] st' =
      Some (st'', mkOutcome (BulkString (Some v)) NotRequested).
Proof.
  assert (Eset : forall c s, execute_command c [bs "SET"; k; v] s =
    ('(x, b) ← cmd_set c [bs "SET"; k; v] k v;
     mret (mkOutcome x (if b : bool then Tentative else NoChange))) s) by (intros; reflexivity).
  assert (Eget : forall c s, execute_command c [bs "GET"; k] s =
    ('(x, b) ← cmd_get c k; mret (mkOutcome x NotRequested)) s) by (intros; reflexivity).
  assert (H1 : exists st', set_conditional_value (tick 3 clk) k (Blob v) None None st = Some (st', true) /\
    persists st' k (Some (Blob v))).
  { destruct (set_conditional_acts (tick 3 clk) k (Blob v) None None (engine st) Hok) as (Hr & Hd & Hok').
    unfold set_conditional_value, on_engine.
    destruct (engine_set_conditional _ _ _ _ _ _) as [e' r]. cbn [fst snd] in *.
    unfold c_set_conditional in *. cbn in Hr. subst r. eexists. split; [done|].
    constructor; [done|]. eexists. split; [simpl; by rewrite Hd, lookup_set_cell_eq|done]. }
  destruct H1 as (st' & E1 & Hp).
  destruct (read_run clk' k read_string (fun x => read_string (mkEntry JN x None 0 0)) st' _
    (fun en => eq_refl) Hp) as (st'' & E2 & _).
  exists st', st''. split.
  - rewrite Eset. unfold cmd_set. cbn [drop set_options]. unfold mbind, prog_bind.
    cbn [length]. rewrite E1. done.
  - rewrite Eget. unfold cmd_get, store_get, mbind, prog_bind. rewrite E2. cbn.
    by rewrite Utf8.from_utf8_lossy_valid.
Qed.

End Claims.

(** ** Instances *)

Lemma absent_key (k : bytes) : persists store_new k None.
Proof.
  constructor; [apply engine_wf_ok, engine_new_wf|].
  change (dataset (engine store_new)) with (dataset engine_new).
  rewrite dataset_engine_new. apply lookup_empty.
Qed.

Lemma absent_hash (k : bytes) : persists store_new k (hash_cell ∅).
Proof. unfold hash_cell. rewrite bool_decide_eq_true_2 by done. apply absent_key. Qed.

Lemma absent_set (k : bytes) : persists store_new k (set_cell_of ∅).
Proof. unfold set_cell_of. rewrite bool_decide_eq_true_2 by done. apply absent_key. Qed.

Lemma execute_command_sound_witness :
  exists st' o, execute_command still [bs "LPUSH"; bs "l"; bs "x"] store_new = Some (st', o) /\
    good_store st' /\ cell_at 100 st' (bs "other") = cell_at 100 store_new (bs "other").
Proof.
  destruct (execute_command_sound 100 still [bs "LPUSH"; bs "l"; bs "x"] store_new demo_parsed_wf
    still_before (store_new_good 0 NoEviction)) as (st' & o & E & G & _ & F & _).
  exists st', o. split; [exact E|]. split; [exact G|]. apply F.
  apply (bool_decide_unpack _). reflexivity.
Defined.

Lemma replica_reads_do_not_write_witness :
  exists st' o, execute_command still [bs "GET"; bs "k"] store_new = Some (st', o) /\
    mutation o = NotRequested.
Proof.
  destruct (replica_reads_do_not_write 100 still [bs "GET"; bs "k"] store_new demo_parsed_wf
    still_before (store_new_good 0 NoEviction) eq_refl) as (_ & st' & o & E & M & _).
  exists st', o. split; [exact E|exact M].
Defined.

Lemma lists_are_deques_witness :
  exists st', run_all run_list_op (bs "l")
      [(still, RPush (bs "a")); (still, LPush (bs "b")); (still, RPop); (still, LPop); (still, LLen)]
      store_new =
    Some (st', [LLength (Ok 1); LLength (Ok 2); LItem (Ok (Some (bs "a")));
                LItem (Ok (Some (bs "b"))); LLength (Ok 0)]).
Proof.
  destruct (lists_are_deques (bs "l")
    [(still, RPush (bs "a")); (still, LPush (bs "b")); (still, RPop); (still, LPop); (still, LLen)]
    store_new [] (absent_key (bs "l"))) as (st' & E & _).
  exists st'. exact E.
Defined.

Lemma hashes_are_maps_witness :
  exists st', run_all run_hash_op (bs "h")
      [(still, HSet (bs "f") (bs "v")); (still, HGet (bs "f")); (still, HDel (bs "f"))] store_new =
    Some (st', [HFlag (Ok true); HValue (Ok (Some (bs "v"))); HFlag (Ok true)]).
Proof.
  destruct (hashes_are_maps (bs "h")
    [(still, HSet (bs "f") (bs "v")); (still, HGet (bs "f")); (still, HDel (bs "f"))]
    store_new ∅ (absent_hash (bs "h"))) as (st' & E & _).
  exists st'. exact E.
Defined.

Lemma sets_are_sets_witness :
  exists st', run_all run_set_op (bs "s")
      [(still, SAdd (bs "m")); (still, SAdd (bs "m")); (still, SRem (bs "m")); (still, SIsMember (bs "m"))]
      store_new = Some (st', [Ok true; Ok false; Ok true; Ok false]).
Proof.
  destruct (sets_are_sets (bs "s")
    [(still, SAdd (bs "m")); (still, SAdd (bs "m")); (still, SRem (bs "m")); (still, SIsMember (bs "m"))]
    store_new ∅ (absent_set (bs "s"))) as (st' & E & _).
  exists st'. exact E.
Defined.

(** A store whose key n holds the largest integer. *)
Definition full_counter : ShardedStore :=
  with_engine store_new (engine_set still engine_new (bs "n") (Int I64_MAX) None).1.

Lemma full_counter_persists : persists full_counter (bs "n") (Some (Int I64_MAX)).
Proof.
  destruct (set_acts still (bs "n") (Int I64_MAX) None engine_new (engine_wf_ok _ engine_new_wf))
    as (_ & Hd & Hok).
  constructor; [exact Hok|]. eexists.
  change (engine full_counter) with (engine_set still engine_new (bs "n") (Int I64_MAX) None).1.
  rewrite Hd, lookup_set_cell_eq. split; [reflexivity|]. split; reflexivity.
Qed.

Lemma incrby_adds_or_overflows_witness :
  exists st', incrby still (bs "n") 1 full_counter = Some (st', Err err_overflow) /\
    persists st' (bs "n") (Some (Int I64_MAX)).
Proof.
  destruct (incrby_adds_or_overflows still (bs "n") I64_MAX 1 full_counter full_counter_persists)
    as (st' & E & H).
  exists st'. split; [exact E|exact H].
Defined.

Lemma set_then_get_witness :
  exists st' st'',
    execute_command still [bs "SET"; bs "k"; bs "hello"] store_new =
      Some (st', mkOutcome (SimpleString (bs "OK")) Tentative) /\
    execute_command still [bs "GET"; bs "k"] st' =
      Some (st'', mkOutcome (BulkString (Some (bs "hello"))) NotRequested).
Proof.
  exact (set_then_get still still (bs "k") (bs "hello") store_new (engine_wf_ok _ engine_new_wf) eq_refl).
Defined.
