(* ===== verification/CommitTheorems.v ===== *)
(** * CommitTheorems: what master commits guarantee

    The properties of admission, rollback, transactions and commit groups,
    each with an instance on a concrete store. *)

From Stdlib Require Import ZArith Lia.
From Stdlib Require Import Strings.Byte.
From stdpp Require Import base gmap list strings numbers sorting.
From S2P Require Import Prelude Text Json JsonPath Value Shard ShardSpec Engine EngineSpec EngineMulti EngineWhole EngineActs Store Persistence Model Codec BinlogIo Recovery ManagedBinlog Runtime ManagedSpec EntryEq StoreSpec ModelSpec RecoverySpec CommitSpec Resp Execution ExecutionSpec Admission Server ServerSpec ServerInfo Coordinator CoordinatorSpec CoordinatorGroups Demo.

Open Scope Z_scope.

(** What the observers of a replica see after it applied a batch. *)
Definition replicates {JN : JsonNumber} {SJ : SerdeJson} {HO : HashOrder} (T : Z)
    (batch : CommittedBatch) (st st' : ShardedStore) : Prop :=
  forall replica clk, clock_before clk T -> engine_ok (engine replica) ->
  (forall k, cell_at T replica k = cell_at T st k) ->
  exists replica', apply_committed_batch clk batch replica = Some (replica', tt) /\
    forall k, same_entry (cell_at T replica' k) (cell_at T st' k).

Lemma replays_replicates {JN : JsonNumber} {SJ : SerdeJson} {HO : HashOrder} T batch st st' :
  replays T batch (cell_at T st) (cell_at T st') -> replicates T batch st st'.
Proof.
  intros Hr replica clk Hclk Hok Hc.
  destruct (apply_effects_spec T clk (effects batch) replica Hclk Hok) as (r' & E & _ & _ & H).
  exists r'. split; [done|]. intros k. rewrite H, Hc. apply Hr.
Qed.

Lemma gather_spec (queue : list MasterCommitOperation) (n mutations input : Z) :
  let '(taken, deferred, remaining) := gather n mutations input queue in
  taken ++ opt_list deferred ++ remaining = queue /\
  n + len taken <= Z.max n MAX_COMMIT_GROUP_REQUESTS /\
  (taken <> [] ->
   mutations + zsum (map logical_mutation_upper_bound taken) <= MAX_COMMIT_GROUP_LOGICAL_MUTATIONS /\
   input + zsum (map estimated_bytes taken) <= MAX_COMMIT_GROUP_INPUT_BYTES).
Proof.
  revert n mutations input. induction queue as [|op rest IH]; intros n mutations input; cbn [gather].
  - split; [done|]. split; [unfold len; simpl; lia|done].
  - destruct (n <? MAX_COMMIT_GROUP_REQUESTS) eqn:En; prop_tests.
    2: { split; [done|]. split; [unfold len; simpl; lia|done]. }
    destruct (_ || _) eqn:Eb; [split; [done|]; split; [unfold len; simpl; lia|done]|].
    apply orb_false_iff in Eb as [E1 E2]. prop_tests.
    specialize (IH (n + 1) (sat_add mutations (logical_mutation_upper_bound op))
      (sat_add input (estimated_bytes op))).
    destruct (gather _ _ _ rest) as [[taken deferred] remaining]. destruct IH as (H1 & H2 & H3).
    split; [simpl; by rewrite H1|]. split; [unfold len in *; simpl length; lia|]. intros _.
    assert (X1 : sat_add mutations (logical_mutation_upper_bound op) =
      mutations + logical_mutation_upper_bound op)
      by (unfold sat_add, USIZE_MAX, U64_MAX, MAX_COMMIT_GROUP_LOGICAL_MUTATIONS in *; lia).
    assert (X2 : sat_add input (estimated_bytes op) = input + estimated_bytes op)
      by (unfold sat_add, USIZE_MAX, U64_MAX, MAX_COMMIT_GROUP_INPUT_BYTES in *; lia).
    rewrite X1, X2 in *. cbn [map zsum foldr]. destruct taken as [|t taken].
    + unfold zsum. simpl. lia.
    + destruct (H3 ltac:(done)) as [H4 H5]. unfold zsum in *. simpl in *. lia.
Qed.

(** The clock of a group of one command: 100 until the second derivation of
    its batch, 102 from then on. *)
Definition late_world : world :=
  mkWorld (fun p => match p with
                    | 0%nat :: 0%nat :: n :: _ => fun _ => if (n <? 5)%nat then 100 else 102
                    | _ => fun _ => 102
                    end) (fun _ _ => 0) (fun _ => mkCounters 0 false 0 0 0 0).

Section Claims.
Context {CRC : Crc32} {GZ : Gzip} {JN : JsonNumber} {SJ : SerdeJson} {HO : HashOrder} {FT : FloatText}.

(** C8: preparing a command never panics; a mutation comes with a batch that
    brings every replica in the state before the command to the state after it,
    and with a rollback that restores exactly the state before; a command that
    commits nothing, or is refused admission, reports NoChange and leaves the
    state as it was; a failed preparation restores it. *)
Theorem prepare_command_commits (T : Z) (lim : Z * EvictionPolicy) (w : world) (args : list bytes)
    (st : ShardedStore)
    (parsed_wf : forall s v, json_from_str s = Some v -> wf_value v)
    (Hw : world_before w T) (Hs : sound lim st) (Hl : 0 <= lim.1) :
  exists st' r, prepare_command_operation w args st = Some (st', r) /\ sound lim st' /\
    match r with
    | Ok p =>
      match pc_batch p, pc_rollback p with
      | Some batch, Some rb =>
        replicates T batch st st' /\ undoes T rb (cell_at T st) (cell_at T st')
      | None, None =>
        mutation (pc_outcome p) = NoChange /\ forall k, same_entry (cell_at T st k) (cell_at T st' k)
      | _, _ => False
      end
    | Err e => e = err_became_empty /\ forall k, cell_at T st' k = cell_at T st k
    end.
Proof.
  destruct (prepare_command_operation_spec parsed_wf T lim w args st Hw Hs Hl)
    as (st' & r & E & S & H).
  exists st', r. split; [done|]. split; [done|]. destruct r as [p|e]; [|done].
  destruct H as [Hp Hn]. unfold prepared_from in Hp.
  destruct (pc_batch p), (pc_rollback p); try done.
  - destruct Hp as [Hr Hu]. split; [by apply replays_replicates|done].
  - split; [by apply Hn|done].
Qed.

(** An abandoned mutation attempt leaves no trace: whatever command ran
    inside it, dropping the attempt restores every logical cell. *)
Theorem abandoned_attempt_restores (T : Z) (lim : Z * EvictionPolicy) (w : world)
    (args : list bytes) (st : ShardedStore)
    (parsed_wf : forall s v, json_from_str s = Some v -> wf_value v)
    (Hw : world_before w T) (Hs : sound lim st) (Hl : 0 <= lim.1) :
  exists st', (a ← begin_mutation (clock_of w 0) (affected_keys args);
               _ ← server_execute_command (stage w 1) args;
               attempt_drop (clocks_of w 2) a) st = Some (st', tt) /\
    sound lim st' /\ forall k, cell_at T st' k = cell_at T st k.
Proof.
  destruct (begin_mutation_spec T (clock_of w 0) (affected_keys args) st) as (st0 & a0 & E0 & _ & _ & _ & Ha);
    [auto with onyx|apply (so_good _ _ Hs)|by rewrite (so_memory _ _ Hs)|].
  destruct (begin_stage T lim (clock_of w 0) (affected_keys args) st) as (st1 & a & E1 & S1 & C1 & He & _);
    [auto with onyx|done|done|].
  rewrite E1 in E0. injection E0 as _ <-.
  rewrite (bind_run _ _ _ _ _ E1).
  destruct (run_stage T lim (affected_keys args) _ (server_execute_command (stage w 1) args)
    (cell_at T st) (before_entries a) st1
    (server_execute_spec parsed_wf T (stage w 1) args (world_before_stage w 1 T Hw)) S1 C1)
    as (st2 & o & E2 & S2 & C2).
  rewrite (bind_run _ _ _ _ _ E2). unfold attempt_drop, attempt_rollback. rewrite Ha, He.
  by apply (restore_stage T eq lim _ (affected_keys args) _ (cell_at T st2)); [apply _|auto with onyx| | |].
Qed.

(** C17: a group of commands, a transaction or an OBP mutation is prepared as a
    unit: it ends with batches that reproduce its changes in order and as many
    rollbacks, or with an error and every change undone. *)
Theorem prepare_request_atomic (T : Z) (lim : Z * EvictionPolicy) (w : world)
    (op : MasterCommitOperation) (st : ShardedStore)
    (parsed_wf : forall s v, json_from_str s = Some v -> wf_value v)
    (number_eq : per number_eqb)
    (Hw : world_before w T) (Hs : sound lim st) (Hl : 0 <= lim.1) :
  exists st' r, prepare_request w op st = Some (st', r) /\ sound lim st' /\
    match r with
    | Ok p => length (pr_batches p) = length (pr_rollbacks p) /\
        (forall k, same_entry (fold_left (effect_on T k) (concat (map effects (pr_batches p)))
                                 (cell_at T st k)) (cell_at T st' k)) /\
        forall w', world_before w' T ->
          exists st'', restore_reverse w' (pr_rollbacks p) st' = Some (st'', tt) /\
            forall k, same_entry (cell_at T st'' k) (cell_at T st k)
    | Err _ => forall k, same_entry (cell_at T st k) (cell_at T st' k)
    end.
Proof.
  destruct (prepare_request_spec parsed_wf number_eq T lim w op st Hw Hs Hl) as (st' & r & E & S & H).
  exists st', r. split; [done|]. split; [done|]. destruct r as [p|e]; [|done]. destruct H as [H _].
  split; [by eapply settled_lengths|]. split; [by eapply settled_replay|]. intros w' Hw'.
  destruct (settled_restore number_eq T _ _ _ _ lim w' st' H Hw' S) as (st'' & E2 & _ & H2);
    [intros k; by left|].
  by exists st''.
Qed.


(** C24: admission enforces the memory limit.  An admitted mutation keeps the
    counted footprint within the limit or not above what it was before the
    command, by evicting only unprotected keys that it reports; a refused one
    leaves every logical cell as it was. *)
Theorem admit_enforces_limits (T : Z) (clks : nat -> clock) (nanos : nat -> Z)
    (protected : list bytes) (a : MutationAttempt) (st : ShardedStore)
    (Hclk : forall i, clock_before (clks i) T) (Hwf : engine_wf (engine st))
    (Hmem : maxmemory_bytes st <> 0 -> is_Some (memory_before a)) :
  exists st' a' r, store_admit clks nanos protected a st = Some (st', (a', r)) /\
    before_entries a' = before_entries a /\
    match r with
    | Ok _ => exists evicted, evicted_entries a' = evicted_entries a ++ evicted /\
        (maxmemory_bytes st = 0 \/ footprint (dataset (engine st')) <= maxmemory_bytes st \/
         exists m, memory_before a = Some m /\ footprint (dataset (engine st')) <= m) /\
        NoDup evicted.*1 /\
        forall k, if bool_decide (k ∈ evicted.*1)
                  then cell_at T st' k = None /\ k ∉ protected
                  else cell_at T st' k = cell_at T st k
    | Err _ => a' = a /\ forall k, cell_at T st' k = cell_at T st k
    end.
Proof.
  destruct (admit_spec T clks nanos protected a st Hclk (engine_wf_ok _ Hwf) Hmem)
    as (st' & a' & r & E & Hb & Hr).
  exists st', a', r. split; [done|]. split; [done|]. destruct r as [u|e].
  - destruct Hr as (ev & He & [F1 F2 F3 F4 F5 F6 F7 F8] & Hfit). exists ev.
    split; [done|]. split; [by apply Hfit|]. split; [done|]. intros k. case_bool_decide; auto.
  - destruct Hr as (-> & _ & _ & _ & Hc). done.
Qed.

(** The worker keeps queue order and bounds each group: the group, the
    deferred request and the rest are the queue, and a group of more than one
    request has at most 64 requests, 256 logical mutations and 8 MiB of input. *)
Theorem gather_group_bounded (first : MasterCommitOperation) (queue : list MasterCommitOperation) :
  let '(group, deferred, remaining) := gather_group first queue in
  group ++ opt_list deferred ++ remaining = first :: queue /\
  len group <= MAX_COMMIT_GROUP_REQUESTS /\
  (1 < len group ->
   zsum (map logical_mutation_upper_bound group) <= MAX_COMMIT_GROUP_LOGICAL_MUTATIONS /\
   zsum (map estimated_bytes group) <= MAX_COMMIT_GROUP_INPUT_BYTES).
Proof.
  unfold gather_group.
  pose proof (gather_spec queue 1 (logical_mutation_upper_bound first) (estimated_bytes first)) as H.
  destruct (gather _ _ _ queue) as [[taken deferred] remaining]. destruct H as (H1 & H2 & H3).
  split; [simpl; by rewrite H1|]. unfold len in *. cbn [length map foldr zsum] in *.
  split; [unfold MAX_COMMIT_GROUP_REQUESTS in *; lia|]. intros Hlt. apply H3.
  intros ->. simpl in Hlt. lia.
Qed.

(** A request enters the queue only with memory units that cover its
    estimated size and never exceed the queue's budget. *)
Theorem submit_units_bounded (op : MasterCommitOperation) (units : Z)
    (H : submit_units op = Ok units) :
  0 < units /\ estimated_bytes op <= units * COMMIT_QUEUE_MEMORY_UNIT_BYTES /\
  units * COMMIT_QUEUE_MEMORY_UNIT_BYTES <= COMMIT_QUEUE_MEMORY_BYTES.
Proof.
  unfold submit_units in H. destruct (match op with OpCommandGroup _ => _ | _ => _ end); [done|].
  destruct (COMMIT_QUEUE_MEMORY_BYTES <? Z.max (estimated_bytes op) 1) eqn:E; [done|].
  cbv zeta in H. destruct (_ <=? U32_MAX); [|done]. injection H as <-.
  unfold COMMIT_QUEUE_MEMORY_BYTES, COMMIT_QUEUE_MEMORY_UNIT_BYTES in *. prop_tests.
  pose proof (Z.div_mod (Z.max (estimated_bytes op) 1 + 4 * 1024 - 1) (4 * 1024) ltac:(lia)).
  pose proof (Z.mod_pos_bound (Z.max (estimated_bytes op) 1 + 4 * 1024 - 1) (4 * 1024) ltac:(lia)).
  lia.
Qed.

End Claims.

Lemma prepare_command_commits_witness :
  exists st' r, prepare_command_operation still_world [bs "SET"; bs "k"; bs "v"] store_new =
    Some (st', r) /\ sound (0, NoEviction) st'.
Proof.
  destruct (prepare_command_commits 100 (0, NoEviction) still_world [bs "SET"; bs "k"; bs "v"]
    store_new demo_parsed_wf still_world_before (store_new_sound 0 NoEviction) ltac:(simpl; lia))
    as (st' & r & E & S & _).
  exists st', r. split; [exact E|exact S].
Defined.

Lemma abandoned_attempt_restores_witness :
  exists st', (a ← begin_mutation (clock_of still_world 0) (affected_keys [bs "INCR"; bs "n"]);
               _ ← server_execute_command (stage still_world 1) [bs "INCR"; bs "n"];
               attempt_drop (clocks_of still_world 2) a) store_new = Some (st', tt) /\
    cell_at 100 st' (bs "n") = None.
Proof.
  destruct (abandoned_attempt_restores 100 (0, NoEviction) still_world [bs "INCR"; bs "n"]
    store_new demo_parsed_wf still_world_before (store_new_sound 0 NoEviction) ltac:(simpl; lia))
    as (st' & E & _ & H).
  exists st'. split; [exact E|]. rewrite H. reflexivity.
Defined.

Lemma prepare_request_atomic_witness :
  exists st' r, prepare_request still_world
      (OpTransaction [[bs "SET"; bs "a"; bs "1"]; [bs "INCR"; bs "a"]; [bs "GET"; bs "a"]]) store_new =
    Some (st', r) /\ sound (0, NoEviction) st'.
Proof.
  destruct (prepare_request_atomic 100 (0, NoEviction) still_world
    (OpTransaction [[bs "SET"; bs "a"; bs "1"]; [bs "INCR"; bs "a"]; [bs "GET"; bs "a"]])
    store_new demo_parsed_wf demo_numbers_per still_world_before (store_new_sound 0 NoEviction)
    ltac:(simpl; lia)) as (st' & r & E & S & _).
  exists st', r. split; [exact E|exact S].
Defined.

(** A key whose time to live ends between the two derivations of its batch
    makes the preparation fail, and the group's failure makes the node refuse
    writes although nothing is wrong with its persistence. *)
Theorem expiry_during_preparation_stops_writes :
  match process_commit_group late_world Always Answered (fresh_server []) (fresh_server [])
          [OpCommand [bs "SET"; bs "k"; bs "v"; bs "EX"; bs "1"]] store_new with
  | Some (_, (p, GroupRejected e)) => e = err_became_empty /\ accepting_writes p = false /\ sequence p = 0
  | _ => False
  end.
Proof. vm_compute. repeat split. Qed.


Lemma admit_enforces_limits_witness :
  exists st' a' r,
    store_admit (fun _ => still) (fun _ => 0) [bs "k"] (mkAttempt demo_numbers ∅ (Some 0) None [] true)
      (store_with_maxmemory 10 AllKeysLru) = Some (st', (a', r)).
Proof.
  destruct (admit_enforces_limits 100 (fun _ => still) (fun _ => 0) [bs "k"]
    (mkAttempt demo_numbers ∅ (Some 0) None [] true) (store_with_maxmemory 10 AllKeysLru)
    (fun _ => still_before) engine_new_wf (fun _ => ex_intro _ 0 eq_refl)) as (st' & a' & r & E & _).
  exists st', a', r. exact E.
Defined.

Lemma submit_units_bounded_witness :
  0 < 1 /\ estimated_bytes (OpCommand [bs "GET"; bs "k"]) <= 1 * COMMIT_QUEUE_MEMORY_UNIT_BYTES /\
  1 * COMMIT_QUEUE_MEMORY_UNIT_BYTES <= COMMIT_QUEUE_MEMORY_BYTES.
Proof. exact (submit_units_bounded (OpCommand [bs "GET"; bs "k"]) 1 eq_refl). Defined.
