(* ===== verification/DurabilityTheorems.v ===== *)
(** * DurabilityTheorems: what persistence guarantees

    The properties of src/persistence/, each with an instance on concrete files. *)

From Stdlib Require Import ZArith Lia.
From Stdlib Require Import Strings.Byte.
From stdpp Require Import base gmap list strings numbers sorting.
From S2P Require Import Prelude Text Json JsonPath Value Shard ShardSpec Engine EngineSpec EngineMulti EngineActs EngineTrace StoreSnapshot Store Persistence Model Codec CodecSpec BinlogFile BinlogIo AppendSpec Recovery ManagedBinlog SnapshotWriter ReplicaState Runtime Compaction HistorySpec ManagedSpec SealSpec EntryEq StoreSpec ModelSpec SnapshotSpec RecoverySpec InstallSpec CommitSpec MaintenanceSpec Durability SyncSpec RuntimeSpec Demo.

Open Scope Z_scope.

Section Claims.
Context {CRC : Crc32} {GZ : Gzip} {JN : JsonNumber} {SJ : SerdeJson} {HO : HashOrder}.

(** Recovery from [fs] succeeds into any idle store, at any time up to [T], and
    shows the effects [F]. *)
Definition recovers (T : Z) (fs : Files) (F : list CommittedEffect) : Prop :=
  forall clks store, (forall i, clock_before (clks i) T) -> engine_ok (engine store) ->
    snapshot_active (engine store) = false ->
    exists fs' store' state, load_data_from_paths clks store fs = Some (fs', Ok (store', state)) /\ shows T store' F.

Lemma recoverable_recovers T fs F : recoverable T fs F -> recovers T fs F.
Proof.
  intros (w & entries & s & cs & e & bs & rs & tail & Hd & Hk) clks store Hc Hok Ha.
  destruct (load_data_spec T w fs entries s cs e bs rs tail Hd clks store Hc Hok Ha)
    as (fs' & store' & state & s' & Hload & _ & _ & _ & Hcell & _).
  exists fs', store', state. split; [done|]. intros k. by rewrite Hcell, Hk.
Qed.









(** Accepting a group returns, however often writes are interrupted or cut
    short and whatever becomes of the answer. *)
Theorem accept_terminates (policy : FsyncPolicy) (d : delivery) (batches : list (Z * CommittedBatch)) (threshold : Z)
    (r : CommitRuntime) :
  exists r' res, accept_next_batches policy d batches threshold r = Some (r', res).
Proof.
  pose proof (accept_returns policy d batches threshold r) as H.
  destruct (accept_next_batches policy d batches threshold r) as [[r' res]|]; [eauto|done].
Qed.

(** C22: appending to any storage that keeps the contract of [BinlogIoSpec] is
    all or nothing: on success the file ends with exactly the framed records,
    and they are on the disk under [Always]; when the append is rejected the
    contents are what they were; only an indeterminate failure may leave a
    prefix of the records. *)
Theorem append_all_or_nothing {St : Type} {IO : BinlogIo St} {SP : BinlogIoSpec St} (fuel : nat) (t t' : St)
    (records : list (Z * bytes)) (policy : FsyncPolicy) (res : result StorageFailure unit)
    (Hseq : Forall (fun s => 0 <= s <= U64_MAX) records.*1) (Hlen : Forall (fun b => 0 < len b) records.*2)
    (Hrun : append_binlog_records fuel t records policy = Some (t', res)) :
  match res with
  | Ok _ => contents t' = contents t ++ log records /\ (policy = Always -> disk t' = contents t')
  | Err f =>
    match disposition f with
    | Rejected => contents t' = contents t
    | Indeterminate => exists written, written `prefix_of` log records /\ contents t' = contents t ++ written
    end
  end.
Proof.
  destruct (append_records_spec fuel t records policy t' res Hseq Hlen Hrun) as [H _]. unfold append_outcome in H.
  destruct res as [u|f]; [by destruct H as (? & ? & _)|]. destruct (disposition f); by destruct H.
Qed.

(** Sealing a generation keeps every batch, in each of the states a crash
    or a failed call can leave: a success and an attempt that changed nothing
    leave the runtime's files complete, and an indeterminate outcome leaves
    files from which the same state is recovered. *)
Theorem sealing_keeps_history (T : Z) (r : CommitRuntime) (F : list CommittedEffect)
    (w : Z) (entries : list (bytes * DataEntry)) (s : Z) (cs : list chunk) (e : Z)
    (bs : list CommittedBatch) (rs : list (Z * bytes)) (m' : ManagedBinlogFile) (res : result BinlogRotationError Z)
    (Hstored : stored_as T r F w entries s cs e bs rs) (Hroom : len cs < MAX_BINLOG_SEGMENTS)
    (Hrun : m_seal_active (rt_binlog r) (rt_offset r) = (m', res)) :
  match res with
  | Ok n => n = len (log rs) /\ stored T (set_binlog m' r) F /\ active_contents m' = []
  | Err (RotationUnchanged _) => stored T (set_binlog m' r) F /\ active_contents m' = active_contents (rt_binlog r)
  | Err (RotationIndeterminate _) => recoverable T (m_files m') F
  end.
Proof.
  pose proof (seal_spec T r F w entries s cs e bs rs Hstored Hroom m' res Hrun) as H.
  destruct res as [n|[err|err]]; [| |done].
  - destruct H as [(cs' & e' & bs' & rs' & Hst & _ & Hnil & _) Hn]. destruct (Hnil eq_refl) as [-> ->].
    split; [done|]. split; [by exists w, entries, s, cs', e', [], []|].
    destruct Hst as (_ & Hf & _). unfold active_contents. cbn [rt_binlog set_binlog] in Hf. by rewrite Hf.
  - split; [|by apply (unchanged_active T r F w entries s cs e bs rs Hstored m' err)].
    destruct H as (cs' & e' & bs' & rs' & Hst & _). by exists w, entries, s, cs', e', bs', rs'.
Qed.

(** Installing a snapshot never leaves recovery without one: whichever
    call fails, the snapshot that recovery reads is the complete new one or the
    one before, a reported success means the new one, and no other file is
    touched. *)
Theorem snapshot_install_atomic (entries : list (bytes * DataEntry)) (watermark : Z) (m m' : ManagedBinlogFile)
    (res : result PersistenceError unit) (Hrun : write_snapshot_file entries watermark m = (m', res)) :
  rest_kept (m_files m) (m_files m') /\
  ((current_snapshot (m_files m') = current_snapshot (m_files m) /\ res <> Ok tt) \/
   exists records, snapshot_records entries = Ok records /\
     current_snapshot (m_files m') = Some (gzip (snapshot_header watermark ++ records))).
Proof. by destruct (write_snapshot_spec entries watermark m m' res Hrun) as (? & _ & _ & ?). Qed.

(** A committed batch survives its way through the log: the framed record
    that is appended for it is the length of the record and the record, which
    decodes to the sequence, an intact checksum and a payload that decodes to
    the batch, for every kind of value. *)
Theorem committed_batch_roundtrip (clk : clock) (batch : CommittedBatch) (payload output out : bytes) (sequence : Z)
    (Hok : Forall effect_ok (effects batch)) (Henc : encode_committed_batch batch = Ok payload)
    (Hseq : 0 <= sequence <= U64_MAX)
    (Hframe : encode_framed_versioned_binlog_record_into sequence payload output = Ok out) :
  exists record, out = output ++ be32 (len record) ++ record /\ len record <= MAX_BINLOG_RECORD_SIZE /\
    decode_binlog_record record = Ok (mkVersioned sequence payload Checksummed) /\
    decode_committed_batch clk payload = Ok batch.
Proof.
  destruct (batch_roundtrip clk batch payload Hok Henc) as [Hdec Hlen].
  apply encode_framed_spec in Hframe as (-> & Hs & Hl). exists (record_bytes sequence payload).
  rewrite len_record_bytes. unfold frame_bytes. split_and!; [done|lia| |done].
  apply record_roundtrip; lia.
Qed.

(** Scanning a log that was cut anywhere, by a crash or an interrupted
    append, terminates without an error of its own: it visits exactly the
    records that are complete, in order, reports where they end, and reports a
    torn tail exactly when bytes are left over. *)
Theorem cut_log_scanned {St : Type} (visitor : St -> bytes -> option (result PersistenceError St))
    (records : list (Z * bytes)) (p q : bytes) (s : St)
    (Hlog : Forall loggable records) (Hcut : log records = p ++ q) :
  exists complete rest tail, records = complete ++ rest /\ p = log complete ++ tail /\
    (rest = [] -> tail = []) /\
    for_each_binlog_record visitor (Some p) s =
      match visits visitor s complete with
      | Some (Ok s') => Some (Ok (s', (len (log complete), bool_decide (tail <> []))))
      | Some (Err e) => Some (Err e)
      | None => None
      end.
Proof.
  destruct (log_prefix records p q Hcut) as (complete & rest & tail & -> & -> & Ht).
  exists complete, rest, tail. split_and!; [done|done|by intros ->|].
  rewrite (for_each_log visitor complete rest tail s Hlog Ht). unfold ends_after.
  by destruct (visits visitor s complete) as [[]|].
Qed.

(** The replica state file.  Whatever fails while a state is written, the
    file read afterwards is the one before or the complete new one, a success
    means the new one, and reading the new one gives the state back; a baseline
    that does not match the snapshot reads as an unfinished installation. *)
Theorem replica_state_durable (state : DurableReplicaState) (m m' : ManagedBinlogFile)
    (res : result PersistenceError unit) (watermark : Z)
    (Hok : state_ok state) (Hrun : write_durable_replica_state state m = (m', res)) :
  (forall name, name <> replica_state_path -> name <> replica_state_temp_path ->
    m_files m' !! name = m_files m !! name) /\
  ((m_files m' !! replica_state_path = m_files m !! replica_state_path /\ res <> Ok tt) \/
   load_durable_replica_state (m_files m') watermark = Ok (Some (seen_at watermark state))).
Proof.
  destruct (write_state_spec state m m' res Hrun) as (Hk & _ & _ & Hor). split; [done|].
  destruct Hor as [?|Hnew]; [by left|right]. by apply replica_state_roundtrip.
Qed.



End Claims.

(** ** Instances *)


Lemma store_new_idle : snapshot_active (engine store_new) = false.
Proof. reflexivity. Qed.

(** What two recoveries show is the same. *)
Lemma recovers_agree T fs F F' :
  100 <= T -> recovers T fs F -> recovers T fs F' -> forall k, fold_left (effect_on T k) F None = fold_left (effect_on T k) F' None.
Proof.
  intros HT H1 H2 k.
  assert (Hc : forall i : nat, clock_before ((fun _ => still) i) T) by (intros i j; unfold still; lia).
  destruct (H1 _ store_new Hc store_new_ok store_new_idle) as (fs1 & st1 & state1 & E1 & S1).
  destruct (H2 _ store_new Hc store_new_ok store_new_idle) as (fs2 & st2 & state2 & E2 & S2).
  pose proof (eq_trans (eq_sym E1) E2) as E. clear E1 E2. injection E as _ <- _. rewrite <- S1. apply S2.
Qed.

(** C39: rolling back the first append after a rollover deletes the sealed
    generations.  The batch is rejected, the error says it was durably rolled
    back and the runtime keeps accepting writes, but the history that was
    acknowledged before is gone: recovery succeeds without it. *)
Theorem rollback_deletes_sealed_history :
  exists r r' error, stored 100 r (effects batch1) /\
    accept_next_batches EverySec Answered [(2, batch2)] 1000 r = Some (r', Err error) /\
    is_indeterminate error = false /\ rt_accepting_writes r' = true /\ rt_offset r' = 1 /\
    recovers 100 (m_files (rt_binlog r)) (effects batch1) /\
    recovers 100 (m_files (rt_binlog r')) [] /\ ~ recovers 100 (m_files (rt_binlog r')) (effects batch1).
Proof.
  set (r := sealed_runtime [Done; Partial 5; Fails io_failure false]).
  assert (Hst : stored 100 r (effects batch1)).
  { exists 0, [], 1, [mkChunk 1 [batch1] log1], 2, [], []. apply (sealed_stored _). }
  assert (Hb : match accept_next_batches EverySec Answered [(2, batch2)] 1000 r with
    | Some (r', Err error) => negb (is_indeterminate error) && rt_accepting_writes r' && (rt_offset r' =? 1)
        && bool_decide (m_files (rt_binlog r') = {[ binlog_path := [] ]})
    | _ => false
    end = true) by (vm_compute; reflexivity).
  destruct (accept_next_batches EverySec Answered [(2, batch2)] 1000 r) as [[r' [m|error]]|] eqn:E; try discriminate Hb.
  apply andb_prop in Hb as [Hb Hf]. apply andb_prop in Hb as [Hb Ho]. apply andb_prop in Hb as [Hi Ha].
  apply bool_decide_eq_true in Hf. apply Z.eqb_eq in Ho. apply negb_true_iff in Hi.
  exists r, r', error. rewrite Hf. clearbody r.
  assert (Hnil : recovers 100 {[ binlog_path := [] ]} []).
  { apply recoverable_recovers. exists 0, [], 1, [], 1, [], [], []. split; [apply active_only_directory|done]. }
  split; [exact Hst|]. split; [exact E|]. split; [exact Hi|]. split; [exact Ha|]. split; [exact Ho|].
  split; [exact (recoverable_recovers _ _ _ (stored_recoverable _ _ _ Hst))|]. split; [exact Hnil|].
  intros H. pose proof (recovers_agree 100 _ _ _ ltac:(lia) Hnil H (bs "a")) as Heq.
  change (None = Some (mkPersistent demo_numbers (Blob (bs "1")) None)) in Heq. discriminate Heq.
Qed.

(** Recovery refuses the files with this message. *)
Definition refused (clks : nat -> clock) (store : ShardedStore) (fs : Files) (message : bytes) : bool :=
  match load_data_from_paths clks store fs with
  | Some (_, Err e) => bytes_eqb (pe_message e) message
  | _ => false
  end.

Lemma refused_spec clks store fs message :
  refused clks store fs message = true ->
  exists fs' e, load_data_from_paths clks store fs = Some (fs', Err e) /\ pe_message e = message.
Proof.
  unfold refused. destruct (load_data_from_paths clks store fs) as [[fs' [x|e]]|]; [done| |done].
  destruct (bytes_eqb_spec (pe_message e) message); [by exists fs', e|done].
Qed.

(** A segment that cannot be removed blocks the next start.  The cleanup
    after a compaction skips it and removes the later ones, which leaves a gap;
    the directory recovered before, and recovery refuses it afterwards. *)
Theorem partial_cleanup_blocks_recovery :
  exists r r' cleanup, refresh_segment_catalog still r = (r', Ok cleanup) /\ failed_files cleanup = 1 /\
    recovers 100 (m_files (rt_binlog r)) (snapshot_effects entries2 ++ effects batch3) /\
    exists fs' e, load_data_from_paths (fun _ => still) store_new (m_files (rt_binlog r')) = Some (fs', Err e) /\
      pe_message e = bs "Non-contiguous binlog history: sequence 3 follows 1".
Proof.
  set (r := set_watermark 2 (set_segments 0 2 (CommitRuntime_new
    (mkManaged (covered_files (log log3 ++ tail4)) (Some 0) (log log3) [Done; Fails io_failure false]) 3))).
  exists r, (refresh_segment_catalog still r).1, (mkCleanup 1 52 1 1). split_and!.
  - vm_compute. reflexivity.
  - reflexivity.
  - apply recoverable_recovers. exists 2, entries2, 1, chunks2, 3, [batch3], log3, tail4.
    split; [apply covered_directory|done].
  - apply refused_spec. vm_compute. reflexivity.
Qed.





Lemma append_all_or_nothing_witness :
  exists m', append_binlog_records 100 (rt_binlog (sealed_runtime [])) log2 Always = Some (m', Ok tt) /\
    active_contents m' = log log2.
Proof.
  assert (Hb : match append_binlog_records 100 (rt_binlog (sealed_runtime [])) log2 Always with
    | Some (_, Ok _) => true | _ => false end = true) by (vm_compute; reflexivity).
  destruct (append_binlog_records 100 (rt_binlog (sealed_runtime [])) log2 Always) as [[m' [[]|e]]|] eqn:E;
    try discriminate Hb.
  destruct (append_all_or_nothing 100 (rt_binlog (sealed_runtime [])) m' log2 Always (Ok tt)) with (3 := E) as [H _].
  - repeat constructor; vm_compute; discriminate.
  - repeat constructor; vm_compute; discriminate.
  - exists m'. split; [reflexivity|exact H].
Defined.

Lemma sealing_keeps_history_witness :
  exists m' n, m_seal_active (rt_binlog (active_runtime [])) 1 = (m', Ok n) /\
    stored 100 (set_binlog m' (active_runtime [])) (effects batch1).
Proof.
  assert (Hb : match m_seal_active (rt_binlog (active_runtime [])) 1 with
    | (_, Ok _) => true | _ => false end = true) by (vm_compute; reflexivity).
  destruct (m_seal_active (rt_binlog (active_runtime [])) 1) as [m' [n|e]] eqn:E; try discriminate Hb.
  destruct (sealing_keeps_history 100 (active_runtime []) _ _ _ _ _ _ _ _ m' (Ok n) (active_stored _)) with (2 := E)
    as (_ & H & _); [vm_compute; reflexivity|].
  exists m', n. split; [reflexivity|exact H].
Defined.

(** A rename that fails after the previous snapshot became the backup. *)
Definition failing_rename : ManagedBinlogFile :=
  mkManaged (covered_files []) (Some 0) [] [Done; Done; Done; Done; Fails io_failure false].

Lemma snapshot_install_atomic_witness :
  exists m' e, write_snapshot_file entries2 3 failing_rename = (m', Err e) /\
    rest_kept (m_files failing_rename) (m_files m') /\ current_snapshot (m_files m') = Some snapshot2.
Proof.
  assert (Hb : match write_snapshot_file entries2 3 failing_rename with
    | (m', Err _) => bool_decide (current_snapshot (m_files m') = Some snapshot2) | _ => false end = true)
    by (vm_compute; reflexivity).
  destruct (write_snapshot_file entries2 3 failing_rename) as [m' [u|e]] eqn:E; [discriminate Hb|].
  destruct (snapshot_install_atomic entries2 3 failing_rename m' (Err e) E) as [Hk _].
  apply bool_decide_eq_true in Hb. exists m', e. split; [reflexivity|]. split; [exact Hk|exact Hb].
Defined.

Lemma committed_batch_roundtrip_witness :
  exists record, log log1 = be32 (len record) ++ record /\
    decode_binlog_record record = Ok (mkVersioned 1 (payload batch1) Checksummed).
Proof.
  destruct (encoded batch1 ltac:(by left)) as (He & Hok & _).
  destruct (committed_batch_roundtrip still batch1 (payload batch1) [] (log log1) 1 Hok He) as (record & H1 & _ & H2 & _).
  - unfold U64_MAX. lia.
  - vm_compute. reflexivity.
  - exists record. split; [exact H1|exact H2].
Defined.

Lemma cut_log_scanned_witness :
  for_each_binlog_record (fun n _ => Some (Ok (n + 1))) (Some (log log1 ++ take 9 (log log2))) 0 =
  Some (Ok (1, (len (log log1), true))).
Proof.
  destruct (cut_log_scanned (fun n _ => Some (Ok (n + 1))) (log1 ++ log2) (log log1 ++ take 9 (log log2))
    (drop 9 (log log2)) 0) as (complete & rest & tail & _ & _ & _ & H).
  - repeat constructor; vm_compute; try reflexivity; discriminate.
  - rewrite log_app, <- (assoc_L (++)), take_drop. reflexivity.
  - rewrite H. rewrite <- H. vm_compute. reflexivity.
Defined.

Lemma replica_state_durable_witness :
  load_durable_replica_state
    (m_files (write_durable_replica_state (Ready (mkIdentity 7 3)) (rt_binlog (active_runtime []))).1) 3 =
  Ok (Some (Ready (mkIdentity 7 3))).
Proof.
  assert (Hb : match write_durable_replica_state (Ready (mkIdentity 7 3)) (rt_binlog (active_runtime [])) with
    | (_, Ok _) => true | _ => false end = true) by (vm_compute; reflexivity).
  destruct (write_durable_replica_state (Ready (mkIdentity 7 3)) (rt_binlog (active_runtime []))) as [m' [[]|e]] eqn:E;
    try discriminate Hb.
  destruct (replica_state_durable (Ready (mkIdentity 7 3)) (rt_binlog (active_runtime [])) m' (Ok tt) 3) as [_ [[_ H]|H]].
  - vm_compute. repeat split; discriminate.
  - exact E.
  - destruct (H eq_refl).
  - exact H.
Defined.



