(* ===== verification/ReplicaTheorems.v ===== *)
(** * ReplicaTheorems: what replication guarantees

    The properties of the streaming reader, the replication records, the two
    ends of a replication connection and the change of roles, each with an
    instance on concrete bytes. *)

From Stdlib Require Import ZArith Lia.
From Stdlib Require Import Strings.Byte.
From stdpp Require Import base gmap list strings numbers sorting.
From S2P Require Import Prelude Text Json JsonPath Value Shard ShardSpec Engine EngineSpec EngineMulti EngineActs EngineEvict EngineSnapshots EngineTrace StoreSnapshot Store Persistence Model Codec CodecSpec BinlogFile BinlogIo AppendSpec Recovery ManagedBinlog SnapshotWriter ReplicaState Runtime Compaction HistorySpec ManagedSpec SealSpec EntryEq StoreSpec ModelSpec SnapshotSpec RecoverySpec InstallSpec CommitSpec MaintenanceSpec Durability SyncSpec RuntimeSpec Resp RespReader ReplicationWire ReplicationStream Admission Server ServerSpec ReplicaSpec Replication ReplicationSpec ConnectionSpec Demo.

Open Scope Z_scope.

(** ** Unreachable masters *)

(** Since when the master is unreachable after [tries], newest first. *)
Fixpoint unreachable_after (tries : list (Z * attempt)) : option Z :=
  match tries with
  | [] => None
  | (now, a) :: earlier => note_attempt now a (unreachable_after earlier)
  end.

Lemma unreachable_since tries since :
  unreachable_after tries = Some since ->
  exists recent a earlier, tries = recent ++ (since, a) :: earlier /\ at_unreachable a = true /\
    Forall (fun t : Z * attempt => at_unreachable t.2 = true /\ at_began t.2 = false) recent.
Proof.
  induction tries as [|[now a] tries IH]; [done|]. cbn [unreachable_after]. unfold note_attempt.
  destruct (at_unreachable a) eqn:Eu; [|done]. destruct (at_began a) eqn:Eb.
  - intros [= <-]. by exists [], a, tries.
  - destruct (unreachable_after tries) as [t|].
    + intros [= ->]. destruct (IH eq_refl) as (recent & a0 & earlier & -> & Ha & Hr).
      exists ((now, a) :: recent), a0, earlier. split; [done|]. split; [done|]. by constructor.
    + intros [= <-]. by exists [], a, tries.
Qed.

Lemma next_backoff_range a backoff :
  MIN_BACKOFF_SECS <= backoff <= MAX_BACKOFF_SECS -> MIN_BACKOFF_SECS <= next_backoff a backoff <= MAX_BACKOFF_SECS.
Proof. unfold next_backoff, MIN_BACKOFF_SECS, MAX_BACKOFF_SECS. destruct (_ || _); lia. Qed.

Section Claims.
Context {CRC : Crc32} {GZ : Gzip} {JN : JsonNumber} {SJ : SerdeJson} {HO : HashOrder}.

Lemma auto_promoted flush_answer now since enabled timeout (p p' : Persistence) :
  maybe_auto_promote_replica flush_answer now since enabled timeout p = (p', true) ->
  enabled = true /\ is_replica p' = false /\ promote_to_master p' = true /\
  exists t, since = Some t /\ timeout <= now - t.
Proof.
  unfold maybe_auto_promote_replica. destruct enabled; [|done]. cbn [negb orb].
  destruct since as [t|]; [|done]. destruct (Z.leb_spec timeout (now - t)) as [Ht|]; [|done]. cbn [negb].
  unfold commit_replica_promotion. destruct (negb (replication_ready p)); [done|].
  destruct (binlog_or_fail_stop _ _ p) as [p1 [u|error]]; [|done].
  destruct (on_binlog _ p1) as [p2 [u2|error]]; [|done]. intros [= <-]. split_and!; try done. by exists t.
Qed.

Lemma rounds_spec policy config rounds backoff0 since tries0 re0 st st' re backoff tries e :
  run_rounds policy config rounds backoff0 since tries0 re0 st = Some (st', (re, backoff, tries, e)) ->
  MIN_BACKOFF_SECS <= backoff0 <= MAX_BACKOFF_SECS -> since = unreachable_after tries0 ->
  MIN_BACKOFF_SECS <= backoff <= MAX_BACKOFF_SECS /\
  (e = ReplicaPromoted ->
   rc_auto_failover config = true /\ is_replica (re_server re) = false /\ promote_to_master (re_server re) = true /\
   exists now recent since a earlier, fst <$> head tries = Some now /\ tries = recent ++ (since, a) :: earlier /\
     rc_failover_timeout config <= now - since /\ at_unreachable a = true /\
     Forall (fun t : Z * attempt => at_unreachable t.2 = true /\ at_began t.2 = false) recent).
Proof.
  revert backoff0 since tries0 re0 st. induction rounds as [|rd rounds IH]; intros backoff0 since tries0 re0 st; cbn [run_rounds].
  { intros [= <- <- <- <- <-] Hb _. by split. }
  destruct (stop_requested _); [intros [= <- <- <- <- <-] Hb _; by split|].
  unfold mbind, prog_bind at 1. destruct (try_round policy config rd re0 st) as [[st1 [re1 a]]|]; [|done].
  destruct (at_began a && _); [intros [= <- <- <- <- <-] Hb _; by split|].
  set (since1 := note_attempt (rd_now rd) a since).
  destruct (maybe_auto_promote_replica _ _ since1 _ _ _) as [p1 promoted] eqn:Ep. destruct promoted.
  - intros [= <- <- <- <- <-] Hb Hsince. split; [done|]. intros _.
    apply auto_promoted in Ep as (Hen & Hr & Hpm & t & Ht & Hle). split; [done|]. split; [done|]. split; [done|].
    assert (Hu : unreachable_after ((rd_now rd, a) :: tries0) = Some t) by (cbn [unreachable_after]; by rewrite <- Hsince).
    destruct (unreachable_since _ _ Hu) as (recent & a0 & earlier & H1 & H2 & H3).
    by exists (rd_now rd), recent, t, a0, earlier.
  - destruct (stop_requested _); [intros [= <- <- <- <- <-] Hb _; by split|].
    intros Hrun Hb Hsince. eapply IH; [exact Hrun|by apply next_backoff_range|]. unfold since1. by rewrite Hsince.
Qed.

(** C4: whatever part of the master's stream arrives and whatever fails on the
    replica, a connection returns, and afterwards the replica's store and files
    are at a point of the master's history, the one it resumes with, or its
    store is as before and it does not count as synchronized; a connection that
    delivered everything and met no failure on the replica has brought it to
    the master's last batch. *)
Theorem replica_follows_master (T : Z) (h : history) (replid last c last' : Z) (clkM : clock) (p : Persistence)
    (stM stM' st : ShardedStore) (writes more : list bytes) (events : list live_event) (G : list CommittedEffect)
    (clk : nat -> nat -> clock) (policy : FsyncPolicy) (ans : answers) (authenticated : bool) (re : Replica) (r : Reader)
    (Hclk : forall i j, clock_before (clk i j) T) (HclkM : clock_before clkM T)
    (Hmaster : serving T h replid p stM) (Hreplica : resuming T h replid G st re)
    (Hinit : serve_initial clkM replid (re_replid re) (re_offset re) p stM = Some (stM', Ok (writes, last)))
    (Hpublished : Forall (of_history h) (published events)) (Hordered : consecutive c (published events))
    (Hsubscribed : c <= last + 1) (Hlive : serve_stream true last events = Ok (more, last'))
    (Hcut : stream r `prefix_of` concat writes ++ concat more) (Hlen : len (concat writes ++ concat more) <= I64_MAX) :
  connected T h replid last' (concat writes ++ concat more) st re r
    (serve_connection clk policy ans authenticated re r st).
Proof. by eapply (connection_spec T h replid clkM p stM stM' writes last c events more last' G). Qed.


(** C6: a full synchronization that succeeds replaces store and files by the
    dump, at its sequence and with the upstream's identity on file; one that
    fails leaves the store as it was, is not synchronized, and its files hold
    the old history, or say that no baseline is complete, or hold the complete
    new one. *)
Theorem full_sync_atomic (T : Z) (F : list CommittedEffect) (clk : clock) (flush_answer truncate_answer : delivery)
    (replid s : Z) (entries : list (bytes * DataEntry)) (p : Persistence) (st : ShardedStore)
    (Hok : engine_ok (engine st)) (Hidle : snapshot_active (engine st) = false) (Hst : stored T (commit_runtime p) F)
    (Hs : 0 <= s <= U64_MAX) (Hnd : NoDup entries.*1) (Hents : Forall entry_ok entries) :
  exists st' p' res, install_full_sync clk flush_answer truncate_answer replid s entries p st = Some (st', (p', res)) /\
    match res with
    | Ok _ => engine_ok (engine st') /\
        (forall k, cell_at T st' k = logical_cell T ((list_to_map entries : gmap bytes DataEntry) !! k)) /\
        steady T (commit_runtime p') (snapshot_effects entries) /\ sequence p' = s /\
        replication_ready p' = true /\ upstream_replid p' = replid /\ backlog p' = [] /\
        state_file (rt_binlog (commit_runtime p')) = Some (render_state (Ready (mkIdentity replid s)))
    | Err _ => st' = st /\ sequence p' = sequence p /\
        (p' = p \/ replication_ready p' = false /\ interrupted T F replid s entries (commit_runtime p'))
    end.
Proof. by apply full_install_spec. Qed.

(** A master starts only on files that hold a complete baseline: while the
    state file says that an installation is under way, or names a baseline that
    the snapshot is not, a start as master is refused and a start as replica
    resumes with nothing; the files are left alone. *)
Theorem incomplete_baseline_not_served (m : ManagedBinlogFile) (watermark : Z) (state : DurableReplicaState)
    (Hok : state_ok state) (Hfile : state_file m = Some (render_state state))
    (Hincomplete : seen_at watermark state = Installing) :
  (exists error, prepare_replication_startup watermark false m = (m, Err error)) /\
  prepare_replication_startup watermark true m = (m, Ok None).
Proof.
  unfold prepare_replication_startup. rewrite (replica_state_roundtrip (m_files m) state watermark Hok Hfile), Hincomplete.
  split; [by eexists|done].
Qed.

(** C25: a promotion succeeds only on a synchronized replica, after its log is
    on the disk and the state file says that it is detached; one that fails
    leaves the role as it was.  In either case no committed batch is lost. *)
Theorem promotion_keeps_history (T : Z) (F : list CommittedEffect) (flush_answer : delivery) (p p' : Persistence)
    (res : result PersistenceError unit) (Hst : stored T (commit_runtime p) F)
    (Hrun : commit_replica_promotion flush_answer p = (p', res)) :
  stored T (commit_runtime p') F /\ sequence p' = sequence p /\
  match res with
  | Ok _ => replication_ready p = true /\ is_replica p' = false /\ promote_to_master p' = true /\
            replication_ready p' = false /\ upstream_replid p' = 0 /\
            state_file (rt_binlog (commit_runtime p')) = Some (render_state Detached) /\
            m_disk (rt_binlog (commit_runtime p')) = active_contents (rt_binlog (commit_runtime p'))
  | Err _ => is_replica p' = is_replica p /\ promote_to_master p' = promote_to_master p
  end.
Proof. by eapply promotion_spec. Qed.

(** C26: a replica promotes itself only when failover is enabled and every
    attempt to reach the master for at least the failover timeout has failed
    without beginning a synchronization; the promoted node is a master, and
    between attempts it waits for one to thirty seconds. *)
Theorem failover_needs_silence (policy : FsyncPolicy) (config : ReplicaRuntimeConfig) (rounds : list round)
    (replid offset backoff : Z) (tries : list (Z * attempt)) (p : Persistence) (re : Replica) (st st' : ShardedStore)
    (e : replica_end)
    (Hrun : run_replica policy config rounds replid offset p st = Some (st', (re, backoff, tries, e))) :
  MIN_BACKOFF_SECS <= backoff <= MAX_BACKOFF_SECS /\
  (e = ReplicaPromoted ->
   rc_auto_failover config = true /\ is_replica (re_server re) = false /\ promote_to_master (re_server re) = true /\
   exists now recent since a earlier, fst <$> head tries = Some now /\ tries = recent ++ (since, a) :: earlier /\
     rc_failover_timeout config <= now - since /\ at_unreachable a = true /\
     Forall (fun t : Z * attempt => at_unreachable t.2 = true /\ at_began t.2 = false) recent).
Proof.
  unfold run_replica in Hrun. eapply rounds_spec in Hrun; [exact Hrun|unfold MIN_BACKOFF_SECS, MAX_BACKOFF_SECS; lia|done].
Qed.

End Claims.

(** C31: reading a command from a connection gives what the buffered decoder
    decides about the bytes of the connection, however they are cut into
    chunks: the same command or error, the same bytes left over; a connection
    that ends first is an error, or the end of the input between commands. *)
Theorem reader_equals_decoder (limits : RESPReadLimits) (r : Reader)
    (Hfit : limits_fit limits) (Hlen : len (stream r) <= I64_MAX) :
  command_read limits r (read_command_with_limits limits r).
Proof. by apply read_command_spec. Qed.

(** A read under time limits always returns, whatever the connection does:
    it gives exactly the command at the front of the stream when that command
    is complete, and otherwise the end of the input or an error. *)
Theorem timed_read_returns (limits : RESPReadLimits) (r r' : Reader) (x : result stop (option (list bytes)))
    (Hfit : limits_fit limits) (Hlen : len (stream r) <= I64_MAX)
    (Hrun : read_command_with_timeouts limits true r = (r', x)) :
  match decode_buffered_command (stream r) limits with
  | Ok (Some (command, n)) => x = Ok (Some command) /\ stream r' = drop (Z.to_nat n) (stream r)
  | _ => x = Ok None \/ exists e, x = Err (Failed e)
  end.
Proof. by apply read_timed_spec in Hrun as [_ H]. Qed.

Section Records.
Context {JN : JsonNumber} {SJ : SerdeJson} {HO : HashOrder}.

(** A committed batch sent as a record of chunks is read back as the batch
    and its sequence, with exactly what follows it left over; from a connection
    that is cut anywhere inside the record no batch is read. *)
Theorem replication_record_roundtrip (clk : clock) (s : Z) (batch : CommittedBatch) (record : ChunkedReplicationRecord)
    (rest : bytes) (r : Reader) (Hs : 0 < s <= U64_MAX) (Hok : Forall effect_ok (effects batch))
    (He : encode_replication_effect s batch = Ok record)
    (Hcut : stream r `prefix_of` concat (write_chunked_replication_record record) ++ rest)
    (Hlen : len (concat (write_chunked_replication_record record) ++ rest) <= I64_MAX) :
  let whole := concat (write_chunked_replication_record record) ++ rest in
  (exists r1, read_replication_command r = (r1, Ok (Some (header record))) /\ head (header record) = Some APPLYEFFECT /\
    ((exists r2, read_replication_effect clk (header record) r1 = Some (r2, Ok (s, batch)) /\ got r whole rest r2) \/
     (stream r <> whole /\ exists r2 error, read_replication_effect clk (header record) r1 = Some (r2, Err error)))) \/
  (stream r <> whole /\ exists r1 x, read_replication_command r = (r1, x) /\ forall f, x <> Ok (Some f)).
Proof. by apply effect_arrives. Qed.

End Records.

(** ** Instances *)

Definition chunked (l : list bytes) (e : ending) : Reader := mkReader [] l e.

Lemma chunked_whole b e : stream (chunked [b] e) `prefix_of` b.
Proof. unfold stream, chunked. cbn [buffered arriving concat app]. by rewrite app_nil_r. Qed.

Lemma reader_equals_decoder_witness :
  (read_command_with_limits CLIENT_RESP_LIMITS (chunked [take 3 get_frame; drop 3 get_frame ++ bs "PING"] Silent)).2 =
  Ok (Some [bs "GET"; bs "k"]).
Proof.
  destruct (reader_equals_decoder CLIENT_RESP_LIMITS (chunked [take 3 get_frame; drop 3 get_frame ++ bs "PING"] Silent))
    as [_ H].
  - vm_compute. repeat split; discriminate.
  - vm_compute. discriminate.
  - assert (Hd : decode_buffered_command (stream (chunked [take 3 get_frame; drop 3 get_frame ++ bs "PING"] Silent))
      CLIENT_RESP_LIMITS = Ok (Some ([bs "GET"; bs "k"], len get_frame))) by (vm_compute; reflexivity).
    rewrite Hd in H. apply H.
Defined.

Lemma timed_read_returns_witness :
  (read_command_with_timeouts CLIENT_RESP_LIMITS true (chunked [bs "GE"; bs "T"] Silent)).2 = Err (Failed err_frame_timeout) /\
  exists e, (read_command_with_timeouts CLIENT_RESP_LIMITS true (chunked [bs "GE"; bs "T"] Silent)).2 = Err (Failed e).
Proof.
  split; [vm_compute; reflexivity|].
  destruct (read_command_with_timeouts CLIENT_RESP_LIMITS true (chunked [bs "GE"; bs "T"] Silent)) as [r' x] eqn:E.
  pose proof (timed_read_returns CLIENT_RESP_LIMITS (chunked [bs "GE"; bs "T"] Silent) r' x) as H.
  assert (Hx : x <> Ok None) by (apply (f_equal snd) in E; vm_compute in E; by subst x).
  destruct H as [H|H]; [vm_compute; repeat split; discriminate|vm_compute; discriminate|exact E|done|exact H].
Defined.

Definition record1 : ChunkedReplicationRecord :=
  match encode_replication_effect 1 batch1 with Ok r => r | Err _ => mkRecord [] [] [] end.

Lemma replication_record_roundtrip_witness :
  exists r1 r2,
    read_replication_command (chunked (write_chunked_replication_record record1) Closed) = (r1, Ok (Some (header record1))) /\
    read_replication_effect still (header record1) r1 = Some (r2, Ok (1, batch1)) /\ stream r2 = [].
Proof.
  assert (Hs : stream (chunked (write_chunked_replication_record record1) Closed) =
    concat (write_chunked_replication_record record1) ++ []) by (vm_compute; reflexivity).
  destruct (replication_record_roundtrip still 1 batch1 record1 [] (chunked (write_chunked_replication_record record1) Closed))
    as [(r1 & E & _ & [(r2 & E2 & _ & _ & _ & Hr)|(Hne & _)])|(Hne & _)].
  - vm_compute. repeat split; discriminate.
  - apply (encoded batch1). by left.
  - vm_compute. reflexivity.
  - by rewrite Hs.
  - vm_compute. discriminate.
  - exists r1, r2. split; [exact E|]. split; [exact E2|]. exact (Hr Hs).
  - destruct (Hne Hs).
  - destruct (Hne Hs).
Defined.

(** A replica that has installed nothing yet, and one that is synchronized. *)
Definition fresh_replica : Replica := mkReplica (fresh_server []) 0 0.
Definition ready_server (next : list ManagedBinlog.outcome) : Persistence :=
  mkPersistence demo_numbers (fresh_runtime next) [] [] false 7 true (ReplicaLifecycle_new true) true.

Lemma fresh_steady next : steady 100 (fresh_runtime next) [].
Proof. split; [apply fresh_stored|apply fresh_safe]. Qed.

Lemma fresh_shows : shows 100 store_new [].
Proof. intros k. apply cell_at_new. Qed.

Definition demo_history : history := mkHistory [] 0 [batch1].

Lemma demo_serving : serving 100 demo_history 7 (fresh_server []) store_new.
Proof.
  constructor.
  - unfold U64_MAX. lia.
  - apply store_new_ok.
  - apply entries_fit_new.
  - vm_compute. discriminate.
  - apply fresh_matches.
  - cbn. unfold sequence, U64_MAX. cbn. lia.
  - split; [vm_compute; discriminate|apply consecutive_nil].
  - constructor.
Qed.

Lemma demo_resuming : resuming 100 demo_history 7 [] store_new fresh_replica.
Proof.
  constructor.
  - split_and!; [apply store_new_ok|apply fresh_shows|reflexivity|apply fresh_steady].
  - reflexivity.
  - cbn. unfold U64_MAX. lia.
  - discriminate.
Qed.

Definition sent_first : list bytes * Z :=
  match serve_initial still 7 0 0 (fresh_server []) store_new with Some (_, Ok w) => w | _ => ([], 0) end.
Definition sent_live : list bytes * Z :=
  match serve_stream true 0 [Published (1, batch1); Beat] with Ok w => w | Err _ => ([], 0) end.

Lemma sent_first_spec :
  exists stM', serve_initial still 7 (re_replid fresh_replica) (re_offset fresh_replica) (fresh_server []) store_new =
    Some (stM', Ok (sent_first.1, 0)).
Proof.
  assert (Hb : match serve_initial still 7 0 0 (fresh_server []) store_new with
    | Some (_, Ok w) => bool_decide (w.2 = 0) | _ => false end = true) by (vm_compute; reflexivity).
  change (re_replid fresh_replica) with 0. change (re_offset fresh_replica) with 0. unfold sent_first.
  destruct (serve_initial still 7 0 0 (fresh_server []) store_new) as [[stM' [[writes last]|e]]|]; try discriminate Hb.
  apply bool_decide_eq_true in Hb. cbn [snd] in Hb. subst last. by exists stM'.
Qed.

Lemma sent_live_spec : serve_stream true 0 [Published (1, batch1); Beat] = Ok (sent_live.1, 1).
Proof. vm_compute. reflexivity. Qed.

Lemma sent_length : len (concat sent_first.1 ++ concat sent_live.1) <= I64_MAX.
Proof. vm_compute. discriminate. Qed.

Lemma demo_published : Forall (of_history demo_history) (published [Published (1, batch1); Beat]).
Proof.
  constructor; [|constructor]. split; [cbn; lia|]. split; [reflexivity|]. split; [cbn; unfold U64_MAX; lia|].
  apply (encoded batch1). by left.
Qed.

Lemma replica_follows_master_witness :
  connected 100 demo_history 7 1 (concat sent_first.1 ++ concat sent_live.1) store_new fresh_replica (chunked [concat sent_first.1 ++ concat sent_live.1] Closed)
    (serve_connection (fun _ _ => still) Always (mkAnswers Answered Answered (fun _ => Answered)) false fresh_replica
       (chunked [concat sent_first.1 ++ concat sent_live.1] Closed) store_new).
Proof.
  destruct sent_first_spec as [stM' E].
  apply (replica_follows_master 100 demo_history 7 0 1 1 still (fresh_server []) store_new stM' store_new sent_first.1
    sent_live.1 [Published (1, batch1); Beat] [] (fun _ _ => still) Always (mkAnswers Answered Answered (fun _ => Answered))
    false fresh_replica (chunked [concat sent_first.1 ++ concat sent_live.1] Closed) (fun _ _ => still_before) still_before demo_serving demo_resuming E
    demo_published).
  - apply consecutive_cons. split; [reflexivity|apply consecutive_nil].
  - lia.
  - exact sent_live_spec.
  - exact (chunked_whole (concat sent_first.1 ++ concat sent_live.1) Closed).
  - exact sent_length.
Defined.


Lemma full_sync_atomic_witness :
  exists st' p', install_full_sync still Answered Answered 7 2 entries2 (ready_server []) store_new = Some (st', (p', Ok tt)) /\
    sequence p' = 2 /\ replication_ready p' = true.
Proof.
  assert (Hb : match install_full_sync still Answered Answered 7 2 entries2 (ready_server []) store_new with
    | Some (_, (_, Ok _)) => true | _ => false end = true) by (vm_compute; reflexivity).
  destruct (full_sync_atomic 100 [] still Answered Answered 7 2 entries2 (ready_server []) store_new store_new_ok
    eq_refl (fresh_stored [])) as (st' & p' & res & E & H).
  - unfold U64_MAX. lia.
  - apply snapshot2_of.
  - apply snapshot2_of.
  - rewrite E in Hb. destruct res as [[]|e]; [|discriminate Hb]. exists st', p'. split; [exact E|]. split; apply H.
Defined.

Lemma incomplete_baseline_not_served_witness :
  prepare_replication_startup 3 true (mkManaged {[ replica_state_path := render_state (Ready (mkIdentity 7 2)) ]} None [] []) =
  (mkManaged {[ replica_state_path := render_state (Ready (mkIdentity 7 2)) ]} None [] [], Ok None).
Proof.
  apply (incomplete_baseline_not_served (mkManaged {[ replica_state_path := render_state (Ready (mkIdentity 7 2)) ]} None [] [])
    3 (Ready (mkIdentity 7 2))).
  - vm_compute. repeat split; discriminate.
  - vm_compute. reflexivity.
  - reflexivity.
Defined.

Lemma promotion_keeps_history_witness :
  exists p', commit_replica_promotion Answered (ready_server []) = (p', Ok tt) /\ stored 100 (commit_runtime p') [] /\
    is_replica p' = false.
Proof.
  assert (Hb : match commit_replica_promotion Answered (ready_server []) with (_, Ok _) => true | _ => false end = true)
    by (vm_compute; reflexivity).
  destruct (commit_replica_promotion Answered (ready_server [])) as [p' [[]|e]] eqn:E; [|discriminate Hb].
  destruct (promotion_keeps_history 100 [] Answered (ready_server []) p' (Ok tt) (fresh_stored []) E) as (H1 & _ & _ & H2 & _).
  exists p'. split; [reflexivity|]. split; [exact H1|exact H2].
Defined.

Definition silent_round (now : Z) : round :=
  mkRound None now (fun _ _ => still) (mkAnswers Answered Answered (fun _ => Answered)) Answered false.

Lemma failover_needs_silence_witness :
  exists st' re backoff tries,
    run_replica Always (mkReplicaConfig false true 15) [silent_round 30; silent_round 45] 7 0 (ready_server []) store_new =
      Some (st', (re, backoff, tries, ReplicaPromoted)) /\ is_replica (re_server re) = false.
Proof.
  assert (Hb : match run_replica Always (mkReplicaConfig false true 15) [silent_round 30; silent_round 45] 7 0
      (ready_server []) store_new with Some (_, (_, _, _, ReplicaPromoted)) => true | _ => false end = true)
    by (vm_compute; reflexivity).
  destruct (run_replica Always (mkReplicaConfig false true 15) [silent_round 30; silent_round 45] 7 0
    (ready_server []) store_new) as [[st' [[[re backoff] tries] e]]|] eqn:E; [|discriminate Hb].
  destruct e; try discriminate Hb. exists st', re, backoff, tries. split; [reflexivity|].
  destruct (failover_needs_silence Always (mkReplicaConfig false true 15) [silent_round 30; silent_round 45] 7 0 backoff tries
    (ready_server []) re store_new st' ReplicaPromoted E) as [_ H]. apply H. reflexivity.
Defined.
