(* ===== verification/ClientTheorems.v ===== *)
(** * ClientTheorems: what the server promises its clients

    The binary protocol and its connections, the connections of RESP clients,
    publish and subscribe, and the configuration, with the witnesses of the
    theorems at concrete states. *)

From Stdlib Require Import ZArith Lia.
From Stdlib Require Import Strings.Byte.
From stdpp Require Import base gmap list strings numbers sorting.
From S2P Require Import Prelude Text Json JsonPath Value Shard ShardSpec Engine EngineSpec EngineMulti EngineActs Store Persistence Model Codec CodecSpec BinlogIo Recovery ManagedBinlog Runtime HistorySpec ManagedSpec EntryEq StoreSpec ModelSpec CommitSpec Resp RespReader Execution ExecutionSpec Admission Server ServerSpec ServerInfo Obp Coordinator PubSub Config Client CoordinatorSpec CoordinatorGroups Routes ObpServer Session Demo.

Open Scope Z_scope.

(** ** The binary protocol *)

(** A frame that the encoder accepts is decoded to the same frame, whatever
    bytes follow it, and those are left in the buffer; from any part of it that
    is not the whole the decoder waits without consuming anything.  A frame that
    the encoder refuses leaves the buffer as it was. *)
Theorem obp_frame_roundtrip (f : OBPFrame) (buf : bytes) (Hwf : frame_wf f) :
  match encode f buf with
  | (buf', Ok _) => exists b, buf' = buf ++ b /\ len b <= MAX_OBP_FRAME_SIZE /\
      (forall more, decode (b ++ more) = (more, Ok (Some (normal f)))) /\
      (forall part rest, b = part ++ rest -> rest <> [] -> decode part = (part, Ok None))
  | (buf', Err _) => buf' = buf
  end.
Proof.
  destruct (encode_checks f buf) as [[-> Hfit]|(e & -> & _)]; [|done].
  exists (frame_bytes f). split; [done|]. split; [apply Hfit|]. split.
  - intros more. by apply decode_obp_frame.
  - intros part rest Hb Hr. by apply (decode_prefix f part rest).
Qed.

(** The decoder accepts nothing but encodings: a frame it returns encodes to
    exactly the bytes it consumed, in which it keeps every limit of the protocol.
    Otherwise it consumes nothing, and once it returned a frame or an error,
    bytes that arrive later do not change that. *)
Theorem obp_decoder_exact (buf more : bytes) :
  match decode buf with
  | (rest, Ok (Some f)) => fits f /\ encode f [] = (frame_bytes f, Ok tt) /\ buf = frame_bytes f ++ rest /\
      decode (buf ++ more) = (rest ++ more, Ok (Some f))
  | (buf', Ok None) => buf' = buf
  | (buf', Err e) => buf' = buf /\ decode (buf ++ more) = (buf ++ more, Err e)
  end.
Proof.
  destruct (decode buf) as [buf' [[f|]|e]] eqn:E.
  - destruct (decode_exact buf buf' f E) as (_ & Hfit & _ & Hb). split_and!; [done|by apply encode_fits|done|].
    by apply (decode_more buf more buf' (Ok (Some f)) E).
  - pose proof (decode_keeps buf) as H. by rewrite E in H.
  - pose proof (decode_keeps buf) as H. rewrite E in H. subst buf'. split; [done|]. by apply (decode_more buf more buf (Err e) E).
Qed.

Section Obp.
Context {CRC : Crc32} {GZ : Gzip} {JN : JsonNumber} {SJ : SerdeJson} {HO : HashOrder} {FT : FloatText} {DT : DebugText}.



End Obp.

(** ** Connections of RESP clients *)

Section Clients.
Context {CRC : Crc32} {GZ : Gzip} {JN : JsonNumber} {SJ : SerdeJson} {HO : HashOrder} {FT : FloatText}.


(** C20: until a client presents the password of a configured user it is served
    nothing.  Whatever it sends, on the way to that command or to the end of the
    connection the store, the server and the subscriptions are as they were, no
    background task has started, and every response was an error. *)
Theorem no_service_before_authentication (es : list session_environment) (users : gmap bytes bytes) (h : Hub) (c : session)
    (p : Persistence) (st : ShardedStore) (Hc : s_authenticated c = false) :
  exists k c' out a,
    handle_client (take k es) users h c p st = Some (st, (p, [], (h, c', out, a))) /\
    s_authenticated c' = false /\ Forall is_error out /\
    (handle_client es users h c p st = Some (st, (p, [], (h, c', out, a))) /\ (a = ServesOn \/ a = HangsUp)
     \/ a = ServesOn /\ (k < length es)%nat /\ presented users c').
Proof. by apply client_shut_out. Qed.

(** C21: a transaction runs exactly the commands of its queue or nothing.  After
    MULTI, commands are queued without an effect on the store or the server, in
    order; EXEC, in whatever state the server is by then, executes them as one
    transaction when there are at most 1024 of them and they take at most 16 MiB,
    and otherwise aborts and changes nothing. *)
Theorem multi_exec_runs_queue (users : gmap bytes bytes) (h h' : Hub) (c : session) (e0 e' : session_environment)
    (commands : list (session_environment * list bytes)) (p p' : Persistence) (st st' : ShardedStore)
    (Ha : s_authenticated c = true) (Ht : s_transaction c = None)
    (Hcommands : Forall (fun x => controls x.2 = false) commands) :
  exists c1 out, send_all users h c ((e0, [bs "MULTI"]) :: commands) p st = Some (st, (p, [], (h, c1, out))) /\
    length out = S (length commands) /\ with_transaction None c1 = c /\
    client_command e' users h' c1 [bs "EXEC"] p' st' =
      if decide (within commands.*2)
      then ('(p, tasks, v) ← execute_transaction (command_surrounding e') commands.*2 (is_replica p') p';
            mret (p, tasks, (h', say c v))) st'
      else Some (st', (p', [], (h', say c (ERR "EXECABORT transaction discarded because its queue limit was exceeded")))).
Proof.
  assert (Hc : forall q, with_transaction None (with_transaction q c) = c) by (destruct c as [r a t pe]; cbn in Ht; by subst t).
  destruct (send_queued users h (with_transaction (Some queue_new) c) commands queue_new p st) as (q & out & E & Hlen & _ & _ & Hq);
    [done|done|apply queue_new_ok|done|].
  exists (with_transaction (Some q) c), (SimpleString (bs "OK") :: out).
  assert (Hm : client_command e0 users h c [bs "MULTI"] p st =
    Some (st, (p, [], (h, say (with_transaction (Some queue_new) c) (SimpleString (bs "OK")))))).
  { unfold client_command. cbn [arg_or_empty]. change (eq_ignore_ascii_case _ (bs "AUTH")) with false.
    change (eq_ignore_ascii_case _ (bs "MULTI")) with true. by rewrite Ha, Ht. }
  cbn [send_all]. rewrite (bind_run _ _ _ _ _ Hm), (bind_run _ _ _ _ _ E). split; [done|]. split; [cbn; by f_equal|].
  split; [apply Hc|]. specialize (Hq eq_refl). change (queued queue_new) with (@nil (list bytes)) in Hq. cbn [app] in Hq.
  unfold client_command. change (eq_ignore_ascii_case _ (bs "AUTH")) with false.
  change (eq_ignore_ascii_case _ (bs "MULTI")) with false. change (eq_ignore_ascii_case _ (bs "DISCARD")) with false.
  change (eq_ignore_ascii_case _ (bs "EXEC")) with true.
  change (s_authenticated (with_transaction (Some q) c)) with (s_authenticated c). rewrite Ha.
  cbn [negb s_transaction with_transaction]. case_decide; [destruct Hq as (-> & -> & _)|rewrite Hq]; by rewrite Hc.
Qed.

End Clients.

(** ** Publish and subscribe *)

Section Messages.
Context {HO : HashOrder}.


(** A subscriber is sent messages in the order they were published and none
    twice; and when it keeps its channels and at most 4096 messages were published
    since its receiver was created, it was sent every message on them up to its
    position in the broadcast channel. *)
Theorem messages_delivered_in_order (id : Z) (k : nat) (mine : gset bytes) (sent : list (bytes * bytes)) (s s' : pubsub)
    (l : list pubsub_event) (Hid : id <= next_subscriber_id (hub s)) (Hk : (k <= length (pubsub_tx (hub s)))%nat)
    (Hlive : live s !! id = Some (mkSubscriber mine (Some k) sent)) (Hrun : pubsub_run s l s') :
  match live s' !! id with
  | Some sub =>
    exists k' new, cursor sub = Some k' /\ sent_to sub = sent ++ new /\
      new `sublist_of` take (k' - k) (drop k (pubsub_tx (hub s'))) /\
      (Forall (same_channels id) l -> (length (pubsub_tx (hub s')) <= k + PUBSUB_CAPACITY)%nat ->
       new = filter (fun m : bytes * bytes => m.1 ∈ mine) (take (k' - k) (drop k (pubsub_tx (hub s')))))
  | None => True
  end.
Proof.
  assert (Hd : delivers id k sent s').
  { apply (delivers_run id k sent s l); [done| |done]. unfold delivers. rewrite Hlive. exists k, [].
    cbn [cursor sent_to]. rewrite app_nil_r. split_and!; try done. apply sublist_nil_l. }
  assert (Ha : Forall (same_channels id) l -> (length (pubsub_tx (hub s')) <= k + PUBSUB_CAPACITY)%nat ->
    delivers_all id k mine sent s').
  { intros Hc Hcap. apply (delivers_all_run id k mine sent s l); try done. unfold delivers_all. rewrite Hlive.
    split; [done|]. exists k. cbn [cursor sent_to]. rewrite Nat.sub_diag. rewrite take_0. cbn. by rewrite app_nil_r. }
  unfold delivers, delivers_all in *. destruct (live s' !! id) as [sub|]; [|done].
  destruct Hd as (k' & new & H1 & H2 & H3 & H4). exists k', new. split_and!; try done.
  intros Hc Hcap. destruct (Ha Hc Hcap) as (_ & j & J1 & _ & J2). rewrite H1 in J1. injection J1 as <-.
  rewrite H3 in J2. by apply app_inv_head in J2.
Qed.

(** A connection that is lost while its first SUBSCRIBE is confirmed is
    counted as a subscriber of the channel for as long as the server runs:
    nothing that any connection does removes it from the table. *)
Theorem unconfirmed_subscriber_stays (channel : bytes) (rest : list bytes) (l : list pubsub_event) (s : pubsub)
    (Hrun : pubsub_run (mkPubsub hub_new ∅) (ESubscribe (channel :: rest) (fun _ => false) :: l) s) :
  1 ∈ followers (hub s) channel /\ live s !! 1 = None /\ listeners s channel ≠ followers (hub s) channel.
Proof.
  inversion Hrun as [|s0 e s1 l' s2 H1 H2]; subst. assert (Hab : abandoned 1 channel s).
  { apply (abandoned_run 1 channel s1 l); [|done]. inversion H1; subst; cbn in *; simplify_eq.
    match goal with H : take_id _ = _ |- _ => injection H as <- <- end. constructor; cbn; [|done|done]. unfold followers, register. cbn. rewrite lookup_insert_eq. by apply elem_of_union_l, elem_of_singleton. }
  destruct Hab as [Hf Hd _]. split; [done|]. split; [done|]. intros Heq. rewrite <- Heq in Hf. unfold listeners in Hf.
  apply elem_of_dom in Hf as [sub [Hs _]%map_lookup_filter_Some]. congruence.
Qed.

End Messages.

(** ** The configuration *)

(** C34: a command line is accepted exactly when every argument is a known option
    with its value and the values pass the checks, and then every setting is the
    last value given for it, or else the environment's, or else the default; the
    port and the ports derived from it are ports, and the memory limit and the
    failover timeout fit their types. *)
Theorem config_reads_settings {IP : IpText} (args : list bytes) (env : bytes -> option bytes) :
  match ServerConfig_parse args env with
  | Ok c => recognised (drop 1 args) = true /\ acceptable (settings (drop 1 args)) env /\
      configured (settings (drop 1 args)) env c /\ config_bounds c
  | Err _ => recognised (drop 1 args) = true -> ~ acceptable (settings (drop 1 args)) env
  end.
Proof. apply parse_config_spec. Qed.

(** A [--user] without a colon only adds a warning, so a server whose users
    are all malformed starts with no users at all and serves everyone. *)
Theorem malformed_users_open_server {IP : IpText} (args : list bytes) (env : bytes -> option bytes) (c : ServerConfig)
    (Hparse : ServerConfig_parse args env = Ok c)
    (Hbad : Forall (fun v => split_once x3a v = None) (given (bs "--user") (settings (drop 1 args))))
    (Hpassword : password_text (settings (drop 1 args)) env = None) :
  users c = ∅ /\ auth_required (users c) = false.
Proof.
  pose proof (parse_config_spec args env) as H. rewrite Hparse in H. destruct H as (_ & _ & [_ _ Hu _ _ _ _ _ _ _ _] & _).
  assert (He : users c = ∅); [|by rewrite He].
  cbv zeta in Hu. rewrite Hpassword in Hu. rewrite Hu. clear Hu.
  induction Hbad as [|v l Hv _ IH]; [done|]. cbn [fold_left]. unfold add_given at 2. by rewrite Hv.
Qed.

(** ** The client library *)

(** C29: what the server answers is what a client reads.  A client within its
    limits reads the responses of the server in order, nested arrays included,
    however the connection cuts their bytes, and leaves what follows them; and from
    a response that is cut off anywhere it reads no value. *)
Theorem client_reads_responses (limits : RESPResponseLimits) (vs : list RESPValue) (r : Reader) (rest : bytes)
    (Hlimits : limits_sane limits) (Hframe : 0 <= max_response_frame_len limits)
    (Hvs : Forall (acceptable_response limits) vs) (Hr : stream r = concat (map encode_value vs) ++ rest) :
  (exists r', read_responses (length vs) limits r = (r', Ok (map seen vs)) /\ stream r' = rest) /\
  forall v part missing r2, v ∈ vs -> encode_value v = part ++ missing -> missing <> [] -> stream r2 = part ->
    forall w, (read_response limits r2).2 <> Ok (Some w).
Proof.
  split.
  - destruct (read_responses_here limits vs r rest Hlimits Hvs Hr) as (r' & E & Hs & _). by exists r'.
  - intros v part missing r2 Hin He Hne Hs. rewrite list.Forall_forall in Hvs.
    by apply (cut_response limits v r2 part missing Hlimits Hframe (Hvs v Hin)).
Qed.


(** Any arguments can be typed: the line that quotes them, with quotes and
    backslashes escaped, is split into exactly these arguments.  And the
    command-line client sends a command to a replica only when it does not
    write, and to one that is there. *)
Theorem command_line_roundtrip (arguments : list bytes) (replicas : nat) (index : Z) (input : bytes)
    (Hutf8 : Forall (fun a => Utf8.valid a = true) arguments) :
  parse_command_line (command_line arguments) = Ok arguments /\
  match (cli_round replicas index input).1 with
  | CliReplica i args =>
    (i < replicas)%nat /\ parse_command_line (trim_end input) = Ok args /\
    is_write_command (to_uppercase (arg_or_empty args 0)) = false
  | CliMaster args => parse_command_line (trim_end input) = Ok args /\ args <> []
  | CliExit => exists name, parse_command_line (trim_end input) = Ok [name]
  | CliSkip => parse_command_line (trim_end input) = Ok []
  | CliParseError e => parse_command_line (trim_end input) = Err e
  end.
Proof. split; [by apply parse_command_line_quoted|apply cli_round_routes]. Qed.

(** A trailing character that is escaped is trimmed before it is read. *)
Example escaped_space_refused :
  cli_round 0 0 (bs "SET k a\ " ++ [x0a]) = (CliParseError err_incomplete_escape, 0).
Proof. vm_compute. reflexivity. Qed.

(** ** Witnesses *)

#[local] Instance demo_debug : DebugText := {| debug_value v := match v with Blob b => bs "Blob(" ++ b ++ bs ")" | _ => bs "value" end |}.
#[local] Instance demo_ip : IpText := {| IpAddr := bytes; parse_ip b := if bytes_eqb b (bs "127.0.0.1") then Some b else None |}.

Definition demo_surrounding : surrounding :=
  mkSurrounding demo_numbers true false (fresh_server []) [] [] still_world Always Answered.
Definition demo_environment : session_environment :=
  mkSessionEnvironment demo_numbers demo_surrounding [] still Answered None (fun p => p) true.
Definition demo_users : gmap bytes bytes := {[ bs "default" := bs "secret" ]}.

Definition set_frame : OBPFrame := mkFrame x02 0 7 [bs "k"; bs "v"] None.

Lemma obp_frame_roundtrip_witness :
  frame_wf set_frame /\ len (encode set_frame []).1 = 25 /\
  match encode set_frame [] with
  | (b, Ok _) => decode (b ++ [x01]) = ([x01], Ok (Some set_frame))
  | _ => False
  end.
Proof.
  split; [by split|]. split; [reflexivity|].
  pose proof (obp_frame_roundtrip set_frame [] ltac:(by split)) as H.
  destruct (encode set_frame []) as [b [u|e]] eqn:E; [|discriminate E].
  destruct H as (b' & Hb & _ & Hd & _). cbn [app] in Hb. subst b'. exact (Hd [x01]).
Defined.








Definition demo_session (arriving : list bytes) (auth : bool) : session :=
  mkSession (mkReader [] arriving Closed) auth None None.
Definition set_command : list bytes := [bs "SET"; bs "k"; bs "v"].


(** GET before AUTH, then the wrong password, then the end of the connection. *)
Definition stranger : list bytes :=
  [bs "*2" ++ [x0d; x0a] ++ bs "$3" ++ [x0d; x0a] ++ bs "GET" ++ [x0d; x0a] ++ bs "$1" ++ [x0d; x0a] ++ bs "k" ++ [x0d; x0a];
   bs "*2" ++ [x0d; x0a] ++ bs "$4" ++ [x0d; x0a] ++ bs "AUTH" ++ [x0d; x0a] ++ bs "$1" ++ [x0d; x0a] ++ bs "x" ++ [x0d; x0a]].

Lemma no_service_before_authentication_witness :
  exists k c' out a,
    handle_client (take k [demo_environment; demo_environment; demo_environment]) demo_users hub_new
      (demo_session stranger false) (fresh_server []) store_new = Some (store_new, (fresh_server [], [], (hub_new, c', out, a))) /\
    s_authenticated c' = false /\ Forall is_error out.
Proof.
  destruct (no_service_before_authentication [demo_environment; demo_environment; demo_environment] demo_users hub_new
    (demo_session stranger false) (fresh_server []) store_new eq_refl) as (k & c' & out & a & E & Ha & He & _).
  by exists k, c', out, a.
Defined.

Lemma multi_exec_runs_queue_witness :
  exists c1 out,
    send_all demo_users hub_new (demo_session [] true)
      [(demo_environment, [bs "MULTI"]); (demo_environment, set_command); (demo_environment, [bs "GET"; bs "k"])]
      (fresh_server []) store_new = Some (store_new, (fresh_server [], [], (hub_new, c1, out))) /\
    length out = 3%nat /\
    client_command demo_environment demo_users hub_new c1 [bs "EXEC"] (fresh_server []) store_new =
    ('(p, tasks, v) ← execute_transaction demo_surrounding [set_command; [bs "GET"; bs "k"]] false (fresh_server []);
     mret (p, tasks, (hub_new, say (demo_session [] true) v))) store_new.
Proof.
  destruct (multi_exec_runs_queue demo_users hub_new hub_new (demo_session [] true) demo_environment demo_environment
    [(demo_environment, set_command); (demo_environment, [bs "GET"; bs "k"])] (fresh_server []) (fresh_server []) store_new
    store_new eq_refl eq_refl) as (c1 & out & E & Hl & _ & Hx).
  - repeat constructor.
  - exists c1, out. split; [exact E|]. split; [exact Hl|]. rewrite decide_True in Hx; [exact Hx|]. vm_compute. done.
Defined.

Definition news : bytes := bs "news".
Definition one_subscriber : pubsub := mkPubsub (mkHub [] 1 {[ news := {[1]} ]}) {[ 1 := mkSubscriber {[news]} (Some 0%nat) [] ]}.


Lemma messages_delivered_in_order_witness :
  exists s', pubsub_run one_subscriber [EPublish news (bs "a"); EPublish (bs "other") (bs "b"); EReceive 1] s' /\
    match live s' !! 1 with
    | Some sub => exists new, sent_to sub = [] ++ new /\ new `sublist_of` drop 0 (pubsub_tx (hub s'))
    | None => True
    end.
Proof.
  assert (Hrun : exists s', pubsub_run one_subscriber [EPublish news (bs "a"); EPublish (bs "other") (bs "b"); EReceive 1] s').
  { eexists. eapply run_cons; [apply step_publish|]. eapply run_cons; [apply step_publish|].
    eapply run_cons; [|apply run_nil]. eapply step_receive; reflexivity. }
  destruct Hrun as [s Hrun]. exists s. split; [exact Hrun|].
  pose proof (messages_delivered_in_order 1 0 {[news]} [] one_subscriber _
    [EPublish news (bs "a"); EPublish (bs "other") (bs "b"); EReceive 1] ltac:(done) ltac:(cbn; lia) eq_refl Hrun) as H.
  destruct (live s !! 1) as [sub|]; [|done]. destruct H as (k' & new & _ & Hs & Hsub & _). exists new. split; [exact Hs|].
  etrans; [exact Hsub|]. apply sublist_take.
Defined.

Lemma unconfirmed_subscriber_stays_witness :
  exists s, pubsub_run (mkPubsub hub_new ∅) [ESubscribe [news] (fun _ => false); EPublish news (bs "a")] s /\
    1 ∈ followers (hub s) news /\ live s !! 1 = None.
Proof.
  assert (Hrun : exists s, pubsub_run (mkPubsub hub_new ∅) [ESubscribe [news] (fun _ => false); EPublish news (bs "a")] s).
  { eexists. eapply run_cons; [eapply step_subscribe_fails; reflexivity|]. eapply run_cons; [apply step_publish|apply run_nil]. }
  destruct Hrun as [s Hrun]. exists s. split; [exact Hrun|].
  destruct (unconfirmed_subscriber_stays news [] [EPublish news (bs "a")] _ Hrun) as (H1 & H2 & _). by split.
Defined.

Definition no_environment : bytes -> option bytes := fun _ => None.

Lemma malformed_users_open_server_witness :
  exists c, ServerConfig_parse [bs "onyxdb"; bs "--user"; bs "alice"] no_environment = Ok c /\ users c = ∅.
Proof.
  destruct (ServerConfig_parse [bs "onyxdb"; bs "--user"; bs "alice"] no_environment) as [c|e] eqn:E;
    [|vm_compute in E; discriminate E].
  exists c. split; [reflexivity|].
  apply (malformed_users_open_server [bs "onyxdb"; bs "--user"; bs "alice"] no_environment c E); [|reflexivity].
  by repeat constructor.
Defined.

Definition demo_reply : list RESPValue :=
  [Array [Integer (-7); BulkString (Some (bs "v")); Array []; BulkString None]; SimpleString (bs "OK")].

Lemma client_reads_responses_witness :
  exists r', read_responses 2 DEFAULT_RESPONSE_LIMITS
      (mkReader [] [bs "*4"; [x0d]; [x0a] ++ drop 4 (concat (map encode_value demo_reply)) ++ bs "+next"] Closed) =
    (r', Ok (map seen demo_reply)) /\ stream r' = bs "+next".
Proof.
  refine (proj1 (client_reads_responses DEFAULT_RESPONSE_LIMITS demo_reply
    (mkReader [] [bs "*4"; [x0d]; [x0a] ++ drop 4 (concat (map encode_value demo_reply)) ++ bs "+next"] Closed)
    (bs "+next") default_limits_sane _ _ eq_refl)); [done|].
  repeat constructor; try done; cbn; try (intros H; repeat (apply elem_of_cons in H as [H|H]; [done|]); by apply elem_of_nil in H).
Defined.


Lemma command_line_roundtrip_witness :
  parse_command_line (command_line [bs "SET"; bs "a b"; [x22; x5c]]) = Ok [bs "SET"; bs "a b"; [x22; x5c]].
Proof.
  refine (proj1 (command_line_roundtrip [bs "SET"; bs "a b"; [x22; x5c]] 0 0 [] _)). by repeat constructor.
Defined.
