(* ===== verification/Startup.v ===== *)
(** * Startup: the process around the server (src/main.rs, src/persistence/runtime.rs)

    [main]: the configuration, the lock on the data directory, the listeners,
    recovery, the state the connections share and the tasks beside them; the
    supervision of maintenance, and the ways the process ends.  Processes that
    share a host are steps of a machine whose file systems belong to the holders
    of the locks. *)

From Stdlib Require Import ZArith Lia.
From Stdlib Require Import Strings.Byte.
From stdpp Require Import base gmap list strings numbers sorting.
From S2P Require Import Prelude Text Json JsonPath Value Shard ShardSpec Engine EngineSpec EngineMulti EngineWhole EngineActs EngineSnapshots EngineTrace StoreSnapshot Store Persistence Model Codec CodecSpec BinlogFile BinlogIo Recovery ManagedBinlog SnapshotWriter ReplicaState Runtime Compaction HistorySpec ManagedSpec SealSpec EntryEq StoreSpec ModelSpec SnapshotSpec RecoverySpec InstallSpec CommitSpec MaintenanceSpec Durability Resp Execution Admission Server ServerSpec Replication ServerInfo Coordinator Config CoordinatorSpec Routes Session Demo EngineTheorems.

Open Scope Z_scope.

#[global] Instance FsyncPolicy_eq_decision : EqDecision FsyncPolicy.
Proof. solve_decision. Defined.

(** ** The lock on the data directory *)

Definition RUNTIME_LOCK_PATH : bytes := bs "onyx.lock".

(** [Path::join] of a directory and a file name. *)
Definition path_join (directory name : bytes) : bytes :=
  match list.last directory with
  | Some x2f => directory ++ name
  | _ => directory ++ [x2f] ++ name
  end.

(** The locks of a host: the process that holds the lock of a file. *)
Abbreviation Locks := (gmap bytes Z).

(** What the operating system answers; [la_held] is its text for a lock that
    another process holds, [la_lock] a failure of the call itself. *)
Record lock_answers : Type := mkLockAnswers {
  la_create : result BinlogIo.io_error unit;
  la_resolve : result BinlogIo.io_error bytes;
  la_open : result BinlogIo.io_error unit;
  la_lock : result BinlogIo.io_error unit;
  la_held : bytes
}.

Definition err_lock_create (directory : bytes) (e : BinlogIo.io_error) : PersistenceError :=
  PersistenceError_new (bs "Unable to create data directory " ++ directory ++ bs ": " ++ ie_message e).
Definition err_lock_resolve (directory : bytes) (e : BinlogIo.io_error) : PersistenceError :=
  PersistenceError_new (bs "Unable to resolve data directory " ++ directory ++ bs ": " ++ ie_message e).
Definition err_lock_open (path : bytes) (e : BinlogIo.io_error) : PersistenceError :=
  PersistenceError_new (bs "Unable to open runtime lock " ++ path ++ bs ": " ++ ie_message e).
Definition err_lock_owned (directory message : bytes) : PersistenceError :=
  PersistenceError_new (bs "Data directory " ++ directory
    ++ bs " is already owned by another OnyxDB process: " ++ message).

(** [RuntimeDirectoryLock::acquire]: the resolved directory. *)
Definition acquire (process : Z) (directory : bytes) (a : lock_answers) (locks : Locks)
  : Locks * result PersistenceError bytes :=
  match la_create a with
  | Err e => (locks, Err (err_lock_create directory e))
  | Ok _ =>
    match la_resolve a with
    | Err e => (locks, Err (err_lock_resolve directory e))
    | Ok directory =>
      let lock_path := path_join directory RUNTIME_LOCK_PATH in
      match la_open a with
      | Err e => (locks, Err (err_lock_open lock_path e))
      | Ok _ =>
        match la_lock a with
        | Err e => (locks, Err (err_lock_owned directory (ie_message e)))
        | Ok _ =>
          match locks !! lock_path with
          | Some _ => (locks, Err (err_lock_owned directory (la_held a)))
          | None => (<[lock_path := process]> locks, Ok directory)
          end
        end
      end
    end
  end.

(** [Drop for RuntimeDirectoryLock]; the operating system does the same for a
    process that dies. *)
Definition release (directory : bytes) (locks : Locks) : Locks :=
  delete (path_join directory RUNTIME_LOCK_PATH) locks.

(** ** The state a process starts with *)

(** [nanos.wrapping_mul(0x9E3779B97F4A7C15).wrapping_add(pid)]. *)
Definition replication_id (nanos process : Z) : Z :=
  (((nanos mod 2 ^ 64) * 0x9E3779B97F4A7C15) mod 2 ^ 64 + process) mod 2 ^ 64.

Inductive start_error : Type :=
| ConfigFailed (e : ConfigError)
| StartIoFailed (e : BinlogIo.io_error)
| PersistenceFailed (e : PersistenceError).

(** A process that serves: its directory, the ports of its three listeners, the
    users, the state its connections share and the tasks it has started. *)
Record server {JN : JsonNumber} : Type := mkServer {
  sv_directory : bytes;
  sv_ports : Z * Z * Z;
  sv_users : gmap bytes bytes;
  sv_policy : FsyncPolicy;
  sv_store : ShardedStore;
  sv_persistence : Persistence;
  sv_periodic_sync : bool;
  sv_tasks : list maintenance_task;
  sv_replica : option (bytes * ReplicaRuntimeConfig * Z * Z)
}.

(** What [main] reads of its environment after the lock: the outcomes of the
    three binds, the clocks of recovery and of the key count, the outcomes of
    the system calls on the directory, and what of the log is on the disk. *)
Record boot_answers : Type := mkBootAnswers {
  ba_binds : Z -> result BinlogIo.io_error unit;
  ba_clocks : nat -> clock;
  ba_stats_clock : clock;
  ba_next : list ManagedBinlog.outcome;
  ba_disk : bytes
}.

Section Startup.
Context {CRC : Crc32} {GZ : Gzip} {JN : JsonNumber} {SJ : SerdeJson} {HO : HashOrder} {IP : IpText}.

(** [port + offset] on [u16]: [None] is the overflow, a panic. *)
Definition port_at (port offset : Z) : option Z :=
  if port + offset <=? 65535 then Some (port + offset) else None.

(** The listeners of RESP, OBP and the metrics, bound in this order. *)
Definition bind_listeners (binds : Z -> result BinlogIo.io_error unit) (port : Z) : option (result BinlogIo.io_error (Z * Z * Z)) :=
  match binds port with
  | Err e => Some (Err e)
  | Ok _ =>
    obp ← port_at port 1;
    match binds obp with
    | Err e => Some (Err e)
    | Ok _ =>
      metrics ← port_at port 1000;
      match binds metrics with
      | Err e => Some (Err e)
      | Ok _ => Some (Ok (port, obp, metrics))
      end
    end
  end.

(** [Persistence] as [main] builds it, before the maintenance that is due. *)
Definition initial_persistence (runtime : CommitRuntime) (identity : option ReplicaIdentity) (configured_as_replica : bool)
  : Persistence :=
  mkPersistence JN runtime [] [] false (match identity with Some i => replid i | None => 0 end)
    (bool_decide (is_Some identity)) (ReplicaLifecycle_new (negb configured_as_replica)) false.

(** [main] from the lock to the loop that accepts connections, on the files of
    the locked directory; [None] is a panic. *)
Definition boot (config : ServerConfig) (a : boot_answers) (directory : bytes) (fs : Files)
  : option (Files * (start_error + server)) :=
  bound ← bind_listeners (ba_binds a) (port config);
  match bound with
  | Err e => Some (fs, inl (StartIoFailed e))
  | Ok ports =>
    '(fs, recovered) ← load_data_from_paths (ba_clocks a)
      (store_with_maxmemory (config_maxmemory_bytes config) (config_maxmemory_policy config)) fs;
    match recovered with
    | Err e => Some (fs, inl (PersistenceFailed e))
    | Ok (store, recovery) =>
      let configured_as_replica := bool_decide (is_Some (master_addr config)) in
      let '(m, identity) := prepare_replication_startup (snapshot_watermark recovery) configured_as_replica
        (mkManaged fs None (ba_disk a) (ba_next a)) in
      match identity with
      | Err e => Some (m_files m, inl (PersistenceFailed e))
      | Ok identity =>
        '(store, stats) ← store_stats (ba_stats_clock a) store;
        let runtime := start_runtime (m_files m) recovery (stats_total_keys stats) (ba_disk a) (m_next m) in
        let p := initial_persistence runtime identity configured_as_replica in
        let '(runtime, maintenance) := request_maintenance_if_needed COMPACTION_THRESHOLD (commit_runtime p) in
        let p := with_role false configured_as_replica (with_runtime runtime p) in
        Some (m_files (rt_binlog runtime),
              inr (mkServer JN directory ports (users config) (fsync_policy config) store p
                     (bool_decide (fsync_policy config = EverySec)) (schedule_maintenance maintenance)
                     ((fun addr => (addr,
                        mkReplicaConfig (bool_decide (is_Some (upstream_credentials config))) (auto_failover config)
                          (failover_timeout_secs config),
                        match identity with Some i => replid i | None => 0 end,
                        match identity with Some _ => last_sequence recovery | None => 0 end))
                      <$> master_addr config)))
      end
    end
  end.

(** ** Hosts *)

(** A host: its locks and the files of its directories, by resolved name. *)
Record host : Type := mkHost {
  h_locks : Locks;
  h_files : gmap bytes Files
}.

Definition files_in (directory : bytes) (h : host) : Files :=
  match h_files h !! directory with Some fs => fs | None => ∅ end.

(** [main] up to the loop that accepts connections; a process that gives up
    drops its lock. *)
Definition start_server (process : Z) (args : list bytes) (get_env : bytes -> option bytes) (la : lock_answers)
    (ba : boot_answers) (h : host) : option (host * (start_error + server)) :=
  match ServerConfig_parse args get_env with
  | Err e => Some (h, inl (ConfigFailed e))
  | Ok config =>
    match acquire process (data_directory config) la (h_locks h) with
    | (locks, Err e) => Some (mkHost locks (h_files h), inl (PersistenceFailed e))
    | (locks, Ok directory) =>
      '(fs, started) ← boot config ba directory (files_in directory h);
      Some (mkHost (match started with inl _ => release directory locks | inr _ => locks end)
              (<[directory := fs]> (h_files h)), started)
    end
  end.

(** ** Supervision *)

(** [enter_fail_stop]: the flag is set at once; the rest waits until a commit
    may take the boundary.  The second component says whether it got there. *)
Definition enter_fail_stop (message : bytes) (r : CommitRuntime) : CommitRuntime * bool :=
  let r := set_failure (rt_accepting_writes r) (rt_failure r) true (rt_fail_stop_reason r) r in
  if compaction_write_budget_allows_progress r
  then (enter_fail_stop_with_visibility_guard message r, true)
  else (r, false).

(** What becomes of a maintenance task: its outcome; a panic, with the text of
    the join error; or a supervisor that goes away with the outcome.  [left] is
    the state they leave. *)
Inductive awaited (A : Type) : Type :=
| Completed (outcome : CommitRuntime * result PersistenceError A)
| Interrupted (join : bytes) (left : CommitRuntime)
| Dropped (left : CommitRuntime).
#[global] Arguments Completed {A}.
#[global] Arguments Interrupted {A}.
#[global] Arguments Dropped {A}.

Definition outcome_unknown {A : Type} (message : bytes) (r : CommitRuntime) : CommitRuntime * result PersistenceError A :=
  (if rt_fail_stop_started r then r else (enter_fail_stop message r).1, Err (PersistenceError_indeterminate message)).

Definition supervise {A : Type} (name : bytes) (a : awaited A) : CommitRuntime * result PersistenceError A :=
  match a with
  | Completed outcome => outcome
  | Interrupted join left => outcome_unknown (name ++ bs " task was interrupted: " ++ join) left
  | Dropped left => outcome_unknown (name ++ bs " supervisor dropped the outcome") left
  end.

(** The end of a task whose body is [o]; [None] is a panic. *)
Definition task_ended {A : Type} (join : bytes) (left : CommitRuntime)
    (o : option (CommitRuntime * result PersistenceError A)) : awaited A :=
  match o with Some outcome => Completed outcome | None => Interrupted join left end.

(** [compact_owned], its phases in order with [between] as the writers during
    the materialisation, and [rollover_generation_owned]. *)
Definition compact_owned (clks : nat -> clock) (seal_answer checkpoint_answer : delivery)
    (between : nat -> OnyxEngine -> OnyxEngine) (upstream_replid : Z) (r : CommitRuntime) (store : ShardedStore)
  : option (ShardedStore * (CommitRuntime * result PersistenceError Z)) :=
  '(r, prepared) ← compact_prepare (clks 0%nat) r;
  match prepared with
  | Err e => Some (store, (r, Err e))
  | Ok seal_generation =>
    '(r, store, captured) ← compact_capture seal_answer (clks 1%nat) seal_generation r store;
    match captured with
    | Err e => Some (store, (r, Err e))
    | Ok cap =>
      '(e, entries) ← into_entries between (engine store) (cap_view cap);
      let store := with_engine store e in
      match compact_write (cap_watermark cap) entries r with
      | (r, Err e) => Some (store, (r, Err e))
      | (r, Ok _) =>
        match compact_finish checkpoint_answer upstream_replid cap (len entries) r with
        | (r, Err e) => Some (store, (r, Err e))
        | (r, Ok watermark) => Some (store, (compact_cleanup (clks 2%nat) r, Ok watermark))
        end
      end
    end
  end.

Definition rollover_generation_owned (clk : clock) (seal_answer : delivery) (r : CommitRuntime)
  : option (CommitRuntime * result PersistenceError Z) :=
  '(r, prepared) ← rollover_prepare clk r;
  match prepared with
  | Err e => Some (r, Err e)
  | Ok (RolloverNothing watermark) => Some (r, Ok watermark)
  | Ok (RolloverReady _) => rollover_seal seal_answer r
  end.

(** [compact] and [rollover_generation]: the owned tasks under supervision. *)
Definition compact (a : awaited Z) : CommitRuntime * result PersistenceError Z :=
  supervise (bs "Snapshot compaction") a.

Definition rollover_generation (a : awaited Z) : CommitRuntime * result PersistenceError Z :=
  supervise (bs "Binlog generation rollover") a.

(** [await_commit_finalizer]: a finalizer that does not return leaves the
    outcome of its commit unknown. *)
Definition await_commit_finalizer (join : bytes) (left : Persistence)
    (o : option (Persistence * result PersistenceError (list maintenance_task)))
  : Persistence * result PersistenceError (list maintenance_task) :=
  match o with
  | Some outcome => outcome
  | None =>
    let message := bs "Commit finalizer completion is indeterminate: " ++ join in
    (if is_fail_stopped left then left
     else
       let p := with_lifecycle (request_stop (replica_lifecycle left)) (not_ready left) in
       with_runtime (enter_fail_stop message (commit_runtime p)).1 p,
     Err (PersistenceError_indeterminate message))
  end.

(** ** The end of the process *)

Inductive stop_cause : Type :=
| AcceptFailed (e : BinlogIo.io_error)
| FailStopNotified
| CtrlC.

(** [await_persistence_fail_stop]; [None]: no reason is known, and it waits. *)
Definition await_persistence_fail_stop (p : Persistence) : option (Persistence * PersistenceError) :=
  match rt_fail_stop_reason (commit_runtime p) with
  | None => None
  | Some reason =>
    Some (with_lifecycle (request_stop (replica_lifecycle p)) (not_ready p), PersistenceError_indeterminate reason)
  end.

Inductive stopped : Type :=
| StopsWith (e : start_error)
| StopsCleanly
| StillWaiting.

Definition refuse_writes (r : CommitRuntime) : CommitRuntime :=
  set_failure false (rt_failure r) (rt_fail_stop_started r) (rt_fail_stop_reason r) r.

Definition fail_stop_end (p : Persistence) : Persistence * stopped :=
  match await_persistence_fail_stop p with
  | Some (p, error) => (p, StopsWith (PersistenceFailed error))
  | None => (p, StillWaiting)
  end.

(** The [select!] at the end of [main]: [final] is the compaction of the last
    state. *)
Definition shut_down (cause : stop_cause) (final : CommitRuntime -> Z -> CommitRuntime * result PersistenceError Z)
    (p : Persistence) : Persistence * stopped :=
  match cause with
  | AcceptFailed e => (p, StopsWith (StartIoFailed e))
  | FailStopNotified => fail_stop_end p
  | CtrlC =>
    if is_fail_stopped p then fail_stop_end p
    else
      let p := with_runtime (refuse_writes (commit_runtime p)) p in
      let '(r, saved) := final (commit_runtime p) (upstream_replid p) in
      (with_runtime r p, match saved with Ok _ => StopsCleanly | Err e => StopsWith (PersistenceFailed e) end)
  end.

(** ** The tasks beside the connections *)

(** A round of [active_expiration_task]: the line it prints, if any. *)
Definition active_expiration_round (clk : clock) : prog (option bytes) :=
  count ← store_gc_expired clk;
  mret (if 0 <? count then Some (bs "GC: removed " ++ print_Z count ++ bs " expired keys.") else None).

(** The task of the [everysec] policy: it ends with the first failure. *)
Fixpoint periodic_sync_task (answers : list delivery) (p : Persistence) : Persistence * bool :=
  match answers with
  | [] => (p, true)
  | d :: rest =>
    match run_periodic_sync_once d p with
    | (p, Ok _) => periodic_sync_task rest p
    | (p, Err _) => (p, false)
    end
  end.

End Startup.

(** * What a start gives *)

Section StartSpec.
Context {CRC : Crc32} {GZ : Gzip} {JN : JsonNumber} {SJ : SerdeJson} {HO : HashOrder} {IP : IpText}.

(** ** The listeners *)


(** ** The replica state file *)





(** ** Booting *)

(** A process that serves the effects [F] at the sequence [n]: what the theorems
    about connections ask of the state they start from. *)
Record serving (T : Z) (config : ServerConfig) (F : list CommittedEffect) (n : Z) (sv : server) : Prop := {
  sg_sound : sound (config_maxmemory_bytes config, config_maxmemory_policy config) (sv_store sv);
  sg_steady : steady T (commit_runtime (sv_persistence sv)) F;
  sg_shown : shows T (sv_store sv) F;
  sg_sequence : sequence (sv_persistence sv) = n;
  sg_accepting : accepting_writes (sv_persistence sv) = true;
  sg_running : is_fail_stopped (sv_persistence sv) = false;
  sg_role : is_replica (sv_persistence sv) = bool_decide (is_Some (master_addr config));
  sg_ports : sv_ports sv = (port config, port config + 1, port config + 1000);
  sg_users : sv_users sv = users config
}.

Lemma serving_matches T config F n sv : serving T config F n sv -> matches T (sv_store sv) F.
Proof. intros Hs k. left. symmetry. apply (sg_shown _ _ _ _ _ Hs). Qed.




Section Boot.
Context (T w : Z) (fs : Files) (entries : list (bytes * DataEntry)) (s : Z) (cs : list chunk) (e : Z).
Context (bs : list CommittedBatch) (rs : list (Z * bytes)) (tail : bytes).
Context (Hdir : directory fs w entries s cs e bs rs tail) (Hreach : bs = [] \/ w < e + len bs).
Context (Hsafe : bs <> [] \/ RecoverySpec.kept cs w = []).
Context (Hvalues : Forall effect_value_ok (recovered_effects w entries s cs bs)).


End Boot.

End StartSpec.

(** * The tasks beside the connections *)

Section TasksSpec.
Context {CRC : Crc32} {GZ : Gzip} {JN : JsonNumber} {SJ : SerdeJson} {HO : HashOrder} {IP : IpText}.

Lemma gc_expired_acts clk e :
  engine_ok e -> let out := engine_gc_expired clk e in leaves out (m_sweep clk (dataset e)) out.2.
Proof.
  intros Hw. unfold engine_gc_expired. destruct (for_shards e _) as [e' rs] eqn:E.
  match type of E with for_shards _ ?f = _ => destruct (sweep_acts clk f e Hw) as [Hok Hd] end.
  { intros i s. by destruct (expire_keys _ _). }
  rewrite E in *. done.
Qed.

(** A round of expiration returns, and a process that serves goes on serving the
    same effects. *)
Lemma expiration_serves T config F n sv clk :
  clock_before clk T -> serving T config F n sv ->
  exists st' line, active_expiration_round clk (sv_store sv) = Some (st', line) /\
    serving T config F n (mkServer JN (sv_directory sv) (sv_ports sv) (sv_users sv) (sv_policy sv) st' (sv_persistence sv)
      (sv_periodic_sync sv) (sv_tasks sv) (sv_replica sv)).
Proof.
  intros Hclk [[[Hok Hv] Hm Hp] H2 H3 H4 H5 H6 H7 H8 H9].
  pose proof (gc_expired_acts clk (engine (sv_store sv)) Hok) as (_ & Hd & Hok').
  unfold active_expiration_round, store_gc_expired, mbind, prog_bind, on_engine.
  destruct (engine_gc_expired clk (engine (sv_store sv))) as [e' count]. cbn [fst snd] in *.
  eexists _, _. split; [done|]. constructor; try done; cbn [sv_store].
  - constructor; [constructor; [done|]|done|done]. cbn [engine with_engine]. rewrite Hd.
    intros k. rewrite lookup_m_sweep. apply cell_ok_live, Hv.
  - intros k. unfold cell_at. cbn [engine with_engine]. rewrite Hd, lookup_m_sweep, logical_live by apply Hclk. apply H3.
Qed.

Lemma sync_files d m m' res : handle_sync_data d m = (m', res) -> m_files m' = m_files m.
Proof.
  assert (Hw : forall m0, m_files (worker_sync_data m0).1 = m_files m0).
  { intros m0. unfold worker_sync_data, m_sync, on_handle. destruct (m_handle m0) as [pos|]; [|done].
    destruct (sys m0) as [m1 [u|e1]] eqn:E; apply sys_spec in E as (Hf & _ & _); exact Hf. }
  unfold handle_sync_data, ask. destruct d as [| |carried_out].
  - specialize (Hw m). destruct (worker_sync_data m) as [m1 [u|f]]; by intros [= <- <-].
  - by intros [= <- <-].
  - destruct carried_out; [|by intros [= <- <-]]. intros [= <- <-]. apply Hw.
Qed.

(** The task of the [everysec] policy never changes the files, and when it ends
    the node accepts no more writes. *)
Lemma periodic_sync_spec answers p p' running :
  periodic_sync_task answers p = (p', running) ->
  m_files (rt_binlog (commit_runtime p')) = m_files (rt_binlog (commit_runtime p)) /\
  (running = false -> accepting_writes p' = false).
Proof.
  revert p. induction answers as [|d answers IH]; intros p; cbn [periodic_sync_task]; [by intros [= <- <-]|].
  unfold run_periodic_sync_once, on_binlog.
  destruct (handle_sync_data d (rt_binlog (commit_runtime p))) as [m [[]|error]] eqn:E; apply sync_files in E.
  - intros H. apply IH in H as [Hf Ha]. cbn in Hf. rewrite E in Hf. done.
  - destruct (is_indeterminate error); intros [= <- <-]; (split; [exact E|done]).
Qed.

End TasksSpec.

(** * Stopping and starting again *)

Section RestartSpec.
Context {CRC : Crc32} {GZ : Gzip} {JN : JsonNumber} {SJ : SerdeJson} {HO : HashOrder} {IP : IpText}.


(** The directory stands for the snapshot of [st] at the offset, and for nothing
    else. *)
Definition saved (T : Z) (st : ShardedStore) (r : CommitRuntime) : Prop :=
  exists entries s cs e bs rs,
    stored_as T r (snapshot_effects entries) (rt_offset r) entries s cs e bs rs /\
    Forall effect_value_ok (snapshot_effects entries) /\
    forall k, fold_left (effect_on T k) (snapshot_effects entries) None = cell_at T st k.




End RestartSpec.

(** * Processes on one host *)

Section Host.
Context {CRC : Crc32} {GZ : Gzip} {JN : JsonNumber} {SJ : SerdeJson} {HO : HashOrder} {IP : IpText}.

(** A process that holds the lock of its directory: it is starting, or it
    serves. *)
Inductive process : Type :=
| Starting (directory : bytes) (config : ServerConfig)
| Serving (sv : server).

Definition directory_of (q : process) : bytes :=
  match q with Starting directory _ => directory | Serving sv => sv_directory sv end.

#[local] Notation processes := (gmap Z process).

(** A step of the process [pid].  A process that works may leave any files in
    its own directory; a process may end, or be killed, at any time. *)
Inductive host_step (pid : Z) : host * processes -> host * processes -> Prop :=
| HostAcquire h qs args get_env la config locks directory :
    qs !! pid = None -> ServerConfig_parse args get_env = Ok config ->
    acquire pid (data_directory config) la (h_locks h) = (locks, Ok directory) ->
    host_step pid (h, qs) (mkHost locks (h_files h), <[pid := Starting directory config]> qs)
| HostRefused h qs args get_env la config locks error :
    qs !! pid = None -> ServerConfig_parse args get_env = Ok config ->
    acquire pid (data_directory config) la (h_locks h) = (locks, Err error) ->
    host_step pid (h, qs) (mkHost locks (h_files h), qs)
| HostBoot h qs directory config ba fs sv :
    qs !! pid = Some (Starting directory config) ->
    boot config ba directory (files_in directory h) = Some (fs, inr sv) ->
    host_step pid (h, qs) (mkHost (h_locks h) (<[directory := fs]> (h_files h)), <[pid := Serving sv]> qs)
| HostGivesUp h qs directory config ba fs error :
    qs !! pid = Some (Starting directory config) ->
    boot config ba directory (files_in directory h) = Some (fs, inl error) ->
    host_step pid (h, qs) (mkHost (release directory (h_locks h)) (<[directory := fs]> (h_files h)), delete pid qs)
| HostWorks h qs sv sv' fs :
    qs !! pid = Some (Serving sv) -> sv_directory sv' = sv_directory sv ->
    host_step pid (h, qs) (mkHost (h_locks h) (<[sv_directory sv := fs]> (h_files h)), <[pid := Serving sv']> qs)
| HostEnds h qs q :
    qs !! pid = Some q ->
    host_step pid (h, qs) (mkHost (release (directory_of q) (h_locks h)) (h_files h), delete pid qs).

Definition some_step (m m' : host * processes) : Prop := exists pid, host_step pid m m'.

Definition lock_path_of (q : process) : bytes := path_join (directory_of q) RUNTIME_LOCK_PATH.

(** Every process holds the lock of its directory. *)
Definition owners (m : host * processes) : Prop :=
  forall pid q, m.2 !! pid = Some q -> h_locks m.1 !! lock_path_of q = Some pid.

Lemma acquire_spec pid directory la locks locks' res :
  acquire pid directory la locks = (locks', res) ->
  match res with
  | Ok dir => locks !! path_join dir RUNTIME_LOCK_PATH = None /\ locks' = <[path_join dir RUNTIME_LOCK_PATH := pid]> locks
  | Err _ => locks' = locks
  end.
Proof.
  unfold acquire. destruct (la_create la); [|by intros [= <- <-]]. destruct (la_resolve la) as [dir|]; [|by intros [= <- <-]].
  destruct (la_open la); [|by intros [= <- <-]]. destruct (la_lock la); [|by intros [= <- <-]].
  destruct (locks !! path_join dir RUNTIME_LOCK_PATH) eqn:E; by intros [= <- <-].
Qed.

Lemma boot_directory config ba directory fs fs' sv :
  boot config ba directory fs = Some (fs', inr sv) -> sv_directory sv = directory.
Proof.
  unfold boot. destruct (bind_listeners _ _) as [[ports|]|]; [|done|done]. cbn [mbind option_bind].
  destruct (load_data_from_paths _ _ _) as [[fs1 [[st rec]|]]|]; [|done|done]. cbn [mbind option_bind].
  destruct (prepare_replication_startup _ _ _) as [m [identity|]]; [|done].
  destruct (store_stats _ _) as [[st1 stats]|]; [|done]. cbn [mbind option_bind].
  destruct (request_maintenance_if_needed _ _) as [r req]. by intros [= _ <-].
Qed.

(** Processes that hold their locks are apart. *)
Lemma owners_apart m pid pid' q q' :
  owners m -> m.2 !! pid = Some q -> m.2 !! pid' = Some q' -> lock_path_of q = lock_path_of q' -> pid = pid'.
Proof. intros Hm Hq Hq' Heq. apply Hm in Hq, Hq'. rewrite Heq in Hq. congruence. Qed.

(** The locks of the other processes survive a release. *)
Lemma release_others m pid q pid' q' :
  owners m -> m.2 !! pid = Some q -> pid' <> pid -> m.2 !! pid' = Some q' ->
  release (directory_of q) (h_locks m.1) !! lock_path_of q' = Some pid'.
Proof.
  intros Hm Hq Hne Hq'. unfold release. rewrite lookup_delete_ne; [by apply Hm|].
  intros Heq. apply Hne. by eapply owners_apart.
Qed.

Lemma owners_step pid m m' : owners m -> host_step pid m m' -> owners m'.
Proof.
  intros Hm Hs. destruct Hs as [h qs args env la config locks dir Hnew _ Ha|h qs args env la config locks err Hnew _ Ha
    |h qs dir config ba fs sv Hq Hb|h qs dir config ba fs err Hq Hb|h qs sv sv' fs Hq Hdir|h qs q Hq]; intros pid' q'; cbn.
  - apply acquire_spec in Ha as [Hfree ->]. intros Hq'. apply lookup_insert_Some in Hq' as [[<- <-]|[Hne Hq']].
    + apply lookup_insert_eq.
    + pose proof (Hm _ _ Hq') as Hl. cbn in Hl. rewrite lookup_insert_ne; [done|]. intros Heq. rewrite <- Heq, Hfree in Hl. done.
  - apply acquire_spec in Ha as ->. apply Hm.
  - intros Hq'. apply lookup_insert_Some in Hq' as [[<- <-]|[Hne Hq']]; [|by apply Hm].
    specialize (Hm _ _ Hq). unfold lock_path_of in *. cbn in *. by rewrite (boot_directory _ _ _ _ _ _ Hb).
  - intros Hq'. apply lookup_delete_Some in Hq' as [Hne Hq'].
    by apply (release_others (h, qs) pid (Starting dir config) pid' q').
  - intros Hq'. apply lookup_insert_Some in Hq' as [[<- <-]|[Hne Hq']]; [|by apply Hm].
    specialize (Hm _ _ Hq). unfold lock_path_of in *. cbn in *. by rewrite Hdir.
  - intros Hq'. apply lookup_delete_Some in Hq' as [Hne Hq']. by apply (release_others (h, qs) pid q pid' q').
Qed.

Lemma owners_steps m m' : owners m -> rtc some_step m m' -> owners m'.
Proof. intros Hm Hr. induction Hr as [|m1 m2 m3 [pid Hs] _ IH]; [done|]. apply IH. by eapply owners_step. Qed.

(** A step of another process leaves a process and its files alone. *)
Lemma step_frame pid pid' m m' q :
  owners m -> host_step pid' m m' -> pid' <> pid -> m.2 !! pid = Some q ->
  m'.2 !! pid = Some q /\ files_in (directory_of q) m'.1 = files_in (directory_of q) m.1.
Proof.
  intros Hm Hs Hne Hq.
  assert (Hfiles : forall q' locks fs, m.2 !! pid' = Some q' ->
    files_in (directory_of q) (mkHost locks (<[directory_of q' := fs]> (h_files m.1))) = files_in (directory_of q) m.1).
  { intros q' locks fs Hq'. unfold files_in. cbn [h_files]. rewrite lookup_insert_ne; [done|].
    intros Heq. apply Hne. eapply owners_apart; [done|done|done|]. unfold lock_path_of. by rewrite Heq. }
  destruct Hs as [h qs args env la config locks dir Hnew _ Ha|h qs args env la config locks err Hnew _ Ha
    |h qs dir config ba fs sv Hq' Hb|h qs dir config ba fs err Hq' Hb|h qs sv sv' fs Hq' Hdir|h qs q' Hq']; cbn [fst snd] in *.
  - by rewrite lookup_insert_ne.
  - done.
  - rewrite lookup_insert_ne by done. split; [done|]. by apply (Hfiles (Starting dir config)).
  - rewrite lookup_delete_ne by done. split; [done|]. by apply (Hfiles (Starting dir config)).
  - rewrite lookup_insert_ne by done. split; [done|]. by apply (Hfiles (Serving sv)).
  - by rewrite lookup_delete_ne.
Qed.

(** [start_server] is the two steps of a process one after the other. *)
Lemma start_server_steps pid args get_env la ba h h' qs config out :
  qs !! pid = None -> ServerConfig_parse args get_env = Ok config ->
  start_server pid args get_env la ba h = Some (h', out) ->
  rtc (host_step pid) (h, qs)
    (h', match out with inr sv => <[pid := Serving sv]> qs | inl _ => qs end).
Proof.
  intros Hnew Hc. unfold start_server. rewrite Hc.
  destruct (acquire pid (data_directory config) la (h_locks h)) as [locks [dir|err]] eqn:Ea.
  2: { intros [= <- <-]. apply rtc_once. by eapply HostRefused. }
  destruct (boot config ba dir (files_in dir h)) as [[fs [err|sv]]|] eqn:Eb; [| |done]; cbn; intros [= <- <-].
  - eapply rtc_l; [by eapply HostAcquire|]. eapply rtc_l; [|apply rtc_refl].
    eapply (HostGivesUp pid (mkHost locks (h_files h)) (<[pid := Starting dir config]> qs)) in Eb; [|apply lookup_insert_eq].
    by rewrite delete_insert_eq, delete_id in Eb.
  - eapply rtc_l; [by eapply HostAcquire|]. eapply rtc_l; [|apply rtc_refl].
    eapply (HostBoot pid (mkHost locks (h_files h)) (<[pid := Starting dir config]> qs)) in Eb; [|apply lookup_insert_eq].
    by rewrite insert_insert, decide_True in Eb.
Qed.

End Host.

(** * Claims *)

Section Claims.
Context {CRC : Crc32} {GZ : Gzip} {JN : JsonNumber} {SJ : SerdeJson} {HO : HashOrder} {IP : IpText}.


(** C18: a data directory belongs to one process at a time.  Whatever processes
    start, fail to start, work, end or are killed on a host, in any order, two
    of them never have the same directory, and while a process has it no step of
    another one changes its files or takes the directory away. *)
Theorem directory_owned_once (h0 : host) (m m' : host * gmap Z process) (pid pid' : Z) (q q' : process)
    (Hreach : rtc some_step (h0, ∅) m) (Hq : m.2 !! pid = Some q) :
  (m.2 !! pid' = Some q' -> directory_of q' = directory_of q -> pid' = pid) /\
  (host_step pid' m m' -> pid' <> pid ->
    m'.2 !! pid = Some q /\ files_in (directory_of q) m'.1 = files_in (directory_of q) m.1).
Proof.
  assert (Hm : owners m) by (eapply owners_steps; [|exact Hreach]; intros ? ? Hx; cbn [snd] in Hx; by rewrite lookup_empty in Hx).
  split.
  - intros Hq' Heq. eapply owners_apart; [done|done|done|]. unfold lock_path_of. by rewrite Heq.
  - intros Hs Hne. by eapply step_frame.
Qed.


(** C19: an unknown outcome is never saved.  When a compaction, a rollover or the
    finalizer of a commit panics, or the supervisor loses the outcome, the answer says that the outcome is unknown,
    the node counts as stopped, and telling it to stop then ends with an error
    or waits, without a final snapshot: its files stay as the interrupted task
    left them. *)
Theorem interrupted_task_not_saved (join : bytes) (p : Persistence)
    (final : CommitRuntime -> Z -> CommitRuntime * result PersistenceError Z) :
  let ends p1 := is_fail_stopped p1 = true /\ exists p2 out, shut_down CtrlC final p1 = (p2, out) /\ out <> StopsCleanly /\
    rt_binlog (commit_runtime p2) = rt_binlog (commit_runtime p) in
  (forall a, a = Interrupted join (commit_runtime p) \/ a = Dropped (commit_runtime p) ->
    (exists r e, compact a = (r, Err e) /\ is_indeterminate e = true /\ ends (with_runtime r p)) /\
    (exists r e, rollover_generation a = (r, Err e) /\ is_indeterminate e = true /\ ends (with_runtime r p))) /\
  (exists p1 e, await_commit_finalizer join p None = (p1, Err e) /\ is_indeterminate e = true /\ ends p1).
Proof.
  intros ends.
  assert (Hends : forall p1, is_fail_stopped p1 = true -> rt_binlog (commit_runtime p1) = rt_binlog (commit_runtime p) -> ends p1).
  { intros p1 Hs Hb. split; [done|]. unfold shut_down, fail_stop_end, await_persistence_fail_stop. rewrite Hs.
    destruct (rt_fail_stop_reason (commit_runtime p1)); (eexists _, _; split; [done|]; split; [done|]; exact Hb). }
  assert (Hent : forall message r, rt_fail_stop_started (enter_fail_stop message r).1 = true /\
    rt_binlog (enter_fail_stop message r).1 = rt_binlog r).
  { intros message r. unfold enter_fail_stop. by destruct (compaction_write_budget_allows_progress _). }
  assert (Hsup : forall message, exists r e, outcome_unknown (A := Z) message (commit_runtime p) = (r, Err e) /\
    is_indeterminate e = true /\ ends (with_runtime r p)).
  { intros message. eexists _, _. split; [done|]. split; [done|].
    destruct (rt_fail_stop_started (commit_runtime p)) eqn:Es; apply Hends; try done; apply Hent. }
  split; [intros a [-> | ->]; split; apply Hsup|]. eexists _, _. split; [done|]. split; [done|].
  destruct (is_fail_stopped p) eqn:Es; apply Hends; try done; apply Hent.
Qed.

(** C40: fail-stop waits for write admission.  While the log is at its limits the
    node counts as stopped, but the reason of the stop is not recorded until
    admission opens, and a node told to stop meanwhile waits with it instead of
    ending. *)
Theorem fail_stop_waits_for_admission (message : bytes) (p : Persistence)
    (final : CommitRuntime -> Z -> CommitRuntime * result PersistenceError Z)
    (Hfull : compaction_write_budget_allows_progress (commit_runtime p) = false)
    (Hfirst : rt_fail_stop_reason (commit_runtime p) = None) :
  let p1 := with_runtime (enter_fail_stop message (commit_runtime p)).1 p in
  is_fail_stopped p1 = true /\ shut_down CtrlC final p1 = (p1, StillWaiting).
Proof.
  unfold enter_fail_stop, compaction_write_budget_allows_progress, rollover_backpressure_active,
    segment_catalog_backpressure_active in *. cbn in *. rewrite Hfull. cbn. split; [done|].
  unfold shut_down, is_fail_stopped, fail_stop_end, await_persistence_fail_stop. cbn. by rewrite Hfirst.
Qed.

End Claims.

(** ** Instances *)

#[local] Instance local_ip : IpText := {| IpAddr := bytes; parse_ip b := if bytes_eqb b (bs "127.0.0.1") then Some b else None |}.

Definition plain_config : ServerConfig :=
  mkConfig local_ip None None ∅ EverySec 0 NoEviction false DEFAULT_FAILOVER_TIMEOUT_SECS (bs "127.0.0.1") (bs ".") 6380 [].
Definition granting : lock_answers := mkLockAnswers (Ok tt) (Ok (bs "/data")) (Ok tt) (Ok tt) (bs "would block").


Lemma directory_owned_once_witness :
  exists m : host * gmap Z process, rtc some_step (mkHost ∅ ∅, ∅) m /\ m.2 !! 7 = Some (Starting (bs "/data") plain_config) /\
    forall pid' m', host_step pid' m m' -> pid' <> 7 -> files_in (bs "/data") m'.1 = files_in (bs "/data") m.1.
Proof.
  assert (Hs : some_step (mkHost ∅ ∅, ∅) (mkHost (<[bs "/data/onyx.lock" := 7]> ∅) ∅, <[7 := Starting (bs "/data") plain_config]> ∅)).
  { exists 7. apply (HostAcquire 7 (mkHost ∅ ∅) ∅ [bs "onyxdb"] (fun _ => None) granting plain_config);
      [reflexivity|vm_compute; reflexivity|reflexivity]. }
  eexists. split; [apply rtc_once, Hs|]. split; [reflexivity|]. intros pid' m' Hstep Hne.
  exact (proj2 (proj2 (directory_owned_once (mkHost ∅ ∅) _ m' 7 pid' (Starting (bs "/data") plain_config)
    (Starting (bs "/data") plain_config) (rtc_once _ _ Hs) eq_refl) Hstep Hne)).
Defined.

(** A server with one logged batch and the store of the pair. *)
Definition pair_server : Persistence :=
  mkPersistence demo_numbers (active_runtime []) [] [] false 0 false (ReplicaLifecycle_new true) false.
Definition pair_store : ShardedStore := with_engine store_new pair_engine.


Definition quiet_ops : nat -> list (clock * EngineOp unit) := fun _ => [].
Definition last_save (r : CommitRuntime) (replid : Z) : CommitRuntime * result PersistenceError Z :=
  compact (task_ended [] (refuse_writes (active_runtime []))
    (snd <$> compact_owned (fun _ => still) Answered Answered (threads quiet_ops) replid r pair_store)).


(** A server whose log has reached its limit while a rollover is pending. *)
Definition full_server : Persistence := with_runtime (set_pending false true (active_runtime [])) pair_server.

Lemma fail_stop_waits_for_admission_witness :
  let p1 := with_runtime (enter_fail_stop (bs "unknown") (commit_runtime full_server)).1 full_server in
  is_fail_stopped p1 = true /\ shut_down CtrlC last_save p1 = (p1, StillWaiting).
Proof. apply (fail_stop_waits_for_admission (bs "unknown") full_server last_save); vm_compute; reflexivity. Defined.
