(* ===== verification/Metrics.v ===== *)
(** * Metrics: the counters of the server and their text (src/main.rs, src/commit_coordinator.rs, src/persistence/runtime.rs)

    Every metric is an atomic cell that many tasks update without a lock.  An
    operation is the list of its atomic instructions; tasks run their
    instructions in any interleaving, and the loop of [observe_max] appears with
    the value it has last seen.  The metrics endpoint renders one reading of the
    cells as text.  The table of replicas, which INFO and the endpoint show, is
    fed by the acknowledgements that replicas send. *)

From Stdlib Require Import ZArith Lia.
From Stdlib Require Import Strings.Byte.
From Stdlib Require Import Floats.SpecFloat.
From stdpp Require Import base gmap list strings numbers relations.
From S2P Require Import Prelude Text Json Value Shard Engine Store Persistence BinlogIo Runtime Resp RespReader ReplicationWire Server ServerInfo Session.

Open Scope Z_scope.

(** ** Atomic cells *)

Section Cells.
Context {K : Type} {EK : EqDecision K}.

(** The cells of one kind of metrics, by the name of the field. *)
Abbreviation cells := (K -> Z).

Definition put (k : K) (v : Z) (m : cells) : cells := fun k' => if decide (k' = k) then v else m k'.

(** The atomic instructions of the operations.  [AddThenMax k top n] is a
    [fetch_add] whose result, plus [n], goes to [observe_max] of [top];
    [MaxLoop k v current] is [observe_max] in its loop. *)
Inductive atomic : Type :=
| FetchAdd (k : K) (n : Z)
| FetchSub (k : K) (n : Z)
| StoreCell (k : K) (v : Z)
| AddThenMax (k top : K) (n : Z)
| ObserveMax (k : K) (v : Z)
| MaxLoop (k : K) (v current : Z).

(** One instruction: the cells, and what the task has still to do for it.  A
    [weak] compare-exchange fails although the cell has the expected value. *)
Definition advance (weak : bool) (m : cells) (i : atomic) : cells * list atomic :=
  match i with
  | FetchAdd k n => (put k (wrap64 (m k + n)) m, [])
  | FetchSub k n => (put k (wrap64 (m k - n)) m, [])
  | StoreCell k v => (put k v m, [])
  | AddThenMax k top n => (put k (wrap64 (m k + n)) m, [ObserveMax top (wrap64 (m k + n))])
  | ObserveMax k v => (m, [MaxLoop k v (m k)])
  | MaxLoop k v current =>
    if current <? v
    then if negb weak && (m k =? current) then (put k v m, []) else (m, [MaxLoop k v (m k)])
    else (m, [])
  end.

(** Tasks with what each has still to do. *)
Definition machine : Type := cells * list (list atomic).

Inductive machine_step (weak : bool) : machine -> machine -> Prop :=
| step_task m ts t i rest m' pre :
    ts !! t = Some (i :: rest) -> advance weak m i = (m', pre) ->
    machine_step weak (m, ts) (m', <[t := pre ++ rest]> ts).

Definition some_task_steps (s s' : machine) : Prop := exists weak, machine_step weak s s'.

Definition idle (ts : list (list atomic)) : Prop := Forall (fun p => p = []) ts.




(** ** Conservation *)

(** What an instruction adds to a cell. *)
Definition added (k : K) (i : atomic) : Z :=
  match i with
  | FetchAdd k' n | AddThenMax k' _ n => if decide (k' = k) then n else 0
  | FetchSub k' n => if decide (k' = k) then - n else 0
  | _ => 0
  end.

Definition total (f : atomic -> Z) (p : list atomic) : Z := fold_right (fun i acc => f i + acc) 0 p.
Definition grand (f : atomic -> Z) (ts : list (list atomic)) : Z := fold_right (fun p acc => total f p + acc) 0 ts.

(** The cell is only added to; the cell is only raised. *)
Definition adds_only (k : K) (i : atomic) : bool :=
  match i with
  | FetchAdd _ _ | FetchSub _ _ => true
  | StoreCell k' _ | AddThenMax _ k' _ | ObserveMax k' _ | MaxLoop k' _ _ => bool_decide (k' <> k)
  end.


Definition every (f : atomic -> bool) (ts : list (list atomic)) : bool := forallb (forallb f) ts.

Lemma put_same k v m : put k v m k = v.
Proof. unfold put. by rewrite decide_True. Qed.

Lemma put_other k k' v m : k' <> k -> put k v m k' = m k'.
Proof. intros. unfold put. by rewrite decide_False. Qed.

Lemma total_app f p q : total f (p ++ q) = total f p + total f q.
Proof. unfold total. induction p as [|i p IH]; simpl; lia. Qed.

Lemma grand_insert f ts t p q : ts !! t = Some p -> grand f (<[t := q]> ts) = grand f ts - total f p + total f q.
Proof.
  unfold grand. revert t. induction ts as [|x ts IH]; intros [|t] E; simpl in *; try done.
  - injection E as ->. lia.
  - rewrite (IH _ E). lia.
Qed.

Lemma every_insert f ts t q : every f ts = true -> forallb f q = true -> every f (<[t := q]> ts) = true.
Proof.
  revert t. induction ts as [|x ts IH]; intros [|t] E Hq; cbn in *; try done.
  - apply andb_true_iff in E as [_ E]. by rewrite Hq.
  - apply andb_true_iff in E as [E1 E2]. rewrite E1. by apply IH.
Qed.

Lemma every_lookup f ts t p : every f ts = true -> ts !! t = Some p -> forallb f p = true.
Proof.
  intros E Hp. unfold every in E. rewrite forallb_forall in E. apply E, list_elem_of_In. by eapply list_elem_of_lookup_2.
Qed.

Lemma wrap64_idem a : wrap64 (wrap64 a) = wrap64 a.
Proof. unfold wrap64. by apply Z.mod_mod. Qed.

Lemma wrap64_add a b : wrap64 (wrap64 a + b) = wrap64 (a + b).
Proof. unfold wrap64. apply Z.add_mod_idemp_l. done. Qed.

Lemma wrap64_in_range a : 0 <= a < 2 ^ 64 -> wrap64 a = a.
Proof. intros. unfold wrap64. apply Z.mod_small. done. Qed.

(** An instruction that only adds to [k] keeps the cell plus what is to come. *)
Lemma advance_adds weak m i k m' pre :
  adds_only k i = true -> advance weak m i = (m', pre) ->
  forallb (adds_only k) pre = true /\ wrap64 (m' k + total (added k) pre) = wrap64 (m k + added k i).
Proof.
  intros Hk E. destruct i as [k' n|k' n|k' v|k' top n|k' v|k' v c]; cbn in *.
  1, 2: injection E as <- <-; split; [done|]; cbn; rewrite Z.add_0_r; unfold put;
    destruct (decide (k = k')) as [->|]; [rewrite decide_True by done|rewrite decide_False by done];
    try (by rewrite Z.add_0_r); rewrite wrap64_idem; f_equal; lia.
  - injection E as <- <-. apply bool_decide_eq_true in Hk. rewrite put_other by done. by split.
  - injection E as <- <-. apply bool_decide_eq_true in Hk. cbn. rewrite bool_decide_true by done. split; [done|].
    unfold put. destruct (decide (k = k')) as [->|]; [rewrite decide_True by done|rewrite decide_False by done].
    + rewrite wrap64_add. f_equal. lia.
    + f_equal; lia.
  - injection E as <- <-. cbn. by rewrite Hk.
  - apply bool_decide_eq_true in Hk. destruct (c <? v); [destruct (_ && _)|]; injection E as <- <-; cbn.
    + rewrite put_other by done. by split.
    + rewrite bool_decide_true by done. by split.
    + by split.
Qed.

Lemma step_adds weak m ts m' ts' k :
  every (adds_only k) ts = true -> machine_step weak (m, ts) (m', ts') ->
  every (adds_only k) ts' = true /\ wrap64 (m' k + grand (added k) ts') = wrap64 (m k + grand (added k) ts).
Proof.
  intros Hk H. inversion H as [? ? t i rest ? pre Ht E]; subst.
  pose proof (every_lookup _ _ _ _ Hk Ht) as Hp. cbn in Hp. apply andb_true_iff in Hp as [Hi Hr].
  destruct (advance_adds _ _ _ _ _ _ Hi E) as [Hpre Hsum]. split.
  - apply every_insert; [done|]. by rewrite forallb_app, Hpre, Hr.
  - rewrite (grand_insert _ _ _ _ _ Ht), total_app. cbn [total fold_right].
    fold (total (added k) rest).
    replace (m' k + _) with ((m' k + total (added k) pre) + (grand (added k) ts - added k i)) by lia.
    rewrite <- wrap64_add, Hsum, wrap64_add. f_equal. lia.
Qed.

Lemma steps_adds m ts m' ts' k :
  every (adds_only k) ts = true -> rtc some_task_steps (m, ts) (m', ts') ->
  every (adds_only k) ts' = true /\ wrap64 (m' k + grand (added k) ts') = wrap64 (m k + grand (added k) ts).
Proof.
  intros Hk H. remember (m, ts) as s eqn:Es. remember (m', ts') as s' eqn:Es'. revert m ts Es Hk.
  induction H as [s|s [m1 ts1] s2 [weak Hs] _ IH]; intros m ts -> Hk.
  - injection Es' as -> ->. done.
  - destruct (step_adds _ _ _ _ _ _ Hk Hs) as [Hk1 E1]. destruct (IH Es' _ _ eq_refl Hk1) as [Hk2 E2].
    split; [done|]. by rewrite E2.
Qed.

(** ** Maxima *)




Lemma forallb_impl {A} (f g : A -> bool) (p : list A) : (forall i, f i = true -> g i = true) -> forallb f p = true -> forallb g p = true.
Proof. intros H. rewrite !forallb_forall. eauto. Qed.









(** ** Tasks one after the other *)








Lemma idle_grand f ts : idle ts -> grand f ts = 0.
Proof. unfold idle, grand. induction 1 as [|p ts -> _ IH]; [done|exact IH]. Qed.

(** ** The loops end *)
















(** ** What tasks have done so far *)

(** Along the program, [a] plus the sum of [f] is never negative. *)
Fixpoint runs (f : atomic -> Z) (a : Z) (p : list atomic) : bool :=
  (0 <=? a) && match p with [] => true | i :: p => runs f (a + f i) p end.

(** Functions that count no [observe_max]. *)
Definition counts (f : atomic -> Z) : Prop :=
  (forall k v, f (ObserveMax k v) = 0) /\ (forall k v c, f (MaxLoop k v c) = 0).

(** What is left of a program: a tail of it, after an [observe_max] under way. *)
Definition leftover (p q : list atomic) : Prop :=
  exists pre s, q = pre ++ s /\ (exists d, p = d ++ s) /\
  (pre = [] \/ (exists k v, pre = [ObserveMax k v]) \/ exists k v c, pre = [MaxLoop k v c]).

Lemma runs_app f a p q : runs f a (p ++ q) = runs f a p && runs f (a + total f p) q.
Proof.
  revert a. induction p as [|i p IH]; intros a; cbn [app].
  - replace (a + total f []) with a by (unfold total; cbn; lia). destruct q; cbn; by destruct (0 <=? a).
  - cbn [runs]. rewrite IH, andb_assoc. change (total f (i :: p)) with (f i + total f p). by rewrite Z.add_assoc.
Qed.

Lemma runs_end f a p : runs f a p = true -> 0 <= a + total f p.
Proof.
  intros H. rewrite <- (app_nil_r p), runs_app, andb_true_iff in H. destruct H as [_ H]. simpl in H.
  rewrite andb_true_r in H. lia.
Qed.

Lemma runs_silent f a p : forallb (fun i => f i =? 0) p = true -> 0 <= a -> runs f a p = true /\ total f p = 0.
Proof.
  intros H Ha. induction p as [|i p IH]; cbn in *; [split; [by rewrite (proj2 (Z.leb_le 0 a) Ha)|done]|].
  apply andb_true_iff in H as [Hi Hp]. apply Z.eqb_eq in Hi. destruct (IH Hp) as [Hr Ht].
  rewrite Hi, Z.add_0_r, Hr, (proj2 (Z.leb_le 0 a) Ha). split; [done|]. unfold total in *. simpl. lia.
Qed.

Lemma leftover_refl p : leftover p p.
Proof. exists [], p. split; [done|]. split; [by exists []|by left]. Qed.

Lemma advance_leftover weak p m i rest m' pre :
  leftover p (i :: rest) -> advance weak m i = (m', pre) -> leftover p (pre ++ rest).
Proof.
  intros (pre0 & s & Hq & [d Hd] & Hpre) E.
  assert (Hshape : forall x, advance weak m x = (m', pre) ->
    pre = [] \/ (exists k v, pre = [ObserveMax k v]) \/ exists k v c, pre = [MaxLoop k v c]).
  { intros [] Ex; cbn in Ex; repeat case_match; injection Ex as _ <-; eauto 10. }
  destruct Hpre as [->|[(k & v & ->)|(k & v & c & ->)]]; cbn in Hq.
  - subst s. exists pre, rest. split; [done|]. split; [exists (d ++ [i]); by rewrite <- app_assoc|by eapply Hshape].
  - injection Hq as -> ->. exists pre, s. split; [done|]. split; [by exists d|by eapply Hshape].
  - injection Hq as -> ->. exists pre, s. split; [done|]. split; [by exists d|by eapply Hshape].
Qed.

Lemma steps_leftover m ts m' ts' : rtc some_task_steps (m, ts) (m', ts') -> Forall2 leftover ts ts'.
Proof.
  intros H. assert (Hgen : forall s s', rtc some_task_steps s s' -> Forall2 leftover ts s.2 -> Forall2 leftover ts s'.2).
  { clear. induction 1 as [|s1 s2 s3 [weak Hs] _ IH]; [done|]. intros H1. apply IH.
    destruct Hs as [m0 ts0 t i rest m1 pre Ht E]. cbn in *.
    destruct (Forall2_lookup_r _ _ _ _ _ H1 Ht) as (p & Hp & Hl).
    rewrite <- (list_insert_id ts t p Hp). apply Forall2_insert; [done|]. by eapply advance_leftover. }
  apply (Hgen _ _ H). cbn. apply Forall_Forall2_diag, list.Forall_true, leftover_refl.
Qed.

Lemma leftover_runs f a p q : counts f -> leftover p q -> runs f a p = true -> 0 <= a + (total f p - total f q).
Proof.
  intros [Ho Hm] (pre & s & -> & [d ->] & Hpre) Hr. rewrite runs_app in Hr. apply andb_true_iff in Hr as [Hr _].
  apply runs_end in Hr. rewrite !total_app.
  assert (total f pre = 0) as -> by (destruct Hpre as [->|[(k & v & ->)|(k & v & c & ->)]]; cbn; rewrite ?Ho, ?Hm; lia).
  lia.
Qed.

(** What all the tasks have done of [f] is at least [- a] for each. *)
Lemma steps_run f a m ts m' ts' :
  counts f -> Forall (fun p => runs f a p = true) ts -> rtc some_task_steps (m, ts) (m', ts') ->
  0 <= a * len ts + (grand f ts - grand f ts').
Proof.
  intros Hf Hr H. apply steps_leftover in H. clear m m'. unfold len, grand.
  induction H as [|p q ts ts' Hl _ IH]; cbn [fold_right length]; [lia|]. apply list.Forall_cons in Hr as [Hp Hr].
  specialize (IH Hr). pose proof (leftover_runs _ _ _ _ Hf Hl Hp). lia.
Qed.

(** A cell that each task raises at most by one holds what they have done. *)
Lemma steps_count k m ts m' ts' :
  every (adds_only k) ts = true -> 0 <= m k -> m k + len ts < 2 ^ 64 -> 0 <= m' k < 2 ^ 64 ->
  Forall (fun p => runs (added k) 0 p = true) ts -> Forall (fun p => runs (fun i => - added k i) 1 p = true) ts ->
  rtc some_task_steps (m, ts) (m', ts') -> m' k = m k + (grand (added k) ts - grand (added k) ts').
Proof.
  intros Hk H0 Hm Hm' H1 H2 H. destruct (steps_adds _ _ _ _ _ Hk H) as [_ Hc].
  assert (Hc1 : counts (added k)) by done. assert (Hc2 : counts (fun i => - added k i)) by done.
  pose proof (steps_run _ _ _ _ _ _ Hc1 H1 H) as G1. pose proof (steps_run _ _ _ _ _ _ Hc2 H2 H) as G2.
  assert (Hneg : forall ts, grand (fun i => - added k i) ts = - grand (added k) ts).
  { clear. assert (forall p, total (fun i => - added k i) p = - total (added k) p) as Ht.
    { unfold total. induction p as [|i p IH]; simpl; lia. }
    unfold grand. induction ts as [|p ts IH]; simpl; [done|]. rewrite Ht. lia. }
  rewrite !Hneg in G2. rewrite <- (wrap64_in_range (m' k)) by done.
  replace (m' k) with ((m' k + grand (added k) ts') - grand (added k) ts') by lia.
  unfold Z.sub at 1. rewrite <- wrap64_add, Hc, wrap64_add, wrap64_in_range; lia.
Qed.

Lemma advance_range weak m i k m' pre :
  adds_only k i = true -> 0 <= m k < 2 ^ 64 -> advance weak m i = (m', pre) -> 0 <= m' k < 2 ^ 64.
Proof.
  assert (Hw : forall a, 0 <= wrap64 a < 2 ^ 64) by (intros a; apply Z.mod_pos_bound; done).
  intros Hk Hm E. destruct i; cbn in *; try apply bool_decide_eq_true in Hk; repeat case_match; injection E as <- <-;
    try done; unfold put; case_decide; subst; try done; apply Hw.
Qed.

Lemma steps_range k m ts m' ts' :
  every (adds_only k) ts = true -> 0 <= m k < 2 ^ 64 -> rtc some_task_steps (m, ts) (m', ts') -> 0 <= m' k < 2 ^ 64.
Proof.
  intros Hk Hm H. remember (m, ts) as s eqn:Es. remember (m', ts') as s' eqn:Es'. revert m ts Es Hk Hm.
  induction H as [s|s [m1 ts1] s2 [weak Hs] _ IH]; intros m ts -> Hk Hm.
  - by injection Es' as -> ->.
  - destruct (step_adds _ _ _ _ _ _ Hk Hs) as [Hk1 _]. apply (IH Es' _ _ eq_refl Hk1).
    inversion Hs as [? ? t i rest ? pre Ht E]; subst. pose proof (every_lookup _ _ _ _ Hk Ht) as Hp. cbn in Hp.
    apply andb_true_iff in Hp as [Hi _]. by eapply advance_range.
Qed.




End Cells.

(** [u64::try_from(n).unwrap_or(u64::MAX)], and [duration_nanoseconds]. *)
Definition saturated (n : Z) : Z := if n <=? U64_MAX then n else U64_MAX.
Definition duration_nanoseconds (nanos : Z) : Z := saturated nanos.

(** ** The metrics of the commit coordinator *)

Module CC.
Inductive commit_field : Type :=
  | requests_total | queue_depth | queue_depth_max | queue_wait_nanoseconds_total | queue_wait_nanoseconds_max
  | groups_total | groups_completed_total | groups_rejected_total | groups_indeterminate_total
  | groups_interrupted_total | groups_in_progress | group_requests_total | group_requests_max
  | group_input_bytes_total | group_input_bytes_max | logical_batches_total | group_duration_nanoseconds_total
  | group_duration_nanoseconds_max | storage_duration_nanoseconds_total | storage_duration_nanoseconds_max.
#[global] Instance commit_field_eq_decision : EqDecision commit_field.
Proof. solve_decision. Defined.
End CC.

(** ** The operations of the coordinator *)

Definition enter_queue : list atomic := [AddThenMax CC.queue_depth CC.queue_depth_max 1].

Definition leave_queue (wait : Z) : list atomic :=
  let wait := duration_nanoseconds wait in
  [FetchSub CC.queue_depth 1; FetchAdd CC.queue_wait_nanoseconds_total wait; ObserveMax CC.queue_wait_nanoseconds_max wait].

(** [QueueMeasurement], by its flag [queued]: leaving the queue, and its drop. *)
Definition measurement_leave (queued : bool) (elapsed : Z) : bool * list atomic :=
  if queued then (false, leave_queue elapsed) else (queued, []).
Definition measurement_drop (queued : bool) (elapsed : Z) : list atomic := (measurement_leave queued elapsed).2.

(** The measurement of a request: it leaves the queue for a group or not, and is
    dropped at the end.  Its submission is counted by the task that sends it. *)
Record request_life : Type := mkRequestLife { rl_left : option Z; rl_elapsed : Z }.
Definition request_program (l : request_life) : list atomic :=
  let queued := true in
  let '(queued, leaves) := match rl_left l with Some elapsed => measurement_leave queued elapsed | None => (queued, []) end in
  enter_queue ++ leaves ++ measurement_drop queued (rl_elapsed l).
Definition submitted : list atomic := [FetchAdd CC.requests_total 1].

Inductive CommitGroupResult : Type := GCompleted | GRejected | GIndeterminate.

Definition group_start (requests input_bytes : Z) : list atomic :=
  let requests := saturated requests in
  let input_bytes := saturated input_bytes in
  [FetchAdd CC.groups_total 1; FetchAdd CC.groups_in_progress 1;
   FetchAdd CC.group_requests_total requests; ObserveMax CC.group_requests_max requests;
   FetchAdd CC.group_input_bytes_total input_bytes; ObserveMax CC.group_input_bytes_max input_bytes].

Definition observe_storage (duration : Z) : list atomic :=
  let duration := duration_nanoseconds duration in
  [FetchAdd CC.storage_duration_nanoseconds_total duration; ObserveMax CC.storage_duration_nanoseconds_max duration].

Definition group_record_end (elapsed : Z) : list atomic :=
  let duration := duration_nanoseconds elapsed in
  [FetchSub CC.groups_in_progress 1; FetchAdd CC.group_duration_nanoseconds_total duration;
   ObserveMax CC.group_duration_nanoseconds_max duration].

Definition result_field (result : CommitGroupResult) : CC.commit_field :=
  match result with
  | GCompleted => CC.groups_completed_total
  | GRejected => CC.groups_rejected_total
  | GIndeterminate => CC.groups_indeterminate_total
  end.

Definition group_finish (result : CommitGroupResult) (logical_batches elapsed : Z) : list atomic :=
  [FetchAdd CC.logical_batches_total (saturated logical_batches); FetchAdd (result_field result) 1]
  ++ group_record_end elapsed.

Definition group_drop (finished : bool) (elapsed : Z) : list atomic :=
  if negb finished then FetchAdd CC.groups_interrupted_total 1 :: group_record_end elapsed else [].

(** A group: its size, the time of its storage if it gets there, and its result
    or its interruption. *)
Record group_life : Type := mkGroupLife {
  gl_requests : Z;
  gl_input_bytes : Z;
  gl_storage : option Z;
  gl_result : option (CommitGroupResult * Z);
  gl_elapsed : Z
}.
Definition group_program (l : group_life) : list atomic :=
  group_start (gl_requests l) (gl_input_bytes l)
  ++ match gl_storage l with Some d => observe_storage d | None => [] end
  ++ match gl_result l with
     | Some (result, batches) => group_finish result batches (gl_elapsed l) ++ group_drop true (gl_elapsed l)
     | None => group_drop false (gl_elapsed l)
     end.

(** The tasks that update these cells. *)
Inductive commit_life : Type :=
| RequestLife (l : request_life)
| SubmittedLife
| GroupLife (l : group_life).

Definition commit_program (l : commit_life) : list atomic :=
  match l with
  | RequestLife l => request_program l
  | SubmittedLife => submitted
  | GroupLife l => group_program l
  end.

(** ** The metrics of the binlog *)

Module BC.
Inductive binlog_field : Type :=
  | append_attempts_total | append_accepted_total | append_rejected_total | append_indeterminate_total
  | records_accepted_total | bytes_accepted_total | records_per_append_max | bytes_per_append_max
  | append_ack_nanoseconds_total | append_ack_nanoseconds_max.
#[global] Instance binlog_field_eq_decision : EqDecision binlog_field.
Proof. solve_decision. Defined.
End BC.

(** ** The metrics of maintenance *)

Module MC.
(** The fields that measure a duration, and the three cells of each. *)
Inductive timing : Type :=
  | duration | gate_wait | serialization_wait | generation_preflush | preflush_backpressure | write_pause
  | checkpoint | snapshot_capture | snapshot_materialization | snapshot_write | rotation | predecessor_sync
  | successor_install | segment_cleanup | rollover_duration.
Inductive timing_part : Type := total | last | max.
Inductive compaction_field : Type :=
  | attempts_total | completed_total | failed_total | in_progress | preflush_backpressure_waiters_total
  | preflush_backpressure_waiters_current | sealed_bytes_total | sealed_bytes_max | preflushed_bytes_total
  | preflushed_bytes_max | preflush_growth_bytes_total | preflush_growth_bytes_max | retained_bytes_total
  | retained_bytes_max | snapshot_entries_total | snapshot_entries_last | snapshot_entries_max
  | cleanup_files_total | cleanup_bytes_total | cleanup_failures_total | rollover_attempts_total
  | rollover_completed_total | rollover_failed_total | rollover_in_progress | catalog_capacity_rejections_total
  | full_catalog_snapshots_total
  | phase (t : timing) (p : timing_part).
#[global] Instance timing_eq_decision : EqDecision timing.
Proof. solve_decision. Defined.
#[global] Instance timing_part_eq_decision : EqDecision timing_part.
Proof. solve_decision. Defined.
#[global] Instance compaction_field_eq_decision : EqDecision compaction_field.
Proof. solve_decision. Defined.
End MC.

Module MS.
Inductive compaction_snapshot_field : Type :=
  | attempts_total | completed_total | failed_total | in_progress | duration_nanoseconds_total
  | duration_nanoseconds_last | duration_nanoseconds_max | gate_wait_nanoseconds_total
  | gate_wait_nanoseconds_max | serialization_wait_nanoseconds_total | serialization_wait_nanoseconds_max
  | generation_preflush_nanoseconds_total | generation_preflush_nanoseconds_max
  | preflush_backpressure_nanoseconds_total | preflush_backpressure_nanoseconds_max
  | preflush_backpressure_waiters_total | preflush_backpressure_waiters_current | write_pause_nanoseconds_total
  | write_pause_nanoseconds_max | checkpoint_nanoseconds_total | checkpoint_nanoseconds_max
  | snapshot_capture_nanoseconds_total | snapshot_capture_nanoseconds_max
  | snapshot_materialization_nanoseconds_total | snapshot_materialization_nanoseconds_max
  | snapshot_write_nanoseconds_total | snapshot_write_nanoseconds_max | rotation_nanoseconds_total
  | rotation_nanoseconds_max | predecessor_sync_nanoseconds_total | predecessor_sync_nanoseconds_max
  | successor_install_nanoseconds_total | successor_install_nanoseconds_max | segment_cleanup_nanoseconds_total
  | segment_cleanup_nanoseconds_max | sealed_bytes_total | sealed_bytes_max | preflushed_bytes_total
  | preflushed_bytes_max | preflush_growth_bytes_total | preflush_growth_bytes_max | retained_bytes_total
  | retained_bytes_max | snapshot_entries_total | snapshot_entries_last | snapshot_entries_max
  | cleanup_files_total | cleanup_bytes_total | cleanup_failures_total | rollover_attempts_total
  | rollover_completed_total | rollover_failed_total | rollover_in_progress
  | rollover_duration_nanoseconds_total | rollover_duration_nanoseconds_max | catalog_capacity_rejections_total
  | full_catalog_snapshots_total.
End MS.

(** [CompactionMetrics::snapshot]; [m] is what the load of each cell finds. *)
Definition compaction_snapshot (m : MC.compaction_field -> Z) (f : MS.compaction_snapshot_field) : Z :=
  m match f with
    | MS.attempts_total => MC.attempts_total
    | MS.completed_total => MC.completed_total
    | MS.failed_total => MC.failed_total
    | MS.in_progress => MC.in_progress
    | MS.duration_nanoseconds_total => MC.phase MC.duration MC.total
    | MS.duration_nanoseconds_last => MC.phase MC.duration MC.last
    | MS.duration_nanoseconds_max => MC.phase MC.duration MC.max
    | MS.gate_wait_nanoseconds_total => MC.phase MC.gate_wait MC.total
    | MS.gate_wait_nanoseconds_max => MC.phase MC.gate_wait MC.max
    | MS.serialization_wait_nanoseconds_total => MC.phase MC.serialization_wait MC.total
    | MS.serialization_wait_nanoseconds_max => MC.phase MC.serialization_wait MC.max
    | MS.generation_preflush_nanoseconds_total => MC.phase MC.generation_preflush MC.total
    | MS.generation_preflush_nanoseconds_max => MC.phase MC.generation_preflush MC.max
    | MS.preflush_backpressure_nanoseconds_total => MC.phase MC.preflush_backpressure MC.total
    | MS.preflush_backpressure_nanoseconds_max => MC.phase MC.preflush_backpressure MC.max
    | MS.preflush_backpressure_waiters_total => MC.preflush_backpressure_waiters_total
    | MS.preflush_backpressure_waiters_current => MC.preflush_backpressure_waiters_current
    | MS.write_pause_nanoseconds_total => MC.phase MC.write_pause MC.total
    | MS.write_pause_nanoseconds_max => MC.phase MC.write_pause MC.max
    | MS.checkpoint_nanoseconds_total => MC.phase MC.checkpoint MC.total
    | MS.checkpoint_nanoseconds_max => MC.phase MC.checkpoint MC.max
    | MS.snapshot_capture_nanoseconds_total => MC.phase MC.snapshot_capture MC.total
    | MS.snapshot_capture_nanoseconds_max => MC.phase MC.snapshot_capture MC.max
    | MS.snapshot_materialization_nanoseconds_total => MC.phase MC.snapshot_materialization MC.total
    | MS.snapshot_materialization_nanoseconds_max => MC.phase MC.snapshot_materialization MC.max
    | MS.snapshot_write_nanoseconds_total => MC.phase MC.snapshot_write MC.total
    | MS.snapshot_write_nanoseconds_max => MC.phase MC.snapshot_write MC.max
    | MS.rotation_nanoseconds_total => MC.phase MC.rotation MC.total
    | MS.rotation_nanoseconds_max => MC.phase MC.rotation MC.max
    | MS.predecessor_sync_nanoseconds_total => MC.phase MC.predecessor_sync MC.total
    | MS.predecessor_sync_nanoseconds_max => MC.phase MC.predecessor_sync MC.max
    | MS.successor_install_nanoseconds_total => MC.phase MC.successor_install MC.total
    | MS.successor_install_nanoseconds_max => MC.phase MC.successor_install MC.max
    | MS.segment_cleanup_nanoseconds_total => MC.phase MC.segment_cleanup MC.total
    | MS.segment_cleanup_nanoseconds_max => MC.phase MC.segment_cleanup MC.max
    | MS.sealed_bytes_total => MC.sealed_bytes_total
    | MS.sealed_bytes_max => MC.sealed_bytes_max
    | MS.preflushed_bytes_total => MC.preflushed_bytes_total
    | MS.preflushed_bytes_max => MC.preflushed_bytes_max
    | MS.preflush_growth_bytes_total => MC.preflush_growth_bytes_total
    | MS.preflush_growth_bytes_max => MC.preflush_growth_bytes_max
    | MS.retained_bytes_total => MC.retained_bytes_total
    | MS.retained_bytes_max => MC.retained_bytes_max
    | MS.snapshot_entries_total => MC.snapshot_entries_total
    | MS.snapshot_entries_last => MC.snapshot_entries_last
    | MS.snapshot_entries_max => MC.snapshot_entries_max
    | MS.cleanup_files_total => MC.cleanup_files_total
    | MS.cleanup_bytes_total => MC.cleanup_bytes_total
    | MS.cleanup_failures_total => MC.cleanup_failures_total
    | MS.rollover_attempts_total => MC.rollover_attempts_total
    | MS.rollover_completed_total => MC.rollover_completed_total
    | MS.rollover_failed_total => MC.rollover_failed_total
    | MS.rollover_in_progress => MC.rollover_in_progress
    | MS.rollover_duration_nanoseconds_total => MC.phase MC.rollover_duration MC.total
    | MS.rollover_duration_nanoseconds_max => MC.phase MC.rollover_duration MC.max
    | MS.catalog_capacity_rejections_total => MC.catalog_capacity_rejections_total
    | MS.full_catalog_snapshots_total => MC.full_catalog_snapshots_total
    end.

(** ** The operations of the binlog *)

Definition record_append (records bytes elapsed : Z) (disposition : result StorageFailureDisposition unit) : list atomic :=
  let elapsed := duration_nanoseconds elapsed in
  [FetchAdd BC.append_attempts_total 1; FetchAdd BC.append_ack_nanoseconds_total elapsed;
   ObserveMax BC.append_ack_nanoseconds_max elapsed]
  ++ match disposition with
     | Ok _ =>
       let records := saturated records in
       let bytes := saturated bytes in
       [FetchAdd BC.append_accepted_total 1; FetchAdd BC.records_accepted_total records;
        FetchAdd BC.bytes_accepted_total bytes; ObserveMax BC.records_per_append_max records;
        ObserveMax BC.bytes_per_append_max bytes]
     | Err BinlogIo.Rejected => [FetchAdd BC.append_rejected_total 1]
     | Err BinlogIo.Indeterminate => [FetchAdd BC.append_indeterminate_total 1]
     end.

(** ** The operations of maintenance *)

Definition duration_observe (t : MC.timing) (elapsed : Z) : list atomic :=
  let duration := duration_nanoseconds elapsed in
  [FetchAdd (MC.phase t MC.total) duration; StoreCell (MC.phase t MC.last) duration; ObserveMax (MC.phase t MC.max) duration].

Definition observe_sealed_bytes (sealed_bytes : Z) : list atomic :=
  [FetchAdd MC.sealed_bytes_total sealed_bytes; ObserveMax MC.sealed_bytes_max sealed_bytes].

(** [BinlogSealOutcome] is given by its three fields. *)
Definition observe_seal_phases (bytes predecessor_sync successor_install : Z) : list atomic :=
  if 0 <? bytes
  then duration_observe MC.predecessor_sync predecessor_sync ++ duration_observe MC.successor_install successor_install
  else [].

Definition observe_preflush (preflushed_bytes elapsed : Z) : list atomic :=
  duration_observe MC.generation_preflush elapsed
  ++ [FetchAdd MC.preflushed_bytes_total preflushed_bytes; ObserveMax MC.preflushed_bytes_max preflushed_bytes].

Definition observe_preflush_growth (growth_bytes : Z) : list atomic :=
  [FetchAdd MC.preflush_growth_bytes_total growth_bytes; ObserveMax MC.preflush_growth_bytes_max growth_bytes].

Definition observe_retained_bytes (retained_bytes : Z) : list atomic :=
  [FetchAdd MC.retained_bytes_total retained_bytes; ObserveMax MC.retained_bytes_max retained_bytes].

Definition observe_snapshot_entries (entry_count : Z) : list atomic :=
  let entry_count := saturated entry_count in
  [FetchAdd MC.snapshot_entries_total entry_count; StoreCell MC.snapshot_entries_last entry_count;
   ObserveMax MC.snapshot_entries_max entry_count].

Definition observe_cleanup (cleanup : BinlogSegmentCleanup) (elapsed : Z) : list atomic :=
  duration_observe MC.segment_cleanup elapsed
  ++ [FetchAdd MC.cleanup_files_total (removed_files cleanup); FetchAdd MC.cleanup_bytes_total (removed_bytes cleanup);
      FetchAdd MC.cleanup_failures_total (failed_files cleanup)].

(** The observations a compaction or a rollover makes between its start and its
    end. *)
Inductive observation : Type :=
| Waited (t : MC.timing) (elapsed : Z)
| SealedBytes (n : Z)
| SealPhases (bytes predecessor_sync successor_install : Z)
| Preflushed (n elapsed : Z)
| PreflushGrowth (n : Z)
| RetainedBytes (n : Z)
| SnapshotEntries (n : Z)
| CleanedUp (cleanup : BinlogSegmentCleanup) (elapsed : Z)
| CatalogRejected
| FullCatalogSnapshot.

Definition observe (o : observation) : list atomic :=
  match o with
  | Waited t elapsed => duration_observe t elapsed
  | SealedBytes n => observe_sealed_bytes n
  | SealPhases b p s => observe_seal_phases b p s
  | Preflushed n elapsed => observe_preflush n elapsed
  | PreflushGrowth n => observe_preflush_growth n
  | RetainedBytes n => observe_retained_bytes n
  | SnapshotEntries n => observe_snapshot_entries n
  | CleanedUp cleanup elapsed => observe_cleanup cleanup elapsed
  | CatalogRejected => [FetchAdd MC.catalog_capacity_rejections_total 1]
  | FullCatalogSnapshot => [FetchAdd MC.full_catalog_snapshots_total 1]
  end.

(** [CompactionMeasurement]: start, finish, and drop by its flag [finished]. *)
Definition compaction_start : list atomic := [FetchAdd MC.attempts_total 1; FetchAdd MC.in_progress 1].
Definition compaction_record_end (elapsed : Z) : list atomic :=
  FetchSub MC.in_progress 1 :: duration_observe MC.duration elapsed.
Definition compaction_finish (success : bool) (elapsed : Z) : list atomic :=
  FetchAdd (if success then MC.completed_total else MC.failed_total) 1 :: compaction_record_end elapsed.
Definition compaction_drop (finished : bool) (elapsed : Z) : list atomic :=
  if negb finished then FetchAdd MC.failed_total 1 :: compaction_record_end elapsed else [].

(** [RolloverMeasurement]. *)
Definition rollover_start : list atomic := [FetchAdd MC.rollover_attempts_total 1; FetchAdd MC.rollover_in_progress 1].
Definition rollover_record_end (elapsed : Z) : list atomic :=
  FetchSub MC.rollover_in_progress 1 :: duration_observe MC.rollover_duration elapsed.
Definition rollover_finish (success : bool) (elapsed : Z) : list atomic :=
  FetchAdd (if success then MC.rollover_completed_total else MC.rollover_failed_total) 1 :: rollover_record_end elapsed.
Definition rollover_drop (finished : bool) (elapsed : Z) : list atomic :=
  if negb finished then FetchAdd MC.rollover_failed_total 1 :: rollover_record_end elapsed else [].

(** [PreflushBackpressureWait]: a commit that waits for the write budget. *)
Definition begin_preflush_backpressure : list atomic :=
  [FetchAdd MC.preflush_backpressure_waiters_total 1; FetchAdd MC.preflush_backpressure_waiters_current 1].
Definition end_preflush_backpressure (elapsed : Z) : list atomic :=
  duration_observe MC.preflush_backpressure elapsed ++ [FetchSub MC.preflush_backpressure_waiters_current 1].

(** The tasks that update these cells; a task without a [result] is interrupted. *)
Inductive maintenance_life : Type :=
| CompactionLife (during : list observation) (result : option bool) (elapsed : Z)
| RolloverLife (during : list observation) (result : option bool) (elapsed : Z)
| BackpressureLife (elapsed : Z).

Definition maintenance_program (l : maintenance_life) : list atomic :=
  match l with
  | CompactionLife during result elapsed =>
    compaction_start ++ concat (map observe during)
    ++ match result with
       | Some success => compaction_finish success elapsed ++ compaction_drop true elapsed
       | None => compaction_drop false elapsed
       end
  | RolloverLife during result elapsed =>
    rollover_start ++ concat (map observe during)
    ++ match result with
       | Some success => rollover_finish success elapsed ++ rollover_drop true elapsed
       | None => rollover_drop false elapsed
       end
  | BackpressureLife elapsed => begin_preflush_backpressure ++ end_preflush_backpressure elapsed
  end.

(** ** The text of the metrics *)

(** A value as [Display] writes it: an integer, or an [f64] by its bits. *)
Inductive metric_value : Type := Count (n : Z) | Seconds (d : Z).

Record metric : Type := mkMetric { mt_name : bytes; mt_help : bytes; mt_type : bytes; mt_value : metric_value }.

(** [nanoseconds as f64 / 1_000_000_000.0]. *)
Definition f64_of (n : Z) : spec_float := binary_normalize F64.prec F64.emax n 0 false.
Definition seconds (nanoseconds : Z) : metric_value :=
  Seconds (F64.encode (SFdiv F64.prec F64.emax (f64_of nanoseconds) (f64_of 1000000000))).

Definition counter (name help : bytes) (v : metric_value) : metric := mkMetric name help (bs "counter") v.
Definition gauge (name help : bytes) (v : metric_value) : metric := mkMetric name help (bs "gauge") v.

(** The process, its data and its replicas. *)
Definition process_metrics (uptime num_keys used_memory repl_offset : Z) (c : ProcessCounters) (statuses : list ReplicaStatus) : list metric :=
  let max_lag := fold_right Z.max 0 (map (fun s => sat_sub repl_offset (last_ack_offset s)) statuses) in
  [
   counter (bs "onyxdb_uptime_seconds") (bs "Server uptime in seconds")
     (Count uptime);
   gauge (bs "onyxdb_keys_total") (bs "Number of currently present keys")
     (Count num_keys);
   gauge (bs "onyxdb_active_connections") (bs "Number of active client connections")
     (Count (ACTIVE_CONNECTIONS c));
   counter (bs "onyxdb_commands_total") (bs "Total number of executed commands")
     (Count (TOTAL_COMMANDS c));
   counter (bs "onyxdb_cache_hits_total") (bs "Number of successful key reads")
     (Count (CACHE_HITS c));
   counter (bs "onyxdb_cache_misses_total") (bs "Number of reads for missing keys")
     (Count (CACHE_MISSES c));
   gauge (bs "onyxdb_is_master") (bs "1 when this instance is a master, 0 when it is a replica")
     (Count (if IS_REPLICA c then 0 else 1));
   counter (bs "onyxdb_replication_offset") (bs "Current committed replication sequence")
     (Count repl_offset);
   gauge (bs "onyxdb_connected_replicas") (bs "Number of currently connected replicas")
     (Count (len statuses));
   gauge (bs "onyxdb_max_replica_lag") (bs "Largest connected-replica sequence lag")
     (Count max_lag);
   gauge (bs "onyxdb_memory_bytes") (bs "Approximate logical dataset bytes")
     (Count used_memory)
  ].

(** The commit coordinator; [m] is the snapshot of its cells. *)
Definition commit_metrics (m : CC.commit_field -> Z) : list metric :=
  [
   counter (bs "onyxdb_commit_requests_total") (bs "Commit requests admitted to the coordinator")
     (Count (m CC.requests_total));
   gauge (bs "onyxdb_commit_queue_depth") (bs "Commit requests currently waiting for coordinator execution")
     (Count (m CC.queue_depth));
   gauge (bs "onyxdb_commit_queue_depth_max") (bs "Highest observed commit coordinator queue depth")
     (Count (m CC.queue_depth_max));
   counter (bs "onyxdb_commit_groups_total") (bs "Physical coordinator execution groups started")
     (Count (m CC.groups_total));
   counter (bs "onyxdb_commit_groups_completed_total") (bs "Coordinator groups completed authoritatively")
     (Count (m CC.groups_completed_total));
   counter (bs "onyxdb_commit_groups_rejected_total") (bs "Coordinator groups definitively rejected")
     (Count (m CC.groups_rejected_total));
   counter (bs "onyxdb_commit_groups_indeterminate_total") (bs "Coordinator groups with indeterminate persistence outcomes")
     (Count (m CC.groups_indeterminate_total));
   counter (bs "onyxdb_commit_groups_interrupted_total") (bs "Coordinator groups interrupted before an authoritative outcome")
     (Count (m CC.groups_interrupted_total));
   gauge (bs "onyxdb_commit_groups_in_progress") (bs "Coordinator groups currently in progress")
     (Count (m CC.groups_in_progress));
   counter (bs "onyxdb_commit_group_requests_total") (bs "Requests included across all coordinator groups")
     (Count (m CC.group_requests_total));
   gauge (bs "onyxdb_commit_group_requests_max") (bs "Largest observed coordinator group by request count")
     (Count (m CC.group_requests_max));
   counter (bs "onyxdb_commit_group_input_bytes_total") (bs "Estimated decoded input bytes included across coordinator groups")
     (Count (m CC.group_input_bytes_total));
   gauge (bs "onyxdb_commit_group_input_bytes_max") (bs "Largest observed coordinator group by estimated decoded input bytes")
     (Count (m CC.group_input_bytes_max));
   counter (bs "onyxdb_commit_logical_batches_total") (bs "Logical committed batches processed by the coordinator")
     (Count (m CC.logical_batches_total));
   counter (bs "onyxdb_commit_queue_wait_seconds_total") (bs "Cumulative time requests spent waiting in the coordinator queue")
     (seconds (m CC.queue_wait_nanoseconds_total));
   gauge (bs "onyxdb_commit_queue_wait_seconds_max") (bs "Longest observed coordinator queue wait")
     (seconds (m CC.queue_wait_nanoseconds_max));
   counter (bs "onyxdb_commit_group_duration_seconds_total") (bs "Cumulative coordinator group execution time")
     (seconds (m CC.group_duration_nanoseconds_total));
   gauge (bs "onyxdb_commit_group_duration_seconds_max") (bs "Longest observed coordinator group execution time")
     (seconds (m CC.group_duration_nanoseconds_max));
   counter (bs "onyxdb_commit_storage_duration_seconds_total") (bs "Cumulative grouped persistence and publication wait time")
     (seconds (m CC.storage_duration_nanoseconds_total));
   gauge (bs "onyxdb_commit_storage_duration_seconds_max") (bs "Longest observed grouped persistence and publication wait")
     (seconds (m CC.storage_duration_nanoseconds_max))
  ].

(** Appends to the binlog. *)
Definition binlog_metrics (m : BC.binlog_field -> Z) : list metric :=
  [
   counter (bs "onyxdb_binlog_append_attempts_total") (bs "Binlog append operations attempted")
     (Count (m BC.append_attempts_total));
   counter (bs "onyxdb_binlog_append_accepted_total") (bs "Binlog append operations accepted")
     (Count (m BC.append_accepted_total));
   counter (bs "onyxdb_binlog_append_rejected_total") (bs "Binlog append operations definitively rejected")
     (Count (m BC.append_rejected_total));
   counter (bs "onyxdb_binlog_append_indeterminate_total") (bs "Binlog append operations with indeterminate outcomes")
     (Count (m BC.append_indeterminate_total));
   counter (bs "onyxdb_binlog_records_accepted_total") (bs "Logical ONX4 records accepted by binlog append operations")
     (Count (m BC.records_accepted_total));
   counter (bs "onyxdb_binlog_bytes_accepted_total") (bs "Framed ONX4 bytes accepted by binlog append operations")
     (Count (m BC.bytes_accepted_total));
   gauge (bs "onyxdb_binlog_records_per_append_max") (bs "Largest accepted binlog append by record count")
     (Count (m BC.records_per_append_max));
   gauge (bs "onyxdb_binlog_bytes_per_append_max") (bs "Largest accepted binlog append by framed bytes")
     (Count (m BC.bytes_per_append_max));
   counter (bs "onyxdb_binlog_append_ack_seconds_total") (bs "Cumulative binlog append submission-to-acknowledgement time")
     (seconds (m BC.append_ack_nanoseconds_total));
   gauge (bs "onyxdb_binlog_append_ack_seconds_max") (bs "Longest observed binlog append submission-to-acknowledgement time")
     (seconds (m BC.append_ack_nanoseconds_max))
  ].

(** Maintenance: its state and its limits. *)
Definition runtime_metrics (r : CommitRuntime) : list metric :=
  [
   gauge (bs "onyxdb_compaction_pending") (bs "1 when automatic compaction is scheduled or active")
     (Count (Z.b2z (rt_compaction_pending r)));
   gauge (bs "onyxdb_compaction_writes_since_snapshot") (bs "Committed mutation records not yet amortized by a completed snapshot")
     (Count (rt_write_count r));
   gauge (bs "onyxdb_compaction_record_threshold") (bs "Current mutation-record threshold for automatic compaction")
     (Count (compaction_record_threshold r COMPACTION_THRESHOLD));
   gauge (bs "onyxdb_binlog_active_generation_bytes") (bs "Framed ONX4 bytes currently retained in the active binlog generation")
     (Count (rt_active_bytes r));
   gauge (bs "onyxdb_binlog_generation_target_bytes") (bs "Active-generation byte threshold for automatic rollover")
     (Count BINLOG_GENERATION_TARGET_BYTES);
   gauge (bs "onyxdb_binlog_generation_admission_limit_bytes") (bs "Pending-rollover admission limit before one bounded in-flight group overshoot")
     (Count BINLOG_GENERATION_ADMISSION_LIMIT_BYTES);
   gauge (bs "onyxdb_binlog_rollover_backpressure_active") (bs "1 while commit admission is stopped at the pending-rollover byte limit")
     (Count (Z.b2z (rollover_backpressure_active r)));
   gauge (bs "onyxdb_binlog_unsnapshotted_segments") (bs "Immutable binlog segments not yet covered by the installed snapshot")
     (Count (rt_unsnapshotted r));
   gauge (bs "onyxdb_binlog_unsnapshotted_segment_limit") (bs "Segment-count threshold that forces snapshot compaction before the recovery limit")
     (Count MAX_UNSNAPSHOTTED_BINLOG_SEGMENTS);
   gauge (bs "onyxdb_binlog_physical_segments") (bs "Immutable binlog segments physically present after authoritative cleanup accounting")
     (Count (rt_physical r));
   gauge (bs "onyxdb_binlog_physical_segment_limit") (bs "Maximum immutable segment count accepted by recovery")
     (Count MAX_BINLOG_SEGMENTS);
   gauge (bs "onyxdb_binlog_physical_segment_snapshot_pressure") (bs "Physical segment count that requests proactive snapshot cleanup")
     (Count BINLOG_SEGMENT_SNAPSHOT_PRESSURE);
   gauge (bs "onyxdb_binlog_physical_segment_rollover_limit") (bs "Physical segment count reserved from independent rollover for snapshot recovery")
     (Count BINLOG_SEGMENT_ROLLOVER_LIMIT);
   gauge (bs "onyxdb_binlog_segment_cleanup_blocked") (bs "1 when the most recent authoritative segment cleanup retained one or more covered files")
     (Count (Z.b2z (rt_cleanup_blocked r)));
   gauge (bs "onyxdb_binlog_segment_catalog_unavailable") (bs "1 when segment catalog enumeration or directory synchronization is not authoritative")
     (Count (Z.b2z (rt_catalog_unavailable r)));
   gauge (bs "onyxdb_binlog_segment_catalog_backpressure_active") (bs "1 while commit admission is stopped to preserve recoverable segment-catalog capacity")
     (Count (Z.b2z (segment_catalog_backpressure_active r)));
   gauge (bs "onyxdb_binlog_rollover_pending") (bs "1 when automatic active-generation rollover is scheduled or active")
     (Count (Z.b2z (rt_rollover_pending r)));
   gauge (bs "onyxdb_compaction_preflush_write_budget_active") (bs "1 while preflush growth is subject to commit-path byte budgeting")
     (Count (Z.b2z (compaction_write_budget_active r)));
   gauge (bs "onyxdb_compaction_preflush_write_budget_bytes") (bs "Commit admission byte budget during preflush before bounded in-flight group overshoot")
     (Count COMPACTION_PREFLUSH_WRITE_BUDGET_BYTES)
  ].

(** Maintenance: compactions and rollovers; [m] is the snapshot of the cells. *)
Definition compaction_counts (m : MS.compaction_snapshot_field -> Z) : list metric :=
  [
   counter (bs "onyxdb_compaction_attempts_total") (bs "Snapshot compaction attempts started")
     (Count (m MS.attempts_total));
   counter (bs "onyxdb_compaction_completed_total") (bs "Snapshot compactions completed")
     (Count (m MS.completed_total));
   counter (bs "onyxdb_compaction_failed_total") (bs "Snapshot compactions that failed or were interrupted")
     (Count (m MS.failed_total));
   gauge (bs "onyxdb_compaction_in_progress") (bs "Snapshot compaction attempts currently active or waiting for baseline ownership")
     (Count (m MS.in_progress));
   counter (bs "onyxdb_binlog_rollover_attempts_total") (bs "Independent active-generation rollover attempts started")
     (Count (m MS.rollover_attempts_total));
   counter (bs "onyxdb_binlog_rollover_completed_total") (bs "Independent active-generation rollovers completed")
     (Count (m MS.rollover_completed_total));
   counter (bs "onyxdb_binlog_rollover_failed_total") (bs "Independent active-generation rollovers that failed or were interrupted")
     (Count (m MS.rollover_failed_total));
   gauge (bs "onyxdb_binlog_rollover_in_progress") (bs "Independent active-generation rollover attempts currently active")
     (Count (m MS.rollover_in_progress));
   counter (bs "onyxdb_binlog_catalog_capacity_rejections_total") (bs "Independent rollovers rejected to preserve snapshot catalog capacity")
     (Count (m MS.catalog_capacity_rejections_total));
   counter (bs "onyxdb_compaction_full_catalog_snapshots_total") (bs "Snapshots captured without sealing because the physical segment catalog was full")
     (Count (m MS.full_catalog_snapshots_total))
  ].

(** Maintenance: whole tasks and their waits. *)
Definition rollover_durations (m : MS.compaction_snapshot_field -> Z) : list metric :=
  [
   counter (bs "onyxdb_binlog_rollover_duration_seconds_total") (bs "Cumulative independent active-generation rollover duration")
     (seconds (m MS.rollover_duration_nanoseconds_total));
   gauge (bs "onyxdb_binlog_rollover_duration_seconds_max") (bs "Longest independent active-generation rollover attempt")
     (seconds (m MS.rollover_duration_nanoseconds_max));
   counter (bs "onyxdb_compaction_duration_seconds_total") (bs "Cumulative snapshot compaction duration")
     (seconds (m MS.duration_nanoseconds_total));
   gauge (bs "onyxdb_compaction_duration_seconds_last") (bs "Duration of the most recently completed compaction attempt")
     (seconds (m MS.duration_nanoseconds_last));
   gauge (bs "onyxdb_compaction_duration_seconds_max") (bs "Longest observed compaction attempt")
     (seconds (m MS.duration_nanoseconds_max));
   counter (bs "onyxdb_compaction_gate_wait_seconds_total") (bs "Cumulative time compaction attempts waited for the authoritative commit boundary")
     (seconds (m MS.gate_wait_nanoseconds_total));
   gauge (bs "onyxdb_compaction_gate_wait_seconds_max") (bs "Longest observed compaction commit-boundary wait")
     (seconds (m MS.gate_wait_nanoseconds_max));
   counter (bs "onyxdb_compaction_serialization_wait_seconds_total") (bs "Cumulative time compaction attempts waited for baseline-replacement ownership")
     (seconds (m MS.serialization_wait_nanoseconds_total));
   gauge (bs "onyxdb_compaction_serialization_wait_seconds_max") (bs "Longest observed wait for baseline-replacement ownership")
     (seconds (m MS.serialization_wait_nanoseconds_max));
   counter (bs "onyxdb_compaction_generation_preflush_seconds_total") (bs "Cumulative active-generation preflush time outside the commit boundary")
     (seconds (m MS.generation_preflush_nanoseconds_total));
   gauge (bs "onyxdb_compaction_generation_preflush_seconds_max") (bs "Longest observed active-generation preflush outside the commit boundary")
     (seconds (m MS.generation_preflush_nanoseconds_max));
   counter (bs "onyxdb_compaction_preflush_backpressure_seconds_total") (bs "Cumulative commit admission wait after preflush growth exhausted its byte budget")
     (seconds (m MS.preflush_backpressure_nanoseconds_total));
   gauge (bs "onyxdb_compaction_preflush_backpressure_seconds_max") (bs "Longest commit admission wait caused by an exhausted preflush byte budget")
     (seconds (m MS.preflush_backpressure_nanoseconds_max));
   counter (bs "onyxdb_compaction_write_pause_seconds_total") (bs "Cumulative time authoritative commits were paused for rollover, snapshot capture, or final checkpointing")
     (seconds (m MS.write_pause_nanoseconds_total));
   gauge (bs "onyxdb_compaction_write_pause_seconds_max") (bs "Longest observed individual compaction commit-path pause")
     (seconds (m MS.write_pause_nanoseconds_max))
  ].

(** Maintenance: the phases of a compaction. *)
Definition compaction_durations (m : MS.compaction_snapshot_field -> Z) : list metric :=
  [
   counter (bs "onyxdb_compaction_checkpoint_seconds_total") (bs "Cumulative ordered binlog checkpoint time")
     (seconds (m MS.checkpoint_nanoseconds_total));
   gauge (bs "onyxdb_compaction_checkpoint_seconds_max") (bs "Longest observed ordered binlog checkpoint")
     (seconds (m MS.checkpoint_nanoseconds_max));
   counter (bs "onyxdb_compaction_barrier_seconds_total") (bs "Compatibility alias for cumulative ordered binlog checkpoint time")
     (seconds (m MS.checkpoint_nanoseconds_total));
   gauge (bs "onyxdb_compaction_barrier_seconds_max") (bs "Compatibility alias for the longest ordered binlog checkpoint")
     (seconds (m MS.checkpoint_nanoseconds_max));
   counter (bs "onyxdb_compaction_snapshot_capture_seconds_total") (bs "Cumulative in-memory snapshot capture time")
     (seconds (m MS.snapshot_capture_nanoseconds_total));
   gauge (bs "onyxdb_compaction_snapshot_capture_seconds_max") (bs "Longest observed in-memory snapshot capture")
     (seconds (m MS.snapshot_capture_nanoseconds_max));
   counter (bs "onyxdb_compaction_snapshot_materialization_seconds_total") (bs "Cumulative copy-on-write snapshot materialization time outside the commit boundary")
     (seconds (m MS.snapshot_materialization_nanoseconds_total));
   gauge (bs "onyxdb_compaction_snapshot_materialization_seconds_max") (bs "Longest copy-on-write snapshot materialization outside the commit boundary")
     (seconds (m MS.snapshot_materialization_nanoseconds_max));
   counter (bs "onyxdb_compaction_snapshot_write_seconds_total") (bs "Cumulative snapshot encoding and durable installation time")
     (seconds (m MS.snapshot_write_nanoseconds_total));
   gauge (bs "onyxdb_compaction_snapshot_write_seconds_max") (bs "Longest observed snapshot encoding and durable installation")
     (seconds (m MS.snapshot_write_nanoseconds_max));
   counter (bs "onyxdb_compaction_segment_cleanup_seconds_total") (bs "Cumulative snapshot-covered binlog segment cleanup time outside the commit boundary")
     (seconds (m MS.segment_cleanup_nanoseconds_total));
   gauge (bs "onyxdb_compaction_segment_cleanup_seconds_max") (bs "Longest observed snapshot-covered binlog segment cleanup")
     (seconds (m MS.segment_cleanup_nanoseconds_max));
   counter (bs "onyxdb_compaction_rotation_seconds_total") (bs "Cumulative active binlog generation sealing time")
     (seconds (m MS.rotation_nanoseconds_total));
   gauge (bs "onyxdb_compaction_rotation_seconds_max") (bs "Longest observed active binlog generation sealing")
     (seconds (m MS.rotation_nanoseconds_max));
   counter (bs "onyxdb_compaction_predecessor_sync_seconds_total") (bs "Cumulative predecessor flush and file synchronization time during successful generation seals")
     (seconds (m MS.predecessor_sync_nanoseconds_total));
   gauge (bs "onyxdb_compaction_predecessor_sync_seconds_max") (bs "Longest predecessor flush and file synchronization during a successful generation seal")
     (seconds (m MS.predecessor_sync_nanoseconds_max));
   counter (bs "onyxdb_compaction_successor_install_seconds_total") (bs "Cumulative durable rename, successor creation, and directory synchronization time during successful generation seals")
     (seconds (m MS.successor_install_nanoseconds_total));
   gauge (bs "onyxdb_compaction_successor_install_seconds_max") (bs "Longest durable successor installation during a successful generation seal")
     (seconds (m MS.successor_install_nanoseconds_max))
  ].

(** Maintenance: bytes, waiters, entries and segments. *)
Definition compaction_sizes (m : MS.compaction_snapshot_field -> Z) : list metric :=
  [
   counter (bs "onyxdb_compaction_preflushed_binlog_bytes_total") (bs "Active binlog bytes covered by preflush attempts before generation sealing")
     (Count (m MS.preflushed_bytes_total));
   gauge (bs "onyxdb_compaction_preflushed_binlog_bytes_max") (bs "Largest active binlog generation covered by one compaction preflush")
     (Count (m MS.preflushed_bytes_max));
   counter (bs "onyxdb_compaction_preflush_growth_bytes_total") (bs "Binlog bytes accepted after preflush started and before generation sealing")
     (Count (m MS.preflush_growth_bytes_total));
   gauge (bs "onyxdb_compaction_preflush_growth_bytes_max") (bs "Largest binlog growth observed during one active-generation preflush")
     (Count (m MS.preflush_growth_bytes_max));
   counter (bs "onyxdb_compaction_preflush_backpressure_waiters_total") (bs "Commit-boundary acquisitions delayed by an exhausted preflush byte budget")
     (Count (m MS.preflush_backpressure_waiters_total));
   gauge (bs "onyxdb_compaction_preflush_backpressure_waiters_current") (bs "Commit-boundary acquisitions currently delayed by an exhausted preflush byte budget")
     (Count (m MS.preflush_backpressure_waiters_current));
   counter (bs "onyxdb_compaction_snapshot_entries_total") (bs "Logical entries materialized across snapshot attempts")
     (Count (m MS.snapshot_entries_total));
   gauge (bs "onyxdb_compaction_snapshot_entries_last") (bs "Logical entries in the most recently materialized snapshot")
     (Count (m MS.snapshot_entries_last));
   gauge (bs "onyxdb_compaction_snapshot_entries_max") (bs "Largest logical entry count materialized by one snapshot attempt")
     (Count (m MS.snapshot_entries_max));
   counter (bs "onyxdb_compaction_sealed_binlog_bytes_total") (bs "Active binlog bytes moved into immutable segments across rollover and snapshot attempts")
     (Count (m MS.sealed_bytes_total));
   gauge (bs "onyxdb_compaction_sealed_binlog_bytes_max") (bs "Largest active binlog generation sealed by one compaction")
     (Count (m MS.sealed_bytes_max));
   counter (bs "onyxdb_compaction_retained_binlog_bytes_total") (bs "Active binlog bytes retained at completed snapshot checkpoints")
     (Count (m MS.retained_bytes_total));
   gauge (bs "onyxdb_compaction_retained_binlog_bytes_max") (bs "Largest active binlog file retained at a completed snapshot checkpoint")
     (Count (m MS.retained_bytes_max));
   counter (bs "onyxdb_compaction_cleaned_segments_total") (bs "Snapshot-covered binlog segment files removed after compaction")
     (Count (m MS.cleanup_files_total));
   counter (bs "onyxdb_compaction_cleaned_segment_bytes_total") (bs "Snapshot-covered binlog segment bytes removed after compaction")
     (Count (m MS.cleanup_bytes_total));
   counter (bs "onyxdb_compaction_segment_cleanup_failures_total") (bs "Binlog segment files or directory synchronizations that could not be cleaned")
     (Count (m MS.cleanup_failures_total))
  ].

Definition compaction_metrics (m : MS.compaction_snapshot_field -> Z) : list metric :=
  compaction_counts m ++ rollover_durations m ++ compaction_durations m ++ compaction_sizes m.

(** [CommitCoordinatorMetrics::snapshot] and [BinlogMetrics::snapshot] load each
    cell once, into the field of its name. *)
Definition commit_snapshot (m : CC.commit_field -> Z) : CC.commit_field -> Z := fun f => m f.
Definition binlog_snapshot (m : BC.binlog_field -> Z) : BC.binlog_field -> Z := fun f => m f.

(** [push_metric] writes three lines. *)
Definition push_metric {FT : FloatText} (v : metric) : bytes :=
  bs "# HELP " ++ mt_name v ++ bs " " ++ mt_help v ++ [x0a]
  ++ bs "# TYPE " ++ mt_name v ++ bs " " ++ mt_type v ++ [x0a]
  ++ mt_name v ++ bs " " ++ match mt_value v with Count n => print_Z n | Seconds d => f64_display d end ++ [x0a].

Section Endpoint.
Context {JN : JsonNumber} {SJ : SerdeJson} {HO : HashOrder} {FT : FloatText}.

(** What [format_prometheus_metrics] reads outside the store and the
    persistence state: the snapshots of the cells, and the replicas. *)
Record metric_readings : Type := mkReadings {
  mr_statuses : list ReplicaStatus;
  mr_coordinator : option (CC.commit_field -> Z);
  mr_binlog : BC.binlog_field -> Z;
  mr_compaction : MC.compaction_field -> Z
}.

Definition server_metrics (w : world) (m : metric_readings) (p : Persistence) : prog (list metric) :=
  let c := w_counters w [] in
  let uptime := sat_sub (clock_of w 0 0%nat) (START_TIME c) in
  s ← store_stats (clock_of w 1);
  used_memory ← used_memory_bytes (clock_of w 2);
  mret (process_metrics uptime (stats_total_keys s) used_memory (sequence p) c (mr_statuses m)
        ++ match mr_coordinator m with Some m => commit_metrics (commit_snapshot m) | None => [] end
        ++ binlog_metrics (binlog_snapshot (mr_binlog m))
        ++ runtime_metrics (commit_runtime p)
        ++ compaction_metrics (compaction_snapshot (mr_compaction m))).

Definition format_prometheus_metrics (w : world) (m : metric_readings) (p : Persistence) : prog bytes :=
  l ← server_metrics w m p; mret (concat (map push_metric l)).

(** The body of an HTTP response. *)
Definition metrics_response (body : bytes) : bytes :=
  bs "HTTP/1.1 200 OK" ++ crlf ++ bs "Content-Type: text/plain; version=0.0.4" ++ crlf
  ++ bs "Content-Length: " ++ print_Z (len body) ++ crlf ++ bs "Connection: close" ++ crlf ++ crlf ++ body.

(** A connection of [run_metrics_server], with what it writes; the request is
    read once and ignored. *)
Definition serve_metrics (w : world) (m : metric_readings) (p : Persistence) : prog (option bytes) :=
  if is_fail_stopped p then mret None
  else body ← format_prometheus_metrics w m p; mret (Some (metrics_response body)).

End Endpoint.

(** ** Cells that each task raises by one at most *)

Definition unit_cell {K} {EK : EqDecision K} (k : K) (p : list atomic) : bool :=
  forallb (adds_only k) p && runs (added k) 0 p && runs (fun i => - added k i) 1 p.

Lemma runs_start {K} (f : @atomic K -> Z) a p : runs f a p = (0 <=? a) && runs f a p.
Proof. destruct p; cbn; destruct (0 <=? a); by rewrite ?andb_true_r. Qed.

Lemma runs_around {K} (f : @atomic K -> Z) a p mid q :
  forallb (fun i => f i =? 0) mid = true -> runs f a (p ++ mid ++ q) = runs f a (p ++ q).
Proof.
  intros H. rewrite !runs_app. f_equal. set (b := a + total f p). rewrite (runs_start f b q).
  destruct (0 <=? b) eqn:Eb.
  - apply Z.leb_le in Eb. destruct (runs_silent f b mid H Eb) as [-> ->]. by rewrite Z.add_0_r.
  - rewrite (runs_start f b mid), Eb. done.
Qed.

Lemma units_count {K} {EK : EqDecision K} (k : K) ts m ts' :
  forallb (unit_cell k) ts = true -> len ts < 2 ^ 64 -> rtc some_task_steps (fun _ => 0, ts) (m, ts') ->
  0 <= m k < 2 ^ 64 /\ m k = grand (added k) ts - grand (added k) ts'.
Proof.
  intros Hu Hn H. rewrite forallb_forall in Hu.
  assert (Hall : forall f, (forall p, unit_cell k p = true -> f p = true) -> Forall (fun p => f p = true) ts).
  { intros f Hf. apply list.Forall_forall. intros p Hp. by apply Hf, Hu, list_elem_of_In. }
  assert (Hk : every (adds_only k) ts = true).
  { apply forallb_forall. intros p Hp. apply Hu in Hp. unfold unit_cell in Hp. rewrite !andb_true_iff in Hp. tauto. }
  assert (Hr : 0 <= m k < 2 ^ 64) by (eapply steps_range; [exact Hk| |exact H]; done). split; [done|].
  rewrite (steps_count k (fun _ => 0) ts m ts' Hk (Z.le_refl 0) Hn Hr); [lia| | |exact H]; apply Hall; intros p Hp;
    unfold unit_cell in Hp; rewrite !andb_true_iff in Hp; tauto.
Qed.

Lemma forallb_map {A B} (f : B -> bool) (g : A -> B) (l : list A) : (forall x, f (g x) = true) -> forallb f (map g l) = true.
Proof. intros H. induction l as [|x l IH]; cbn; [done|]. by rewrite H. Qed.

Lemma grand_map {K A} (f : @atomic K -> Z) (g : A -> list atomic) (c : A -> bool) (l : list A) :
  (forall x, total f (g x) = if c x then 1 else 0) -> grand f (map g l) = len (filter c l).
Proof.
  intros H. unfold len. induction l as [|x l IH]; [done|]. change (grand f (map g (x :: l))) with (total f (g x) + grand f (map g l)).
  rewrite IH, H. destruct (c x) eqn:E.
  - rewrite filter_cons_True by (by rewrite E). cbn [length]. lia.
  - rewrite filter_cons_False by (by rewrite E; intros []). lia.
Qed.

Lemma grand_none {K A} (f : @atomic K -> Z) (g : A -> list atomic) (l : list A) :
  (forall x, total f (g x) = 0) -> grand f (map g l) = 0.
Proof.
  intros H. induction l as [|x l IH]; [done|]. change (grand f (map g (x :: l))) with (total f (g x) + grand f (map g l)).
  by rewrite H, IH.
Qed.

Lemma grand_sub {K} (f g : @atomic K -> Z) ts : grand (fun i => f i - g i) ts = grand f ts - grand g ts.
Proof.
  assert (Ht : forall p, total (fun i => f i - g i) p = total f p - total g p).
  { unfold total. induction p as [|i p IH]; simpl; lia. }
  unfold grand. induction ts as [|p ts IH]; simpl; [done|]. rewrite Ht. lia.
Qed.

Lemma grand_add {K} (f g : @atomic K -> Z) ts : grand (fun i => f i + g i) ts = grand f ts + grand g ts.
Proof.
  assert (Ht : forall p, total (fun i => f i + g i) p = total f p + total g p).
  { unfold total. induction p as [|i p IH]; simpl; lia. }
  unfold grand. induction ts as [|p ts IH]; simpl; [done|]. rewrite Ht. lia.
Qed.

(** Work that is started, runs, and ends in one of several ways. *)
Section Work.
Context {K : Type} {EK : EqDecision K} {L : Type}.
Variable program : L -> list (@atomic K).

Lemma lives_value (lives : list L) m ts' k :
  len lives < 2 ^ 64 -> rtc some_task_steps (fun _ => 0, map program lives) (m, ts') ->
  (forall l, unit_cell k (program l) = true) ->
  0 <= m k < 2 ^ 64 /\ m k = grand (added k) (map program lives) - grand (added k) ts'.
Proof.
  intros Hn H Hk. apply units_count; [by apply forallb_map| |done]. unfold len in *. by rewrite length_map.
Qed.

Lemma lives_run f (lives : list L) m ts' :
  counts f -> (forall l, runs f 0 (program l) = true) ->
  rtc some_task_steps (fun _ => 0, map program lives) (m, ts') -> 0 <= grand f (map program lives) - grand f ts'.
Proof.
  intros Hf Hr H. assert (Hall : Forall (fun p => runs f 0 p = true) (map program lives)); [|pose proof (steps_run f 0 _ _ _ _ Hf Hall H); lia].
  apply list.Forall_forall. intros p Hp. apply list_elem_of_fmap in Hp as (l & -> & _). apply Hr.
Qed.

Variables started running : K.
Hypothesis started_unit : forall l, unit_cell started (program l) = true.

(** What runs has started, and at rest nothing runs. *)
Lemma work_runs (lives : list L) m ts' :
  (forall l, unit_cell running (program l) = true) ->
  (forall l, runs (fun i => added started i - added running i) 0 (program l) = true) ->
  (forall l, total (added running) (program l) = 0) ->
  len lives < 2 ^ 64 -> rtc some_task_steps (fun _ => 0, map program lives) (m, ts') ->
  0 <= m running <= m started /\ (idle ts' -> m running = 0).
Proof.
  intros Hu Hf H0 Hn H.
  destruct (lives_value _ _ _ _ Hn H started_unit) as [_ Es]. destruct (lives_value _ _ _ _ Hn H Hu) as [Rr Er].
  assert (Hc : counts (fun i : atomic => added started i - added running i)) by done.
  pose proof (lives_run _ _ _ _ Hc Hf H) as G. rewrite !grand_sub in G. split; [lia|]. intros Hidle.
  rewrite Er, (idle_grand _ _ Hidle), (grand_none _ program lives H0). done.
Qed.

Variable ends : list K.
Definition ended (i : atomic) : Z := fold_right (fun k acc => added k i + acc) 0 ends.
Definition ended_total (m : K -> Z) : Z := fold_right (fun k acc => m k + acc) 0 ends.

Lemma ended_zero i : (forall k, added k i = 0) -> ended i = 0.
Proof. intros Hi. unfold ended. clear -Hi. induction ends as [|e es IH]; simpl; [done|]. by rewrite Hi, IH. Qed.

Lemma ended_value (lives : list L) m ts' :
  (forall k l, In k ends -> unit_cell k (program l) = true) ->
  len lives < 2 ^ 64 -> rtc some_task_steps (fun _ => 0, map program lives) (m, ts') ->
  ended_total m = grand ended (map program lives) - grand ended ts'.
Proof.
  intros Hu Hn H. unfold ended_total, ended. revert Hu. induction ends as [|e es IH]; intros Hu; simpl.
  - assert (Hz : forall us, grand (fun _ : @atomic K => 0) us = 0).
    { intros us. unfold grand. induction us as [|p us IHu]; simpl; [done|]. rewrite IHu, Z.add_0_r.
      unfold total. induction p; simpl; lia. }
    rewrite !Hz. lia.
  - rewrite !(grand_add (added e)). destruct (lives_value _ _ _ e Hn H (fun l => Hu e l (or_introl eq_refl))) as [_ Ee].
    rewrite IH by (intros; apply Hu; by right). lia.
Qed.

(** More work starts than ends, and at rest all has ended. *)
Lemma work_ends (lives : list L) m ts' :
  (forall k l, In k ends -> unit_cell k (program l) = true) ->
  (forall l, runs (fun i => added started i - ended i) 0 (program l) = true) ->
  (forall l, total (fun i => added started i - ended i) (program l) = 0) ->
  len lives < 2 ^ 64 -> rtc some_task_steps (fun _ => 0, map program lives) (m, ts') ->
  ended_total m <= m started /\
  (idle ts' -> m started = grand (added started) (map program lives) /\ ended_total m = m started).
Proof.
  intros Hu Hf H0 Hn H. destruct (lives_value _ _ _ _ Hn H started_unit) as [_ Es].
  pose proof (ended_value _ _ _ Hu Hn H) as Ee.
  assert (Hc : counts (fun i => added started i - ended i)) by (split; intros; by rewrite ended_zero).
  pose proof (lives_run _ _ _ _ Hc Hf H) as G. rewrite !grand_sub in G. split; [lia|]. intros Hidle.
  rewrite !(idle_grand _ _ Hidle) in *. pose proof (grand_none _ program lives H0) as Z1. rewrite grand_sub in Z1. lia.
Qed.

End Work.

(** ** The lives of the tasks *)

(** Decides a property of a program whose cells are known. *)
Ltac check_life := intros; repeat match goal with
  | l : commit_life |- _ => destruct l as [l| |l]
  | l : request_life |- _ => destruct l as [[?|] ?]
  | l : group_life |- _ => destruct l as [? ? [?|] [[[] ?]|] ?]
  | o : option bool |- _ => destruct o as [[]|]
  | b : bool |- _ => destruct b
  | d : result StorageFailureDisposition unit |- _ => destruct d as [[]|[]]
  end; vm_compute; reflexivity.

Lemma commit_units k l :
  In k [CC.groups_total; CC.groups_in_progress; CC.groups_completed_total; CC.groups_rejected_total;
        CC.groups_indeterminate_total; CC.groups_interrupted_total; CC.queue_depth; CC.requests_total] ->
  unit_cell k (commit_program l) = true.
Proof. intros Hk. repeat (destruct Hk as [<-|Hk]; [check_life|]). destruct Hk. Qed.

Definition group_ends : list CC.commit_field :=
  [CC.groups_completed_total; CC.groups_rejected_total; CC.groups_indeterminate_total; CC.groups_interrupted_total].

Definition is_group (l : commit_life) : bool := match l with GroupLife _ => true | _ => false end.
Definition is_submitted (l : commit_life) : bool := match l with SubmittedLife => true | _ => false end.

(** An append: its records and bytes, its time and its outcome. *)
Record append_life : Type := mkAppendLife {
  al_records : Z;
  al_bytes : Z;
  al_elapsed : Z;
  al_outcome : result StorageFailureDisposition unit
}.
Definition append_program (l : append_life) : list atomic :=
  record_append (al_records l) (al_bytes l) (al_elapsed l) (al_outcome l).

Definition append_ends : list BC.binlog_field :=
  [BC.append_accepted_total; BC.append_rejected_total; BC.append_indeterminate_total].

Lemma append_units k l : In k (BC.append_attempts_total :: append_ends) -> unit_cell k (append_program l) = true.
Proof. intros Hk. destruct l as [? ? ? o]. repeat (destruct Hk as [<-|Hk]; [check_life|]). destruct Hk. Qed.

(** The observations touch none of the cells that count work. *)
Definition work_cells : list MC.compaction_field :=
  [MC.attempts_total; MC.in_progress; MC.completed_total; MC.failed_total;
   MC.rollover_attempts_total; MC.rollover_in_progress; MC.rollover_completed_total; MC.rollover_failed_total;
   MC.preflush_backpressure_waiters_total; MC.preflush_backpressure_waiters_current].

Definition leaves_work (i : atomic) : bool :=
  forallb (fun k => adds_only k i && (added k i =? 0)) work_cells.

Lemma observations_leave during : forallb leaves_work (concat (map observe during)) = true.
Proof.
  induction during as [|o during IH]; [done|]. cbn [map concat]. rewrite forallb_app, IH, andb_true_r.
  assert (Hseal : forall b p s, forallb leaves_work (observe_seal_phases b p s) = true).
  { intros b p s. unfold observe_seal_phases. destruct (0 <? b); vm_compute; reflexivity. }
  destruct o; try apply Hseal; vm_compute; reflexivity.
Qed.

Lemma leaves_adds k during : In k work_cells -> forallb (adds_only k) (concat (map observe during)) = true.
Proof.
  intros Hk. generalize (observations_leave during). apply forallb_impl. intros i Hi. unfold leaves_work in Hi.
  rewrite forallb_forall in Hi. specialize (Hi k Hk). by apply andb_true_iff in Hi as [? _].
Qed.

Lemma leaves_zero k i : In k work_cells -> leaves_work i = true -> added k i = 0.
Proof.
  intros Hk Hi. unfold leaves_work in Hi. rewrite forallb_forall in Hi. specialize (Hi k Hk).
  apply andb_true_iff in Hi as [_ Hi]. by apply Z.eqb_eq.
Qed.

(** A count of work cells sees the same program without its observations. *)
Definition bare (l : maintenance_life) : maintenance_life :=
  match l with
  | CompactionLife _ result elapsed => CompactionLife [] result elapsed
  | RolloverLife _ result elapsed => RolloverLife [] result elapsed
  | l => l
  end.

Lemma bare_runs f a l : (forall i, leaves_work i = true -> f i = 0) ->
  runs f a (maintenance_program l) = runs f a (maintenance_program (bare l)).
Proof.
  intros Hf. assert (Hmid : forall during, forallb (fun i => f i =? 0) (concat (map observe during)) = true).
  { intros during. generalize (observations_leave during). apply forallb_impl. intros i Hi. by apply Z.eqb_eq, Hf. }
  destruct l as [during o e|during o e|e]; [| |done]; cbn [maintenance_program bare map concat app]; by rewrite runs_around.
Qed.

Lemma bare_total f l : (forall i, leaves_work i = true -> f i = 0) ->
  total f (maintenance_program l) = total f (maintenance_program (bare l)).
Proof.
  intros Hf. assert (Hmid : forall during, total f (concat (map observe during)) = 0).
  { intros during. apply (runs_silent f 0); [|lia]. generalize (observations_leave during). apply forallb_impl.
    intros i Hi. by apply Z.eqb_eq, Hf. }
  destruct l as [during o e|during o e|e]; [| |done]; cbn [maintenance_program bare map concat]; rewrite !total_app, Hmid; done.
Qed.

Lemma bare_adds k l : In k work_cells ->
  forallb (adds_only k) (maintenance_program l) = forallb (adds_only k) (maintenance_program (bare l)).
Proof.
  intros Hk. destruct l as [during o e|during o e|e]; [| |done]; cbn [maintenance_program bare map concat app];
    rewrite !forallb_app, (leaves_adds _ _ Hk); done.
Qed.

Ltac check_bare := intros; match goal with l : maintenance_life |- _ => destruct l as [? o ?|? o ?|?] end; cbn [bare]; check_life.

Lemma maintenance_units k l : In k work_cells -> unit_cell k (maintenance_program l) = true.
Proof.
  intros Hk. unfold unit_cell. rewrite bare_adds by done.
  rewrite (bare_runs (added k)), (bare_runs (fun i => - added k i)) by (intros i Hi; rewrite (leaves_zero _ _ Hk Hi); done).
  revert Hk. cut (In k work_cells -> unit_cell k (maintenance_program (bare l)) = true); [unfold unit_cell; exact (fun H => H)|].
  intros Hk. unfold work_cells in Hk. repeat (destruct Hk as [<-|Hk]; [check_bare|]). destruct Hk.
Qed.

(** ** Work that starts and ends *)

Lemma commit_accounted lives m ts :
  len lives < 2 ^ 64 -> rtc some_task_steps (fun _ => 0, map commit_program lives) (m, ts) ->
  ended_total group_ends m <= m CC.groups_total /\ 0 <= m CC.groups_in_progress <= m CC.groups_total /\
  (idle ts -> m CC.groups_total = len (filter is_group lives) /\ ended_total group_ends m = m CC.groups_total /\
    m CC.groups_in_progress = 0 /\ m CC.queue_depth = 0 /\ m CC.requests_total = len (filter is_submitted lives)).
Proof.
  intros Hn H.
  assert (Hs : forall l, unit_cell CC.groups_total (commit_program l) = true) by (intros; apply commit_units; by left).
  destruct (work_ends commit_program CC.groups_total Hs group_ends lives m ts) as [He Hi]; [|check_life|check_life|done|done|].
  { intros k l Hk. apply commit_units. right. right. apply (in_or_app group_ends). by left. }
  destruct (work_runs commit_program CC.groups_total CC.groups_in_progress Hs lives m ts) as [Hr Hi2]; [|check_life|check_life|done|done|].
  { intros l. apply commit_units. by right; left. }
  destruct (lives_value commit_program lives m ts CC.queue_depth Hn H) as [_ Eq]; [intros l; apply commit_units; cbn; tauto|].
  destruct (lives_value commit_program lives m ts CC.requests_total Hn H) as [_ Es]; [intros l; apply commit_units; cbn; tauto|].
  split; [done|]. split; [done|]. intros Hidle. destruct (Hi Hidle) as [Hg He']. rewrite (idle_grand _ _ Hidle) in Eq.
  rewrite (idle_grand _ _ Hidle) in Es.
  assert (Gg : grand (added CC.groups_total) (map commit_program lives) = len (filter is_group lives))
    by (apply grand_map; check_life).
  assert (Gs : grand (added CC.requests_total) (map commit_program lives) = len (filter is_submitted lives))
    by (apply grand_map; check_life).
  assert (Gq : grand (added CC.queue_depth) (map commit_program lives) = 0) by (apply grand_none; check_life).
  specialize (Hi2 Hidle). lia.
Qed.

Lemma append_accounted lives m ts :
  len lives < 2 ^ 64 -> rtc some_task_steps (fun _ => 0, map append_program lives) (m, ts) ->
  ended_total append_ends m <= m BC.append_attempts_total /\
  (idle ts -> m BC.append_attempts_total = len lives /\ ended_total append_ends m = len lives).
Proof.
  intros Hn H.
  assert (Hs : forall l, unit_cell BC.append_attempts_total (append_program l) = true) by (intros; apply append_units; by left).
  destruct (work_ends append_program BC.append_attempts_total Hs append_ends lives m ts) as [He Hi];
    [|intros [? ? ? o]; check_life|intros [? ? ? o]; check_life|done|done|].
  { intros k l Hk. apply append_units. by right. }
  split; [done|]. intros Hidle. destruct (Hi Hidle) as [Hg He'].
  assert (Gg : grand (added BC.append_attempts_total) (map append_program lives) = len (filter (fun _ => true) lives))
    by (apply grand_map; intros [? ? ? o]; check_life).
  assert (Hall : filter (fun _ : append_life => true) lives = lives).
  { clear. induction lives as [|l lives IH]; [done|]. rewrite filter_cons_True by done. by rewrite IH. }
  rewrite Hall in Gg. lia.
Qed.

(** Starts, running and ends among the work cells, without the observations. *)
Lemma maintenance_accounted started running ends lives m ts :
  incl (started :: running :: ends) work_cells ->
  (forall l, runs (fun i => added started i - ended ends i) 0 (maintenance_program (bare l)) = true) ->
  (forall l, total (fun i => added started i - ended ends i) (maintenance_program (bare l)) = 0) ->
  (forall l, runs (fun i => added started i - added running i) 0 (maintenance_program (bare l)) = true) ->
  (forall l, total (added running) (maintenance_program (bare l)) = 0) ->
  len lives < 2 ^ 64 -> rtc some_task_steps (fun _ => 0, map maintenance_program lives) (m, ts) ->
  ended_total ends m <= m started /\ 0 <= m running <= m started /\
  (idle ts -> ended_total ends m = m started /\ m running = 0).
Proof.
  intros Hin H1 H2 H3 H4 Hn H.
  assert (Hu : forall k l, In k (started :: running :: ends) -> unit_cell k (maintenance_program l) = true).
  { intros k l Hk. by apply maintenance_units, Hin. }
  assert (Hz : forall k i, In k (started :: running :: ends) -> leaves_work i = true -> added k i = 0).
  { intros k i Hk. by apply leaves_zero, Hin. }
  assert (Hze : forall i, leaves_work i = true -> ended ends i = 0).
  { intros i Hi. unfold ended. assert (Hall : forall k, In k ends -> added k i = 0) by (intros; apply Hz; [by do 2 right|done]).
    clear -Hall. induction ends as [|e es IH]; simpl; [done|]. rewrite Hall by (by left). apply IH. intros. apply Hall. by right. }
  assert (Hs : forall i, leaves_work i = true -> added started i = 0) by (intros; apply Hz; [by left|done]).
  assert (Hr : forall i, leaves_work i = true -> added running i = 0) by (intros; apply Hz; [by right; left|done]).
  destruct (work_ends maintenance_program started (fun l => Hu _ l (or_introl eq_refl)) ends lives m ts) as [He Hi]; [| | |done|done|].
  { intros. apply Hu. by do 2 right. }
  { intros l. rewrite bare_runs by (intros i Hi; rewrite Hs, Hze; done). apply H1. }
  { intros l. rewrite bare_total by (intros i Hi; rewrite Hs, Hze; done). apply H2. }
  destruct (work_runs maintenance_program started running (fun l => Hu _ l (or_introl eq_refl)) lives m ts) as [Hrun Hi2]; [| | |done|done|].
  { intros. apply Hu. by right; left. }
  { intros l. rewrite bare_runs by (intros i Hi'; rewrite Hs, Hr; done). apply H3. }
  { intros l. rewrite bare_total by done. apply H4. }
  split; [done|]. split; [done|]. intros Hidle. split; [by apply Hi|by apply Hi2].
Qed.

Lemma backpressure_accounted lives m ts :
  len lives < 2 ^ 64 -> rtc some_task_steps (fun _ => 0, map maintenance_program lives) (m, ts) ->
  0 <= m MC.preflush_backpressure_waiters_current <= m MC.preflush_backpressure_waiters_total /\
  (idle ts -> m MC.preflush_backpressure_waiters_current = 0).
Proof.
  intros Hn H. apply (work_runs maintenance_program _ _) with (lives := lives); [| | | |exact Hn|exact H]; intros l.
  - apply maintenance_units; cbn; tauto.
  - apply maintenance_units; cbn; tauto.
  - rewrite bare_runs; [check_bare|]. intros i Hi. rewrite !leaves_zero; try done; cbn; tauto.
  - rewrite bare_total; [check_bare|]. intros i Hi. rewrite leaves_zero; try done; cbn; tauto.
Qed.

(** ** The acknowledgements of replicas *)

(** [replica_status]: the connected replicas, by the number of the connection. *)
Abbreviation replica_table := (gmap Z ReplicaStatus).

Definition enter_replica (replica_id : Z) (peer_addr : bytes) (requested_offset now : Z) (t : replica_table) : replica_table :=
  <[replica_id := mkStatus peer_addr requested_offset now]> t.

Definition leave_replica (replica_id : Z) (t : replica_table) : replica_table := delete replica_id t.

Definition ACK_LIMITS : RESPReadLimits := mkLimits 3 64 128 512.

(** One command on the read half of a replica's connection. *)
Definition receive_ack (now replica_id : Z) (ack_args : list bytes) (t : replica_table) : replica_table :=
  match ack_args with
  | [] => t
  | name :: rest =>
    if eq_ignore_ascii_case name (bs "REPLCONF")
       && match rest !! 0%nat with Some s => eq_ignore_ascii_case s (bs "ACK") | None => false end
    then
      match rest !! 1%nat ≫= parse_u64, t !! replica_id with
      | Some off, Some status => <[replica_id := mkStatus (addr status) off now]> t
      | _, _ => t
      end
    else t
  end.

(** The task that owns the read half: [clk] is the time at which a command has
    been read, and [meanwhile] what other connections do to the table before;
    every command takes a byte of the stream. *)
Fixpoint ack_loop (fuel : nat) (clk : nat -> Z) (meanwhile : nat -> replica_table -> replica_table) (replica_id : Z)
    (r : Reader) (t : replica_table) : option replica_table :=
  match fuel with
  | O => None
  | S fuel =>
    match read_command_with_timeouts ACK_LIMITS true r with
    | (r, Ok (Some ack_args)) =>
      ack_loop fuel (fun i => clk (S i)) (fun i => meanwhile (S i)) replica_id r
        (receive_ack (clk 0%nat) replica_id ack_args (meanwhile 0%nat t))
    | (_, Ok None) | (_, Err _) => Some t
    end
  end.

Definition ack_command (off : Z) : bytes := bs "REPLCONF ACK " ++ print_Z off ++ crlf.

(** A second of the replica's task: it is stopped, or it sends the sequence it
    has installed, as a whole or, when the write fails or is stopped, in part. *)
Inductive ack_round : Type :=
| AckStopped
| AckSent (off : Z)
| AckCut (off : Z) (written : nat).

(** What the task puts on the connection. *)
Fixpoint ack_task (rounds : list ack_round) : bytes :=
  match rounds with
  | [] | AckStopped :: _ => []
  | AckSent off :: rounds => ack_command off ++ ack_task rounds
  | AckCut off written :: _ => take written (ack_command off)
  end.

(** ** Acknowledgements *)

Fixpoint loaded (rounds : list ack_round) : list Z :=
  match rounds with
  | [] | AckStopped :: _ => []
  | AckSent off :: rounds => off :: loaded rounds
  | AckCut off _ :: _ => [off]
  end.

Lemma ack_task_prefix rounds : ack_task rounds `prefix_of` concat (map ack_command (loaded rounds)).
Proof.
  induction rounds as [|[|off|off n] rounds IH]; cbn [ack_task loaded map concat]; [done|done| |].
  - by apply prefix_app.
  - rewrite app_nil_r. exists (drop n (ack_command off)). by rewrite take_drop.
Qed.

(** The complete lines of a stream. *)
Definition lines_in (s : bytes) : nat := length (filter (fun b => b = newline) s).

Lemma lines_none s : newline ∉ s -> lines_in s = 0%nat.
Proof.
  unfold lines_in. induction s as [|b s IH]; [done|]. rewrite not_elem_of_cons. intros [Hb Hs].
  rewrite filter_cons_False by congruence. by apply IH.
Qed.

Definition ack_words (off : Z) : list bytes := [bs "REPLCONF"; bs "ACK"; print_Z off].

Lemma ack_command_words off : ack_command off = join_words (ack_words off) ++ crlf.
Proof. done. Qed.

Lemma ack_words_ok off : 0 <= off -> Forall word_ok (ack_words off).
Proof.
  intros H. unfold ack_words. constructor; [|constructor; [|constructor; [by apply print_Z_word|done]]];
    (split; [done|]); (split; [by repeat constructor|done]).
Qed.

Lemma ack_line_length off : 0 <= off <= U64_MAX -> len (join_words (ack_words off)) <= 33.
Proof.
  intros H. cbn [join_words ack_words]. rewrite !len_app, !len_cons, !len_app, !len_cons.
  pose proof (print_Z_length off H). change (len (bs "REPLCONF")) with 8. change (len (bs "ACK")) with 3. lia.
Qed.

Lemma ack_limits_fit : limits_fit ACK_LIMITS.
Proof. vm_compute. repeat split; discriminate. Qed.

Lemma decode_ack off rest : 0 <= off <= U64_MAX ->
  decode_buffered_command (join_words (ack_words off) ++ crlf ++ rest) ACK_LIMITS =
  Ok (Some (ack_words off, len (join_words (ack_words off)) + 2)).
Proof.
  intros H. apply (decode_words _ _ _ x52 (bs "EPLCONF") [bs "ACK"; print_Z off]).
  - reflexivity.
  - done.
  - apply ack_words_ok. lia.
  - change (3 <= 3). lia.
  - change (Z.min _ _) with 128. pose proof (ack_line_length off H). lia.
Qed.

(** A part of an acknowledgement decodes to nothing yet. *)
Lemma partial_ack s line off :
  0 <= off <= U64_MAX -> line = join_words (ack_words off) -> s `prefix_of` line ++ crlf -> s <> line ++ crlf ->
  newline ∉ s /\ decode_buffered_command s ACK_LIMITS = Ok None.
Proof.
  intros Hoff -> [k Hk] Hne. set (line := join_words _) in *.
  assert (Hs : s `prefix_of` line ++ [x0d]).
  { destruct k as [|b k _] using rev_ind; [by rewrite app_nil_r in Hk|]. exists k.
    change crlf with ([x0d] ++ [newline]) in Hk. rewrite !app_assoc in Hk. by apply app_inj_tail in Hk as [-> _]. }
  assert (Hnl : newline ∉ s).
  { intros H. apply (join_no_newline (ack_words off)); [apply ack_words_ok; lia|]. destruct Hs as [k' Hs].
    assert (Hin : newline ∈ line ++ [x0d]) by (rewrite Hs; apply elem_of_app; by left).
    apply elem_of_app in Hin as [?|Hin]; [done|]. by apply list_elem_of_singleton in Hin. }
  split; [done|]. pose proof (ack_line_length off Hoff). fold line in H.
  assert (len s <= 34). { destruct Hs as [k' Hs]. apply (f_equal len) in Hs. rewrite !len_app in Hs. change (len [x0d]) with 1 in Hs.
    pose proof (len_nonneg k'). lia. }
  destruct s as [|b s]; [done|]. unfold decode_buffered_command. rewrite (proj2 (position_none _ _) Hnl).
  rewrite (proj2 (Z.ltb_ge _ _)); [done|]. unfold maximum_first_line_size.
  destruct Hs as [k' Hs]. injection Hs as <- _. rewrite bool_decide_eq_false_2 by done. change (Z.min _ _) with 128. lia.
Qed.

(** A reader leaves the replicas of other connections alone, and does not
    bring back one that has left. *)
Lemma receive_ack_others now id args t : dom (receive_ack now id args t) = dom t /\
  forall j, j <> id -> receive_ack now id args t !! j = t !! j.
Proof.
  unfold receive_ack. destruct args as [|name rest]; [done|]. destruct (_ && _); [|done].
  destruct (rest !! 1%nat ≫= parse_u64) as [off|]; [|done]. destruct (t !! id) as [status|] eqn:E; [|done].
  split; [|intros j Hj; by rewrite lookup_insert_ne]. rewrite dom_insert_L.
  assert (id ∈ dom t) by (by apply elem_of_dom_2 in E). set_solver.
Qed.

Lemma receive_ack_own now id off t status :
  0 <= off <= U64_MAX -> t !! id = Some status ->
  receive_ack now id (ack_words off) t !! id = Some (mkStatus (addr status) off now).
Proof.
  intros Hoff Ht. unfold receive_ack, ack_words. cbn [lookup list_lookup].
  change (eq_ignore_ascii_case (bs "REPLCONF") (bs "REPLCONF") && eq_ignore_ascii_case (bs "ACK") (bs "ACK")) with true.
  cbn match. cbn [mbind option_bind]. rewrite (parse_u64_print _ Hoff), Ht. by rewrite lookup_insert_eq.
Qed.

Lemma acks_loop offs r clk meanwhile id t status fuel :
  Forall (fun off => 0 <= off <= U64_MAX) offs -> stream r `prefix_of` concat (map ack_command offs) ->
  len (stream r) <= I64_MAX -> (forall i t, meanwhile i t !! id = t !! id) -> t !! id = Some status ->
  (length (stream r) < fuel)%nat ->
  exists t', ack_loop fuel clk meanwhile id r t = Some t' /\
    t' !! id = Some (match lines_in (stream r) with
                     | O => status
                     | S n => mkStatus (addr status) (nth n offs 0) (clk n)
                     end).
Proof.
  intros Hoffs. revert r clk meanwhile t status fuel. induction Hoffs as [|off offs Hoff Hoffs IH];
    intros r clk meanwhile t status [|fuel] Hs Hlen Ho Ht Hf; try lia; cbn [ack_loop];
    destruct (read_command_with_timeouts ACK_LIMITS true r) as [r' x] eqn:E;
    apply read_timed_spec in E as [_ E]; try apply ack_limits_fit; try done.
  - apply prefix_nil_inv in Hs. rewrite Hs in *. exists t. split; [by destruct E as [->|[? ->]]|done].
  - cbn [map concat] in Hs. rewrite ack_command_words in Hs. destruct (decide (join_words (ack_words off) ++ crlf `prefix_of` stream r)) as [[rest Hr]|Hn].
    + rewrite <- app_assoc in Hr. rewrite Hr, (decode_ack off rest Hoff), after_line in E.
      destruct E as [-> Hr']. assert (Hl : length (stream r) = (length (join_words (ack_words off)) + 2 + length rest)%nat).
      { rewrite Hr, !length_app. cbn. lia. }
      destruct (IH r' (fun i => clk (S i)) (fun i => meanwhile (S i))
                  (receive_ack (clk 0%nat) id (ack_words off) (meanwhile 0%nat t)) (mkStatus (addr status) off (clk 0%nat)) fuel)
        as (t' & E' & H').
      * rewrite Hr'. rewrite Hr, app_assoc in Hs. by apply prefix_app_inv in Hs.
      * unfold len in *. rewrite Hr'. lia.
      * intros. apply Ho.
      * apply receive_ack_own; [done|by rewrite Ho].
      * rewrite Hr'. lia.
      * exists t'. split; [done|]. rewrite H', Hr', Hr. unfold lines_in. rewrite !filter_app, !length_app.
        pose proof (lines_none _ (join_no_newline _ (ack_words_ok off (proj1 Hoff)))) as Hz. unfold lines_in in Hz. rewrite Hz.
        change (length (filter (fun b => b = newline) crlf)) with 1%nat. cbn [plus].
        by destruct (length (filter (fun b => b = newline) rest)).
    + assert (Hp : stream r `prefix_of` join_words (ack_words off) ++ crlf).
      { destruct (prefix_weak_total (stream r) (join_words (ack_words off) ++ crlf)
          ((join_words (ack_words off) ++ crlf) ++ concat (map ack_command offs))) as [?|?]; [done|by eexists|done|done]. }
      destruct (partial_ack _ _ _ Hoff eq_refl Hp) as [Hnl Hd]; [intros Heq; apply Hn; by rewrite Heq|].
      rewrite Hd in E. exists t. rewrite (lines_none _ Hnl). split; [by destruct E as [->|[? ->]]|done].
Qed.

(** * What the metrics show *)


(** The table of replicas shows the last acknowledgement that arrived.  From
    what arrives of what a replica sends, however it is cut, the reader takes
    every complete line, ends, and leaves for this replica the sequence and the
    time of the last one; a reader touches no other replica and does not bring
    back one that has left. *)
Theorem acks_reported (rounds : list ack_round) (r : Reader) (clk : nat -> Z)
    (meanwhile : nat -> replica_table -> replica_table) (id : Z) (t : replica_table) (status : ReplicaStatus)
    (Hoffsets : Forall (fun off => 0 <= off <= U64_MAX) (loaded rounds))
    (Hstream : stream r `prefix_of` ack_task rounds) (Hlen : len (stream r) <= I64_MAX)
    (Hothers : forall i t, meanwhile i t !! id = t !! id) (Ht : t !! id = Some status) :
  (exists t', ack_loop (S (length (stream r))) clk meanwhile id r t = Some t' /\
    t' !! id = Some (match lines_in (stream r) with
                     | O => status
                     | S n => mkStatus (addr status) (nth n (loaded rounds) 0) (clk n)
                     end)) /\
  (forall now args t, dom (receive_ack now id args t) = dom t /\
    forall j, j <> id -> receive_ack now id args t !! j = t !! j).
Proof.
  split; [|intros; apply receive_ack_others].
  eapply acks_loop; [done|by etrans; [|apply ack_task_prefix]|done|done|done|lia].
Qed.

(** C35: Work is accounted for.  Whatever the tasks have done so far, no more
    groups, appends, compactions and rollovers have ended than have started, and
    what is in progress has started; at rest each has ended in exactly one way,
    and nothing is queued, waits or is in progress. *)
Theorem work_accounted :
  (forall lives m ts, len lives < 2 ^ 64 -> rtc some_task_steps (fun _ => 0, map commit_program lives) (m, ts) ->
    ended_total group_ends m <= m CC.groups_total /\ 0 <= m CC.groups_in_progress <= m CC.groups_total /\
    (idle ts -> m CC.groups_total = len (filter is_group lives) /\ ended_total group_ends m = m CC.groups_total /\
      m CC.groups_in_progress = 0 /\ m CC.queue_depth = 0 /\ m CC.requests_total = len (filter is_submitted lives))) /\
  (forall lives m ts, len lives < 2 ^ 64 -> rtc some_task_steps (fun _ => 0, map append_program lives) (m, ts) ->
    ended_total append_ends m <= m BC.append_attempts_total /\
    (idle ts -> m BC.append_attempts_total = len lives /\ ended_total append_ends m = len lives)) /\
  (forall lives m ts, len lives < 2 ^ 64 -> rtc some_task_steps (fun _ => 0, map maintenance_program lives) (m, ts) ->
    m MC.completed_total + m MC.failed_total <= m MC.attempts_total /\ 0 <= m MC.in_progress <= m MC.attempts_total /\
    m MC.rollover_completed_total + m MC.rollover_failed_total <= m MC.rollover_attempts_total /\
    0 <= m MC.rollover_in_progress <= m MC.rollover_attempts_total /\
    0 <= m MC.preflush_backpressure_waiters_current <= m MC.preflush_backpressure_waiters_total /\
    (idle ts -> m MC.completed_total + m MC.failed_total = m MC.attempts_total /\ m MC.in_progress = 0 /\
      m MC.rollover_completed_total + m MC.rollover_failed_total = m MC.rollover_attempts_total /\
      m MC.rollover_in_progress = 0 /\ m MC.preflush_backpressure_waiters_current = 0)).
Proof.
  split; [exact commit_accounted|]. split; [exact append_accounted|]. intros lives m ts Hn H.
  assert (Hincl : forall l, forallb (fun k => bool_decide (k ∈ work_cells)) l = true -> incl l work_cells).
  { intros l Hl k Hk. rewrite forallb_forall in Hl. apply Hl, bool_decide_eq_true in Hk. by apply list_elem_of_In. }
  destruct (maintenance_accounted MC.attempts_total MC.in_progress [MC.completed_total; MC.failed_total] lives m ts)
    as (C1 & C2 & C3); [by apply Hincl|check_bare|check_bare|check_bare|check_bare|done|done|].
  destruct (maintenance_accounted MC.rollover_attempts_total MC.rollover_in_progress
    [MC.rollover_completed_total; MC.rollover_failed_total] lives m ts) as (R1 & R2 & R3);
    [by apply Hincl|check_bare|check_bare|check_bare|check_bare|done|done|].
  destruct (backpressure_accounted lives m ts Hn H) as [B1 B2]. cbn [ended_total fold_right] in *.
  rewrite !Z.add_0_r in *. intuition.
Qed.

(** ** Instances *)


