(* ===== verification/Bench.v ===== *)
(** * Bench: the benchmark (src/onyx-bench.rs)

    The load generator: its configuration, the commands of its workloads, the
    connections that send them and count what comes back, the metrics it reads
    from the server, and the report's percentiles.  What the network and the
    clock answer is given by records of answers. *)

From Stdlib Require Import ZArith Lia.
From Stdlib Require Import Strings.Byte.
From Stdlib Require Import Floats.SpecFloat.
From stdpp Require Import base gmap list strings numbers sorting.
From S2P Require Import Prelude Text Json Value Shard Engine Store Persistence BinlogIo Runtime Demo Startup Resp RespReader Server ServerInfo Session Client Metrics EngineWhole.

Open Scope Z_scope.

Definition DEFAULT_REQUESTS : Z := 100000.
Definition DEFAULT_WARMUP_REQUESTS : Z := 10000.
Definition DEFAULT_CONCURRENCY : Z := 16.
Definition DEFAULT_PIPELINE : Z := 1.
Definition DEFAULT_KEYSPACE : Z := 10000.
Definition DEFAULT_PAYLOAD_SIZE : Z := 64.
Definition DEFAULT_REPEATS : Z := 3.
Definition MAX_REQUESTS : Z := 10000000.
Definition MAX_CONCURRENCY : Z := 1024.
Definition MAX_KEYSPACE : Z := 1000000.
Definition MAX_PAYLOAD_SIZE : Z := 8 * 1024 * 1024 - 1024.
Definition MAX_REPEATS : Z := 100.
Definition SETUP_PIPELINE : Z := 256.
Definition MAX_METRICS_RESPONSE_BYTES : Z := 1024 * 1024.

(** ** Configuration *)

Inductive Workload : Type := WGet | WSet | WMixed | WJsonGet | WJsonSet.

#[global] Instance Workload_eq_decision : EqDecision Workload.
Proof. solve_decision. Defined.

Definition Workload_parse (value : bytes) : option Workload :=
  if bytes_eqb value (bs "get") then Some WGet
  else if bytes_eqb value (bs "set") then Some WSet
  else if bytes_eqb value (bs "mixed") then Some WMixed
  else if bytes_eqb value (bs "json-get") then Some WJsonGet
  else if bytes_eqb value (bs "json-set") then Some WJsonSet
  else None.

Definition Workload_display (w : Workload) : bytes :=
  match w with
  | WGet => bs "get"
  | WSet => bs "set"
  | WMixed => bs "mixed"
  | WJsonGet => bs "json-get"
  | WJsonSet => bs "json-set"
  end.

Definition requires_setup (w : Workload) : bool :=
  match w with WGet | WMixed | WJsonGet => true | _ => false end.
Definition is_redis_comparable (w : Workload) : bool :=
  match w with WGet | WSet | WMixed => true | _ => false end.
Definition requires_changing_string_value (w : Workload) : bool :=
  match w with WSet | WMixed => true | _ => false end.

Inductive OutputFormat : Type := OHuman | OJson.

Record BenchmarkConfig : Type := mkBench {
  b_address : bytes;
  b_server_label : bytes;
  b_workload : Workload;
  b_requests : Z;
  b_warmup_requests : Z;
  b_concurrency : Z;
  b_pipeline : Z;
  b_keyspace : Z;
  b_payload_size : Z;
  b_repeats : Z;
  b_output : OutputFormat;
  b_key_prefix : bytes;
  b_keep_data : bool;
  b_metrics_address : option bytes
}.

Definition BenchmarkConfig_default (process timestamp : Z) : BenchmarkConfig :=
  mkBench (bs "127.0.0.1:6380") (bs "onyxdb") WMixed DEFAULT_REQUESTS DEFAULT_WARMUP_REQUESTS DEFAULT_CONCURRENCY
    DEFAULT_PIPELINE DEFAULT_KEYSPACE DEFAULT_PAYLOAD_SIZE DEFAULT_REPEATS OHuman
    (bs "onyxbench:" ++ print_Z process ++ bs ":" ++ print_Z timestamp) false None.

(** One option with its value. *)
Definition apply_bench_option (option value : bytes) (c : BenchmarkConfig) : result bytes BenchmarkConfig :=
  let '(mkBench address label workload requests warmup concurrency pipeline keyspace payload repeats output prefix keep metrics) := c in
  let number (set : Z -> BenchmarkConfig) : result bytes BenchmarkConfig :=
    match parse_usize value with
    | Some n => Ok (set n)
    | None => Err (option ++ bs " requires a non-negative integer")
    end in
  if bytes_eqb option (bs "--address") then
    Ok (mkBench value label workload requests warmup concurrency pipeline keyspace payload repeats output prefix keep metrics)
  else if bytes_eqb option (bs "--label") then
    Ok (mkBench address value workload requests warmup concurrency pipeline keyspace payload repeats output prefix keep metrics)
  else if bytes_eqb option (bs "--workload") then
    match Workload_parse value with
    | Some w => Ok (mkBench address label w requests warmup concurrency pipeline keyspace payload repeats output prefix keep metrics)
    | None => Err (bs "unsupported workload: " ++ value)
    end
  else if bytes_eqb option (bs "--requests") then
    number (fun n => mkBench address label workload n warmup concurrency pipeline keyspace payload repeats output prefix keep metrics)
  else if bytes_eqb option (bs "--warmup") then
    number (fun n => mkBench address label workload requests n concurrency pipeline keyspace payload repeats output prefix keep metrics)
  else if bytes_eqb option (bs "--concurrency") then
    number (fun n => mkBench address label workload requests warmup n pipeline keyspace payload repeats output prefix keep metrics)
  else if bytes_eqb option (bs "--pipeline") then
    number (fun n => mkBench address label workload requests warmup concurrency n keyspace payload repeats output prefix keep metrics)
  else if bytes_eqb option (bs "--keyspace") then
    number (fun n => mkBench address label workload requests warmup concurrency pipeline n payload repeats output prefix keep metrics)
  else if bytes_eqb option (bs "--payload-size") then
    number (fun n => mkBench address label workload requests warmup concurrency pipeline keyspace n repeats output prefix keep metrics)
  else if bytes_eqb option (bs "--repeats") then
    number (fun n => mkBench address label workload requests warmup concurrency pipeline keyspace payload n output prefix keep metrics)
  else if bytes_eqb option (bs "--output") then
    if bytes_eqb value (bs "human") then
      Ok (mkBench address label workload requests warmup concurrency pipeline keyspace payload repeats OHuman prefix keep metrics)
    else if bytes_eqb value (bs "json") then
      Ok (mkBench address label workload requests warmup concurrency pipeline keyspace payload repeats OJson prefix keep metrics)
    else Err (bs "unsupported output format: " ++ value)
  else if bytes_eqb option (bs "--key-prefix") then
    Ok (mkBench address label workload requests warmup concurrency pipeline keyspace payload repeats output value keep metrics)
  else
    Ok (mkBench address label workload requests warmup concurrency pipeline keyspace payload repeats output prefix keep (Some value)).

Definition valued_options : list bytes :=
  [bs "--address"; bs "--label"; bs "--workload"; bs "--requests"; bs "--warmup"; bs "--concurrency"; bs "--pipeline";
   bs "--keyspace"; bs "--payload-size"; bs "--repeats"; bs "--output"; bs "--key-prefix"; bs "--metrics-address"].

Definition set_keep_data (c : BenchmarkConfig) : BenchmarkConfig :=
  mkBench (b_address c) (b_server_label c) (b_workload c) (b_requests c) (b_warmup_requests c) (b_concurrency c)
    (b_pipeline c) (b_keyspace c) (b_payload_size c) (b_repeats c) (b_output c) (b_key_prefix c) true (b_metrics_address c).

(** The loop over the arguments behind the name of the program. *)
Fixpoint parse_bench_options (arguments : list bytes) (c : BenchmarkConfig) : result bytes BenchmarkConfig :=
  match arguments with
  | [] => Ok c
  | option :: rest =>
    if bool_decide (option ∈ valued_options) then
      match rest with
      | [] => Err (option ++ bs " requires a value")
      | value :: rest =>
        match apply_bench_option option value c with
        | Err e => Err e
        | Ok c => parse_bench_options rest c
        end
      end
    else if bytes_eqb option (bs "--keep-data") then parse_bench_options rest (set_keep_data c)
    else if bytes_eqb option (bs "--help") || bytes_eqb option (bs "-h") then Err []
    else Err (bs "unknown option: " ++ option)
  end.

Definition validate_range (name : bytes) (value minimum maximum : Z) : result bytes unit :=
  if (minimum <=? value) && (value <=? maximum) then Ok tt
  else Err (name ++ bs " must be between " ++ print_Z minimum ++ bs " and " ++ print_Z maximum).

Definition estimated_command_bytes (c : BenchmarkConfig) : Z :=
  sat_add (sat_add (b_payload_size c) (len (b_key_prefix c))) 512.

Definition setup_pipeline (c : BenchmarkConfig) : Z :=
  Z.max (Z.min SETUP_PIPELINE (MAX_PIPELINE_BYTES / Z.max (estimated_command_bytes c) 1)) 1.

(** [if condition { return Err(message) }]. *)
Definition refuse_when (condition : bool) (message : bytes) : result bytes unit :=
  if condition then Err message else Ok tt.

Definition BenchmarkConfig_validate (c : BenchmarkConfig) : result bytes unit :=
  _ ← validate_range (bs "requests") (b_requests c) 1 MAX_REQUESTS;
  _ ← refuse_when (MAX_REQUESTS <? b_warmup_requests c) (bs "warmup must not exceed " ++ print_Z MAX_REQUESTS);
  _ ← validate_range (bs "concurrency") (b_concurrency c) 1 MAX_CONCURRENCY;
  _ ← validate_range (bs "pipeline") (b_pipeline c) 1 MAX_PIPELINE_COMMANDS;
  _ ← validate_range (bs "keyspace") (b_keyspace c) 1 MAX_KEYSPACE;
  _ ← validate_range (bs "payload-size") (b_payload_size c) 0 MAX_PAYLOAD_SIZE;
  _ ← refuse_when ((b_payload_size c =? 0) && requires_changing_string_value (b_workload c))
        (bs "payload-size must be at least 1 for set and mixed workloads");
  _ ← validate_range (bs "repeats") (b_repeats c) 1 MAX_REPEATS;
  _ ← refuse_when (bool_decide (trim (b_server_label c) = [])) (bs "label must not be empty");
  _ ← refuse_when (256 <? len (b_server_label c)) (bs "label must not exceed 256 bytes");
  _ ← refuse_when (1024 <? len (b_address c)) (bs "address must not exceed 1024 bytes");
  _ ← refuse_when (match b_metrics_address c with
                   | Some address => bool_decide (address = []) || (1024 <? len address)
                   | None => false
                   end) (bs "metrics-address must contain between 1 and 1024 bytes");
  _ ← refuse_when (bool_decide (b_key_prefix c = [])) (bs "key-prefix must not be empty");
  _ ← refuse_when (1024 <? len (b_key_prefix c)) (bs "key-prefix must not exceed 1024 bytes");
  match checked_mul (estimated_command_bytes c) (b_pipeline c) with
  | None => Err (bs "pipeline byte projection overflow")
  | Some projected_batch_bytes =>
    refuse_when (MAX_PIPELINE_BYTES <? projected_batch_bytes)
      (bs "pipeline and payload project to more than " ++ print_Z MAX_PIPELINE_BYTES ++ bs " buffered bytes")
  end.

(** [arguments] includes the name of the program. *)
Definition BenchmarkConfig_parse (process timestamp : Z) (arguments : list bytes) : result bytes BenchmarkConfig :=
  c ← parse_bench_options (drop 1 arguments) (BenchmarkConfig_default process timestamp);
  _ ← BenchmarkConfig_validate c;
  Ok c.

Record Authentication : Type := mkAuthentication { auth_username : option bytes; auth_password : bytes }.

Definition authentication_from_environment (get_env : bytes -> option bytes) : result bytes (option Authentication) :=
  match get_env (bs "ONYXDB_BENCH_USER"), get_env (bs "ONYXDB_BENCH_PASSWORD") with
  | Some _, None => Err (bs "ONYXDB_BENCH_USER requires ONYXDB_BENCH_PASSWORD")
  | username, Some password => Ok (Some (mkAuthentication username password))
  | None, None => Ok None
  end.

(** ** The server's metrics *)

(** What a benchmark reports when it gives up. *)
Inductive bench_error : Type :=
| BenchIo (e : io_error)
| BenchStop (s : stop)
| BenchText (message : bytes)
| BenchUtf8
| BenchFloat.

(** The values of the samples are [f64], by their bits. *)
Record ServerMetricsSnapshot : Type := mkSnapshot { samples : gmap bytes Z; counters : gset bytes }.

Record ServerMetricsWindow : Type := mkWindow {
  win_before : gmap bytes Z;
  win_after : gmap bytes Z;
  win_delta : gmap bytes Z;
  win_quiescence_wait : Z
}.

(** [a >= b] and [a - b]. *)
Definition f64_geb (a b : Z) : bool := SFleb (F64.decode b) (F64.decode a).
Definition f64_sub (a b : Z) : Z := F64.encode (SFsub F64.prec F64.emax (F64.decode a) (F64.decode b)).

Definition window_delta (before after : ServerMetricsSnapshot) : gmap bytes Z :=
  map_imap (fun name after_value =>
    if bool_decide (name ∈ counters after) then
      match samples before !! name with
      | Some before_value => if f64_geb after_value before_value then Some (f64_sub after_value before_value) else None
      | None => None
      end
    else None) (samples after).

Definition ServerMetricsWindow_new (before after : ServerMetricsSnapshot) (quiescence_wait : Z) : ServerMetricsWindow :=
  mkWindow (samples before) (samples after) (window_delta before after) quiescence_wait.

Definition delta_of (w : ServerMetricsWindow) (name : bytes) : Z := default 0 (win_delta w !! name).
Definition after_of (w : ServerMetricsWindow) (name : bytes) : Z := default 0 (win_after w !! name).

(** [str::split_once] at the end of the headers. *)
Fixpoint split_boundary (separator s : bytes) : option (bytes * bytes) :=
  match strip_prefix separator s with
  | Some rest => Some ([], rest)
  | None =>
    match s with
    | [] => None
    | b :: s => '(before, after) ← split_boundary separator s; Some (b :: before, after)
    end
  end.

(** [str::lines]. *)
Fixpoint split_inclusive (s : bytes) : list bytes :=
  match s with
  | [] => []
  | b :: rest =>
    if bool_decide (b = x0a) then [b] :: split_inclusive rest
    else match split_inclusive rest with
         | first :: more => (b :: first) :: more
         | [] => [[b]]
         end
  end.

Definition line_text (l : bytes) : bytes :=
  match strip_suffix [x0a] l with
  | None => l
  | Some l => match strip_suffix [x0d] l with Some l => l | None => l end
  end.

Definition str_lines (s : bytes) : list bytes := map line_text (split_inclusive s).

(** [str::split_whitespace]; a word is built character by character. *)
Fixpoint whitespace_words (cs : list bytes) (word : bytes) : list bytes :=
  match cs with
  | [] => if bool_decide (word = []) then [] else [word]
  | c :: cs =>
    if is_whitespace c then (if bool_decide (word = []) then [] else [word]) ++ whitespace_words cs []
    else whitespace_words cs (word ++ c)
  end.

Definition split_whitespace (s : bytes) : list bytes := whitespace_words (Utf8.chars s) [].

Section Bench.
Context {JN : JsonNumber} {SJ : SerdeJson} {HO : HashOrder} {FT : FloatText}.

(** One line of the body. *)
Definition read_metrics_line (s : ServerMetricsSnapshot) (line : bytes) : result bench_error ServerMetricsSnapshot :=
  let line := trim line in
  match strip_prefix (bs "# TYPE ") line with
  | Some declaration =>
    match split_whitespace declaration with
    | [] => Err (BenchText (bs "metrics type is missing its name"))
    | [_] => Err (BenchText (bs "metrics type is missing its value"))
    | [name; metric_type] =>
      Ok (mkSnapshot (samples s)
            (if bytes_eqb metric_type (bs "counter") then {[name]} ∪ counters s else counters s))
    | _ => Err (BenchText (bs "invalid metrics type declaration: " ++ line))
    end
  | None =>
    if bool_decide (line = []) || starts_with line (bs "#") then Ok s
    else
      match split_whitespace line with
      | [] => Err (BenchText (bs "metrics sample is missing its name"))
      | [_] => Err (BenchText (bs "metrics sample is missing its value"))
      | [name; value] =>
        match f64_parse value with
        | Some v => Ok (mkSnapshot (<[name := v]> (samples s)) (counters s))
        | None => Err BenchFloat
        end
      | _ => Err (BenchText (bs "unsupported metrics sample: " ++ line))
      end
  end.

Fixpoint read_metrics_lines (lines : list bytes) (s : ServerMetricsSnapshot) : result bench_error ServerMetricsSnapshot :=
  match lines with
  | [] => Ok s
  | line :: lines => s ← read_metrics_line s line; read_metrics_lines lines s
  end.

(** [fetch_server_metrics]: what the endpoint sends until it closes, or the
    failure of a call on the connection. *)
Definition fetch_server_metrics (answer : result io_error bytes) : result bench_error ServerMetricsSnapshot :=
  match answer with
  | Err e => Err (BenchIo e)
  | Ok sent =>
    let response := take (Z.to_nat (MAX_METRICS_RESPONSE_BYTES + 1)) sent in
    if MAX_METRICS_RESPONSE_BYTES <? len response
    then Err (BenchText (bs "metrics response exceeds the benchmark safety limit"))
    else
      match Utf8.from_utf8 response with
      | None => Err BenchUtf8
      | Some response =>
        match split_boundary (crlf ++ crlf) response with
        | None => Err (BenchText (bs "metrics response is missing the HTTP header boundary"))
        | Some (headers, body) =>
          if negb (starts_with headers (bs "HTTP/1.1 200 ")) then
            Err (BenchText (bs "metrics endpoint returned an unsuccessful response: "
                            ++ match str_lines headers with line :: _ => line | [] => bs "missing status line" end))
          else
            s ← read_metrics_lines (str_lines body) (mkSnapshot ∅ ∅);
            if bool_decide (samples s = ∅) then Err (BenchText (bs "metrics endpoint returned no samples")) else Ok s
        end
      end
  end.

Definition server_metrics_are_quiescent (s : ServerMetricsSnapshot) : bool :=
  forallb (fun name => F64.eqb (default 0 (samples s !! name)) 0)
    [bs "onyxdb_commit_queue_depth"; bs "onyxdb_commit_groups_in_progress"; bs "onyxdb_compaction_pending";
     bs "onyxdb_compaction_in_progress"; bs "onyxdb_binlog_rollover_pending"; bs "onyxdb_binlog_rollover_in_progress"].

(** [fetch_quiescent_server_metrics]: the answers that arrive before the time
    limit. *)
Fixpoint fetch_quiescent_server_metrics (answers : list (result io_error bytes)) : result bench_error ServerMetricsSnapshot :=
  match answers with
  | [] => Err (BenchText (bs "server metrics did not become quiescent before the timeout"))
  | answer :: answers =>
    s ← fetch_server_metrics answer;
    if server_metrics_are_quiescent s then Ok s else fetch_quiescent_server_metrics answers
  end.

End Bench.

(** ** Workloads *)

(** [format!("{generation:016x}")]. *)
Definition marker_digit (n : Z) : byte := if n <? 10 then Z_byte (48 + n) else Z_byte (87 + n).
Fixpoint hex_digits (count : nat) (n : Z) : bytes :=
  match count with
  | O => []
  | S count => hex_digits count (Z.shiftr n 4) ++ [marker_digit (Z.land n 15)]
  end.
Definition hex16 (n : Z) : bytes := hex_digits 16 n.

Definition workload_value (c : BenchmarkConfig) : bytes := repeat x78 (Z.to_nat (b_payload_size c)).

Definition bench_key (c : BenchmarkConfig) (operation : Z) : bytes :=
  b_key_prefix c ++ bs ":" ++ print_Z (operation mod b_keyspace c).

Definition string_value (c : BenchmarkConfig) (operation : Z) : bytes :=
  if b_payload_size c =? 0 then []
  else
    let marker := hex16 (operation / b_keyspace c) in
    let marker_length := Z.to_nat (Z.min (len marker) (b_payload_size c)) in
    let marker_start := (length marker - marker_length)%nat in
    drop marker_start marker ++ drop marker_length (workload_value c).

Section Workloads.
Context {JN : JsonNumber} {SJ : SerdeJson} {HO : HashOrder} {FT : FloatText}.

(** [json!({"payload": .., "counter": ..}).to_string()]; the fields of an object
    are sorted. *)
Definition json_value (c : BenchmarkConfig) (count : Z) : bytes :=
  json_to_string (JObject [(bs "counter", JNumber (number_from_i64 count)); (bs "payload", JString (workload_value c))]).

Definition bench_command (c : BenchmarkConfig) (operation : Z) : list bytes :=
  let key := bench_key c operation in
  match b_workload c with
  | WGet => [bs "GET"; key]
  | WSet => [bs "SET"; key; string_value c operation]
  | WMixed => if operation mod 2 =? 0 then [bs "SET"; key; string_value c operation] else [bs "GET"; key]
  | WJsonGet => [bs "JSON.GET"; key; bs "$.payload"]
  | WJsonSet => [bs "JSON.SET"; key; bs "$"; json_value c operation]
  end.

Definition setup_command (c : BenchmarkConfig) (key_index : Z) : list bytes :=
  let key := bench_key c key_index in
  match b_workload c with
  | WJsonGet => [bs "JSON.SET"; key; bs "$"; json_value c 0]
  | _ => [bs "SET"; key; workload_value c]
  end.

Definition is_ok (response : RESPResponse) : bool :=
  match response with RSimpleString v => bytes_eqb v (bs "OK") | _ => false end.

Definition response_is_valid (c : BenchmarkConfig) (operation : Z) (response : RESPResponse) : bool :=
  let some_bulk := match response with RBulkString (Some _) => true | _ => false end in
  match b_workload c with
  | WGet | WJsonGet => some_bulk
  | WSet | WJsonSet => is_ok response
  | WMixed => if operation mod 2 =? 0 then is_ok response else some_bulk
  end.

(** ** Connections *)

(** What a connection of the benchmark answers: its opening, the ends of its
    writes, and the nanoseconds each response takes. *)
Record bench_connection : Type := mkConnection {
  bc_open : result io_error RespClient;
  bc_auth_write : write_end;
  bc_writes : nat -> write_end;
  bc_elapsed : Z -> Z
}.

Definition connect_client (authentication : option Authentication) (a : bench_connection) : result bench_error RespClient :=
  match bc_open a with
  | Err e => Err (BenchIo e)
  | Ok client =>
    match authentication with
    | None => Ok client
    | Some authentication =>
      let command := bs "AUTH" :: match auth_username authentication with Some u => [u] | None => [] end
                     ++ [auth_password authentication] in
      match client_send (bc_auth_write a) command client with
      | (_, Err s) => Err (BenchStop s)
      | (client, Ok response) =>
        if is_error_response response
        then Err (BenchText (bs "benchmark authentication failed: " ++ response_text response))
        else Ok client
      end
    end
  end.

(** The responses of a batch, each of which must be [fine]. *)
Fixpoint expect_responses (n : nat) (fine : RESPResponse -> bool) (context : bytes) (client : RespClient)
  : result bench_error RespClient :=
  match n with
  | O => Ok client
  | S n =>
    match client_read client with
    | (_, Err s) => Err (BenchStop s)
    | (client, Ok response) =>
      if fine response then expect_responses n fine context client
      else Err (BenchText (context ++ response_text response))
    end
  end.

(** [start..end]. *)
Definition range (first count : Z) : list Z := map (fun i => first + Z.of_nat i) (seq 0 (Z.to_nat count)).

(** The loop over the keys in batches of [step]; [None]: the fuel is used up. *)
Fixpoint dataset_loop (fuel : nat) (batch : nat) (step keyspace start : Z) (command : Z -> list bytes)
    (fine : RESPResponse -> bool) (context : bytes) (a : bench_connection) (client : RespClient)
  : option (result bench_error RespClient) :=
  if start <? keyspace then
    match fuel with
    | O => None
    | S fuel =>
      let end_ := Z.min (start + step) keyspace in
      match write_pipeline (bc_writes a batch) (map command (range start (end_ - start))) client with
      | (_, Err e) => Some (Err (BenchIo e))
      | (client, Ok _) =>
        match expect_responses (Z.to_nat (end_ - start)) fine context client with
        | Err e => Some (Err e)
        | Ok client => dataset_loop fuel (S batch) step keyspace end_ command fine context a client
        end
      end
    end
  else Some (Ok client).

Definition prepare_dataset (c : BenchmarkConfig) (authentication : option Authentication) (a : bench_connection)
  : option (result bench_error unit) :=
  if negb (requires_setup (b_workload c)) then Some (Ok tt)
  else
    match connect_client authentication a with
    | Err e => Some (Err e)
    | Ok client =>
      r ← dataset_loop (Z.to_nat (b_keyspace c)) 0 (setup_pipeline c) (b_keyspace c) 0 (setup_command c) is_ok
            (bs "dataset setup failed: ") a client;
      Some (match r with Ok _ => Ok tt | Err e => Err e end)
    end.

Definition cleanup_dataset (c : BenchmarkConfig) (authentication : option Authentication) (a : bench_connection)
  : option (result bench_error unit) :=
  if b_keep_data c then Some (Ok tt)
  else
    match connect_client authentication a with
    | Err e => Some (Err e)
    | Ok client =>
      r ← dataset_loop (Z.to_nat (b_keyspace c)) 0 SETUP_PIPELINE (b_keyspace c) 0
            (fun index => [bs "DEL"; bench_key c index]) (fun response => negb (is_error_response response))
            (bs "dataset cleanup failed: ") a client;
      Some (match r with Ok _ => Ok tt | Err e => Err e end)
    end.

(** ** Runs *)

Record WorkerResult : Type := mkWorker {
  wr_completed : Z;
  wr_errors : Z;
  wr_transport_errors : Z;
  wr_latency_nanoseconds : list Z
}.

Definition worker_zero : WorkerResult := mkWorker 0 0 0 [].

(** Responses that will not come. *)
Definition lost (n : Z) (r : WorkerResult) : WorkerResult :=
  mkWorker (wr_completed r) (wr_errors r + n) (wr_transport_errors r + n) (wr_latency_nanoseconds r).

(** The responses of a batch; [false] breaks the loop over the batches. *)
Fixpoint read_batch (c : BenchmarkConfig) (a : bench_connection) (collect_latency : bool) (operations : list Z)
    (client : RespClient) (r : WorkerResult) : RespClient * WorkerResult * bool :=
  match operations with
  | [] => (client, r, true)
  | operation :: rest =>
    match client_read client with
    | (client, Err _) => (client, lost (len operations) r, false)
    | (client, Ok response) =>
      let latency := if collect_latency
                     then wr_latency_nanoseconds r ++ [duration_nanoseconds (bc_elapsed a operation)]
                     else wr_latency_nanoseconds r in
      let errors := if response_is_valid c operation response then wr_errors r else wr_errors r + 1 in
      read_batch c a collect_latency rest client
        (mkWorker (wr_completed r + 1) errors (wr_transport_errors r) latency)
    end
  end.

(** The loop of [run_worker]; [None]: the fuel is used up. *)
Fixpoint worker_loop (fuel : nat) (batch : nat) (c : BenchmarkConfig) (a : bench_connection) (collect_latency : bool)
    (first_operation request_count completed : Z) (client : RespClient) (r : WorkerResult) : option WorkerResult :=
  if completed <? request_count then
    match fuel with
    | O => None
    | S fuel =>
      let batch_size := Z.min (b_pipeline c) (sat_sub request_count completed) in
      let operations := range (first_operation + completed) batch_size in
      match write_pipeline (bc_writes a batch) (map (bench_command c) operations) client with
      | (_, Err _) => Some (lost batch_size r)
      | (client, Ok _) =>
        match read_batch c a collect_latency operations client r with
        | (_, r, false) => Some r
        | (client, r, true) =>
          worker_loop fuel (S batch) c a collect_latency first_operation request_count (completed + batch_size) client r
        end
      end
    end
  else Some r.

Definition run_worker (c : BenchmarkConfig) (a : bench_connection) (client : RespClient)
    (first_operation request_count : Z) (collect_latency : bool) : option WorkerResult :=
  worker_loop (Z.to_nat request_count) 0 c a collect_latency first_operation request_count 0 client worker_zero.

Record RunResult : Type := mkRun {
  run_elapsed : Z;
  run_requested : Z;
  run_completed : Z;
  run_errors : Z;
  run_transport_errors : Z;
  run_latency_nanoseconds : list Z;
  run_server_metrics : option ServerMetricsWindow
}.

(** The clients of a phase, opened one after the other. *)
Fixpoint connect_clients (authentication : option Authentication) (connections : list bench_connection)
  : result bench_error (list RespClient) :=
  match connections with
  | [] => Ok []
  | a :: connections =>
    client ← connect_client authentication a;
    clients ← connect_clients authentication connections;
    Ok (client :: clients)
  end.

(** The first operation and the number of requests of each worker. *)
Fixpoint worker_shares (workers : list nat) (base_requests extra_requests first_operation : Z) : list (Z * Z) :=
  match workers with
  | [] => []
  | worker :: workers =>
    let request_count := base_requests + (if Z.of_nat worker <? extra_requests then 1 else 0) in
    (first_operation, request_count) :: worker_shares workers base_requests extra_requests (first_operation + request_count)
  end.

Definition phase_shares (c : BenchmarkConfig) (requests operation_offset : Z) : list (Z * Z) :=
  let worker_count := Z.min (b_concurrency c) requests in
  worker_shares (seq 0 (Z.to_nat worker_count)) (requests / worker_count) (requests mod worker_count) operation_offset.

(** The result of a worker added to the result of the run. *)
Definition add_worker (r : RunResult) (w : WorkerResult) : RunResult :=
  mkRun (run_elapsed r) (run_requested r) (run_completed r + wr_completed w) (run_errors r + wr_errors w)
    (run_transport_errors r + wr_transport_errors w) (run_latency_nanoseconds r ++ wr_latency_nanoseconds w)
    (run_server_metrics r).

(** [elapsed]: the nanoseconds between the start and the last worker's end. *)
Definition run_phase (c : BenchmarkConfig) (authentication : option Authentication) (requests operation_offset : Z)
    (collect_latency : bool) (connections : nat -> bench_connection) (elapsed : Z)
  : option (result bench_error RunResult) :=
  if requests =? 0 then Some (Ok (mkRun 0 0 0 0 0 [] None))
  else
    let workers := seq 0 (Z.to_nat (Z.min (b_concurrency c) requests)) in
    match connect_clients authentication (map connections workers) with
    | Err e => Some (Err e)
    | Ok clients =>
      results ← mapM (fun '(worker, (client, (first_operation, request_count))) =>
                        run_worker c (connections worker) client first_operation request_count collect_latency)
                 (zip workers (zip clients (phase_shares c requests operation_offset)));
      let r := fold_left add_worker results (mkRun 0 requests 0 0 0 [] None) in
      Some (Ok (mkRun elapsed (run_requested r) (run_completed r) (run_errors r) (run_transport_errors r)
                  (merge_sort Z.le (run_latency_nanoseconds r)) None))
    end.

(** ** Percentiles *)

(** [ceil] of a non-negative or negative number, [as usize]. *)
Definition ceil_as_usize (f : spec_float) : Z :=
  match f with
  | S754_finite false p e => Z.min USIZE_MAX (if 0 <=? e then Zpos p * 2 ^ e else (Zpos p + 2 ^ (- e) - 1) / 2 ^ (- e))
  | S754_infinity false => USIZE_MAX
  | _ => 0
  end.

Definition percentile_rank (count : Z) (percentile : spec_float) : Z :=
  ceil_as_usize (SFmul F64.prec F64.emax (SFdiv F64.prec F64.emax percentile (f64_of 100)) (f64_of count)).

Definition percentile_nanoseconds (sorted_values : list Z) (percentile : spec_float) : Z :=
  match sorted_values with
  | [] => 0
  | _ =>
    let rank := percentile_rank (len sorted_values) percentile in
    nth (Z.to_nat (Z.min (sat_sub rank 1) (len sorted_values - 1))) sorted_values 0
  end.

(** The literals [50.0], [95.0], [99.0] and [99.9]. *)
Definition P50 : spec_float := f64_of 50.
Definition P95 : spec_float := f64_of 95.
Definition P99 : spec_float := f64_of 99.
Definition P99_9 : spec_float := SFdiv F64.prec F64.emax (f64_of 999) (f64_of 10).

(** ** The program *)

(** What the benchmark reads of its environment. *)
Record bench_environment : Type := mkBenchEnvironment {
  be_process : Z;
  be_timestamp : Z;
  be_env : bytes -> option bytes;
  be_setup : bench_connection;
  be_warmup : nat -> bench_connection;
  be_runs : nat -> nat -> bench_connection;
  be_cleanup : bench_connection;
  be_elapsed : nat -> Z;
  be_before : nat -> list (result io_error bytes);
  be_after : nat -> list (result io_error bytes);
  be_wait : nat -> Z
}.

Inductive bench_outcome : Type :=
| ShowsUsage (error : bytes)
| GivesUp (e : bench_error)
| Reports (c : BenchmarkConfig) (authenticated : bool) (results : list RunResult) (final : result bench_error unit).

Definition run_failed (r : RunResult) : bool := (0 <? run_errors r) || negb (run_completed r =? run_requested r).

(** One measured run, with the metrics before and after it. *)
Definition measured_run (e : bench_environment) (c : BenchmarkConfig) (authentication : option Authentication) (repeat : nat)
  : option (result bench_error RunResult) :=
  let before := match b_metrics_address c with
                | Some _ => Some <$> fetch_quiescent_server_metrics (be_before e repeat)
                | None => Ok None
                end in
  match before with
  | Err x => Some (Err x)
  | Ok before =>
    r ← run_phase c authentication (b_requests c) (sat_mul (Z.of_nat repeat) (b_requests c)) true
          (be_runs e repeat) (be_elapsed e repeat);
    match r, before with
    | Err x, _ => Some (Err x)
    | Ok r, None => Some (Ok r)
    | Ok r, Some before =>
      Some (after ← fetch_quiescent_server_metrics (be_after e repeat);
            Ok (mkRun (run_elapsed r) (run_requested r) (run_completed r) (run_errors r) (run_transport_errors r)
                  (run_latency_nanoseconds r) (Some (ServerMetricsWindow_new before after (be_wait e repeat)))))
    end
  end.

Fixpoint measured_runs (e : bench_environment) (c : BenchmarkConfig) (authentication : option Authentication) (repeats : list nat)
  : option (result bench_error (list RunResult)) :=
  match repeats with
  | [] => Some (Ok [])
  | repeat :: repeats =>
    r ← measured_run e c authentication repeat;
    match r with
    | Err x => Some (Err x)
    | Ok r =>
      rest ← measured_runs e c authentication repeats;
      Some (match rest with Ok l => Ok (r :: l) | Err x => Err x end)
    end
  end.

Definition warmup_failed (r : RunResult) : bytes :=
  bs "warmup failed: completed " ++ print_Z (run_completed r) ++ bs "/" ++ print_Z (run_requested r)
  ++ bs ", errors " ++ print_Z (run_errors r).

Definition bench_main (e : bench_environment) (arguments : list bytes) : option bench_outcome :=
  match BenchmarkConfig_parse (be_process e) (be_timestamp e) arguments with
  | Err error => Some (ShowsUsage error)
  | Ok c =>
    match authentication_from_environment (be_env e) with
    | Err error => Some (GivesUp (BenchText error))
    | Ok authentication =>
      prepared ← prepare_dataset c authentication (be_setup e);
      match prepared with
      | Err x => Some (GivesUp x)
      | Ok _ =>
        warmup ← run_phase c authentication (b_warmup_requests c) 0 false (be_warmup e) 0;
        match warmup with
        | Err x => Some (GivesUp x)
        | Ok warmup =>
          if run_failed warmup then
            cleaned ← cleanup_dataset c authentication (be_cleanup e);
            Some (GivesUp (match cleaned with Err x => x | Ok _ => BenchText (warmup_failed warmup) end))
          else
            runs ← measured_runs e c authentication (seq 0 (Z.to_nat (b_repeats c)));
            match runs with
            | Err x => Some (GivesUp x)
            | Ok results =>
              cleaned ← cleanup_dataset c authentication (be_cleanup e);
              Some (match cleaned with
                    | Err x => GivesUp x
                    | Ok _ =>
                      Reports c (bool_decide (is_Some authentication)) results
                        (if existsb run_failed results
                         then Err (BenchText (bs "one or more benchmark runs completed with errors")) else Ok tt)
                    end)
            end
        end
      end
    end
  end.

End Workloads.

(** * What the benchmark reads is what the server writes *)

Definition graphic (b : byte) : bool := (33 <=? byte_Z b) && (byte_Z b <=? 126).
Definition printable (b : byte) : bool := (32 <=? byte_Z b) && (byte_Z b <=? 126).

(** A word of a line. *)
Definition token (s : bytes) : bool := negb (bool_decide (s = [])) && forallb graphic s.

(** A line without blanks at its ends. *)
Definition tidy (s : bytes) : bool :=
  forallb printable s && match head s with Some b => graphic b | None => false end
  && match last s with Some b => graphic b | None => false end.

Lemma graphic_printable b : graphic b = true -> printable b = true.
Proof. unfold graphic, printable. rewrite !andb_true_iff. lia. Qed.

Lemma blank_graphic b : graphic b = true -> is_whitespace [b] = false.
Proof. destruct b; vm_compute; congruence. Qed.

Lemma printable_chunk b s : printable b = true -> Utf8.next_chunk (b :: s) = (true, 1%nat).
Proof.
  intros Hb. assert (Hw : Utf8.width b = 1%nat) by (revert Hb; destruct b; vm_compute; congruence).
  unfold Utf8.next_chunk. by rewrite Hw.
Qed.

Lemma printable_chars s : forallb printable s = true -> Utf8.chars s = map (fun b => [b]) s /\ Utf8.valid s = true.
Proof.
  induction s as [|b s IH]; intros H; [done|]. cbn in H. apply andb_true_iff in H as [Hb Hs].
  destruct (IH Hs) as [Hc Hv]. unfold Utf8.chars in *.
  rewrite Utf8.chunks_step, Utf8.valid_step, printable_chunk by done. cbn [fst snd take firstn drop skipn map andb].
  rewrite take_0, drop_0, Hc. done.
Qed.

Lemma token_spec s : token s = true -> s <> [] /\ forallb graphic s = true /\ forallb printable s = true.
Proof.
  unfold token. rewrite andb_true_iff, negb_true_iff, bool_decide_eq_false. intros [Hn Hg].
  split; [done|]. split; [done|]. revert Hg. apply forallb_impl, graphic_printable.
Qed.

Lemma trim_tidy s : tidy s = true -> trim s = s.
Proof.
  unfold tidy. rewrite !andb_true_iff. intros [[Hp Hh] Hl]. unfold trim, trim_chars.
  destruct (printable_chars s Hp) as [-> _].
  assert (Hd : forall l, match head l with Some b => graphic b | None => false end = true ->
    drop_while is_whitespace (map (fun b : byte => [b]) l) = map (fun b => [b]) l).
  { intros [|b l] Hb; [done|]. cbn in *. by rewrite blank_graphic. }
  rewrite Hd, <- map_rev, Hd, <- map_rev, rev_involutive.
  - clear. induction s as [|b s IH]; [done|]. cbn. by rewrite IH.
  - destruct s as [|b s] using rev_ind; [done|]. rewrite last_snoc in Hl. by rewrite rev_unit.
  - done.
Qed.

Lemma split_words_token s cs word : forallb graphic s = true ->
  whitespace_words (map (fun b => [b]) s ++ cs) word = whitespace_words cs (word ++ s).
Proof.
  revert word. induction s as [|b s IH]; intros word H; cbn [map app]; [by rewrite app_nil_r|].
  cbn in H. apply andb_true_iff in H as [Hb Hs]. cbn [whitespace_words]. rewrite (blank_graphic _ Hb), (IH _ Hs).
  by rewrite <- app_assoc.
Qed.

(** Two words and the blank between them. *)
Lemma two_words a b : token a = true -> token b = true ->
  tidy (a ++ bs " " ++ b) = true /\ split_whitespace (a ++ bs " " ++ b) = [a; b].
Proof.
  intros (Ha & Hga & Hpa)%token_spec (Hb & Hgb & Hpb)%token_spec.
  assert (Hp : forallb printable (a ++ bs " " ++ b) = true) by (rewrite !forallb_app, Hpa, Hpb; done). split.
  - unfold tidy. rewrite Hp. destruct a as [|x a]; [done|]. destruct b as [|y b _] using rev_ind; [done|].
    replace (last ((x :: a) ++ bs " " ++ b ++ [y])) with (Some y) by (by rewrite !(assoc_L (++)), last_snoc).
    cbn [app head]. cbn in Hga. apply andb_true_iff in Hga as [-> _].
    rewrite forallb_app in Hgb. cbn in Hgb. rewrite andb_true_r in Hgb. apply andb_true_iff in Hgb as [_ ->]. done.
  - unfold split_whitespace. destruct (printable_chars _ Hp) as [-> _]. rewrite !map_app.
    rewrite split_words_token by done. change (map (fun b : byte => [b]) (bs " ")) with [[x20]].
    cbn [app whitespace_words]. assert (is_whitespace [x20] = true) as -> by (vm_compute; reflexivity).
    rewrite bool_decide_eq_false_2 by done. cbn [app]. f_equal.
    rewrite <- (app_nil_r (map _ b)), split_words_token by done. cbn. by rewrite bool_decide_eq_false_2.
Qed.

(** The lines of a text that is made of lines. *)
Lemma split_inclusive_line l rest : forallb printable l = true ->
  split_inclusive (l ++ x0a :: rest) = (l ++ [x0a]) :: split_inclusive rest.
Proof.
  induction l as [|b l IH]; intros H; cbn [app split_inclusive].
  - by rewrite bool_decide_eq_true_2.
  - cbn in H. apply andb_true_iff in H as [Hb Hl]. rewrite (IH Hl).
    rewrite bool_decide_eq_false_2; [done|]. intros ->. vm_compute in Hb. discriminate.
Qed.

Lemma line_text_line l : forallb printable l = true -> line_text (l ++ [x0a]) = l.
Proof.
  intros H. unfold line_text. rewrite strip_suffix_app. destruct (strip_suffix [x0d] l) as [r|] eqn:E; [|done].
  apply strip_suffix_Some in E as ->. rewrite forallb_app in H. apply andb_true_iff in H as [_ H]. vm_compute in H. discriminate.
Qed.

Definition text_of (ls : list bytes) : bytes := concat (map (fun l => l ++ [x0a]) ls).

Lemma str_lines_text ls : Forall (fun l => forallb printable l = true) ls -> str_lines (text_of ls) = ls.
Proof.
  unfold str_lines, text_of. induction 1 as [|l ls Hl _ IH]; [done|]. cbn [map concat].
  rewrite <- (assoc_L (++)). cbn [app]. rewrite (split_inclusive_line _ _ Hl). cbn [map]. by rewrite (line_text_line _ Hl), IH.
Qed.

Lemma text_valid ls : Forall (fun l => forallb printable l = true) ls -> Utf8.valid (text_of ls) = true.
Proof.
  unfold text_of. induction 1 as [|l ls Hl _ IH]; [done|]. cbn [map concat].
  repeat apply Utf8.valid_app; [by apply printable_chars|done|exact IH].
Qed.

(** The end of the headers. *)
Lemma split_boundary_skip l s h r : forallb printable l = true -> split_boundary (crlf ++ crlf) s = Some (h, r) ->
  split_boundary (crlf ++ crlf) (l ++ s) = Some (l ++ h, r).
Proof.
  intros H Hs. induction l as [|b l IH]; cbn [app]; [done|]. cbn in H. apply andb_true_iff in H as [Hb Hl].
  assert (Hne : b <> x0d) by (intros ->; vm_compute in Hb; discriminate).
  change (crlf ++ crlf) with [x0d; x0a; x0d; x0a] in *. cbn [split_boundary strip_prefix].
  rewrite bool_decide_eq_false_2 by done. rewrite (IH Hl). done.
Qed.

(** A header line behind which another one starts. *)
Lemma split_once_header l b s h r : forallb printable l = true -> printable b = true ->
  split_boundary (crlf ++ crlf) (b :: s) = Some (h, r) ->
  split_boundary (crlf ++ crlf) (l ++ crlf ++ b :: s) = Some (l ++ crlf ++ h, r).
Proof.
  intros Hl Hb Hs. assert (Hne : x0d <> b) by (intros <-; vm_compute in Hb; discriminate).
  apply split_boundary_skip; [done|].
  change (crlf ++ crlf) with [x0d; x0a; x0d; x0a] in *. change crlf with [x0d; x0a].
  change ([x0d; x0a] ++ b :: s) with (x0d :: x0a :: b :: s).
  cbn [split_boundary strip_prefix]. cbn [split_boundary strip_prefix] in Hs. rewrite !bool_decide_eq_true_2 by done.
  rewrite !(bool_decide_eq_false_2 (x0d = b)) in * by done. rewrite Hs. reflexivity.
Qed.

(** ** Lines of metrics *)

(** What the code relies on of [f64]'s texts: an integer is read as the nearest
    [f64], and the text of a number of seconds is one word that is read back. *)
Definition seconds_bits (n : Z) : Z := match seconds n with Seconds d => d | Count d => d end.

Class FloatTextLaws {FT : FloatText} : Prop := {
  parse_integer : forall n, 0 <= n <= U64_MAX -> f64_parse (print_Z n) = Some (F64.encode (f64_of n));
  parse_display : forall n, 0 <= n <= U64_MAX -> f64_parse (f64_display (seconds_bits n)) = Some (seconds_bits n);
  display_token : forall n, 0 <= n <= U64_MAX -> token (f64_display (seconds_bits n)) = true
}.

(** The names, help texts and types of the table. *)
Definition described (v : metric) : bool :=
  token (mt_name v) && match mt_name v with x6f :: _ => true | _ => false end
  && token (mt_type v) && tidy (mt_help v).

(** Values that fit their type. *)
Definition in_range (v : metric) : Prop :=
  match mt_value v with
  | Count n => 0 <= n <= U64_MAX
  | Seconds d => exists n, 0 <= n <= U64_MAX /\ d = seconds_bits n
  end.

Definition value_bits (v : metric) : Z :=
  match mt_value v with Count n => F64.encode (f64_of n) | Seconds d => d end.

Section ReadBack.
Context {JN : JsonNumber} {SJ : SerdeJson} {HO : HashOrder} {FT : FloatText} {FL : FloatTextLaws}.

Definition value_text (v : metric) : bytes :=
  match mt_value v with Count n => print_Z n | Seconds d => f64_display d end.

Definition metric_lines (v : metric) : list bytes :=
  [bs "# HELP " ++ mt_name v ++ bs " " ++ mt_help v; bs "# TYPE " ++ mt_name v ++ bs " " ++ mt_type v;
   mt_name v ++ bs " " ++ value_text v].

Lemma push_metric_lines v : push_metric v = text_of (metric_lines v).
Proof. unfold push_metric, text_of, metric_lines, value_text. cbn [map concat]. by rewrite !app_nil_r, <- !(assoc_L (++)). Qed.

Lemma digits_token n : 0 <= n -> token (print_Z n) = true.
Proof.
  intros Hn. destruct (print_Z_spec n Hn) as (d & ds & -> & Hd & _). unfold token. rewrite bool_decide_eq_false_2 by done.
  cbn [negb andb]. apply forallb_forall. intros b Hb. rewrite list.Forall_forall in Hd.
  specialize (Hd b (proj2 (list_elem_of_In _ _) Hb)). unfold is_ascii_digit in Hd. unfold graphic.
  rewrite andb_true_iff in *. lia.
Qed.

Lemma value_spec v : in_range v -> token (value_text v) = true /\ f64_parse (value_text v) = Some (value_bits v).
Proof.
  unfold in_range, value_text, value_bits. destruct (mt_value v) as [n|d].
  - intros Hn. split; [apply digits_token; lia|by apply parse_integer].
  - intros (n & Hn & ->). split; [by apply display_token|by apply parse_display].
Qed.

Lemma tidy_app a b : forallb printable a = true -> match head a with Some c => graphic c | None => false end = true ->
  tidy b = true -> tidy (a ++ b) = true.
Proof.
  unfold tidy. rewrite !andb_true_iff, forallb_app. intros Ha Hh [[Hb _] Hl]. rewrite Ha, Hb.
  destruct a as [|x a]; [done|]. split; [done|]. destruct b as [|y b _] using rev_ind; [done|].
  rewrite last_snoc in Hl. by rewrite (assoc_L (++)), last_snoc.
Qed.

Lemma token_tidy a : token a = true -> tidy a = true.
Proof.
  intros (Hn & Hg & Hp)%token_spec. unfold tidy. rewrite Hp. destruct a as [|x a]; [done|].
  assert (Hall : forall b, b ∈ x :: a -> graphic b = true).
  { intros b Hb. rewrite forallb_forall in Hg. by apply Hg, list_elem_of_In. }
  cbn [head]. rewrite (Hall x) by (by left). destruct (last (x :: a)) as [y|] eqn:E; [|by apply last_None in E].
  rewrite (Hall y) by (by apply last_Some_elem_of). done.
Qed.

Lemma described_spec v : described v = true ->
  token (mt_name v) = true /\ (exists r, mt_name v = x6f :: r) /\ token (mt_type v) = true /\ tidy (mt_help v) = true.
Proof.
  unfold described. rewrite !andb_true_iff. intros [[[Hn Hh] Ht] Hd]. split; [done|]. split; [|done].
  destruct (mt_name v) as [|[] r]; try discriminate. by exists r.
Qed.

(** Lines whose first words are known. *)
Lemma marked_line prefix v t : forallb printable prefix = true ->
  match head prefix with Some c => graphic c | None => false end = true ->
  described v = true -> tidy t = true -> tidy (prefix ++ mt_name v ++ bs " " ++ t) = true.
Proof.
  intros Hp Hh (Hn & _ & _ & _)%described_spec Ht. destruct (token_spec _ Hn) as (Hne & Hg & Hpn).
  apply tidy_app; [done|done|]. rewrite (assoc_L (++)). apply tidy_app; [by rewrite forallb_app, Hpn| |done].
  destruct (mt_name v) as [|x r]; [done|]. cbn in *. by apply andb_true_iff in Hg as [-> _].
Qed.

Definition record_metric (s : ServerMetricsSnapshot) (v : metric) : ServerMetricsSnapshot :=
  mkSnapshot (<[mt_name v := value_bits v]> (samples s))
    (if bytes_eqb (mt_type v) (bs "counter") then {[mt_name v]} ∪ counters s else counters s).

Lemma read_help v s : described v = true ->
  read_metrics_line s (bs "# HELP " ++ mt_name v ++ bs " " ++ mt_help v) = Ok s.
Proof.
  intros Hv. pose proof (described_spec _ Hv) as (_ & _ & _ & Hh). unfold read_metrics_line.
  rewrite trim_tidy by (by apply marked_line). reflexivity.
Qed.

Lemma read_type v s : described v = true ->
  read_metrics_line s (bs "# TYPE " ++ mt_name v ++ bs " " ++ mt_type v) =
  Ok (mkSnapshot (samples s) (if bytes_eqb (mt_type v) (bs "counter") then {[mt_name v]} ∪ counters s else counters s)).
Proof.
  intros Hv. pose proof (described_spec _ Hv) as (Hn & _ & Ht & _). unfold read_metrics_line.
  rewrite trim_tidy by (apply marked_line; try done; by apply token_tidy).
  rewrite strip_prefix_app. by rewrite (proj2 (two_words _ _ Hn Ht)).
Qed.

Lemma read_sample v s : described v = true -> in_range v ->
  read_metrics_line s (mt_name v ++ bs " " ++ value_text v) =
  Ok (mkSnapshot (<[mt_name v := value_bits v]> (samples s)) (counters s)).
Proof.
  intros Hv Hr. pose proof (described_spec _ Hv) as (Hn & [r Hr'] & _ & _). destruct (value_spec _ Hr) as [Ht Hp].
  destruct (two_words _ _ Hn Ht) as [Htidy Hw]. unfold read_metrics_line. rewrite (trim_tidy _ Htidy), Hw, Hp.
  rewrite Hr'. reflexivity.
Qed.

Lemma read_metric_lines l s : Forall (fun v => described v = true /\ in_range v) l ->
  read_metrics_lines (concat (map metric_lines l)) s = Ok (fold_left record_metric l s).
Proof.
  intros H. revert s. induction H as [|v l [Hv Hr] _ IH]; intros s; [done|]. cbn [map concat metric_lines app read_metrics_lines].
  rewrite read_help by done. cbn [mbind result_bind]. rewrite read_type by done. cbn [mbind result_bind].
  rewrite read_sample by done. cbn [mbind result_bind samples counters]. apply IH.
Qed.

Lemma lines_printable l : Forall (fun v => described v = true /\ in_range v) l ->
  Forall (fun x => forallb printable x = true) (concat (map metric_lines l)).
Proof.
  assert (Htidy : forall x, tidy x = true -> forallb printable x = true).
  { intros x. unfold tidy. by rewrite !andb_true_iff; intros [[? _] _]. }
  induction 1 as [|v l [Hv Hr] _ IH]; [constructor|]. cbn [map concat metric_lines].
  pose proof (described_spec _ Hv) as (Hn & _ & Ht & Hh). destruct (value_spec _ Hr) as [Hx _].
  repeat constructor; [| | |exact IH]; apply Htidy.
  - by apply marked_line.
  - apply marked_line; try done. by apply token_tidy.
  - by apply two_words.
Qed.

Lemma body_text l : concat (map push_metric l) = text_of (concat (map metric_lines l)).
Proof.
  induction l as [|v l IH]; [done|]. cbn [map concat]. rewrite IH, push_metric_lines. unfold text_of.
  by rewrite map_app, concat_app.
Qed.

(** The response is split behind its headers. *)
Lemma response_split body : exists headers,
  split_boundary (crlf ++ crlf) (metrics_response body) = Some (headers, body) /\
  starts_with headers (bs "HTTP/1.1 200 ") = true /\ (Utf8.valid body = true -> Utf8.valid (metrics_response body) = true).
Proof.
  pose proof (digits_token (len body) (len_nonneg body)) as (_ & _ & Hd)%token_spec. unfold metrics_response. eexists. split; [|split].
  - change (bs "Connection: close" ++ crlf ++ crlf ++ body) with (x43 :: bs "onnection: close" ++ crlf ++ crlf ++ body).
    change (bs "Content-Length: " ++ ?x) with (x43 :: bs "ontent-Length: " ++ x).
    change (bs "Content-Type: text/plain; version=0.0.4" ++ ?x) with (x43 :: bs "ontent-Type: text/plain; version=0.0.4" ++ x).
    eapply split_once_header; [done|done|].
    change (x43 :: bs "ontent-Type: text/plain; version=0.0.4" ++ ?x) with (bs "Content-Type: text/plain; version=0.0.4" ++ x).
    eapply split_once_header; [done|done|].
    change (x43 :: bs "ontent-Length: " ++ ?x) with (bs "Content-Length: " ++ x). rewrite (assoc_L (++)).
    eapply split_once_header; [by rewrite forallb_app, Hd|done|].
    change (x43 :: bs "onnection: close" ++ ?x) with (bs "Connection: close" ++ x).
    apply (split_boundary_skip _ _ []); [done|]. rewrite (assoc_L (++) crlf crlf).
    change (crlf ++ crlf) with [x0d; x0a; x0d; x0a]. reflexivity.
  - reflexivity.
  - intros Hv. repeat apply Utf8.valid_app; try done. by apply printable_chars.
Qed.

Lemma recorded l s : NoDup (map mt_name l) ->
  (forall v, v ∈ l -> samples (fold_left record_metric l s) !! mt_name v = Some (value_bits v)) /\
  (forall name, name ∉ map mt_name l -> samples (fold_left record_metric l s) !! name = samples s !! name) /\
  (forall name, name ∈ counters (fold_left record_metric l s) <->
    name ∈ counters s \/ exists v, v ∈ l /\ mt_name v = name /\ mt_type v = bs "counter").
Proof.
  revert s. induction l as [|v l IH]; intros s Hnd; cbn [fold_left map] in *.
  - split; [by intros v Hv; inversion Hv|]. split; [done|]. intros name. split; [by left|].
    intros [?|(v & Hv & _)]; [done|]. inversion Hv.
  - apply NoDup_cons in Hnd as [Hv Hnd]. destruct (IH (record_metric s v) Hnd) as (H1 & H2 & H3). split; [|split].
    + intros v' [->|Hv']%elem_of_cons; [|by apply H1]. rewrite H2 by done. cbn. by rewrite lookup_insert_eq.
    + intros name Hn. rewrite not_elem_of_cons in Hn. destruct Hn as [Hne Hn]. rewrite H2 by done. cbn.
      by rewrite lookup_insert_ne.
    + intros name. rewrite H3. cbn. unfold bytes_eqb. case_bool_decide as Ht.
      * rewrite elem_of_union, elem_of_singleton. setoid_rewrite elem_of_cons. naive_solver.
      * setoid_rewrite elem_of_cons. naive_solver.
Qed.

Lemma read_back l : Forall (fun v => described v = true /\ in_range v) l -> NoDup (map mt_name l) -> l <> [] ->
  len (metrics_response (concat (map push_metric l))) <= MAX_METRICS_RESPONSE_BYTES ->
  exists s, fetch_server_metrics (Ok (metrics_response (concat (map push_metric l)))) = Ok s /\
    (forall v, v ∈ l -> samples s !! mt_name v = Some (value_bits v)) /\
    (forall name, name ∉ map mt_name l -> samples s !! name = None) /\
    (forall name, name ∈ counters s <-> exists v, v ∈ l /\ mt_name v = name /\ mt_type v = bs "counter").
Proof.
  intros Hl Hnd Hne Hlen. set (body := concat (map push_metric l)) in *.
  destruct (response_split body) as (headers & Hsplit & Hok & Hval). pose proof (lines_printable l Hl) as Hp.
  destruct (recorded l (mkSnapshot ∅ ∅) Hnd) as (H1 & H2 & H3). exists (fold_left record_metric l (mkSnapshot ∅ ∅)).
  split; [|split; [exact H1|split; [intros name Hn; by rewrite H2|]]].
  2: { intros name. rewrite H3. cbn [counters]. split; [intros [Hx|Hx]; [by apply elem_of_empty in Hx|exact Hx]|by right]. }
  unfold fetch_server_metrics. rewrite take_ge by (unfold len in Hlen; lia).
  destruct (Z.ltb_spec MAX_METRICS_RESPONSE_BYTES (len (metrics_response body))); [lia|].
  unfold Utf8.from_utf8. rewrite Hval by (unfold body; rewrite body_text; by apply text_valid). rewrite Hsplit, Hok. cbn [negb].
  unfold body. rewrite body_text, str_lines_text, read_metric_lines by done. cbn [mbind result_bind].
  rewrite bool_decide_eq_false_2; [done|]. intros He. destruct l as [|v l]; [done|].
  specialize (H1 v (list_elem_of_here v l)). rewrite He in H1. by rewrite lookup_empty in H1.
Qed.

End ReadBack.

Lemma table_described uptime keys memory offset c statuses coordinator binlog runtime compaction :
  let l := process_metrics uptime keys memory offset c statuses
           ++ match coordinator with Some m => commit_metrics m | None => [] end
           ++ binlog_metrics binlog ++ runtime_metrics runtime ++ compaction_metrics compaction in
  forallb described l = true /\ NoDup (map mt_name l) /\ l <> [].
Proof.
  intros l. split; [|split; [|done]].
  - destruct coordinator; vm_compute; reflexivity.
  - assert (H : bool_decide (NoDup (map mt_name l)) = true) by (destruct coordinator; vm_compute; reflexivity).
    by apply bool_decide_eq_true in H.
Qed.

(** * Batches within the limits *)

(** What a validated configuration keeps to. *)
Record bounded (c : BenchmarkConfig) : Prop := {
  bd_requests : 1 <= b_requests c <= MAX_REQUESTS;
  bd_warmup : b_warmup_requests c <= MAX_REQUESTS;
  bd_concurrency : 1 <= b_concurrency c <= MAX_CONCURRENCY;
  bd_pipeline : 1 <= b_pipeline c <= MAX_PIPELINE_COMMANDS;
  bd_keyspace : 1 <= b_keyspace c <= MAX_KEYSPACE;
  bd_payload : 0 <= b_payload_size c <= MAX_PAYLOAD_SIZE;
  bd_prefix : len (b_key_prefix c) <= 1024;
  bd_batch : (b_payload_size c + len (b_key_prefix c) + 512) * b_pipeline c <= MAX_PIPELINE_BYTES
}.

Lemma validate_range_Ok name v lo hi x : validate_range name v lo hi = Ok x -> lo <= v <= hi.
Proof. unfold validate_range. destruct (_ && _) eqn:E; [|done]. intros _. rewrite andb_true_iff in E. lia. Qed.

Lemma refuse_when_Ok b m x : refuse_when b m = Ok x -> b = false.
Proof. by destruct b. Qed.

Lemma validate_bounded c : BenchmarkConfig_validate c = Ok tt -> bounded c.
Proof.
  unfold BenchmarkConfig_validate. intros H. inv_binds.
  repeat match goal with
  | H : validate_range _ _ _ _ = Ok _ |- _ => apply validate_range_Ok in H
  | H : refuse_when _ _ = Ok _ |- _ => apply refuse_when_Ok in H
  end.
  destruct (checked_mul (estimated_command_bytes c) (b_pipeline c)) as [n|] eqn:E; [|done].
  match goal with H : refuse_when _ _ = Ok _ |- _ => apply refuse_when_Ok in H end.
  pose proof (len_nonneg (b_key_prefix c)). unfold checked_mul in E. destruct (_ <=? U64_MAX); [|done]. injection E as <-.
  unfold MAX_PAYLOAD_SIZE in *. assert (He : estimated_command_bytes c = b_payload_size c + len (b_key_prefix c) + 512).
  { unfold estimated_command_bytes, sat_add, USIZE_MAX, U64_MAX. lia. }
  rewrite He in *. constructor; unfold MAX_PAYLOAD_SIZE; lia.
Qed.

Lemma parse_bounded process timestamp arguments c :
  BenchmarkConfig_parse process timestamp arguments = Ok c -> bounded c.
Proof. unfold BenchmarkConfig_parse. intros H. inv_binds. subst. apply validate_bounded. by destruct a0. Qed.

Lemma checked_add_fits a b : a + b <= U64_MAX -> checked_add a b = Some (a + b).
Proof. intros H. unfold checked_add. by rewrite (proj2 (Z.leb_le _ _) H). Qed.

(** A command whose frame takes at most [size] bytes. *)
Definition fits (size : Z) (command : list bytes) : Prop :=
  0 < len command <= max_array_len CLIENT_RESP_LIMITS /\
  Forall (fun a => len a <= max_bulk_len CLIENT_RESP_LIMITS) command /\ len (command_frame command) <= size.

Lemma frame_length_total limits arguments start :
  Forall (fun a => len a <= max_bulk_len limits) arguments -> 0 <= start -> start + len (encoded arguments) <= U64_MAX ->
  fold_left (frame_length_step limits) arguments (Ok start) = Ok (start + len (encoded arguments)).
Proof.
  intros H. revert start. induction H as [|a l Ha _ IH]; intros start H0 Hs; cbn [fold_left].
  - change (len (encoded [])) with 0. f_equal. lia.
  - change (encoded (a :: l)) with (encoded_argument a ++ encoded l) in *. rewrite len_app in *.
    assert (He : len (encoded_argument a) = 1 + decimal_length (len a) + 2 + len a + 2).
    { unfold encoded_argument, decimal_length. change (bs "$") with [x24]. rewrite !len_app.
      change (len crlf) with 2. change (len [x24]) with 1. lia. }
    pose proof (len_nonneg (encoded l)). pose proof (len_nonneg a). pose proof (len_nonneg (print_Z (len a))).
    unfold decimal_length in He.
    assert (Hstep : frame_length_step limits (Ok start) a = Ok (start + len (encoded_argument a))).
    { unfold frame_length_step. cbn [mbind result_bind].
      destruct (Z.ltb_spec (max_bulk_len limits) (len a)); [lia|]. unfold decimal_length.
      repeat (rewrite checked_add_fits by lia; cbn [mbind option_bind]). cbn [ok_or]. f_equal. lia. }
    rewrite Hstep, IH by lia. f_equal. lia.
Qed.

Lemma fits_encodes size command buffer : fits size command -> size <= max_frame_len CLIENT_RESP_LIMITS ->
  encode_command command buffer CLIENT_RESP_LIMITS = Ok (buffer ++ command_frame command).
Proof.
  intros (Hn & Hb & Hf) Hs. unfold command_frame in Hf. rewrite !len_app in Hf.
  change (len (bs "*")) with 1 in Hf. change (len crlf) with 2 in Hf.
  pose proof (len_nonneg (encoded command)). pose proof (len_nonneg (print_Z (len command))).
  assert (HU : max_frame_len CLIENT_RESP_LIMITS <= U64_MAX) by done.
  unfold encode_command. rewrite bool_decide_eq_false_2 by (intros ->; unfold len in Hn; cbn in Hn; lia).
  destruct (Z.ltb_spec (max_array_len CLIENT_RESP_LIMITS) (len command)); [lia|].
  unfold decimal_length. repeat (rewrite checked_add_fits by lia; cbn [mbind option_bind]). cbn [ok_or mbind result_bind].
  rewrite frame_length_total by (done || lia). cbn [mbind result_bind].
  destruct (Z.ltb_spec (max_frame_len CLIENT_RESP_LIMITS) (1 + len (print_Z (len command)) + 2 + len (encoded command))); [lia|done].
Qed.

Lemma fits_pipeline size commands buffer : Forall (fits size) commands -> 0 <= size <= max_frame_len CLIENT_RESP_LIMITS ->
  len buffer + size * len commands <= MAX_PIPELINE_BYTES -> exists output, encode_pipeline commands buffer = Ok output.
Proof.
  intros H Hs. revert buffer. induction H as [|c l Hc _ IH]; intros buffer Hb; cbn [encode_pipeline]; [by eexists|].
  rewrite (fits_encodes size) by (done || lia). cbn [mbind result_bind].
  destruct Hc as (_ & _ & Hf). assert (Hl : len (c :: l) = len l + 1) by (unfold len; cbn [length]; lia).
  pose proof (len_nonneg l). rewrite len_app. destruct (Z.ltb_spec MAX_PIPELINE_BYTES (len buffer + len (command_frame c))); [nia|].
  apply IH. rewrite len_app. nia.
Qed.

(** A batch within the limits is written, whatever becomes of the write. *)
Lemma fits_written size commands w client :
  commands <> [] -> len commands <= MAX_PIPELINE_COMMANDS -> Forall (fits size) commands ->
  0 <= size <= max_frame_len CLIENT_RESP_LIMITS -> size * len commands <= MAX_PIPELINE_BYTES ->
  exists output, encode_pipeline commands [] = Ok output /\ write_pipeline w commands client = write_within w output client.
Proof.
  intros Hne Hn Hf Hs Hb. destruct (fits_pipeline size commands [] Hf Hs) as [output E]; [change (len []) with 0; lia|].
  exists output. split; [done|]. unfold write_pipeline. rewrite bool_decide_eq_false_2 by done.
  destruct (Z.ltb_spec MAX_PIPELINE_COMMANDS (len commands)); [lia|]. cbn [orb]. by rewrite E.
Qed.

(** The frame of a command, by the bytes of its arguments. *)
Lemma frame_bound command n : len command = n -> n <= 4 -> Forall (fun a => len a <= U64_MAX) command ->
  len (command_frame command) <= 23 + fold_right (fun a acc => len a + 25 + acc) 0 command.
Proof.
  intros Hn Hn4 H. unfold command_frame. rewrite !len_app. change (len (bs "*")) with 1. change (len crlf) with 2.
  pose proof (len_nonneg command). pose proof (print_Z_length (len command)) as Hl.
  assert (He : len (encoded command) <= fold_right (fun a acc => len a + 25 + acc) 0 command).
  { clear -H. induction H as [|a l Ha _ IH]; [done|]. change (encoded (a :: l)) with (encoded_argument a ++ encoded l).
    rewrite len_app. unfold encoded_argument. change (bs "$") with [x24]. rewrite !len_app.
    change (len crlf) with 2. change (len [x24]) with 1. pose proof (print_Z_length (len a)). pose proof (len_nonneg a).
    cbn [fold_right]. lia. }
  unfold U64_MAX in Hl. lia.
Qed.

Section Batches.
Context {JN : JsonNumber} {SJ : SerdeJson} {HO : HashOrder} {FT : FloatText}.

Lemma key_length c operation : bounded c -> len (bench_key c operation) <= len (b_key_prefix c) + 21.
Proof.
  intros [_ _ _ _ Hk _ _ _]. unfold bench_key. rewrite !len_app. change (len (bs ":")) with 1. unfold MAX_KEYSPACE in Hk.
  pose proof (Z.mod_pos_bound operation (b_keyspace c) ltac:(lia)).
  pose proof (print_Z_length (operation mod b_keyspace c)) as Hl. unfold U64_MAX in Hl. lia.
Qed.

Lemma workload_value_length c : bounded c -> len (workload_value c) = b_payload_size c.
Proof. intros [_ _ _ _ _ Hp _ _]. unfold workload_value, len. rewrite repeat_length. lia. Qed.

Lemma hex_length count n : length (hex_digits count n) = count.
Proof. revert n. induction count as [|count IH]; intros n; [done|]. cbn [hex_digits]. rewrite length_app, IH. cbn. lia. Qed.

Lemma string_value_length c operation : bounded c -> len (string_value c operation) = b_payload_size c.
Proof.
  intros Hc. pose proof (workload_value_length c Hc) as Hp. destruct Hc as [_ _ _ _ _ Hb _ _]. unfold string_value.
  destruct (Z.eqb_spec (b_payload_size c) 0) as [->|]; [done|].
  set (g := operation / b_keyspace c). assert (Hm : length (hex16 g) = 16%nat) by apply hex_length.
  rewrite len_app. unfold len in *. rewrite !length_drop, Hm. lia.
Qed.

(** The commands a configuration makes take the estimated bytes. *)
Lemma small_command c command : bounded c -> 0 < len command <= 4 ->
  Forall (fun a => len a <= b_payload_size c + 64 \/ len a <= len (b_key_prefix c) + 21 \/ len a <= 9) command ->
  fold_right (fun a acc => len a + 25 + acc) 0 command <= b_payload_size c + len (b_key_prefix c) + 230 ->
  fits (b_payload_size c + len (b_key_prefix c) + 512) command.
Proof.
  intros [_ _ _ _ _ Hp Hk _] Hn Ha Hs. unfold MAX_PAYLOAD_SIZE in Hp. pose proof (len_nonneg (b_key_prefix c)).
  assert (Hall : Forall (fun a => len a <= max_bulk_len CLIENT_RESP_LIMITS) command).
  { eapply list.Forall_impl; [exact Ha|]. intros a Hx. cbn beta in Hx. change (max_bulk_len CLIENT_RESP_LIMITS) with 8388608. lia. }
  split; [change (max_array_len CLIENT_RESP_LIMITS) with 1024; lia|]. split; [done|].
  pose proof (frame_bound command (len command) eq_refl ltac:(lia)) as Hf.
  assert (len (command_frame command) <= 23 + fold_right (fun a acc => len a + 25 + acc) 0 command); [|lia].
  apply Hf. eapply list.Forall_impl; [exact Hall|]. intros a Hx. etrans; [exact Hx|done].
Qed.

Ltac solve_small := split; [done|]; split;
  [repeat match goal with |- Forall _ (_ :: _) => apply List.Forall_cons | |- Forall _ [] => apply List.Forall_nil end; lia
  |cbn [fold_right]; lia].

Lemma bench_command_fits c operation : bounded c -> len (json_value c operation) <= b_payload_size c + 64 ->
  fits (b_payload_size c + len (b_key_prefix c) + 512) (bench_command c operation).
Proof.
  intros Hc Hj. pose proof (key_length c operation Hc) as Hk. pose proof (string_value_length c operation Hc) as Hv.
  pose proof (len_nonneg (b_key_prefix c)). pose proof (bd_payload c Hc) as Hp.
  assert (Hcase : let command := bench_command c operation in 0 < len command <= 4 /\
    Forall (fun a => len a <= b_payload_size c + 64 \/ len a <= len (b_key_prefix c) + 21 \/ len a <= 9) command /\
    fold_right (fun a acc => len a + 25 + acc) 0 command <= b_payload_size c + len (b_key_prefix c) + 230).
  { assert (L : len (bs "GET") = 3 /\ len (bs "SET") = 3 /\ len (bs "JSON.GET") = 8 /\ len (bs "JSON.SET") = 8 /\
      len (bs "$") = 1 /\ len (bs "$.payload") = 9) by done.
    destruct L as (L1 & L2 & L3 & L4 & L5 & L6).
    unfold bench_command. destruct (b_workload c); [| |destruct (operation mod 2 =? 0)| |]; solve_small. }
  destruct Hcase as (H1 & H2 & H3). by apply small_command.
Qed.

Lemma setup_command_fits c index : bounded c -> len (json_value c 0) <= b_payload_size c + 64 ->
  fits (b_payload_size c + len (b_key_prefix c) + 512) (setup_command c index).
Proof.
  intros Hc Hj. pose proof (key_length c index Hc) as Hk. pose proof (workload_value_length c Hc) as Hv.
  pose proof (len_nonneg (b_key_prefix c)). pose proof (bd_payload c Hc) as Hp.
  assert (Hcase : let command := setup_command c index in 0 < len command <= 4 /\
    Forall (fun a => len a <= b_payload_size c + 64 \/ len a <= len (b_key_prefix c) + 21 \/ len a <= 9) command /\
    fold_right (fun a acc => len a + 25 + acc) 0 command <= b_payload_size c + len (b_key_prefix c) + 230).
  { assert (L : len (bs "SET") = 3 /\ len (bs "JSON.SET") = 8 /\ len (bs "$") = 1) by done. destruct L as (L1 & L2 & L3).
    unfold setup_command. destruct (b_workload c); solve_small. }
  destruct Hcase as (H1 & H2 & H3). by apply small_command.
Qed.

Lemma delete_command_fits c index : bounded c -> fits (len (b_key_prefix c) + 512) [bs "DEL"; bench_key c index].
Proof.
  intros Hc. pose proof (key_length c index Hc) as Hk. pose proof (len_nonneg (b_key_prefix c)). pose proof (bd_prefix c Hc) as Hp.
  assert (L : len (bs "DEL") = 3) by done.
  assert (Hall : Forall (fun a => len a <= max_bulk_len CLIENT_RESP_LIMITS) [bs "DEL"; bench_key c index]).
  { change (max_bulk_len CLIENT_RESP_LIMITS) with 8388608. repeat constructor; lia. }
  split; [done|]. split; [done|].
  pose proof (frame_bound [bs "DEL"; bench_key c index] 2 eq_refl ltac:(lia)) as Hf.
  cbn [fold_right] in Hf. etrans; [apply Hf|lia]. eapply list.Forall_impl; [exact Hall|]. intros a Hx. etrans; [exact Hx|done].
Qed.

Lemma range_length first count : 0 <= count -> len (range first count) = count.
Proof. intros H. unfold range, len. rewrite length_map, length_seq. lia. Qed.

Lemma range_in first count x : x ∈ range first count -> first <= x < first + count.
Proof.
  unfold range. intros (i & -> & Hi)%list_elem_of_fmap. apply list_elem_of_In, in_seq in Hi. lia.
Qed.

(** A batch of commands that fit. *)
Lemma batch_written size (command : Z -> list bytes) first n w client :
  0 < n <= MAX_PIPELINE_COMMANDS -> (forall x, first <= x < first + n -> fits size (command x)) ->
  0 <= size <= max_frame_len CLIENT_RESP_LIMITS -> size * n <= MAX_PIPELINE_BYTES ->
  exists output, encode_pipeline (map command (range first n)) [] = Ok output /\
    write_pipeline w (map command (range first n)) client = write_within w output client.
Proof.
  intros Hn Hf Hs Hb. assert (Hl : len (map command (range first n)) = n).
  { unfold len. rewrite length_map. fold (len (range first n)). apply range_length. lia. }
  apply (fits_written size); rewrite ?Hl; try done; try lia.
  - intros E. rewrite E in Hl. change (len []) with 0 in Hl. lia.
  - apply list.Forall_forall. intros x (y & -> & Hy)%list_elem_of_fmap. by apply Hf, range_in.
Qed.

(** ** The shares of the workers *)

Lemma range_app first a b : 0 <= a -> 0 <= b -> range first (a + b) = range first a ++ range (first + a) b.
Proof.
  intros Ha Hb. unfold range. rewrite Z2Nat.inj_add, seq_app, map_app by done. f_equal.
  rewrite Nat.add_0_l. rewrite <- (Nat.add_0_r (Z.to_nat a)) at 1. rewrite <- fmap_add_seq. unfold fmap. rewrite map_map.
  apply map_ext. intros i. lia.
Qed.

Definition share_operations (s : Z * Z) : list Z := range s.1 s.2.

Lemma shares_cover n i base extra first : 0 <= base ->
  concat (map share_operations (worker_shares (seq i n) base extra first)) =
    range first (Z.of_nat n * base + Z.max 0 (Z.min (Z.of_nat n) (extra - Z.of_nat i))) /\
  length (worker_shares (seq i n) base extra first) = n /\
  Forall (fun s => base <= s.2 <= base + 1) (worker_shares (seq i n) base extra first).
Proof.
  intros Hb. revert i first. induction n as [|n IH]; intros i first; cbn [seq worker_shares map concat length].
  - split; [unfold range; by replace (Z.to_nat _) with 0%nat by lia|by split].
  - set (k := base + (if Z.of_nat i <? extra then 1 else 0)). destruct (IH (S i) (first + k)) as (H1 & H2 & H3).
    assert (Hk : base <= k <= base + 1) by (unfold k; destruct (_ <? _); lia).
    split; [|split; [by rewrite H2|by constructor]]. rewrite H1. unfold share_operations. cbn [fst snd].
    rewrite <- range_app by lia. f_equal. unfold k. destruct (Z.ltb_spec (Z.of_nat i) extra); lia.
Qed.

Lemma phase_cover c requests offset : bounded c -> 1 <= requests ->
  concat (map share_operations (phase_shares c requests offset)) = range offset requests /\
  length (phase_shares c requests offset) = Z.to_nat (Z.min (b_concurrency c) requests) /\
  Forall (fun s => requests / Z.min (b_concurrency c) requests <= s.2 <= requests / Z.min (b_concurrency c) requests + 1)
    (phase_shares c requests offset).
Proof.
  intros [_ _ Hc _ _ _ _ _] Hr. unfold phase_shares. set (w := Z.min (b_concurrency c) requests).
  assert (Hw : 1 <= w) by lia. pose proof (Z.div_pos requests w). pose proof (Z.mod_pos_bound requests w ltac:(lia)).
  destruct (shares_cover (Z.to_nat w) 0 (requests / w) (requests mod w) offset) as (H1 & H2 & H3); [lia|].
  split; [|done]. rewrite H1. f_equal. pose proof (Z.div_mod requests w ltac:(lia)). lia.
Qed.

(** ** Tallies *)

(** [n] requests that were sent, each answered or lost. *)
Record tallied (collect : bool) (n completed errors transport : Z) (latencies : list Z) : Prop := {
  ta_completed : 0 <= completed <= n;
  ta_transport : 0 <= transport <= errors;
  ta_answers : errors - transport <= completed;
  ta_lost : completed + transport = n;
  ta_latency : len latencies = if collect then completed else 0
}.

(** What a worker sends of its requests: all of them, or whole batches up to
    the one in which its connection failed. *)
Definition attempted (pipeline count sent : Z) : Prop :=
  sent = count \/ (sent < count /\ exists k, 0 <= k /\ sent = k * pipeline).

Lemma attempted_next pipeline count sent : 1 <= pipeline -> attempted pipeline count sent -> sent < count ->
  attempted pipeline count (sent + Z.min pipeline (sat_sub count sent)).
Proof.
  intros Hp [->|[_ (k & Hk & ->)]] Hlt; [lia|]. unfold sat_sub in *. destruct (Z.le_gt_cases count (k * pipeline + pipeline)).
  - left. lia.
  - right. split; [lia|]. exists (k + 1). lia.
Qed.

Definition worker_tallied (collect : bool) (n : Z) (r : WorkerResult) : Prop :=
  tallied collect n (wr_completed r) (wr_errors r) (wr_transport_errors r) (wr_latency_nanoseconds r).

Lemma read_batch_tally c a collect ops client r n client' r' ok :
  read_batch c a collect ops client r = (client', r', ok) -> worker_tallied collect n r ->
  worker_tallied collect (n + len ops) r' /\ wr_errors r <= wr_errors r' /\
  (if ok then wr_completed r' = wr_completed r + len ops else wr_errors r < wr_errors r').
Proof.
  revert client r n. induction ops as [|op ops IH]; intros client r n E Ht; cbn [read_batch] in E.
  - injection E as <- <- <-. change (len []) with 0. rewrite !Z.add_0_r. split; [done|]. split; [lia|done].
  - destruct (client_read client) as [client1 [response|e]].
    + destruct Ht as [H1 H2 H3 H4 H5]. eapply (IH _ _ (n + 1)) in E as (G1 & G2 & G3).
      * rewrite len_cons. replace (n + (1 + len ops)) with (n + 1 + len ops) by lia. split; [done|]. cbn in G2, G3.
        destruct (response_is_valid _ _ _), ok; lia.
      * constructor; cbn; try (destruct (response_is_valid _ _ _); lia).
        destruct collect; [rewrite len_app; change (len [_]) with 1; lia|done].
    + injection E as <- <- <-. pose proof (len_nonneg ops) as Hn. rewrite len_cons in *. destruct Ht as [H1 H2 H3 H4 H5].
      split; [constructor; cbn; rewrite ?len_cons; try lia; done|]. cbn. lia.
Qed.

(** A worker ends, and accounts for its requests; without errors it completes
    them all. *)
Lemma worker_loop_tally fuel batch c a collect first count completed client r :
  bounded c -> 0 <= completed <= count -> count - completed <= Z.of_nat fuel -> attempted (b_pipeline c) count completed ->
  worker_tallied collect completed r -> (wr_errors r = 0 -> wr_completed r = completed) ->
  exists r' sent, worker_loop fuel batch c a collect first count completed client r = Some r' /\
    attempted (b_pipeline c) count sent /\ worker_tallied collect sent r' /\ (wr_errors r' = 0 -> wr_completed r' = count).
Proof.
  intros [_ _ _ Hp _ _ _ _]. revert batch completed client r.
  induction fuel as [|fuel IH]; intros batch completed client r Hc Hf Ha Ht Hz;
    cbn [worker_loop]; (destruct (Z.ltb_spec completed count) as [Hlt|Hge];
    [|exists r, completed; split; [done|]; split; [done|]; split; [done|]; by replace count with completed by lia]); [lia|].
  apply attempted_next in Ha as Ha'; [|lia|done].
  set (size := Z.min (b_pipeline c) (sat_sub count completed)) in *.
  assert (Hsize : 1 <= size <= count - completed) by (unfold size, sat_sub; lia).
  assert (Hlost : worker_tallied collect (completed + size) (lost size r) /\
    (wr_errors (lost size r) = 0 -> wr_completed (lost size r) = count)).
  { destruct Ht as [H1 H2 H3 H4 H5]. split; [constructor; cbn; try lia; done|cbn; lia]. }
  destruct (write_pipeline _ _ client) as [client1 [[]|e]]; [|by exists (lost size r), (completed + size)].
  destruct (read_batch c a collect (range (first + completed) size) client1 r) as [[client2 r2] ok] eqn:E.
  destruct (read_batch_tally _ _ _ _ _ _ completed _ _ _ E Ht) as (G1 & G2 & G3). rewrite range_length in G1, G3 by lia.
  destruct ok.
  - apply IH; [lia|lia|done|done|]. destruct Ht as [H1 H2 H3 H4 H5]. intros H0. rewrite G3. lia.
  - exists r2, (completed + size). split; [done|]. split; [done|]. split; [done|]. destruct Ht. lia.
Qed.

Lemma run_worker_tally c a client first count collect : bounded c -> 0 <= count ->
  exists r sent, run_worker c a client first count collect = Some r /\ attempted (b_pipeline c) count sent /\
    worker_tallied collect sent r /\ (wr_errors r = 0 -> wr_completed r = count).
Proof.
  intros Hc Hn. apply worker_loop_tally; [done|lia|lia| | |done].
  - destruct (Z.eq_dec count 0) as [->|]; [by left|right]. split; [lia|]. exists 0. lia.
  - constructor; cbn; try lia. by destruct collect.
Qed.

(** ** A phase *)

Definition run_tallied (collect : bool) (sent total : Z) (r : RunResult) : Prop :=
  tallied collect sent (run_completed r) (run_errors r) (run_transport_errors r) (run_latency_nanoseconds r) /\
  (run_errors r = 0 -> run_completed r = total).

Lemma add_worker_tally collect n total k count r w : run_tallied collect n total r -> worker_tallied collect k w ->
  (wr_errors w = 0 -> wr_completed w = count) -> run_tallied collect (n + k) (total + count) (add_worker r w).
Proof.
  intros [[A1 A2 A3 A4 A5] A6] [B1 B2 B3 B4 B5] B6. split; [|cbn; lia].
  constructor; cbn; try lia. rewrite len_app, A5, B5. destruct collect; lia.
Qed.

Definition share_total (l : list (Z * Z)) : Z := fold_right (fun s acc => s.2 + acc) 0 l.

Lemma share_total_length l : Forall (fun s => 0 <= s.2) l -> len (concat (map share_operations l)) = share_total l.
Proof.
  induction 1 as [|s l Hs _ IH]; [done|]. cbn [map concat share_total fold_right]. rewrite len_app, IH. unfold share_operations.
  by rewrite range_length.
Qed.

Lemma sent_at_most pipeline shares sent :
  Forall2 (attempted pipeline) (map snd shares) sent -> zsum sent <= share_total shares.
Proof.
  revert sent. induction shares as [|s shares IH]; intros sent H; inversion H as [|? k ? l Hk Hl]; subst; [done|].
  change (share_total (s :: shares)) with (s.2 + share_total shares). change (zsum (k :: l)) with (k + zsum l).
  apply IH in Hl. destruct Hk as [?|[? _]]; lia.
Qed.

Lemma workers_tally c collect (connections : nat -> bench_connection) (jobs : list (nat * (RespClient * (Z * Z)))) r n total :
  bounded c -> Forall (fun s => 0 <= s.2) (map (fun j => j.2.2) jobs) -> run_tallied collect n total r ->
  exists results sent, mapM (fun '(worker, (client, (first_operation, request_count))) =>
      run_worker c (connections worker) client first_operation request_count collect) jobs = Some results /\
    run_requested (fold_left add_worker results r) = run_requested r /\
    Forall2 (attempted (b_pipeline c)) (map snd (map (fun j => j.2.2) jobs)) sent /\
    run_tallied collect (n + zsum sent) (total + share_total (map (fun j => j.2.2) jobs)) (fold_left add_worker results r).
Proof.
  intros Hc. revert r n total. induction jobs as [|[worker [client [first count]]] jobs IH]; intros r n total Hj Hr; cbn [map] in *.
  - exists [], []. split; [done|]. split; [done|]. split; [constructor|]. cbn. by rewrite !Z.add_0_r.
  - apply list.Forall_cons in Hj as [Hn Hj]. cbn in Hn.
    destruct (run_worker_tally c (connections worker) client first count collect Hc Hn) as (w & k & Ew & Ha & Hw & Hz).
    destruct (IH (add_worker r w) (n + k) (total + count) Hj) as (results & sent & Em & Hq & Hs & Ht); [by apply add_worker_tally|].
    exists (w :: results), (k :: sent). cbn [mapM]. rewrite Ew. cbn [mbind option_bind]. rewrite Em. split; [done|].
    cbn [fold_left]. split; [done|]. split; [by constructor|].
    change (share_total (?s :: ?l)) with (s.2 + share_total l). change (zsum (k :: sent)) with (k + zsum sent).
    cbn [snd]. rewrite !Z.add_assoc. exact Ht.
Qed.

(** How many requests a worker gets does not depend on where they start. *)
Lemma share_counts c requests offset offset' :
  map snd (phase_shares c requests offset) = map snd (phase_shares c requests offset').
Proof.
  unfold phase_shares. generalize (seq 0 (Z.to_nat (Z.min (b_concurrency c) requests))). intros ws.
  revert offset offset'. induction ws as [|w ws IH]; intros offset offset'; [done|]. cbn [worker_shares map snd]. f_equal. apply IH.
Qed.

Lemma connect_clients_length authentication connections clients :
  connect_clients authentication connections = Ok clients -> length clients = length connections.
Proof.
  revert clients. induction connections as [|a l IH]; intros clients; cbn [connect_clients]; [by intros [= <-]|].
  intros H. inv_binds. subst. cbn [length]. f_equal. by apply IH.
Qed.

(** What a phase answers: it always ends, and every request that a worker has
    sent is answered or lost. *)
Record phase_result (c : BenchmarkConfig) (requests : Z) (collect : bool) (r : RunResult) : Prop := {
  pr_requested : run_requested r = requests;
  pr_tallied : exists sent, Forall2 (attempted (b_pipeline c)) (map snd (phase_shares c requests 0)) sent /\
    tallied collect (zsum sent) (run_completed r) (run_errors r) (run_transport_errors r) (run_latency_nanoseconds r);
  pr_failed : run_failed r = true <-> 0 < run_errors r;
  pr_sorted : Sorted Z.le (run_latency_nanoseconds r)
}.

Lemma run_phase_ends c authentication requests offset collect connections elapsed :
  bounded c -> 0 <= requests ->
  exists res, run_phase c authentication requests offset collect connections elapsed = Some res /\
    match res with Ok r => phase_result c requests collect r | Err _ => True end.
Proof.
  intros Hc Hr. unfold run_phase. destruct (Z.eqb_spec requests 0) as [->|Hne].
  { eexists. split; [done|]. constructor; cbn [run_requested run_completed run_errors run_transport_errors run_latency_nanoseconds]; [done| |done|constructor].
    exists []. split; [|constructor; cbn; try lia; by destruct collect]. unfold phase_shares. rewrite Z.min_r by (destruct (bd_concurrency c Hc); lia). constructor. }
  set (workers := seq 0 _). destruct (connect_clients _ _) as [clients|e] eqn:Ec; [|by exists (Err e)].
  apply connect_clients_length in Ec. rewrite length_map in Ec.
  destruct (phase_cover c requests offset Hc ltac:(lia)) as (Hcov & Hlen & Hshare).
  set (shares := phase_shares c requests offset) in *.
  assert (Hw : length workers = length shares) by (unfold workers; by rewrite length_seq, Hlen).
  assert (Hsnd : map (fun j : nat * (RespClient * (Z * Z)) => j.2.2) (zip workers (zip clients shares)) = shares).
  { rewrite <- (map_map snd snd). change (map snd (map snd (zip workers (zip clients shares)))) with ((zip workers (zip clients shares)).*2.*2).
    rewrite snd_zip by (rewrite length_zip; lia). apply snd_zip. lia. }
  assert (Hnn : Forall (fun s => 0 <= s.2) shares).
  { eapply list.Forall_impl; [exact Hshare|]. intros s Hs. cbn beta in Hs. destruct (bd_concurrency c Hc).
    pose proof (Z.div_pos requests (Z.min (b_concurrency c) requests)). lia. }
  destruct (workers_tally c collect connections (zip workers (zip clients shares)) (mkRun 0 requests 0 0 0 [] None) 0 0 Hc)
    as (results & sent & Em & Hq & Hsent & [Ht Hz]); [by rewrite Hsnd|split; [constructor; cbn; try lia; by destruct collect|done]|].
  rewrite Em. cbn [mbind option_bind]. eexists. split; [done|].
  rewrite Hsnd in Hsent, Hz. rewrite <- (share_total_length _ Hnn), Hcov, range_length, Z.add_0_l in Hz by done.
  rewrite Z.add_0_l in Ht. destruct Ht as [A1 A2 A3 A4 A5].
  constructor; cbn [run_requested run_completed run_errors run_transport_errors run_latency_nanoseconds];
    [exact Hq| | |apply (Sorted_merge_sort _)].
  - exists sent. split; [by rewrite (share_counts c requests 0 offset)|].
    constructor; try done. unfold len in *. by rewrite merge_sort_Permutation.
  - assert (Hsum : zsum sent <= requests).
    { rewrite <- (Z.add_0_l requests). apply (sent_at_most (b_pipeline c) shares) in Hsent.
      rewrite <- (share_total_length _ Hnn), Hcov, range_length in Hsent by done. lia. }
    unfold run_failed. cbn. rewrite Hq. cbn. rewrite orb_true_iff, negb_true_iff.
    split; [intros [?|?]; lia|intros; left; lia].
Qed.

(** ** The whole program *)

Lemma dataset_loop_ends fuel batch step keyspace start command fine context a client :
  1 <= step -> keyspace - start <= Z.of_nat fuel ->
  exists r, dataset_loop fuel batch step keyspace start command fine context a client = Some r.
Proof.
  intros Hs. revert batch start client. induction fuel as [|fuel IH]; intros batch start client Hf; cbn [dataset_loop];
    (destruct (Z.ltb_spec start keyspace); [|by eexists]); [lia|].
  destruct (write_pipeline _ _ client) as [client1 [[]|e]]; [|by eexists].
  destruct (expect_responses _ _ _ _) as [client2|e]; [|by eexists]. apply IH. lia.
Qed.

Lemma prepare_ends c authentication a : bounded c -> exists r, prepare_dataset c authentication a = Some r.
Proof.
  intros [_ _ _ _ Hk _ _ _]. unfold prepare_dataset. destruct (negb _); [by eexists|].
  destruct (connect_client _ _) as [client|e]; [|by eexists].
  edestruct dataset_loop_ends as [r ->]; [unfold setup_pipeline; lia|lia|]. by eexists.
Qed.

Lemma cleanup_ends c authentication a : bounded c -> exists r, cleanup_dataset c authentication a = Some r.
Proof.
  intros [_ _ _ _ Hk _ _ _]. unfold cleanup_dataset. destruct (b_keep_data c); [by eexists|].
  destruct (connect_client _ _) as [client|e]; [|by eexists].
  edestruct dataset_loop_ends as [r ->]; [unfold SETUP_PIPELINE; lia|lia|]. by eexists.
Qed.

Lemma measured_run_ends e c authentication n : bounded c ->
  exists res, measured_run e c authentication n = Some res /\
    match res with Ok r => phase_result c (b_requests c) true r | Err _ => True end.
Proof.
  intros Hc. pose proof (bd_requests c Hc) as Hr. unfold measured_run.
  destruct (match b_metrics_address c with Some _ => _ | None => _ end) as [before|x]; [|by exists (Err x)].
  edestruct run_phase_ends as (res & -> & Hres); [exact Hc|lia|]. cbn [mbind option_bind].
  destruct res as [r|x]; [|by exists (Err x)]. destruct before as [before|]; [|by exists (Ok r)].
  eexists. split; [done|]. destruct (fetch_quiescent_server_metrics _) as [after|x]; [|done]. by destruct Hres.
Qed.

Lemma measured_runs_end e c authentication repeats : bounded c ->
  exists res, measured_runs e c authentication repeats = Some res /\
    match res with Ok l => length l = length repeats /\ Forall (phase_result c (b_requests c) true) l | Err _ => True end.
Proof.
  intros Hc. induction repeats as [|n repeats IH]; cbn [measured_runs]; [by exists (Ok [])|].
  destruct (measured_run_ends e c authentication n Hc) as (res & -> & Hres). cbn [mbind option_bind].
  destruct res as [r|x]; [|by exists (Err x)]. destruct IH as (rest & -> & Hrest). cbn [mbind option_bind].
  eexists. split; [done|]. destruct rest as [l|x]; [|done]. destruct Hrest as [Hl Hall]. split; [cbn; by rewrite Hl|by constructor].
Qed.

Lemma no_run_failed c requests collect l : Forall (phase_result c requests collect) l ->
  existsb run_failed l = false <-> Forall (fun r => run_errors r = 0) l.
Proof.
  induction 1 as [|r l [_ (sent & _ & [_ Ht _ _ _]) Hf _] _ IH]; [by split|]. cbn [existsb]. rewrite orb_false_iff, list.Forall_cons, IH.
  destruct (run_failed r); [|intuition lia]. split; [by intros [? _]|]. intros [H0 _]. destruct Hf as [Hf _]. specialize (Hf eq_refl). lia.
Qed.

End Batches.

(** ** Values that change *)

Lemma marker_digit_inj a b : 0 <= a < 16 -> 0 <= b < 16 -> marker_digit a = marker_digit b -> a = b.
Proof.
  intros Ha Hb H.
  assert (Hall : forallb (fun x => forallb (fun y => implb (bool_decide (marker_digit x = marker_digit y)) (x =? y)) (range 0 16)) (range 0 16) = true)
    by (vm_compute; reflexivity).
  assert (Hin : forall z, 0 <= z < 16 -> In z (range 0 16)).
  { intros z Hz. unfold range. apply in_map_iff. exists (Z.to_nat z). split; [lia|]. apply in_seq. lia. }
  rewrite forallb_forall in Hall. specialize (Hall a (Hin a Ha)). rewrite forallb_forall in Hall. specialize (Hall b (Hin b Hb)).
  rewrite bool_decide_eq_true_2 in Hall by done. by apply Z.eqb_eq.
Qed.

(** A value starts with the last digits of its generation. *)
Lemma string_value_starts c operation : 1 <= b_payload_size c -> exists front rest,
  string_value c operation = front ++ [marker_digit (Z.land (operation / b_keyspace c) 15)] ++ rest /\
  length front = (Z.to_nat (Z.min 16 (b_payload_size c)) - 1)%nat.
Proof.
  intros Hp. unfold string_value. destruct (Z.eqb_spec (b_payload_size c) 0); [lia|]. set (g := operation / b_keyspace c).
  assert (Hm : length (hex16 g) = 16%nat) by apply hex_length. unfold len at 1. rewrite Hm.
  set (k := Z.to_nat (Z.min (Z.of_nat 16) (b_payload_size c))). assert (Hk : (1 <= k <= 16)%nat) by (unfold k; lia).
  assert (Hd : drop (16 - k) (hex16 g) = drop (16 - k) (hex_digits 15 (Z.shiftr g 4)) ++ [marker_digit (Z.land g 15)]).
  { unfold hex16. cbn [hex_digits]. fold (hex_digits 15 (Z.shiftr g 4)). rewrite drop_app_le; [done|]. rewrite hex_length. lia. }
  eexists _, _. rewrite Hd, <- (assoc_L (++)). split; [done|]. rewrite length_drop, hex_length. unfold k. lia.
Qed.

Lemma generations_differ c operation d : 1 <= b_payload_size c -> 1 <= b_keyspace c -> 0 < d < 16 ->
  string_value c operation <> string_value c (operation + d * b_keyspace c).
Proof.
  intros Hp Hk Hd E. destruct (string_value_starts c operation Hp) as (f1 & r1 & E1 & L1).
  destruct (string_value_starts c (operation + d * b_keyspace c) Hp) as (f2 & r2 & E2 & L2). rewrite E1, E2 in E.
  apply app_inj_1 in E as [_ E]; [|lia]. injection E as E _. rewrite Z.div_add in E by lia.
  rewrite !(Z.land_ones _ 4) in E by lia. change (2 ^ 4) with 16 in E.
  apply marker_digit_inj in E; [|apply Z.mod_pos_bound; lia|apply Z.mod_pos_bound; lia].
  pose proof (Z.mod_pos_bound (operation / b_keyspace c) 16). pose proof (Z.mod_pos_bound (operation / b_keyspace c + d) 16).
  pose proof (Z.div_mod (operation / b_keyspace c) 16). pose proof (Z.div_mod (operation / b_keyspace c + d) 16). lia.
Qed.

(** ** Percentiles *)

(** The rank of the nearest-rank method, for thousandths of the samples. *)
Definition nearest_rank (thousandths count : Z) : Z := (thousandths * count + 999) / 1000.

Definition ranks_agree (n : Z) : bool :=
  (percentile_rank n P50 =? nearest_rank 500 n) && (percentile_rank n P95 =? nearest_rank 950 n)
  && (percentile_rank n P99 =? nearest_rank 990 n)
  && (percentile_rank n P99_9 =? nearest_rank 999 n + (if n mod 1000 =? 0 then 1 else 0)).

Lemma ranks_checked : forallb ranks_agree (range 1 3000) = true.
Proof. vm_compute. reflexivity. Qed.

Lemma percentile_sample values p : values <> [] -> percentile_nanoseconds values p ∈ values.
Proof.
  destruct values as [|x l] eqn:E; [done|]. intros _. unfold percentile_nanoseconds. rewrite <- E.
  apply list_elem_of_In, nth_In. assert (0 < len values) by (rewrite E, len_cons; pose proof (len_nonneg l); lia).
  unfold len in *. unfold sat_sub. lia.
Qed.

Lemma server_metrics_table {JN : JsonNumber} {SJ : SerdeJson} {HO : HashOrder} w m p st st' l :
  server_metrics w m p st = Some (st', l) -> forallb described l = true /\ NoDup (map mt_name l) /\ l <> [].
Proof.
  unfold server_metrics, mbind, prog_bind. destruct (store_stats _ st) as [[st1 s]|]; [|done].
  destruct (used_memory_bytes _ st1) as [[st2 used]|]; [|done]. intros [= _ <-]. apply table_described.
Qed.

Lemma parse_repeats process timestamp arguments c :
  BenchmarkConfig_parse process timestamp arguments = Ok c -> 1 <= b_repeats c.
Proof.
  unfold BenchmarkConfig_parse. intros H. inv_binds. subst. match goal with H : BenchmarkConfig_validate c = _ |- _ => revert H end.
  unfold BenchmarkConfig_validate. intros H. inv_binds.
  match goal with H : validate_range _ (b_repeats c) _ _ = _ |- _ => apply validate_range_Ok in H; lia end.
Qed.

Lemma apply_option_warmup option value c c' :
  apply_bench_option option value c = Ok c' -> 0 <= b_warmup_requests c -> 0 <= b_warmup_requests c'.
Proof.
  unfold apply_bench_option. destruct c. cbn [b_warmup_requests]. intros H Hw.
  repeat (destruct (bytes_eqb option _)); repeat case_match; try discriminate H; injection H as <-; cbn; try exact Hw;
  match goal with H : parse_usize value = Some _ |- _ => apply parse_unsigned_range in H; [lia|done] end.
Qed.

Lemma parse_options_warmup c arguments c' :
  parse_bench_options arguments c = Ok c' -> 0 <= b_warmup_requests c -> 0 <= b_warmup_requests c'.
Proof.
  revert c. induction arguments as [arguments IH] using (induction_ltof1 _ (@length bytes)). unfold ltof in IH. intros c.
  destruct arguments as [|o rest]; cbn [parse_bench_options]; [by intros [= <-]|].
  destruct (bool_decide (o ∈ valued_options)).
  - destruct rest as [|v rest]; [done|]. destruct (apply_bench_option o v c) as [c1|] eqn:E; [|done]. intros H Hw.
    apply (IH rest) with (c := c1); [cbn; lia|done|]. by eapply apply_option_warmup.
  - destruct (bytes_eqb o _); [intros H Hw; apply (IH rest) with (c := set_keep_data c); [cbn; lia|done|done]|].
    by destruct (_ || _).
Qed.

Lemma parse_warmup process timestamp arguments c :
  BenchmarkConfig_parse process timestamp arguments = Ok c -> 0 <= b_warmup_requests c.
Proof. unfold BenchmarkConfig_parse. intros H. inv_binds. subst. by eapply parse_options_warmup. Qed.

(** * What the benchmark shows *)

Section Claims.
Context {JN : JsonNumber} {SJ : SerdeJson} {HO : HashOrder} {FT : FloatText}.

(** C37: The benchmark reads back what the server reports.  From the response of
    the metrics endpoint it gets, for every metric of the server's table, the
    value the table has, no other sample, and as counters exactly the metrics
    of that type; for texts of [f64] that obey the laws of the language. *)
Theorem metrics_read_back (laws : FloatTextLaws) (w : world) (m : metric_readings) (p : Persistence)
    (st st' : ShardedStore) (response : bytes)
    (Hserved : serve_metrics w m p st = Some (st', Some response))
    (Hrange : forall st1 l, server_metrics w m p st = Some (st1, l) -> Forall in_range l)
    (Hlimit : len response <= MAX_METRICS_RESPONSE_BYTES) :
  exists l s, server_metrics w m p st = Some (st', l) /\ fetch_server_metrics (Ok response) = Ok s /\
    NoDup (map mt_name l) /\ (forall v, v ∈ l -> samples s !! mt_name v = Some (value_bits v)) /\
    (forall name, name ∉ map mt_name l -> samples s !! name = None) /\
    (forall name, name ∈ counters s <-> exists v, v ∈ l /\ mt_name v = name /\ mt_type v = bs "counter").
Proof.
  unfold serve_metrics in Hserved. destruct (is_fail_stopped p); [done|]. unfold format_prometheus_metrics in Hserved.
  unfold mbind, prog_bind in Hserved. destruct (server_metrics w m p st) as [[st1 l]|] eqn:E; [|done].
  cbn in Hserved. injection Hserved as <- <-. destruct (server_metrics_table _ _ _ _ _ _ E) as (Hd & Hnd & Hne).
  destruct (read_back l) as (s & Es & H1 & H2 & H3);
    [|exact Hnd|exact Hne|exact Hlimit|exists l, s; exact (conj eq_refl (conj Es (conj Hnd (conj H1 (conj H2 H3)))))].
  pose proof (Hrange _ _ eq_refl) as Hr. rewrite list.Forall_forall in Hr. apply list.Forall_forall. intros v Hv.
  rewrite forallb_forall in Hd. split; [by apply Hd, list_elem_of_In|by apply Hr].
Qed.

(** No batch is refused for its size.  With a configuration the benchmark
    accepts, every batch of a worker, of the preparation and of the cleanup
    stays within the limits of the client, so that it is written as a whole
    unless the connection fails; for JSON texts as compact as the language
    makes them. *)
Theorem bench_batches_fit (process timestamp : Z) (arguments : list bytes) (c : BenchmarkConfig)
    (Hparse : BenchmarkConfig_parse process timestamp arguments = Ok c)
    (Hjson : forall count, 0 <= count <= U64_MAX -> len (json_value c count) <= b_payload_size c + 64) :
  (forall w client first n, 0 < n <= b_pipeline c -> 0 <= first -> first + n <= U64_MAX ->
    exists output, encode_pipeline (map (bench_command c) (range first n)) [] = Ok output /\
      write_pipeline w (map (bench_command c) (range first n)) client = write_within w output client) /\
  (forall w client first n, 0 < n <= setup_pipeline c ->
    exists output, encode_pipeline (map (setup_command c) (range first n)) [] = Ok output /\
      write_pipeline w (map (setup_command c) (range first n)) client = write_within w output client) /\
  (forall w client first n, 0 < n <= SETUP_PIPELINE ->
    exists output, encode_pipeline (map (fun index => [bs "DEL"; bench_key c index]) (range first n)) [] = Ok output /\
      write_pipeline w (map (fun index => [bs "DEL"; bench_key c index]) (range first n)) client = write_within w output client).
Proof.
  pose proof (parse_bounded _ _ _ _ Hparse) as Hc. pose proof (len_nonneg (b_key_prefix c)).
  pose proof Hc as [_ _ _ Hp _ Hy Hk Hb]. unfold MAX_PIPELINE_COMMANDS, MAX_PAYLOAD_SIZE, MAX_PIPELINE_BYTES in *.
  set (size := b_payload_size c + len (b_key_prefix c) + 512) in *.
  assert (Hsize : 0 <= size <= max_frame_len CLIENT_RESP_LIMITS) by (change (max_frame_len CLIENT_RESP_LIMITS) with 16777216; lia).
  split; [|split]; intros w client first n Hn.
  - intros H0 Hu. apply (batch_written size); [unfold MAX_PIPELINE_COMMANDS; lia| |done|unfold MAX_PIPELINE_BYTES; nia].
    intros x Hx. apply bench_command_fits; [done|]. apply Hjson. lia.
  - assert (Hsetup : setup_pipeline c <= 256 /\ size * setup_pipeline c <= 67108864).
    { assert (He : estimated_command_bytes c = size) by (unfold estimated_command_bytes, sat_add, USIZE_MAX, U64_MAX; lia).
      unfold setup_pipeline, SETUP_PIPELINE, MAX_PIPELINE_BYTES. rewrite He, (Z.max_l size 1) by lia.
      pose proof (Z.mul_div_le (64 * 1024 * 1024) size ltac:(lia)). nia. }
    apply (batch_written size); [unfold MAX_PIPELINE_COMMANDS; lia| |done|unfold MAX_PIPELINE_BYTES; nia].
    intros x Hx. apply setup_command_fits; [done|]. apply Hjson. done.
  - unfold SETUP_PIPELINE in Hn. apply (batch_written (len (b_key_prefix c) + 512)); [unfold MAX_PIPELINE_COMMANDS; lia| |lia|unfold MAX_PIPELINE_BYTES; nia].
    intros x Hx. by apply delete_command_fits.
Qed.

(** The operations of a phase are divided among its workers without gap or
    overlap, in order, and evenly; and as long as generations count up, the
    writes of a key that follow each other write different values. *)
Theorem operations_divided (process timestamp : Z) (arguments : list bytes) (c : BenchmarkConfig) (requests offset : Z)
    (Hparse : BenchmarkConfig_parse process timestamp arguments = Ok c) (Hrequests : 1 <= requests) :
  (concat (map share_operations (phase_shares c requests offset)) = range offset requests /\
   length (phase_shares c requests offset) = Z.to_nat (Z.min (b_concurrency c) requests) /\
   (exists q, Forall (fun s => q <= s.2 <= q + 1) (phase_shares c requests offset))) /\
  (forall operation d, 1 <= b_payload_size c -> 0 < d < 16 ->
    bench_key c (operation + d * b_keyspace c) = bench_key c operation /\
    string_value c (operation + d * b_keyspace c) <> string_value c operation).
Proof.
  pose proof (parse_bounded _ _ _ _ Hparse) as Hc. destruct (phase_cover c requests offset Hc Hrequests) as (H1 & H2 & H3).
  split; [split; [done|split; [done|by eexists]]|]. intros operation d Hp Hd. destruct (bd_keyspace c Hc) as [Hk _]. split.
  - unfold bench_key. by rewrite Z.mod_add by lia.
  - apply not_eq_sym. by apply generations_differ.
Qed.

(** C38: The benchmark always ends, and its report accounts for every request.
    In each run a worker sends all its requests, or whole batches up to the one
    in which its connection fails; every request sent is answered, with one
    latency, in order, or counted as lost.  The benchmark succeeds exactly when
    no run has an error, and then every request was answered with a valid
    response. *)
Theorem benchmark_accounts (e : bench_environment) (arguments : list bytes) :
  exists out, bench_main e arguments = Some out /\
  match out with
  | Reports c _ results final =>
    bounded c /\ len results = b_repeats c /\ Forall (phase_result c (b_requests c) true) results /\
    (final = Ok tt <-> Forall (fun r => run_errors r = 0) results) /\
    Forall (fun r => run_errors r = 0 -> run_completed r = b_requests c) results
  | _ => True
  end.
Proof.
  unfold bench_main. destruct (BenchmarkConfig_parse _ _ arguments) as [c|x] eqn:E; [|by eexists].
  pose proof (parse_repeats _ _ _ _ E) as Hrep. apply parse_bounded in E as Hc.
  pose proof (parse_warmup _ _ _ _ E) as Hwarm.
  destruct (authentication_from_environment _) as [authentication|x]; [|by eexists].
  destruct (prepare_ends c authentication (be_setup e) Hc) as [prepared ->]. cbn [mbind option_bind].
  destruct prepared as [[]|x]; [|by eexists].
  destruct (run_phase_ends c authentication (b_warmup_requests c) 0 false (be_warmup e) 0 Hc Hwarm) as (warmup & -> & _).
  cbn [mbind option_bind]. destruct (cleanup_ends c authentication (be_cleanup e) Hc) as [cleaned ->].
  destruct warmup as [warmup|x]; [|by eexists]. destruct (run_failed warmup); [by eexists|].
  destruct (measured_runs_end e c authentication (seq 0 (Z.to_nat (b_repeats c))) Hc) as (runs & -> & Hruns).
  cbn [mbind option_bind]. destruct runs as [results|x]; [|by eexists]. eexists. split; [done|].
  destruct cleaned as [[]|x]; [|done]. destruct Hruns as [Hl Hall]. rewrite length_seq in Hl.
  split; [done|]. split; [unfold len; lia|]. split; [done|]. split.
  - rewrite <- (no_run_failed _ _ _ _ Hall). by destruct (existsb run_failed results).
  - eapply list.Forall_impl; [exact Hall|]. intros r [H1 _ H3 _] H0. cbn beta.
    destruct (Z.eq_dec (run_completed r) (run_requested r)) as [Heq|Hne]; [lia|].
    assert (Hf : run_failed r = true) by (unfold run_failed; rewrite (proj2 (Z.eqb_neq _ _) Hne), orb_true_r; done).
    apply H3 in Hf. lia.
Qed.

(** A percentile is one of the samples.  For up to 3,000 samples the ranks
    of p50, p95 and p99 are those of the nearest-rank method; that of p99.9 is
    one too high for every multiple of 1,000 samples, as for the 100,000
    requests of the default configuration. *)
Theorem percentiles_almost_nearest_rank (values : list Z) (n : Z) (p : spec_float)
    (Hvalues : values <> []) (Hn : 1 <= n <= 3000) :
  percentile_nanoseconds values p ∈ values /\
  percentile_rank n P50 = nearest_rank 500 n /\ percentile_rank n P95 = nearest_rank 950 n /\
  percentile_rank n P99 = nearest_rank 990 n /\
  percentile_rank n P99_9 = nearest_rank 999 n + (if n mod 1000 =? 0 then 1 else 0) /\
  percentile_rank DEFAULT_REQUESTS P99_9 = nearest_rank 999 DEFAULT_REQUESTS + 1.
Proof.
  split; [by apply percentile_sample|]. assert (H : ranks_agree n = true).
  { pose proof ranks_checked as Hall. rewrite forallb_forall in Hall. apply Hall. unfold range. apply in_map_iff.
    exists (Z.to_nat (n - 1)). split; [lia|]. apply in_seq. lia. }
  unfold ranks_agree in H. rewrite !andb_true_iff, !Z.eqb_eq in H. destruct H as [[[H1 H2] H3] H4].
  split; [done|]. split; [done|]. split; [done|]. split; [done|]. vm_compute. reflexivity.
Qed.

End Claims.

(** ** Instances *)

(** Texts of [f64] that keep the bits. *)
Definition bench_floats : FloatText := {|
  f64_parse s :=
    match s with
    | x70 :: r => Some (digits_value 0 r)
    | x6d :: r => Some (- digits_value 0 r)
    | _ => option_map (fun n => F64.encode (f64_of n)) (parse_u64 s)
    end;
  f64_display d := if 0 <=? d then x70 :: print_Z d else x6d :: print_Z (- d);
  f64_percent a b := print_Z (a * 100 / b) ++ bs ".0"
|}.

Lemma bench_laws : @FloatTextLaws bench_floats.
Proof.
  assert (Hdisplay : forall d, @f64_parse bench_floats (@f64_display bench_floats d) = Some d /\ token (@f64_display bench_floats d) = true).
  { assert (Hback : forall n, 0 <= n -> digits_value 0 (print_Z n) = n /\ forallb graphic (print_Z n) = true).
    { intros n Hn. split; [|by apply token_spec, digits_token]. by destruct (print_Z_spec n Hn) as (x & l & -> & _ & Hv). }
    intros d. unfold f64_parse, f64_display, bench_floats. cbv beta iota. destruct (Z.leb_spec 0 d) as [Hd|Hd].
    - cbv iota. destruct (Hback d Hd) as [-> Hg]. split; [done|]. unfold token. cbn [forallb]. rewrite Hg. reflexivity.
    - cbv iota. destruct (Hback (- d)) as [-> Hg]; [lia|]. split; [f_equal; lia|]. unfold token. cbn [forallb]. rewrite Hg. reflexivity. }
  constructor.
  - intros n Hn. pose proof (parse_print_unsigned U64_MAX n Hn) as Hp. destruct (print_Z_spec n) as (x & l & E & Hd & _); [lia|].
    rewrite E in *. inversion Hd as [|? ? Hx _]; subst. unfold f64_parse, bench_floats. cbv iota beta. fold parse_u64 in Hp.
    destruct x; try (vm_compute in Hx; discriminate Hx); by rewrite Hp.
  - intros n _. apply Hdisplay.
  - intros n _. apply Hdisplay.
Qed.

Definition bench_world : world := mkWorld (fun _ => still) (fun _ _ => 0) (fun _ => mkCounters 0 false 3 5 1 1).
Definition bench_readings : metric_readings := mkReadings [] (Some (fun _ => 0)) (fun _ => 7) (fun _ => 0).

Definition range_check (v : metric) : bool :=
  match mt_value v with
  | Count n => (0 <=? n) && (n <=? U64_MAX)
  | Seconds d => (d =? seconds_bits 0) || (d =? seconds_bits 7)
  end.

Lemma range_checked v : range_check v = true -> in_range v.
Proof.
  unfold range_check, in_range. destruct (mt_value v) as [n|d]; [rewrite andb_true_iff; lia|].
  rewrite orb_true_iff, !Z.eqb_eq. intros [->| ->]; [by exists 0|by exists 7].
Qed.

Lemma metrics_read_back_witness :
  exists st' response l s,
    serve_metrics (FT := bench_floats) bench_world bench_readings pair_server pair_store = Some (st', Some response) /\
    server_metrics bench_world bench_readings pair_server pair_store = Some (st', l) /\
    fetch_server_metrics (FT := bench_floats) (Ok response) = Ok s /\
    forall v, v ∈ l -> samples s !! mt_name v = Some (value_bits v).
Proof.
  assert (Hlen : match serve_metrics (FT := bench_floats) bench_world bench_readings pair_server pair_store with
                 | Some (_, Some r) => len r <=? MAX_METRICS_RESPONSE_BYTES | _ => false end = true) by (vm_compute; reflexivity).
  assert (Hall : match server_metrics bench_world bench_readings pair_server pair_store with
                 | Some (_, l) => forallb range_check l | None => true end = true) by (vm_compute; reflexivity).
  destruct (serve_metrics (FT := bench_floats) bench_world bench_readings pair_server pair_store) as [[st' [response|]]|] eqn:E;
    try discriminate Hlen.
  destruct (metrics_read_back (FT := bench_floats) bench_laws bench_world bench_readings pair_server pair_store st' response E)
    as (l & s & H1 & H2 & _ & H3 & _).
  - intros st1 l El. rewrite El in Hall. rewrite forallb_forall in Hall. apply list.Forall_forall. intros v Hv.
    apply range_checked, Hall. by apply list_elem_of_In.
  - by apply Z.leb_le.
  - exists st', response, l, s. split; [reflexivity|]. split; [exact H1|]. split; [exact H2|exact H3].
Defined.

Definition small_bench : list bytes :=
  [bs "onyx-bench"; bs "--workload"; bs "set"; bs "--payload-size"; bs "3"; bs "--keyspace"; bs "2";
   bs "--key-prefix"; bs "bench"; bs "--concurrency"; bs "4"; bs "--pipeline"; bs "16"].

Definition small_config : BenchmarkConfig :=
  mkBench (bs "127.0.0.1:6380") (bs "onyxdb") WSet DEFAULT_REQUESTS DEFAULT_WARMUP_REQUESTS 4 16 2 3 DEFAULT_REPEATS OHuman
    (bs "bench") false None.

Lemma small_parsed : BenchmarkConfig_parse 1 2 small_bench = Ok small_config.
Proof. vm_compute. reflexivity. Qed.

Lemma bench_batches_fit_witness :
  exists output, encode_pipeline (map (bench_command small_config) (range 0 16)) [] = Ok output /\
    forall client, write_pipeline Wrote (map (bench_command small_config) (range 0 16)) client = write_within Wrote output client.
Proof.
  destruct (bench_batches_fit 1 2 small_bench small_config small_parsed) as [H _]; [intros count _; vm_compute; discriminate|].
  destruct (encode_pipeline (map (bench_command small_config) (range 0 16)) []) as [output|] eqn:E.
  - exists output. split; [reflexivity|]. intros client.
    destruct (H Wrote client 0 16 ltac:(split; [reflexivity|vm_compute; discriminate]) ltac:(reflexivity || (vm_compute; discriminate)) ltac:(vm_compute; discriminate)) as (o & Eo & Hw).
    rewrite E in Eo. injection Eo as <-. exact Hw.
  - exfalso. vm_compute in E. discriminate E.
Defined.

Lemma operations_divided_witness :
  concat (map share_operations (phase_shares small_config 10 100)) = range 100 10 /\
  string_value small_config 3 <> string_value small_config 1.
Proof.
  destruct (operations_divided 1 2 small_bench small_config 10 100 small_parsed ltac:(vm_compute; discriminate)) as [(H & _) Hv].
  split; [exact H|]. apply (Hv 1 1); [vm_compute; discriminate|split; reflexivity].
Defined.

Lemma percentiles_almost_nearest_rank_witness :
  percentile_rank 1000 P99_9 = 1000 /\ nearest_rank 999 1000 = 999 /\ percentile_nanoseconds [3; 5; 8] P50 ∈ [3; 5; 8].
Proof.
  destruct (percentiles_almost_nearest_rank [3; 5; 8] 1000 P50) as (H0 & _ & _ & _ & H & _);
    [discriminate|split; vm_compute; discriminate|]. split; [rewrite H; reflexivity|]. split; [reflexivity|exact H0].
Defined.
